(* ===== verification/_CoqProject ===== *)
-Q . S2P
Prelude.v
BitVector.v
Convert.v
Hash.v
Merkle.v
Wire.v
Types.v
PartSet.v
Signer.v
Votes.v
CSASet.v
Codecs.v
RangeTree.v
ShardInfo.v
HeightData.v
Store.v
Backend.v
Engines.v
Consensus.v
ConsensusSafety.v
MemDB.v
BankTx.v
Bank.v
BankSpec.v
BankVotes.v
CList.v
Mempool.v
Relay.v
Termination.v
Node.v
Network.v
Importer.v
EventLog.v
Deploy.v
PyramidTypes.v
PyramidBank.v
PyramidBankSpec.v
PyramidCommit.v
PyramidRuns.v
PyramidVotes.v
PyramidVotesSpec.v
PyramidHeight.v
PyramidHeightSpec.v
PyramidConsensus.v
PyramidSafety.v
PyramidCodecs.v
PyramidDecisions.v
PyramidPools.v
PyramidTermination.v
PyramidMempool.v
PyramidNode.v
Latency.v
