(* ===== verification/Prelude.v ===== *)
(** * Melete: a verification library

    Melete is a blockchain whose shards form layers. The validators of a shard
    agree on blocks with a three-step vote. A shard of the lower layer (an I
    shard) only orders its own transactions; a shard of the upper layer (a C
    shard) also proposes cross-shard transactions, which its related I shards
    check against their data and answer with signed commit statuses, one bit for
    each transaction; the statuses decide what every involved shard executes.
    The repository holds Melete ([source/melete]) and two protocols it is
    compared with ([source/pyramid], [source/rapid]), over shared packages. All
    paths below are relative to [src/source].

    ** Conventions

    - A Go function that can panic returns in [go]: [Ok a], [Panic] for a
      run-time panic (an index out of range, a nil dereference, [panic(..)]), and
      [OutOfFuel] for a loop that the model cut off. [let!] sequences. A Go
      [error] is an [option goerr], [None] for nil. Theorems on what is returned
      never hold because of [OutOfFuel]: they state the [Ok] result, or the
      fuel is proved to be enough, as listed below.
    - Integers are [Z]; where the width matters the wrap-around is written out
      ([wrap_u], [wrap_s] and their abbreviations). [int] is 64 bits wide.
    - A nil pointer that the code handles is [None] of an [option]; a method that
      changes its receiver returns the new one. Where objects are shared through
      pointers, the model has the heap: the proof nodes of [Merkle], the elements
      of [CList].
    - A handler holds the mutex of its component while it runs, so concurrent
      callers are sequences of calls. Go routines that only send are entries of
      an outbox; the Go routines of one phase of the bank's pre-execution write
      to different entries and run one after the other.
    - Go's iteration over a map has a random order. Where the order can be seen,
      the model takes it as an argument or the environment ([Env], [order])
      chooses it; where it cannot, it is the order of [gmap].

    ** Files

    Shared:

    - [Prelude]: bytes, strings and their order, integers of fixed width, the
      [go] monad, indexing and updating slices, errors, the tactics [go_inv],
      [case_in] and [ends] and their hint databases.
    - [BitVector]: [utils/bit-vector.go]. [Convert]: [utils/convert.go],
      [utils/compare-bytes.go], [libs/math]. [Hash]: [crypto/hash/hash.go] as an
      interface, with SHA-256 as its instance. [Merkle]: [crypto/merkle].
    - [Wire]: the records of [proto/**/*.proto] and the interface [Codec] of the
      protobuf library. [Codecs]: one concrete codec for every message, which
      shows that the interface can be implemented ([PyramidCodecs] for the
      messages of [pyramid]).
    - [Signer]: [utils/signer/bls.go] over the BLS library ([BLS], [BLSLaws]) and
      [utils/p2p/peer.go].
    - [Store]: [utils/store/store.go] over the interface of [libs/db/types.go].
      [Backend]: the in-memory database of [libs/db], which keeps the laws of that
      interface, and the iterators of the store. [Engines]: the wrappers of RocksDB
      and goleveldb in [libs/db] over these libraries ([GoRocksDB], [GoLevelDBLib]),
      which keep the same laws, and the registry of backends ([libs/db/db.go]).
    - [RangeTree]: [utils/RangeTree.go]. [CList]: [libs/clist/clist.go].
    - [Network]: [utils/p2p], sender and receiver, and [createP2p].
    - [Relay]: the messages that both state machines keep for later heights, and
      the heights they are kept for as a measure of the work left.
    - [EventLog]: [logger/blocklogger], the log of a node's steps as it is written
      to disk and read back. [Latency]: [abci/minibank/main/main.go] of the three
      protocols, which measures a stopped node by its log and its store.

    Melete:

    - [Types], [PartSet]: [melete/types], blocks and the parts they are sent in.
    - [Votes], [CSASet]: [melete/consensus/constypes], the messages, their
      checks, and the acceptances of one lower shard.
    - [ShardInfo]: [melete/shardinfo]. [HeightData]:
      [melete/consensus/height_datas.go] and [round-step.go], what a node
      collects in one height.
    - [Consensus]: [melete/consensus/main.go] and [sort_shard.go], the state
      machine of a node, over the interfaces of [melete/definition/module.go]
      ([ABCIConn], [MempoolConn]) and the environment ([Env]: the clock, map
      orders). [ConsensusSafety] and [Termination] hold its theorems.
    - [MemDB], [BankTx], [Bank]: [melete/abci/minibank/{memdb,types,bank}.go] and
      [utils/dep-graph.go], the application. [BankSpec] and [BankVotes] hold its
      theorems.
    - [Mempool]: [melete/mempool/mempool.go].
    - [Node]: [melete/main/start.go]. It gives [ABCIConn] and [MempoolConn] the
      instances [bankConn] and [mempoolConn], so that the theorems proved
      against the interfaces hold of the assembled node. [Deploy]:
      [melete/main/config.go], the files of all nodes of a network. [Importer]:
      [melete/abci/minibank/importer.go], the transactions that a node makes for
      itself and offers to its mempools.

    The comparison protocols. [rapid] repeats [pyramid] file by file, up to log
    lines and texts, so what is modelled of one holds of the other:

    - [PyramidTypes]: what [pyramid/types] changes of [melete/types].
    - [PyramidVotes], [PyramidHeight]: [pyramid/consensus/constypes],
      [height_datas.go], [pyramid/shardinfo]. [PyramidVotesSpec] and
      [PyramidHeightSpec] hold their theorems.
    - [PyramidConsensus]: [pyramid/consensus/main.go] over
      [pyramid/definition]. [PyramidSafety], [PyramidDecisions], [PyramidPools]
      and [PyramidTermination] hold its theorems.
    - [PyramidBank]: [pyramid/abci/minibank]. [PyramidBankSpec] states what each
      operation does to balances and locks, [PyramidCommit] what a decision does,
      [PyramidRuns] what a run of operations keeps.
    - [PyramidMempool], [PyramidNode]: [pyramid/mempool] and
      [pyramid/main/start.go], with the instances [pyramidBankConn] and
      [pyramidMempoolConn].

    ** How the parts work together

    [Network] brings a message to [Receive], which decodes it ([Votes],
    [PartSet]) and hands it to [doMessage], which keeps messages of later
    heights, adds the others to the package of the height ([HeightData]) and lets
    [handleStateTransition] (here [transition]) take every step that became
    possible: [doPropose] checks the block through [PreExecutionC] of the
    application and prevotes, [doPrevote] precommits, [doPrecommit] aggregates
    the precommits and sends the block to the related shards, [doCSA] answers
    with the commit status that [PreExecutionI] computed, [doCSP] collects the
    acceptances, and [doCSC_C], [doCSC_I] execute the blocks with the combined
    commit statuses, store them and update the mempools; [enterNewHeight]
    replays what was kept.

    In [pyramid] the shards run a two-phase commit instead. A B shard agrees on a
    cross-shard block and sends it ([CrossShard]); each related I shard votes on
    it inside its own consensus, where every precommit carries a verdict, locks
    the keys if it accepts ([AcceptCrossShard]) and answers with the certificate
    of its verdict ([MessageAccept]); when all have answered the B shard agrees
    on the outcome and sends it ([MessageCommit]), and the I shards write and
    unlock, or only unlock, the keys ([AcceptCommitShard]). An I shard ends a
    height when its B shards have confirmed that they follow it ([MessageOK]).

    ** What the theorems show

    - Consensus: a node sends at most one prevote and one precommit for a height
      ([one_vote_per_height]); its package is always one of the reachable
      packages of that height ([run_reachable]), whose invariant is
      [reachable_wf]; two decided blocks of one height are equal when fewer than
      a third of the voting power is faulty ([agreement], [FinishPrecommit_quorum]);
      what one shard accepts of another carries a quorum's signature
      ([AddCrossShardProposal_sound], [ValidateVote_sound]), the acceptances of a
      lower shard are counted once for each validator and reported exactly when a
      quorum agrees ([GetMaj23_sound]), and what the sender aggregates verifies
      unless the keys of its signers cancel ([GenerateAggregate_verifies]); every message is handled to
      its end ([doMessage_ends]).
    - Application: all shards execute a cross-shard block to the same values
      ([executionC_agree]), a transfer between distinct accounts conserves money up
      to the sums that wrap and the balances that overflow ([transfer_conserves]) and
      one to oneself creates it ([transfer_to_self_creates]), and the votes of the I
      shards isolate the blocks that are executed side by side
      ([PreExecutionI_isolates], [firstPass_closed]).
    - The two-phase commit: a cross-shard block that was accepted and decided
      has the effect of its transactions executed at once, however other
      operations come between ([committed_atomically]); operations keep locks
      and values apart and typed ([ExecutionInnerShard_isolates],
      [PreExecutionI_votes], [run_typed]).
    - The consensus of the comparison protocols: one prevote and one precommit
      for a height, each precommit with a quorum behind it
      ([votes_once_justified], [package_reachable]); shards agree on block and
      verdict ([verdict_agreement]) and their certificates verify unless the keys of
      the signers cancel ([certificate_verifies]); votes are counted by power
      ([AddVote_counts]); a decision is backed by certificates of related shards,
      though not by one of each and for the block decided on ([decision_backed]). What a node
      keeps of other shards is certified ([pools_certified]); the decision of a
      proposer carries all answers ([decision_complete]) and passes at the other
      validators ([decision_passes]), unless a shard answered that was not asked
      ([unrelated_answer_stops]). Every message is handled to its end, when the
      chain that a B shard follows ends in its store ([doMessage_answered]).
    - Data structures refine their specification: a range tree is a set of
      keys, the concurrent list a list, the mempool a queue of valid
      transactions to which none is added twice ([ReapTx_pool]), the in-memory database a finite map
      ([exec_refines_map]) with ordered iterators ([Iterator_visits]), and so are the
      databases on disk ([backends_agree]); a node only accepts and proposes
      transactions of its shards ([createABCI_validates], [reaped_owned]), and none
      with a locked key ([reaped_unlocked]).
    - Load: the drawing of accounts ends exactly when there are enough of them
      ([generateAccounts_ends]), and a node accepts and proposes all the transfers
      it makes, in order, when the ranges of its shards leave room and nothing else
      is added or committed ([imported_reaped]).
    - Measurements: a log that ends inside a height is read back and its periods
      and rates are those of what was logged ([log_reported]), and the latency tool
      counts in the store the transactions that the log has, but for the last
      finished height, which no block confirms ([latency_counts_log]).
    - Nodes: a deployment gives every node its place
      ([GenerateConfigFiles_places]), and messages arrive in order, but for those
      that follow a write that stopped early ([delivered], [createSender_peers]).
    - Blocks: the hash of a block binds its contents ([Hash_binds]), Merkle proofs
      are sound ([Verify_sound]) and complete, complete sets of parts with one header
      hold the same bytes ([complete_sets_agree]), and the encodings round-trip. The
      first three hold unless two inputs collide that the computations in question
      hash ([Collision], which is decidable): a claim that no two byte strings
      collide would be false of any hash.
    - Where the code misbehaves, a theorem states how
      ([negative_index_panics], [Receipt_roundtrip], [transfer_to_self_creates],
      [negative_count_stalls]), or an [Example] evaluates it.

    ** Fuel

    - [Merkle]: [hashFuel], [trailsFuel], [flattenFuel], [iterLoop] and
      [computeFuel] are given the number of items; every call halves it or
      removes a node, and the completeness and equivalence theorems are about
      the results.
    - [Convert.splitLoop] is given the length of the data; a positive size
      consumes at least one byte a turn ([SplitByteArray_spec]). With size 0
      the Go loop does not end either.
    - [Mempool.reapLoop] and [PyramidMempool.reapLoop] are given the number of
      elements of the list, which they follow once ([ReapTx_pool],
      [reaped_unlocked]).
    - [Consensus.doMessage] recurses through the messages kept for later heights;
      [doMessage_ends] shows that six units for each of them and fifteen more
      are enough, and that no amount is for a validator that is alone.
      [PyramidConsensus.doMessage] recurses in the same way, and [syncBlocks]
      through the blocks of an I shard that a B shard catches up with;
      [doMessage_answered] shows that one more unit for each of these is enough
      ([syncBlocks_ends]).
    - [Network.handleConnection] is the loop of a receiver for a number of turns:
      [delivered] holds for every number, and shows that the loop does not end.
    - A loop over an iterator ([drain], [visited], [walk]) is given the length of
      what it visits.
    - [Importer.redraw] draws until an account is new: no fixed number of draws is
      enough, [generateAccounts_ends] shows when some number is.
    - [Bufio.Write] makes room in two turns ([room_ends]); [readEvents] is given the length of the file.
    - [Hash.blocks] and [Codecs.getList] are given the length of their input.

    ** Not modelled

    - The protobuf, BLS, SHA-256, B-tree, RocksDB and LevelDB libraries, the TCP
      stack, the disk, the JSON encoder and random numbers: they are [Codec], [BLS],
      [Hash] (with the standard's function as an instance), [BTree], [Cursor],
      [GoRocksDB], [GoLevelDBLib], [Net], [Disk], [EnvelopJSON], [EventJSON] and
      [Rand], with their documented laws in [Codec], [BLSLaws] (the pairing equation;
      no law lets the identity key verify), [NetLaws], [BTreeLaws],
      [CursorLaws], [GoRocksDBLaws], [GoLevelDBLaws], [EnvelopJSONLaws],
      [EventJSONLaws] and [RandLaws]. The generated [*.pb.go] only contribute their
      records.
    - [libs/sync], opening sockets and accepting connections, the readers of the
      configuration in [*/main], the scripts and the tests: input and output around
      the parts above.
    - The rates and averages that the log and the latency tools print, which are
      floating-point quotients of the modelled sums.
    - Logging, printing and the timing of Go routines.
    - [rapid] as files of its own. *)

From Stdlib Require Export ZArith Lia.
From Stdlib Require Import Strings.Byte Structures.Orders Structures.OrdersTac.
From stdpp Require Export base gmap list strings sorting.
#[global] Set Default Goal Selector "!".

(** ** Bytes *)

Abbreviation byte := Byte.byte.
Abbreviation bytes := (list Byte.byte).

#[export] Instance byte_eq_dec : EqDecision byte := Byte.byte_eq_dec.

Lemma byte_of_to_N (b : byte) : Byte.of_N (Byte.to_N b) = Some b.
Proof. apply Byte.of_to_N. Qed.

#[export] Instance byte_countable : Countable byte :=
  inj_countable Byte.to_N Byte.of_N byte_of_to_N.

(** The unsigned value of a byte, and the byte of an integer taken modulo 256
    (Go's conversion [byte(v)]). *)
Definition bval (b : byte) : Z := Z.of_N (Byte.to_N b).

Definition byte_of (z : Z) : byte :=
  match Byte.of_N (Z.to_N (z mod 256)) with Some b => b | None => Byte.x00 end.

Lemma bval_range b : (0 <= bval b < 256)%Z.
Proof. unfold bval. pose proof (Byte.to_N_bounded b). lia. Qed.

Lemma bval_byte_of z : bval (byte_of z) = (z mod 256)%Z.
Proof.
  unfold byte_of, bval. pose proof (Z.mod_pos_bound z 256 ltac:(lia)).
  destruct (Byte.of_N _) as [b|] eqn:E.
  - apply Byte.to_of_N in E. rewrite E. lia.
  - apply Byte.of_N_None_iff in E. lia.
Qed.

Lemma byte_of_bval b : byte_of (bval b) = b.
Proof.
  unfold byte_of. rewrite Z.mod_small by apply bval_range.
  unfold bval. rewrite N2Z.id, byte_of_to_N. done.
Qed.

Lemma bval_inj b c : bval b = bval c -> b = c.
Proof. intros E. by rewrite <- (byte_of_bval b), <- (byte_of_bval c), E. Qed.

(** The conversion [[]byte(s)] of a Go string. *)
Definition of_str (s : string) : bytes := String.list_byte_of_string s.

Lemma of_str_inj s t : of_str s = of_str t -> s = t.
Proof.
  unfold of_str. intros E. by rewrite <- (String.string_of_list_byte_of_string s), E,
    String.string_of_list_byte_of_string.
Qed.

(** Go's order on strings is the lexicographic order on bytes. *)
Definition str_lt (s t : string) : Prop := String.ltb s t = true.
Definition str_le (s t : string) : Prop := String.leb s t = true.

#[export] Instance str_lt_dec s t : Decision (str_lt s t).
Proof. unfold str_lt. apply _. Defined.
#[export] Instance str_le_dec s t : Decision (str_le s t).
Proof. unfold str_le. apply _. Defined.

Lemma str_compare_trans s t u :
  String.compare s t = Lt -> String.compare t u = Lt -> String.compare s u = Lt.
Proof.
  revert t u. induction s as [|a s IH]; intros [|b t] [|c u]; simpl; try done.
  unfold Ascii.compare.
  destruct (N.compare_spec (Ascii.N_of_ascii a) (Ascii.N_of_ascii b)) as [E1|E1|E1],
    (N.compare_spec (Ascii.N_of_ascii b) (Ascii.N_of_ascii c)) as [E2|E2|E2],
    (N.compare_spec (Ascii.N_of_ascii a) (Ascii.N_of_ascii c)) as [E3|E3|E3];
    try done; try lia. apply IH.
Qed.

Lemma str_lt_compare s t : str_lt s t <-> String.compare s t = Lt.
Proof. unfold str_lt, String.ltb. by destruct (String.compare s t). Qed.
Lemma str_le_compare s t : str_le s t <-> String.compare s t <> Gt.
Proof. unfold str_le, String.leb. by destruct (String.compare s t). Qed.
Lemma str_compare_refl s : String.compare s s = Eq.
Proof. pose proof (String.compare_antisym s s). by destruct (String.compare s s). Qed.

Lemma str_le_lteq s t : str_le s t <-> str_lt s t \/ s = t.
Proof.
  rewrite str_le_compare, str_lt_compare. split.
  - destruct (String.compare s t) eqn:E; [|auto|done]. intros _. right.
    by apply String.compare_eq_iff.
  - intros [->| ->]; [done|]. by rewrite str_compare_refl.
Qed.

Lemma str_lt_nle s t : str_lt s t <-> ~ str_le t s.
Proof.
  rewrite str_le_compare, str_lt_compare, String.compare_antisym.
  destruct (String.compare t s); simpl; naive_solver.
Qed.

#[export] Instance str_lt_strict : StrictOrder str_lt.
Proof.
  split.
  - intros s. unfold complement. rewrite str_lt_compare, str_compare_refl. done.
  - intros s t u. rewrite !str_lt_compare. apply str_compare_trans.
Qed.

#[export] Instance str_le_total : TotalOrder str_le.
Proof.
  split; [split; [split|]|].
  - intros s. apply str_le_lteq. by right.
  - intros s t u. rewrite !str_le_lteq. intros [?| ->] [?| ->]; auto. left. by transitivity t.
  - intros s t. apply String.leb_antisym.
  - intros s t. assert (forall x y, str_lt x y -> strict str_le x y) as HS.
    { intros x y H. split; [apply str_le_lteq; by left|by apply str_lt_nle]. }
    destruct (String.compare s t) eqn:E.
    + right. left. by apply String.compare_eq_iff.
    + left. by apply HS, str_lt_compare.
    + right. right. apply HS, str_lt_compare. by rewrite String.compare_antisym, E.
Qed.

(** The decision procedure for total orders, on strings. *)
Module StringOrder.
Definition t := string.
Definition eq := @Logic.eq string.
Definition lt := str_lt.
Definition le := str_le.
#[global] Instance eq_equiv : Equivalence eq.
Proof. apply eq_equivalence. Qed.
#[global] Instance lt_strorder : StrictOrder lt.
Proof. exact str_lt_strict. Qed.
#[global] Instance lt_compat : Proper (eq ==> eq ==> iff) lt.
Proof. by intros x y -> u v ->. Qed.
Lemma le_lteq : forall x y, le x y <-> lt x y \/ eq x y.
Proof. exact str_le_lteq. Qed.
Lemma lt_total : forall x y, lt x y \/ eq x y \/ lt y x.
Proof.
  intros x y. destruct (trichotomy (strict str_le) x y) as [H|[H|H]]; [|by right; left|].
  - left. apply str_lt_nle, H.
  - right. right. apply str_lt_nle, H.
Qed.
End StringOrder.
Module StringOrderTac := OrdersTac.MakeOrderTac StringOrder StringOrder.

Lemma not_str_le s t : ~ str_le s t <-> str_lt t s.
Proof. symmetry. apply str_lt_nle. Qed.
Lemma not_str_lt s t : ~ str_lt s t <-> str_le t s.
Proof. rewrite str_lt_nle. split; [apply dec_stable|tauto]. Qed.

Ltac str_order :=
  repeat match goal with
  | H : ~ str_le _ _ |- _ => apply not_str_le in H
  | H : ~ str_lt _ _ |- _ => apply not_str_lt in H
  end;
  change str_le with StringOrder.le in *; change str_lt with StringOrder.lt in *;
  change (@Logic.eq string) with StringOrder.eq in *; StringOrderTac.order.

Example str_order_works a b c : str_le a b -> str_lt b c -> str_lt a c /\ a <> c.
Proof. intros H1 H2. split; str_order. Qed.

(** [sort.Strings] *)
Definition sortStrings (l : list string) : list string := merge_sort str_le l.

(** ** Machine integers

    A Go integer is a [Z]; [wrap_u w] and [wrap_s w] are the conversions to
    the unsigned and the signed type of width [w]. *)

Definition wrap_u (w z : Z) : Z := z mod 2 ^ w.
Definition wrap_s (w z : Z) : Z := (z + 2 ^ (w - 1)) mod 2 ^ w - 2 ^ (w - 1).

Definition in_u (w z : Z) : Prop := (0 <= z < 2 ^ w)%Z.
Definition in_s (w z : Z) : Prop := (- 2 ^ (w - 1) <= z < 2 ^ (w - 1))%Z.

Abbreviation u8 := (wrap_u 8).
Abbreviation u32 := (wrap_u 32).
Abbreviation i8 := (wrap_s 8).
Abbreviation i32 := (wrap_s 32).
Abbreviation i64 := (wrap_s 64).

Lemma wrap_u_small w z : in_u w z -> wrap_u w z = z.
Proof. intros H. by apply Z.mod_small. Qed.

Lemma wrap_u_range w z : (0 <= w)%Z -> in_u w (wrap_u w z).
Proof. intros H. apply Z.mod_pos_bound. by apply Z.pow_pos_nonneg. Qed.

Lemma wrap_s_small w z : (0 < w)%Z -> in_s w z -> wrap_s w z = z.
Proof.
  intros Hw [H1 H2]. unfold wrap_s.
  assert (2 ^ w = 2 * 2 ^ (w - 1))%Z as E.
  { rewrite <- Z.pow_succ_r by lia. f_equal. lia. }
  rewrite Z.mod_small; lia.
Qed.

Lemma wrap_s_eq_mod w a b :
  (a mod 2 ^ w = b mod 2 ^ w -> wrap_s w a = wrap_s w b)%Z.
Proof.
  intros E. unfold wrap_s. f_equal. by rewrite <- Zplus_mod_idemp_l, E, Zplus_mod_idemp_l.
Qed.

Lemma wrap_s_range w z : (0 < w)%Z -> in_s w (wrap_s w z).
Proof.
  intros Hw. unfold wrap_s, in_s.
  assert (2 ^ w = 2 * 2 ^ (w - 1))%Z as E.
  { rewrite <- Z.pow_succ_r by lia. f_equal. lia. }
  pose proof (Z.pow_pos_nonneg 2 (w - 1) ltac:(lia) ltac:(lia)).
  pose proof (Z.mod_pos_bound (z + 2 ^ (w - 1)) (2 ^ w) ltac:(lia)). lia.
Qed.

(** ** Panics and loops

    Go code that can panic at run time (an index out of range, a nil
    dereference, an explicit [panic]) returns in [go].  A loop or a recursion
    whose length is not given by its data takes fuel and is [OutOfFuel] when
    the fuel does not suffice. *)

Inductive go (A : Type) : Type :=
| Ok (a : A)
| Panic
| OutOfFuel.
Arguments Ok {A} a.
Arguments Panic {A}.
Arguments OutOfFuel {A}.

Definition gbind {A B} (m : go A) (f : A -> go B) : go B :=
  match m with Ok a => f a | Panic => Panic | OutOfFuel => OutOfFuel end.

Declare Scope go_scope.
Delimit Scope go_scope with go.
Open Scope go_scope.
Notation "'let!' x := m 'in' k" := (gbind m (fun x => k))
  (at level 10, x name, m at level 100, k at level 200) : go_scope.
Notation "'let!' ' p := m 'in' k" := (gbind m (fun p => k))
  (at level 10, p pattern, m at level 100, k at level 200) : go_scope.

Lemma gbind_Ok {A B} (m : go A) (f : A -> go B) b :
  gbind m f = Ok b <-> exists a, m = Ok a /\ f a = Ok b.
Proof.
  destruct m; simpl; split; try done; try (by intros (a' & [=] & _)).
  - eauto.
  - by intros (a' & [= <-] & H).
Qed.

Lemma gbind_assoc {A B C} (m : go A) (f : A -> go B) (g : B -> go C) :
  gbind (gbind m f) g = gbind m (fun a => gbind (f a) g).
Proof. by destruct m. Qed.

(** The dereference of a pointer: nil panics. *)
Definition deref {A} (p : option A) : go A :=
  match p with Some a => Ok a | None => Panic end.

(** Running a loop body over a list, stopping at the first panic. *)
Fixpoint go_foldl {A S} (f : S -> A -> go S) (s : S) (l : list A) : go S :=
  match l with
  | [] => Ok s
  | a :: l => let! s := f s a in go_foldl f s l
  end.

Fixpoint go_mapM {A B} (f : A -> go B) (l : list A) : go (list B) :=
  match l with
  | [] => Ok []
  | a :: l => let! b := f a in let! bs := go_mapM f l in Ok (b :: bs)
  end.

Lemma go_foldl_app {A S} (f : S -> A -> go S) s l k :
  go_foldl f s (l ++ k) = (let! s := go_foldl f s l in go_foldl f s k).
Proof.
  revert s. induction l as [|a l IH]; intros s; simpl; [done|].
  destruct (f s a); simpl; auto.
Qed.

Lemma go_foldl_invariant {A S} (f : S -> A -> go S) (P : S -> Prop) l s s' :
  (forall s a s', a ∈ l -> P s -> f s a = Ok s' -> P s') ->
  P s -> go_foldl f s l = Ok s' -> P s'.
Proof.
  revert s. induction l as [|a l IH]; intros s Hf HP; simpl.
  - by intros [= <-].
  - intros (s1 & E1 & E2)%gbind_Ok. eapply IH; [| |done].
    + intros ? ? ? ?. apply Hf. by constructor.
    + eapply Hf; eauto. constructor.
Qed.

Lemma go_mapM_Ok {A B} (f : A -> go B) l bs :
  go_mapM f l = Ok bs <-> Forall2 (fun a b => f a = Ok b) l bs.
Proof.
  revert bs. induction l as [|a l IH]; intros bs; simpl.
  - split; [intros [= <-]; constructor|by inversion 1].
  - rewrite gbind_Ok. setoid_rewrite gbind_Ok. split.
    + intros (b & Hb & bs' & Hl & [= <-]). constructor; [done|by apply IH].
    + inversion 1; subst. eexists; split; [done|]. eexists; split; [|done]. by apply IH.
Qed.

(** The result of a computation that succeeds, for concrete evaluations: only
    the success is computed. *)
Definition valueOf {A} (d : A) (m : go A) : A := match m with Ok a => a | _ => d end.
Definition isOk {A} (m : go A) : bool := match m with Ok _ => true | _ => false end.
Lemma valueOf_Ok {A} (d : A) m : isOk m = true -> m = Ok (valueOf d m).
Proof. by destruct m. Qed.
Lemma Ok_pair {A B} (m : go (A * B)) x : m = Ok x -> m = Ok (fst x, snd x).
Proof. intros ->. by destruct x. Qed.

(** ** Indexing with Go integers: a negative or too large index panics. *)

Definition zlook {A} (l : list A) (i : Z) : option A :=
  if decide (i < 0)%Z then None else l !! Z.to_nat i.

Definition idx {A} (l : list A) (i : Z) : go A := deref (zlook l i).

Definition upd {A} (l : list A) (i : Z) (a : A) : go (list A) :=
  match zlook l i with Some _ => Ok (<[Z.to_nat i := a]> l) | None => Panic end.

Abbreviation zlen l := (Z.of_nat (length l)).

Lemma zlook_Some {A} (l : list A) i a :
  zlook l i = Some a <-> (0 <= i)%Z /\ l !! Z.to_nat i = Some a.
Proof.
  unfold zlook. case_decide as H; split.
  - done.
  - intros [? _]. lia.
  - intros E. split; [lia|done].
  - by intros [_ E].
Qed.

Lemma zlook_is_Some {A} (l : list A) i :
  is_Some (zlook l i) <-> (0 <= i < zlen l)%Z.
Proof.
  unfold zlook. case_decide.
  - split; [by intros [? ?]|lia].
  - rewrite lookup_lt_is_Some. lia.
Qed.

Lemma idx_Ok {A} (l : list A) i a : idx l i = Ok a <-> zlook l i = Some a.
Proof. unfold idx. destruct (zlook l i); naive_solver. Qed.

Lemma idx_total {A} (l : list A) i :
  (0 <= i < zlen l)%Z -> exists a, idx l i = Ok a /\ l !! Z.to_nat i = Some a.
Proof.
  intros H. destruct (proj2 (zlook_is_Some l i) H) as [a Ha].
  exists a. split; [by apply idx_Ok|]. by apply zlook_Some in Ha as [_ ?].
Qed.

Lemma upd_Ok {A} (l : list A) i a l' :
  upd l i a = Ok l' <-> (0 <= i < zlen l)%Z /\ l' = <[Z.to_nat i := a]> l.
Proof.
  unfold upd. rewrite <- zlook_is_Some. destruct (zlook l i) eqn:E.
  - split; [intros [= <-]; eauto|]. by intros [_ ->].
  - split; [done|]. by intros [[? ?] _].
Qed.

Lemma default_Some_inj {A} (d x y : A) : default d (Some x) = default d (Some y) -> x = y.
Proof. done. Qed.

(** ** Errors

    Go's [error] values.  The two sentinels are compared by identity in the
    code; every other error is known by the text of its format string. *)

Inductive goerr : Type :=
| DoNothing
| DuplicatedPartPassError
| Errorf (msg : string).

#[export] Instance goerr_eq_dec : EqDecision goerr.
Proof. solve_decision. Defined.

Lemma forallb_ext {A} (f g : A -> bool) l : (forall a, a ∈ l -> f a = g a) -> forallb f l = forallb g l.
Proof.
  induction l as [|a l IH]; intros E; cbn; [done|]. rewrite E by constructor. f_equal. apply IH.
  intros b Hb. apply E. by constructor.
Qed.

(** ** Sums of integers *)

Definition zsum (l : list Z) : Z := foldr Z.add 0%Z l.

Lemma zsum_cons x l : zsum (x :: l) = (x + zsum l)%Z.
Proof. done. Qed.

Lemma zsum_app l k : zsum (l ++ k) = (zsum l + zsum k)%Z.
Proof. induction l; simpl; lia. Qed.

Lemma zsum_nonneg l : Forall (fun x => 0 <= x)%Z l -> (0 <= zsum l)%Z.
Proof. induction 1; simpl; lia. Qed.

#[export] Instance zsum_perm : Proper ((≡ₚ) ==> eq) zsum.
Proof. induction 1; simpl; lia. Qed.

(** ** Automation *)

Create HintDb melete.
Create Rewrite HintDb melete.
#[export] Hint Resolve bval_range wrap_u_range wrap_s_range zsum_nonneg : melete.
#[export] Hint Rewrite bval_byte_of byte_of_bval @zsum_app : melete.

(** Takes a hypothesis [gbind m f = Ok b] apart. *)
Ltac go_inv :=
  repeat match goal with
  | H : gbind _ _ = Ok _ |- _ =>
      let a := fresh "x" in let E := fresh "E" in
      apply gbind_Ok in H as (a & E & H)
  | H : Ok _ = Ok _ |- _ => injection H as H; subst
  | H : Panic = Ok _ |- _ => discriminate H
  | H : OutOfFuel = Ok _ |- _ => discriminate H
  end.

(** Case analysis on the scrutinee of a match in a hypothesis. *)
Ltac case_in H :=
  match type of H with
  | context [match ?x with _ => _ end] => destruct x eqn:?
  end.

(** ** Termination

    [ends m]: the loops and recursions of [m] have enough fuel. The tactic of
    that name goes through a function, except for its recursive parts, whose
    lemmas are hints. [settles m Q]: [m] ends, and unless it panics its result
    has the property [Q]. *)

Definition ends {A} (m : go A) : Prop := m <> OutOfFuel.
Definition settles {A} (m : go A) (Q : A -> Prop) : Prop := ends m /\ forall a, m = Ok a -> Q a.

Lemma ends_Ok {A} (a : A) : ends (Ok a).
Proof. done. Qed.
Lemma ends_Panic {A} : ends (@Panic A).
Proof. done. Qed.
Lemma ends_bind {A B} (m : go A) (f : A -> go B) : ends m -> (forall a, m = Ok a -> ends (f a)) -> ends (gbind m f).
Proof. unfold ends. destruct m; cbn; auto. Qed.
Lemma ends_deref {A} (p : option A) : ends (deref p).
Proof. by destruct p. Qed.
Lemma ends_idx {A} (l : list A) i : ends (idx l i).
Proof. apply ends_deref. Qed.
Lemma ends_upd {A} (l : list A) i a : ends (upd l i a).
Proof. unfold upd. by destruct (zlook l i). Qed.
Lemma ends_foldl {A S} (f : S -> A -> go S) s l : (forall s a, ends (f s a)) -> ends (go_foldl f s l).
Proof. intros Hf. revert s. induction l; intros s; cbn; [done|]. apply ends_bind; auto. Qed.
Lemma ends_mapM {A B} (f : A -> go B) l : (forall a, ends (f a)) -> ends (go_mapM f l).
Proof. intros Hf. induction l; cbn; [done|]. apply ends_bind; [auto|]. intros. by apply ends_bind. Qed.

Lemma settles_Ok {A} (a : A) (Q : A -> Prop) : Q a -> settles (Ok a) Q.
Proof. intros Ha. split; [done|]. by intros b [= <-]. Qed.
Lemma settles_bind {A B} (m : go A) (f : A -> go B) (P : A -> Prop) (Q : B -> Prop) :
  settles m P -> (forall a, P a -> settles (f a) Q) -> settles (gbind m f) Q.
Proof.
  intros [Hm HP] Hf. split; [apply ends_bind; [done|]; intros a E; by apply Hf, HP|].
  intros b (a & E & Eb)%gbind_Ok. by eapply (Hf a (HP a E)).
Qed.
Lemma settles_weaken {A} (m : go A) (P Q : A -> Prop) : settles m P -> (forall a, P a -> Q a) -> settles m Q.
Proof. intros [? ?] Hw. split; auto. Qed.
Lemma settles_foldl {A S} (f : S -> A -> go S) (P : S -> Prop) s l :
  P s -> (forall s a, a ∈ l -> P s -> settles (f s a) P) -> settles (go_foldl f s l) P.
Proof.
  revert s. induction l as [|a l IH]; intros s Hs Hf; cbn; [by apply settles_Ok|].
  eapply settles_bind; [apply Hf; [by constructor|done]|]. intros s' Hs'. apply IH; [done|].
  intros s1 b Hb. apply Hf. by constructor.
Qed.

Create HintDb ends.
#[export] Hint Resolve ends_Ok ends_Panic ends_deref ends_idx ends_upd : ends.
Ltac head_of t := match t with ?f _ => head_of f | _ => t end.
Ltac ends_step := cbv beta zeta;
  match goal with
  | |- ends (gbind _ _) => apply ends_bind; [|intros ? _]
  | |- ends (match ?x with _ => _ end) => destruct x
  | |- ends (go_foldl _ _ _) => apply ends_foldl; intros ? ?
  | |- ends (go_mapM _ _) => apply ends_mapM; intros ?
  | |- ends ?m => first [ solve [auto with ends] | let h := head_of m in progress unfold h ]
  end.
Ltac ends := intros; repeat ends_step.
