(* ===== verification/BitVector.v ===== *)
(** * The bit vector of [utils/bit-vector.go]

    The type, every method of it and its wire format.  A nil [*BitVector] is
    [None]; a method that can index out of range returns in [go]. *)

From S2P Require Import Prelude.
Local Open Scope Z_scope.

Module BV.

Record t : Type := mk { Bits : Z; Elems : list byte }.

#[export] Instance t_eq_dec : EqDecision t.
Proof. solve_decision. Defined.

(** ** Operations *)

Definition nbytes (bits : Z) : Z := Z.quot (bits + 7) 8.

Definition NewBitVector (bits : Z) : option t :=
  if bits <? 0 then None
  else Some (mk bits (replicate (Z.to_nat (nbytes bits)) Byte.x00)).

Definition Byte (bV : option t) : bytes :=
  match bV with
  | None => [byte_of (i8 0)]
  | Some bV => byte_of (i8 (8 * zlen (Elems bV) - Bits bV)) :: Elems bV
  end.

(** One step of the loop that copies the payload: [bv.Elems[i] = temp]. *)
Definition setElem (bv : option t) (i : Z) (b : byte) : go (option t) :=
  let! bv := deref bv in
  let! es := upd (Elems bv) i b in
  Ok (Some (mk (Bits bv) es)).

Fixpoint fillElems (bv : option t) (i : Z) (payload : bytes) : go (option t) :=
  match payload with
  | [] => Ok bv
  | b :: payload => let! bv := setElem bv i b in fillElems bv (i + 1) payload
  end.

Definition NewBitArrayFromByte (buf : bytes) : go (option t) :=
  match buf with
  | [] => Ok (NewBitVector 0)
  | u :: payload =>
      let all := zlen payload * 8 - i8 (bval u) in
      fillElems (NewBitVector all) 0 payload
  end.

Definition Size (bA : option t) : Z :=
  match bA with None => 0 | Some bA => Bits bA end.

(** [uint8(1) << uint(i%8)]: a negative remainder converts to a shift count
    of at least 2^64-7, which leaves 0. *)
Definition mask (i : Z) : Z :=
  let r := Z.rem i 8 in if r <? 0 then 0 else Z.shiftl 1 r.

Definition GetIndex (bA : option t) (i : Z) : go bool :=
  match bA with
  | None => Ok false
  | Some bA =>
      if i >=? Bits bA then Ok false
      else let! e := idx (Elems bA) (Z.quot i 8) in
           Ok (0 <? Z.land (bval e) (mask i))
  end.

Definition SetIndex (bA : option t) (i : Z) (v : bool) : go (option t * bool) :=
  match bA with
  | None => Ok (None, false)
  | Some bA =>
      if i >=? Bits bA then Ok (Some bA, false)
      else let! e := idx (Elems bA) (Z.quot i 8) in
           let e' := if v then Z.lor (bval e) (mask i)
                     else Z.land (bval e) (u8 (Z.lnot (mask i))) in
           let! es := upd (Elems bA) (Z.quot i 8) (byte_of e') in
           Ok (Some (mk (Bits bA) es), true)
  end.

Definition CountNoneZero (bA : option t) : go Z :=
  go_foldl (fun (count : Z) (i : nat) =>
      let! b := GetIndex bA (Z.of_nat i) in Ok (if b then count + 1 else count))
    0 (seq 0 (Z.to_nat (Size bA))).

Definition copy (bA : t) : t := bA.

Definition Copy (bA : option t) : option t :=
  match bA with None => NewBitVector 0 | Some bA => Some (copy bA) end.

(** [make([]uint8, (bits+7)/8)] followed by Go's [copy]. *)
Definition copyBits (bA : t) (bits : Z) : t :=
  let n := Z.to_nat (nbytes bits) in
  mk bits (take n (Elems bA) ++ replicate (n - length (Elems bA)) Byte.x00).

Definition zipOp (op : Z -> Z -> Z) (c o : list byte) : list byte :=
  zip_with (fun x y => byte_of (op (bval x) (bval y))) c o ++ drop (length o) c.

Definition Or (bA o : option t) : option t :=
  match bA, o with
  | None, None => None
  | None, Some _ => Copy o
  | Some _, None => Copy bA
  | Some a, Some b =>
      let c := copyBits a (Z.max (Bits a) (Bits b)) in
      let smaller := Nat.min (length (Elems a)) (length (Elems b)) in
      Some (mk (Bits c) (zipOp Z.lor (Elems c) (take smaller (Elems b))))
  end.

(** The loop of [and] runs over every element of [c] and indexes [o]. *)
Definition and (a b : t) : go t :=
  let c := copyBits a (Z.min (Bits a) (Bits b)) in
  if (length (Elems c) <=? length (Elems b))%nat
  then Ok (mk (Bits c) (zipOp Z.land (Elems c) (Elems b)))
  else Panic.

Definition And (bA o : option t) : go (option t) :=
  match bA, o with
  | Some a, Some b => let! c := and a b in Ok (Some c)
  | _, _ => Ok None
  end.

Definition not (bA : t) : t :=
  mk (Bits bA) (map (fun e => byte_of (Z.lnot (bval e))) (Elems bA)).

Definition Not (bA : option t) : option t :=
  match bA with None => None | Some bA => Some (not bA) end.

Definition Sub (bA o : option t) : option t :=
  match bA, o with
  | Some a, Some b =>
      let c := copyBits a (Bits a) in
      let smaller := Nat.min (length (Elems a)) (length (Elems b)) in
      Some (mk (Bits c) (zipOp Z.ldiff (Elems c) (take smaller (Elems b))))
  | _, _ => None
  end.

(** ** Well-formed vectors *)

Definition wf (bv : t) : Prop := 0 <= Bits bv /\ zlen (Elems bv) = nbytes (Bits bv).

(** The bit the vector stands for at an index in range. *)
Definition bit (bv : t) (i : Z) : bool :=
  match Elems bv !! Z.to_nat (i / 8) with
  | Some e => Z.testbit (bval e) (i mod 8)
  | None => false
  end.

Lemma nbytes_div bits : 0 <= bits -> nbytes bits = (bits + 7) / 8.
Proof. intros. unfold nbytes. apply Z.quot_div_nonneg; lia. Qed.

Lemma wf_length bv : wf bv -> zlen (Elems bv) = (Bits bv + 7) / 8.
Proof. intros [H1 H2]. by rewrite H2, nbytes_div. Qed.

Lemma NewBitVector_wf bits bv : NewBitVector bits = Some bv -> wf bv.
Proof.
  unfold NewBitVector. destruct (Z.ltb_spec bits 0); intros [= <-].
  split; simpl; [lia|]. pose proof (Z.div_pos (bits + 7) 8).
  rewrite length_replicate, nbytes_div by lia. lia.
Qed.

Lemma land_pow2_testbit x n :
  0 <= x -> 0 <= n -> (0 <? Z.land x (Z.shiftl 1 n)) = Z.testbit x n.
Proof.
  intros Hx Hn. rewrite Z.shiftl_1_l.
  assert (Z.land x (2 ^ n) = if Z.testbit x n then 2 ^ n else 0) as ->.
  { apply Z.bits_inj'. intros m Hm. rewrite Z.land_spec, Z.pow2_bits_eqb by lia.
    destruct (Z.eqb_spec n m) as [->|].
    - destruct (Z.testbit x m); rewrite ?Z.bits_0, ?Z.pow2_bits_eqb by lia.
      + by rewrite Z.eqb_refl.
      + done.
    - rewrite andb_false_r. destruct (Z.testbit x n); rewrite ?Z.bits_0; [|done].
      rewrite Z.pow2_bits_eqb by lia. symmetry. by apply Z.eqb_neq. }
  pose proof (Z.pow_pos_nonneg 2 n ltac:(lia) Hn).
  destruct (Z.testbit x n); [apply Z.ltb_lt; lia|done].
Qed.

Lemma mask_nonneg i : 0 <= i -> mask i = Z.shiftl 1 (i mod 8).
Proof.
  intros. unfold mask. rewrite Z.rem_mod_nonneg by lia.
  pose proof (Z.mod_pos_bound i 8 ltac:(lia)).
  by destruct (Z.ltb_spec (i mod 8) 0); [lia|].
Qed.

Lemma wf_idx bv i :
  wf bv -> 0 <= i < Bits bv ->
  exists e, idx (Elems bv) (Z.quot i 8) = Ok e /\ Elems bv !! Z.to_nat (i / 8) = Some e.
Proof.
  intros Hwf Hi. pose proof (wf_length _ Hwf) as Hl.
  rewrite Z.quot_div_nonneg by lia. apply idx_total. rewrite Hl.
  split; [apply Z.div_pos; lia|]. apply Z.div_lt_upper_bound; [lia|].
  pose proof (Z.div_mod (Bits bv + 7) 8 ltac:(lia)).
  pose proof (Z.mod_pos_bound (Bits bv + 7) 8 ltac:(lia)). lia.
Qed.

(** [GetIndex] reads the bit at every index in range, and is false above it. *)
Lemma GetIndex_spec bv i :
  wf bv -> 0 <= i -> GetIndex (Some bv) i = Ok (if i <? Bits bv then bit bv i else false).
Proof.
  intros Hwf Hi. simpl. rewrite Z.geb_leb, Z.ltb_antisym.
  destruct (Z.leb_spec (Bits bv) i); [done|]. simpl.
  destruct (wf_idx bv i Hwf ltac:(lia)) as (e & -> & He). simpl.
  unfold bit. rewrite He, mask_nonneg by lia. do 2 f_equal.
  pose proof (Z.mod_pos_bound i 8 ltac:(lia)). pose proof (bval_range e).
  apply land_pow2_testbit; lia.
Qed.


(** Distinct indices in range address distinct bits. *)
Lemma bit_addr i j :
  0 <= i -> 0 <= j -> i / 8 = j / 8 -> i mod 8 = j mod 8 -> i = j.
Proof.
  intros. rewrite (Z.div_mod i 8), (Z.div_mod j 8) by lia. congruence.
Qed.

Lemma to_nat_div_inj i j :
  0 <= i -> 0 <= j -> Z.to_nat (i / 8) = Z.to_nat (j / 8) -> i / 8 = j / 8.
Proof.
  intros Hi Hj H. apply Z2Nat.inj in H; [done| |]; apply Z.div_pos; lia.
Qed.

(** The effect of the two branches of [SetIndex] on the bits of one byte. *)
Lemma set_byte_bit e n m (v : bool) :
  0 <= n < 8 -> 0 <= m < 8 ->
  Z.testbit (bval (byte_of (if v then Z.lor (bval e) (Z.shiftl 1 n)
                            else Z.land (bval e) (u8 (Z.lnot (Z.shiftl 1 n)))))) m =
  if Z.eqb m n then v else Z.testbit (bval e) m.
Proof.
  intros Hn Hm. rewrite bval_byte_of. change 256 with (2 ^ 8).
  rewrite Z.mod_pow2_bits_low by lia.
  assert (Z.testbit (Z.shiftl 1 n) m = Z.eqb m n) as Hs.
  { rewrite Z.shiftl_1_l, Z.pow2_bits_eqb by lia. by rewrite Z.eqb_sym. }
  destruct v.
  - rewrite Z.lor_spec, Hs. by destruct (Z.eqb m n); rewrite ?orb_true_r, ?orb_false_r.
  - unfold wrap_u. rewrite Z.land_spec, Z.mod_pow2_bits_low, Z.lnot_spec, Hs by lia.
    by destruct (Z.eqb m n); simpl; rewrite ?andb_false_r, ?andb_true_r.
Qed.

(** [SetIndex] changes the addressed bit and no other, and keeps the vector
    well formed. *)
Lemma SetIndex_spec bv i v :
  wf bv -> 0 <= i < Bits bv ->
  exists bv', SetIndex (Some bv) i v = Ok (Some bv', true) /\ wf bv' /\
    Bits bv' = Bits bv /\
    forall j, 0 <= j -> bit bv' j = if Z.eqb j i then v else bit bv j.
Proof.
  intros Hwf Hi. destruct (wf_idx bv i Hwf Hi) as (e & He & Hlook).
  simpl. rewrite Z.geb_leb. destruct (Z.leb_spec (Bits bv) i); [lia|].
  rewrite He. simpl. unfold upd. apply idx_Ok in He as Hz. rewrite Hz. simpl.
  eexists. split; [done|]. rewrite Z.quot_div_nonneg, mask_nonneg by lia.
  split; [|split; [done|]].
  { destruct Hwf as [? Hl]. split; simpl; [done|]. by rewrite length_insert. }
  intros j Hj. unfold bit at 1. simpl.
  destruct (decide (Z.to_nat (i / 8) = Z.to_nat (j / 8))) as [E|E].
  - rewrite E, list_lookup_insert_eq by (rewrite <- E; by eapply lookup_lt_Some).
    rewrite set_byte_bit by (apply Z.mod_pos_bound; lia).
    apply to_nat_div_inj in E; [|lia..].
    destruct (Z.eqb_spec (j mod 8) (i mod 8)) as [Em|Em].
    + assert (j = i) as -> by (apply bit_addr; congruence || lia). by rewrite Z.eqb_refl.
    + destruct (Z.eqb_spec j i) as [->|]; [done|]. unfold bit. by rewrite <- E, Hlook.
  - rewrite list_lookup_insert_ne by done.
    destruct (Z.eqb_spec j i) as [->|]; [done|]. done.
Qed.

(** ** The wire format *)

Lemma setElem_app bits pre x rest b :
  setElem (Some (mk bits (pre ++ x :: rest))) (zlen pre) b =
  Ok (Some (mk bits (pre ++ b :: rest))).
Proof.
  unfold setElem, upd. simpl. unfold zlook. rewrite decide_False by lia.
  rewrite Nat2Z.id, list_lookup_middle by done. simpl.
  by rewrite insert_app_r_alt, Nat.sub_diag by lia.
Qed.

Lemma fillElems_app bits pre rest payload :
  (length payload <= length rest)%nat ->
  fillElems (Some (mk bits (pre ++ rest))) (zlen pre) payload =
  Ok (Some (mk bits (pre ++ payload ++ drop (length payload) rest))).
Proof.
  revert pre rest. induction payload as [|b payload IH]; intros pre rest Hl; simpl.
  - by rewrite drop_0.
  - destruct rest as [|x rest]; simpl in Hl; [lia|].
    rewrite setElem_app. cbn [gbind].
    replace (pre ++ b :: rest) with ((pre ++ [b]) ++ rest) by by rewrite <- app_assoc.
    replace (zlen pre + 1) with (zlen (pre ++ [b])) by (rewrite length_app; simpl; lia).
    rewrite IH by lia. by rewrite <- app_assoc.
Qed.

(** Too short an element slice: the loop indexes past its end. *)
Lemma fillElems_short bits pre rest payload :
  (length rest < length payload)%nat ->
  fillElems (Some (mk bits (pre ++ rest))) (zlen pre) payload = Panic.
Proof.
  revert pre rest. induction payload as [|b payload IH]; intros pre rest Hl; simpl in *; [lia|].
  destruct rest as [|x rest].
  - unfold setElem, upd. simpl. unfold zlook. rewrite decide_False by lia.
    rewrite Nat2Z.id, app_nil_r, lookup_ge_None_2 by lia. done.
  - rewrite setElem_app. cbn [gbind]. simpl in Hl.
    replace (pre ++ b :: rest) with ((pre ++ [b]) ++ rest) by by rewrite <- app_assoc.
    replace (zlen pre + 1) with (zlen (pre ++ [b])) by (rewrite length_app; simpl; lia).
    apply IH. lia.
Qed.

Lemma nbytes_le n u : 0 <= n -> 8 * n - u >= 0 -> (n <= nbytes (8 * n - u) <-> u <= 7).
Proof.
  intros. rewrite nbytes_div by lia. split.
  - intros. pose proof (Z.mul_div_le (8 * n - u + 7) 8 ltac:(lia)). lia.
  - intros. apply Z.div_le_lower_bound; lia.
Qed.

(** Decoding accepts exactly the buffers whose first byte, as an int8, is at
    most 7 (or that have no payload); every other buffer panics. *)
Lemma NewBitArrayFromByte_nonempty u payload :
  payload <> [] ->
  NewBitArrayFromByte (u :: payload) =
  if i8 (bval u) <=? 7 then
    let bits := zlen payload * 8 - i8 (bval u) in
    Ok (Some (mk bits (payload ++
      replicate (Z.to_nat (nbytes bits) - length payload) Byte.x00)))
  else Panic.
Proof.
  intros Hne. unfold NewBitArrayFromByte. set (s := i8 (bval u)).
  replace (zlen payload * 8 - s) with (8 * zlen payload - s) by lia.
  unfold NewBitVector. destruct (Z.ltb_spec (8 * zlen payload - s) 0) as [Hneg|Hpos].
  - destruct payload as [|b payload]; [done|]. simpl in Hneg.
    destruct (Z.leb_spec s 7); [lia|]. done.
  - pose proof (nbytes_le (zlen payload) s ltac:(lia) ltac:(lia)) as Hn.
    set (r := replicate (Z.to_nat (nbytes (8 * zlen payload - s))) Byte.x00).
    assert (length r = Z.to_nat (nbytes (8 * zlen payload - s))) as Hr.
    { unfold r. by rewrite length_replicate. }
    destruct (Z.leb_spec s 7).
    + etransitivity; [apply (fillElems_app _ [] r); lia|].
      unfold r. by rewrite drop_replicate.
    + apply (fillElems_short _ [] r). lia.
Qed.

Lemma useless_range bv : wf bv -> 0 <= 8 * zlen (Elems bv) - Bits bv <= 7.
Proof.
  intros Hwf. rewrite wf_length by done. destruct Hwf as [? _].
  pose proof (Z.div_mod (Bits bv + 7) 8 ltac:(lia)).
  pose proof (Z.mod_pos_bound (Bits bv + 7) 8 ltac:(lia)). lia.
Qed.

Lemma i8_byte_of z : in_s 8 z -> i8 (bval (byte_of (i8 z))) = z.
Proof.
  intros Hz. rewrite bval_byte_of, (wrap_s_small 8 z) by (done || lia).
  unfold wrap_s, in_s in *. simpl in *. change (2 ^ 8) with 256. change (2 ^ (8-1)) with 128.
  rewrite Z.add_mod_idemp_l by lia. rewrite Z.mod_small; lia.
Qed.

Lemma decode_Byte bv :
  wf bv -> NewBitArrayFromByte (Byte (Some bv)) = Ok (Some bv).
Proof.
  intros Hwf. pose proof (useless_range bv Hwf) as Hu. destruct bv as [n es].
  unfold Byte. cbn [Elems Bits] in *.
  destruct (decide (es = [])) as [->|Hne].
  - simpl in *. destruct Hwf as [? _]. simpl in *. assert (n = 0) as -> by lia. done.
  - rewrite NewBitArrayFromByte_nonempty, i8_byte_of by (done || (unfold in_s; simpl; lia)).
    destruct (Z.leb_spec (8 * zlen es - n) 7); [|lia].
    destruct Hwf as [_ Hl]. cbn [Elems Bits] in Hl.
    assert (zlen es * 8 - (8 * zlen es - n) = n) as -> by lia. cbv zeta.
    rewrite <- Hl, Nat2Z.id, Nat.sub_diag. cbn [replicate]. by rewrite app_nil_r.
Qed.

(** Whatever is decoded is well-formed. *)
Lemma decoded_wf buf bv : NewBitArrayFromByte buf = Ok (Some bv) -> wf bv.
Proof.
  destruct buf as [|u [|b payload]].
  - intros [= <-]. by apply (NewBitVector_wf 0).
  - unfold NewBitArrayFromByte. cbn [fillElems]. intros [= E]. by eapply NewBitVector_wf.
  - assert (0 < length (b :: payload))%nat as Hp by (simpl; lia). revert Hp.
    generalize (b :: payload) as pl. intros pl Hp.
    rewrite NewBitArrayFromByte_nonempty by (intros ->; simpl in Hp; lia).
    destruct (Z.leb_spec (i8 (bval u)) 7) as [Hu|]; [|done]. cbv zeta. intros [= <-].
    set (n := zlen pl * 8 - i8 (bval u)).
    assert (0 <= n) by (unfold n; lia). split; cbn [Bits Elems]; [done|].
    rewrite length_app, length_replicate, nbytes_div by done.
    pose proof (Z.div_pos (n + 7) 8).
    assert (zlen pl <= (n + 7) / 8) by (apply Z.div_le_lower_bound; unfold n; lia). lia.
Qed.

(** Encoding a well-formed vector with [Byte] and decoding it with
    [NewBitArrayFromByte] gives back the same vector. *)
Theorem Byte_roundtrip bv :
  wf bv -> NewBitArrayFromByte (Byte (Some bv)) = Ok (Some bv).
Proof. exact (decode_Byte bv). Qed.

Lemma Byte_roundtrip_witness :
  NewBitArrayFromByte (Byte (Some (mk 11 [Byte.xa5; Byte.x03]))) =
  Ok (Some (mk 11 [Byte.xa5; Byte.x03])).
Proof. apply Byte_roundtrip. split; [simpl; lia|reflexivity]. Defined.

(** Decoding a received buffer with a payload panics exactly when its first
    byte, read as an int8, exceeds 7; otherwise the decoded vector is well
    formed and has the announced number of bits. *)
Theorem NewBitArrayFromByte_total u payload :
  payload <> [] ->
  (NewBitArrayFromByte (u :: payload) = Panic <-> 7 < i8 (bval u)) /\
  (forall r, NewBitArrayFromByte (u :: payload) = Ok r ->
   exists bv, r = Some bv /\ wf bv /\ Bits bv = 8 * zlen payload - i8 (bval u)).
Proof.
  intros Hne. rewrite NewBitArrayFromByte_nonempty by done.
  destruct (Z.leb_spec (i8 (bval u)) 7) as [H|H].
  - split; [split; [done|lia]|]. intros r [= <-]. eexists. split; [done|].
    assert (1 <= zlen payload) by (destruct payload; simpl; [done|lia]).
    replace (zlen payload * 8 - i8 (bval u)) with (8 * zlen payload - i8 (bval u)) by lia.
    split; [|simpl; lia]. split; simpl; [lia|]. rewrite length_app, length_replicate.
    pose proof (proj2 (nbytes_le (zlen payload) (i8 (bval u)) ltac:(lia) ltac:(lia)) H). lia.
  - split; [split; [lia|done]|done].
Qed.

Lemma NewBitArrayFromByte_total_witness :
  NewBitArrayFromByte [Byte.x08; Byte.x00] = Panic.
Proof.
  apply (proj1 (NewBitArrayFromByte_total Byte.x08 [Byte.x00] ltac:(discriminate))).
  vm_compute. reflexivity.
Defined.

Lemma lookup_copyBits a bits i e :
  (i < Z.to_nat (nbytes bits))%nat -> Elems a !! i = Some e ->
  Elems (copyBits a bits) !! i = Some e.
Proof.
  intros Hi He. simpl. rewrite lookup_app_l.
  - rewrite lookup_take_lt; done.
  - rewrite length_take. apply lookup_lt_Some in He. lia.
Qed.

Lemma copyBits_wf a bits : 0 <= bits -> wf (copyBits a bits).
Proof.
  intros. split; simpl; [done|]. rewrite length_app, length_take, length_replicate.
  pose proof (Z.div_pos (bits + 7) 8). rewrite nbytes_div by lia. lia.
Qed.

Lemma zipOp_lookup op c o i x y :
  c !! i = Some x -> o !! i = Some y ->
  zipOp op c o !! i = Some (byte_of (op (bval x) (bval y))).
Proof.
  intros Hx Hy. unfold zipOp. rewrite lookup_app_l.
  - by rewrite lookup_zip_with, Hx, Hy.
  - rewrite length_zip_with. apply lookup_lt_Some in Hx, Hy. lia.
Qed.

Lemma length_zipOp op c o : length (zipOp op c o) = length c.
Proof. unfold zipOp. rewrite length_app, length_zip_with, length_drop. lia. Qed.

(** [And] of two well-formed vectors does not panic, has the size of the
    smaller one, and its bits are the conjunctions of the operands' bits. *)
Theorem And_spec a b :
  wf a -> wf b ->
  exists c, And (Some a) (Some b) = Ok (Some c) /\ wf c /\
    Bits c = Z.min (Bits a) (Bits b) /\
    forall i, 0 <= i < Bits c -> bit c i = bit a i && bit b i.
Proof.
  intros Ha Hb. pose proof (wf_length _ Ha) as Hla. pose proof (wf_length _ Hb) as Hlb.
  destruct Ha as [Ha0 Ha], Hb as [Hb0 Hb].
  set (n := Z.min (Bits a) (Bits b)). pose proof (copyBits_wf a n ltac:(lia)) as Hc.
  pose proof (wf_length _ Hc) as Hlc.
  change (Bits (copyBits a n)) with n in Hlc.
  pose proof (Z.div_le_mono (n + 7) (Bits b + 7) 8 ltac:(lia) ltac:(lia)).
  unfold And, and. fold n. destruct (Nat.leb_spec (length (Elems (copyBits a n))) (length (Elems b)));
    [|lia]. cbn [gbind]. eexists. split; [done|]. split; [|split; [done|]].
  { destruct Hc as [? Hc]. split; [done|]. cbn [Elems Bits]. rewrite length_zipOp. done. }
  intros i Hi. cbn [Bits] in Hi. change (Bits (copyBits a n)) with n in Hi.
  destruct (wf_idx a i) as (x & _ & Hx); [done|lia|].
  destruct (wf_idx b i) as (y & _ & Hy); [done|lia|].
  destruct (wf_idx (copyBits a n) i) as (z & _ & Hz); [done|done|].
  pose proof (lookup_lt_Some _ _ _ Hz) as Hlt.
  unfold bit. cbn [Elems]. erewrite zipOp_lookup; [|eapply lookup_copyBits; [|done]|done].
  - rewrite Hx, Hy, bval_byte_of. change 256 with (2 ^ 8).
    pose proof (Z.mod_pos_bound i 8 ltac:(lia)).
    rewrite Z.mod_pow2_bits_low by lia. apply Z.land_spec.
  - rewrite nbytes_div by lia. lia.
Qed.

Lemma And_spec_witness : exists c,
  And (Some (mk 9 [Byte.xff; Byte.x01])) (Some (mk 4 [Byte.x0a])) = Ok (Some c) /\ wf c /\
  Bits c = 4 /\ forall i, 0 <= i < 4 ->
    bit c i = bit (mk 9 [Byte.xff; Byte.x01]) i && bit (mk 4 [Byte.x0a]) i.
Proof.
  destruct (And_spec (mk 9 [Byte.xff; Byte.x01]) (mk 4 [Byte.x0a])) as (c & ? & ? & E & ?).
  - split; [simpl; lia|reflexivity].
  - split; [simpl; lia|reflexivity].
  - exists c. simpl in E. by rewrite E in *.
Defined.

End BV.
