(* ===== verification/Convert.v ===== *)
(** * Integers and byte slices: [utils/convert.go], [utils/compare-bytes.go]
    and [libs/math] *)

From S2P Require Import Prelude.
Local Open Scope Z_scope.

(** ** Little-endian encoding (Go's [encoding/binary]) *)

Fixpoint leBytes (n : nat) (z : Z) : bytes :=
  match n with
  | O => []
  | S n => byte_of z :: leBytes n (z / 256)
  end.

Fixpoint leValue (l : bytes) : Z :=
  match l with [] => 0 | b :: l => bval b + 256 * leValue l end.

Lemma leBytes_length n z : length (leBytes n z) = n.
Proof. revert z. induction n; intros; simpl; auto. Qed.

Lemma leValue_leBytes n z : leValue (leBytes n z) = z mod 256 ^ Z.of_nat n.
Proof.
  revert z. induction n as [|n IH]; intros z; simpl leBytes; simpl leValue.
  - by rewrite Z.mod_1_r.
  - rewrite IH, bval_byte_of, Nat2Z.inj_succ, Z.pow_succ_r by lia.
    rewrite Z.rem_mul_r by lia. lia.
Qed.

Lemma leValue_range l : 0 <= leValue l < 256 ^ zlen l.
Proof.
  induction l as [|b l IH]; [simpl; lia|].
  cbn [leValue length]. rewrite Nat2Z.inj_succ, Z.pow_succ_r by lia.
  pose proof (bval_range b). lia.
Qed.

Lemma leBytes_leValue l : leBytes (length l) (leValue l) = l.
Proof.
  induction l as [|b l IH]; [done|]. cbn [leValue length leBytes].
  pose proof (bval_range b). f_equal.
  - apply bval_inj. rewrite bval_byte_of, Z.mul_comm, Z.mod_add by lia. by apply Z.mod_small.
  - rewrite Z.mul_comm, Z.div_add by lia. by rewrite Z.div_small.
Qed.

(** ** [utils/convert.go] *)

(** The dynamic type of the [interface{}] argument; [GoInt] is any other type,
    in particular Go's [int]. *)
Inductive goint : Type :=
| Int8 (v : Z) | Uint8 (v : Z) | Int16 (v : Z) | Uint16 (v : Z)
| Int32 (v : Z) | Uint32 (v : Z) | Int64 (v : Z) | Uint64 (v : Z)
| GoInt (v : Z).

(** A nil slice is [None]. *)
Definition IntToBytes (num : goint) : option bytes :=
  match num with
  | Int8 v => Some [byte_of v]
  | Uint8 v => Some [byte_of v]
  | Int16 v => Some (leBytes 2 (wrap_u 16 v))
  | Uint16 v => Some (leBytes 2 v)
  | Int32 v => Some (leBytes 4 (wrap_u 32 v))
  | Uint32 v => Some (leBytes 4 v)
  | Int64 v => Some (leBytes 8 (wrap_u 64 v))
  | Uint64 v => Some (leBytes 8 v)
  | GoInt _ => None
  end.

(** [binary.LittleEndian.UintN]: panics on a short slice. *)
Definition leUint (n : nat) (data : bytes) : go Z :=
  if (length data <? n)%nat then Panic else Ok (leValue (take n data)).

(** The second argument only selects the type of the result. *)
Definition BytesToInt (data : bytes) (dataType : goint) : go (option goint) :=
  match dataType with
  | Int8 _ => let! b := idx data 0 in Ok (Some (Int8 (wrap_s 8 (bval b))))
  | Uint8 _ => let! b := idx data 0 in Ok (Some (Uint8 (bval b)))
  | Int16 _ => let! v := leUint 2 data in Ok (Some (Int16 (wrap_s 16 v)))
  | Uint16 _ => let! v := leUint 2 data in Ok (Some (Uint16 v))
  | Int32 _ => let! v := leUint 4 data in Ok (Some (Int32 (wrap_s 32 v)))
  | Uint32 _ => let! v := leUint 4 data in Ok (Some (Uint32 v))
  | Int64 _ => let! v := leUint 8 data in Ok (Some (Int64 (wrap_s 64 v)))
  | Uint64 _ => let! v := leUint 8 data in Ok (Some (Uint64 v))
  | GoInt _ => Ok None
  end.

Definition BytesToUint32 (data : bytes) : go Z := leUint 4 data.
Definition Uint32ToBytes (num : Z) : bytes := leBytes 4 num.

Lemma Uint32ToBytes_length v : length (Uint32ToBytes v) = 4%nat.
Proof. apply leBytes_length. Qed.

Lemma BytesToUint32_app v rest :
  in_u 32 v -> BytesToUint32 (Uint32ToBytes v ++ rest) = Ok v.
Proof.
  intros Hv. unfold BytesToUint32, leUint.
  rewrite length_app, Uint32ToBytes_length. simpl Nat.ltb.
  rewrite take_app_le, take_ge by (rewrite Uint32ToBytes_length; lia).
  unfold Uint32ToBytes. rewrite leValue_leBytes. by rewrite Z.mod_small.
Qed.

Lemma BytesToUint32_range data v : BytesToUint32 data = Ok v -> in_u 32 v.
Proof.
  unfold BytesToUint32, leUint. destruct (Nat.ltb_spec (length data) 4); [done|].
  intros [= <-]. pose proof (leValue_range (take 4 data)) as Hr.
  rewrite length_take_le in Hr by lia. exact Hr.
Qed.

(** The values a [goint] can hold at its type. *)
Definition gointOK (g : goint) : Prop :=
  match g with
  | Int8 v => in_s 8 v | Uint8 v => in_u 8 v
  | Int16 v => in_s 16 v | Uint16 v => in_u 16 v
  | Int32 v => in_s 32 v | Uint32 v => in_u 32 v
  | Int64 v => in_s 64 v | Uint64 v => in_u 64 v
  | GoInt _ => False
  end.

Lemma wrap_s_wrap_u w z : 0 < w -> in_s w z -> wrap_s w (wrap_u w z) = z.
Proof.
  intros Hw Hz. transitivity (wrap_s w z); [|by apply wrap_s_small].
  unfold wrap_s, wrap_u. by rewrite Zplus_mod_idemp_l.
Qed.

Lemma leUint_leBytes n v : leUint n (leBytes n v) = Ok (v mod 256 ^ Z.of_nat n).
Proof.
  unfold leUint. rewrite leBytes_length, Nat.ltb_irrefl, take_ge by (rewrite leBytes_length; lia).
  by rewrite leValue_leBytes.
Qed.

Lemma roundtrip_signed n v w :
  w = 8 * Z.of_nat n -> 0 < w -> in_s w v ->
  (let! u := leUint n (leBytes n (wrap_u w v)) in Ok (wrap_s w u)) = Ok v.
Proof.
  intros Hw Hp Hv. rewrite leUint_leBytes. simpl. f_equal.
  assert (256 ^ Z.of_nat n = 2 ^ w) as ->.
  { rewrite Hw, Z.pow_mul_r by lia. done. }
  fold (wrap_u w (wrap_u w v)). rewrite (wrap_u_small w (wrap_u w v)).
  - by apply wrap_s_wrap_u.
  - apply wrap_u_range. lia.
Qed.

Lemma roundtrip_unsigned n v w :
  w = 8 * Z.of_nat n -> in_u w v -> leUint n (leBytes n v) = Ok v.
Proof.
  intros Hw Hv. rewrite leUint_leBytes. f_equal. apply Z.mod_small.
  assert (256 ^ Z.of_nat n = 2 ^ w) as -> by (rewrite Hw, Z.pow_mul_r by lia; done). exact Hv.
Qed.

Lemma BytesToInt_IntToBytes g bz :
  gointOK g -> IntToBytes g = Some bz -> BytesToInt bz g = Ok (Some g).
Proof.
  destruct g as [v|v|v|v|v|v|v|v|v]; cbn [gointOK IntToBytes]; intros Hv E; (apply (inj Some) in E as <- || done);
    unfold BytesToInt.
  1,2: change (idx [byte_of v] 0) with (Ok (byte_of v)); cbn [gbind]; rewrite bval_byte_of;
    do 3 f_equal.
  1: by apply (wrap_s_wrap_u 8).
  1: by apply Z.mod_small.
  1,3,5: (pose proof (roundtrip_signed 2 v 16 eq_refl ltac:(lia) Hv) as E ||
          pose proof (roundtrip_signed 4 v 32 eq_refl ltac:(lia) Hv) as E ||
          pose proof (roundtrip_signed 8 v 64 eq_refl ltac:(lia) Hv) as E);
    apply gbind_Ok in E as (u & -> & [= E]); simpl; by rewrite E.
  - by rewrite (roundtrip_unsigned 2 v 16).
  - by rewrite (roundtrip_unsigned 4 v 32).
  - by rewrite (roundtrip_unsigned 8 v 64).
Qed.

Lemma IntToBytes_inj64 v w :
  in_s 64 v -> in_s 64 w ->
  default [] (IntToBytes (Int64 v)) = default [] (IntToBytes (Int64 w)) -> v = w.
Proof.
  intros Hv Hw E. apply (f_equal Some) in E.
  pose proof (BytesToInt_IntToBytes (Int64 v) _ Hv eq_refl) as E1.
  pose proof (BytesToInt_IntToBytes (Int64 w) _ Hw (eq_sym E)) as E2.
  assert (Ok (Some (Int64 v)) = Ok (Some (Int64 w))) as [=]; [|done].
  rewrite <- E1, <- E2. reflexivity.
Qed.

Lemma IntToBytes_inj8 v w :
  in_s 8 v -> in_s 8 w ->
  default [] (IntToBytes (Int8 v)) = default [] (IntToBytes (Int8 w)) -> v = w.
Proof.
  intros Hv Hw E. apply (f_equal Some) in E.
  pose proof (BytesToInt_IntToBytes (Int8 v) _ Hv eq_refl) as E1.
  pose proof (BytesToInt_IntToBytes (Int8 w) _ Hw (eq_sym E)) as E2.
  assert (Ok (Some (Int8 v)) = Ok (Some (Int8 w))) as [=]; [|done].
  rewrite <- E1, <- E2. reflexivity.
Qed.

(** For every fixed-width integer type, decoding the bytes of a value of
    the type at that type gives the value back. *)
Theorem IntToBytes_roundtrip g bz :
  gointOK g -> IntToBytes g = Some bz -> BytesToInt bz g = Ok (Some g).
Proof. exact (BytesToInt_IntToBytes g bz). Qed.

Lemma IntToBytes_roundtrip_witness :
  BytesToInt [Byte.xfe; Byte.xff; Byte.xff; Byte.xff] (Int32 (-2)) = Ok (Some (Int32 (-2))).
Proof.
  apply (IntToBytes_roundtrip (Int32 (-2))); [vm_compute; split; congruence|vm_compute; reflexivity].
Defined.

(** ** [utils/compare-bytes.go] *)

(** The diagnostics printed on a mismatch are left out. *)
Fixpoint CompareBytesList (a b : list bytes) : bool :=
  match a, b with
  | [], [] => true
  | x :: a, y :: b => bool_decide (x = y) && CompareBytesList a b
  | _, _ => false
  end.

Lemma CompareBytesList_eq a b : CompareBytesList a b = true <-> a = b.
Proof.
  revert b. induction a as [|x a IH]; intros [|y b]; simpl; try done.
  rewrite andb_true_iff, bool_decide_eq_true, IH. split; [by intros [-> ->]|by intros [= -> ->]].
Qed.

(** A slice expression [data[i:j]] (bounds against the length: the slices cut
    here have no spare capacity that is used). *)
Definition slice (data : bytes) (i j : Z) : go bytes :=
  if (0 <=? i) && (i <=? j) && (j <=? zlen data)
  then Ok (take (Z.to_nat (j - i)) (drop (Z.to_nat i) data)) else Panic.

Fixpoint splitLoop (fuel : nat) (data : bytes) (size i : Z) : go (list bytes) :=
  if i <? zlen data then
    match fuel with
    | O => OutOfFuel
    | S fuel =>
        let end_ := if i + size >? zlen data then zlen data else i + size in
        let! chunk := slice data i end_ in
        let! rest := splitLoop fuel data size (i + size) in
        Ok (chunk :: rest)
    end
  else Ok [].

(** One iteration per byte is enough for every positive [size]. *)
Definition SplitByteArray (data : bytes) (size : Z) : go (list bytes) :=
  splitLoop (length data) data size 0.

Lemma splitLoop_spec fuel data size i :
  0 < size -> 0 <= i <= zlen data -> zlen data <= i + Z.of_nat fuel ->
  exists chunks, splitLoop fuel data size i = Ok chunks /\
    concat chunks = drop (Z.to_nat i) data /\
    Forall (fun c => 0 < zlen c <= size) chunks /\
    Forall (fun c => zlen c = size) (removelast chunks).
Proof.
  intros Hs. revert i. induction fuel as [|fuel IH]; intros i Hi Hf; cbn [splitLoop];
    (destruct (Z.ltb_spec i (zlen data)); [|exists []; split; [done|];
       rewrite drop_ge by lia; repeat split; constructor]); [lia|].
  rewrite Z.gtb_ltb. unfold slice. destruct (Z.ltb_spec (zlen data) (i + size)) as [Hlast|Hmid].
  - destruct (Z.leb_spec 0 i), (Z.leb_spec i (zlen data)), (Z.leb_spec (zlen data) (zlen data));
      try lia. cbn [andb gbind].
    assert (splitLoop fuel data size (i + size) = Ok []) as ->.
    { destruct fuel; simpl; by destruct (Z.ltb_spec (i + size) (zlen data)); [lia|]. }
    eexists. split; [done|]. split; [|split].
    + simpl. rewrite app_nil_r, take_ge; [done|]. rewrite length_drop. lia.
    + constructor; [|constructor]. rewrite length_take, length_drop. lia.
    + constructor.
  - destruct (Z.leb_spec 0 i), (Z.leb_spec i (i + size)), (Z.leb_spec (i + size) (zlen data));
      try lia. cbn [andb gbind].
    destruct (IH (i + size)) as (cs & -> & Hc & Hb & Hr); [lia..|].
    set (c := take _ _). assert (zlen c = size) as Ec
      by (unfold c; rewrite length_take, length_drop; lia).
    eexists. split; [done|]. split; [|split].
    + simpl. rewrite Hc. unfold c. replace (i + size - i) with size by lia.
      replace (Z.to_nat (i + size)) with (Z.to_nat i + Z.to_nat size)%nat by lia.
      rewrite <- drop_drop. apply take_drop.
    + constructor; [lia|done].
    + destruct cs as [|c' cs]; [constructor|]. change (removelast (c :: c' :: cs))
        with (c :: removelast (c' :: cs)). by constructor.
Qed.

(** For a positive size the split terminates without panic, the chunks
    concatenate to the input, none is empty or larger than the size, and all but
    the last have exactly the size. *)
Theorem SplitByteArray_spec data size :
  0 < size ->
  exists chunks, SplitByteArray data size = Ok chunks /\ concat chunks = data /\
    Forall (fun c => 0 < zlen c <= size) chunks /\
    Forall (fun c => zlen c = size) (removelast chunks).
Proof.
  intros Hs. unfold SplitByteArray.
  destruct (splitLoop_spec (length data) data size 0 Hs) as (cs & ? & ? & ? & ?); [lia..|].
  exists cs. rewrite drop_0 in *. done.
Qed.

Lemma SplitByteArray_spec_witness :
  exists chunks, SplitByteArray [Byte.x01; Byte.x02; Byte.x03] 2 = Ok chunks /\
    concat chunks = [Byte.x01; Byte.x02; Byte.x03] /\
    Forall (fun c => 0 < zlen c <= 2) chunks /\
    Forall (fun c => zlen c = 2) (removelast chunks).
Proof. apply (SplitByteArray_spec [Byte.x01; Byte.x02; Byte.x03] 2). lia. Defined.

(** With size 0 the loop never ends on a non-empty slice. *)
Lemma splitLoop_zero fuel data : data <> [] -> splitLoop fuel data 0 0 = OutOfFuel.
Proof.
  intros Hd. induction fuel as [|fuel IH]; cbn [splitLoop];
    (destruct (Z.ltb_spec 0 (zlen data)); [|destruct data; simpl in *; done || lia]); [done|].
  rewrite Z.gtb_ltb. destruct (Z.ltb_spec (zlen data) (0 + 0)); [lia|]. unfold slice.
  change (0 + 0) with 0.
  destruct (Z.leb_spec 0 (zlen data)); [|lia]. cbn [Z.leb andb gbind Z.compare]. by rewrite IH.
Qed.

(** ** [libs/math] *)

Definition MaxInt (a b : Z) : Z := if a >? b then a else b.
Definition MinInt (a b : Z) : Z := if a <? b then a else b.

Lemma MaxInt_max a b : MaxInt a b = Z.max a b.
Proof. unfold MaxInt. rewrite Z.gtb_ltb. destruct (Z.ltb_spec b a); lia. Qed.
Lemma MinInt_min a b : MinInt a b = Z.min a b.
Proof. unfold MinInt. destruct (Z.ltb_spec a b); lia. Qed.

Definition MaxInt32 : Z := 2147483647.
Definition MinInt32 : Z := -2147483648.

Definition SafeAddInt32 (a b : Z) : go Z :=
  if (0 <? b) && (a >? i32 (MaxInt32 - b)) then Panic
  else if (b <? 0) && (a <? i32 (MinInt32 - b)) then Panic
  else Ok (i32 (a + b)).

Definition SafeSubInt32 (a b : Z) : go Z :=
  if (0 <? b) && (a <? i32 (MinInt32 + b)) then Panic
  else if (b <? 0) && (a >? i32 (MaxInt32 + b)) then Panic
  else Ok (i32 (a - b)).

Definition SafeConvertInt32 (a : Z) : go Z :=
  if a >? MaxInt32 then Panic else if a <? MinInt32 then Panic else Ok (i32 a).

(** [None] is the overflow error. *)
Definition SafeConvertUint8 (a : Z) : option Z :=
  if a >? 255 then None else if a <? 0 then None else Some (u8 a).

Definition SafeConvertInt8 (a : Z) : option Z :=
  if a >? 127 then None else if a <? -128 then None else Some (i8 a).

Lemma i32_small z : in_s 32 z -> i32 z = z.
Proof. apply wrap_s_small. lia. Qed.

(** On int32 operands the checked addition and subtraction return the exact
    result when it is an int32 and panic when it is not. *)
Theorem SafeInt32_exact a b :
  in_s 32 a -> in_s 32 b ->
  (SafeAddInt32 a b = if decide (MinInt32 <= a + b <= MaxInt32) then Ok (a + b) else Panic) /\
  (SafeSubInt32 a b = if decide (MinInt32 <= a - b <= MaxInt32) then Ok (a - b) else Panic).
Proof.
  intros Ha Hb. unfold in_s in *. change (2 ^ (32 - 1)) with 2147483648 in *.
  assert (forall z, MinInt32 <= z <= MaxInt32 -> i32 z = z) as Hs.
  { intros z Hz. apply i32_small. unfold in_s, MinInt32, MaxInt32 in *. simpl. lia. }
  unfold MinInt32, MaxInt32 in *.
  split; unfold SafeAddInt32, SafeSubInt32, MaxInt32, MinInt32; rewrite ?Z.gtb_ltb;
    destruct (Z.ltb_spec 0 b); cbn [andb].
  all: try (rewrite (Hs (2147483647 - b)) by lia); try (rewrite (Hs (-2147483648 + b)) by lia).
  all: repeat match goal with |- context [?x <? ?y] => destruct (Z.ltb_spec x y) end; cbn [andb].
  all: try (rewrite (Hs (-2147483648 - b)) in * by lia); try (rewrite (Hs (2147483647 + b)) in * by lia).
  all: case_decide; try lia; try done.
  all: f_equal; apply Hs; lia.
Qed.

Lemma SafeInt32_exact_witness :
  SafeAddInt32 MaxInt32 1 = Panic /\ SafeSubInt32 MaxInt32 1 = Ok 2147483646.
Proof.
  pose proof (SafeInt32_exact MaxInt32 1) as [-> ->].
  - vm_compute. split; congruence.
  - vm_compute. split; congruence.
  - split; reflexivity.
Defined.
