(* ===== verification/Hash.v ===== *)
(** * The hash function: [crypto/hash/hash.go]

    The code calls [crypto/sha256] of the Go standard library; the rest of the
    development only relies on the interface [Hash], a function with a fixed
    output size.  [Sha256] is that function, so that concrete blocks, trees and
    messages can be evaluated. *)

From S2P Require Import Prelude Convert.
Local Open Scope Z_scope.

Definition HashSize : Z := 32.
Definition TruncatedSize : nat := 20.

Class Hash := {
  Sum : bytes -> bytes;
  Sum_length b : zlen (Sum b) = HashSize
}.

(** A collision of two computations that hash the inputs [l] and [k]: a pair of
    them differs and has the same hash. Some pair of inputs has for every function
    with a fixed output size; the lists say which inputs are meant. *)
Definition Collision `{Hash} (l k : list bytes) : Prop := Exists (fun x => Exists (fun y => x <> y /\ Sum x = Sum y) k) l.

#[export] Instance Collision_dec `{Hash} l k : Decision (Collision l k).
Proof. unfold Collision. apply _. Defined.

Lemma Collision_elem `{Hash} l k : Collision l k <-> exists x y, x ∈ l /\ y ∈ k /\ x <> y /\ Sum x = Sum y.
Proof. unfold Collision. setoid_rewrite Exists_exists. setoid_rewrite Exists_exists. naive_solver. Qed.
Lemma Collision_mono `{Hash} l k l' k' : l ⊆ l' -> k ⊆ k' -> Collision l k -> Collision l' k'.
Proof. rewrite !Collision_elem. intros Hl Hk (x & y & Hx & Hy & Hc). exists x, y. eauto. Qed.

(** The first 20 bytes of the hash. *)
Definition SumTruncated `{Hash} (bz : bytes) : bytes := take TruncatedSize (Sum bz).

(** ** SHA-256 *)

Module Sha256.

Definition initial : list Z :=
  [1779033703; 3144134277; 1013904242; 2773480762; 1359893119; 2600822924;
   528734635; 1541459225].

Definition roundConstants : list Z :=
  [1116352408; 1899447441; 3049323471; 3921009573; 961987163; 1508970993;
   2453635748; 2870763221; 3624381080; 310598401; 607225278; 1426881987;
   1925078388; 2162078206; 2614888103; 3248222580; 3835390401; 4022224774;
   264347078; 604807628; 770255983; 1249150122; 1555081692; 1996064986;
   2554220882; 2821834349; 2952996808; 3210313671; 3336571891; 3584528711;
   113926993; 338241895; 666307205; 773529912; 1294757372; 1396182291;
   1695183700; 1986661051; 2177026350; 2456956037; 2730485921; 2820302411;
   3259730800; 3345764771; 3516065817; 3600352804; 4094571909; 275423344;
   430227734; 506948616; 659060556; 883997877; 958139571; 1322822218;
   1537002063; 1747873779; 1955562222; 2024104815; 2227730452; 2361852424;
   2428436474; 2756734187; 3204031479; 3329325298].

Definition rotr (x n : Z) : Z := u32 (Z.lor (Z.shiftr x n) (Z.shiftl x (32 - n))).
Definition sigma0 x := Z.lxor (Z.lxor (rotr x 7) (rotr x 18)) (Z.shiftr x 3).
Definition sigma1 x := Z.lxor (Z.lxor (rotr x 17) (rotr x 19)) (Z.shiftr x 10).
Definition Sigma0 x := Z.lxor (Z.lxor (rotr x 2) (rotr x 13)) (rotr x 22).
Definition Sigma1 x := Z.lxor (Z.lxor (rotr x 6) (rotr x 11)) (rotr x 25).
Definition Ch x y z := Z.lxor (Z.land x y) (Z.land (Z.lxor x 4294967295) z).
Definition Maj x y z := Z.lxor (Z.lxor (Z.land x y) (Z.land x z)) (Z.land y z).

(** A big-endian word of four bytes, and back. *)
Definition word (a b c d : byte) : Z :=
  ((bval a * 256 + bval b) * 256 + bval c) * 256 + bval d.
Definition unword (w : Z) : bytes :=
  [byte_of (Z.shiftr w 24); byte_of (Z.shiftr w 16); byte_of (Z.shiftr w 8); byte_of w].

Fixpoint words (l : bytes) : list Z :=
  match l with
  | a :: b :: c :: d :: l => word a b c d :: words l
  | _ => []
  end.

(** The message schedule, the most recent word first. *)
Fixpoint schedule (n : nat) (w : list Z) : list Z :=
  match n with
  | O => w
  | S n =>
      let at_ i := nth i w 0 in
      schedule n (u32 (sigma1 (at_ 1%nat) + at_ 6%nat + sigma0 (at_ 14%nat) + at_ 15%nat) :: w)
  end.

Definition round (s : list Z) (kw : Z * Z) : list Z :=
  match s with
  | [a; b; c; d; e; f; g; h] =>
      let t1 := h + Sigma1 e + Ch e f g + fst kw + snd kw in
      let t2 := Sigma0 a + Maj a b c in
      [u32 (t1 + t2); a; b; c; u32 (d + t1); e; f; g]
  | _ => s
  end.

Definition block (s : list Z) (chunk : bytes) : list Z :=
  let w := rev (schedule 48 (rev (words chunk))) in
  zip_with (fun x y => u32 (x + y)) s (fold_left round (zip roundConstants w) s).

Fixpoint blocks (fuel : nat) (s : list Z) (l : bytes) : list Z :=
  match fuel, l with
  | S fuel, _ :: _ => blocks fuel (block s (take 64 l)) (drop 64 l)
  | _, _ => s
  end.

Definition pad (l : bytes) : bytes :=
  let z := (8 * zlen l)%Z in
  let k := Z.to_nat ((55 - zlen l) mod 64) in
  l ++ Byte.x80 :: replicate k Byte.x00 ++
  unword (Z.shiftr z 32) ++ unword (u32 z).

Definition sum (l : bytes) : bytes :=
  let m := pad l in
  concat (map unword (take 8 (blocks (length m) initial m ++ replicate 8 0))).

Lemma sum_length l : zlen (sum l) = HashSize.
Proof.
  unfold sum. set (s := blocks _ _ _ ++ _).
  assert (length (take 8 s) = 8%nat) as Hl.
  { unfold s. rewrite length_take, length_app, length_replicate. lia. }
  revert Hl. generalize (take 8 s). intros t Hl.
  do 9 (destruct t as [|? t]; simpl in Hl; [try lia|]); [done|lia].
Qed.

Definition of_string (s : string) : bytes := map Ascii.byte_of_ascii (String.list_ascii_of_string s).

(** The test vector of FIPS 180-4. *)
Example sum_abc :
  map bval (sum (of_string "abc")) =
  [186; 120; 22; 191; 143; 1; 207; 234; 65; 65; 64; 222; 93; 174; 34; 35;
   176; 3; 97; 163; 150; 23; 122; 156; 180; 16; 255; 97; 242; 0; 21; 173].
Proof. vm_compute. reflexivity. Qed.

#[export] Instance sha256 : Hash := {| Sum := sum; Sum_length := sum_length |}.

End Sha256.

(** A cheap function with the size of the hash, for evaluations that only need
    some instance of the interface. *)
Module DemoHash.
Definition demoSum (l : bytes) : bytes :=
  leBytes 32 (fold_left (fun acc b => Z.land (acc * 263 + bval b + 1) 4294967295) l 7).

Lemma demoSum_length l : zlen (demoSum l) = HashSize.
Proof. unfold demoSum. by rewrite leBytes_length. Qed.

#[export] Instance demoHash : Hash := {| Sum := demoSum; Sum_length := demoSum_length |}.
End DemoHash.
