(* ===== verification/Merkle.v ===== *)
(** * Merkle trees: [crypto/merkle]

    The recursive and the iterative root, the construction of the inclusion
    proofs over pointer-linked nodes (an explicit heap), and their
    verification. *)

From S2P Require Import Prelude Hash.
Local Open Scope Z_scope.

Module Merkle.
Section merkle.
Context `{Hash}.

(** ** [hash.go] *)

Definition leafPrefix : bytes := [Byte.x00].
Definition innerPrefix : bytes := [Byte.x01].
Definition emptyHash : bytes := Sum [].
Definition leafHash (leaf : bytes) : bytes := Sum (leafPrefix ++ leaf).
Definition innerHash (left right : bytes) : bytes := Sum (innerPrefix ++ (left ++ right)).

(** ** [tree.go] *)

Definition bitsLen (x : Z) : Z := if x =? 0 then 0 else Z.log2 x + 1.

Definition getSplitPoint (length : Z) : go Z :=
  if length <? 1 then Panic
  else
    let k := Z.shiftl 1 (bitsLen length - 1) in
    Ok (if k =? length then Z.shiftr k 1 else k).

(** The split of a list of [n >= 2] items, as a slice bound. *)
Definition split (n : nat) : nat :=
  match getSplitPoint (Z.of_nat n) with Ok k => Z.to_nat k | _ => 0 end.

Fixpoint hashFuel (fuel : nat) (items : list bytes) : bytes :=
  match items with
  | [] => emptyHash
  | [x] => leafHash x
  | _ => match fuel with
         | O => []
         | S fuel =>
             let k := split (length items) in
             innerHash (hashFuel fuel (take k items)) (hashFuel fuel (drop k items))
         end
  end.

Definition HashFromByteSlices (items : list bytes) : bytes :=
  hashFuel (length items) items.

(** The pass of the iterative version: [items], the read position, the write
    position; [size] is fixed during the pass. *)
Fixpoint iterPass (fuel : nat) (items : list bytes) (rp wp size : Z) : go (list bytes * Z) :=
  if rp <? size then
    match fuel with
    | O => OutOfFuel
    | S fuel =>
        if rp + 1 <? size then
          let! a := idx items rp in
          let! b := idx items (rp + 1) in
          let! items := upd items wp (innerHash a b) in
          iterPass fuel items (rp + 2) (wp + 1) size
        else
          let! a := idx items rp in
          let! items := upd items wp a in
          iterPass fuel items (rp + 1) (wp + 1) size
    end
  else Ok (items, wp).

Fixpoint iterLoop (fuel : nat) (items : list bytes) (size : Z) : go bytes :=
  if size =? 0 then Ok emptyHash
  else if size =? 1 then idx items 0
  else match fuel with
       | O => OutOfFuel
       | S fuel =>
           let! '(items, size) := iterPass (length items) items 0 0 size in
           iterLoop fuel items size
       end.

Definition HashFromByteSlicesIterative (input : list bytes) : go bytes :=
  let items := map leafHash input in
  iterLoop (length items) items (zlen items).

(** ** [proof.go]: the proof and its verification *)

Definition MaxAunts : Z := 100.

(** A nil [LeafHash] slice is [None]. *)
Record Proof := mkProof {
  Total : Z; Index : Z; LeafHash : option bytes; Aunts : list bytes }.

Fixpoint computeFuel (fuel : nat) (index total : Z) (leafHash : option bytes)
    (innerHashes : list bytes) : option bytes :=
  if (index >=? total) || (index <? 0) || (total <=? 0) then None
  else if total =? 1 then
    match innerHashes with [] => leafHash | _ => None end
  else match last innerHashes, fuel with
       | None, _ | _, O => None
       | Some aunt, S fuel =>
           let rest := removelast innerHashes in
           match getSplitPoint total with
           | Panic | OutOfFuel => None
           | Ok numLeft =>
               if index <? numLeft then
                 match computeFuel fuel index numLeft leafHash rest with
                 | None => None
                 | Some leftHash => Some (innerHash leftHash aunt)
                 end
               else
                 match computeFuel fuel (index - numLeft) (total - numLeft) leafHash rest with
                 | None => None
                 | Some rightHash => Some (innerHash aunt rightHash)
                 end
           end
       end.

(** Every recursive call drops one aunt. *)
Definition computeHashFromAunts index total leafHash innerHashes : option bytes :=
  computeFuel (length innerHashes) index total leafHash innerHashes.

Definition ComputeRootHash (sp : Proof) : option bytes :=
  computeHashFromAunts (Index sp) (Total sp) (LeafHash sp) (Aunts sp).

(** [bytes.Equal], to which nil is the empty slice. *)
Definition bytesEqual (a b : option bytes) : bool :=
  bool_decide (default [] a = default [] b).

Definition Verify (sp : Proof) (rootHash leaf : bytes) : option goerr :=
  let leafHash := leafHash leaf in
  if Total sp <? 0 then Some (Errorf "proof total must be positive")
  else if Index sp <? 0 then Some (Errorf "proof index cannot be negative")
  else if negb (bytesEqual (LeafHash sp) (Some leafHash)) then Some (Errorf "invalid leaf hash")
  else if negb (bytesEqual (ComputeRootHash sp) (Some rootHash)) then
    Some (Errorf "invalid root hash")
  else None.

Definition ValidateBasic (sp : Proof) : option goerr :=
  if Total sp <? 0 then Some (Errorf "negative Total")
  else if Index sp <? 0 then Some (Errorf "negative Index")
  else if negb (zlen (default [] (LeafHash sp)) =? HashSize) then
    Some (Errorf "expected LeafHash size")
  else if MaxAunts <? zlen (Aunts sp) then Some (Errorf "expected no more aunts")
  else if forallb (fun a => zlen a =? HashSize) (Aunts sp) then None
  else Some (Errorf "expected Aunts size").

(** ** [proof.go]: the construction of the proofs *)

(** A node; a pointer is an index into the heap. *)
Record ProofNode := mkNode {
  nHash : bytes; nParent : option nat; nLeft : option nat; nRight : option nat }.

Abbreviation heap := (list ProofNode).

Definition alloc (h : heap) (hash : bytes) : heap * nat :=
  (h ++ [mkNode hash None None None], length h).

Definition nodeHash (h : heap) (p : nat) : bytes :=
  match h !! p with Some n => nHash n | None => [] end.

(** [p.Parent = parent] together with [p.Right = r] or [p.Left = l]. *)
Definition linkRight (h : heap) (p parent r : nat) : heap :=
  alter (fun n => mkNode (nHash n) (Some parent) (nLeft n) (Some r)) p h.
Definition linkLeft (h : heap) (p parent l : nat) : heap :=
  alter (fun n => mkNode (nHash n) (Some parent) (Some l) (nRight n)) p h.

Fixpoint trailsFuel (fuel : nat) (h : heap) (items : list bytes) : heap * list nat * nat :=
  match items with
  | [] => let '(h, r) := alloc h emptyHash in (h, [], r)
  | [x] => let '(h, trail) := alloc h (leafHash x) in (h, [trail], trail)
  | _ =>
    match fuel with
    | O => (h, [], 0%nat)
    | S fuel =>
      let k := split (length items) in
      let '(h, lefts, leftRoot) := trailsFuel fuel h (take k items) in
      let '(h, rights, rightRoot) := trailsFuel fuel h (drop k items) in
      let rootHash := innerHash (nodeHash h leftRoot) (nodeHash h rightRoot) in
      let '(h, root) := alloc h rootHash in
      let h := linkRight h leftRoot root rightRoot in
      let h := linkLeft h rightRoot root leftRoot in
      (h, lefts ++ rights, root)
    end
  end.

Definition trailsFromByteSlices (items : list bytes) : heap * list nat * nat :=
  trailsFuel (length items) [] items.

(** The walk from a leaf to the root; [fuel] bounds the number of nodes. *)
Fixpoint flattenFuel (fuel : nat) (h : heap) (spn : option nat) : list bytes :=
  match spn, fuel with
  | None, _ | _, O => []
  | Some p, S fuel =>
      match h !! p with
      | None => []
      | Some n =>
          match nLeft n, nRight n with
          | Some l, _ => [nodeHash h l]
          | None, Some r => [nodeHash h r]
          | None, None => []
          end ++ flattenFuel fuel h (nParent n)
      end
  end.

Definition FlattenAunts (h : heap) (p : nat) : list bytes :=
  flattenFuel (length h) h (Some p).

Definition ProofsFromByteSlices (items : list bytes) : bytes * list Proof :=
  let '(h, trails, rootSPN) := trailsFromByteSlices items in
  (nodeHash h rootSPN,
   imap (fun i trail =>
     mkProof (zlen items) (Z.of_nat i) (Some (nodeHash h trail)) (FlattenAunts h trail)) trails).


(** ** The split point *)

(** Characterised as a power of two: the largest one less than [n]. *)
Lemma split_pow2 n :
  (2 <= n)%nat -> exists j, split n = (2 ^ j)%nat /\ (2 ^ j < n <= 2 ^ S j)%nat.
Proof.
  intros Hn. unfold split, getSplitPoint, bitsLen.
  destruct (Z.ltb_spec (Z.of_nat n) 1); [lia|]. destruct (Z.eqb_spec (Z.of_nat n) 0); [lia|].
  pose proof (Z.log2_spec (Z.of_nat n) ltac:(lia)) as [H1 H2].
  set (g := Z.log2 (Z.of_nat n)) in *.
  assert (1 <= g) by (change 1 with (Z.log2 2); apply Z.log2_le_mono; lia).
  assert (forall j, 0 <= j -> Z.to_nat (2 ^ j) = (2 ^ Z.to_nat j)%nat) as Hp.
  { intros j Hj. apply Nat2Z.inj. rewrite Nat2Z.inj_pow, !Z2Nat.id; lia. }
  assert (forall j, 0 <= j -> Z.of_nat (2 ^ Z.to_nat j) = 2 ^ j) as Hq.
  { intros j Hj. rewrite <- Hp, Z2Nat.id; lia. }
  replace (g + 1 - 1) with g by lia. rewrite Z.shiftl_1_l.
  destruct (Z.eqb_spec (2 ^ g) (Z.of_nat n)) as [E|E].
  - exists (Z.to_nat (g - 1)).
    assert (Z.shiftr (2 ^ g) 1 = 2 ^ (g - 1)) as ->.
    { rewrite Z.shiftr_div_pow2, <- Z.pow_sub_r by lia. done. }
    rewrite Hp by lia. split; [done|].
    rewrite Nat.pow_succ_r'. pose proof (Hq (g - 1) ltac:(lia)).
    replace (2 ^ g) with (2 * 2 ^ (g - 1)) in * by (rewrite <- Z.pow_succ_r by lia; f_equal; lia).
    lia.
  - exists (Z.to_nat g). rewrite Hp by lia. split; [done|].
    rewrite Nat.pow_succ_r'. pose proof (Hq g ltac:(lia)).
    rewrite Z.pow_succ_r in H2 by lia. lia.
Qed.

Lemma pow2_between_inj n i j :
  (2 ^ i < n <= 2 ^ S i)%nat -> (2 ^ j < n <= 2 ^ S j)%nat -> i = j.
Proof.
  intros Hi Hj. destruct (Nat.lt_trichotomy i j) as [?|[?|?]]; [|done|].
  - pose proof (Nat.pow_le_mono_r 2 (S i) j). lia.
  - pose proof (Nat.pow_le_mono_r 2 (S j) i). lia.
Qed.

Lemma split_unique n j : (2 ^ j < n <= 2 ^ S j)%nat -> split n = (2 ^ j)%nat.
Proof.
  intros Hj. destruct (split_pow2 n) as (i & -> & Hi).
  - pose proof (Nat.pow_nonzero 2 j). lia.
  - by rewrite (pow2_between_inj n i j).
Qed.

Lemma split_bounds n : (2 <= n)%nat -> (1 <= split n < n)%nat.
Proof.
  intros Hn. destruct (split_pow2 n Hn) as (j & -> & Hj).
  pose proof (Nat.pow_nonzero 2 j). lia.
Qed.

Lemma getSplitPoint_split n :
  (1 <= n)%nat -> getSplitPoint (Z.of_nat n) = Ok (Z.of_nat (split n)).
Proof.
  intros Hn. unfold split, getSplitPoint. destruct (Z.ltb_spec (Z.of_nat n) 1); [lia|].
  rewrite Z2Nat.id; [done|].
  destruct (_ =? _); [apply Z.shiftr_nonneg|]; apply Z.shiftl_nonneg; lia.
Qed.

(** ** The recursive root *)

Lemma hashFuel_step fuel items :
  (2 <= length items)%nat ->
  hashFuel (S fuel) items =
  innerHash (hashFuel fuel (take (split (length items)) items))
            (hashFuel fuel (drop (split (length items)) items)).
Proof. destruct items as [|x [|y items]]; simpl length; intros; [lia..|done]. Qed.

Lemma hashFuel_enough f g items :
  (length items <= f)%nat -> (length items <= g)%nat -> hashFuel f items = hashFuel g items.
Proof.
  revert g items. induction f as [|f IH]; intros g items Hf Hg.
  { destruct items; [by destruct g|simpl in Hf; lia]. }
  destruct items as [|x [|y items]]; [by destruct g|by destruct g|].
  destruct g as [|g]; [simpl in Hg; lia|].
  pose proof (split_bounds (length (x :: y :: items)) ltac:(simpl; lia)).
  rewrite !hashFuel_step by (simpl; lia).
  f_equal; apply IH; rewrite ?length_take, ?length_drop; simpl in *; lia.
Qed.

Lemma HashFromByteSlices_split items :
  (2 <= length items)%nat ->
  HashFromByteSlices items =
  innerHash (HashFromByteSlices (take (split (length items)) items))
            (HashFromByteSlices (drop (split (length items)) items)).
Proof.
  intros Hl. pose proof (split_bounds (length items) Hl). unfold HashFromByteSlices.
  destruct (length items) as [|f] eqn:E; [lia|]. rewrite hashFuel_step, E by lia.
  f_equal; apply hashFuel_enough; rewrite ?length_take, ?length_drop; lia.
Qed.

Lemma HashFromByteSlices_length items : zlen (HashFromByteSlices items) = HashSize.
Proof.
  unfold HashFromByteSlices. destruct items as [|x [|y items]]; apply Sum_length.
Qed.

(** Induction over the shape of the tree. *)
Lemma tree_ind (P : list bytes -> Prop) :
  P [] -> (forall x, P [x]) ->
  (forall items, (2 <= length items)%nat ->
     P (take (split (length items)) items) -> P (drop (split (length items)) items) -> P items) ->
  forall items, P items.
Proof.
  intros P0 P1 P2 items. remember (length items) as n eqn:Hn.
  revert items Hn. induction n as [n IH] using lt_wf_ind. intros items ->.
  destruct items as [|x [|y items]]; [done|done|].
  pose proof (split_bounds (length (x :: y :: items)) ltac:(simpl; lia)).
  apply P2; [simpl; lia| |]; eapply IH; eauto; rewrite ?length_take, ?length_drop;
    simpl in *; lia.
Qed.

(** ** Inclusion paths

    [AuntPath items i x l]: [x] is the item at [i] and [l] the hashes of the
    siblings met on the way from its leaf up to the root. *)

Inductive AuntPath : list bytes -> nat -> bytes -> list bytes -> Prop :=
| AuntLeaf x : AuntPath [x] 0 x []
| AuntLeft items i x l :
    (2 <= length items)%nat -> (i < split (length items))%nat ->
    AuntPath (take (split (length items)) items) i x l ->
    AuntPath items i x (l ++ [HashFromByteSlices (drop (split (length items)) items)])
| AuntRight items i x l :
    (2 <= length items)%nat ->
    AuntPath (drop (split (length items)) items) i x l ->
    AuntPath items (split (length items) + i) x
             (l ++ [HashFromByteSlices (take (split (length items)) items)]).

Lemma AuntPath_lookup items i x l : AuntPath items i x l -> items !! i = Some x.
Proof.
  induction 1 as [|? ? ? ? ? Hi ? IH|? ? ? ? ? ? IH]; [done| |].
  - by rewrite lookup_take_lt in IH.
  - by rewrite lookup_drop in IH.
Qed.

Lemma AuntPath_exists items i x :
  items !! i = Some x -> exists l, AuntPath items i x l.
Proof.
  revert i. induction items as [|y|items Hl IH1 IH2] using tree_ind; intros i Hi.
  - done.
  - destruct i; [|done]. injection Hi as ->. eexists. constructor.
  - set (k := split (length items)) in *. destruct (decide (i < k)%nat) as [Hk|Hk].
    + destruct (IH1 i) as [l Hlp]; [by rewrite lookup_take_lt|].
      eexists. by apply AuntLeft.
    + destruct (IH2 (i - k)%nat) as [l Hlp].
      { rewrite lookup_drop. by replace (k + (i - k))%nat with i by lia. }
      replace i with (k + (i - k))%nat by lia. eexists. by apply AuntRight.
Qed.

Lemma AuntPath_short items i x l : AuntPath items i x l -> (length l < length items)%nat.
Proof.
  induction 1 as [|items i x l Hl Hi _ IH|items i x l Hl _ IH]; [simpl; lia| |];
    pose proof (split_bounds _ Hl); rewrite length_app; simpl.
  - rewrite length_take in IH. lia.
  - rewrite length_drop in IH. lia.
Qed.

Lemma computeFuel_snoc l aunt fuel index total lh :
  (length l < fuel)%nat -> 2 <= total -> 0 <= index < total ->
  computeFuel fuel index total lh (l ++ [aunt]) =
  let numLeft := Z.of_nat (split (Z.to_nat total)) in
  if index <? numLeft then
    (fun h => innerHash h aunt) <$> computeFuel (pred fuel) index numLeft lh l
  else (fun h => innerHash aunt h) <$>
         computeFuel (pred fuel) (index - numLeft) (total - numLeft) lh l.
Proof.
  intros Hf Ht Hi. destruct fuel as [|fuel]; [lia|]. cbn [computeFuel pred].
  rewrite Z.geb_leb. destruct (Z.leb_spec total index), (Z.ltb_spec index 0),
    (Z.leb_spec total 0); try lia. cbn [orb].
  destruct (Z.eqb_spec total 1); [lia|]. rewrite last_snoc.
  pose proof (getSplitPoint_split (Z.to_nat total) ltac:(lia)) as Hs.
  rewrite Z2Nat.id in Hs by lia. rewrite Hs, removelast_last.
  destruct (index <? _); by destruct (computeFuel fuel _ _ _ _).
Qed.

(** Completeness of the paths: recomputing from the leaf hash and the aunts
    gives the root. *)
Lemma AuntPath_compute items i x l fuel :
  AuntPath items i x l -> (length l <= fuel)%nat ->
  computeFuel fuel (Z.of_nat i) (zlen items) (Some (leafHash x)) l =
  Some (HashFromByteSlices items).
Proof.
  intros Hp. revert fuel. induction Hp as [x|items i x l Hl Hi Hp IH|items i x l Hl Hp IH];
    intros fuel Hf.
  { by destruct fuel. }
  - pose proof (split_bounds _ Hl). rewrite length_app in Hf. simpl in Hf.
    rewrite computeFuel_snoc by lia. cbv zeta. rewrite Nat2Z.id.
    destruct (Z.ltb_spec (Z.of_nat i) (Z.of_nat (split (length items)))); [|lia].
    specialize (IH (pred fuel) ltac:(lia)). rewrite length_take in IH.
    replace (split (length items) `min` length items)%nat with (split (length items)) in IH by lia.
    rewrite IH. by rewrite (HashFromByteSlices_split items).
  - pose proof (split_bounds _ Hl). rewrite length_app in Hf. simpl in Hf.
    pose proof (AuntPath_lookup _ _ _ _ Hp) as Hlt. apply lookup_lt_Some in Hlt.
    rewrite length_drop in Hlt.
    rewrite computeFuel_snoc by lia. cbv zeta. rewrite Nat2Z.id.
    destruct (Z.ltb_spec (Z.of_nat (split (length items) + i)) (Z.of_nat (split (length items)))); [lia|].
    specialize (IH (pred fuel) ltac:(lia)). rewrite length_drop in IH.
    replace (Z.of_nat (split (length items) + i) - Z.of_nat (split (length items)))
      with (Z.of_nat i) by lia.
    replace (zlen items - Z.of_nat (split (length items)))
      with (Z.of_nat (length items - split (length items))) by lia.
    rewrite IH. by rewrite (HashFromByteSlices_split items).
Qed.

(** ** Soundness of the paths *)

Lemma app_inj_length {A} (a b c d : list A) :
  length a = length c -> a ++ b = c ++ d -> a = c /\ b = d.
Proof. intros. by apply app_inj_1. Qed.

(** What is hashed for a leaf, for a node, for a tree and for a path. *)
Definition leafInput (x : bytes) : bytes := leafPrefix ++ x.
Definition innerInput (a b : bytes) : bytes := innerPrefix ++ (a ++ b).

Fixpoint treeInputsFuel (fuel : nat) (items : list bytes) : list bytes :=
  match items with
  | [] => [[]]
  | [x] => [leafInput x]
  | _ => match fuel with
         | O => []
         | S fuel =>
             let l := take (split (length items)) items in
             let r := drop (split (length items)) items in
             innerInput (HashFromByteSlices l) (HashFromByteSlices r) :: treeInputsFuel fuel l ++ treeInputsFuel fuel r
         end
  end.
Definition treeInputs (items : list bytes) : list bytes := treeInputsFuel (length items) items.

Fixpoint pathInputsFuel (fuel : nat) (index total : Z) (lh : option bytes) (aunts : list bytes) : list bytes :=
  match last aunts, fuel with
  | Some aunt, S fuel =>
      let numLeft := Z.of_nat (split (Z.to_nat total)) in
      let rest := removelast aunts in
      let left := index <? numLeft in
      let index := if left then index else index - numLeft in
      let total := if left then numLeft else total - numLeft in
      match computeFuel fuel index total lh rest with
      | Some h => (if left then innerInput h aunt else innerInput aunt h) :: pathInputsFuel fuel index total lh rest
      | None => []
      end
  | _, _ => []
  end.
(** What [Verify] hashes. *)
Definition proofInputs (sp : Proof) (leaf : bytes) : list bytes :=
  leafInput leaf :: pathInputsFuel (length (Aunts sp)) (Index sp) (Total sp) (LeafHash sp) (Aunts sp).

Lemma treeInputsFuel_step fuel items :
  (2 <= length items)%nat ->
  treeInputsFuel (S fuel) items =
  let l := take (split (length items)) items in let r := drop (split (length items)) items in
  innerInput (HashFromByteSlices l) (HashFromByteSlices r) :: treeInputsFuel fuel l ++ treeInputsFuel fuel r.
Proof. destruct items as [|x [|y items]]; simpl length; intros; [lia..|done]. Qed.
Lemma treeInputsFuel_enough f g items :
  (length items <= f)%nat -> (length items <= g)%nat -> treeInputsFuel f items = treeInputsFuel g items.
Proof.
  revert g items. induction f as [|f IH]; intros g items Hf Hg.
  { destruct items; [by destruct g|simpl in Hf; lia]. }
  destruct items as [|x [|y items]]; [by destruct g|by destruct g|].
  destruct g as [|g]; [simpl in Hg; lia|].
  pose proof (split_bounds (length (x :: y :: items)) ltac:(simpl; lia)).
  rewrite !treeInputsFuel_step by (simpl; lia). cbv zeta.
  do 2 f_equal; apply IH; rewrite ?length_take, ?length_drop; simpl in *; lia.
Qed.
Lemma treeInputs_split items :
  (2 <= length items)%nat ->
  treeInputs items =
  let l := take (split (length items)) items in let r := drop (split (length items)) items in
  innerInput (HashFromByteSlices l) (HashFromByteSlices r) :: treeInputs l ++ treeInputs r.
Proof.
  intros Hl. pose proof (split_bounds (length items) Hl). unfold treeInputs.
  destruct (length items) as [|f] eqn:E; [lia|]. rewrite treeInputsFuel_step, E by lia. cbv zeta.
  do 2 f_equal; apply treeInputsFuel_enough; rewrite ?length_take, ?length_drop; lia.
Qed.

Lemma pathInputs_snoc l aunt fuel index total lh r :
  (length l < fuel)%nat -> 2 <= total -> 0 <= index < total ->
  let numLeft := Z.of_nat (split (Z.to_nat total)) in
  let left := index <? numLeft in
  let index' := if left then index else index - numLeft in
  let total' := if left then numLeft else total - numLeft in
  computeFuel fuel index total lh (l ++ [aunt]) = Some r ->
  exists h, computeFuel (pred fuel) index' total' lh l = Some h /\
    r = (if left then innerHash h aunt else innerHash aunt h) /\
    pathInputsFuel fuel index total lh (l ++ [aunt]) =
      (if left then innerInput h aunt else innerInput aunt h) :: pathInputsFuel (pred fuel) index' total' lh l.
Proof.
  intros Hf Ht Hi numLeft left index' total'. rewrite computeFuel_snoc by done. cbv zeta. fold numLeft. fold left.
  intros E. destruct fuel as [|fuel]; [lia|]. cbn [pathInputsFuel pred] in *. rewrite last_snoc, removelast_last.
  fold numLeft. fold left. fold index'. fold total'. unfold index', total' in *. destruct left;
    apply fmap_Some in E as (h & -> & ->); by exists h.
Qed.

(** Equal inner hashes of hash-sized children have equal children, or the inputs
    collide. *)
Lemma innerHash_inj a b c d :
  length a = length c -> innerHash a b = innerHash c d -> (a = c /\ b = d) \/ Collision [innerInput a b] [innerInput c d].
Proof.
  intros Hl He. destruct (decide ((a, b) = (c, d))) as [[= -> ->]|Hne]; [by left|].
  right. do 2 constructor. split; [|exact He].
  intros E. apply app_inv_head in E. apply app_inj_length in E as [-> ->]; done.
Qed.

Lemma leafHash_inj x y : leafHash x = leafHash y -> x = y \/ Collision [leafInput x] [leafInput y].
Proof.
  intros He. destruct (decide (x = y)); [by left|]. right. do 2 constructor. split; [|exact He].
  intros E. by apply app_inv_head in E.
Qed.

Lemma computeFuel_range fuel index total lh l r :
  computeFuel fuel index total lh l = Some r -> 0 <= index < total.
Proof.
  destruct fuel; cbn [computeFuel]; rewrite Z.geb_leb;
    destruct (Z.leb_spec total index), (Z.ltb_spec index 0), (Z.leb_spec total 0);
    cbn [orb]; done || lia.
Qed.

Lemma computeFuel_length fuel index total lh l r :
  length lh = Z.to_nat HashSize ->
  computeFuel fuel index total (Some lh) l = Some r -> length r = Z.to_nat HashSize.
Proof.
  intros Hlh. pose proof (Sum_length) as HS.
  assert (forall b, length (Sum b) = Z.to_nat HashSize) as HS'.
  { intros b. specialize (HS b). lia. }
  destruct fuel; cbn [computeFuel]; destruct (_ || _ || _); try done;
    destruct (_ =? 1).
  1,3: destruct l; [intros [= <-]|]; done.
  - by destruct (last l).
  - destruct (last l); [|done]. destruct (getSplitPoint total); [|done..].
    destruct (index <? _); destruct (computeFuel fuel _ _ _ _); try done;
      intros [= <-]; apply HS'.
Qed.

Lemma computeFuel_nil fuel index total lh :
  total <> 1 -> computeFuel fuel index total lh [] = None.
Proof.
  intros Ht. destruct fuel; cbn [computeFuel]; destruct (_ || _ || _); try done;
    by destruct (Z.eqb_spec total 1).
Qed.

Definition auntsSized (l : list bytes) : Prop := Forall (fun a => zlen a = HashSize) l.

(** Two paths of hash-sized aunts to the same root, for the same index and total,
    start at the same leaf hash, unless there is a collision. *)
Lemma compute_agree f g index total lh lh' l l' r :
  length lh = Z.to_nat HashSize -> length lh' = Z.to_nat HashSize ->
  auntsSized l -> auntsSized l' -> (length l <= f)%nat -> (length l' <= g)%nat ->
  computeFuel f index total (Some lh) l = Some r ->
  computeFuel g index total (Some lh') l' = Some r ->
  lh = lh' \/ Collision (pathInputsFuel f index total (Some lh) l) (pathInputsFuel g index total (Some lh') l').
Proof.
  intros Hlh Hlh'. revert g index total l l' r.
  induction f as [f IH] using lt_wf_ind; intros g index total l l' r Hs Hs' Hf Hg E E'.
  pose proof (computeFuel_range _ _ _ _ _ _ E) as Hr.
  destruct (decide (total = 1)) as [->|Ht].
  { left. destruct f, g, l, l'; cbn [computeFuel length] in *; try lia;
      destruct (_ || _ || _); simpl in E, E'; try done; congruence. }
  destruct l as [|a l _] using rev_ind; [by rewrite computeFuel_nil in E|].
  destruct l' as [|a' l' _] using rev_ind; [by rewrite computeFuel_nil in E'|].
  rewrite length_app in Hf, Hg. simpl in Hf, Hg.
  apply Forall_app in Hs as [Hs Ha]. apply Forall_app in Hs' as [Hs' Ha'].
  inversion_clear Ha as [|? ? Ha1 _]. inversion_clear Ha' as [|? ? Ha1' _].
  apply pathInputs_snoc in E as (h & E & -> & ->); [|lia..].
  apply pathInputs_snoc in E' as (h' & E' & Hi & ->); [|lia..].
  pose proof (computeFuel_length _ _ _ _ _ _ Hlh E) as Lh. pose proof (computeFuel_length _ _ _ _ _ _ Hlh' E') as Lh'.
  destruct (index <? _);
    (apply innerHash_inj in Hi as [[H1 H2]|Hc]; [subst|right; revert Hc; apply Collision_mono; clear; set_solver|lia]);
    (destruct (IH (pred f) ltac:(lia) (pred g) _ _ l l' _ Hs Hs' ltac:(lia) ltac:(lia) E E') as [|Hc]; [by left|right]);
    revert Hc; apply Collision_mono; clear; set_solver.
Qed.

(** A verified proof against a hash-sized root has its index below its total. *)
Lemma Verify_index sp root x :
  zlen root = HashSize -> Verify sp root x = None -> 0 <= Index sp < Total sp.
Proof.
  unfold Verify, bytesEqual, ComputeRootHash, computeHashFromAunts. intros Hr.
  destruct (Total sp <? 0); [done|]. destruct (Index sp <? 0); [done|].
  case_bool_decide; [|done]. case_bool_decide as E; [|done]. intros _.
  destruct (computeFuel _ _ _ _ _) eqn:Ec; [by eapply computeFuel_range|].
  simpl in E. by subst root.
Qed.

Lemma Verify_agree sp sp' root x y :
  ValidateBasic sp = None -> ValidateBasic sp' = None ->
  Index sp = Index sp' -> Total sp = Total sp' -> zlen root = HashSize ->
  Verify sp root x = None -> Verify sp' root y = None -> x = y \/ Collision (proofInputs sp x) (proofInputs sp' y).
Proof.
  assert (forall sp x, ValidateBasic sp = None -> zlen root = HashSize -> Verify sp root x = None ->
    auntsSized (Aunts sp) /\ LeafHash sp = Some (leafHash x) /\ computeFuel (length (Aunts sp)) (Index sp) (Total sp)
      (Some (leafHash x)) (Aunts sp) = Some root) as HA.
  { clear. intros sp x HV Hroot HVer. unfold ValidateBasic, Verify, bytesEqual in *.
    destruct (Total sp <? 0); [done|]. destruct (Index sp <? 0); [done|].
    destruct (negb (_ =? HashSize)); [done|]. destruct (MaxAunts <? _); [done|].
    destruct (forallb _ _) eqn:Hs; [|done]. apply Is_true_eq_left, forallb_True in Hs.
    split. { eapply Forall_impl; [exact Hs|]. intros a Ha. by apply Is_true_eq_true, Z.eqb_eq in Ha. }
    case_bool_decide as E1; [|done]. case_bool_decide as E2; [|done]. simpl in E1, E2.
    unfold ComputeRootHash, computeHashFromAunts in E2.
    assert (LeafHash sp = Some (leafHash x)) as <-.
    { destruct (LeafHash sp) as [lh|]; simpl in E1; [by subst|].
      pose proof (Sum_length (leafPrefix ++ x)) as HS. unfold leafHash in E1. by rewrite <- E1 in HS. }
    split; [done|]. destruct (computeFuel _ _ _ _ _); simpl in E2; [by subst|]. subst. done. }
  intros V V' EI ET Hr HV HV'. destruct (HA _ _ V Hr HV) as (S1 & L1 & C1).
  destruct (HA _ _ V' Hr HV') as (S2 & L2 & C2). unfold proofInputs. rewrite L1, L2. rewrite <- EI, <- ET in C2 |- *.
  assert (forall b, length (leafHash b) = Z.to_nat HashSize) as Hl.
  { intros b. pose proof (Sum_length (leafPrefix ++ b)). unfold leafHash. lia. }
  destruct (compute_agree _ _ _ _ _ _ _ _ _ (Hl x) (Hl y) S1 S2 (le_n _) (le_n _) C1 C2) as [E|Hc]; [apply leafHash_inj in E as [|Hc]; [by left|]|]; right; revert Hc; apply Collision_mono; clear; set_solver.
Qed.

(** A path of hash-sized aunts that recomputes the root of [items] starts at
    the leaf hash of the item it claims, unless there is a collision. *)
Lemma compute_sound items fuel i lh l :
  length lh = Z.to_nat HashSize -> auntsSized l -> (length l <= fuel)%nat ->
  computeFuel fuel (Z.of_nat i) (zlen items) (Some lh) l = Some (HashFromByteSlices items) ->
  (exists x, items !! i = Some x /\ lh = leafHash x) \/
  Collision (treeInputs items) (pathInputsFuel fuel (Z.of_nat i) (zlen items) (Some lh) l).
Proof.
  intros Hlh. revert fuel i l.
  induction items as [|y|items Hl IH1 IH2] using tree_ind; intros fuel i l Hl' Hf Hc;
    pose proof (computeFuel_range _ _ _ _ _ _ Hc) as Hr; [simpl in Hr; lia| |].
  - simpl in Hr. assert (i = 0)%nat as -> by lia. left. exists y. split; [done|].
    destruct fuel, l; simpl in Hc; by inversion Hc.
  - pose proof (split_bounds _ Hl). destruct l as [|a l' _] using rev_ind.
    { by rewrite computeFuel_nil in Hc by lia. }
    apply Forall_app in Hl' as [Hl' Ha]. inversion_clear Ha.
    rewrite length_app in Hf. simpl in Hf.
    apply pathInputs_snoc in Hc as (h & Hc & Hh & ->); [|lia..]. rewrite Nat2Z.id in *.
    pose proof (computeFuel_length _ _ _ _ _ _ Hlh Hc) as Hhl.
    rewrite HashFromByteSlices_split, treeInputs_split in * by done. cbv zeta.
    pose proof HashFromByteSlices_length as HH. set (L := take (split (length items)) items) in *.
    set (R := drop (split (length items)) items) in *. pose proof (HH L) as HL.
    destruct (Z.ltb_spec (Z.of_nat i) (Z.of_nat (split (length items)))) as [Hi|Hi].
    + apply innerHash_inj in Hh as [[<- _]|Hh]; [|right; revert Hh; apply Collision_mono; clear; set_solver|lia].
      assert (Z.of_nat (split (length items)) = zlen L) as El by (unfold L; rewrite length_take; lia). rewrite El in Hc |- *.
      apply IH1 in Hc as [(x & Hx & ->)|Hc]; [|right; revert Hc; apply Collision_mono; clear; set_solver|done|lia].
      left. exists x. split; [|done]. unfold L in Hx. by rewrite lookup_take_lt in Hx by lia.
    + apply innerHash_inj in Hh as [[_ <-]|Hh]; [|right; revert Hh; apply Collision_mono; clear; set_solver|lia].
      assert (Z.of_nat i - Z.of_nat (split (length items)) = Z.of_nat (i - split (length items))) as Ei by lia.
      assert (zlen items - Z.of_nat (split (length items)) = zlen R) as Er by (unfold R; rewrite length_drop; lia).
      rewrite Ei, Er in Hc |- *.
      apply IH2 in Hc as [(x & Hx & ->)|Hc]; [|right; revert Hc; apply Collision_mono; clear; set_solver|done|lia].
      left. exists x. split; [|done]. unfold R in Hx. rewrite lookup_drop in Hx.
      by replace (split (length items) + (i - split (length items)))%nat with i in Hx by lia.
Qed.

(** ** The iterative version

    [RootOf hs r]: [r] is the root of the tree over the leaf hashes [hs]. *)

Inductive RootOf : list bytes -> bytes -> Prop :=
| RootOne h : RootOf [h] h
| RootNode l r a b :
    length l = split (length (l ++ r)) -> l <> [] -> r <> [] ->
    RootOf l a -> RootOf r b -> RootOf (l ++ r) (innerHash a b).

Lemma RootOf_recursive items :
  items <> [] -> RootOf (map leafHash items) (HashFromByteSlices items).
Proof.
  induction items as [|x|items Hl IH1 IH2] using tree_ind; intros Hne.
  - done.
  - constructor.
  - pose proof (split_bounds _ Hl). rewrite HashFromByteSlices_split by done.
    rewrite <- (take_drop (split (length items)) items) at 1. rewrite map_app.
    assert (take (split (length items)) items <> []) as N1.
    { intros E. apply (f_equal length) in E. rewrite length_take in E. simpl in E. lia. }
    assert (drop (split (length items)) items <> []) as N2.
    { intros E. apply (f_equal length) in E. rewrite length_drop in E. simpl in E. lia. }
    constructor; [|by intros ?%map_eq_nil..|by apply IH1|by apply IH2].
    rewrite <- map_app, take_drop, !length_map, length_take. lia.
Qed.

(** One pass: neighbours are combined, an odd last element is kept. *)
Fixpoint pairUp (hs : list bytes) : list bytes :=
  match hs with
  | a :: b :: hs => innerHash a b :: pairUp hs
  | _ => hs
  end.

Lemma pairUp_ind (P : list bytes -> Prop) :
  P [] -> (forall a, P [a]) -> (forall a b hs, P hs -> P (a :: b :: hs)) -> forall hs, P hs.
Proof.
  intros P0 P1 P2. fix IH 1. intros [|a [|b hs]]; [done|done|]. by apply P2, IH.
Qed.

Lemma pairUp_length hs : (2 * length (pairUp hs) = length hs + length hs mod 2)%nat.
Proof.
  induction hs as [|a|a b hs IH] using pairUp_ind; [done..|].
  cbn [pairUp length]. replace (S (S (length hs))) with (length hs + 1 * 2)%nat by lia.
  rewrite Nat.Div0.mod_add. lia.
Qed.

Lemma pairUp_app l r :
  Nat.Even (length l) -> pairUp (l ++ r) = pairUp l ++ pairUp r.
Proof.
  induction l as [|a|a b l IH] using pairUp_ind; intros He.
  - done.
  - destruct He as [m He]. simpl in He. lia.
  - simpl. f_equal. apply IH. destruct He as [m He]. simpl in He. exists (pred m). lia.
Qed.

Lemma RootOf_pairUp hs r :
  RootOf hs r -> (2 <= length hs)%nat -> RootOf (pairUp hs) r.
Proof.
  induction 1 as [h|l r a b Hs Nl Nr Ha IHa Hb IHb]; simpl; intros Hlen; [lia|].
  destruct (split_pow2 _ Hlen) as (j & Hj & Hb2). rewrite Hj in Hs.
  rewrite length_app in Hb2.
  assert (1 <= length l)%nat by (destruct l; simpl; [done|lia]).
  assert (1 <= length r)%nat by (destruct r; simpl; [done|lia]).
  destruct j as [|j].
  - simpl in Hs, Hb2. destruct l as [|x [|]], r as [|y [|]]; simpl in *; try lia.
    inversion Ha; subst; inversion Hb; subst; try done;
      repeat match goal with E : _ ++ _ = [_] |- _ =>
        apply app_eq_unit in E as [[-> ->]|[-> ->]] end; done || constructor.
  - assert (2 ^ S j = 2 * 2 ^ j)%nat as E2 by (by rewrite Nat.pow_succ_r').
    assert (2 ^ S (S j) = 2 * 2 ^ S j)%nat as E3 by (by rewrite (Nat.pow_succ_r' _ (S j))).
    pose proof (Nat.pow_nonzero 2 j ltac:(lia)).
    rewrite pairUp_app by (exists (2 ^ j)%nat; lia).
    pose proof (pairUp_length l) as Pl. pose proof (pairUp_length r) as Pr.
    pose proof (Nat.mod_upper_bound (length r) 2 ltac:(lia)).
    assert (length l mod 2 = 0)%nat as El.
    { rewrite Hs, E2, Nat.mul_comm. apply Nat.Div0.mod_mul. }
    assert (RootOf (pairUp r) b) as Hr'.
    { destruct (decide (2 <= length r)%nat); [by apply IHb|].
      destruct r as [|y [|]]; simpl in *; [lia|done|lia]. }
    constructor; [|by intros E; rewrite E in *; simpl in *; lia..|apply IHa; lia|done].
    rewrite (split_unique _ j); rewrite ?length_app; lia.
Qed.

Lemma upd_middle {A} (pre : list A) x rest i a :
  i = zlen pre -> upd (pre ++ x :: rest) i a = Ok (pre ++ a :: rest).
Proof.
  intros ->. apply upd_Ok. rewrite length_app. simpl. split; [lia|].
  by rewrite Nat2Z.id, insert_app_r_alt, Nat.sub_diag by lia.
Qed.

Lemma idx_middle {A} (pre : list A) x rest i :
  i = zlen pre -> idx (pre ++ x :: rest) i = Ok x.
Proof.
  intros ->. apply idx_Ok, zlook_Some. split; [lia|]. by rewrite Nat2Z.id, list_lookup_middle.
Qed.

(** The pass overwrites the front of the array with [pairUp] of its first
    [size] elements: [d] is written, [j] already read, [t] still to read. *)
Lemma iterPass_spec fuel d j t x rp wp size :
  (length t <= fuel)%nat -> wp = zlen d -> rp = zlen (d ++ j) -> size = zlen (d ++ j ++ t) ->
  exists j',
    iterPass fuel (d ++ j ++ t ++ x) rp wp size =
    Ok (d ++ pairUp t ++ j', zlen (d ++ pairUp t)).
Proof.
  revert d j t rp wp size. induction fuel as [|fuel IH]; intros d j t rp wp size Hf -> -> ->;
    rewrite !length_app.
  all: destruct t as [|a t]; [|simpl in Hf; try lia].
  1,2: exists (j ++ x); cbn [iterPass length];
    destruct (Z.ltb_spec (Z.of_nat (length d + length j)) (Z.of_nat (length d + (length j + 0))));
    [lia|simpl; by rewrite Nat.add_0_r].
  (* the slot at the write position is the head of [j ++ [a]] *)
  assert (exists y k, j ++ [a] = y :: k /\ length k = length j) as (y & k & Hj & Hk).
  { destruct j as [|y j]; [by exists a, []|]. exists y, (j ++ [a]).
    split; [done|]. rewrite length_app. simpl. lia. }
  destruct t as [|b t]; cbn [iterPass length].
  - destruct (Z.ltb_spec (Z.of_nat (length d + length j)) (Z.of_nat (length d + (length j + 1)))); [|lia].
    destruct (Z.ltb_spec (Z.of_nat (length d + length j) + 1) (Z.of_nat (length d + (length j + 1)))); [lia|].
    change ([a] ++ x) with (a :: x).
    rewrite app_assoc, idx_middle by (rewrite length_app; lia). cbn [gbind].
    replace ((d ++ j) ++ a :: x) with (d ++ y :: k ++ x)
      by (rewrite <- app_assoc; change (a :: x) with ([a] ++ x); rewrite (app_assoc j), Hj; done).
    rewrite upd_middle by done. cbn [gbind].
    destruct (IH (d ++ [a]) k [] (Z.of_nat (length d + length j) + 1) (zlen d + 1)
                (Z.of_nat (length d + (length j + 1)))) as [j' Hj'];
      rewrite ?length_app; simpl; try lia.
    exists j'. rewrite <- !app_assoc, length_app in Hj'. done.
  - destruct (Z.ltb_spec (Z.of_nat (length d + length j)) (Z.of_nat (length d + (length j + S (S (length t)))))); [|lia].
    destruct (Z.ltb_spec (Z.of_nat (length d + length j) + 1) (Z.of_nat (length d + (length j + S (S (length t)))))); [|lia].
    change ((a :: b :: t) ++ x) with (a :: b :: t ++ x).
    rewrite app_assoc, idx_middle by (rewrite length_app; lia). cbn [gbind].
    replace ((d ++ j) ++ a :: b :: t ++ x) with (((d ++ j) ++ [a]) ++ b :: t ++ x)
      by (by rewrite <- app_assoc).
    rewrite idx_middle by (rewrite !length_app; simpl; lia). cbn [gbind].
    replace (((d ++ j) ++ [a]) ++ b :: t ++ x) with (d ++ y :: k ++ b :: t ++ x)
      by (rewrite <- (app_assoc d), Hj, <- app_assoc; done).
    rewrite upd_middle by done. cbn [gbind].
    destruct (IH (d ++ [innerHash a b]) (k ++ [b]) t (Z.of_nat (length d + length j) + 2)
                (zlen d + 1) (Z.of_nat (length d + (length j + S (S (length t)))))) as [j' Hj'];
      rewrite ?length_app; simpl in *; try lia.
    exists j'. rewrite <- !app_assoc, length_app in Hj'. done.
Qed.

Lemma iterLoop_spec fuel hs tail_ r :
  (length hs <= S fuel)%nat -> RootOf hs r ->
  iterLoop fuel (hs ++ tail_) (zlen hs) = Ok r.
Proof.
  revert hs tail_. induction fuel as [|fuel IH]; intros hs tail_ Hf Hr;
    assert (1 <= length hs)%nat as Hne
      by (inversion Hr as [|? ? ? ? ? Nl]; subst; [simpl; lia|];
          rewrite length_app; destruct l; [done|simpl; lia]).
  all: cbn [iterLoop]; destruct (Z.eqb_spec (zlen hs) 0); [lia|].
  all: destruct (Z.eqb_spec (zlen hs) 1) as [E|E].
  1,3: destruct hs as [|h [|]]; simpl in E; try lia; inversion Hr as [|? ? ? ? ? Nl Nr]; subst;
    [by apply idx_Ok|];
    match goal with E : _ ++ _ = [_] |- _ =>
      apply app_eq_unit in E as [[-> ->]|[-> ->]] end; done.
  - lia.
  - destruct (iterPass_spec (length (hs ++ tail_)) [] [] hs tail_ 0 0 (zlen hs)) as [j' Hp];
      [rewrite length_app; lia|done..|].
    simpl in Hp. rewrite Hp. cbn [gbind].
    pose proof (pairUp_length hs). pose proof (Nat.mod_upper_bound (length hs) 2 ltac:(lia)).
    apply IH; [lia|]. apply RootOf_pairUp; [done|lia].
Qed.

(** ** The linked proof nodes

    [chain b h p q l]: walking the parents from [p] reaches [q], over nodes at
    or above [b], and [l] are the hashes of the siblings of the nodes walked
    over, [q]'s excluded. *)

Definition siblingHash (h : heap) (n : ProofNode) : option bytes :=
  match nLeft n, nRight n with
  | Some l, _ => Some (nodeHash h l)
  | None, Some r => Some (nodeHash h r)
  | None, None => None
  end.

Inductive chain (b : nat) (h : heap) : nat -> nat -> list bytes -> Prop :=
| chain_nil q : (b <= q)%nat -> chain b h q q []
| chain_step p n p' q a l :
    (b <= p)%nat -> h !! p = Some n -> nParent n = Some p' -> siblingHash h n = Some a ->
    chain b h p' q l -> chain b h p q (a :: l).

Lemma chain_le b b' h p q l : chain b h p q l -> (b' <= b)%nat -> chain b' h p q l.
Proof. induction 1; econstructor; eauto; lia. Qed.

Lemma chain_snoc b h p q n r a l :
  chain b h p q l -> h !! q = Some n -> nParent n = Some r -> siblingHash h n = Some a ->
  (b <= r)%nat -> chain b h p r (l ++ [a]).
Proof.
  induction 1; intros Hn Hp Ha Hr; simpl; econstructor; eauto. by constructor.
Qed.

(** [h2] keeps the hashes of [h1], and the nodes from [b] on except [q]. *)
Definition keeps (b q : nat) (h1 h2 : heap) : Prop :=
  forall p n, h1 !! p = Some n ->
  exists n', h2 !! p = Some n' /\ nHash n' = nHash n /\ ((b <= p)%nat -> p <> q -> n' = n).

(** Every link points into the heap. *)
Definition linksIn (h : heap) : Prop :=
  forall p n s, h !! p = Some n -> nLeft n = Some s \/ nRight n = Some s -> (s < length h)%nat.

Lemma keeps_nodeHash b q h1 h2 p :
  keeps b q h1 h2 -> (p < length h1)%nat -> nodeHash h2 p = nodeHash h1 p.
Proof.
  intros Hk [n Hn]%lookup_lt_is_Some. destruct (Hk _ _ Hn) as (n' & Hn' & E & _).
  unfold nodeHash. by rewrite Hn, Hn'.
Qed.

Lemma keeps_siblingHash b q h1 h2 p n :
  keeps b q h1 h2 -> linksIn h1 -> h1 !! p = Some n -> siblingHash h2 n = siblingHash h1 n.
Proof.
  intros Hk Hl Hn. unfold siblingHash.
  destruct (nLeft n) eqn:E1; [|destruct (nRight n) eqn:E2; [|done]];
    f_equal; eapply keeps_nodeHash; eauto.
Qed.

Lemma chain_keeps b h1 h2 p q l nq :
  keeps b q h1 h2 -> linksIn h1 -> h1 !! q = Some nq -> nParent nq = None ->
  chain b h1 p q l -> chain b h2 p q l.
Proof.
  intros Hk Hl Hq Hnq. induction 1 as [|p n p' q a l Hb Hn Hp Ha Hc IH]; [by constructor|].
  destruct (Hk _ _ Hn) as (n' & Hn' & _ & E).
  assert (n' = n) as ->. { apply E; [done|]. intros ->. congruence. }
  econstructor; eauto. by erewrite keeps_siblingHash.
Qed.

(** What [trailsFuel] builds on top of a heap. *)
Record trailsOK (h : heap) (items : list bytes) (h' : heap) (ts : list nat) (root : nat) : Prop := {
  tk_ext : exists ns, h' = h ++ ns /\ (length items <= length ns)%nat;
  tk_links : linksIn h';
  tk_root : (length h <= root)%nat /\
            h' !! root = Some (mkNode (HashFromByteSlices items) None None None);
  tk_len : length ts = length items;
  tk_path : forall i p, ts !! i = Some p ->
    exists x l, AuntPath items i x l /\ nodeHash h' p = leafHash x /\
      (p < length h')%nat /\ chain (length h) h' p root l }.

Lemma linksIn_alloc h hash : linksIn h -> linksIn (h ++ [mkNode hash None None None]).
Proof.
  intros Hl p n s Hn Hs. rewrite length_app. simpl.
  apply lookup_app_Some in Hn as [Hn|[_ Hn]].
  - specialize (Hl _ _ _ Hn Hs). lia.
  - apply list_lookup_singleton_Some in Hn as [_ <-]. by destruct Hs.
Qed.

Lemma linksIn_link h p (f : ProofNode -> ProofNode) t :
  linksIn h -> (t < length h)%nat ->
  (forall n s, nLeft (f n) = Some s \/ nRight (f n) = Some s ->
     s = t \/ nLeft n = Some s \/ nRight n = Some s) ->
  linksIn (alter f p h).
Proof.
  intros Hl Ht Hf q n s Hn Hs. rewrite length_alter.
  destruct (decide (p = q)) as [<-|Hne].
  - rewrite list_lookup_alter_eq in Hn. destruct (h !! p) as [m|] eqn:Em; [|done].
    injection Hn as <-. destruct (Hf _ _ Hs) as [->|Hs']; eauto.
  - rewrite list_lookup_alter_ne in Hn by done. eauto.
Qed.

(** *** Joining two subtrees under a new root *)

Definition joinHeap (h2 : heap) (lR rR : nat) (rootHash : bytes) : heap :=
  linkLeft (linkRight (h2 ++ [mkNode rootHash None None None]) lR (length h2) rR)
           rR (length h2) lR.

Section join.
Context (h h1 h2 : heap) (L R : list bytes) (ts1 ts2 : list nat) (lR rR : nat) (rh : bytes).
Context (HL : trailsOK h L h1 ts1 lR) (HR : trailsOK h1 R h2 ts2 rR).
Let h5 := joinHeap h2 lR rR rh.

Lemma join_order :
  (length h <= lR < length h1 /\ length h1 <= rR < length h2)%nat.
Proof.
  pose proof (tk_root _ _ _ _ _ HL) as [? E1%lookup_lt_Some].
  pose proof (tk_root _ _ _ _ _ HR) as [? E2%lookup_lt_Some]. lia.
Qed.

Lemma join_old p n : h2 !! p = Some n -> p <> lR -> p <> rR -> h5 !! p = Some n.
Proof.
  intros Hn N1 N2. unfold h5, joinHeap, linkLeft, linkRight.
  rewrite !list_lookup_alter_ne by done. by apply lookup_app_l_Some.
Qed.

Lemma join_left :
  h5 !! lR = Some (mkNode (HashFromByteSlices L) (Some (length h2)) None (Some rR)).
Proof.
  pose proof join_order. pose proof (tk_root _ _ _ _ _ HL) as [_ E].
  destruct (tk_ext _ _ _ _ _ HR) as (ns & E2 & _).
  unfold h5, joinHeap, linkLeft, linkRight.
  rewrite list_lookup_alter_ne, list_lookup_alter_eq by lia.
  rewrite (lookup_app_l_Some h2 _ lR (mkNode (HashFromByteSlices L) None None None)); [done|].
  rewrite E2. by apply lookup_app_l_Some.
Qed.

Lemma join_right :
  h5 !! rR = Some (mkNode (HashFromByteSlices R) (Some (length h2)) (Some lR) None).
Proof.
  pose proof join_order. pose proof (tk_root _ _ _ _ _ HR) as [_ E].
  unfold h5, joinHeap, linkLeft, linkRight.
  rewrite list_lookup_alter_eq, list_lookup_alter_ne by lia. by rewrite (lookup_app_l_Some h2 _ rR _ E).
Qed.

Lemma join_root : h5 !! length h2 = Some (mkNode rh None None None).
Proof.
  pose proof join_order. unfold h5, joinHeap, linkLeft, linkRight.
  rewrite !list_lookup_alter_ne by lia.
  by rewrite lookup_app_r, Nat.sub_diag by lia.
Qed.

Lemma join_length : length h5 = S (length h2).
Proof. unfold h5, joinHeap, linkLeft, linkRight. rewrite !length_alter, length_app. simpl. lia. Qed.

Lemma join_links : linksIn h5.
Proof.
  pose proof join_order. unfold h5, joinHeap, linkLeft, linkRight.
  apply linksIn_link with (t := lR); [|rewrite length_alter, length_app; simpl; lia|].
  - apply linksIn_link with (t := rR); [|rewrite length_app; simpl; lia|].
    + apply linksIn_alloc, HR.
    + simpl. intros n s [?|[= ->]]; auto.
  - simpl. intros n s [[= ->]|?]; auto.
Qed.

Lemma join_keeps_left : keeps (length h) lR h1 h5.
Proof.
  pose proof join_order. intros p n Hn. pose proof (lookup_lt_Some _ _ _ Hn).
  destruct (decide (p = lR)) as [->|Hne].
  - pose proof (tk_root _ _ _ _ _ HL) as [_ E]. rewrite E in Hn. injection Hn as <-.
    eexists. split; [apply join_left|done].
  - exists n. split; [|done]. destruct (tk_ext _ _ _ _ _ HR) as (ns & E2 & _).
    apply join_old; [|done|lia]. rewrite E2. by apply lookup_app_l_Some.
Qed.

Lemma join_keeps_right : keeps (length h1) rR h2 h5.
Proof.
  pose proof join_order. intros p n Hn. destruct (decide (p = rR)) as [->|Hne].
  - pose proof (tk_root _ _ _ _ _ HR) as [_ E]. rewrite E in Hn. injection Hn as <-.
    eexists. split; [apply join_right|done].
  - destruct (decide (p = lR)) as [->|].
    + pose proof (tk_root _ _ _ _ _ HL) as [_ E]. destruct (tk_ext _ _ _ _ _ HR) as (ns & E2 & _).
      rewrite E2, (lookup_app_l_Some h1 ns _ _ E) in Hn. injection Hn as <-.
      eexists. split; [apply join_left|]. split; [done|lia].
    + exists n. split; [by apply join_old|done].
Qed.

Lemma join_ok items :
  (2 <= length items)%nat ->
  L = take (split (length items)) items -> R = drop (split (length items)) items ->
  rh = innerHash (HashFromByteSlices L) (HashFromByteSlices R) ->
  trailsOK h items h5 (ts1 ++ ts2) (length h2).
Proof.
  intros Hl EL ER Erh. pose proof join_order as Ho. pose proof (split_bounds _ Hl).
  assert (length L + length R = length items)%nat as Hlen
    by (rewrite EL, ER, length_take, length_drop; lia).
  destruct (tk_ext _ _ _ _ _ HL) as (n1 & E1 & Hn1).
  destruct (tk_ext _ _ _ _ _ HR) as (n2 & E2 & Hn2).
  split.
  - exists (drop (length h) h5). split; [|rewrite length_drop, join_length, E2, E1, !length_app; lia].
    unfold h5, joinHeap, linkLeft, linkRight. rewrite E2, E1, <- !app_assoc.
    rewrite !alter_app_r_alt, drop_app_length by lia. done.
  - apply join_links.
  - split; [lia|]. rewrite HashFromByteSlices_split by done. rewrite <- EL, <- ER, <- Erh.
    apply join_root.
  - rewrite length_app, (tk_len _ _ _ _ _ HL), (tk_len _ _ _ _ _ HR). done.
  - intros i p Hp. apply lookup_app_Some in Hp as [Hp|[Hi Hp]].
    + destruct (tk_path _ _ _ _ _ HL _ _ Hp) as (x & l & Ha & Hx & Hb & Hc).
      pose proof (lookup_lt_Some _ _ _ (AuntPath_lookup _ _ _ _ Ha)).
      assert (i < split (length items))%nat by (rewrite EL, length_take in *; lia).
      rewrite EL in Ha. eexists x, _. split; [by apply AuntLeft|]. split; [|split].
      * rewrite (keeps_nodeHash _ _ _ _ _ join_keeps_left); done.
      * rewrite join_length. lia.
      * destruct (tk_root _ _ _ _ _ HL) as [_ Er].
        eapply chain_snoc; [|apply join_left|done| |lia].
        -- eapply chain_keeps; [apply join_keeps_left|apply HL|done..].
        -- unfold siblingHash, nodeHash. cbn [nLeft nRight]. rewrite join_right. simpl. by rewrite ER.
    + destruct (tk_path _ _ _ _ _ HR _ _ Hp) as (x & l & Ha & Hx & Hb & Hc).
      rewrite (tk_len _ _ _ _ _ HL) in Hi, Ha.
      assert (length L = split (length items)) as EL' by (rewrite EL, length_take; lia).
      rewrite EL' in Hi, Ha. rewrite ER in Ha.
      replace i with (split (length items) + (i - split (length items)))%nat by lia.
      eexists x, _. split; [by apply AuntRight|]. split; [|split].
      * rewrite (keeps_nodeHash _ _ _ _ _ join_keeps_right); done.
      * rewrite join_length. lia.
      * destruct (tk_root _ _ _ _ _ HR) as [_ Er].
        eapply chain_snoc; [|apply join_right|done| |lia].
        -- apply (chain_le (length h1)); [|rewrite E1, length_app; lia].
           eapply chain_keeps; [apply join_keeps_right|apply HR|done..].
        -- unfold siblingHash, nodeHash. cbn [nLeft nRight]. rewrite join_left. simpl. by rewrite EL.
Qed.

End join.

Lemma trailsFuel_ok fuel h items :
  items <> [] -> (length items <= fuel)%nat -> linksIn h ->
  exists h' ts root, trailsFuel fuel h items = (h', ts, root) /\ trailsOK h items h' ts root.
Proof.
  revert h items. induction fuel as [|fuel IH]; intros h items Hne Hf Hh.
  { destruct items; simpl in Hf; [done|lia]. }
  destruct (decide (length items = 1)%nat) as [E|E].
  - destruct items as [|x [|]]; simpl in E; try lia. simpl.
    eexists _, _, _. split; [done|]. split.
    + eexists. split; [done|simpl; lia].
    + by apply linksIn_alloc.
    + split; [lia|]. by rewrite lookup_app_r, Nat.sub_diag by lia.
    + done.
    + intros i p Hp. apply list_lookup_singleton_Some in Hp as [-> <-].
      eexists x, []. split; [constructor|]. unfold nodeHash.
      rewrite lookup_app_r, Nat.sub_diag, length_app by lia. simpl.
      split; [done|]. split; [lia|]. by constructor.
  - assert (2 <= length items)%nat as Hl by (destruct items as [|? []]; simpl in *; [done|lia..]).
    pose proof (split_bounds _ Hl).
    set (L := take (split (length items)) items). set (R := drop (split (length items)) items).
    destruct (IH h L) as (h1 & ts1 & lR & EL & HL);
      [intros E'; apply (f_equal length) in E'; unfold L in E'; rewrite length_take in E'; simpl in E'; lia
      |unfold L; rewrite length_take; lia|done|].
    destruct (IH h1 R) as (h2 & ts2 & rR & ER & HR);
      [intros E'; apply (f_equal length) in E'; unfold R in E'; rewrite length_drop in E'; simpl in E'; lia
      |unfold R; rewrite length_drop; lia|apply HL|].
    assert (trailsFuel (S fuel) h items =
      (joinHeap h2 lR rR (innerHash (nodeHash h2 lR) (nodeHash h2 rR)), ts1 ++ ts2, length h2)) as ->.
    { destruct items as [|? [|]]; [done|done|]. cbn [trailsFuel]. fold L R. by rewrite EL, ER. }
    eexists _, _, _. split; [done|].
    eapply join_ok; eauto.
    destruct (tk_root _ _ _ _ _ HL) as [_ rL]. destruct (tk_root _ _ _ _ _ HR) as [_ rR'].
    destruct (tk_ext _ _ _ _ _ HR) as (ns & E2 & _).
    unfold nodeHash. rewrite rR', E2, (lookup_app_l_Some _ _ _ _ rL). done.
Qed.

(** A complete chain is what the walk to a nil parent collects. *)
Lemma chain_flatten b h p q l nq fuel :
  chain b h p q l -> h !! q = Some nq -> nParent nq = None -> siblingHash h nq = None ->
  (length l < fuel)%nat -> flattenFuel fuel h (Some p) = l.
Proof.
  intros Hc. revert fuel. induction Hc as [|p n p' q a l Hb Hn Hp Ha Hc IH];
    intros fuel Hq Hnp Hs Hf; (destruct fuel as [|fuel]; [simpl in Hf; lia|]); simpl.
  - rewrite Hq. unfold siblingHash in Hs. destruct (nLeft nq), (nRight nq); try done.
    rewrite Hnp. by destruct fuel.
  - rewrite Hn. unfold siblingHash in Ha. simpl in Hf. rewrite Hp, IH by (done || lia).
    by destruct (nLeft n), (nRight n); try done; injection Ha as ->.
Qed.

(** ** Constructed proofs verify *)

Lemma Proofs_verify items :
  let '(root, proofs) := ProofsFromByteSlices items in
  root = HashFromByteSlices items /\ length proofs = length items /\
  forall i x, items !! i = Some x ->
  exists sp, proofs !! i = Some sp /\ Index sp = Z.of_nat i /\ Total sp = zlen items /\
    Verify sp root x = None.
Proof.
  destruct (decide (items = [])) as [->|Hne]; [by split|].
  unfold ProofsFromByteSlices, trailsFromByteSlices.
  destruct (trailsFuel_ok (length items) [] items Hne) as (h & ts & root & -> & Hok);
    [done|by intros ? ? ? ?|].
  destruct (tk_root _ _ _ _ _ Hok) as [_ Hr]. destruct (tk_ext _ _ _ _ _ Hok) as (ns & E & Hn).
  assert (nodeHash h root = HashFromByteSlices items) as -> by (unfold nodeHash; by rewrite Hr).
  split; [done|]. split; [by rewrite length_imap, (tk_len _ _ _ _ _ Hok)|].
  intros i x Hx. destruct (lookup_lt_is_Some_2 ts i) as [p Hp].
  { rewrite (tk_len _ _ _ _ _ Hok). by eapply lookup_lt_Some. }
  destruct (tk_path _ _ _ _ _ Hok _ _ Hp) as (y & l & Ha & Hy & _ & Hc).
  pose proof (AuntPath_short _ _ _ _ Ha).
  rewrite (AuntPath_lookup _ _ _ _ Ha) in Hx. injection Hx as ->.
  eexists. rewrite list_lookup_imap, Hp. split; [done|]. split; [done|]. split; [done|].
  assert (FlattenAunts h p = l) as El.
  { eapply chain_flatten; eauto. rewrite E. simpl. lia. }
  unfold Verify, ComputeRootHash, computeHashFromAunts, bytesEqual. cbn [Total Index LeafHash Aunts].
  destruct (Z.ltb_spec (zlen items) 0); [lia|]. destruct (Z.ltb_spec (Z.of_nat i) 0); [lia|].
  rewrite El, Hy, (AuntPath_compute items i x l) by done.
  by rewrite !bool_decide_true.
Qed.

(** The input that the root of a tree is the hash of. *)
Definition rootInput (items : list bytes) : bytes :=
  match items with
  | [] => []
  | [x] => leafInput x
  | _ => innerInput (HashFromByteSlices (take (split (length items)) items)) (HashFromByteSlices (drop (split (length items)) items))
  end.
Lemma rootInput_root items : HashFromByteSlices items = Sum (rootInput items) /\ rootInput items ∈ treeInputs items.
Proof.
  destruct items as [|x [|y items]]; [split; [done|apply list_elem_of_singleton; done]..|]. split.
  - by rewrite HashFromByteSlices_split by (simpl; lia).
  - rewrite treeInputs_split by (simpl; lia). apply elem_of_cons. by left.
Qed.
Lemma leafInput_tree items i x : items !! i = Some x -> leafInput x ∈ treeInputs items.
Proof.
  revert i. induction items as [|y|items Hl IH1 IH2] using tree_ind; intros i Hi; [done| |].
  - destruct i; [|done]. injection Hi as ->. by apply list_elem_of_singleton.
  - rewrite treeInputs_split by done. cbv zeta. rewrite <- (take_drop (split (length items)) items) in Hi.
    apply lookup_app_Some in Hi as [Hi|[_ Hi]]; [apply IH1 in Hi|apply IH2 in Hi]; set_solver.
Qed.
Lemma roots_collide xs ys : HashFromByteSlices xs = HashFromByteSlices ys -> rootInput xs <> rootInput ys ->
  Collision (treeInputs xs) (treeInputs ys).
Proof.
  destruct (rootInput_root xs) as [-> Hx], (rootInput_root ys) as [-> Hy]. intros E Hn. apply Collision_elem.
  by exists (rootInput xs), (rootInput ys).
Qed.

(** Trees of any two shapes: equal roots have equal items, or inputs of the two
    trees collide. *)
Lemma HashFromByteSlices_inj xs ys :
  HashFromByteSlices xs = HashFromByteSlices ys -> xs = ys \/ Collision (treeInputs xs) (treeInputs ys).
Proof.
  revert ys. induction xs as [|x|xs Hl IH1 IH2] using tree_ind; intros ys E.
  - destruct (decide (ys = [])) as [->|Hne]; [by left|]. right.
    apply roots_collide; [done|]. by destruct ys as [|y [|z ys]].
  - destruct ys as [|y [|z ys]]; [right; by apply roots_collide| |right; by apply roots_collide].
    apply leafHash_inj in E as [->|]; [by left|by right].
  - destruct (decide (2 <= length ys)%nat).
    2:{ right. apply roots_collide; [done|]. destruct xs as [|x [|x' xs]]; [simpl in Hl; lia..|].
        by destruct ys as [|y [|y' ys]]; [| |simpl in *; lia]. }
    rewrite !treeInputs_split by done. cbv zeta. rewrite (HashFromByteSlices_split xs), (HashFromByteSlices_split ys) in E by done.
    apply innerHash_inj in E as [[E1 E2]|Hc]; [|right; revert Hc; apply Collision_mono; clear; set_solver|].
    + destruct (IH1 _ E1) as [E1'|Hc]; [|right; revert Hc; apply Collision_mono; clear; set_solver].
      destruct (IH2 _ E2) as [E2'|Hc]; [|right; revert Hc; apply Collision_mono; clear; set_solver].
      left. by rewrite <- (take_drop (split (length xs)) xs), E1', E2', take_drop.
    + pose proof (HashFromByteSlices_length (take (split (length xs)) xs)).
      pose proof (HashFromByteSlices_length (take (split (length ys)) ys)). lia.
Qed.

(** ** The contract of the package *)

(** [ProofsFromByteSlices] returns the root of [HashFromByteSlices] and one
    proof per item, and each proof carries its index and total and verifies its
    item against that root. *)
Theorem ProofsFromByteSlices_complete items :
  let '(root, proofs) := ProofsFromByteSlices items in
  root = HashFromByteSlices items /\ length proofs = length items /\
  forall i x, items !! i = Some x ->
  exists sp, proofs !! i = Some sp /\ Index sp = Z.of_nat i /\ Total sp = zlen items /\
    Verify sp root x = None.
Proof. exact (Proofs_verify items). Qed.

(** C40: A proof that passes [ValidateBasic], is for as many items as the tree
    has and verifies [leaf] against its root proves that [leaf] is the item at
    the index of the proof, unless one of the inputs hashed for the tree and one
    of the inputs hashed for the proof differ and have the same hash. *)
Theorem Verify_sound sp items leaf :
  ValidateBasic sp = None -> Total sp = zlen items ->
  Verify sp (HashFromByteSlices items) leaf = None ->
  items !! Z.to_nat (Index sp) = Some leaf \/ Collision (treeInputs items) (proofInputs sp leaf).
Proof.
  unfold ValidateBasic, Verify, bytesEqual. intros HV HT HVer.
  destruct (Z.ltb_spec (Total sp) 0), (Z.ltb_spec (Index sp) 0); try done.
  destruct (Z.eqb_spec (zlen (default [] (LeafHash sp))) HashSize) as [Hlh|]; [|done].
  destruct (MaxAunts <? _); [done|].
  destruct (forallb _ _) eqn:Hs; [|done]. apply Is_true_eq_left, forallb_True in Hs.
  assert (auntsSized (Aunts sp)) as Ha.
  { eapply Forall_impl; [exact Hs|]. intros a Ha. by apply Is_true_eq_true, Z.eqb_eq in Ha. }
  simpl in HVer. destruct (LeafHash sp) as [lh|] eqn:Elh; [|done].
  case_bool_decide as E1; [|done]. simpl in E1, Hlh. subst lh.
  case_bool_decide as E2; [|done]. simpl in E2.
  unfold ComputeRootHash, computeHashFromAunts in E2. rewrite Elh in E2.
  destruct (computeFuel _ _ _ _ _) as [r|] eqn:Ec.
  - simpl in E2. subst r. rewrite HT in Ec.
    pose proof (computeFuel_range _ _ _ _ _ _ Ec).
    rewrite <- (Z2Nat.id (Index sp)) in Ec by lia.
    assert (leafInput leaf :: pathInputsFuel (length (Aunts sp)) (Z.of_nat (Z.to_nat (Index sp))) (zlen items) (Some (leafHash leaf)) (Aunts sp) =
      proofInputs sp leaf) as Ein by (unfold proofInputs; rewrite Elh, HT, Z2Nat.id by lia; done). rewrite <- Ein.
    apply compute_sound in Ec as [(x & Hx & Heq)|Hc]; [|right; revert Hc; apply Collision_mono; clear; set_solver|lia|done|done].
    apply eq_sym, leafHash_inj in Heq as [->|Hc]; [by left|right].
    revert Hc. apply Collision_mono; [|clear; set_solver]. intros a ->%list_elem_of_singleton. by eapply leafInput_tree.
  - pose proof (HashFromByteSlices_length items) as HL. rewrite <- E2 in HL. done.
Qed.

(** The iterative root computation does not panic and computes the same
    root as the recursive one, for every list of items. *)
Theorem HashFromByteSlicesIterative_equiv items :
  HashFromByteSlicesIterative items = Ok (HashFromByteSlices items).
Proof.
  unfold HashFromByteSlicesIterative. destruct (decide (items = [])) as [->|Hne]; [done|].
  rewrite <- (app_nil_r (map leafHash items)) at 2.
  apply iterLoop_spec; [lia|]. by apply RootOf_recursive.
Qed.

(** The split point of a length is the largest power of two less than it
    (with 0 for length 1), and the function panics exactly below 1. *)
Theorem getSplitPoint_spec n :
  (getSplitPoint n = Panic <-> n < 1) /\
  (getSplitPoint 1 = Ok 0) /\
  (2 <= n -> exists j, 0 <= j /\ getSplitPoint n = Ok (2 ^ j) /\ 2 ^ j < n <= 2 * 2 ^ j).
Proof.
  split; [|split; [done|]].
  - unfold getSplitPoint. destruct (Z.ltb_spec n 1); split; intros; done || lia.
  - intros Hn. destruct (split_pow2 (Z.to_nat n) ltac:(lia)) as (j & E & Hj).
    exists (Z.of_nat j). split; [lia|].
    rewrite Nat.pow_succ_r' in Hj.
    assert (2 ^ Z.of_nat j = Z.of_nat (2 ^ j)) as -> by by rewrite Nat2Z.inj_pow.
    split; [|lia]. rewrite <- E, <- getSplitPoint_split by lia. by rewrite Z2Nat.id by lia.
Qed.

End merkle.

(** ** Concrete evaluations *)

Import DemoHash.

Definition demoItems : list bytes := map of_str ["a"; "b"; "c"; "d"; "e"]%string.
Definition demoProof : Proof := nth 3 (snd (ProofsFromByteSlices demoItems)) (mkProof 0 0 None []).

(** None of the inputs collide, so the leaf is the item. *)
Lemma Verify_sound_witness : ValidateBasic demoProof = None /\ demoItems !! 3%nat = Some (of_str "d").
Proof.
  assert (ValidateBasic demoProof = None) as HV by (vm_compute; reflexivity).
  split; [exact HV|]. destruct (Verify_sound demoProof demoItems (of_str "d") HV) as [E|Hc].
  - vm_compute. reflexivity.
  - vm_compute. reflexivity.
  - exact E.
  - exfalso. revert Hc. apply (bool_decide_unpack _). vm_compute. exact I.
Defined.

Lemma getSplitPoint_spec_witness :
  exists j, 0 <= j /\ getSplitPoint 5 = Ok (2 ^ j) /\ 2 ^ j < 5 <= 2 * 2 ^ j.
Proof. apply (proj2 (proj2 (getSplitPoint_spec 5))). lia. Defined.

End Merkle.
