(* ===== verification/Wire.v ===== *)
(** * Wire messages: the records of the protobuf definitions

    The messages of [proto/**/*.proto] as records.  A field that holds another
    message is an [option]: a message that was not sent is nil in Go.  The
    encoding itself is done by the protobuf library; [Codec] is what the code
    relies on. *)

From S2P Require Import Prelude.
Local Open Scope Z_scope.

(** [proto.Marshal] may fail (a string that is not UTF-8); when it succeeds,
    [proto.Unmarshal] into an empty message restores the message. *)
Class Codec (M : Type) := {
  Marshal : M -> option bytes;
  Unmarshal : bytes -> option M;
  Unmarshal_Marshal m b : Marshal m = Some b -> Unmarshal b = Some m
}.

(** [types/must_proto_bytes.go] *)
Definition MustProtoBytes `{Codec M} (m : M) : go bytes := deref (Marshal m).

(** A codec given by a finite table of messages with different encodings; it
    makes the parameter concrete in the evaluations of the development. *)
Section table.
Context {M} `{EqDecision M} (table : list (M * bytes)).

Definition tableMarshal (m : M) : option bytes :=
  snd <$> List.find (fun e => bool_decide (e.1 = m)) table.
Definition tableUnmarshal (b : bytes) : option M :=
  fst <$> List.find (fun e => bool_decide (e.2 = b)) table.

Lemma table_roundtrip (H : NoDup table.*2) m b :
  tableMarshal m = Some b -> tableUnmarshal b = Some m.
Proof.
  unfold tableMarshal, tableUnmarshal. induction table as [|[m' b'] t IH]; simpl; [done|].
  apply NoDup_cons in H as [Hni Hnd]. case_bool_decide; simpl.
  - intros [= <-]. rewrite bool_decide_true by done. simpl. by subst.
  - intros Hm. case_bool_decide; simpl; [|by apply IH]. subst. destruct Hni.
    destruct (List.find _ t) as [[m2 b2]|] eqn:E; [|done].
    simpl in Hm. injection Hm as ->. apply List.find_some in E as [E _].
    apply list_elem_of_In in E. apply list_elem_of_fmap. by exists (m2, b).
Qed.

Definition tableCodec (H : NoDup table.*2) : Codec M :=
  {| Marshal := tableMarshal; Unmarshal := tableUnmarshal;
     Unmarshal_Marshal := table_roundtrip H |}.
End table.

(** A time: seconds since the epoch and nanoseconds ([time.Time] in UTC, and
    the fields of a [Timestamp] message). *)
Record Time := mkTime { sec : Z; nsec : Z }.

#[export] Instance time_eq_dec : EqDecision Time.
Proof. solve_decision. Defined.

(** [time.Unix]: nanoseconds outside the second carry into the seconds. *)
Definition Unix (s n : Z) : Time := mkTime (i64 (s + n / 1000000000)) (n mod 1000000000).

Definition timeOK (t : Time) : Prop := in_s 64 (sec t) /\ 0 <= nsec t < 1000000000.

(** [StdTimeMarshal] of [gogo/protobuf]: fails outside the years 1 to 9999. *)
Class StdTime := { StdTimeMarshal : Time -> option bytes }.

(** [utils/time.go]: a nil [Timestamp] reads as the epoch. *)
Definition ThirdPartyProtoTime (t : Time) : Time := t.
Definition ThirdPartyUnmarshalTime (pt : option Time) : Time :=
  match pt with Some t => Unix (sec t) (nsec t) | None => Unix 0 0 end.

Lemma Unix_ok t : timeOK t -> Unix (sec t) (nsec t) = t.
Proof.
  intros [Hs Hn]. destruct t as [s n]; unfold Unix; simpl in *.
  rewrite Z.div_small, Z.mod_small, Z.add_0_r by lia. by rewrite wrap_s_small.
Qed.

(** ** [proto/crypto/merkle], [proto/melete/types] *)

Record pbProof := mkpbProof {
  pbTotal : Z; pbIndex : Z; pbLeafHash : bytes; pbAunts : list bytes }.

Record pbHeader := mkpbHeader {
  pbBlockType : Z; pbHashPointer : bytes; pbChainID : string; pbHeight : Z;
  pbTime : option Time; pbBodyRoot : bytes; pbCrossShardBodyRoot : bytes;
  pbStateRoot : bytes; pbReceiptRoot : bytes; pbRelationRoot : bytes }.

Record pbRelation := mkpbRelation {
  pbRelatedCommitStatus : list bytes; pbRelatedHash : list bytes; pbMyCommitStatus : bytes }.

Record pbBody := mkpbBody { pbTxs : list bytes }.
Record pbCrossShardBody := mkpbCrossShardBody {
  pbCTxs : list bytes; pbCrossShardDatas : list bytes }.

Record pbBlock := mkpbBlock {
  pbBHeader : option pbHeader; pbBBody : option pbBody;
  pbBCrossShardBody : option pbCrossShardBody; pbBRelation : option pbRelation }.

Record pbCommit := mkpbCommit {
  pbCHeight : Z; pbCRound : Z; pbCBlockHash : bytes; pbCSigs : list bytes }.

Record pbPart := mkpbPart {
  pbPHeight : Z; pbPRound : Z; pbPBytes : bytes; pbPProof : option pbProof;
  pbPChainID : string }.

Record pbPartSetHeader := mkpbPartSetHeader {
  pbHTotal : Z; pbHRoot : bytes; pbHHeight : Z; pbHRound : Z; pbHChainID : string }.

Record pbReceipt := mkpbReceipt {
  pbCode : Z; pbLog : string; pbInfo : string;
  pbOptionKey : list string; pbOptionValue : list string }.

#[export] Instance pbProof_eq_dec : EqDecision pbProof.
Proof. solve_decision. Defined.
#[export] Instance pbHeader_eq_dec : EqDecision pbHeader.
Proof. solve_decision. Defined.
#[export] Instance pbRelation_eq_dec : EqDecision pbRelation.
Proof. solve_decision. Defined.
#[export] Instance pbBody_eq_dec : EqDecision pbBody.
Proof. solve_decision. Defined.
#[export] Instance pbCrossShardBody_eq_dec : EqDecision pbCrossShardBody.
Proof. solve_decision. Defined.
#[export] Instance pbBlock_eq_dec : EqDecision pbBlock.
Proof. solve_decision. Defined.
#[export] Instance pbPart_eq_dec : EqDecision pbPart.
Proof. solve_decision. Defined.
#[export] Instance pbPartSetHeader_eq_dec : EqDecision pbPartSetHeader.
Proof. solve_decision. Defined.
#[export] Instance pbReceipt_eq_dec : EqDecision pbReceipt.
Proof. solve_decision. Defined.
