(* ===== verification/Types.v ===== *)
(** * Transactions, blocks and receipts: [melete/types] *)

From S2P Require Import Prelude Convert Hash Merkle Wire.
Import Merkle.
Local Open Scope Z_scope.

(** ** [merkle.Proof] on the wire *)

Module MerkleProof.
Definition ToProto (p : Proof) : pbProof :=
  mkpbProof (Total p) (Index p) (default [] (LeafHash p)) (Aunts p).
Definition NewProofFromProto (proto : option pbProof) : go Proof :=
  let! p := deref proto in
  Ok (mkProof (pbTotal p) (pbIndex p) (Some (pbLeafHash p)) (pbAunts p)).
End MerkleProof.

(** ** [tx.go] *)

Module Txs.
Abbreviation Tx := bytes.
Abbreviation t := (list Tx).

Section txs.
Context `{Hash}.

Definition TxHash (tx : Tx) : bytes := Sum tx.
Definition Hash_ (txs : t) : bytes := HashFromByteSlices (map TxHash txs).

(** The position of the first match, or -1. *)
Fixpoint indexFrom (i : Z) (f : Tx -> bool) (txs : t) : Z :=
  match txs with
  | [] => -1
  | tx :: txs => if f tx then i else indexFrom (i + 1) f txs
  end.
Definition Index (txs : t) (tx : Tx) : Z := indexFrom 0 (fun x => bool_decide (x = tx)) txs.
Definition IndexByHash (txs : t) (hash : bytes) : Z :=
  indexFrom 0 (fun x => bool_decide (TxHash x = hash)) txs.

Record TxProof := mkTxProof { RootHash : bytes; Data : Tx; TProof : Proof }.

Definition Proof_ (txs : t) (i : Z) : go TxProof :=
  let '(root, proofs) := ProofsFromByteSlices (map TxHash txs) in
  let! data := idx txs i in
  let! p := idx proofs i in
  Ok (mkTxProof root data p).

Definition Leaf (tp : TxProof) : bytes := TxHash (Data tp).

Definition Validate (tp : TxProof) (dataHash : bytes) : option goerr :=
  if negb (bool_decide (dataHash = RootHash tp)) then
    Some (Errorf "proof matches different data hash")
  else if Merkle.Index (TProof tp) <? 0 then Some (Errorf "proof index cannot be negative")
  else if Total (TProof tp) <=? 0 then Some (Errorf "proof total must be positive")
  else match Verify (TProof tp) (RootHash tp) (Leaf tp) with
       | Some _ => Some (Errorf "proof is not internally consistent")
       | None => None
       end.

(** The conversions copy the slice. *)
Definition ToProto (txs : t) : list bytes := map (fun tx => tx) txs.
Definition NewTxsFromProto (p : list bytes) : t := map (fun tx => tx) p.



Lemma Hash_length txs : zlen (Hash_ txs) = HashSize.
Proof. apply HashFromByteSlices_length. Qed.

(** The proof the code builds for the transaction at any position of a list
    validates against the hash of the list; an index outside the list panics. *)
Theorem Proof_validates txs i :
  (forall tx, zlook txs i = Some tx ->
     exists tp, Proof_ txs i = Ok tp /\ Data tp = tx /\ Validate tp (Hash_ txs) = None) /\
  (zlook txs i = None -> Proof_ txs i = Panic).
Proof.
  unfold Proof_. pose proof (Proofs_verify (map TxHash txs)) as HP.
  destruct (ProofsFromByteSlices _) as [root proofs]. destruct HP as (-> & HL & HP). split.
  - intros tx Hi. pose proof Hi as [H0 Hi']%zlook_Some.
    destruct (HP (Z.to_nat i) (TxHash tx)) as (sp & Hsp & HI & HT & HV).
    { by rewrite list_lookup_fmap, Hi'. }
    rewrite (proj2 (idx_Ok txs i tx) Hi). simpl.
    rewrite (proj2 (idx_Ok proofs i sp)) by (by apply zlook_Some). simpl.
    eexists. split; [done|]. split; [done|]. unfold Validate. cbn [RootHash TProof].
    rewrite bool_decide_true by done. simpl negb. cbn iota.
    rewrite HI, HT, length_map. apply lookup_lt_Some in Hi'.
    destruct (Z.ltb_spec (Z.of_nat (Z.to_nat i)) 0); [lia|].
    destruct (Z.leb_spec (zlen txs) 0); [lia|]. unfold Leaf. simpl. by rewrite HV.
  - intros Hi. unfold idx at 1. by rewrite Hi.
Qed.

End txs.
End Txs.

(** ** [block.go] *)

Definition BLOCKTYPE_NONE : Z := 0.
Definition BLOCKTYPE_I : Z := 1.
Definition BLOCKTYPE_C : Z := 2.

Module Header.
Record t := mk {
  BlockType : Z; HashPointer : bytes; ChainID : string; Height : Z; Time : Wire.Time;
  BodyRoot : bytes; CrossShardBodyRoot : bytes; StateRoot : bytes; ReceiptRoot : bytes;
  RelationRoot : bytes }.

#[export] Instance eq_dec : EqDecision t.
Proof. solve_decision. Defined.

Section header.
Context `{Hash, StdTime}.

Definition IsC (h : t) : bool := BlockType h =? BLOCKTYPE_C.
Definition IsI (h : t) : bool := BlockType h =? BLOCKTYPE_I.

(** The slices that are hashed; [pbt] is the encoded time. *)
Definition hashInput (h : t) (pbt : bytes) : list bytes :=
  [ default [] (IntToBytes (Int8 (BlockType h)));
    HashPointer h;
    of_str (ChainID h);
    default [] (IntToBytes (Int64 (Height h)));
    pbt;
    BodyRoot h; CrossShardBodyRoot h; StateRoot h; ReceiptRoot h; RelationRoot h ].


(** [nil] when the time cannot be encoded. *)
Definition Hash_ (h : t) : option bytes :=
  match StdTimeMarshal (Time h) with
  | None => None
  | Some pbt => Some (HashFromByteSlices (hashInput h pbt))
  end.

End header.

Definition ToProto (h : t) : pbHeader :=
  mkpbHeader (BlockType h) (HashPointer h) (ChainID h) (Height h)
    (Some (ThirdPartyProtoTime (Time h))) (BodyRoot h) (CrossShardBodyRoot h) (StateRoot h)
    (ReceiptRoot h) (RelationRoot h).

Definition NewHeaderFromProto (headerProto : option pbHeader) : go t :=
  let! p := deref headerProto in
  Ok (mk (i8 (pbBlockType p)) (pbHashPointer p) (pbChainID p) (pbHeight p)
    (ThirdPartyUnmarshalTime (pbTime p)) (pbBodyRoot p) (pbCrossShardBodyRoot p) (pbStateRoot p)
    (pbReceiptRoot p) (pbRelationRoot p)).

Definition ProtoBytes `{Codec pbHeader} (h : t) : go bytes := MustProtoBytes (ToProto h).
Definition NewHeaderFromBytes `{Codec pbHeader} (bz : bytes) : go (option t) :=
  match Unmarshal bz with
  | None => Ok None
  | Some h => let! h := NewHeaderFromProto (Some h) in Ok (Some h)
  end.

(** What the Go types of the fields guarantee. *)
Definition typed (h : t) : Prop :=
  in_s 8 (BlockType h) /\ in_s 64 (Height h) /\ timeOK (Time h).

Lemma Header_FromProto h : typed h -> NewHeaderFromProto (Some (ToProto h)) = Ok h.
Proof.
  intros (H1 & H2 & H3). destruct h. unfold NewHeaderFromProto, ToProto. cbn in *.
  rewrite wrap_s_small by (done || lia). unfold ThirdPartyProtoTime. by rewrite Unix_ok.
Qed.

Definition setRoots (h : t) (body cross relation : bytes) : t :=
  mk (BlockType h) (HashPointer h) (ChainID h) (Height h) (Time h) body cross (StateRoot h)
    (ReceiptRoot h) relation.
End Header.

Module Relation.
Record t := mk { RelatedCommitStatus : list bytes; RelatedHash : list bytes; MyCommitStatus : bytes }.
Definition Hash_ `{Hash} (r : t) : bytes :=
  HashFromByteSlices
    [ HashFromByteSlices (RelatedCommitStatus r); HashFromByteSlices (RelatedHash r);
      MyCommitStatus r ].
Definition ToProto (r : t) : pbRelation :=
  mkpbRelation (RelatedCommitStatus r) (RelatedHash r) (MyCommitStatus r).
Definition NewRelationFromProto (relationProto : option pbRelation) : go t :=
  let! p := deref relationProto in
  Ok (mk (pbRelatedCommitStatus p) (pbRelatedHash p) (pbMyCommitStatus p)).
Definition ProtoBytes `{Codec pbRelation} (r : t) : go bytes := MustProtoBytes (ToProto r).
Definition NewRelationFromBytes `{Codec pbRelation} (bz : bytes) : go (option t) :=
  match Unmarshal bz with
  | None => Ok None
  | Some r => let! r := NewRelationFromProto (Some r) in Ok (Some r)
  end.
End Relation.

Module CrossShardBody.
Record t := mk { CrossShardTxs : Txs.t; CrossShardDatas : list bytes }.
Definition Hash_ `{Hash} (b : t) : bytes :=
  HashFromByteSlices [ Txs.Hash_ (CrossShardTxs b); HashFromByteSlices (CrossShardDatas b) ].
Definition ToProto (b : t) : pbCrossShardBody :=
  mkpbCrossShardBody (Txs.ToProto (CrossShardTxs b)) (CrossShardDatas b).
Definition NewCrossShardBodyFromProto (p : option pbCrossShardBody) : go t :=
  let! p := deref p in Ok (mk (Txs.NewTxsFromProto (pbCTxs p)) (pbCrossShardDatas p)).
End CrossShardBody.

Module Body.
Record t := mk { BodyTxs : Txs.t }.
Definition Hash_ `{Hash} (b : t) : bytes := Txs.Hash_ (BodyTxs b).
Definition ToProto (b : t) : pbBody := mkpbBody (Txs.ToProto (BodyTxs b)).
Definition NewBodyFromProto (p : option pbBody) : go t :=
  let! p := deref p in Ok (mk (Txs.NewTxsFromProto (pbTxs p))).
End Body.

Module Commit.
(** [Round] is a Go [int]; [hash] is never assigned by the code. *)
Record t := mk { Height : Z; Round : Z; BlockHash : bytes; Sigs : list bytes; hash : option bytes }.
Definition Hash_ `{Hash} (c : t) : bytes :=
  match hash c with
  | Some h => h
  | None =>
      HashFromByteSlices
        [ default [] (IntToBytes (Int64 (Height c)));
          default [] (IntToBytes (GoInt (Round c)));
          BlockHash c;
          HashFromByteSlices (Sigs c) ]
  end.
Definition ToProto (c : t) : pbCommit := mkpbCommit (Height c) (i32 (Round c)) (BlockHash c) (Sigs c).
Definition ProtoBytes `{Codec pbCommit} (c : t) : go bytes := MustProtoBytes (ToProto c).
Definition NewCommitFromProto (commitProto : option pbCommit) : go t :=
  let! p := deref commitProto in
  Ok (mk (pbCHeight p) (pbCRound p) (pbCBlockHash p) (pbCSigs p) None).
Definition NewCommitFromBytes `{Codec pbCommit} (bz : bytes) : go (option t) :=
  match Unmarshal bz with
  | None => Ok None
  | Some c => let! c := NewCommitFromProto (Some c) in Ok (Some c)
  end.

(** The round of a commit is not part of its hash. *)
Lemma Hash_ignores_Round `{Hash} height r r' bh sigs :
  Hash_ (mk height r bh sigs None) = Hash_ (mk height r' bh sigs None).
Proof. reflexivity. Qed.
End Commit.

Module Block.
Record t := mk {
  Header : Header.t; Body : Body.t; CrossShardBody : CrossShardBody.t; Relation : Relation.t;
  blockhash : bytes }.

Section block.
Context `{Hash, StdTime}.

Definition fillRoot (root content : bytes) : bytes :=
  if negb (zlen root =? HashSize) then content else root.

Definition fillHeader (b : t) : t :=
  let h := Header b in
  mk (Header.setRoots h
        (fillRoot (Header.BodyRoot h) (Body.Hash_ (Body b)))
        (fillRoot (Header.CrossShardBodyRoot h) (CrossShardBody.Hash_ (CrossShardBody b)))
        (fillRoot (Header.RelationRoot h) (Relation.Hash_ (Relation b))))
     (Body b) (CrossShardBody b) (Relation b) (blockhash b).

(** The method fills the header and caches the hash in the block. *)
Definition Hash_ (b : t) : t * bytes :=
  let b := fillHeader b in
  if negb (zlen (blockhash b) =? HashSize) then
    let h := default [] (Header.Hash_ (Header b)) in
    (mk (Header b) (Body b) (CrossShardBody b) (Relation b) h, h)
  else (b, blockhash b).

End block.

Definition ToProto (b : t) : pbBlock :=
  mkpbBlock (Some (Header.ToProto (Header b))) (Some (Body.ToProto (Body b)))
    (Some (CrossShardBody.ToProto (CrossShardBody b))) (Some (Relation.ToProto (Relation b))).

Definition ProtoBytes `{Codec pbBlock} (b : t) : go bytes := MustProtoBytes (ToProto b).

Definition NewBlockFromProto (p : option pbBlock) : go t :=
  let! p := deref p in
  let! h := Header.NewHeaderFromProto (pbBHeader p) in
  let! body := Body.NewBodyFromProto (pbBBody p) in
  let! cross := CrossShardBody.NewCrossShardBodyFromProto (pbBCrossShardBody p) in
  let! rel := Relation.NewRelationFromProto (pbBRelation p) in
  Ok (mk h body cross rel []).

Definition NewBlockFromBytes `{Codec pbBlock} (bz : bytes) : go (option t) :=
  match Unmarshal bz with
  | None => Ok None
  | Some block => let! b := NewBlockFromProto (Some block) in Ok (Some b)
  end.

Definition ValidateBasic (b : t) : option goerr := None.

(** The block without its cached hash: what is sent. *)
Definition uncached (b : t) : t := mk (Header b) (Body b) (CrossShardBody b) (Relation b) [].

Lemma Block_FromProto b :
  Header.typed (Header b) -> NewBlockFromProto (Some (ToProto b)) = Ok (uncached b).
Proof.
  intros Ht. unfold NewBlockFromProto, ToProto. cbn [deref gbind pbBHeader].
  rewrite Header.Header_FromProto by done. cbn.
  unfold Txs.NewTxsFromProto, Txs.ToProto. rewrite !map_id. by destruct b as [? [] [] [] ?].
Qed.

Lemma FromBytes_ProtoBytes `{Codec pbBlock} b bz :
  Header.typed (Header b) -> ProtoBytes b = Ok bz ->
  NewBlockFromBytes bz = Ok (Some (uncached b)).
Proof.
  unfold ProtoBytes, MustProtoBytes. intros Ht Hm. destruct (Marshal _) eqn:E; [|done].
  injection Hm as ->. unfold NewBlockFromBytes. rewrite (Unmarshal_Marshal _ _ E).
  by rewrite Block_FromProto.
Qed.

(** A block is read back from its own encoding unchanged, except that the
    cached hash is not sent. *)
Theorem Block_roundtrip `{Codec pbBlock} b bz :
  Header.typed (Header b) -> ProtoBytes b = Ok bz ->
  NewBlockFromBytes bz = Ok (Some (uncached b)).
Proof. exact (FromBytes_ProtoBytes b bz). Qed.

Section hash.
Context `{Hash, StdTime}.




Lemma fillRoot_length root content : zlen content = HashSize -> zlen (fillRoot root content) = HashSize.
Proof. unfold fillRoot. intros E. by destruct (Z.eqb_spec (zlen root) HashSize). Qed.

Lemma roots_length b :
  zlen (Body.Hash_ (Body b)) = HashSize /\
  zlen (CrossShardBody.Hash_ (CrossShardBody b)) = HashSize /\
  zlen (Relation.Hash_ (Relation b)) = HashSize.
Proof. repeat split; apply HashFromByteSlices_length. Qed.

Lemma fillHeader_idemp b : fillHeader (fillHeader b) = fillHeader b.
Proof.
  assert (forall root content, zlen content = HashSize ->
    fillRoot (fillRoot root content) content = fillRoot root content) as Hi.
  { intros root content Hc. unfold fillRoot at 1. by rewrite fillRoot_length. }
  destruct (roots_length b) as (H1 & H2 & H3).
  unfold fillHeader, Header.setRoots. cbn. by rewrite !Hi.
Qed.

(** Hashing a second time returns the same hash and leaves the block alone,
    when the first hash could be computed. *)
Lemma Hash_stable b b' h : Hash_ b = (b', h) -> zlen h = HashSize -> Hash_ b' = (b', h).
Proof.
  pose proof (fillHeader_idemp b) as Hi. unfold Hash_.
  set (f := fillHeader b) in *. intros E Hh.
  assert (fillHeader b' = b' /\ blockhash b' = h) as [-> ->].
  { destruct (negb _); injection E as <- <-; [|done]. split; [|done].
    transitivity (let g := fillHeader f in
      mk (Header g) (Body g) (CrossShardBody g) (Relation g) (default [] (Header.Hash_ (Header f))));
      [done|]. cbv zeta. by rewrite Hi. }
  by rewrite Hh.
Qed.








(** The roots that are already in the header are trusted: with all three set
    to 32 bytes, replacing the bodies and the relation does not change the hash
    of a fresh block. *)
Theorem Hash_preset_roots b body cross rel :
  let h := Header b in
  zlen (Header.BodyRoot h) = HashSize -> zlen (Header.CrossShardBodyRoot h) = HashSize ->
  zlen (Header.RelationRoot h) = HashSize ->
  snd (Hash_ (mk h body cross rel (blockhash b))) = snd (Hash_ b).
Proof.
  cbv zeta. intros H1 H2 H3. unfold Hash_, fillHeader, fillRoot. cbn [Header blockhash].
  rewrite H1, H2, H3. cbn. by destruct (negb _).
Qed.

End hash.
End Block.

(** ** [abci-resp.go] *)

Definition CodeTypeNone : Z := 0.
Definition CodeTypeOK : Z := 1.
Definition CodeTypeEncodingError : Z := 2.
Definition CodeTypeAbort : Z := 3.
Definition CodeTypeUnknownError : Z := 4.

Record ABCIPreExecutionResponseC := mkRespC { rcCode : Z; rcCrossShardDatas : list bytes }.
Record ABCIPreExecutionResponseI := mkRespI { riCode : Z; riCommitStatusVote : list bytes }.

Module Receipt.
Record t := mk { Code : Z; Log : string; Info : string; Options : gmap string string }.

Definition IsOK (r : t) : bool := Code r =? CodeTypeOK.

(** The values are appended to the key list over which the loop ranges (the
    range is fixed before the loop); the value list stays empty. *)
Definition ToProto (r : t) : pbReceipt :=
  let opKeyList := sortStrings (map fst (map_to_list (Options r))) in
  let opKeyList' := opKeyList ++ map (fun key => default ""%string (Options r !! key)) opKeyList in
  mkpbReceipt (Code r) (Log r) (Info r) opKeyList' [].

Fixpoint optionLoop (i : Z) (keys : list string) (values : list string)
    (opMap : gmap string string) : go (gmap string string) :=
  match keys with
  | [] => Ok opMap
  | key :: keys =>
      let! v := idx values i in
      optionLoop (i + 1) keys values (<[key := v]> opMap)
  end.

Definition NewABCIReceiptFromProto (p : pbReceipt) : go t :=
  let! opMap := optionLoop 0 (pbOptionKey p) (pbOptionValue p) ∅ in
  Ok (mk (i8 (pbCode p)) (pbLog p) (pbInfo p) opMap).

Definition ProtoBytes `{Codec pbReceipt} (r : t) : go bytes := MustProtoBytes (ToProto r).
Definition NewABCIReceiptFromBytes `{Codec pbReceipt} (bz : bytes) : go (option t) :=
  match Unmarshal bz with
  | None => Ok None
  | Some p => let! r := NewABCIReceiptFromProto p in Ok (Some r)
  end.
End Receipt.
Record ABCIExecutionResponse := mkExecResp {
  CrossShardResps : gmap string (list Receipt.t); InnerShardResps : gmap string (list Receipt.t) }.

(** A receipt without options is read back unchanged, and a receipt with
    any option makes the reader panic: its values are not sent. *)
Theorem Receipt_roundtrip (r : Receipt.t) :
  in_s 8 (Receipt.Code r) ->
  Receipt.NewABCIReceiptFromProto (Receipt.ToProto r) =
  if decide (Receipt.Options r = ∅) then Ok r else Panic.
Proof.
  intros Hc. unfold Receipt.NewABCIReceiptFromProto, Receipt.ToProto.
  cbn [pbCode pbLog pbInfo pbOptionKey pbOptionValue]. case_decide as Ho.
  - rewrite Ho, map_to_list_empty. cbn. rewrite wrap_s_small by (done || lia).
    destruct r. by simpl in *; subst.
  - destruct (map_to_list (Receipt.Options r)) as [|[k v] l] eqn:E.
    { by apply map_to_list_empty_iff in E. }
    set (keys := sortStrings _). assert (keys <> []) as Hk.
    { unfold keys, sortStrings. intros E'.
      pose proof (merge_sort_Permutation str_le (map fst ((k, v) :: l))) as Hp.
      rewrite E' in Hp. by apply Permutation_nil_cons in Hp. }
    by destruct keys as [|key keys].
Qed.

Lemma Receipt_roundtrip_witness :
  Receipt.NewABCIReceiptFromProto (Receipt.ToProto (Receipt.mk 1 "log" "info" {["k" := "v"]}%string)) = Panic.
Proof.
  etransitivity; [apply (Receipt_roundtrip (Receipt.mk 1 "log" "info" {["k" := "v"]}%string))|].
  - vm_compute. split; congruence.
  - vm_compute. reflexivity.
Defined.

(** ** Concrete evaluations *)

Module Demo.
Import DemoHash.
Local Open Scope string_scope.

(** A concrete encoder of times and a concrete codec for one block. *)
Definition stdTime : StdTime :=
  {| StdTimeMarshal := fun t => Some (leBytes 8 (sec t) ++ leBytes 4 (nsec t))%list |}.
#[export] Existing Instance stdTime.

Definition block : Block.t :=
  Block.mk
    (Header.mk BLOCKTYPE_I (of_str "previous") "shard-1" 7 (mkTime 1700000000 5) [] [] (of_str "state")
       [] [])
    (Body.mk [of_str "tx1"; of_str "tx2"])
    (CrossShardBody.mk [of_str "tx3"] [of_str "data"])
    (Relation.mk [of_str "ok"] [of_str "h"] (of_str "mine")) [].

Definition blockBytes : bytes := of_str "the bytes of the encoded block".
(** The encoding of the block with its roots filled in. *)
Definition filled : Block.t := fst (Block.Hash_ block).
(** Another block of the same height, and its encoding. *)
Definition block2 : Block.t :=
  Block.mk (Block.Header block) (Body.mk [of_str "tx2"]) (Block.CrossShardBody block)
    (Block.Relation block) [].
Definition blockBytes2 : bytes := of_str "another block, also of some bytes".
Lemma blockEncodings : NoDup [blockBytes; blockBytes2].
Proof. apply (bool_decide_unpack _). vm_compute. exact I. Qed.
Definition blockCodec : Codec pbBlock :=
  tableCodec [(Block.ToProto block, blockBytes); (Block.ToProto block2, blockBytes2)] blockEncodings.

Lemma block_typed : Header.typed (Block.Header block).
Proof. vm_compute. repeat split; congruence. Qed.
End Demo.

Lemma Block_roundtrip_witness :
  @Block.NewBlockFromBytes Demo.blockCodec Demo.blockBytes = Ok (Some Demo.block).
Proof.
  apply (@Block.Block_roundtrip Demo.blockCodec Demo.block Demo.blockBytes Demo.block_typed).
  vm_compute. reflexivity.
Defined.

Definition preset : Block.t :=
  Block.mk
    (Header.setRoots (Block.Header Demo.block) (replicate 32 Byte.x01) (replicate 32 Byte.x02)
       (replicate 32 Byte.x03))
    (Block.Body Demo.block) (Block.CrossShardBody Demo.block) (Block.Relation Demo.block) [].

Lemma Hash_preset_roots_witness :
  snd (@Block.Hash_ DemoHash.demoHash Demo.stdTime
         (Block.mk (Block.Header preset) (Body.mk []) (Block.CrossShardBody preset)
            (Block.Relation preset) [])) =
  snd (@Block.Hash_ DemoHash.demoHash Demo.stdTime preset).
Proof.
  apply (@Block.Hash_preset_roots DemoHash.demoHash Demo.stdTime preset); vm_compute; reflexivity.
Defined.


Lemma Proof_validates_witness :
  exists tp, @Txs.Proof_ DemoHash.demoHash [of_str "a"; of_str "b"; of_str "c"] 1 = Ok tp /\
    Txs.Data tp = of_str "b" /\
    @Txs.Validate DemoHash.demoHash tp
      (@Txs.Hash_ DemoHash.demoHash [of_str "a"; of_str "b"; of_str "c"]) = None.
Proof.
  apply (proj1 (@Txs.Proof_validates DemoHash.demoHash [of_str "a"; of_str "b"; of_str "c"] 1)).
  vm_compute. reflexivity.
Defined.
