(* ===== verification/PartSet.v ===== *)
(** * Block parts: [melete/types/block-part.go]

    A block is sent as parts, each with a Merkle proof against the root in the
    part set header; a receiver collects the parts and decodes the block. *)

From S2P Require Import Prelude Convert Hash Merkle Wire Types.
Import Merkle.
Local Open Scope Z_scope.

Module Part.
Record t := mk {
  ChainID : string; Height : Z; Round : Z; Bytes : bytes; Proof : option Merkle.Proof }.

Section part.
Context `{Hash}.

Definition Index (p : t) : go Z := let! pr := deref (Proof p) in Ok (Merkle.Index pr).

Definition Verify (p : t) (root : bytes) (total : Z) (chainID : string) : go (option goerr) :=
  let! pr := deref (Proof p) in
  match Merkle.Verify pr root (Bytes p) with
  | Some err => Ok (Some err)
  | None =>
      if negb (total =? Total pr) || negb (bool_decide (chainID = ChainID p))
      then Ok (Some (Errorf "%d!=%d || %s != %s")) else Ok None
  end.

Definition ValidateBasic (p : t) : go (option goerr) :=
  if Height p <? 0 then Ok (Some (Errorf "Part.Height cannot be negative"))
  else if Round p <? 0 then Ok (Some (Errorf "Part.Round cannot be negative"))
  else if zlen (Bytes p) =? 0 then
    Ok (Some (Errorf "There is no point in Part.Bytes being empty"))
  else if Z.of_nat (String.length (ChainID p)) =? 0 then
    Ok (Some (Errorf "An empty Part.ChainID doesn't make sense"))
  else let! pr := deref (Proof p) in Ok (Merkle.ValidateBasic pr).
End part.

Definition ToProto (p : t) : go pbPart :=
  let! pr := deref (Proof p) in
  Ok (mkpbPart (Height p) (i32 (Round p)) (Bytes p) (Some (MerkleProof.ToProto pr)) (ChainID p)).
Definition ProtoBytes `{Codec pbPart} (p : t) : go bytes :=
  let! pp := ToProto p in MustProtoBytes pp.
Definition NewPartFromProto (pp : option pbPart) : go t :=
  let! pp := deref pp in
  let! pr := MerkleProof.NewProofFromProto (pbPProof pp) in
  Ok (mk (pbPChainID pp) (pbPHeight pp) (pbPRound pp) (pbPBytes pp) (Some pr)).
Definition NewPartFromBytes `{Codec pbPart} (bz : bytes) : go (option t) :=
  match Unmarshal bz with
  | None => Ok None
  | Some pp => let! p := NewPartFromProto (Some pp) in Ok (Some p)
  end.
End Part.

Module PartSetHeader.
Record t := mk { Height : Z; Round : Z; Total : Z; Root : bytes; ChainID : string }.

#[export] Instance eq_dec : EqDecision t.
Proof. solve_decision. Defined.

Definition ToProto (p : t) : pbPartSetHeader :=
  mkpbPartSetHeader (Total p) (Root p) (Height p) (i32 (Round p)) (ChainID p).
Definition ProtoBytes `{Codec pbPartSetHeader} (p : t) : go bytes := MustProtoBytes (ToProto p).
Definition NewPartSetHeaderFromProto (p : option pbPartSetHeader) : go t :=
  let! p := deref p in
  Ok (mk (pbHHeight p) (pbHRound p) (pbHTotal p) (pbHRoot p) (pbHChainID p)).
Definition NewPartSetHeaderFromBytes `{Codec pbPartSetHeader} (bz : bytes) : go (option t) :=
  match Unmarshal bz with
  | None => Ok None
  | Some p => let! p := NewPartSetHeaderFromProto (Some p) in Ok (Some p)
  end.

Definition Equal (p other : t) : bool :=
  bool_decide (ChainID p = ChainID other) && (Height p =? Height other) &&
  (Round p =? Round other) && (Total p =? Total other) && bool_decide (Root p = Root other).

Definition ValidateBasic (p : t) : option goerr :=
  if Height p <? 0 then Some (Errorf "PartSetHeader Height Error")
  else if Round p <? 0 then Some (Errorf "PartSetHeader Round Error")
  else if Total p <? 0 then Some (Errorf "PartSetHeader Total Error")
  else if Z.of_nat (String.length (ChainID p)) =? 0 then
    Some (Errorf "PartSetHeader ChainID Error: nil ChainID")
  else if negb (zlen (Root p) =? HashSize) then
    Some (Errorf "PartSetHeader Root Error: not a hash value")
  else None.

Lemma Equal_eq p q : Equal p q = true <-> p = q.
Proof.
  unfold Equal. rewrite !andb_true_iff, !bool_decide_eq_true, !Z.eqb_eq.
  destruct p, q; simpl. naive_solver.
Qed.

End PartSetHeader.

(** ** Part sets *)

Module PartSet.
Record t := mk {
  Header : PartSetHeader.t; Parts : list (option Part.t); count : Z; BlockHeaderHash : bytes }.

(** [make] panics on a negative length. *)
Definition NewPartSet (h : option PartSetHeader.t) (headerHash : bytes) : go t :=
  let! h := deref h in
  if PartSetHeader.Total h <? 0 then Panic
  else Ok (mk h (replicate (Z.to_nat (PartSetHeader.Total h)) None) 0 headerHash).

Definition IsComplete (ps : t) : bool := PartSetHeader.Total (Header ps) =? count ps.

Section partset.
Context `{Hash, StdTime, !Codec pbBlock}.

(** The block is also returned: hashing it fills its header. *)
Definition PartSetFromBlock (b : Block.t) (maxPartSize : Z) (round : Z) : go (Block.t * t) :=
  let! bz := Block.ProtoBytes b in
  let! bzList := SplitByteArray bz maxPartSize in
  let '(hs, proof) := ProofsFromByteSlices bzList in
  let chainid := Header.ChainID (Block.Header b) in
  let height := Header.Height (Block.Header b) in
  let parts := imap (fun i bz => Some (Part.mk chainid height round bz (proof !! i))) bzList in
  let header := PartSetHeader.mk height round (zlen parts) hs chainid in
  let '(b, h) := Block.Hash_ b in
  Ok (b, mk header parts (zlen parts) h).

Definition AddPart (ps : t) (p : Part.t) : go (t * option goerr) :=
  let! i := Part.Index p in
  let! dup :=
    if i <? PartSetHeader.Total (Header ps) then
      let! slot := idx (Parts ps) i in Ok (bool_decide (is_Some slot))
    else Ok false in
  if dup then Ok (ps, Some DuplicatedPartPassError)
  else if negb (PartSetHeader.Height (Header ps) =? Part.Height p) then
    Ok (ps, Some (Errorf "Part does not match PartSetHeader: Height"))
  else if negb (PartSetHeader.Round (Header ps) =? Part.Round p) then
    Ok (ps, Some (Errorf "Part does not match PartSetHeader: Round"))
  else
    let! err := Part.Verify p (PartSetHeader.Root (Header ps)) (PartSetHeader.Total (Header ps))
                  (PartSetHeader.ChainID (Header ps)) in
    match err with
    | Some _ => Ok (ps, Some (Errorf "Merkle validation fails for Part"))
    | None =>
        let! i := Part.Index p in
        let! parts := upd (Parts ps) i (Some p) in
        Ok (mk (Header ps) parts (count ps + 1) (BlockHeaderHash ps), None)
    end.

(** The loop that fills [blockBytes] from the parts. *)
Fixpoint gather (i : Z) (parts : list (option Part.t)) (blockBytes : list bytes) : go (list bytes) :=
  match parts with
  | [] => Ok blockBytes
  | part :: parts =>
      let! p := deref part in
      let! blockBytes := upd blockBytes i (Part.Bytes p) in
      gather (i + 1) parts blockBytes
  end.

Definition GenBlock (ps : t) : go (option Block.t * option goerr) :=
  if negb (IsComplete ps) then Ok (None, None)
  else if count ps <? 0 then Panic
  else
    let! blockBytes := gather 0 (Parts ps) (replicate (Z.to_nat (count ps)) []) in
    let bz := concat blockBytes in
    let! block := Block.NewBlockFromBytes bz in
    match block with
    | None => Ok (None, Some (Errorf "Block deserialization error"))
    | Some block =>
        if negb (bool_decide (Header.ChainID (Block.Header block) = PartSetHeader.ChainID (Header ps)))
        then Ok (None, Some (Errorf "Block.ChainID does not match"))
        else if negb (Header.Height (Block.Header block) =? PartSetHeader.Height (Header ps))
        then Ok (None, Some (Errorf "Block.Height does not match"))
        else match Block.ValidateBasic block with
             | Some err => Ok (Some block, Some err)
             | None =>
                 let '(block, h) := Block.Hash_ block in
                 if negb (bool_decide (h = BlockHeaderHash ps))
                 then Ok (Some block, Some (Errorf "Block.HeaderHash does not match"))
                 else Ok (Some block, None)
             end
    end.

(** ** Well-formed part sets *)

(** What a part in slot [i] has been checked for. *)
Definition slotOK (h : PartSetHeader.t) (i : nat) (p : Part.t) : Prop :=
  exists pr, Part.Proof p = Some pr /\ Index pr = Z.of_nat i /\
    Merkle.Verify pr (PartSetHeader.Root h) (Part.Bytes p) = None /\
    Merkle.Total pr = PartSetHeader.Total h /\ Part.ChainID p = PartSetHeader.ChainID h /\
    Part.Height p = PartSetHeader.Height h /\ Part.Round p = PartSetHeader.Round h.

Fixpoint filled (parts : list (option Part.t)) : nat :=
  match parts with
  | [] => 0
  | Some _ :: parts => S (filled parts)
  | None :: parts => filled parts
  end.

Record wf (ps : t) : Prop := {
  wf_len : zlen (Parts ps) = PartSetHeader.Total (Header ps);
  wf_count : count ps = Z.of_nat (filled (Parts ps));
  wf_slot i p : Parts ps !! i = Some (Some p) -> slotOK (Header ps) i p
}.

Lemma filled_insert parts i p :
  parts !! i = Some None -> filled (<[i := Some p]> parts) = S (filled parts).
Proof.
  revert i. induction parts as [|q parts IH]; intros [|i]; simpl; try done.
  - by intros [= ->].
  - intros Hi. specialize (IH i Hi). destruct q; simpl; lia.
Qed.

Lemma filled_le parts : (filled parts <= length parts)%nat.
Proof. induction parts as [|[]]; simpl; lia. Qed.

Lemma filled_all parts :
  filled parts = length parts -> exists l, parts = map Some l.
Proof.
  induction parts as [|q parts IH]; [by exists []|].
  pose proof (filled_le parts) as Hl. destruct q as [q|]; simpl; [|intros; lia].
  intros [= E]. destruct (IH E) as [l ->]. by exists (q :: l).
Qed.

Lemma filled_map l : filled (map Some l) = length l.
Proof. induction l; simpl; auto. Qed.

Lemma NewPartSet_wf h headerHash ps : NewPartSet (Some h) headerHash = Ok ps -> wf ps.
Proof.
  unfold NewPartSet. cbn. destruct (Z.ltb_spec (PartSetHeader.Total h) 0); [done|]. intros [= <-].
  split; cbn.
  - rewrite length_replicate. lia.
  - by induction (Z.to_nat _).
  - intros i p [? ?]%lookup_replicate. done.
Qed.

Lemma Verify_part p pr root total chain :
  Part.Proof p = Some pr ->
  Part.Verify p root total chain = Ok None <->
  Merkle.Verify pr root (Part.Bytes p) = None /\ total = Merkle.Total pr /\ chain = Part.ChainID p.
Proof.
  intros Hp. unfold Part.Verify. rewrite Hp. cbn. destruct (Merkle.Verify _ _ _).
  - naive_solver.
  - destruct (Z.eqb_spec total (Merkle.Total pr)); case_bool_decide; cbn; naive_solver.
Qed.

(** The part is accepted: it belongs to the set and its slot is free. *)
Definition acceptable (ps : t) (p : Part.t) : Prop :=
  exists i, slotOK (Header ps) i p /\ Parts ps !! i = Some None.

Definition extend (ps : t) (i : nat) (p : Part.t) : t :=
  mk (Header ps) (<[i := Some p]> (Parts ps)) (count ps + 1) (BlockHeaderHash ps).

Lemma extend_wf ps i p : wf ps -> slotOK (Header ps) i p -> Parts ps !! i = Some None -> wf (extend ps i p).
Proof.
  intros [Hl Hc Hs] Hp Hi. split; cbn.
  - by rewrite length_insert.
  - rewrite filled_insert, Hc by done. lia.
  - intros j q Hq. destruct (decide (i = j)) as [<-|Hne].
    + rewrite list_lookup_insert_eq in Hq by by eapply lookup_lt_Some. by injection Hq as <-.
    + rewrite list_lookup_insert_ne in Hq by done. eauto.
Qed.

Lemma AddPart_accept ps i p :
  wf ps -> slotOK (Header ps) i p -> Parts ps !! i = Some None ->
  AddPart ps p = Ok (extend ps i p, None).
Proof.
  intros Hwf Hp Hi. pose proof Hp as (pr & E & EI & EV & ET & EC & EH & ER).
  pose proof (lookup_lt_Some _ _ _ Hi). pose proof (wf_len _ Hwf).
  assert (zlook (Parts ps) (Z.of_nat i) = Some None) as Hz
    by (apply zlook_Some; rewrite Nat2Z.id; split; [lia|done]).
  unfold AddPart, Part.Index. rewrite E. cbn [deref gbind]. rewrite EI.
  destruct (Z.ltb_spec (Z.of_nat i) (PartSetHeader.Total (Header ps))); [|lia].
  rewrite (proj2 (idx_Ok _ _ _) Hz). cbn [gbind]. rewrite bool_decide_false by by intros [? ?].
  rewrite EH, ER, !Z.eqb_refl. cbn [negb].
  rewrite (proj2 (Verify_part p pr _ _ _ E)) by done. cbn [gbind].
  rewrite (proj2 (upd_Ok (Parts ps) (Z.of_nat i) (Some p) (<[i := Some p]> (Parts ps)))).
  - done.
  - rewrite Nat2Z.id. split; [lia|done].
Qed.

Lemma AddPart_dup ps i p q pr :
  wf ps -> Part.Proof p = Some pr -> Index pr = Z.of_nat i -> Parts ps !! i = Some (Some q) ->
  AddPart ps p = Ok (ps, Some DuplicatedPartPassError).
Proof.
  intros Hwf E EI Hi. pose proof (lookup_lt_Some _ _ _ Hi). pose proof (wf_len _ Hwf).
  assert (zlook (Parts ps) (Z.of_nat i) = Some (Some q)) as Hz
    by (apply zlook_Some; rewrite Nat2Z.id; split; [lia|done]).
  unfold AddPart, Part.Index. rewrite E. cbn [deref gbind]. rewrite EI.
  destruct (Z.ltb_spec (Z.of_nat i) (PartSetHeader.Total (Header ps))); [|lia].
  rewrite (proj2 (idx_Ok _ _ _) Hz). cbn [gbind]. by rewrite bool_decide_true.
Qed.

(** A part that does not belong to the set, or whose slot does not exist, is
    rejected and the set unchanged. *)
Lemma AddPart_reject ps p pr :
  wf ps -> zlen (PartSetHeader.Root (Header ps)) = HashSize ->
  Part.Proof p = Some pr -> 0 <= Index pr ->
  (forall q, Parts ps !! Z.to_nat (Index pr) <> Some (Some q)) ->
  ~ slotOK (Header ps) (Z.to_nat (Index pr)) p ->
  exists err, AddPart ps p = Ok (ps, Some err).
Proof.
  intros Hwf Hroot E HI0 Hfree Hbad. pose proof (wf_len _ Hwf).
  unfold AddPart, Part.Index. rewrite E. cbn [deref gbind].
  assert ((if Index pr <? PartSetHeader.Total (Header ps) then
      let! slot := idx (Parts ps) (Index pr) in Ok (bool_decide (is_Some slot)) else Ok false) =
      Ok false) as ->.
  { destruct (Z.ltb_spec (Index pr) (PartSetHeader.Total (Header ps))); [|done].
    destruct (idx_total (Parts ps) (Index pr)) as (slot & -> & Hs); [lia|]. cbn.
    f_equal. apply bool_decide_false. intros [q ->]. by eapply Hfree. }
  cbn [gbind]. destruct (Z.eqb_spec (PartSetHeader.Height (Header ps)) (Part.Height p)) as [EH|]; [|eauto].
  destruct (Z.eqb_spec (PartSetHeader.Round (Header ps)) (Part.Round p)) as [ER|]; [|eauto].
  cbn [negb]. destruct (Part.Verify _ _ _ _) as [[err|]| |] eqn:EV; cbn [gbind]; [by eauto| | |].
  - destruct Hbad. apply (Verify_part p pr) in EV as (EV & ET & EC); [|done].
    exists pr. by rewrite Z2Nat.id.
  - unfold Part.Verify in EV. rewrite E in EV. cbn in EV.
    destruct (Merkle.Verify _ _ _); [done|]. by destruct (_ || _).
  - unfold Part.Verify in EV. rewrite E in EV. cbn in EV.
    destruct (Merkle.Verify _ _ _); [done|]. by destruct (_ || _).
Qed.

Lemma slotOK_dec ps p pr :
  Part.Proof p = Some pr -> 0 <= Index pr ->
  slotOK (Header ps) (Z.to_nat (Index pr)) p \/ ~ slotOK (Header ps) (Z.to_nat (Index pr)) p.
Proof.
  intros E HI0. destruct (decide (Merkle.Verify pr (PartSetHeader.Root (Header ps)) (Part.Bytes p) = None /\
    Merkle.Total pr = PartSetHeader.Total (Header ps) /\ Part.ChainID p = PartSetHeader.ChainID (Header ps) /\
    Part.Height p = PartSetHeader.Height (Header ps) /\ Part.Round p = PartSetHeader.Round (Header ps)))
    as [(?&?&?&?&?)|Hn].
  - left. exists pr. by rewrite Z2Nat.id.
  - right. intros (pr' & E' & _ & Hr). rewrite E in E'. injection E' as <-. done.
Qed.

Lemma AddPart_total ps p pr :
  wf ps -> zlen (PartSetHeader.Root (Header ps)) = HashSize ->
  Part.Proof p = Some pr -> 0 <= Index pr ->
  exists ps' err, AddPart ps p = Ok (ps', err) /\ wf ps' /\
    (err = None <-> acceptable ps p) /\
    (err = None -> ps' = extend ps (Z.to_nat (Index pr)) p) /\
    (err <> None -> ps' = ps).
Proof.
  intros Hwf Hroot E HI0.
  assert (forall err : goerr, ~ acceptable ps p -> exists ps' err', @Ok (t * option goerr) (ps, Some err) = Ok (ps', err') /\
    wf ps' /\ (err' = None <-> acceptable ps p) /\
    (err' = None -> ps' = extend ps (Z.to_nat (Index pr)) p) /\ (err' <> None -> ps' = ps)) as Hno.
  { intros err Hn. exists ps, (Some err). split; [done|]. split; [done|].
    split; [by split|]. split; done. }
  destruct (Parts ps !! Z.to_nat (Index pr)) as [[q|]|] eqn:Hq.
  - rewrite (AddPart_dup ps (Z.to_nat (Index pr)) p q pr) by (done || lia). apply Hno.
    intros (i & (pr' & E' & EI & _) & Hi). rewrite E in E'. injection E' as <-.
    rewrite EI, Nat2Z.id in Hq. congruence.
  - destruct (slotOK_dec ps p pr E HI0) as [Hok|Hbad].
    + rewrite (AddPart_accept ps (Z.to_nat (Index pr))) by done.
      exists (extend ps (Z.to_nat (Index pr)) p), None. split; [done|].
      split; [by apply extend_wf|]. split; [|done]. split; [|done]. intros _. by eexists.
    + destruct (AddPart_reject ps p pr) as [err ->]; [done..|by rewrite Hq|done|]. apply Hno.
      intros (i & Hs & _). pose proof Hs as (pr' & E' & EI & _). rewrite E in E'.
      injection E' as <-. by rewrite EI, Nat2Z.id in Hbad.
  - assert (~ slotOK (Header ps) (Z.to_nat (Index pr)) p) as Hbad.
    { intros (pr' & E' & _ & HV & HT & _). rewrite E in E'. injection E' as <-.
      apply Verify_index in HV; [|done]. pose proof (wf_len _ Hwf).
      apply lookup_ge_None in Hq. lia. }
    destruct (AddPart_reject ps p pr) as [err ->]; [done..|by rewrite Hq|done|]. apply Hno.
    intros (i & (pr' & E' & EI & _) & Hi). rewrite E in E'. injection E' as <-.
    rewrite EI, Nat2Z.id in Hq. congruence.
Qed.

(** On a well-formed set with a hash-sized root, adding a part with a proof
    of non-negative index never panics; the part is stored in the free slot of
    its index exactly when it belongs to the set, every other part leaves the set
    unchanged and is reported, and the set stays well-formed. *)
Theorem AddPart_spec ps p pr :
  wf ps -> zlen (PartSetHeader.Root (Header ps)) = HashSize ->
  Part.Proof p = Some pr -> 0 <= Index pr ->
  exists ps' err, AddPart ps p = Ok (ps', err) /\ wf ps' /\
    (err = None <-> acceptable ps p) /\
    (err = None -> ps' = extend ps (Z.to_nat (Index pr)) p) /\
    (err <> None -> ps' = ps).
Proof. exact (AddPart_total ps p pr). Qed.

(** ** Complete sets *)

Lemma complete_parts ps : wf ps -> IsComplete ps = true -> exists l, Parts ps = map Some l.
Proof.
  intros Hwf Hc. apply Z.eqb_eq in Hc. apply filled_all.
  pose proof (wf_len _ Hwf). pose proof (wf_count _ Hwf). lia.
Qed.

Lemma parts_complete ps l : wf ps -> Parts ps = map Some l -> IsComplete ps = true.
Proof.
  intros Hwf E. apply Z.eqb_eq. rewrite <- (wf_len _ Hwf), (wf_count _ Hwf), E, filled_map.
  by rewrite length_map.
Qed.

Lemma gather_spec i l bb :
  (i + length l = length bb)%nat ->
  gather (Z.of_nat i) (map Some l) bb = Ok (take i bb ++ map Part.Bytes l).
Proof.
  revert i bb. induction l as [|p l IH]; intros i bb Hl; cbn [map gather].
  - rewrite app_nil_r, take_ge; [done|]. simpl in Hl. lia.
  - simpl in Hl. cbn [deref gbind].
    rewrite (proj2 (upd_Ok bb (Z.of_nat i) (Part.Bytes p) (<[i := Part.Bytes p]> bb)))
      by (rewrite Nat2Z.id; split; [lia|done]).
    cbn [gbind]. replace (Z.of_nat i + 1) with (Z.of_nat (S i)) by lia.
    rewrite IH by (rewrite length_insert; lia). f_equal.
    rewrite (take_S_r _ i (Part.Bytes p)) by (apply list_lookup_insert_eq; lia).
    rewrite take_insert_ge by lia. by rewrite <- app_assoc.
Qed.

(** The bytes a complete set decodes. *)
Definition blockBytes (ps : t) : bytes :=
  concat (map (fun q => match q with Some p => Part.Bytes p | None => [] end) (Parts ps)).

Lemma gather_complete ps :
  wf ps -> IsComplete ps = true -> exists chunks,
  gather 0 (Parts ps) (replicate (Z.to_nat (count ps)) []) = Ok chunks /\
  concat chunks = blockBytes ps /\ (count ps <? 0) = false.
Proof.
  intros Hwf Hc. destruct (complete_parts ps Hwf Hc) as [l E]. exists (map Part.Bytes l).
  pose proof (wf_count _ Hwf) as Hn. rewrite E, filled_map in Hn. unfold blockBytes. rewrite E.
  split; [|split].
  - rewrite Hn, Nat2Z.id. by apply (gather_spec 0 l); rewrite length_replicate.
  - by rewrite map_map.
  - by destruct (Z.ltb_spec (count ps) 0); [lia|].
Qed.

Lemma GenBlock_decodes ps b :
  wf ps -> IsComplete ps = true ->
  Block.NewBlockFromBytes (blockBytes ps) = Ok (Some b) ->
  Header.ChainID (Block.Header b) = PartSetHeader.ChainID (Header ps) ->
  Header.Height (Block.Header b) = PartSetHeader.Height (Header ps) ->
  snd (Block.Hash_ b) = BlockHeaderHash ps ->
  GenBlock ps = Ok (Some (fst (Block.Hash_ b)), None).
Proof.
  intros Hwf Hc Hb HI HH HB. unfold GenBlock. rewrite Hc. cbn [negb].
  destruct (gather_complete ps Hwf Hc) as (chunks & E1 & E2 & E3).
  rewrite E3, E1. cbn [gbind]. cbv zeta. rewrite E2. rewrite Hb. cbn [gbind].
  rewrite HI, HH, bool_decide_true, Z.eqb_refl by done. cbn [negb Block.ValidateBasic].
  destruct (Block.Hash_ b) as [b' h]. cbn in HB. subst h. by rewrite bool_decide_true.
Qed.

(** A block that a well-formed set generates without error decodes from the
    bytes of the set and has the chain, the height and the hash the set was
    announced with; an incomplete set gives no block and no error. *)
Theorem GenBlock_spec ps b :
  wf ps ->
  (IsComplete ps = false -> GenBlock ps = Ok (None, None)) /\
  (GenBlock ps = Ok (Some b, None) -> exists b0,
     Block.NewBlockFromBytes (blockBytes ps) = Ok (Some b0) /\ b = fst (Block.Hash_ b0) /\
     snd (Block.Hash_ b0) = BlockHeaderHash ps /\
     Header.ChainID (Block.Header b0) = PartSetHeader.ChainID (Header ps) /\
     Header.Height (Block.Header b0) = PartSetHeader.Height (Header ps)).
Proof.
  intros Hwf. unfold GenBlock. destruct (IsComplete ps) eqn:Hc; cbn [negb]; [|by split].
  split; [done|]. destruct (gather_complete ps Hwf Hc) as (chunks & E1 & E2 & E3).
  rewrite E3, E1. cbn [gbind]. cbv zeta. rewrite E2.
  destruct (Block.NewBlockFromBytes _) as [[b0|]| |] eqn:Hb; cbn [gbind]; [|done..].
  case_bool_decide as HI; cbn [negb]; [|done]. destruct (Z.eqb_spec
    (Header.Height (Block.Header b0)) (PartSetHeader.Height (Header ps))); cbn [negb]; [|done].
  cbn [Block.ValidateBasic]. destruct (Block.Hash_ b0) as [b1 h] eqn:Eh.
  case_bool_decide as HB; cbn [negb]; [|done]. intros [= <-]. exists b0. by rewrite Eh.
Qed.

(** Every part of the set also passed [ValidateBasic], as the receiver checks
    before adding it. *)
Definition validated (ps : t) : Prop :=
  forall i p, Parts ps !! i = Some (Some p) -> Part.ValidateBasic p = Ok None.





(** Delivering parts one by one; the errors of rejected parts are dropped. *)
Definition deliver (ps : t) (l : list Part.t) : go t :=
  go_foldl (fun ps p => let! '(ps, _) := AddPart ps p in Ok ps) ps l.





(** ** A sent block is reassembled *)


Lemma filled_Some l : Forall is_Some l -> filled l = length l.
Proof. induction 1 as [|? ? [? ->] ? IH]; simpl; auto. Qed.

(** What the sender's set is. *)
Lemma PartSetFromBlock_spec b size round b' ps :
  0 < size -> PartSetFromBlock b size round = Ok (b', ps) ->
  wf ps /\ IsComplete ps = true /\ Block.ProtoBytes b = Ok (blockBytes ps) /\
  zlen (PartSetHeader.Root (Header ps)) = HashSize /\ (b', BlockHeaderHash ps) = Block.Hash_ b /\
  PartSetHeader.ChainID (Header ps) = Header.ChainID (Block.Header b) /\
  PartSetHeader.Height (Header ps) = Header.Height (Block.Header b).
Proof.
  intros Hs E. unfold PartSetFromBlock in E. apply gbind_Ok in E as (bz & Ebz & E).
  destruct (splitLoop_spec (length bz) bz size 0 Hs) as (cs & Ecs & Hcs & _ & _); [lia..|].
  unfold SplitByteArray in E. rewrite Ecs in E. cbn [gbind] in E. rewrite drop_0 in Hcs.
  pose proof (Proofs_verify cs) as HP. destruct (ProofsFromByteSlices cs) as [root proofs].
  destruct HP as (-> & Hlen & HP). destruct (Block.Hash_ b) as [b1 h] eqn:Eh.
  injection E as <- <-. set (parts := imap _ _).
  assert (length parts = length cs) as Hl by apply length_imap.
  assert (Forall is_Some parts) as Hall.
  { apply Forall_lookup. intros i q Hq. unfold parts in Hq. rewrite list_lookup_imap in Hq.
    destruct (cs !! i); [|done]. injection Hq as <-. by eexists. }
  split; [|split; [|split; [|split; [|done]]]].
  - split; cbn; [done| |].
    + by rewrite filled_Some.
    + intros i p Hp. unfold parts in Hp. rewrite list_lookup_imap in Hp.
      destruct (cs !! i) as [c|] eqn:Ec; [|done]. injection Hp as <-.
      destruct (HP i c Ec) as (sp & Esp & HI & HT & HV). exists sp. cbn. by rewrite Hl.
  - by apply Z.eqb_eq.
  - rewrite Ebz, <- Hcs. f_equal. unfold blockBytes. cbn. f_equal.
    apply list_eq. intros i. rewrite list_lookup_fmap. unfold parts. rewrite list_lookup_imap.
    by destruct (cs !! i).
  - apply HashFromByteSlices_length.
Qed.

(** The set collected from the parts with the numbers in [seen]. *)
Definition collected (ps : t) (seen : list nat) (qs : t) : Prop :=
  wf qs /\ Header qs = Header ps /\ BlockHeaderHash qs = BlockHeaderHash ps /\
  forall i, Parts qs !! i = (fun q => if decide (i ∈ seen) then q else None) <$> (Parts ps !! i).

Lemma collected_step ps seen qs i p :
  wf ps -> collected ps seen qs -> Parts ps !! i = Some (Some p) ->
  exists qs', (let! '(qs, _) := AddPart qs p in Ok qs) = Ok qs' /\ collected ps (seen ++ [i]) qs'.
Proof.
  intros Wp (Wq & EH & EB & EP) Hi. pose proof (wf_slot _ Wp _ _ Hi) as Hs. rewrite <- EH in Hs.
  pose proof (EP i) as Ei. rewrite Hi in Ei. simpl in Ei. case_decide as Hin.
  - pose proof Hs as (pr & E & EI & _). rewrite (AddPart_dup qs i p p pr) by done. cbn.
    exists qs. split; [done|]. split; [done|]. split; [done|]. split; [done|].
    intros j. rewrite EP. destruct (Parts ps !! j); [|done]. simpl. f_equal.
    destruct (decide (j ∈ seen)), (decide (j ∈ seen ++ [i])) as [|Hn]; try done; set_solver.
  - rewrite (AddPart_accept qs i p) by done. cbn. exists (extend qs i p). split; [done|].
    split; [by apply extend_wf|]. split; [done|]. split; [done|]. intros j. cbn.
    destruct (decide (i = j)) as [<-|Hne].
    + rewrite list_lookup_insert_eq by by eapply lookup_lt_Some. rewrite Hi. simpl.
      destruct (decide _) as [|Hn]; [done|]. set_solver.
    + rewrite list_lookup_insert_ne, EP by done. destruct (Parts ps !! j); [|done]. simpl. f_equal.
      destruct (decide (j ∈ seen)), (decide (j ∈ seen ++ [i])); try done; set_solver.
Qed.

Lemma deliver_collects ps seen qs order l :
  wf ps -> collected ps seen qs -> Forall2 (fun i p => Parts ps !! i = Some (Some p)) order l ->
  exists qs', deliver qs l = Ok qs' /\ collected ps (seen ++ order) qs'.
Proof.
  intros Wp Hc Hl. revert seen qs Hc. induction Hl as [|i p order l Hi _ IH]; intros seen qs Hc.
  - exists qs. by rewrite app_nil_r.
  - destruct (collected_step ps seen qs i p Wp Hc Hi) as (qs1 & E1 & Hc1).
    destruct (IH _ _ Hc1) as (qs2 & E2 & Hc2). exists qs2. unfold deliver in *. cbn [go_foldl].
    rewrite E1. split; [done|]. by rewrite <- app_assoc in Hc2.
Qed.

Lemma collected_new ps qs :
  wf ps -> NewPartSet (Some (Header ps)) (BlockHeaderHash ps) = Ok qs -> collected ps [] qs.
Proof.
  intros Wp E. split; [by eapply NewPartSet_wf|]. unfold NewPartSet in E. cbn in E.
  destruct (Z.ltb_spec (PartSetHeader.Total (Header ps)) 0); [done|]. injection E as <-.
  split; [done|]. split; [done|]. intros i. cbn. pose proof (wf_len _ Wp) as Hl.
  destruct (decide (i < length (Parts ps))%nat) as [Hi|Hi].
  - destruct (lookup_lt_is_Some_2 _ _ Hi) as [q ->]. simpl. apply lookup_replicate. split; [done|lia].
  - rewrite (proj2 (lookup_ge_None (Parts ps) i)) by lia.
    apply lookup_ge_None. rewrite length_replicate. lia.
Qed.

(** The parts a sender makes of a block, delivered to a fresh set with the
    sender's header in any order and with any repetitions, as long as none is
    missing, are all accepted or recognised as duplicates, complete the set and
    regenerate the block (with the hash it was announced with, if hashing the
    block as sent gives the announced hash). *)
Theorem reassembly b size round b' ps qs order l :
  Header.typed (Block.Header b) -> 0 < size ->
  PartSetFromBlock b size round = Ok (b', ps) ->
  NewPartSet (Some (Header ps)) (BlockHeaderHash ps) = Ok qs ->
  Forall2 (fun i p => Parts ps !! i = Some (Some p)) order l ->
  (forall i, (i < length (Parts ps))%nat -> i ∈ order) ->
  exists qs', deliver qs l = Ok qs' /\ Parts qs' = Parts ps /\ IsComplete qs' = true /\
    (snd (Block.Hash_ (Block.uncached b)) = BlockHeaderHash ps ->
     GenBlock qs' = Ok (Some (fst (Block.Hash_ (Block.uncached b))), None)).
Proof.
  intros Ht Hs Hp Hq Hl Hall.
  destruct (PartSetFromBlock_spec _ _ _ _ _ Hs Hp) as (Wp & Cp & Hbz & Hr & _ & HI & HH).
  destruct (deliver_collects ps [] qs order l Wp (collected_new _ _ Wp Hq) Hl) as (qs' & E & Hc).
  destruct Hc as (Wq & EH & EB & EP). exists qs'. split; [done|].
  assert (Parts qs' = Parts ps) as EParts.
  { apply list_eq. intros i. rewrite EP. destruct (Parts ps !! i) as [q|] eqn:Ei; [|done]. simpl.
    rewrite decide_True; [done|]. eapply Hall, lookup_lt_Some. done. }
  split; [done|]. destruct (complete_parts ps Wp Cp) as [k Ek].
  assert (IsComplete qs' = true) as Cq by (eapply (parts_complete _ k); [done|by rewrite EParts]).
  split; [done|]. intros HB. apply GenBlock_decodes; rewrite ?EH, ?EB; try done.
  unfold blockBytes. rewrite EParts. by apply Block.FromBytes_ProtoBytes.
Qed.

End partset.
End PartSet.

(** ** Concrete evaluations *)

Module PartSetDemo.
Import DemoHash Demo PartSet.
#[local] Existing Instance blockCodec.

Definition emptySet : PartSet.t := mk (PartSetHeader.mk 0 0 0 [] "") [] 0 [].
(** The demo block in parts of 12 bytes. *)
Definition sent : PartSet.t :=
  match PartSetFromBlock Demo.block 12 0 with Ok (_, ps) => ps | _ => emptySet end.
Definition fresh : PartSet.t :=
  match NewPartSet (Some (Header sent)) (BlockHeaderHash sent) with Ok ps => ps | _ => emptySet end.
Definition part (i : nat) : Part.t :=
  match Parts sent !! i with Some (Some p) => p | _ => Part.mk "" 0 0 [] None end.

Lemma sent_made : PartSetFromBlock Demo.block 12 0 = Ok (fst (Block.Hash_ Demo.block), sent).
Proof. vm_compute. reflexivity. Qed.

Lemma sent_wf : wf sent.
Proof.
  apply (PartSetFromBlock_spec Demo.block 12 0 (fst (Block.Hash_ Demo.block)) sent);
    [lia|exact sent_made].
Qed.

Lemma fresh_wf : wf fresh.
Proof. apply (NewPartSet_wf (Header sent) (BlockHeaderHash sent)). vm_compute. reflexivity. Qed.

Lemma sent_validated : validated sent.
Proof.
  intros i p Hi. assert (Forall (fun q => forall p, q = Some p -> Part.ValidateBasic p = Ok None) (Parts sent)) as HF.
  { assert (forall p : Part.t, Part.ValidateBasic p = Ok None -> forall q, Some p = Some q -> Part.ValidateBasic q = Ok None)
      as Hq by (intros ? ? ? [= <-]; done).
    change (Parts sent) with (map Some [part 0; part 1; part 2]).
    cbn [map]. repeat constructor; apply Hq; vm_compute; reflexivity. }
  rewrite Forall_lookup in HF. by eapply HF.
Qed.

Lemma AddPart_spec_witness :
  exists ps' err, AddPart fresh (part 1) = Ok (ps', err) /\ wf ps' /\
    (err = None <-> acceptable fresh (part 1)) /\
    (err = None -> ps' = extend fresh 1 (part 1)) /\ (err <> None -> ps' = fresh).
Proof.
  apply (AddPart_spec fresh (part 1) (default (mkProof 0 0 None []) (Part.Proof (part 1)))).
  - exact fresh_wf.
  - vm_compute. reflexivity.
  - vm_compute. reflexivity.
  - vm_compute. congruence.
Defined.

Lemma GenBlock_spec_witness : GenBlock fresh = Ok (None, None).
Proof. apply (GenBlock_spec fresh Demo.block fresh_wf). vm_compute. reflexivity. Defined.


(** The last part arrives first, and twice. *)
Lemma reassembly_witness :
  exists qs', deliver fresh [part 2; part 0; part 2; part 1] = Ok qs' /\ Parts qs' = Parts sent /\
    IsComplete qs' = true /\
    (snd (Block.Hash_ (Block.uncached Demo.block)) = BlockHeaderHash sent ->
     GenBlock qs' = Ok (Some (fst (Block.Hash_ (Block.uncached Demo.block))), None)).
Proof.
  apply (reassembly Demo.block 12 0 (fst (Block.Hash_ Demo.block)) sent fresh [2; 0; 2; 1]%nat).
  - exact block_typed.
  - reflexivity.
  - vm_compute. reflexivity.
  - vm_compute. reflexivity.
  - repeat constructor.
  - intros i Hi. change (i < 3)%nat in Hi. destruct i as [|[|[|i]]]; [set_solver..|lia].
Defined.
End PartSetDemo.
