(* ===== verification/Signer.v ===== *)
(** * Signatures and peers: [utils/signer/bls.go] and [utils/p2p/peer.go]

    The BLS library is a parameter: [BLS] holds the operations the code calls
    and [BLSLaws] the documented algebra of the scheme: a signature verifies for a
    key that is not the identity and with which it solves the pairing equation,
    and the equation respects the addition of signatures and keys. *)

From S2P Require Import Prelude BitVector Wire.
Import BV.
Local Open Scope Z_scope.

Class BLS := {
  PublicKey : Type;
  Sig : Type;
  SecretKey : Type;
  pkZero : PublicKey;
  pkAdd : PublicKey -> PublicKey -> PublicKey;
  sigZero : Sig;
  sigAdd : Sig -> Sig -> Sig;
  GetPublicKey : SecretKey -> PublicKey;
  SignByte : SecretKey -> bytes -> Sig;
  VerifyByte : Sig -> PublicKey -> bytes -> bool;
  pkDeserialize : string -> option PublicKey;
  skDeserialize : string -> option SecretKey;
  sigDeserialize : string -> option Sig;
  sigSerialize : Sig -> string
}.

(** [paired s p m] is the equation [e(s, g) = e(H(m), p)], bilinear in [s] and [p].
    The identity is no valid key: nothing verifies for it. *)
Class BLSLaws `{BLS} := {
  paired : Sig -> PublicKey -> bytes -> Prop;
  paired_zero m : paired sigZero pkZero m;
  paired_add s s' p p' m : paired s p m -> paired s' p' m -> paired (sigAdd s s') (pkAdd p p') m;
  paired_Sign k m : paired (SignByte k m) (GetPublicKey k) m;
  VerifyByte_paired s p m : VerifyByte s p m = true <-> p <> pkZero /\ paired s p m;
  pkAdd_comm p q r : pkAdd (pkAdd p q) r = pkAdd (pkAdd p r) q;
  sigDeserialize_Serialize s : sigDeserialize (sigSerialize s) = Some s
}.

Section signer.
Context `{BLS}.

Definition Signer : Type := SecretKey.
(** The keys that could not be read are nil. *)
Definition Verifier : Type := list (option PublicKey).

Definition NewSigner (privateKeyStr : string) : option Signer := skDeserialize privateKeyStr.
Definition NewVerifier (publicKeysStr : list string) : Verifier := map pkDeserialize publicKeysStr.

Definition Sign_ (s : Signer) (data : bytes) : string := sigSerialize (SignByte s data).

(** [data] is the result of the [SignBytes] method of the signable value. *)
Definition SignType (s : Signer) (signBytes : go bytes) : go string :=
  let! data := signBytes in Ok (Sign_ s data).

Definition VerifierSize (s : Verifier) : Z := zlen s.

Definition Verify (s : Verifier) (aggSig : string) (msg : bytes) (index : Z) : go bool :=
  if index >=? zlen s then Ok false
  else
    let! pk := idx s index in
    match pk with
    | None => Ok false
    | Some pk =>
        match sigDeserialize aggSig with
        | None => Ok false
        | Some sig => Ok (VerifyByte sig pk msg)
        end
    end.

(** The loop that adds the keys of the set bits; [None] is an early return. *)
Fixpoint addKeys (s : Verifier) (bitMap : option BV.t) (ids : list nat) (publicKey : PublicKey) :
    go (option PublicKey) :=
  match ids with
  | [] => Ok (Some publicKey)
  | i :: ids =>
      let! b := GetIndex bitMap (Z.of_nat i) in
      if b then
        let! pk := idx s (Z.of_nat i) in
        match pk with
        | None => Ok None
        | Some pk => addKeys s bitMap ids (pkAdd publicKey pk)
        end
      else addKeys s bitMap ids publicKey
  end.

Definition VerifyAggregateSignature (s : Verifier) (aggSig : string) (msg bitMapBytes : bytes) :
    go bool :=
  let! bitMap := NewBitArrayFromByte bitMapBytes in
  if negb (zlen s =? Size bitMap) then Ok false
  else match sigDeserialize aggSig with
       | None => Ok false
       | Some sig =>
           let! publicKey := addKeys s bitMap (seq 0 (Z.to_nat (Size bitMap))) pkZero in
           match publicKey with
           | None => Ok false
           | Some publicKey => Ok (VerifyByte sig publicKey msg)
           end
       end.

Fixpoint addSigs (aggSig : Sig) (sigs : list string) : option Sig :=
  match sigs with
  | [] => Some aggSig
  | sig :: sigs =>
      match sigDeserialize sig with
      | None => None
      | Some subSign => addSigs (sigAdd aggSig subSign) sigs
      end
  end.

(** [None] ids the error of a signature that cannot be read. *)
Definition AggregateSignatures (sigs : list string) : option string :=
  sigSerialize <$> addSigs sigZero sigs.

(** ** Aggregates of verified signatures verify *)

(** The set bits of a vector, in order. *)
Definition setBits (bv : BV.t) : list nat :=
  filter (fun i => BV.bit bv (Z.of_nat i) = true) (seq 0 (Z.to_nat (Bits bv))).

Lemma Verify_true s aggSig msg index :
  Verify s aggSig msg index = Ok true <->
  exists pk sig, zlook s index = Some (Some pk) /\ sigDeserialize aggSig = Some sig /\
    VerifyByte sig pk msg = true.
Proof.
  unfold Verify. rewrite Z.geb_leb. destruct (Z.leb_spec (zlen s) index) as [Hi|Hi].
  - split; [done|]. intros (pk & sig & [? Hl%lookup_lt_Some]%zlook_Some & _). lia.
  - unfold idx. destruct (zlook s index) as [[pk|]|]; simpl.
    + destruct (sigDeserialize aggSig) as [sg|]; split.
      * intros [= E]. by exists pk, sg.
      * intros (pk' & sg' & [= <-] & [= <-] & ->). done.
      * done.
      * by intros (pk' & sg' & _ & ? & _).
    + split; [done|]. by intros (pk' & sg' & ? & _).
    + split; [done|]. by intros (pk' & sg' & ? & _).
Qed.

Lemma addKeys_filter s bv ids pk :
  wf bv -> Bits bv = zlen s ->
  addKeys s (Some bv) ids pk =
  addKeys s (Some bv) (filter (fun i => BV.bit bv (Z.of_nat i) = true) ids) pk.
Proof.
  intros Hwf Hl. revert pk. induction ids as [|i ids IH]; intros pk; [done|].
  rewrite filter_cons. cbn [addKeys]. rewrite (GetIndex_spec bv) by (done || lia).
  destruct (decide (BV.bit bv (Z.of_nat i) = true)) as [Hb|Hb].
  - cbn [addKeys]. rewrite (GetIndex_spec bv) by (done || lia). rewrite Hb. cbn [gbind].
    destruct (Z.of_nat i <? Bits bv); [|apply IH].
    destruct (idx s (Z.of_nat i)) as [[pk'|]| |]; simpl; auto.
  - apply not_true_is_false in Hb. rewrite Hb. cbn [gbind].
    destruct (Z.of_nat i <? Bits bv); apply IH.
Qed.

(** The keys and the signatures that are added up, in whatever order the
    signatures come. *)
Lemma addKeys_Some s bv ids pk :
  wf bv -> Bits bv = zlen s ->
  Forall (fun i => (i < length s)%nat /\ BV.bit bv (Z.of_nat i) = true /\
                   exists k, s !! i = Some (Some k)) ids ->
  addKeys s (Some bv) ids pk =
  Ok (Some (fold_left pkAdd (omap (fun i => mjoin (s !! i)) ids) pk)).
Proof.
  intros Hwf Hl Hall. revert pk.
  induction Hall as [|i ids (Hi & Hb & k & Hk) _ IH]; intros pk; [done|].
  cbn [addKeys]. rewrite (GetIndex_spec bv), Hb by (done || lia).
  destruct (Z.ltb_spec (Z.of_nat i) (Bits bv)); [|lia]. cbn [gbind].
  rewrite (proj2 (idx_Ok s (Z.of_nat i) (Some k))).
  - cbn [gbind]. rewrite IH. simpl. by rewrite Hk.
  - apply zlook_Some. rewrite Nat2Z.id. split; [lia|done].
Qed.

Context `{!BLSLaws}.

Lemma pkAdd_perm l k pk : l ≡ₚ k -> fold_left pkAdd l pk = fold_left pkAdd k pk.
Proof.
  intros Hp. revert pk. induction Hp as [|x l k _ IH|x y l|]; intros pk; simpl; auto.
  - by rewrite pkAdd_comm.
  - congruence.
Qed.

(** The key that the aggregate of the signers in [bv] is verified for. *)
Definition aggregateKey (s : list (option PublicKey)) (bv : BV.t) : PublicKey :=
  fold_left pkAdd (omap (fun i => mjoin (s !! i)) (setBits bv)) pkZero.

Lemma addSigs_paired (l : list (PublicKey * string)) sig pk msg :
  paired sig pk msg ->
  Forall (fun ks => exists s, sigDeserialize ks.2 = Some s /\ VerifyByte s ks.1 msg = true) l ->
  exists sig', addSigs sig l.*2 = Some sig' /\ paired sig' (fold_left pkAdd l.*1 pk) msg.
Proof.
  intros Hv Hl. revert sig pk Hv. induction Hl as [|[k x] l (s & Hs & Hks) _ IH]; intros sig pk Hv.
  - by exists sig.
  - simpl in *. rewrite Hs. apply IH. apply paired_add; [done|]. by apply VerifyByte_paired.
Qed.

Lemma aggregate_verifies s bv (signed : list (nat * string)) msg :
  wf bv -> Bits bv = zlen s -> signed.*1 ≡ₚ setBits bv ->
  Forall (fun e => Verify s e.2 msg (Z.of_nat e.1) = Ok true) signed ->
  exists aggSig valid, AggregateSignatures signed.*2 = Some aggSig /\
    VerifyAggregateSignature s aggSig msg (Byte (Some bv)) = Ok valid /\
    (valid = true <-> aggregateKey s bv <> pkZero).
Proof.
  intros Hwf Hl Hp Hall.
  set (key := fun i => default pkZero (mjoin (s !! i))).
  assert (Forall (fun e => exists k sg, s !! e.1 = Some (Some k) /\
    sigDeserialize e.2 = Some sg /\ VerifyByte sg k msg = true) signed) as HA.
  { eapply Forall_impl; [exact Hall|]. intros [i x] (k & sg & [_ Hk]%zlook_Some & ? & ?)%Verify_true.
    rewrite Nat2Z.id in Hk. by exists k, sg. }
  destruct (addSigs_paired ((fun e => (key e.1, e.2)) <$> signed) sigZero pkZero msg)
    as (sig & Esig & Hv).
  - apply paired_zero.
  - apply Forall_fmap. eapply Forall_impl; [exact HA|]. intros [i x] (k & sg & Hk & Hd & Hvb).
    exists sg. simpl in *. unfold key. by rewrite Hk.
  - rewrite <- !list_fmap_compose in Esig, Hv. exists (sigSerialize sig), (VerifyByte sig (aggregateKey s bv) msg).
    unfold AggregateSignatures. change (snd ∘ _) with (snd : nat * string -> string) in Esig.
    rewrite Esig. split; [done|].
    unfold VerifyAggregateSignature. rewrite decode_Byte by done. cbn [gbind Size].
    rewrite Hl, Z.eqb_refl, sigDeserialize_Serialize. cbn [negb].
    rewrite addKeys_filter by done. rewrite <- Hl. fold (setBits bv). rewrite addKeys_Some; [|done..|].
    + cbn [gbind]. split; [done|]. rewrite VerifyByte_paired. split; [tauto|]. intros Hz. split; [done|].
      unfold aggregateKey. erewrite pkAdd_perm; [exact Hv|].
      rewrite <- Hp. clear -HA. induction HA as [|[i x] l (k & sg & Hk & _) _ IH]; [done|].
      simpl in *. rewrite Hk. unfold key at 1. simpl. rewrite Hk. simpl. by rewrite IH.
    + apply Forall_forall. intros i Hi. pose proof Hi as Hf. rewrite <- Hp in Hi.
      apply list_elem_of_fmap in Hi as ([j x] & -> & Hin). rewrite Forall_forall in HA.
      destruct (HA _ Hin) as (k & sg & Hk & _). simpl in *.
      apply list_elem_of_filter in Hf as [Hb _]. split; [by eapply lookup_lt_Some|].
      split; [done|]. by exists k.
Qed.

(** Signatures on the same message that each verify for their validator,
    one per set bit of a vector as long as the validator set and in any order,
    aggregate without error to a signature that verifies for that vector, unless
    the keys of the signers add up to the identity: then it does not verify. *)
Theorem AggregateSignatures_verifies s bv (signed : list (nat * string)) msg :
  wf bv -> Bits bv = zlen s -> signed.*1 ≡ₚ setBits bv ->
  Forall (fun e => Verify s e.2 msg (Z.of_nat e.1) = Ok true) signed ->
  exists aggSig valid, AggregateSignatures signed.*2 = Some aggSig /\
    VerifyAggregateSignature s aggSig msg (Byte (Some bv)) = Ok valid /\
    (valid = true <-> aggregateKey s bv <> pkZero).
Proof. exact (aggregate_verifies s bv signed msg). Qed.

End signer.

(** ** [utils/p2p/peer.go] *)

Module Peer.
Record t := mk { IP : string; Chain : gmap string bool; Pubkey : string; Vote : Z }.
Definition pbPeer : Type := t.

(** The second result is a nil error. *)
Definition NewPeer (ip : string) (chains : gmap string bool) (publicKey : string) (vote : Z) : t :=
  mk ip chains publicKey vote.
Definition Equal (peer other : t) : bool := bool_decide (IP peer = IP other).
Definition BelongTo (peer : t) (s : string) : bool := default false (Chain peer !! s).
Definition PubkeyStr (peer : t) : string := Pubkey peer.

(** The message has the fields of the peer. *)
Definition ToProto (peer : t) : pbPeer := mk (IP peer) (Chain peer) (PubkeyStr peer) (Vote peer).
Definition ProtoBytes `{Codec pbPeer} (peer : t) : go bytes := MustProtoBytes (ToProto peer).
Definition NewPeerFromProto (p : pbPeer) : t := NewPeer (IP p) (Chain p) (Pubkey p) (Vote p).
Definition NewPeerFromBytes `{Codec pbPeer} (bz : bytes) : option t :=
  NewPeerFromProto <$> Unmarshal bz.
End Peer.

(** ** A concrete scheme

    Keys and signatures are numbers modulo a prime, a signature is the key times a
    number made of the message, and a number is written in unary. *)

Module SignerDemo.
Fixpoint unary (n : nat) : string :=
  match n with O => EmptyString | S n => String.append "x" (unary n) end.
Definition weight (m : bytes) : nat := S (length m).

Lemma unary_length n : String.length (unary n) = n.
Proof. induction n; simpl; auto. Qed.

Definition order : nat := 101.
Definition red (n : nat) : nat := (n mod order)%nat.
Definition demoBLS : BLS :=
  {| PublicKey := nat; Sig := nat; SecretKey := nat; pkZero := 0%nat; pkAdd := fun p q => red (p + q);
     sigZero := 0%nat; sigAdd := fun s t => red (s + t); GetPublicKey := red;
     SignByte := fun k m => red (k * weight m);
     VerifyByte := fun s p m => negb (p =? 0)%nat && (red s =? red (p * weight m))%nat;
     pkDeserialize := fun s => Some (red (String.length s));
     skDeserialize := fun s => Some (String.length s);
     sigDeserialize := fun s => Some (String.length s);
     sigSerialize := unary |}.
#[export] Existing Instance demoBLS.

#[export] Instance demoBLSLaws : BLSLaws.
Proof.
  apply (Build_BLSLaws demoBLS (fun s p m => red s = red (p * weight m))); simpl; unfold red.
  - done.
  - intros s s' p p' m E E'. rewrite Nat.Div0.mod_mod, Nat.Div0.mul_mod_idemp_l, Nat.mul_add_distr_r.
    by rewrite Nat.Div0.add_mod, E, E', <- Nat.Div0.add_mod.
  - intros k m. by rewrite Nat.Div0.mod_mod, Nat.Div0.mul_mod_idemp_l.
  - intros s p m. rewrite andb_true_iff, negb_true_iff, Nat.eqb_neq, Nat.eqb_eq. done.
  - intros p q r. rewrite !Nat.Div0.add_mod_idemp_l. f_equal. lia.
  - intros s. by rewrite unary_length.
Defined.

Definition keys : list string := ["x"; "xx"; "xxx"]%string.
Definition verifier : Verifier := NewVerifier keys.
Definition vector : BV.t := BV.mk 3 [Byte.x05].
Definition message : bytes := of_str "hello".
Definition signed : list (nat * string) :=
  [(2%nat, Sign_ (3%nat : Signer) message); (0%nat, Sign_ (1%nat : Signer) message)].

Lemma AggregateSignatures_verifies_witness :
  exists aggSig, AggregateSignatures signed.*2 = Some aggSig /\
    VerifyAggregateSignature verifier aggSig message (Byte (Some vector)) = Ok true.
Proof.
  destruct (AggregateSignatures_verifies verifier vector signed message) as (aggSig & valid & Ea & Ev & Hv).
  - vm_compute. split; congruence.
  - vm_compute. reflexivity.
  - change (setBits vector) with [0; 2]%nat. apply perm_swap.
  - repeat constructor; vm_compute; reflexivity.
  - exists aggSig. split; [exact Ea|]. rewrite Ev. f_equal. apply Hv. vm_compute. discriminate.
Defined.

(** Two validators with opposite keys: both signatures verify, their aggregate
    does not. *)
Definition opposite : Verifier := NewVerifier ["x"; unary 100]%string.
Definition bothSigned : list string := [Sign_ (1%nat : Signer) message; Sign_ (100%nat : Signer) message].
Example keys_cancel :
  Verify opposite (nth 0 bothSigned EmptyString) message 0 = Ok true /\ Verify opposite (nth 1 bothSigned EmptyString) message 1 = Ok true /\
  option_map (fun sig => VerifyAggregateSignature opposite sig message (Byte (Some (BV.mk 2 [Byte.x03])))) (AggregateSignatures bothSigned) =
    Some (Ok false).
Proof. vm_compute. repeat split. Qed.
End SignerDemo.
