(* ===== verification/Votes.v ===== *)
(** * Consensus messages: [melete/consensus/constypes/vote.go]

    The messages of the consensus, their wire format, the bytes that are signed
    and the checks on a received message.  The pointers inside messages are never
    nil: the readers of received messages dereference them (and panic). *)

From S2P Require Import Prelude BitVector Hash Wire Types PartSet Signer.
Local Open Scope Z_scope.

Definition VoteTypeProposal : Z := 1.
Definition VoteTypePrevote : Z := 2.
Definition VoteTypePrecommit : Z := 3.
Definition VoteTypePrecommitAggregated : Z := 4.
Definition VoteTypeCrossShardProposal : Z := 5.
Definition VoteTypeCrossShardAccept : Z := 6.
Definition VoteTypeCrossShardCommit : Z := 7.
Definition ShardTypeI : Z := 8.
Definition ShardTypeC : Z := 9.

(** ** [proto/melete/consensus/types] *)

Record pbProposal := mkpbProposal {
  pbp_type : Z; pbp_header : option pbPartSetHeader; pbp_proposer : Z; pbp_hash : bytes;
  pbp_sig : string }.
(** [Prevote] and [Precommit] have the same fields with the same numbers, so
    that their encodings are the same function. *)
Record pbVote := mkpbVote {
  pbv_type : Z; pbv_index : Z; pbv_height : Z; pbv_round : Z; pbv_code : Z; pbv_hash : bytes;
  pbv_sig : string }.
Abbreviation pbPrevote := pbVote.
Abbreviation pbPrecommit := pbVote.
Record pbPrecommitAggregated := mkpbPrecommitAggregated {
  pba_type : Z; pba_bits : bytes; pba_header : option pbPartSetHeader; pba_hash : bytes;
  pba_sig : string; pba_code : Z }.
Record pbCrossShardProposal := mkpbCrossShardProposal {
  pbcp_type : Z; pbcp_shard : Z; pbcp_sigs : option pbPrecommitAggregated }.
Record pbCrossShardAccept := mkpbCrossShardAccept {
  pbca_type : Z; pbca_upper : string; pbca_accept : string; pbca_index : Z; pbca_height : Z;
  pbca_hash : bytes; pbca_status : bytes; pbca_sig : string }.
Record pbCrossShardCommit := mkpbCrossShardCommit {
  pbcc_type : Z; pbcc_upper : string; pbcc_height : Z; pbcc_hash : bytes;
  pbcc_chains : list string; pbcc_sigs : list string; pbcc_bits : list bytes;
  pbcc_statuses : list bytes }.

#[export] Instance pbProposal_eq_dec : EqDecision pbProposal.
Proof. solve_decision. Defined.
#[export] Instance pbVote_eq_dec : EqDecision pbVote.
Proof. solve_decision. Defined.
#[export] Instance pbCrossShardAccept_eq_dec : EqDecision pbCrossShardAccept.
Proof. solve_decision. Defined.
#[export] Instance pbPrecommitAggregated_eq_dec : EqDecision pbPrecommitAggregated.
Proof. solve_decision. Defined.
#[export] Instance pbCrossShardProposal_eq_dec : EqDecision pbCrossShardProposal.
Proof. solve_decision. Defined.
#[export] Instance pbCrossShardCommit_eq_dec : EqDecision pbCrossShardCommit.
Proof. solve_decision. Defined.

(** ** Proposal *)

Module Proposal.
Record t := mk {
  VoteType : Z; Header : PartSetHeader.t; ProposerIndex : Z; BlockHeaderHash : bytes;
  Signature : string }.

Definition NewProposal (header : PartSetHeader.t) (proposer_index : Z) (blockHeaderHash : bytes) : t :=
  mk VoteTypeProposal header proposer_index blockHeaderHash "".

Definition ToProto (p : t) : pbProposal :=
  mkpbProposal (VoteType p) (Some (PartSetHeader.ToProto (Header p))) (i32 (ProposerIndex p))
    (BlockHeaderHash p) (Signature p).
Definition ProtoBytes `{Codec pbProposal} (p : t) : go bytes := MustProtoBytes (ToProto p).
Definition SignBytes `{Codec pbProposal} (p : t) : go bytes :=
  MustProtoBytes (mkpbProposal (VoteType p) (Some (PartSetHeader.ToProto (Header p)))
    (i32 (ProposerIndex p)) (BlockHeaderHash p) "").
Definition NewProposalFromProto (p : pbProposal) : go t :=
  let! h := PartSetHeader.NewPartSetHeaderFromProto (pbp_header p) in
  Ok (mk (pbp_type p) h (pbp_proposer p) (pbp_hash p) (pbp_sig p)).
Definition NewProposalFromBytes `{Codec pbProposal} (bz : bytes) : go (option t) :=
  match Unmarshal bz with
  | None => Ok None
  | Some p => let! p := NewProposalFromProto p in Ok (Some p)
  end.

Definition ValidateBasic (p : t) : option goerr :=
  if negb (VoteType p =? VoteTypeProposal) then
    Some (Errorf "VoteTypeError: %d is note a VoteType for Proposal")
  else if ProposerIndex p <? 0 then Some (Errorf "ProposerIndex is negative: %d")
  else if negb (zlen (BlockHeaderHash p) =? HashSize) then Some (Errorf " It's not a hash")
  else PartSetHeader.ValidateBasic (Header p).

(** [p.Signature = sig] *)
Definition setSignature (p : t) (sig : string) : t :=
  mk (VoteType p) (Header p) (ProposerIndex p) (BlockHeaderHash p) sig.
End Proposal.

(** ** Prevote *)

Module Prevote.
Record t := mk {
  VoteType : Z; Code : Z; Height : Z; Round : Z; BlockHeaderHash : bytes; Signature : string;
  ValidatorIndex : Z }.

Definition IsOK (p : t) : bool := Code p =? CodeTypeOK.
Definition SetOK (p : t) (ok : bool) : t :=
  mk (VoteType p) (if ok then CodeTypeOK else CodeTypeAbort) (Height p) (Round p)
    (BlockHeaderHash p) (Signature p) (ValidatorIndex p).
Definition ValidateBasic (p : t) : option goerr :=
  if negb (VoteType p =? VoteTypePrevote) then
    Some (Errorf "VoteTypeError: %d is not a VoteType for Prevote")
  else if negb (zlen (BlockHeaderHash p) =? HashSize) then
    Some (Errorf "Prevote malformed: BlockHeaderHash is not a hash value")
  else None.
Definition NewPrevote (height round : Z) (blockHeaderHash : bytes) (validatorIndex : Z) : t :=
  mk VoteTypePrevote CodeTypeOK height round blockHeaderHash "" validatorIndex.
Definition ToProto (p : t) : pbPrevote :=
  mkpbVote (VoteType p) (i32 (ValidatorIndex p)) (Height p) (i32 (Round p)) (Code p)
    (BlockHeaderHash p) (Signature p).
Definition ProtoBytes `{Codec pbPrevote} (p : t) : go bytes := MustProtoBytes (ToProto p).
Definition SignBytes `{Codec pbPrevote} (p : t) : go bytes :=
  MustProtoBytes (mkpbVote (VoteType p) (-1) (Height p) (i32 (Round p)) (Code p)
    (BlockHeaderHash p) "").
Definition NewPrevoteFromProto (p : pbPrevote) : t :=
  mk (pbv_type p) (i8 (pbv_code p)) (pbv_height p) (pbv_round p) (pbv_hash p) (pbv_sig p)
    (pbv_index p).
Definition NewPrevoteFromBytes `{Codec pbPrevote} (bz : bytes) : option t :=
  NewPrevoteFromProto <$> Unmarshal bz.
Definition setSignature (p : t) (sig : string) : t :=
  mk (VoteType p) (Code p) (Height p) (Round p) (BlockHeaderHash p) sig (ValidatorIndex p).
End Prevote.

(** ** Precommit *)

Module Precommit.
Record t := mk {
  VoteType : Z; Code : Z; Height : Z; Round : Z; BlockHeaderHash : bytes; Signature : string;
  ValidatorIndex : Z }.

Definition IsOK (p : t) : bool := Code p =? CodeTypeOK.
Definition SetOK (p : t) (ok : bool) : t :=
  mk (VoteType p) (if ok then CodeTypeOK else CodeTypeAbort) (Height p) (Round p)
    (BlockHeaderHash p) (Signature p) (ValidatorIndex p).
Definition ValidateBasic (p : t) : option goerr :=
  if negb (VoteType p =? VoteTypePrecommit) then
    Some (Errorf "VoteTypeError: %d is not a Precommit VoteType")
  else if negb (zlen (BlockHeaderHash p) =? HashSize) then
    Some (Errorf "Precommit malformed: BlockHeaderHash is not a hash value")
  else None.
Definition NewPrecommit (height round : Z) (blockHeaderHash : bytes) (validatorIndex : Z) : t :=
  mk VoteTypePrecommit CodeTypeOK height round blockHeaderHash "" validatorIndex.
Definition ToProto (p : t) : pbPrecommit :=
  mkpbVote (VoteType p) (i32 (ValidatorIndex p)) (Height p) (i32 (Round p)) (Code p)
    (BlockHeaderHash p) (Signature p).
Definition ProtoBytes `{Codec pbPrecommit} (p : t) : go bytes := MustProtoBytes (ToProto p).
Definition SignBytes `{Codec pbPrecommit} (p : t) : go bytes :=
  MustProtoBytes (mkpbVote (VoteType p) (-1) (Height p) (i32 (Round p)) (Code p)
    (BlockHeaderHash p) "").
Definition NewPrecommitFromProto (p : pbPrecommit) : t :=
  mk (pbv_type p) (i8 (pbv_code p)) (pbv_height p) (pbv_round p) (pbv_hash p) (pbv_sig p)
    (pbv_index p).
Definition NewPrecommitFromBytes `{Codec pbPrecommit} (bz : bytes) : option t :=
  NewPrecommitFromProto <$> Unmarshal bz.
Definition setSignature (p : t) (sig : string) : t :=
  mk (VoteType p) (Code p) (Height p) (Round p) (BlockHeaderHash p) sig (ValidatorIndex p).
End Precommit.

(** ** PrecommitAggregated *)

Module PrecommitAggregated.
Record t := mk {
  VoteType : Z; Code : Z; ValidatorBitVector : option BV.t; Header : PartSetHeader.t;
  BlockHeaderHash : bytes; AggregatedSignatures : string }.

Definition ValidateBasic (p : t) : option goerr :=
  if negb (VoteType p =? VoteTypePrecommitAggregated) then
    Some (Errorf "VoteTypeError: %d is not a PrecommitAggregated VoteType")
  else match ValidatorBitVector p with
       | None => Some (Errorf "PrecommitAggregated BitVector must not be empty")
       | Some _ =>
           match PartSetHeader.ValidateBasic (Header p) with
           | Some err => Some err
           | None =>
               if negb (zlen (BlockHeaderHash p) =? HashSize) then
                 Some (Errorf "Precommit malformed: BlockHeaderHash is not a hash value")
               else None
           end
       end.
Definition NewPrecommitAggregated (validatorBitVector : bytes) (header : PartSetHeader.t)
    (blockHeaderHash : bytes) (aggregatedSignatures : string) : go t :=
  let! bv := BV.NewBitArrayFromByte validatorBitVector in
  Ok (mk VoteTypePrecommitAggregated CodeTypeOK bv header blockHeaderHash aggregatedSignatures).
Definition ToProto (p : t) : pbPrecommitAggregated :=
  mkpbPrecommitAggregated (VoteType p) (BV.Byte (ValidatorBitVector p))
    (Some (PartSetHeader.ToProto (Header p))) (BlockHeaderHash p) (AggregatedSignatures p) (Code p).
Definition ProtoBytes `{Codec pbPrecommitAggregated} (p : t) : go bytes := MustProtoBytes (ToProto p).
Definition NewPrecommitAggregatedFromProto (p : option pbPrecommitAggregated) : go t :=
  let! p := deref p in
  let! bv := BV.NewBitArrayFromByte (pba_bits p) in
  let! h := PartSetHeader.NewPartSetHeaderFromProto (pba_header p) in
  Ok (mk (pba_type p) (i8 (pba_code p)) bv h (pba_hash p) (pba_sig p)).
Definition NewPrecommitAggregatedFromBytes `{Codec pbPrecommitAggregated} (bz : bytes) :
    go (option t) :=
  match Unmarshal bz with
  | None => Ok None
  | Some p => let! p := NewPrecommitAggregatedFromProto (Some p) in Ok (Some p)
  end.

(** The precommit that the validators signed. *)
Definition Precommit_ (p : t) : Precommit.t :=
  let precommit := Precommit.NewPrecommit (PartSetHeader.Height (Header p))
    (PartSetHeader.Round (Header p)) (BlockHeaderHash p) (-1) in
  Precommit.mk (Precommit.VoteType precommit) (Code p) (Precommit.Height precommit)
    (Precommit.Round precommit) (Precommit.BlockHeaderHash precommit)
    (Precommit.Signature precommit) (Precommit.ValidatorIndex precommit).

Definition VerifySignatures `{BLS, Codec pbPrecommit} (p : t) (verifier : option Verifier)
    (bitVectorBytes : bytes) : go bool :=
  match verifier with
  | None => Ok false
  | Some verifier =>
      let! msg := Precommit.SignBytes (Precommit_ p) in
      VerifyAggregateSignature verifier (AggregatedSignatures p) msg bitVectorBytes
  end.
Definition IsOK (p : t) : bool := Code p =? CodeTypeOK.
End PrecommitAggregated.

(** ** CrossShardProposal *)

Module CrossShardProposal.
Record t := mk {
  VoteType : Z; ShardType : Z; AggregatedSignatures : PrecommitAggregated.t }.

Definition ValidateBasic (c : t) : option goerr :=
  if negb (VoteType c =? VoteTypeCrossShardProposal) then
    Some (Errorf "VoteTypeError: %d is not a VoteType for the CrossShardProposal")
  else if negb (ShardType c =? ShardTypeC) && negb (ShardType c =? ShardTypeI) then
    Some (Errorf "ShardTypeError: %d is not a ShardType for CrossShardProposal")
  else match PrecommitAggregated.ValidateBasic (AggregatedSignatures c) with
       | Some err => Some err
       | None => None
       end.
Definition NewCrossShardProposal (aggregatedSignatures : PrecommitAggregated.t) (shard_type : Z) : t :=
  mk VoteTypeCrossShardProposal shard_type aggregatedSignatures.
Definition ToProto (c : t) : pbCrossShardProposal :=
  mkpbCrossShardProposal (VoteType c) (ShardType c)
    (Some (PrecommitAggregated.ToProto (AggregatedSignatures c))).
Definition ProtoBytes `{Codec pbCrossShardProposal} (c : t) : go bytes := MustProtoBytes (ToProto c).
Definition NewCrossShardProposalFromProto (p : pbCrossShardProposal) : go t :=
  let! a := PrecommitAggregated.NewPrecommitAggregatedFromProto (pbcp_sigs p) in
  Ok (mk (pbcp_type p) (pbcp_shard p) a).
Definition NewCrossShardProposalFromBytes `{Codec pbCrossShardProposal} (bz : bytes) : go (option t) :=
  match Unmarshal bz with
  | None => Ok None
  | Some p => let! p := NewCrossShardProposalFromProto p in Ok (Some p)
  end.
End CrossShardProposal.

(** ** CrossShardAccept *)

Module CrossShardAccept.
Record t := mk {
  VoteType : Z; UpperChainID : string; AcceptChainID : string; Height : Z;
  BlockHeaderHash : bytes; CommitStatus : bytes; Signature : string; ValidatorIndex : Z }.

Definition ValidateBasic (csa : t) : option goerr := None.
Definition NewCrossShardAccept (upperChainID acceptChainID : string) (height : Z)
    (blockHeaderHash commitStatus : bytes) (validatorIndex : Z) : t :=
  mk VoteTypeCrossShardAccept upperChainID acceptChainID height blockHeaderHash commitStatus ""
    validatorIndex.
Definition ToProto (c : t) : pbCrossShardAccept :=
  mkpbCrossShardAccept (VoteType c) (UpperChainID c) (AcceptChainID c) (i32 (ValidatorIndex c))
    (Height c) (BlockHeaderHash c) (CommitStatus c) (Signature c).
Definition ProtoBytes `{Codec pbCrossShardAccept} (c : t) : go bytes := MustProtoBytes (ToProto c).
Definition SignBytes `{Codec pbCrossShardAccept} (c : t) : go bytes :=
  MustProtoBytes (mkpbCrossShardAccept (VoteType c) (UpperChainID c) (AcceptChainID c) (-1)
    (Height c) (BlockHeaderHash c) (CommitStatus c) "").
Definition NewCrossShardAcceptFromProto (p : pbCrossShardAccept) : t :=
  mk (pbca_type p) (pbca_upper p) (pbca_accept p) (pbca_height p) (pbca_hash p) (pbca_status p)
    (pbca_sig p) (pbca_index p).
Definition NewCrossShardAcceptFromBytes `{Codec pbCrossShardAccept} (bz : bytes) : option t :=
  NewCrossShardAcceptFromProto <$> Unmarshal bz.
Definition setSignature (c : t) (sig : string) : t :=
  mk (VoteType c) (UpperChainID c) (AcceptChainID c) (Height c) (BlockHeaderHash c)
    (CommitStatus c) sig (ValidatorIndex c).
End CrossShardAccept.

(** ** CrossShardCommit *)

Module CrossShardCommit.
Record t := mk {
  VoteType : Z; UpperChainID : string; Height : Z; BlockHeaderHash : bytes;
  ChainList : list string; AggregatedSignatureList : list string;
  ValidatorBitVectorList : list (option BV.t); CommitStatusList : list bytes }.

Definition ValidateBasic (csc : t) : option goerr := None.

Definition getCrossShardAccept (csc : t) (i valIndex : Z) : go CrossShardAccept.t :=
  let! chain := idx (ChainList csc) i in
  let! status := idx (CommitStatusList csc) i in
  Ok (CrossShardAccept.NewCrossShardAccept (UpperChainID csc) chain (Height csc)
        (BlockHeaderHash csc) status valIndex).

Definition NewCrossShardCommit (upperChainID : string) (height : Z) (blockHeaderHash : bytes)
    (chainList aggregatedSignatureList : list string) (validatorBitVectorList : list bytes)
    (commitStatusList : list bytes) : go t :=
  let! bvList := go_mapM BV.NewBitArrayFromByte validatorBitVectorList in
  Ok (mk VoteTypeCrossShardCommit upperChainID height blockHeaderHash chainList
        aggregatedSignatureList bvList commitStatusList).

Definition ToProto (c : t) : pbCrossShardCommit :=
  mkpbCrossShardCommit (VoteType c) (UpperChainID c) (Height c) (BlockHeaderHash c) (ChainList c)
    (AggregatedSignatureList c) (map BV.Byte (ValidatorBitVectorList c)) (CommitStatusList c).
Definition ProtoBytes `{Codec pbCrossShardCommit} (c : t) : go bytes := MustProtoBytes (ToProto c).
Definition NewCrossShardCommitFromProto (p : pbCrossShardCommit) : go t :=
  let! bvList := go_mapM BV.NewBitArrayFromByte (pbcc_bits p) in
  Ok (mk (pbcc_type p) (pbcc_upper p) (pbcc_height p) (pbcc_hash p) (pbcc_chains p) (pbcc_sigs p)
        bvList (pbcc_statuses p)).
Definition NewCrossShardCommitFromBytes `{Codec pbCrossShardCommit} (bz : bytes) : go (option t) :=
  match Unmarshal bz with
  | None => Ok None
  | Some p => let! p := NewCrossShardCommitFromProto p in Ok (Some p)
  end.

(** The votes of the peers whose bit is set, added in 32 bits. *)
Fixpoint tally (bv : option BV.t) (i : Z) (peerList : list Peer.t) (voteTotal : Z) : go Z :=
  match peerList with
  | [] => Ok voteTotal
  | peer :: peerList =>
      let! b := BV.GetIndex bv i in
      tally bv (i + 1) peerList (if b then i32 (voteTotal + Peer.Vote peer) else voteTotal)
  end.

Definition ValidateVote `{BLS, Codec pbCrossShardAccept} (csc : t) (peerList : list Peer.t)
    (verifier : option Verifier) (index shardVote : Z) : go (option goerr) :=
  let! bv := idx (ValidatorBitVectorList csc) index in
  if zlen peerList =? 0 then Ok (Some (Errorf "Nil PeerList while CrossShardCommit"))
  else
    let! verifier := deref verifier in
    if negb (zlen peerList =? VerifierSize verifier) then
      Ok (Some (Errorf "The peerList and ValidatorSet of errors are provided"))
    else if negb (zlen peerList =? BV.Size bv) then
      Ok (Some (Errorf "PeerList does not match BitVector length while CrossShardCommit"))
    else
      let! voteTotal := tally bv 0 peerList 0 in
      if negb (voteTotal >? Z.quot (i32 (shardVote * 2)) 3) then
        let! _ := idx (ChainList csc) index in
        Ok (Some (Errorf "CrossShardCommit has less than 2/3 votes for shard %s"))
      else
        let! msg := getCrossShardAccept csc index 0 in
        let! sig := idx (AggregatedSignatureList csc) index in
        let! signBytes := CrossShardAccept.SignBytes msg in
        let! valid := VerifyAggregateSignature verifier sig signBytes (BV.Byte bv) in
        if negb valid then
          let! _ := idx (ChainList csc) index in
          Ok (Some (Errorf "There is a problem with the aggregate signature of the shard %s"))
        else Ok None.
End CrossShardCommit.

Definition isNotHash (bz : bytes) : bool := negb (zlen bz =? HashSize).

(** ** Quorums *)

(** The votes of all peers, and of the peers whose bit is set. *)
Definition allVotes (peerList : list Peer.t) : Z := zsum (map Peer.Vote peerList).

Fixpoint votesFrom (bv : BV.t) (i : Z) (peerList : list Peer.t) : Z :=
  match peerList with
  | [] => 0
  | peer :: peerList =>
      (if (i <? BV.Bits bv) && BV.bit bv i then Peer.Vote peer else 0) + votesFrom bv (i + 1) peerList
  end.
Definition votesOf (bv : BV.t) (peerList : list Peer.t) : Z := votesFrom bv 0 peerList.

Definition votesNonneg (peerList : list Peer.t) : Prop :=
  Forall (fun peer => 0 <= Peer.Vote peer) peerList.

Lemma votesFrom_range bv i peerList :
  votesNonneg peerList -> 0 <= votesFrom bv i peerList <= allVotes peerList.
Proof.
  unfold allVotes. intros H. revert i. induction H as [|p l Hp _ IH]; intros i; [done|].
  cbn [votesFrom map]. rewrite zsum_cons. specialize (IH (i + 1)). destruct (_ && _); lia.
Qed.

Lemma tally_exact bv i peerList acc :
  BV.wf bv -> 0 <= i -> votesNonneg peerList -> 0 <= acc -> acc + allVotes peerList < 2 ^ 31 ->
  CrossShardCommit.tally (Some bv) i peerList acc = Ok (acc + votesFrom bv i peerList).
Proof.
  intros Hwf Hi H. revert i acc Hi. induction H as [|p l Hp Hl IH]; intros i acc Hi Ha Hs.
  - cbn. f_equal. lia.
  - cbn [CrossShardCommit.tally votesFrom]. rewrite BV.GetIndex_spec by done. cbn [gbind].
    pose proof (votesFrom_range bv (i + 1) l Hl) as Hr.
    unfold allVotes in *. cbn [map] in Hs. rewrite zsum_cons in Hs.
    destruct (i <? BV.Bits bv); cbn [andb]; [destruct (BV.bit bv i)|].
    + rewrite wrap_s_small by (unfold in_s; lia). rewrite IH by lia; f_equal; lia.
    + rewrite IH by lia; f_equal; lia.
    + rewrite IH by lia; f_equal; lia.
Qed.

(** Setting one more bit adds the vote of its peer. *)
Lemma votesFrom_set bv bv' i k peerList :
  0 <= i -> BV.Bits bv' = BV.Bits bv -> BV.bit bv k = false -> k < BV.Bits bv ->
  (forall j, 0 <= j -> BV.bit bv' j = if j =? k then true else BV.bit bv j) ->
  votesFrom bv' i peerList =
  votesFrom bv i peerList +
  match zlook peerList (k - i) with Some p => Peer.Vote p | None => 0 end.
Proof.
  intros Hi HB Hk Hlt Hb. revert i Hi. induction peerList as [|p l IH]; intros i Hi.
  - cbn [votesFrom]. unfold zlook. by destruct (decide _).
  - cbn [votesFrom]. rewrite IH, HB, Hb by lia.
    assert (zlook (p :: l) (k - i) =
      if k - i =? 0 then Some p else zlook l (k - (i + 1))) as ->.
    { unfold zlook. destruct (Z.eqb_spec (k - i) 0) as [E|E].
      - rewrite E. done.
      - repeat case_decide; try done; try lia.
        replace (Z.to_nat (k - i)) with (S (Z.to_nat (k - (i + 1)))) by lia. done. }
    destruct (Z.eqb_spec i k) as [->|Hne].
    + rewrite Z.sub_diag. cbn [Z.eqb]. rewrite Hk.
      assert (zlook l (k - (k + 1)) = None) as -> by (unfold zlook; case_decide; [done|lia]).
      destruct (Z.ltb_spec k (BV.Bits bv)); cbn [andb]; lia.
    + destruct (Z.eqb_spec (k - i) 0); [lia|]. lia.
Qed.

(** The vote of the peer at an index, 0 outside the list. *)
Definition power (peerList : list Peer.t) (i : Z) : Z :=
  match zlook peerList i with Some peer => Peer.Vote peer | None => 0 end.
Definition powerOf (peerList : list Peer.t) (l : list Z) : Z := zsum (map (power peerList) l).

Lemma power_nonneg peerList i : votesNonneg peerList -> 0 <= power peerList i.
Proof.
  intros H. unfold power. destruct (zlook peerList i) as [p|] eqn:E; [|lia].
  apply zlook_Some in E as [_ E]. unfold votesNonneg in H. rewrite Forall_lookup in H. by eapply H.
Qed.

Lemma allVotes_power peerList :
  allVotes peerList = powerOf peerList (map Z.of_nat (seq 0 (length peerList))).
Proof.
  unfold allVotes, powerOf. f_equal. apply list_eq. intros i. rewrite map_map, !list_lookup_fmap.
  destruct (peerList !! i) as [p|] eqn:E.
  - rewrite lookup_seq_lt by by eapply lookup_lt_Some. simpl. unfold power.
    by rewrite (proj2 (zlook_Some _ _ p)) by (rewrite Nat2Z.id; split; [lia|done]).
  - apply lookup_ge_None in E. by rewrite lookup_seq_ge.
Qed.

(** Distinct validators cannot have more power than there is. *)
Lemma powerOf_le peerList l :
  votesNonneg peerList -> NoDup l -> Forall (fun i => 0 <= i < zlen peerList) l ->
  powerOf peerList l <= allVotes peerList.
Proof.
  intros Hn Hnd Hr. rewrite allVotes_power. unfold powerOf.
  assert (l ⊆+ map Z.of_nat (seq 0 (length peerList))) as Hs.
  { apply NoDup_submseteq; [done|]. intros i Hi. rewrite Forall_forall in Hr.
    specialize (Hr i Hi). apply list_elem_of_fmap. exists (Z.to_nat i). split; [lia|].
    apply elem_of_seq. lia. }
  apply submseteq_Permutation in Hs as [k ->]. rewrite map_app, zsum_app.
  assert (0 <= zsum (map (power peerList) k)); [|lia].
  apply zsum_nonneg, Forall_fmap, Forall_forall. intros. simpl. by apply power_nonneg.
Qed.

(** Two quorums share validators with more than a third of the power. *)
Lemma quorum_overlap peerList l l' :
  votesNonneg peerList -> NoDup l -> NoDup l' ->
  Forall (fun i => 0 <= i < zlen peerList) l -> Forall (fun i => 0 <= i < zlen peerList) l' ->
  2 * allVotes peerList < 3 * powerOf peerList l ->
  2 * allVotes peerList < 3 * powerOf peerList l' ->
  exists both, NoDup both /\ allVotes peerList < 3 * powerOf peerList both /\
    forall i, i ∈ both -> i ∈ l /\ i ∈ l'.
Proof.
  intros Hn Hnd Hnd' Hr Hr' Hq Hq'.
  set (both := filter (fun i => i ∈ l') l). set (only := filter (fun i => i ∉ l') l).
  exists both. split; [by apply NoDup_filter|]. split; [|by intros i [? ?]%list_elem_of_filter].
  assert (powerOf peerList l = powerOf peerList both + powerOf peerList only) as Hsum.
  { unfold powerOf, both, only. rewrite <- zsum_app, <- map_app.
    by rewrite <- (filter_app_complement (fun i => i ∈ l') l) at 1. }
  assert (powerOf peerList (only ++ l') <= allVotes peerList) as Hle.
  { apply powerOf_le; [done| |].
    - apply NoDup_app. split; [by apply NoDup_filter|]. split; [|done].
      intros i Hi. by apply list_elem_of_filter in Hi as [? _].
    - apply Forall_app. split; [|done]. rewrite Forall_forall in Hr. apply Forall_forall.
      intros i [_ Hi]%list_elem_of_filter. auto. }
  unfold powerOf in Hle. rewrite map_app, zsum_app in Hle.
  assert (0 <= powerOf peerList only).
  { apply zsum_nonneg, Forall_fmap, Forall_forall. intros. simpl. by apply power_nonneg. }
  unfold powerOf in *. lia.
Qed.

(** The votes of a vector are the power of its set bits. *)
Lemma votesOf_setBits bv peerList :
  BV.Bits bv = zlen peerList -> votesOf bv peerList = powerOf peerList (map Z.of_nat (setBits bv)).
Proof.
  intros HB. unfold votesOf, setBits. rewrite HB, Nat2Z.id.
  assert (forall n i, (i + n = length peerList)%nat ->
    votesFrom bv (Z.of_nat i) (drop i peerList) =
    powerOf peerList (map Z.of_nat (filter (fun i => BV.bit bv (Z.of_nat i) = true) (seq i n)))) as HG.
  { induction n as [|n IH]; intros i Hi; cbn [seq].
    - by rewrite drop_ge by lia.
    - destruct (lookup_lt_is_Some_2 peerList i ltac:(lia)) as [p Hp].
      rewrite (drop_S _ _ _ Hp). cbn [votesFrom]. replace (Z.of_nat i + 1) with (Z.of_nat (S i)) by lia.
      rewrite IH by lia. rewrite filter_cons, HB. destruct (Z.ltb_spec (Z.of_nat i) (zlen peerList)); [|lia].
      destruct (decide (BV.bit bv (Z.of_nat i) = true)) as [Hb|Hb].
      + rewrite Hb. cbn [andb map]. unfold powerOf. cbn [map]. rewrite zsum_cons. f_equal.
        unfold power. by rewrite (proj2 (zlook_Some _ _ p)) by (rewrite Nat2Z.id; split; [lia|done]).
      + apply not_true_is_false in Hb. by rewrite Hb. }
  rewrite <- (HG (length peerList) 0%nat) by lia. by rewrite drop_0.
Qed.

Lemma setBits_range bv : Forall (fun i => 0 <= i < BV.Bits bv) (map Z.of_nat (setBits bv)).
Proof.
  apply Forall_fmap, Forall_forall. intros i [_ Hi%elem_of_seq]%list_elem_of_filter. simpl. lia.
Qed.

Lemma setBits_NoDup bv : NoDup (map Z.of_nat (setBits bv)).
Proof. apply (NoDup_fmap_2 Z.of_nat), NoDup_filter, NoDup_seq. Qed.

Lemma elem_of_setBits bv i :
  i ∈ map Z.of_nat (setBits bv) <-> 0 <= i < BV.Bits bv /\ BV.bit bv i = true.
Proof.
  rewrite list_elem_of_fmap. split.
  - intros (j & -> & [? Hj%elem_of_seq]%list_elem_of_filter). split; [lia|done].
  - intros [Hi Hb]. exists (Z.to_nat i). rewrite Z2Nat.id by lia. split; [done|].
    apply list_elem_of_filter. rewrite Z2Nat.id by lia. split; [done|]. apply elem_of_seq. lia.
Qed.

(** [x > total*2/3] in 32 bits is the strict two-thirds majority when doubling
    the total does not overflow. *)
Lemma two_thirds x total :
  0 <= total < 2 ^ 30 -> (x >? Z.quot (i32 (total * 2)) 3) = true <-> 2 * total < 3 * x.
Proof.
  intros Ht. rewrite wrap_s_small by (unfold in_s; lia). rewrite Z.quot_div_nonneg by lia.
  rewrite Z.gtb_lt. pose proof (Z.div_mod (total * 2) 3 ltac:(lia)).
  pose proof (Z.mod_pos_bound (total * 2) 3 ltac:(lia)). lia.
Qed.

(** [ProtoBytes] and [SignBytes] are injective. *)
Lemma MustProtoBytes_inj `{Codec M} (m n : M) b :
  MustProtoBytes m = Ok b -> MustProtoBytes n = Ok b -> m = n.
Proof.
  unfold MustProtoBytes. intros Hm Hn. destruct (Marshal m) eqn:Em, (Marshal n) eqn:En; try done.
  simpl in *. injection Hm as ->. injection Hn as ->.
  apply Unmarshal_Marshal in Em, En. congruence.
Qed.

(** A cross-shard commit that validates for a shard carries the signatures
    of strictly more than two thirds of the votes of the shard, on the acceptance
    of exactly this block and commit status. *)
Theorem ValidateVote_sound `{BLS, Codec pbCrossShardAccept} csc peerList verifier index shardVote :
  Forall (fun bv => forall b, bv = Some b -> BV.wf b) (CrossShardCommit.ValidatorBitVectorList csc) ->
  votesNonneg peerList -> shardVote = allVotes peerList -> shardVote < 2 ^ 30 ->
  CrossShardCommit.ValidateVote csc peerList verifier index shardVote = Ok None ->
  exists bv keys accept sig msg,
    zlook (CrossShardCommit.ValidatorBitVectorList csc) index = Some (Some bv) /\
    verifier = Some keys /\
    2 * shardVote < 3 * votesOf bv peerList /\ BV.Bits bv = zlen peerList /\ zlen keys = zlen peerList /\
    CrossShardCommit.getCrossShardAccept csc index 0 = Ok accept /\
    CrossShardAccept.SignBytes accept = Ok msg /\
    zlook (CrossShardCommit.AggregatedSignatureList csc) index = Some sig /\
    VerifyAggregateSignature keys sig msg (BV.Byte (Some bv)) = Ok true.
Proof.
  intros Hwf Hn -> Hb HV. unfold CrossShardCommit.ValidateVote in HV.
  apply gbind_Ok in HV as (bv & Ebv & HV). apply idx_Ok in Ebv.
  destruct (Z.eqb_spec (zlen peerList) 0); [done|].
  apply gbind_Ok in HV as (keys & Ek & HV). destruct verifier as [v|]; [|done]. injection Ek as ->.
  destruct (Z.eqb_spec (zlen peerList) (VerifierSize keys)) as [Es|]; [|done].
  destruct (Z.eqb_spec (zlen peerList) (BV.Size bv)) as [Esz|]; [|done]. cbn [negb] in HV.
  destruct bv as [bv|]; [|cbn in Esz; lia].
  assert (BV.wf bv) as Hbv.
  { apply zlook_Some in Ebv as [_ Ebv]. rewrite Forall_lookup in Hwf. by eapply Hwf. }
  pose proof (votesFrom_range bv 0 peerList Hn).
  rewrite tally_exact in HV by (done || lia). cbn [gbind] in HV.
  destruct (_ >? _) eqn:Eq; cbn [negb] in HV; [|by apply gbind_Ok in HV as (? & _ & ?)].
  apply two_thirds in Eq; [|lia].
  apply gbind_Ok in HV as (accept & Ea & HV). apply gbind_Ok in HV as (sig & Esig & HV).
  apply gbind_Ok in HV as (msg & Em & HV). apply gbind_Ok in HV as (valid & Ev & HV).
  destruct valid; cbn [negb] in HV; [|by apply gbind_Ok in HV as (? & _ & ?)].
  apply idx_Ok in Esig. exists bv, keys, accept, sig, msg. repeat split; try done.
Qed.

(** The signed bytes of a precommit determine its code, height, round and
    block hash, but neither the validator nor the signature. *)
Theorem Precommit_SignBytes_binds `{Codec pbPrecommit} p q :
  in_s 32 (Precommit.Round p) -> in_s 32 (Precommit.Round q) ->
  Precommit.SignBytes p <> Panic ->
  (Precommit.SignBytes p = Precommit.SignBytes q <->
   Precommit.VoteType p = Precommit.VoteType q /\ Precommit.Code p = Precommit.Code q /\
   Precommit.Height p = Precommit.Height q /\ Precommit.Round p = Precommit.Round q /\
   Precommit.BlockHeaderHash p = Precommit.BlockHeaderHash q).
Proof.
  intros Hp Hq HP. unfold Precommit.SignBytes in *. split.
  - intros E. destruct (MustProtoBytes (mkpbVote (Precommit.VoteType p) _ _ _ _ _ _)) as [b| |] eqn:Ep;
      [|done|by unfold MustProtoBytes in Ep; destruct (Marshal _)].
    pose proof (MustProtoBytes_inj _ _ b Ep (eq_sym E)) as [= E1 E2 E3 E4 E5].
    rewrite !wrap_s_small in E3 by (done || lia). done.
  - by intros (-> & -> & -> & -> & ->).
Qed.

(** A cross-shard commit with well-formed vectors is read back from its
    bytes unchanged. *)
Theorem CrossShardCommit_roundtrip `{Codec pbCrossShardCommit} c bz :
  Forall (fun bv => exists b, bv = Some b /\ BV.wf b) (CrossShardCommit.ValidatorBitVectorList c) ->
  CrossShardCommit.ProtoBytes c = Ok bz ->
  CrossShardCommit.NewCrossShardCommitFromBytes bz = Ok (Some c).
Proof.
  intros Hwf. unfold CrossShardCommit.ProtoBytes, MustProtoBytes.
  destruct (Marshal _) as [b|] eqn:Em; [|done]. intros [= ->].
  unfold CrossShardCommit.NewCrossShardCommitFromBytes. rewrite (Unmarshal_Marshal _ _ Em).
  unfold CrossShardCommit.NewCrossShardCommitFromProto. cbn [pbcc_bits CrossShardCommit.ToProto].
  rewrite (proj2 (go_mapM_Ok _ _ (CrossShardCommit.ValidatorBitVectorList c))).
  - cbn. by destruct c.
  - induction Hwf as [|? l (b & -> & Hb) _ IH]; cbn; constructor; [by apply BV.decode_Byte|done].
Qed.

(** ** Concrete evaluations *)

Module VotesDemo.
Import SignerDemo.
Local Open Scope string_scope.

Definition peers : list Peer.t :=
  [Peer.mk "ip1" ∅ "x" 1; Peer.mk "ip2" ∅ "xx" 1; Peer.mk "ip3" ∅ "xxx" 1].
Definition blockHash : bytes := replicate 32 Byte.x01.
Definition acceptMsg : CrossShardAccept.t :=
  CrossShardAccept.NewCrossShardAccept "upper" "shard-1" 3 blockHash (of_str "yes") 0.
Definition signMsg : pbCrossShardAccept :=
  mkpbCrossShardAccept VoteTypeCrossShardAccept "upper" "shard-1" (-1) 3 blockHash (of_str "yes") "".
Definition signMsgBytes : bytes := of_str "accept".
Definition acceptCodec : Codec pbCrossShardAccept :=
  tableCodec [(signMsg, signMsgBytes)] (NoDup_singleton _).
#[local] Existing Instance acceptCodec.
Definition aggregate : string :=
  match AggregateSignatures (map (fun k : nat => Sign_ (k : Signer) signMsgBytes) [1; 2; 3]%nat) with
  | Some s => s | None => "" end.
Definition vector3 : BV.t := BV.mk 3 [Byte.x07].
Definition commit : CrossShardCommit.t :=
  CrossShardCommit.mk VoteTypeCrossShardCommit "upper" 3 blockHash ["shard-1"] [aggregate]
    [Some vector3] [of_str "yes"].
Definition commitCodec : Codec pbCrossShardCommit :=
  tableCodec [(CrossShardCommit.ToProto commit, of_str "commit")] (NoDup_singleton _).

Lemma vector3_wf : BV.wf vector3.
Proof. vm_compute. split; congruence. Qed.

Lemma ValidateVote_sound_witness :
  exists bv keys accept sig msg,
    zlook (CrossShardCommit.ValidatorBitVectorList commit) 0 = Some (Some bv) /\
    Some verifier = Some keys /\
    2 * 3 < 3 * votesOf bv peers /\ BV.Bits bv = zlen peers /\ zlen keys = zlen peers /\
    CrossShardCommit.getCrossShardAccept commit 0 0 = Ok accept /\
    CrossShardAccept.SignBytes accept = Ok msg /\
    zlook (CrossShardCommit.AggregatedSignatureList commit) 0 = Some sig /\
    VerifyAggregateSignature keys sig msg (BV.Byte (Some bv)) = Ok true.
Proof.
  apply (ValidateVote_sound commit peers (Some verifier) 0 3).
  - apply Forall_cons; split; [intros b [= <-]; exact vector3_wf|constructor].
  - repeat constructor; simpl; lia.
  - reflexivity.
  - reflexivity.
  - vm_compute. reflexivity.
Defined.

Definition precommit1 : Precommit.t := Precommit.NewPrecommit 3 0 blockHash 1.
Definition precommit2 : Precommit.t := Precommit.NewPrecommit 3 0 blockHash 2.
Definition precommitBytes : bytes := of_str "precommit".
Definition precommitCodec : Codec pbPrecommit :=
  tableCodec [(mkpbVote VoteTypePrecommit (-1) 3 0 CodeTypeOK blockHash "", precommitBytes)]
    (NoDup_singleton _).

Lemma Precommit_SignBytes_binds_witness :
  @Precommit.SignBytes precommitCodec precommit1 = @Precommit.SignBytes precommitCodec precommit2.
Proof.
  apply (@Precommit_SignBytes_binds precommitCodec precommit1 precommit2).
  - vm_compute. split; congruence.
  - vm_compute. split; congruence.
  - vm_compute. congruence.
  - repeat split.
Defined.

Lemma CrossShardCommit_roundtrip_witness :
  @CrossShardCommit.NewCrossShardCommitFromBytes commitCodec (of_str "commit") = Ok (Some commit).
Proof.
  apply (@CrossShardCommit_roundtrip commitCodec commit).
  - apply Forall_cons; split; [|constructor]. exists vector3. split; [reflexivity|exact vector3_wf].
  - vm_compute. reflexivity.
Defined.
End VotesDemo.
