(* ===== verification/CSASet.v ===== *)
(** * The acceptances of one lower shard: [melete/consensus/constypes/cas_set.go]

    A [CSAShardSet] collects the [CrossShardAccept] votes of the validators of
    one shard, grouped by commit status, and remembers the commit status that
    more than two thirds of the voting power signed. *)

From S2P Require Import Prelude BitVector Hash Wire Types PartSet Signer Votes.
Local Open Scope Z_scope.

Module CSAShardSet.

(** The keys of the maps are the strings of the commit statuses; a nil
    [Maj23CommitStatus] is [None]. *)
Record t `{BLS} := mk {
  ValSet : option Verifier; PeerList : list Peer.t; TotalVotingPower : Z; Height : Z;
  ChainID : string; SigMap : gmap bytes (list CrossShardAccept.t); KeyVotePower : gmap bytes Z;
  IndexSeen : gmap Z bytes; HasMaj23Flag : bool; Maj23Key : bytes;
  Maj23CommitStatus : option bytes }.

Section csa.
Context `{BLS, !Codec pbCrossShardAccept}.

Definition NewCSAShardSet (h : Z) (chain_id : string) (peerList : list Peer.t)
    (valSet : option Verifier) : t :=
  let totalVotingPower := fold_left (fun v peer => i32 (v + Peer.Vote peer)) peerList 0 in
  mk _ valSet peerList totalVotingPower h chain_id ∅ ∅ ∅ false [] None.

Definition HasMaj23 (s : t) : bool := HasMaj23Flag s.

Definition sigs (s : t) (k : bytes) : list CrossShardAccept.t := default [] (SigMap s !! k).
Definition votePower (s : t) (k : bytes) : Z := default 0 (KeyVotePower s !! k).

(** The state after the vote is recorded, before the majority is looked at. *)
Definition record (s : t) (csa : CrossShardAccept.t) (vote : Z) : t :=
  let csaKey := CrossShardAccept.CommitStatus csa in
  mk _ (ValSet s) (PeerList s) (TotalVotingPower s) (Height s) (ChainID s)
    (<[csaKey := sigs s csaKey ++ [csa]]> (SigMap s))
    (<[csaKey := i32 (votePower s csaKey + vote)]> (KeyVotePower s))
    (<[CrossShardAccept.ValidatorIndex csa := CrossShardAccept.BlockHeaderHash csa]> (IndexSeen s))
    (HasMaj23Flag s) (Maj23Key s) (Maj23CommitStatus s).

Definition setMaj23 (s : t) (csaKey : bytes) : t :=
  mk _ (ValSet s) (PeerList s) (TotalVotingPower s) (Height s) (ChainID s) (SigMap s)
    (KeyVotePower s) (IndexSeen s) true csaKey (Some csaKey).

Definition AddCSA (s : t) (csa : CrossShardAccept.t) : go (t * option goerr) :=
  match IndexSeen s !! CrossShardAccept.ValidatorIndex csa with
  | Some u =>
      if bool_decide (u = CrossShardAccept.BlockHeaderHash csa) then Ok (s, None)
      else Ok (s, Some (Errorf "Repeat CrorssShardAccept to different blocks, Byzantine nodes"))
  | None =>
    if negb (CrossShardAccept.Height csa =? Height s) then
      Ok (s, Some (Errorf "CrossShardAccept include invalid height"))
    else if negb (bool_decide (CrossShardAccept.AcceptChainID csa = ChainID s)) then
      Ok (s, Some (Errorf "CrossShardAccept include invalid chain_id"))
    else
      let index := CrossShardAccept.ValidatorIndex csa in
      let! out := (if index <? 0 then Ok true
                   else let! vs := deref (ValSet s) in Ok (index >=? VerifierSize vs)) in
      if out then Ok (s, Some (Errorf "CrossShardAccept invalid ValidatorIndex"))
      else
        let! vs := deref (ValSet s) in
        let! msg := CrossShardAccept.SignBytes csa in
        let! valid := Verify vs (CrossShardAccept.Signature csa) msg index in
        if negb valid then Ok (s, Some (Errorf "CrossShardAccept Signature Error"))
        else
          let! peer := idx (PeerList s) index in
          let csaKey := CrossShardAccept.CommitStatus csa in
          let s := record s csa (Peer.Vote peer) in
          if votePower s csaKey >? Z.quot (i32 (TotalVotingPower s * 2)) 3 then
            if HasMaj23 s && negb (bool_decide (Maj23Key s = csaKey)) then
              Ok (s, Some (Errorf "There are two 2f+1 voting sets, there is ambiguity"))
            else Ok (setMaj23 s csaKey, None)
          else Ok (s, None)
  end.

Definition GetMaj23 (s : t) : option bytes * list CrossShardAccept.t :=
  if negb (HasMaj23 s) then (None, [])
  else (Maj23CommitStatus s, sigs s (Maj23Key s)).

(** ** Invariant *)

Definition indices (l : list CrossShardAccept.t) : list Z := map CrossShardAccept.ValidatorIndex l.

(** What is checked of a recorded vote. *)
Record recorded (s : t) (k : bytes) (csa : CrossShardAccept.t) : Prop := {
  rec_status : CrossShardAccept.CommitStatus csa = k;
  rec_height : CrossShardAccept.Height csa = Height s;
  rec_chain : CrossShardAccept.AcceptChainID csa = ChainID s;
  rec_index : 0 <= CrossShardAccept.ValidatorIndex csa < zlen (PeerList s);
  rec_seen : is_Some (IndexSeen s !! CrossShardAccept.ValidatorIndex csa);
  rec_signed : exists vs msg, ValSet s = Some vs /\ CrossShardAccept.SignBytes csa = Ok msg /\
    Verify vs (CrossShardAccept.Signature csa) msg (CrossShardAccept.ValidatorIndex csa) = Ok true
}.

Definition twoThirds (s : t) (k : bytes) : Prop :=
  2 * TotalVotingPower s < 3 * powerOf (PeerList s) (indices (sigs s k)).

Record core (s : t) : Prop := {
  wf_val : exists vs, ValSet s = Some vs /\ length vs = length (PeerList s);
  wf_votes : votesNonneg (PeerList s);
  wf_total : TotalVotingPower s = allVotes (PeerList s);
  wf_bound : TotalVotingPower s < 2 ^ 30;
  wf_power k : votePower s k = powerOf (PeerList s) (indices (sigs s k));
  wf_sig k csa : csa ∈ sigs s k -> recorded s k csa;
  wf_nodup k : NoDup (indices (sigs s k));
  wf_disjoint k k' i : k <> k' -> i ∈ indices (sigs s k) -> i ∉ indices (sigs s k')
}.

Record wf (s : t) : Prop := {
  wf_core : core s;
  wf_maj : HasMaj23Flag s = true -> Maj23CommitStatus s = Some (Maj23Key s) /\ twoThirds s (Maj23Key s);
  wf_nomaj k : HasMaj23Flag s = false -> ~ twoThirds s k
}.

Lemma indices_range s k : core s -> Forall (fun i => 0 <= i < zlen (PeerList s)) (indices (sigs s k)).
Proof.
  intros Hwf. apply Forall_fmap, Forall_forall. intros csa Hin. by apply (wf_sig s Hwf k).
Qed.

Lemma power_bound s k : core s -> 0 <= powerOf (PeerList s) (indices (sigs s k)) <= TotalVotingPower s.
Proof.
  intros Hwf. rewrite (wf_total s Hwf). split.
  - apply zsum_nonneg, Forall_fmap, Forall_forall. intros. simpl. apply power_nonneg, Hwf.
  - apply powerOf_le; [apply Hwf|apply Hwf|by apply indices_range].
Qed.

(** Two different commit statuses cannot both have two thirds. *)
Lemma twoThirds_unique s k k' : core s -> twoThirds s k -> twoThirds s k' -> k = k'.
Proof.
  intros Hwf H1 H2. destruct (decide (k = k')) as [|Hne]; [done|]. exfalso.
  assert (powerOf (PeerList s) (indices (sigs s k) ++ indices (sigs s k')) <= allVotes (PeerList s)) as Hle.
  { apply powerOf_le; [apply Hwf| |apply Forall_app; split; by apply indices_range].
    apply NoDup_app. split; [apply Hwf|]. split; [|apply Hwf].
    intros i Hi. by eapply (wf_disjoint s Hwf). }
  unfold powerOf in Hle. rewrite map_app, zsum_app in Hle.
  unfold twoThirds, powerOf in *. rewrite (wf_total s Hwf) in *.
  pose proof (power_bound s k Hwf). rewrite (wf_total s Hwf) in *. unfold powerOf in *. lia.
Qed.

Lemma NewCSAShardSet_wf h chain_id peerList vs :
  length vs = length peerList -> votesNonneg peerList -> allVotes peerList < 2 ^ 30 ->
  wf (NewCSAShardSet h chain_id peerList (Some vs)).
Proof.
  intros Hl Hn Hb. assert (forall l acc, votesNonneg l -> 0 <= acc -> acc + allVotes l < 2 ^ 30 ->
    fold_left (fun v peer => i32 (v + Peer.Vote peer)) l acc = acc + allVotes l) as HF.
  { clear. intros l. induction l as [|p l IH]; intros acc Hn Ha Hs; cbn [fold_left].
    - cbn. lia.
    - apply Forall_cons in Hn as [Hp Hn]. unfold allVotes in *. cbn [map] in *. rewrite zsum_cons in *.
      assert (0 <= zsum (map Peer.Vote l)) by (by apply zsum_nonneg, Forall_fmap).
      rewrite wrap_s_small by (unfold in_s; lia). rewrite IH by (done || lia). lia. }
  assert (0 <= allVotes peerList) by (unfold allVotes; by apply zsum_nonneg, Forall_fmap).
  assert (TotalVotingPower (NewCSAShardSet h chain_id peerList (Some vs)) = allVotes peerList) as HT.
  { cbn. rewrite HF by (done || lia). lia. }
  split; [split; rewrite ?HT; try done|done|].
  - by exists vs.
  - intros k csa Hin. by apply not_elem_of_nil in Hin.
  - intros k. constructor.
  - intros k k' i _ Hi. by apply not_elem_of_nil in Hi.
  - intros k _. unfold twoThirds. rewrite HT.
    change (powerOf _ _) with 0. lia.
Qed.
(** ** Adding a vote *)

Lemma sigs_record s csa v k :
  sigs (record s csa v) k =
  if decide (k = CrossShardAccept.CommitStatus csa) then sigs s k ++ [csa] else sigs s k.
Proof.
  unfold record. unfold sigs at 1. cbn [SigMap]. case_decide as Hk.
  - subst. by rewrite lookup_insert_eq.
  - by rewrite lookup_insert_ne.
Qed.

Lemma votePower_record s csa v k :
  votePower (record s csa v) k =
  if decide (k = CrossShardAccept.CommitStatus csa) then i32 (votePower s k + v) else votePower s k.
Proof.
  unfold record. unfold votePower at 1. cbn [KeyVotePower]. case_decide as Hk.
  - subst. by rewrite lookup_insert_eq.
  - by rewrite lookup_insert_ne.
Qed.

Lemma recorded_mono s s' k csa :
  PeerList s' = PeerList s -> Height s' = Height s -> ChainID s' = ChainID s ->
  ValSet s' = ValSet s -> (forall i, is_Some (IndexSeen s !! i) -> is_Some (IndexSeen s' !! i)) ->
  recorded s k csa -> recorded s' k csa.
Proof. intros E1 E2 E3 E4 HS []. split; rewrite ?E1, ?E2, ?E3, ?E4; auto. Qed.

(** What a vote must satisfy to be recorded. *)
Record votable (s : t) (csa : CrossShardAccept.t) (vote : Z) : Prop := {
  v_fresh : IndexSeen s !! CrossShardAccept.ValidatorIndex csa = None;
  v_height : CrossShardAccept.Height csa = Height s;
  v_chain : CrossShardAccept.AcceptChainID csa = ChainID s;
  v_index : 0 <= CrossShardAccept.ValidatorIndex csa < zlen (PeerList s);
  v_power : power (PeerList s) (CrossShardAccept.ValidatorIndex csa) = vote;
  v_signed : exists vs msg, ValSet s = Some vs /\ CrossShardAccept.SignBytes csa = Ok msg /\
    Verify vs (CrossShardAccept.Signature csa) msg (CrossShardAccept.ValidatorIndex csa) = Ok true
}.

Lemma fresh_index s csa k :
  core s -> IndexSeen s !! CrossShardAccept.ValidatorIndex csa = None ->
  CrossShardAccept.ValidatorIndex csa ∉ indices (sigs s k).
Proof.
  intros Hwf Hf Hin. apply list_elem_of_fmap in Hin as (csa' & Hi & Hin).
  pose proof (rec_seen _ _ _ (wf_sig s Hwf k csa' Hin)) as [u Hu]. rewrite <- Hi in Hu. congruence.
Qed.

Lemma record_core s csa vote : core s -> votable s csa vote -> core (record s csa vote).
Proof.
  intros Hwf Hv. set (i := CrossShardAccept.ValidatorIndex csa).
  assert (forall k, i ∉ indices (sigs s k)) as Hfresh by (intros k; by apply fresh_index, Hv).
  assert (forall k, NoDup (indices (sigs (record s csa vote) k))) as Hnd.
  { intros k. rewrite sigs_record. case_decide; [|apply Hwf]. unfold indices. rewrite map_app.
    apply NoDup_app. split; [apply Hwf|]. split; [|apply NoDup_singleton].
    intros j Hj Hji. apply list_elem_of_singleton in Hji as ->. by apply (Hfresh k). }
  assert (forall k, Forall (fun i => 0 <= i < zlen (PeerList s)) (indices (sigs (record s csa vote) k))) as Hr.
  { intros k. rewrite sigs_record. case_decide; [|by apply indices_range]. unfold indices. rewrite map_app.
    apply Forall_app. split; [by apply indices_range|]. constructor; [apply Hv|constructor]. }
  split; try apply Hwf.
  - intros k. rewrite votePower_record. pose proof (Hr k) as Hrk. pose proof (Hnd k) as Hndk.
    rewrite sigs_record in *. case_decide as Hk; [|apply Hwf].
    pose proof (powerOf_le (PeerList s) _ (wf_votes s Hwf) Hndk Hrk) as Hle.
    unfold indices, powerOf in *. rewrite !map_app, zsum_app in *. cbn [map] in *.
    rewrite zsum_cons in *. cbn [zsum foldr] in *. rewrite (v_power _ _ _ Hv) in *.
    rewrite (wf_power s Hwf). unfold powerOf, indices. cbn [PeerList record].
    pose proof (power_bound s k Hwf) as Hb. unfold powerOf, indices in Hb.
    pose proof (wf_bound s Hwf). rewrite (wf_total s Hwf) in *.
    pose proof (power_nonneg (PeerList s) i (wf_votes s Hwf)) as Hp.
    unfold i in Hp. rewrite (v_power _ _ _ Hv) in Hp.
    rewrite (v_power _ _ _ Hv). rewrite wrap_s_small by (unfold in_s; lia). lia.
  - intros k csa' Hin. rewrite sigs_record in Hin.
    assert (csa' ∈ sigs s k \/ csa' = csa /\ k = CrossShardAccept.CommitStatus csa) as [Ho|[-> ->]].
    { case_decide; [|by left]. apply elem_of_app in Hin as [|Hin]; [by left|right].
      by apply list_elem_of_singleton in Hin. }
    + eapply recorded_mono; [..|by apply Hwf]; try done.
      intros j Hj. cbn. destruct (decide (CrossShardAccept.ValidatorIndex csa = j)) as [<-|];
        [by rewrite lookup_insert_eq|].
      by rewrite lookup_insert_ne.
    + destruct Hv. split; try done. cbn. by rewrite lookup_insert_eq.
  - exact Hnd.
  - intros k k' j Hne Hj Hj'. rewrite sigs_record in Hj, Hj'.
    destruct (decide (k = CrossShardAccept.CommitStatus csa)) as [Hk|Hk],
      (decide (k' = CrossShardAccept.CommitStatus csa)) as [Hk'|Hk']; [congruence|..].
    + unfold indices in Hj. rewrite map_app in Hj. apply elem_of_app in Hj as [Hj|Hj].
      * by apply (wf_disjoint s Hwf k k' j).
      * apply list_elem_of_singleton in Hj as ->. by apply (Hfresh k').
    + unfold indices in Hj'. rewrite map_app in Hj'. apply elem_of_app in Hj' as [Hj'|Hj'].
      * by apply (wf_disjoint s Hwf k k' j).
      * apply list_elem_of_singleton in Hj' as ->. by apply (Hfresh k).
    + by apply (wf_disjoint s Hwf k k' j).
Qed.

Lemma setMaj23_core s k : core s -> core (setMaj23 s k).
Proof.
  intros Hwf. split; try apply Hwf. intros k' csa Hin.
  eapply recorded_mono; [..|by apply Hwf]; done.
Qed.

Lemma votePower_twoThirds s k :
  core s -> (votePower s k >? Z.quot (i32 (TotalVotingPower s * 2)) 3) = true <-> twoThirds s k.
Proof.
  intros Hc. pose proof (power_bound s k Hc). pose proof (wf_bound s Hc).
  rewrite two_thirds by lia. unfold twoThirds. by rewrite (wf_power s Hc).
Qed.

(** The outcome of a vote that is recorded: the majority is noticed. *)
Lemma record_maj s csa vote :
  wf s -> votable s csa vote ->
  let s1 := record s csa vote in
  let csaKey := CrossShardAccept.CommitStatus csa in
  if votePower s1 csaKey >? Z.quot (i32 (TotalVotingPower s1 * 2)) 3 then
    (HasMaj23 s1 && negb (bool_decide (Maj23Key s1 = csaKey))) = false /\ wf (setMaj23 s1 csaKey)
  else wf s1.
Proof.
  intros Hwf Hv s1 csaKey. pose proof (record_core s csa vote (wf_core s Hwf) Hv) as Hc.
  assert (forall k, twoThirds s k -> twoThirds s1 k) as Hmono.
  { intros k. unfold twoThirds, s1. rewrite sigs_record. case_decide; [|done].
    unfold indices, powerOf. rewrite !map_app, zsum_app. cbn [map PeerList TotalVotingPower record].
    rewrite zsum_cons. pose proof (power_nonneg (PeerList s) (CrossShardAccept.ValidatorIndex csa)
      (wf_votes s (wf_core s Hwf))). cbn [zsum foldr]. lia. }
  assert (HasMaj23Flag s = true -> twoThirds s1 (Maj23Key s)) as Hmaj
    by (intros Hf; by apply Hmono, (wf_maj s Hwf)).
  destruct (_ >? _) eqn:Eq.
  - apply votePower_twoThirds in Eq; [|done]. split.
    + unfold HasMaj23. destruct (HasMaj23Flag s1) eqn:Ef; [|done]. cbn [andb].
      rewrite bool_decide_true; [done|]. eapply twoThirds_unique; [done|by apply Hmaj|done].
    + split; [by apply setMaj23_core|done|done].
  - assert (~ twoThirds s1 csaKey) as Hn.
    { intros Ht%votePower_twoThirds; [|done]. congruence. }
    split; [done|..].
    + intros Hf. split; [by apply (wf_maj s Hwf)|by apply Hmaj].
    + intros k Hf Ht. destruct (decide (k = csaKey)) as [->|Hne]; [done|].
      apply (wf_nomaj s Hwf k Hf). unfold twoThirds, s1 in Ht. rewrite sigs_record in Ht.
      by rewrite decide_False in Ht.
Qed.

(** What the node checks of a vote, and which votes it counts: of every validator
    the first that passes. *)
Definition valid (h : Z) (chain_id : string) (vs : Verifier) (csa : CrossShardAccept.t) : bool :=
  let index := CrossShardAccept.ValidatorIndex csa in
  (CrossShardAccept.Height csa =? h) && bool_decide (CrossShardAccept.AcceptChainID csa = chain_id) &&
  (0 <=? index) && (index <? zlen vs) &&
  match CrossShardAccept.SignBytes csa with
  | Ok msg => match Verify vs (CrossShardAccept.Signature csa) msg index with Ok b => b | _ => false end
  | _ => false
  end.
Definition count1 (h : Z) (chain_id : string) (vs : Verifier) (l : list CrossShardAccept.t) (csa : CrossShardAccept.t) :
    list CrossShardAccept.t :=
  if valid h chain_id vs csa && negb (bool_decide (CrossShardAccept.ValidatorIndex csa ∈ indices l)) then l ++ [csa] else l.
Definition counted (h : Z) (chain_id : string) (vs : Verifier) (csas : list CrossShardAccept.t) : list CrossShardAccept.t :=
  fold_left (count1 h chain_id vs) csas [].
Definition votesFor (status : bytes) (l : list CrossShardAccept.t) : list CrossShardAccept.t :=
  List.filter (fun csa => bool_decide (CrossShardAccept.CommitStatus csa = status)) l.

(** The set stands for the counted votes [l]. *)
Record tallies (h : Z) (chain_id : string) (peers : list Peer.t) (vs : Verifier) (s : t) (l : list CrossShardAccept.t) : Prop := {
  ta_wf : wf s;
  ta_height : Height s = h;
  ta_chain : ChainID s = chain_id;
  ta_peers : PeerList s = peers;
  ta_val : ValSet s = Some vs;
  ta_sigs k : sigs s k = votesFor k l;
  ta_seen i : is_Some (IndexSeen s !! i) <-> i ∈ indices l
}.

Lemma votesFor_snoc k l csa : votesFor k (l ++ [csa]) =
  if decide (k = CrossShardAccept.CommitStatus csa) then votesFor k l ++ [csa] else votesFor k l.
Proof.
  unfold votesFor. rewrite List.filter_app. cbn. case_decide as Hk.
  - by rewrite bool_decide_true.
  - rewrite bool_decide_false by congruence. apply app_nil_r.
Qed.
Lemma tallies_record h chain_id peers vs s s' l csa vote : tallies h chain_id peers vs s l ->
  wf s' -> Height s' = Height s -> ChainID s' = ChainID s -> PeerList s' = PeerList s -> ValSet s' = ValSet s ->
  SigMap s' = SigMap (record s csa vote) -> IndexSeen s' = IndexSeen (record s csa vote) ->
  tallies h chain_id peers vs s' (l ++ [csa]).
Proof.
  intros [W E1 E2 E3 E4 Hs Hi] W' F1 F2 F3 F4 ES EI. split; try done; try congruence.
  - intros k. assert (sigs s' k = sigs (record s csa vote) k) as -> by (unfold sigs; by rewrite ES).
    rewrite sigs_record, votesFor_snoc, Hs. done.
  - intros i. unfold indices. rewrite map_app, elem_of_app. cbn [map]. rewrite list_elem_of_singleton, EI. cbn [IndexSeen record].
    fold (indices l). rewrite <- Hi. destruct (decide (i = CrossShardAccept.ValidatorIndex csa)) as [->|Hne].
    + rewrite lookup_insert_eq. split; [by right|by eexists].
    + rewrite lookup_insert_ne by congruence. tauto.
Qed.

Lemma Verify_ends vs sig msg i : 0 <= i < zlen vs -> exists b, Verify vs sig msg i = Ok b.
Proof.
  intros Hi. unfold Verify. rewrite Z.geb_leb. destruct (Z.leb_spec (zlen vs) i); [lia|].
  destruct (idx_total vs i Hi) as (pk & E & _). rewrite E. cbn. destruct pk; [|by eexists].
  destruct (sigDeserialize _); by eexists.
Qed.

(** One vote: it is recorded, or the set stays as it was. *)
Definition recordedIn (s s' : t) (csa : CrossShardAccept.t) : Prop :=
  Height s' = Height s /\ ChainID s' = ChainID s /\ PeerList s' = PeerList s /\ ValSet s' = ValSet s /\
  exists vote, SigMap s' = SigMap (record s csa vote) /\ IndexSeen s' = IndexSeen (record s csa vote).
Lemma AddCSA_outcome s vs csa msg : wf s -> ValSet s = Some vs -> CrossShardAccept.SignBytes csa = Ok msg ->
  exists s' err, AddCSA s csa = Ok (s', err) /\ wf s' /\
    err <> Some (Errorf "There are two 2f+1 voting sets, there is ambiguity") /\
    if valid (Height s) (ChainID s) vs csa && bool_decide (IndexSeen s !! CrossShardAccept.ValidatorIndex csa = None)
    then recordedIn s s' csa else s' = s.
Proof.
  intros Hwf Evs Hmsg. destruct (wf_val s (wf_core s Hwf)) as (vs' & E & Hvs). rewrite Evs in E. injection E as <-.
  unfold AddCSA, valid. rewrite Hmsg, Evs. set (i := CrossShardAccept.ValidatorIndex csa) in *.
  destruct (IndexSeen s !! i) as [u|] eqn:Eu.
  { rewrite (bool_decide_false (Some u = None)) by done. rewrite andb_false_r. case_bool_decide; eexists s, _; done. }
  rewrite (bool_decide_true (None = None)) by done. rewrite andb_true_r.
  destruct (CrossShardAccept.Height csa =? Height s) eqn:Eh; [|eexists s, _; done].
  case_bool_decide as Ec; [|eexists s, _; done]. cbn [negb andb deref gbind]. unfold VerifierSize.
  destruct (Z.ltb_spec i 0) as [|Hi0].
  { rewrite (proj2 (Z.leb_gt 0 i)) by lia. eexists s, _; done. }
  rewrite (proj2 (Z.leb_le 0 i)) by lia. cbn [gbind andb]. rewrite Z.geb_leb.
  destruct (Z.leb_spec (zlen vs) i) as [|Hi2].
  { rewrite (proj2 (Z.ltb_ge i (zlen vs))) by lia. eexists s, _; done. }
  rewrite (proj2 (Z.ltb_lt i (zlen vs))) by lia. cbn [andb gbind].
  destruct (Verify_ends vs (CrossShardAccept.Signature csa) msg i) as [b EV]; [lia|]. rewrite EV. cbn [gbind].
  destruct b; cbn [negb]; [|eexists s, _; done].
  destruct (idx_total (PeerList s) i) as (peer & Ep & Ep'); [lia|]. rewrite Ep. cbn [gbind].
  assert (votable s csa (Peer.Vote peer)) as Hv.
  { split; fold i; try done; [by apply Z.eqb_eq|lia| |by exists vs, msg].
    unfold power. apply idx_Ok in Ep. by rewrite Ep. }
  pose proof (record_maj s csa (Peer.Vote peer) Hwf Hv) as Hm. cbv zeta in Hm.
  destruct (_ >? _); [destruct Hm as [-> Hm]|]; eexists _, _; (split; [done|]; split; [done|]; split; [done|]);
    (repeat (split; [done|])); by exists (Peer.Vote peer).
Qed.

Lemma AddCSA_ok s csa msg :
  wf s -> CrossShardAccept.SignBytes csa = Ok msg ->
  exists s' err, AddCSA s csa = Ok (s', err) /\ wf s' /\
    err <> Some (Errorf "There are two 2f+1 voting sets, there is ambiguity").
Proof.
  intros Hwf Hmsg. destruct (wf_val s (wf_core s Hwf)) as (vs & Evs & _).
  destruct (AddCSA_outcome s vs csa msg Hwf Evs Hmsg) as (s' & err & E & W & Hn & _). eauto.
Qed.

Lemma AddCSA_tallies h chain_id peers vs s l csa msg :
  tallies h chain_id peers vs s l -> CrossShardAccept.SignBytes csa = Ok msg ->
  exists s' err, AddCSA s csa = Ok (s', err) /\ tallies h chain_id peers vs s' (count1 h chain_id vs l csa).
Proof.
  intros T Hmsg. pose proof T as [Hwf E1 E2 E3 E4 Hs Hi].
  destruct (AddCSA_outcome s vs csa msg Hwf E4 Hmsg) as (s' & err & E & W & _ & Ho). exists s', err. split; [exact E|].
  unfold count1. rewrite E1, E2 in Ho.
  assert (negb (bool_decide (CrossShardAccept.ValidatorIndex csa ∈ indices l)) =
          bool_decide (IndexSeen s !! CrossShardAccept.ValidatorIndex csa = None)) as ->.
  { rewrite <- bool_decide_not. apply bool_decide_ext. rewrite <- Hi, eq_None_not_Some. done. }
  destruct (_ && _); [|by rewrite Ho]. destruct Ho as (F1 & F2 & F3 & F4 & vote & F5 & F6). by eapply tallies_record.
Qed.

(** The votes that a node receives one after the other; their errors are reported. *)
Definition AddAll (s : t) (csas : list CrossShardAccept.t) : go t :=
  go_foldl (fun s csa => let! '(s, _) := AddCSA s csa in Ok s) s csas.

Lemma AddAll_tallies h chain_id peers vs csas : forall s l, tallies h chain_id peers vs s l ->
  Forall (fun csa => exists msg, CrossShardAccept.SignBytes csa = Ok msg) csas ->
  exists s', AddAll s csas = Ok s' /\ tallies h chain_id peers vs s' (fold_left (count1 h chain_id vs) csas l).
Proof.
  induction csas as [|csa csas IH]; intros s l T Hm; [by exists s|]. apply Forall_cons in Hm as [[msg Hmsg] Hm].
  destruct (AddCSA_tallies _ _ _ _ _ _ csa msg T Hmsg) as (s1 & err & E & T1).
  unfold AddAll. cbn [go_foldl fold_left]. rewrite E. cbn [gbind]. by apply IH.
Qed.

Lemma New_tallies h chain_id peers vs : length vs = length peers -> votesNonneg peers -> allVotes peers < 2 ^ 30 ->
  tallies h chain_id peers vs (NewCSAShardSet h chain_id peers (Some vs)) [].
Proof.
  intros Hl Hn Hb. split; try done; [by apply NewCSAShardSet_wf|]. intros i. cbn. rewrite lookup_empty.
  split; [by intros [? ?]|by intros ?%elem_of_nil].
Qed.

(** Adding a vote whose signed bytes can be encoded to a well-formed set
    does not panic and leaves a well-formed set; the error for two majorities
    is unreachable. *)
Theorem AddCSA_invariant s csa msg :
  wf s -> CrossShardAccept.SignBytes csa = Ok msg ->
  exists s' err, AddCSA s csa = Ok (s', err) /\ wf s' /\
    err <> Some (Errorf "There are two 2f+1 voting sets, there is ambiguity").
Proof. exact (AddCSA_ok s csa msg). Qed.

(** The votes of [GetMaj23]: distinct validators with more than two thirds of
    the power, each with a verified signature for the reported status. *)
Definition quorumFor (s : t) (status : bytes) (votes : list CrossShardAccept.t) : Prop :=
  NoDup (indices votes) /\ 2 * allVotes (PeerList s) < 3 * powerOf (PeerList s) (indices votes) /\
  Forall (recorded s status) votes.

Lemma GetMaj23_quorum s : wf s ->
  match GetMaj23 s with
  | (Some status, votes) => HasMaj23 s = true /\ quorumFor s status votes
  | (None, votes) => HasMaj23 s = false /\ votes = [] /\ forall k, ~ twoThirds s k
  end.
Proof.
  intros Hwf. unfold GetMaj23, HasMaj23. destruct (HasMaj23Flag s) eqn:Ef; cbn [negb].
  - destruct (wf_maj s Hwf Ef) as [-> Ht]. split; [done|]. unfold twoThirds in Ht.
    rewrite (wf_total s (wf_core s Hwf)) in Ht. split; [apply (wf_core s Hwf)|]. split; [done|].
    apply Forall_forall. intros csa. apply (wf_core s Hwf).
  - split; [done|]. split; [done|]. intros k. by apply (wf_nomaj s Hwf).
Qed.

(** C19: a node counts of every validator the first vote that is for its height and
    shard and carries the validator's signature, whatever votes it receives, in
    whatever order (no vote is negative, and all are less than 2^30). [GetMaj23] returns a commit status and exactly the counted votes
    for it if these have more than two thirds of the power, and nothing exactly
    when no commit status has. *)
Theorem GetMaj23_sound h chain_id peers vs csas :
  length vs = length peers -> votesNonneg peers -> allVotes peers < 2 ^ 30 ->
  Forall (fun csa => exists msg, CrossShardAccept.SignBytes csa = Ok msg) csas ->
  let l := counted h chain_id vs csas in
  let enough status := 2 * allVotes peers < 3 * powerOf peers (indices (votesFor status l)) in
  exists s, AddAll (NewCSAShardSet h chain_id peers (Some vs)) csas = Ok s /\
    match GetMaj23 s with
    | (Some status, votes) => votes = votesFor status l /\ enough status /\ NoDup (indices votes)
    | (None, votes) => votes = [] /\ forall status, ~ enough status
    end.
Proof.
  intros Hl Hn Hb Hm l enough. destruct (AddAll_tallies h chain_id peers vs csas _ _ (New_tallies h chain_id peers vs Hl Hn Hb) Hm)
    as (s & E & [W E1 E2 E3 E4 Hs Hi]). fold (counted h chain_id vs csas) in Hs. fold l in Hs. exists s. split; [exact E|].
  pose proof (wf_total s (wf_core s W)) as Ht. pose proof (GetMaj23_quorum s W) as Hq. unfold quorumFor, twoThirds in Hq.
  destruct (GetMaj23 s) as [[status|] votes] eqn:Eg.
  - destruct Hq as (Hf & Hnd & Hp & _). rewrite E3 in Hp. unfold GetMaj23 in Eg. rewrite Hf in Eg. cbn [negb] in Eg.
    injection Eg as Em <-. destruct (wf_maj s W Hf) as [Em' _]. rewrite Em in Em'. injection Em' as ->.
    rewrite Hs in *. by split_and!.
  - destruct Hq as (_ & -> & Hq). split; [done|]. intros status He. apply (Hq status). rewrite Hs, Ht, E3. exact He.
Qed.

(** If two nodes find majorities for different commit statuses of the same
    shard, validators with at least a third of its power signed both. *)
Theorem conflicting_majorities s s' status status' votes votes' :
  wf s -> wf s' -> PeerList s = PeerList s' ->
  GetMaj23 s = (Some status, votes) -> GetMaj23 s' = (Some status', votes') ->
  status <> status' ->
  exists byzantine, NoDup byzantine /\ allVotes (PeerList s) < 3 * powerOf (PeerList s) byzantine /\
    forall i, i ∈ byzantine -> exists csa csa',
      csa ∈ votes /\ csa' ∈ votes' /\ CrossShardAccept.ValidatorIndex csa = i /\
      CrossShardAccept.ValidatorIndex csa' = i /\
      CrossShardAccept.CommitStatus csa <> CrossShardAccept.CommitStatus csa'.
Proof.
  intros Hwf Hwf' EP E E' Hne.
  pose proof (GetMaj23_quorum s Hwf) as Hq. rewrite E in Hq. destruct Hq as (_ & Hnd & Hp & Hr).
  pose proof (GetMaj23_quorum s' Hwf') as Hq. rewrite E' in Hq. destruct Hq as (_ & Hnd' & Hp' & Hr').
  rewrite <- EP in Hp'. destruct (quorum_overlap (PeerList s) (indices votes) (indices votes'))
    as (both & Hndb & Hpb & Hin); try done.
  - apply (wf_core s Hwf).
  - apply Forall_fmap. eapply Forall_impl; [exact Hr|]. intros csa Hc. simpl. apply Hc.
  - apply Forall_fmap. eapply Forall_impl; [exact Hr'|]. intros csa Hc. simpl. rewrite EP. apply Hc.
  - exists both. split; [done|]. split; [done|]. intros i Hi. apply Hin in Hi as [Hi Hi'].
    apply list_elem_of_fmap in Hi as (csa & -> & Hc). apply list_elem_of_fmap in Hi' as (csa' & Ei & Hc').
    rewrite Forall_forall in Hr, Hr'. exists csa, csa'. repeat split; try done.
    by rewrite (rec_status _ _ _ (Hr _ Hc)), (rec_status _ _ _ (Hr' _ Hc')).
Qed.

End csa.
End CSAShardSet.

(** ** Concrete evaluations *)

Module CSADemo.
Import SignerDemo VotesDemo CSAShardSet.
#[local] Existing Instance SignerDemo.demoBLS.

Definition noMsg : pbCrossShardAccept :=
  mkpbCrossShardAccept VoteTypeCrossShardAccept "upper" "shard-1" (-1) 3 blockHash (of_str "no") "".
Definition laterMsg : pbCrossShardAccept :=
  mkpbCrossShardAccept VoteTypeCrossShardAccept "upper" "shard-1" (-1) 4 blockHash (of_str "yes") "".
Lemma encodings_differ : NoDup [of_str "accept"; of_str "refuse"; of_str "later"].
Proof. apply (bool_decide_unpack _). vm_compute. exact I. Qed.
Definition bothCodec : Codec pbCrossShardAccept :=
  tableCodec [(signMsg, of_str "accept"); (noMsg, of_str "refuse"); (laterMsg, of_str "later")] encodings_differ.
#[local] Existing Instance bothCodec.

(** A vote of validator [i], whose key is [i + 1]. *)
Definition vote (status enc : string) (i : nat) : CrossShardAccept.t :=
  CrossShardAccept.setSignature
    (CrossShardAccept.NewCrossShardAccept "upper" "shard-1" 3 blockHash (of_str status) (Z.of_nat i))
    (Sign_ (S i : Signer) (of_str enc)).

Definition fresh : CSAShardSet.t := NewCSAShardSet 3 "shard-1" peers (Some verifier).
Definition add (s : CSAShardSet.t) (csa : CrossShardAccept.t) : CSAShardSet.t :=
  match AddCSA s csa with Ok (s', _) => s' | _ => s end.
Definition yes3 : CSAShardSet.t := fold_left add (map (vote "yes" "accept") [0; 1; 2]%nat) fresh.
Definition no3 : CSAShardSet.t := fold_left add (map (vote "no" "refuse") [0; 1; 2]%nat) fresh.

Lemma freshSet_wf : wf fresh.
Proof.
  apply NewCSAShardSet_wf; [reflexivity| |reflexivity]. repeat constructor; simpl; lia.
Qed.

Lemma add_wf s csa msg : wf s -> CrossShardAccept.SignBytes csa = Ok msg -> wf (add s csa).
Proof. intros Hwf Hm. destruct (AddCSA_ok s csa msg Hwf Hm) as (s' & err & E & ? & _). unfold add. by rewrite E. Qed.

Lemma yes3_wf : wf yes3.
Proof. do 3 (eapply add_wf; [|reflexivity]). apply freshSet_wf. Qed.
Lemma no3_wf : wf no3.
Proof. do 3 (eapply add_wf; [|reflexivity]). apply freshSet_wf. Qed.

Lemma AddCSA_invariant_witness :
  exists s' err, AddCSA fresh (vote "yes" "accept" 1) = Ok (s', err) /\ wf s' /\
    err <> Some (Errorf "There are two 2f+1 voting sets, there is ambiguity").
Proof.
  apply (AddCSA_invariant fresh (vote "yes" "accept" 1) (of_str "accept") freshSet_wf).
  vm_compute. reflexivity.
Defined.

(** Five votes: one repeated with another status, one of another height. The
    three validators that are left agree. *)
Definition received : list CrossShardAccept.t :=
  [vote "yes" "accept" 0; vote "no" "refuse" 0;
   CrossShardAccept.NewCrossShardAccept "upper" "shard-1" 4 blockHash (of_str "yes") 1;
   vote "yes" "accept" 2; vote "yes" "accept" 1].
Definition encodes (csa : CrossShardAccept.t) : bool := match CrossShardAccept.SignBytes csa with Ok _ => true | _ => false end.
Lemma encodes_all l : forallb encodes l = true -> Forall (fun csa => exists msg, CrossShardAccept.SignBytes csa = Ok msg) l.
Proof.
  intros Hl. apply List.Forall_forall. intros csa Hc. rewrite forallb_forall in Hl. specialize (Hl csa Hc).
  unfold encodes in Hl. destruct (CrossShardAccept.SignBytes csa); [by eexists|done..].
Qed.
Lemma GetMaj23_sound_witness : exists s, AddAll (NewCSAShardSet 3 "shard-1" peers (Some verifier)) received = Ok s /\
  GetMaj23 s = (Some (of_str "yes"), map (vote "yes" "accept") [0; 2; 1]%nat) /\
  2 * allVotes peers < 3 * powerOf peers [0; 2; 1].
Proof.
  destruct (GetMaj23_sound 3 "shard-1" peers verifier received) as (s & E & Hq).
  - reflexivity.
  - repeat constructor; simpl; lia.
  - reflexivity.
  - apply encodes_all. vm_compute. reflexivity.
  - exists s. split; [exact E|]. vm_compute in E. injection E as <-.
    match type of Hq with match ?g with _ => _ end =>
      assert (g = (Some (of_str "yes"), map (vote "yes" "accept") [0; 2; 1]%nat)) as Eg by (vm_compute; reflexivity) end.
    rewrite Eg in Hq. split; [exact Eg|]. destruct Hq as (Ev & He & _). rewrite <- Ev in He. exact He.
Defined.

Lemma conflicting_majorities_witness :
  exists byzantine, NoDup byzantine /\ 3 < 3 * powerOf peers byzantine /\
    forall i, i ∈ byzantine -> exists csa csa',
      csa ∈ snd (GetMaj23 yes3) /\ csa' ∈ snd (GetMaj23 no3) /\
      CrossShardAccept.ValidatorIndex csa = i /\ CrossShardAccept.ValidatorIndex csa' = i /\
      CrossShardAccept.CommitStatus csa <> CrossShardAccept.CommitStatus csa'.
Proof.
  apply (conflicting_majorities yes3 no3 (of_str "yes") (of_str "no")
           (snd (GetMaj23 yes3)) (snd (GetMaj23 no3)) yes3_wf no3_wf).
  - vm_compute. reflexivity.
  - vm_compute. reflexivity.
  - vm_compute. reflexivity.
  - vm_compute. discriminate.
Defined.
End CSADemo.
