(* ===== verification/Codecs.v ===== *)
(** * A concrete encoding of every message

    The encoding of the protobuf library is a parameter ([Codec]). This file
    gives an encoding of every message type that is total and can be read back,
    so that the parameter can be instantiated as a whole: fields one after the
    other, each marking its own end. *)

From S2P Require Import Prelude Wire Votes.
Local Open Scope Z_scope.

(** A writer and a reader that consumes what was written. *)
Record Ser (A : Type) := mkSer {
  put : A -> bytes;
  get : bytes -> option (A * bytes);
  get_put a r : get (put a ++ r) = Some (a, r) }.
Arguments put {A}. Arguments get {A}. Arguments get_put {A}. Arguments mkSer {A}.

Definition SerCodec {A} (s : Ser A) : Codec A.
Proof.
  refine {| Marshal m := Some (put s m);
            Unmarshal b := match get s b with Some (m, []) => Some m | _ => None end |}.
  intros m b [= <-]. by rewrite <- (app_nil_r (put s m)), get_put.
Defined.

(** An encoding of the messages that pass a test only. *)
Definition restrict {A} (P : A -> bool) (c : Codec A) : Codec A.
Proof.
  refine {| Marshal m := if P m then Marshal m else None;
            Unmarshal b := match Unmarshal b with Some m => if P m then Some m else None | None => None end |}.
  intros m b. destruct (P m) eqn:E; [|done]. intros Hm. by rewrite (Unmarshal_Marshal m b Hm), E.
Defined.

(** Bytes: every byte is announced. *)
Fixpoint putBytes (l : bytes) : bytes :=
  match l with [] => [Byte.x00] | b :: l => Byte.x01 :: b :: putBytes l end.
Fixpoint getBytes (b : bytes) : option (bytes * bytes) :=
  match b with
  | Byte.x00 :: r => Some ([], r)
  | Byte.x01 :: c :: r => match getBytes r with Some (l, r) => Some (c :: l, r) | None => None end
  | _ => None
  end.
Lemma getBytes_put l r : getBytes (putBytes l ++ r) = Some (l, r).
Proof. induction l as [|b l IH]; simpl; [done|]. by rewrite IH. Qed.
Definition serBytes : Ser bytes := mkSer putBytes getBytes getBytes_put.

(** Integers, in binary. *)
Fixpoint putPos (p : positive) : bytes :=
  match p with xH => [Byte.x00] | xO p => Byte.x01 :: putPos p | xI p => Byte.x02 :: putPos p end.
Fixpoint getPos (b : bytes) : option (positive * bytes) :=
  match b with
  | Byte.x00 :: r => Some (xH, r)
  | Byte.x01 :: r => match getPos r with Some (p, r) => Some (xO p, r) | None => None end
  | Byte.x02 :: r => match getPos r with Some (p, r) => Some (xI p, r) | None => None end
  | _ => None
  end.
Lemma getPos_put p r : getPos (putPos p ++ r) = Some (p, r).
Proof. induction p as [p IH|p IH|]; simpl; rewrite ?IH; done. Qed.
Definition putZ (z : Z) : bytes :=
  match z with Z0 => [Byte.x00] | Zpos p => Byte.x01 :: putPos p | Zneg p => Byte.x02 :: putPos p end.
Definition getZ (b : bytes) : option (Z * bytes) :=
  match b with
  | Byte.x00 :: r => Some (Z0, r)
  | Byte.x01 :: r => match getPos r with Some (p, r) => Some (Zpos p, r) | None => None end
  | Byte.x02 :: r => match getPos r with Some (p, r) => Some (Zneg p, r) | None => None end
  | _ => None
  end.
Lemma getZ_put z r : getZ (putZ z ++ r) = Some (z, r).
Proof. destruct z; simpl; rewrite ?getPos_put; done. Qed.
Definition serZ : Ser Z := mkSer putZ getZ getZ_put.

Section combinators.
Context {A B : Type} (sa : Ser A) (sb : Ser B).

Definition serPair : Ser (A * B).
Proof.
  refine (mkSer (fun x => put sa (fst x) ++ put sb (snd x))
    (fun b => match get sa b with
              | Some (x, r) => match get sb r with Some (y, r) => Some ((x, y), r) | None => None end
              | None => None
              end) _).
  intros [x y] r. cbn. rewrite <- app_assoc, get_put. cbn. by rewrite get_put.
Defined.

Definition serMap (f : B -> A) (g : A -> B) (Hgf : forall b, g (f b) = b) : Ser B.
Proof.
  refine (mkSer (fun b => put sa (f b))
    (fun b => match get sa b with Some (x, r) => Some (g x, r) | None => None end) _).
  intros b r. by rewrite get_put, Hgf.
Defined.

Definition serOption : Ser (option A).
Proof.
  refine (mkSer (fun o => match o with None => [Byte.x00] | Some a => Byte.x01 :: put sa a end)
    (fun b => match b with
              | Byte.x00 :: r => Some (None, r)
              | Byte.x01 :: r => match get sa r with Some (a, r) => Some (Some a, r) | None => None end
              | _ => None
              end) _).
  intros [a|] r; simpl; by rewrite ?get_put.
Defined.

(** The length of the input bounds the number of elements. *)
Fixpoint putList (l : list A) : bytes :=
  match l with [] => [Byte.x00] | a :: l => Byte.x01 :: put sa a ++ putList l end.
Fixpoint getList (fuel : nat) (b : bytes) : option (list A * bytes) :=
  match fuel, b with
  | S fuel, Byte.x00 :: r => Some ([], r)
  | S fuel, Byte.x01 :: r =>
      match get sa r with
      | Some (a, r) => match getList fuel r with Some (l, r) => Some (a :: l, r) | None => None end
      | None => None
      end
  | _, _ => None
  end.
Lemma getList_put l r fuel : (length l < fuel)%nat -> getList fuel (putList l ++ r) = Some (l, r).
Proof.
  revert fuel. induction l as [|a l IH]; intros [|fuel] Hl; simpl in *; [lia|done|lia|].
  rewrite <- app_assoc, get_put, IH by lia. done.
Qed.
Lemma putList_length l : (length l < length (putList l))%nat.
Proof. induction l as [|a l IH]; simpl; [lia|]. rewrite length_app. lia. Qed.
Definition serList : Ser (list A).
Proof.
  refine (mkSer putList (fun b => getList (length b) b) _).
  intros l r. apply getList_put. rewrite length_app. pose proof (putList_length l). lia.
Defined.
End combinators.

Definition serString : Ser string :=
  serMap serBytes of_str String.string_of_list_byte String.string_of_list_byte_of_string.

Definition serTime : Ser Time :=
  serMap (serPair serZ serZ) (fun t => (sec t, nsec t)) (fun x => mkTime (fst x) (snd x))
    (fun t => match t with mkTime _ _ => eq_refl end).

Definition serProof : Ser pbProof :=
  serMap (serPair (serPair serZ serZ) (serPair serBytes (serList serBytes)))
    (fun m => ((pbTotal m, pbIndex m), (pbLeafHash m, pbAunts m)))
    (fun x => mkpbProof x.1.1 x.1.2 x.2.1 x.2.2) (fun m => match m with mkpbProof _ _ _ _ => eq_refl end).

Definition serHeader : Ser pbHeader :=
  serMap (serPair (serPair (serPair serZ serBytes) (serPair serString serZ))
            (serPair (serPair (serOption serTime) serBytes)
               (serPair (serPair serBytes serBytes) (serPair serBytes serBytes))))
    (fun m => (((pbBlockType m, pbHashPointer m), (pbChainID m, pbHeight m)),
               ((pbTime m, pbBodyRoot m),
                ((pbCrossShardBodyRoot m, pbStateRoot m), (pbReceiptRoot m, pbRelationRoot m)))))
    (fun x => mkpbHeader x.1.1.1 x.1.1.2 x.1.2.1 x.1.2.2 x.2.1.1 x.2.1.2 x.2.2.1.1 x.2.2.1.2
                x.2.2.2.1 x.2.2.2.2)
    (fun m => match m with mkpbHeader _ _ _ _ _ _ _ _ _ _ => eq_refl end).

Definition serRelation : Ser pbRelation :=
  serMap (serPair (serList serBytes) (serPair (serList serBytes) serBytes))
    (fun m => (pbRelatedCommitStatus m, (pbRelatedHash m, pbMyCommitStatus m)))
    (fun x => mkpbRelation x.1 x.2.1 x.2.2) (fun m => match m with mkpbRelation _ _ _ => eq_refl end).

Definition serBody : Ser pbBody :=
  serMap (serList serBytes) pbTxs mkpbBody (fun m => match m with mkpbBody _ => eq_refl end).
Definition serCrossShardBody : Ser pbCrossShardBody :=
  serMap (serPair (serList serBytes) (serList serBytes)) (fun m => (pbCTxs m, pbCrossShardDatas m))
    (fun x => mkpbCrossShardBody x.1 x.2) (fun m => match m with mkpbCrossShardBody _ _ => eq_refl end).

Definition serBlock : Ser pbBlock :=
  serMap (serPair (serPair (serOption serHeader) (serOption serBody))
            (serPair (serOption serCrossShardBody) (serOption serRelation)))
    (fun m => ((pbBHeader m, pbBBody m), (pbBCrossShardBody m, pbBRelation m)))
    (fun x => mkpbBlock x.1.1 x.1.2 x.2.1 x.2.2) (fun m => match m with mkpbBlock _ _ _ _ => eq_refl end).

Definition serPart : Ser pbPart :=
  serMap (serPair (serPair serZ serZ) (serPair serBytes (serPair (serOption serProof) serString)))
    (fun m => ((pbPHeight m, pbPRound m), (pbPBytes m, (pbPProof m, pbPChainID m))))
    (fun x => mkpbPart x.1.1 x.1.2 x.2.1 x.2.2.1 x.2.2.2)
    (fun m => match m with mkpbPart _ _ _ _ _ => eq_refl end).

Definition serPartSetHeader : Ser pbPartSetHeader :=
  serMap (serPair (serPair serZ serBytes) (serPair serZ (serPair serZ serString)))
    (fun m => ((pbHTotal m, pbHRoot m), (pbHHeight m, (pbHRound m, pbHChainID m))))
    (fun x => mkpbPartSetHeader x.1.1 x.1.2 x.2.1 x.2.2.1 x.2.2.2)
    (fun m => match m with mkpbPartSetHeader _ _ _ _ _ => eq_refl end).

Definition serReceipt : Ser pbReceipt :=
  serMap (serPair (serPair serZ serString) (serPair serString (serPair (serList serString) (serList serString))))
    (fun m => ((pbCode m, pbLog m), (pbInfo m, (pbOptionKey m, pbOptionValue m))))
    (fun x => mkpbReceipt x.1.1 x.1.2 x.2.1 x.2.2.1 x.2.2.2)
    (fun m => match m with mkpbReceipt _ _ _ _ _ => eq_refl end).

Definition serProposal : Ser pbProposal :=
  serMap (serPair (serPair serZ (serOption serPartSetHeader)) (serPair serZ (serPair serBytes serString)))
    (fun m => ((pbp_type m, pbp_header m), (pbp_proposer m, (pbp_hash m, pbp_sig m))))
    (fun x => mkpbProposal x.1.1 x.1.2 x.2.1 x.2.2.1 x.2.2.2)
    (fun m => match m with mkpbProposal _ _ _ _ _ => eq_refl end).

Definition serVote : Ser pbVote :=
  serMap (serPair (serPair serZ serZ) (serPair (serPair serZ serZ) (serPair serZ (serPair serBytes serString))))
    (fun m => ((pbv_type m, pbv_index m), ((pbv_height m, pbv_round m), (pbv_code m, (pbv_hash m, pbv_sig m)))))
    (fun x => mkpbVote x.1.1 x.1.2 x.2.1.1 x.2.1.2 x.2.2.1 x.2.2.2.1 x.2.2.2.2)
    (fun m => match m with mkpbVote _ _ _ _ _ _ _ => eq_refl end).

Definition serPrecommitAggregated : Ser pbPrecommitAggregated :=
  serMap (serPair (serPair serZ serBytes) (serPair (serOption serPartSetHeader)
            (serPair serBytes (serPair serString serZ))))
    (fun m => ((pba_type m, pba_bits m), (pba_header m, (pba_hash m, (pba_sig m, pba_code m)))))
    (fun x => mkpbPrecommitAggregated x.1.1 x.1.2 x.2.1 x.2.2.1 x.2.2.2.1 x.2.2.2.2)
    (fun m => match m with mkpbPrecommitAggregated _ _ _ _ _ _ => eq_refl end).

Definition serCrossShardProposal : Ser pbCrossShardProposal :=
  serMap (serPair serZ (serPair serZ (serOption serPrecommitAggregated)))
    (fun m => (pbcp_type m, (pbcp_shard m, pbcp_sigs m)))
    (fun x => mkpbCrossShardProposal x.1 x.2.1 x.2.2)
    (fun m => match m with mkpbCrossShardProposal _ _ _ => eq_refl end).

Definition serCrossShardAccept : Ser pbCrossShardAccept :=
  serMap (serPair (serPair (serPair serZ serString) (serPair serString serZ))
            (serPair (serPair serZ serBytes) (serPair serBytes serString)))
    (fun m => (((pbca_type m, pbca_upper m), (pbca_accept m, pbca_index m)),
               ((pbca_height m, pbca_hash m), (pbca_status m, pbca_sig m))))
    (fun x => mkpbCrossShardAccept x.1.1.1 x.1.1.2 x.1.2.1 x.1.2.2 x.2.1.1 x.2.1.2 x.2.2.1 x.2.2.2)
    (fun m => match m with mkpbCrossShardAccept _ _ _ _ _ _ _ _ => eq_refl end).

Definition serCrossShardCommit : Ser pbCrossShardCommit :=
  serMap (serPair (serPair (serPair serZ serString) (serPair serZ serBytes))
            (serPair (serPair (serList serString) (serList serString))
               (serPair (serList serBytes) (serList serBytes))))
    (fun m => (((pbcc_type m, pbcc_upper m), (pbcc_height m, pbcc_hash m)),
               ((pbcc_chains m, pbcc_sigs m), (pbcc_bits m, pbcc_statuses m))))
    (fun x => mkpbCrossShardCommit x.1.1.1 x.1.1.2 x.1.2.1 x.1.2.2 x.2.1.1 x.2.1.2 x.2.2.1 x.2.2.2)
    (fun m => match m with mkpbCrossShardCommit _ _ _ _ _ _ _ _ => eq_refl end).

(** The instances, imported by the evaluations that need them. *)
Module DemoCodecs.
#[export] Instance blockSer : Codec pbBlock := SerCodec serBlock.
#[export] Instance partSer : Codec pbPart := SerCodec serPart.
#[export] Instance receiptSer : Codec pbReceipt := SerCodec serReceipt.
#[export] Instance proposalSer : Codec pbProposal := SerCodec serProposal.
#[export] Instance voteSer : Codec pbVote := SerCodec serVote.
#[export] Instance crossShardProposalSer : Codec pbCrossShardProposal := SerCodec serCrossShardProposal.
#[export] Instance crossShardAcceptSer : Codec pbCrossShardAccept := SerCodec serCrossShardAccept.
#[export] Instance crossShardCommitSer : Codec pbCrossShardCommit := SerCodec serCrossShardCommit.
End DemoCodecs.
