(* ===== verification/RangeTree.v ===== *)
(** * Sets of keys as trees of ranges: [utils/RangeTree.go]

    A tree holds disjoint ranges [low, high) of keys in order. A node stores one
    of the two bounds of what it covers and gets the other from its parent: a
    left child and the root store the upper bound, a right child the lower one.
    The nodes of a tree are not shared, so a tree is a value here. *)

From Stdlib Require Import Ascii.
From S2P Require Import Prelude.

Definition strInRange (s u v : string) : bool := bool_decide (str_le u s) && bool_decide (str_le s v).
Definition strInRangeRightOpen (s u v : string) : bool :=
  bool_decide (str_le u s) && bool_decide (str_lt s v).

(** Decides a chosen test of the goal. *)
Tactic Notation "by_cases" constr(P) "as" ident(H) :=
  destruct (bool_decide P) eqn:H; [apply bool_decide_eq_true in H|apply bool_decide_eq_false in H].

(** ** Nodes *)

Module RangeTreeNode.
(** A leaf has depth 0 and no children. *)
Inductive t :=
| Leaf (Ukey_ : string)
| Node (Ukey_ : string) (LeftChild RightChild : t) (depth_ : Z).

Definition Ukey (n : t) : string := match n with Leaf k => k | Node k _ _ _ => k end.
Definition depth (n : t) : Z := match n with Leaf _ => 0 | Node _ _ _ d => d end.
Definition setUkey (n : t) (k : string) : t :=
  match n with Leaf _ => Leaf k | Node _ l r d => Node k l r d end.
Definition IsLeaf (n : t) : bool := match n with Leaf _ => true | Node _ _ _ _ => false end.

Definition higher (l r : t) : Z := if (depth l >? depth r)%Z then (depth l + 1)%Z else (depth r + 1)%Z.

(** The deferred function of [AddRange]: adjacent leaves become one. *)
Definition settle (k : string) (l r : t) : t :=
  if IsLeaf l && IsLeaf r && bool_decide (Ukey l = Ukey r) then Leaf k
  else Node k l r (higher l r).

(** The bounds [low] and [high] of the node come with the call. A call on a child
    whose stored bound was changed before is made on the child, and the bound is
    changed after: the call does not read it. *)
Fixpoint AddRange (n : t) (low rangeLow rangeHigh high : string) : go t :=
  match n with
  | Leaf _ => Ok n
  | Node k l r d =>
      if strInRange rangeLow low (Ukey l) && strInRange rangeHigh (Ukey r) high then
        let! l := AddRange l low rangeLow (Ukey l) (Ukey l) in
        let! r := AddRange r (Ukey r) (Ukey r) rangeHigh high in
        Ok (if (depth l <? depth r)%Z then settle k (setUkey l (Ukey r)) r
            else settle k l (setUkey r (Ukey l)))
      else if strInRange rangeLow low (Ukey l) && strInRange rangeHigh low (Ukey l) then
        let! l := AddRange l low rangeLow rangeHigh (Ukey l) in Ok (settle k l r)
      else if strInRange rangeLow (Ukey r) high && strInRange rangeHigh (Ukey r) high then
        let! r := AddRange r (Ukey r) rangeLow rangeHigh high in Ok (settle k l r)
      else if strInRange rangeLow (Ukey l) (Ukey r) && strInRange rangeHigh (Ukey r) high then
        let! r := AddRange r rangeLow rangeLow rangeHigh high in
        Ok (settle k l (setUkey r rangeLow))
      else if strInRange rangeLow low (Ukey l) && strInRange rangeHigh (Ukey l) (Ukey r) then
        let! l := AddRange l low rangeLow rangeHigh rangeHigh in
        Ok (settle k (setUkey l rangeHigh) r)
      else if strInRange rangeLow (Ukey l) (Ukey r) && strInRange rangeHigh (Ukey l) (Ukey r) then
        Ok (if (depth l <? depth r)%Z
            then settle k (Node rangeHigh l (Leaf rangeLow) (depth l + 1)) r
            else settle k l (Node rangeLow (Leaf rangeHigh) r (depth r + 1)))
      else Panic
  end.

(** What is left of a node whose children were changed. *)
Definition rejoin (k : string) (l r : option t) (low high leftRange rightRange : string) :
    go (option t * string * string) :=
  match l, r with
  | None, None => Ok (None, leftRange, rightRange)
  | _, _ =>
      if negb (bool_decide (k = high)) && negb (bool_decide (k = low)) then Panic
      else
        let IsLeft := bool_decide (k = high) in
        let k := if IsLeft then rightRange else leftRange in
        match l, r with
        | Some l, Some r =>
            Ok (Some (Node k l r (higher l r)), leftRange, rightRange)
        | Some l, None =>
            if IsLeft then Ok (Some l, leftRange, Ukey l)
            else Ok (Some (setUkey l leftRange), leftRange, Ukey l)
        | None, Some r =>
            if IsLeft then Ok (Some (setUkey r rightRange), Ukey r, rightRange)
            else Ok (Some r, Ukey r, rightRange)
        | None, None => Ok (None, leftRange, rightRange)
        end
  end.

Fixpoint DeleteRange (n : t) (low rangeLow rangeHigh high : string) : go (option t * string * string) :=
  if bool_decide (rangeLow = low) && bool_decide (rangeHigh = high) then Ok (None, low, high)
  else if bool_decide (rangeLow = rangeHigh) then Ok (Some n, low, high)
  else
    match n with
    | Leaf k =>
        if bool_decide (rangeHigh = high) then
          Ok (Some (Leaf (if bool_decide (k = high) then rangeLow else k)), low, rangeLow)
        else if bool_decide (rangeLow = low) then
          Ok (Some (Leaf (if bool_decide (k = low) then rangeHigh else k)), rangeHigh, high)
        else Ok (Some (Node k (Leaf rangeLow) (Leaf rangeHigh) 1), low, high)
    | Node k l r d =>
        if strInRange rangeLow low (Ukey l) && strInRange rangeHigh (Ukey r) high then
          let! '(l', leftRange, _) := DeleteRange l low rangeLow (Ukey l) (Ukey l) in
          let! '(r', _, rightRange) := DeleteRange r (Ukey r) (Ukey r) rangeHigh high in
          rejoin k l' r' low high leftRange rightRange
        else if strInRange rangeLow low (Ukey l) && strInRange rangeHigh low (Ukey l) then
          let! '(l', leftRange, _) := DeleteRange l low rangeLow rangeHigh (Ukey l) in
          rejoin k l' (Some r) low high leftRange high
        else if strInRange rangeLow (Ukey r) high && strInRange rangeHigh (Ukey r) high then
          let! '(r', _, rightRange) := DeleteRange r (Ukey r) rangeLow rangeHigh high in
          rejoin k (Some l) r' low high low rightRange
        else if strInRange rangeLow (Ukey l) (Ukey r) && strInRange rangeHigh (Ukey r) high then
          let! '(r', _, rightRange) := DeleteRange r (Ukey r) (Ukey r) rangeHigh high in
          rejoin k (Some l) r' low high low rightRange
        else if strInRange rangeLow low (Ukey l) && strInRange rangeHigh (Ukey l) (Ukey r) then
          let! '(l', leftRange, _) := DeleteRange l low rangeLow (Ukey l) (Ukey l) in
          rejoin k l' (Some r) low high leftRange high
        else rejoin k (Some l) (Some r) low high low high
    end.

Fixpoint Search (n : t) (p low high : string) : bool :=
  match n with
  | Leaf _ => strInRangeRightOpen p low high
  | Node _ l r _ =>
      if bool_decide (str_lt p (Ukey l)) then Search l p low (Ukey l)
      else if bool_decide (str_le (Ukey r) p) then Search r p (Ukey r) high
      else false
  end.

Fixpoint Range (n : t) (outputList : list (string * string)) (start finish : string) :
    list (string * string) :=
  match n with
  | Leaf _ => outputList ++ [(start, finish)]
  | Node _ l r _ => Range r (Range l outputList start (Ukey l)) (Ukey r) finish
  end.

(** ** What a node covers *)

Fixpoint wf (n : t) (low high : string) : Prop :=
  match n with
  | Leaf _ => str_le low high
  | Node _ l r _ => wf l low (Ukey l) /\ str_le (Ukey l) (Ukey r) /\ wf r (Ukey r) high
  end.

Definition between (p low high : string) : Prop := str_le low p /\ str_lt p high.

Fixpoint covers (n : t) (low high p : string) : Prop :=
  match n with
  | Leaf _ => between p low high
  | Node _ l r _ => covers l low (Ukey l) p \/ covers r (Ukey r) high p
  end.

Lemma wf_le n low high : wf n low high -> str_le low high.
Proof.
  revert low high. induction n as [k|k l IHl r IHr d]; intros low high; cbn; [done|].
  intros (Hl%IHl & H & Hr%IHr). str_order.
Qed.

Lemma covers_between n low high p : wf n low high -> covers n low high p -> between p low high.
Proof.
  revert low high. induction n as [k|k l IHl r IHr d]; intros low high; cbn; [done|].
  intros (Hl & H & Hr) [Hc|Hc].
  - apply IHl in Hc as [? ?]; [|done]. apply wf_le in Hl, Hr. split; str_order.
  - apply IHr in Hc as [? ?]; [|done]. apply wf_le in Hl, Hr. split; str_order.
Qed.

Lemma Search_covers n p low high : wf n low high -> Search n p low high = true <-> covers n low high p.
Proof.
  revert low high. induction n as [k|k l IHl r IHr d]; intros low high; cbn [wf covers Search].
  - intros _. unfold strInRangeRightOpen. by rewrite andb_true_iff, !bool_decide_eq_true.
  - intros (Hl & H & Hr).
    pose proof (covers_between l low (Ukey l) p Hl) as Bl.
    pose proof (covers_between r (Ukey r) high p Hr) as Br.
    case_bool_decide as D1.
    + rewrite IHl by done. split; [by left|]. intros [Hc|[Hc _]%Br]; [done|]. str_order.
    + case_bool_decide as D2.
      * rewrite IHr by done. split; [by right|]. intros [[_ Hc]%Bl|Hc]; [|done]. str_order.
      * split; [done|]. intros [[_ Hc]%Bl|[Hc _]%Br]; str_order.
Qed.

Lemma wf_setUkey n k low high : wf (setUkey n k) low high <-> wf n low high.
Proof. by destruct n. Qed.
Lemma covers_setUkey n k low high p : covers (setUkey n k) low high p <-> covers n low high p.
Proof. by destruct n. Qed.
Lemma Ukey_setUkey n k : Ukey (setUkey n k) = k.
Proof. by destruct n. Qed.

(** Case analysis on where a key lies, closed by the order. *)
Ltac key_cases :=
  unfold between in *;
  repeat match goal with
  | H : _ /\ _ |- _ => destruct H
  | H : _ \/ _ |- _ => destruct H
  end;
  first [str_order
        | match goal with
          | |- _ /\ _ => split; key_cases
          | |- _ \/ _ => first [left; key_cases | right; key_cases]
          | |- _ => assumption
          end].

(** Moving a bound outwards adds the keys in between. *)
Lemma extend_high n low high high' : wf n low high -> str_le high high' ->
  wf n low high' /\ forall p, covers n low high' p <-> covers n low high p \/ between p high high'.
Proof.
  revert low. induction n as [k|k l _ r IHr d]; intros low; cbn [wf covers].
  - intros Hl Hh. split; [str_order|]. intros p. split; [|intros [[? ?]|[? ?]]; split; str_order].
    intros [? ?]. destruct (decide (str_lt p high)); key_cases.
  - intros (Hl & Hk & Hr) Hh. destruct (IHr _ Hr Hh) as [Hr' Hc]. split; [done|].
    intros p. rewrite Hc. tauto.
Qed.

Lemma extend_low n low low' high : wf n low high -> str_le low' low ->
  wf n low' high /\ forall p, covers n low' high p <-> covers n low high p \/ between p low' low.
Proof.
  revert high. induction n as [k|k l IHl r _ d]; intros high; cbn [wf covers].
  - intros Hl Hh. split; [str_order|]. intros p. split; [|intros [[? ?]|[? ?]]; split; str_order].
    intros [? ?]. destruct (decide (str_lt p low)); key_cases.
  - intros (Hl & Hk & Hr) Hh. destruct (IHl _ Hl Hh) as [Hl' Hc]. split; [done|].
    intros p. rewrite Hc. tauto.
Qed.

(** What a change to a node must satisfy: it keeps its own bound and covers
    what [f] says. *)
Record changed (n n' : t) (low high : string) (f : string -> Prop) : Prop := {
  ch_key : Ukey n' = Ukey n;
  ch_wf : wf n' low high;
  ch_covers p : covers n' low high p <-> f p
}.

Lemma settle_spec k l r low high (f : string -> Prop) :
  wf l low (Ukey l) -> str_le (Ukey l) (Ukey r) -> wf r (Ukey r) high ->
  (forall p, covers l low (Ukey l) p \/ covers r (Ukey r) high p <-> f p) ->
  Ukey (settle k l r) = k /\ wf (settle k l r) low high /\
  forall p, covers (settle k l r) low high p <-> f p.
Proof.
  intros Hl Hk Hr Hf. unfold settle. destruct (IsLeaf l && IsLeaf r && _) eqn:E; [|by split].
  apply andb_true_iff in E as [[E1 E2]%andb_true_iff E3%bool_decide_eq_true].
  destruct l as [kl|], r as [kr|]; try done. cbn in *. subst kr. split; [done|]. split; [str_order|].
  intros p. rewrite <- Hf. split; [|intros [[? ?]|[? ?]]; split; str_order].
  intros [? ?]. destruct (decide (str_lt p kl)); key_cases.
Qed.

Lemma strInRange_true s u v : strInRange s u v = true <-> str_le u s /\ str_le s v.
Proof. unfold strInRange. by rewrite andb_true_iff, !bool_decide_eq_true. Qed.
Lemma strInRange_both a b c d e g :
  strInRange a b c && strInRange d e g = true <-> (str_le b a /\ str_le a c) /\ (str_le e d /\ str_le d g).
Proof. by rewrite andb_true_iff, !strInRange_true. Qed.

(** Closes an equivalence of covers whose ranges meet at [a] and [b]. *)
Ltac join_at p a b :=
  split; intros; destruct (decide (str_lt p a)); destruct (decide (str_lt p b)); key_cases.

(** When no other case applies the range lies between the children. *)
Lemma range_gap low rl rh high lk rk :
  str_le low rl -> str_le rl rh -> str_le rh high -> str_le low lk -> str_le lk rk -> str_le rk high ->
  strInRange rl low lk && strInRange rh rk high = false ->
  strInRange rl low lk && strInRange rh low lk = false ->
  strInRange rl rk high && strInRange rh rk high = false ->
  strInRange rl lk rk && strInRange rh rk high = false ->
  strInRange rl low lk && strInRange rh lk rk = false ->
  str_le lk rl /\ str_le rh rk.
Proof.
  intros ? ? ? ? ? ?. rewrite <- !not_true_iff_false, !strInRange_both. intros C1 C2 C3 C4 C5.
  destruct (decide (str_le lk rl)), (decide (str_le rh rk)); [done|exfalso..].
  - destruct (decide (str_le rk rl)); [apply C3|apply C4]; repeat split; str_order.
  - destruct (decide (str_le rh lk)); [apply C2|apply C5]; repeat split; str_order.
  - apply C1. repeat split; str_order.
Qed.

Lemma AddRange_changed n low rl rh high :
  wf n low high -> str_le low rl -> str_le rl rh -> str_le rh high ->
  exists n', AddRange n low rl rh high = Ok n' /\
    changed n n' low high (fun p => covers n low high p \/ between p rl rh).
Proof.
  revert low rl rh high. induction n as [k|k l IHl r IHr d]; intros low rl rh high.
  { intros Hw H1 H2 H3. exists (Leaf k). split; [done|]. split; [done|done|]. intros p. cbn. split; [by left|].
    intros [?|[? ?]]; [done|]. split; str_order. }
  cbn [wf AddRange]. intros (Hl & Hk & Hr) H1 H2 H3.
  pose proof (wf_le _ _ _ Hl) as Ll. pose proof (wf_le _ _ _ Hr) as Lr.
  assert (forall l' r' f,
    wf l' low (Ukey l') -> str_le (Ukey l') (Ukey r') -> wf r' (Ukey r') high ->
    (forall p, covers l' low (Ukey l') p \/ covers r' (Ukey r') high p <-> f p) ->
    changed (Node k l r d) (settle k l' r') low high f) as Hset.
  { intros l' r' f W1 W2 W3 W4. destruct (settle_spec k l' r' low high f W1 W2 W3 W4) as (? & ? & ?). by split. }
  destruct (strInRange rl low (Ukey l) && strInRange rh (Ukey r) high) eqn:C1.
  { apply strInRange_both in C1 as [[A1 A2] [A3 A4]].
    destruct (IHl low rl (Ukey l) (Ukey l)) as (l' & El & [Kl Wl Cl]); [done..|str_order|].
    destruct (IHr (Ukey r) (Ukey r) rh high) as (r' & Er & [Kr Wr Cr]); [done|str_order|done..|].
    rewrite El, Er. cbn [gbind]. eexists. split; [reflexivity|]. rewrite Kr, Kl.
    destruct (_ <? _)%Z.
    - destruct (extend_high l' _ _ (Ukey r) Wl Hk) as [Wl' Cl'].
      apply Hset; rewrite ?Ukey_setUkey, ?wf_setUkey, ?Kr; [done|str_order|done|]. intros p.
      rewrite covers_setUkey, Cl', Cl, Cr. cbn [covers]. join_at p (Ukey l) (Ukey r).
    - destruct (extend_low r' _ (Ukey l) _ Wr Hk) as [Wr' Cr'].
      apply Hset; rewrite ?Ukey_setUkey, ?wf_setUkey, ?Kl; [done|str_order|done|]. intros p.
      rewrite covers_setUkey, Cr', Cl, Cr. cbn [covers]. join_at p (Ukey l) (Ukey r). }
  destruct (strInRange rl low (Ukey l) && strInRange rh low (Ukey l)) eqn:C2.
  { apply strInRange_both in C2 as [[A1 A2] [A3 A4]].
    destruct (IHl low rl rh (Ukey l)) as (l' & El & [Kl Wl Cl]); [done..|].
    rewrite El. cbn [gbind]. eexists. split; [reflexivity|].
    apply Hset; rewrite ?Kl; [done..|]. intros p. rewrite Cl. cbn [covers]. tauto. }
  destruct (strInRange rl (Ukey r) high && strInRange rh (Ukey r) high) eqn:C3.
  { apply strInRange_both in C3 as [[A1 A2] [A3 A4]].
    destruct (IHr (Ukey r) rl rh high) as (r' & Er & [Kr Wr Cr]); [done..|].
    rewrite Er. cbn [gbind]. eexists. split; [reflexivity|].
    apply Hset; rewrite ?Kr; [done..|]. intros p. rewrite Cr. cbn [covers]. tauto. }
  destruct (strInRange rl (Ukey l) (Ukey r) && strInRange rh (Ukey r) high) eqn:C4.
  { apply strInRange_both in C4 as [[A1 A2] [A3 A4]].
    destruct (extend_low r _ rl _ Hr A2) as [Wr' Cr'].
    destruct (IHr rl rl rh high) as (r' & Er & [Kr Wr Cr]); [done|str_order|done..|].
    rewrite Er. cbn [gbind]. eexists. split; [reflexivity|].
    apply Hset; rewrite ?Ukey_setUkey, ?wf_setUkey; [done..|]. intros p.
    rewrite covers_setUkey, Cr, Cr'. cbn [covers]. join_at p rl (Ukey r). }
  destruct (strInRange rl low (Ukey l) && strInRange rh (Ukey l) (Ukey r)) eqn:C5.
  { apply strInRange_both in C5 as [[A1 A2] [A3 A4]].
    destruct (extend_high l _ _ rh Hl A3) as [Wl' Cl'].
    destruct (IHl low rl rh rh) as (l' & El & [Kl Wl Cl]); [done..|str_order|].
    rewrite El. cbn [gbind]. eexists. split; [reflexivity|].
    apply Hset; rewrite ?Ukey_setUkey, ?wf_setUkey; [done..|]. intros p.
    rewrite covers_setUkey, Cl, Cl'. cbn [covers]. join_at p (Ukey l) rh. }
  destruct (strInRange rl (Ukey l) (Ukey r) && strInRange rh (Ukey l) (Ukey r)) eqn:C6.
  { apply strInRange_both in C6 as [[A1 A2] [A3 A4]]. eexists. split; [reflexivity|].
    destruct (_ <? _)%Z; apply Hset; cbn [wf Ukey covers]; try done; intros p; tauto. }
  destruct (range_gap low rl rh high (Ukey l) (Ukey r)) as [G1 G2]; [done..|].
  rewrite <- not_true_iff_false, strInRange_both in C6. exfalso. apply C6. repeat split; str_order.
Qed.

(** ** Deleting a range *)

(** What is left of a node: nothing, or a node and its new bounds. *)
Definition coversO (o : option t) (low high p : string) : Prop :=
  match o with None => False | Some n => covers n low high p end.

(** The node keeps the side its bound is on, and covers what [f] says. *)
Record remains (k low high : string) (f : string -> Prop) (res : option t * string * string) : Prop := {
  rm_low : str_le low res.1.2;
  rm_high : str_le res.2 high;
  rm_wf n : res.1.1 = Some n -> wf n res.1.2 res.2;
  rm_keyhigh n : res.1.1 = Some n -> k = high -> Ukey n = res.2;
  rm_keylow n : res.1.1 = Some n -> k = low -> Ukey n = res.1.2;
  rm_covers p : coversO res.1.1 res.1.2 res.2 p <-> f p
}.

Lemma remains_ext k low high f g res :
  remains k low high f res -> (forall p, f p <-> g p) -> remains k low high g res.
Proof. intros [] E. split; try done. intros p. by rewrite <- E. Qed.

(** The two halves of a changed node: [l] starts at [leftRange], [r] ends at
    [rightRange]. *)
Record halves (l r : option t) (low high leftRange rightRange : string) : Prop := {
  hv_low : str_le low leftRange;
  hv_high : str_le rightRange high;
  hv_l n : l = Some n -> wf n leftRange (Ukey n) /\ str_le (Ukey n) high;
  hv_r n : r = Some n -> wf n (Ukey n) rightRange /\ str_le low (Ukey n);
  hv_lr m n : l = Some m -> r = Some n -> str_le (Ukey m) (Ukey n)
}.

Lemma rejoin_remains k l r low high leftRange rightRange :
  halves l r low high leftRange rightRange -> low <> high -> k = high \/ k = low ->
  exists res, rejoin k l r low high leftRange rightRange = Ok res /\
    remains k low high (fun p => match l with None => False | Some n => covers n leftRange (Ukey n) p end \/
                                 match r with None => False | Some n => covers n (Ukey n) rightRange p end) res.
Proof.
  intros [H1 H2 Hl Hr Hlr] Hne Hk. unfold rejoin.
  replace (negb (bool_decide (k = high)) && negb (bool_decide (k = low))) with false
    by (symmetry; apply andb_false_iff; rewrite !negb_false_iff, !bool_decide_eq_true; done).
  destruct l as [l|], r as [r|].
  - destruct (Hl l) as [Wl _], (Hr r) as [Wr _]; [done..|]. specialize (Hlr l r eq_refl eq_refl).
    eexists. split; [reflexivity|]. split; cbn; [done|done|intros ? [= <-]..|done]; [done| |];
      intros ->; cbn; [by rewrite bool_decide_true|by rewrite bool_decide_false].
  - destruct (Hl l) as [Wl Bl]; [done|].
    by_cases (k = high) as E;
      (eexists; split; [reflexivity|]); split; cbn; try done; try (intros ? [= <-]);
      rewrite ?wf_setUkey, ?Ukey_setUkey; try done; try (intros p; rewrite ?covers_setUkey; tauto); congruence.
  - destruct (Hr r) as [Wr Br]; [done|].
    by_cases (k = high) as E;
      (eexists; split; [reflexivity|]); split; cbn; try done; try (intros ? [= <-]);
      rewrite ?wf_setUkey, ?Ukey_setUkey; try done; try (intros p; rewrite ?covers_setUkey; tauto); congruence.
  - eexists. split; [reflexivity|]. split; cbn; try done. tauto.
Qed.

(** The bound the left half ends with is its own key, the right half's start
    is its own key. *)
Lemma remains_left n low rl rh res : 
  remains (Ukey n) low (Ukey n) (fun p => covers n low (Ukey n) p /\ ~ between p rl rh) res ->
  (forall n', res.1.1 = Some n' -> wf n' res.1.2 (Ukey n') /\ str_le (Ukey n') (Ukey n)) /\
  forall p, match res.1.1 with None => False | Some n' => covers n' res.1.2 (Ukey n') p end <->
            covers n low (Ukey n) p /\ ~ between p rl rh.
Proof.
  destruct res as [[o lo] hi]. intros [A B C D E F]; cbn in *. split.
  - intros n' ->. specialize (D n' eq_refl eq_refl). rewrite D. by auto.
  - intros p. rewrite <- F. destruct o as [n'|]; [|done]. by rewrite (D n' eq_refl eq_refl).
Qed.

Lemma remains_right n high rl rh res : 
  remains (Ukey n) (Ukey n) high (fun p => covers n (Ukey n) high p /\ ~ between p rl rh) res ->
  (forall n', res.1.1 = Some n' -> wf n' (Ukey n') res.2 /\ str_le (Ukey n) (Ukey n')) /\
  forall p, match res.1.1 with None => False | Some n' => covers n' (Ukey n') res.2 p end <->
            covers n (Ukey n) high p /\ ~ between p rl rh.
Proof.
  destruct res as [[o lo] hi]. intros [A B C D E F]; cbn in *. split.
  - intros n' ->. specialize (E n' eq_refl eq_refl). rewrite E. by auto.
  - intros p. rewrite <- F. destruct o as [n'|]; [|done]. by rewrite (E n' eq_refl eq_refl).
Qed.

(** A half the range does not touch. *)
Lemma untouched n low high rl rh p :
  wf n low high -> str_le high rl \/ str_le rh low ->
  covers n low high p <-> covers n low high p /\ ~ between p rl rh.
Proof.
  intros W H. split; [|tauto]. intros C. split; [done|].
  pose proof (covers_between _ _ _ _ W C). intros ?. key_cases.
Qed.

Lemma DeleteRange_leaf k low rl rh high :
  str_le low rl -> str_le rl rh -> str_le rh high -> k = high \/ k = low ->
  exists res, DeleteRange (Leaf k) low rl rh high = Ok res /\
    remains k low high (fun p => between p low high /\ ~ between p rl rh) res.
Proof.
  intros H1 H2 H3 Hk. cbn [DeleteRange]. 
  destruct (bool_decide (rl = low) && bool_decide (rh = high)) eqn:E1.
  { apply andb_true_iff in E1 as [->%bool_decide_eq_true ->%bool_decide_eq_true].
    eexists; split; [reflexivity|]. split; cbn; try done; tauto. }
  by_cases (rl = rh) as E2.
  { subst rh. eexists; split; [reflexivity|]. split; cbn; try done; try (intros ? [= <-]); cbn; try done.
    - str_order.
    - intros p. unfold between. split; [|tauto]. intros ?. split; [done|]. intros ?; key_cases. }
  by_cases (rh = high) as E3.
  { rewrite andb_true_r in E1. apply bool_decide_eq_false in E1.
    subst rh.
    eexists; split; [reflexivity|].
    split; cbn; try done; try (intros ? [= <-]); cbn; try done.
    - intros ->. by rewrite bool_decide_true.
    - intros ->. rewrite bool_decide_false; [done|]. intros ->. apply E1. str_order.
    - intros p. split.
      + intros [? ?]. split; [split; str_order|]. intros [? ?]. str_order.
      + intros [[? ?] Hn]. split; [done|]. destruct (decide (str_lt p rl)); [done|].
        exfalso. apply Hn. split; str_order. }
  by_cases (rl = low) as E4.
  { subst rl. eexists; split; [reflexivity|].
    split; cbn; try done; try (intros ? [= <-]); cbn; try done.
    - intros ->. rewrite bool_decide_false; [done|]. intros ->. apply E3. str_order.
    - intros ->. by rewrite bool_decide_true.
    - intros p. split.
      + intros [? ?]. split; [split; str_order|]. intros [? ?]. str_order.
      + intros [[? ?] Hn]. split; [|done]. destruct (decide (str_lt p rh)); [|str_order].
        exfalso. apply Hn. split; str_order. }
  eexists; split; [reflexivity|].
  split; cbn; try done; try (intros ? [= <-]); cbn; try done.
  intros p. split.
  - intros [[? ?]|[? ?]]; (split; [split; str_order|intros [? ?]; str_order]).
  - intros [[? ?] Hn]. destruct (decide (str_lt p rl)); [left; split; str_order|].
    right. split; [|done]. destruct (decide (str_lt p rh)); [|str_order].
    exfalso. apply Hn. split; str_order.
Qed.

(** Keys of one half are deleted the same by a range that agrees with the
    deleted one on that half. *)
Lemma between_same n low high a b c d p :
  wf n low high ->
  str_le a low /\ str_le c low \/ a = c -> str_le high b /\ str_le high d \/ b = d ->
  covers n low high p -> between p a b <-> between p c d.
Proof.
  intros W [[? ?]| ->] [[? ?]| ->] C; destruct (covers_between _ _ _ _ W C);
    unfold between; split; intros [? ?]; split; str_order.
Qed.

Lemma between_empty p a : ~ between p a a.
Proof. intros [? ?]. str_order. Qed.

Section Halves.
Context (k : string) (l r : t) (low rl rh high : string).
Context (Hl : wf l low (Ukey l)) (Hk : str_le (Ukey l) (Ukey r)) (Hr : wf r (Ukey r) high).
Context (Hne : low <> high) (Hkk : k = high \/ k = low).

(** Both halves, one half or none of them deleted from. *)
Lemma rejoin_both a b c d resl resr :
  remains (Ukey l) low (Ukey l) (fun p => covers l low (Ukey l) p /\ ~ between p a b) resl ->
  remains (Ukey r) (Ukey r) high (fun p => covers r (Ukey r) high p /\ ~ between p c d) resr ->
  (forall p, covers l low (Ukey l) p -> between p a b <-> between p rl rh) ->
  (forall p, covers r (Ukey r) high p -> between p c d <-> between p rl rh) ->
  exists res, rejoin k resl.1.1 resr.1.1 low high resl.1.2 resr.2 = Ok res /\
    remains k low high (fun p => (covers l low (Ukey l) p \/ covers r (Ukey r) high p) /\ ~ between p rl rh) res.
Proof using Hl Hk Hr Hne Hkk.
  intros Ml Mr El Er. pose proof (wf_le _ _ _ Hl). pose proof (wf_le _ _ _ Hr).
  destruct (remains_left _ _ _ _ _ Ml) as [Al Cl], (remains_right _ _ _ _ _ Mr) as [Ar Cr].
  pose proof (rm_low _ _ _ _ _ Ml). pose proof (rm_high _ _ _ _ _ Mr).
  destruct (rejoin_remains k resl.1.1 resr.1.1 low high resl.1.2 resr.2) as (res & E & M); [|done|done|].
  - split; [done|done|..].
    + intros n Hn. destruct (Al n Hn). split; [done|str_order].
    + intros n Hn. destruct (Ar n Hn). split; [done|str_order].
    + intros m n Hm Hn. destruct (Al m Hm), (Ar n Hn). str_order.
  - exists res. split; [done|]. eapply remains_ext; [exact M|]. intros p. cbv beta. rewrite Cl, Cr.
    specialize (El p). specialize (Er p). tauto.
Qed.
End Halves.

(** A half that nothing is deleted from. *)
Lemma remains_self n low high a :
  wf n low high ->
  remains (Ukey n) low high (fun p => covers n low high p /\ ~ between p a a) (Some n, low, high).
Proof.
  intros W. split; cbn; try done; try (intros ? [= <-]; done).
  intros p. pose proof (between_empty p a). tauto.
Qed.

(** Nothing is deleted by an empty range from keys a range does not reach. *)
Lemma between_none n low high a rl rh p :
  wf n low high -> str_le high rl \/ str_le rh low -> covers n low high p ->
  between p a a <-> between p rl rh.
Proof. intros W H C. pose proof (covers_between _ _ _ _ W C). split; intros ?; exfalso; key_cases. Qed.

(** The deleted range and the one a half is given agree on that half. *)
Ltac agree :=
  let p := fresh in let C := fresh in
  intros p C;
  first [ eapply between_same; [|..|exact C]; first [eassumption | by right | left; split; str_order]
        | eapply between_none; [| |exact C]; first [eassumption | left; str_order | right; str_order] ].

Lemma DeleteRange_remains n low rl rh high :
  wf n low high -> str_le low rl -> str_le rl rh -> str_le rh high -> Ukey n = high \/ Ukey n = low ->
  exists res, DeleteRange n low rl rh high = Ok res /\
    remains (Ukey n) low high (fun p => covers n low high p /\ ~ between p rl rh) res.
Proof.
  revert low rl rh high. induction n as [k|k l IHl r IHr d]; intros low rl rh high.
  { intros ?. apply DeleteRange_leaf. }
  intros W H1 H2 H3 Hk. cbn [Ukey] in Hk |- *.
  destruct (bool_decide (rl = low) && bool_decide (rh = high)) eqn:E1.
  { apply andb_true_iff in E1 as [E1%bool_decide_eq_true E2%bool_decide_eq_true]. subst rl rh.
    exists (None, low, high). split; [cbn [DeleteRange]; by rewrite (bool_decide_true (low = low)), (bool_decide_true (high = high))|].
    split; cbn [fst snd coversO]; try done. intros p. split; [done|]. intros [C N]. apply N.
    by apply (covers_between _ _ _ _ W). }
  by_cases (rl = rh) as E2.
  { subst rh. exists (Some (Node k l r d), low, high). split; [|by apply (remains_self (Node k l r d))].
    cbn [DeleteRange]. by rewrite E1, (bool_decide_true (rl = rl)). }
  assert (low <> high) as Hne by (intros ->; apply E2; str_order).
  cbn [DeleteRange]. rewrite E1, (bool_decide_false (rl = rh)) by done. clear E1.
  destruct W as (Hl & Hlr & Hr).
  pose proof (wf_le _ _ _ Hl) as Ll. pose proof (wf_le _ _ _ Hr) as Lr.
  pose proof (fun a b c d resl resr => rejoin_both k l r low rl rh high Hl Hlr Hr Hne Hk a b c d resl resr) as J.
  pose proof (fun a => remains_self l low (Ukey l) a Hl) as Sl.
  pose proof (fun a => remains_self r (Ukey r) high a Hr) as Sr.
  assert (forall a b, str_le low a -> str_le a b -> str_le b (Ukey l) ->
    exists res, DeleteRange l low a b (Ukey l) = Ok res /\
      remains (Ukey l) low (Ukey l) (fun p => covers l low (Ukey l) p /\ ~ between p a b) res) as Dl by auto.
  assert (forall a b, str_le (Ukey r) a -> str_le a b -> str_le b high ->
    exists res, DeleteRange r (Ukey r) a b high = Ok res /\
      remains (Ukey r) (Ukey r) high (fun p => covers r (Ukey r) high p /\ ~ between p a b) res) as Dr by auto.
  cbn [covers]. clear IHl IHr.
  destruct (strInRange rl low (Ukey l) && strInRange rh (Ukey r) high) eqn:C1.
  { apply strInRange_both in C1 as [[A1 A2] [A3 A4]].
    destruct (Dl rl (Ukey l)) as ([[l' lo] ?] & El & Ml); [done..|].
    destruct (Dr (Ukey r) rh) as ([[r' ?] hi] & Er & Mr); [done..|].
    rewrite El, Er. apply (J _ _ _ _ _ _ Ml Mr); agree. }
  destruct (strInRange rl low (Ukey l) && strInRange rh low (Ukey l)) eqn:C2.
  { apply strInRange_both in C2 as [[A1 A2] [A3 A4]].
    destruct (Dl rl rh) as ([[l' lo] ?] & El & Ml); [done..|].
    rewrite El. apply (J _ _ _ _ _ _ Ml (Sr rl)); agree. }
  destruct (strInRange rl (Ukey r) high && strInRange rh (Ukey r) high) eqn:C3.
  { apply strInRange_both in C3 as [[A1 A2] [A3 A4]].
    destruct (Dr rl rh) as ([[r' ?] hi] & Er & Mr); [done..|].
    rewrite Er. apply (J _ _ _ _ _ _ (Sl rl) Mr); agree. }
  destruct (strInRange rl (Ukey l) (Ukey r) && strInRange rh (Ukey r) high) eqn:C4.
  { apply strInRange_both in C4 as [[A1 A2] [A3 A4]].
    destruct (Dr (Ukey r) rh) as ([[r' ?] hi] & Er & Mr); [done..|].
    rewrite Er. apply (J _ _ _ _ _ _ (Sl rl) Mr); agree. }
  destruct (strInRange rl low (Ukey l) && strInRange rh (Ukey l) (Ukey r)) eqn:C5.
  { apply strInRange_both in C5 as [[A1 A2] [A3 A4]].
    destruct (Dl rl (Ukey l)) as ([[l' lo] ?] & El & Ml); [done..|].
    rewrite El. apply (J _ _ _ _ _ _ Ml (Sr rl)); agree. }
  destruct (range_gap low rl rh high (Ukey l) (Ukey r)) as [? ?]; [done..|].
  apply (J _ _ _ _ _ _ (Sl rl) (Sr rl)); agree.
Qed.
End RangeTreeNode.

(** ** Trees *)

Module RangeTree.
Record t := { start : string; end_ : string; root : option RangeTreeNode.t }.

Definition StartKey (t : t) : string := t.(start).
Definition EndKey (t : t) : string := t.(end_).
Definition NewRangeTree : t := {| start := ""; end_ := ""; root := None |}.

Definition Search (t : t) (p : string) : bool :=
  match t.(root) with None => false | Some n => RangeTreeNode.Search n p t.(start) t.(end_) end.

Definition AddRange (t : t) (rangeLow rangeHigh : string) : go RangeTree.t :=
  if bool_decide (str_lt rangeHigh rangeLow) then Ok t
  else
    match t.(root) with
    | None => Ok {| start := rangeLow; end_ := rangeHigh; root := Some (RangeTreeNode.Leaf rangeHigh) |}
    | Some n =>
        if bool_decide (str_lt rangeHigh t.(start)) then
          Ok {| start := rangeLow; end_ := t.(end_);
                root := Some (RangeTreeNode.Node t.(end_) (RangeTreeNode.Leaf rangeHigh)
                                (RangeTreeNode.setUkey n t.(start)) (RangeTreeNode.depth n + 1)) |}
        else if bool_decide (str_lt t.(end_) rangeLow) then
          Ok {| start := t.(start); end_ := rangeHigh;
                root := Some (RangeTreeNode.Node rangeHigh n (RangeTreeNode.Leaf rangeLow)
                                (RangeTreeNode.depth n + 1)) |}
        else
          let wider := bool_decide (str_lt t.(end_) rangeHigh) in
          let end_ := if wider then rangeHigh else t.(end_) in
          let n := if wider then RangeTreeNode.setUkey n rangeHigh else n in
          let start := if bool_decide (str_lt rangeLow t.(start)) then rangeLow else t.(start) in
          let! n := RangeTreeNode.AddRange n start rangeLow rangeHigh end_ in
          Ok {| start := start; end_ := end_; root := Some n |}
    end.

Definition DeleteRange (t : t) (rangeLow rangeHigh : string) : go RangeTree.t :=
  match t.(root) with
  | None => Ok t
  | Some n =>
      if bool_decide (str_lt rangeHigh rangeLow) then Ok t
      else if bool_decide (str_lt rangeHigh t.(start)) || bool_decide (str_lt t.(end_) rangeLow) then Ok t
      else
        let rangeLow := if bool_decide (str_lt rangeLow t.(start)) then t.(start) else rangeLow in
        let rangeHigh := if bool_decide (str_lt t.(end_) rangeHigh) then t.(end_) else rangeHigh in
        let! '(root, start, end_) := RangeTreeNode.DeleteRange n t.(start) rangeLow rangeHigh t.(end_) in
        Ok {| start := start; end_ := end_; root := root |}
  end.

Definition Range (t : t) : list (string * string) :=
  match t.(root) with None => [] | Some n => RangeTreeNode.Range n [] t.(start) t.(end_) end.

Definition AddAll (t : t) (pairs : list (string * string)) : go RangeTree.t :=
  go_foldl (fun t '(a, b) => AddRange t a b) t pairs.

Definition Add (t other : t) : go RangeTree.t := AddAll t (Range other).

(** The ranges of one shard in the configuration: [[a,b]+[c,d]]. *)
Fixpoint split (sep : ascii) (s : string) : list string :=
  match s with
  | EmptyString => [EmptyString]
  | String c s =>
      if Ascii.eqb c sep then EmptyString :: split sep s
      else match split sep s with
           | w :: ws => String c w :: ws
           | [] => [String c EmptyString]
           end
  end.

Definition deserialize (s : string) : go (list (list string)) :=
  go_mapM (fun subString =>
    let n := String.length subString in
    if bool_decide (n < 2)%nat then Panic
    else Ok (split "," (String.substring 1 (n - 2) subString))) (split "+" s).

(** Values after the second of a range are not read. *)
Definition NewRangeTreeFromString (s : string) : go t :=
  let! ranges := deserialize s in
  go_foldl (fun t pair =>
    match pair with a :: b :: _ => AddRange t a b | _ => Panic end) NewRangeTree ranges.

(** ** What a tree holds *)

Definition ok (t : t) : Prop :=
  match t.(root) with
  | None => True
  | Some n => RangeTreeNode.wf n t.(start) t.(end_) /\ RangeTreeNode.Ukey n = t.(end_)
  end.

Definition holds (t : t) (p : string) : Prop :=
  match t.(root) with None => False | Some n => RangeTreeNode.covers n t.(start) t.(end_) p end.
Notation between := RangeTreeNode.between.

Lemma Search_holds t p : ok t -> Search t p = true <-> holds t p.
Proof.
  unfold ok, Search, holds. destruct (root t) as [n|]; [|done].
  intros [W _]. by apply RangeTreeNode.Search_covers.
Qed.

(** An operation that does not fail and makes the tree hold [f]. *)
Definition makes (m : go t) (f : string -> Prop) : Prop :=
  exists t', m = Ok t' /\ ok t' /\ forall p, holds t' p <-> f p.

Lemma makes_ext m f g : makes m f -> (forall p, f p <-> g p) -> makes m g.
Proof. intros (t' & E & O & H) Hfg. exists t'. split; [done|]. split; [done|]. intros p. by rewrite H, Hfg. Qed.

Lemma NewRangeTree_ok : ok NewRangeTree /\ forall p, ~ holds NewRangeTree p.
Proof. split; [done|]. by intros p []. Qed.

Import RangeTreeNode(wf, covers, coversO, Ukey, setUkey, wf_le, wf_setUkey, Ukey_setUkey, covers_setUkey,
  extend_low, extend_high, AddRange_changed, DeleteRange_remains).

(** Widening the bounds of a node. *)
Lemma extend_both n lo hi lo' hi' : wf n lo hi -> str_le lo' lo -> str_le hi hi' ->
  wf n lo' hi' /\ forall p, covers n lo' hi' p <-> covers n lo hi p \/ between p lo' lo \/ between p hi hi'.
Proof.
  intros W H1 H2. destruct (extend_low n lo lo' hi W H1) as [W1 C1].
  destruct (extend_high n lo' hi hi' W1 H2) as [W2 C2]. split; [done|].
  intros p. rewrite C2, C1. tauto.
Qed.

Lemma AddRange_makes t rl rh : ok t -> makes (AddRange t rl rh) (fun p => holds t p \/ between p rl rh).
Proof.
  destruct t as [lo hi r]. unfold ok, AddRange, holds. cbn [start end_ root]. intros Ht.
  by_cases (str_lt rh rl) as E0.
  { exists {| start := lo; end_ := hi; root := r |}. split; [done|]. split; [done|].
    intros p. unfold holds. cbn. split; [tauto|]. intros [?|[? ?]]; [done|str_order]. }
  destruct r as [n|]; cycle 1.
  { eexists. split; [reflexivity|]. unfold ok, holds. cbn [start end_ root wf covers Ukey].
    split; [split; [str_order|done]|]. unfold between. tauto. }
  destruct Ht as [W K]. pose proof (wf_le _ _ _ W) as L.
  by_cases (str_lt rh lo) as E1.
  { eexists. split; [reflexivity|]. unfold ok, holds. cbn [start end_ root wf covers Ukey].
    rewrite wf_setUkey, Ukey_setUkey. split; [repeat split; first [done|str_order]|].
    intros p. rewrite covers_setUkey. unfold between. tauto. }
  by_cases (str_lt hi rl) as E2.
  { eexists. split; [reflexivity|]. unfold ok, holds. cbn [start end_ root wf covers Ukey].
    rewrite K. split; [repeat split; first [done|str_order]|]. unfold between. tauto. }
  set (hi' := if bool_decide (str_lt hi rh) then rh else hi).
  set (lo' := if bool_decide (str_lt rl lo) then rl else lo).
  set (n' := if bool_decide (str_lt hi rh) then setUkey n rh else n).
  assert (str_le lo' lo /\ str_le hi hi' /\ str_le lo' rl /\ str_le rh hi' /\ (lo' = rl \/ lo' = lo) /\ (hi' = rh \/ hi' = hi))
    as (B1 & B2 & B3 & B4 & B5 & B6).
  { unfold lo', hi'. repeat case_bool_decide; repeat split; first [str_order|auto]. }
  assert (wf n' lo' hi' /\ Ukey n' = hi' /\ forall p, covers n' lo' hi' p <-> covers n lo hi p \/ between p lo' lo \/ between p hi hi')
    as (W' & K' & C').
  { destruct (extend_both n lo hi lo' hi' W B1 B2) as [W1 C1]. unfold n', hi' in *.
    destruct (bool_decide _); rewrite ?wf_setUkey, ?Ukey_setUkey; (split; [done|]; split; [done|]);
      intros p; by rewrite ?covers_setUkey, C1. }
  destruct (AddRange_changed n' lo' rl rh hi') as (m & E & [Km Wm Cm]); [done|done|str_order|done|].
  rewrite E. eexists. split; [reflexivity|]. unfold ok, holds. cbn [start end_ root].
  split; [split; [done|congruence]|]. intros p. rewrite Cm, C'.
  clearbody lo' hi' n'. clear Cm C' E K' W' Wm.
  split; [|tauto]. intros [[?|[[? ?]|[? ?]]]|?]; [by left| | |by right]; right.
  - destruct B5 as [->| ->]; split; str_order.
  - destruct B6 as [->| ->]; split; str_order.
Qed.

Lemma DeleteRange_makes t rl rh : ok t -> makes (DeleteRange t rl rh) (fun p => holds t p /\ ~ between p rl rh).
Proof.
  destruct t as [lo hi r]. unfold ok, DeleteRange, holds. cbn [start end_ root].
  destruct r as [n|]; cycle 1.
  { intros _. exists {| start := lo; end_ := hi; root := None |}. split; [done|]. split; [done|].
    intros p. unfold holds. cbn. tauto. }
  intros [W K].
  assert (forall p, covers n lo hi p -> between p lo hi) as B by (intros p; by apply RangeTreeNode.covers_between).
  assert (str_lt rh rl \/ str_lt rh lo \/ str_lt hi rl ->
    makes (Ok {| start := lo; end_ := hi; root := Some n |}) (fun p => covers n lo hi p /\ ~ between p rl rh)) as Same.
  { intros H. eexists. split; [reflexivity|]. split; [done|]. unfold holds; cbn [start end_ root].
    intros p. split; [|tauto]. intros C. split; [done|]. destruct (B p C). intros [? ?].
    destruct H as [?|[?|?]]; str_order. }
  by_cases (str_lt rh rl) as E0; [auto|]. by_cases (str_lt rh lo) as E1; [auto|].
  by_cases (str_lt hi rl) as E2; [cbn [orb]; auto|]. cbn [orb].
  set (rl' := if bool_decide (str_lt rl lo) then lo else rl).
  set (rh' := if bool_decide (str_lt hi rh) then hi else rh).
  assert (str_le lo rl' /\ str_le rl' rh' /\ str_le rh' hi /\ forall p, between p lo hi -> between p rl' rh' <-> between p rl rh)
    as (B1 & B2 & B3 & B4).
  { pose proof (wf_le _ _ _ W). unfold rl', rh'. repeat case_bool_decide;
      (split; [str_order|split; [str_order|split; [str_order|]]]); intros p [? ?]; split; intros [? ?]; split; str_order. }
  destruct (DeleteRange_remains n lo rl' rh' hi) as ([[o lo'] hi'] & E & []); [done..|by left|].
  rewrite E. eexists. split; [reflexivity|]. unfold ok, holds. cbn [start end_ root fst snd] in *.
  split; [destruct o; auto|]. intros p. transitivity (coversO o lo' hi' p); [done|].
  rewrite rm_covers. split; intros [C N]; (split; [done|]); by rewrite B4 in * by auto.
Qed.

(** The listed ranges follow each other and hold the keys of the tree. *)
Fixpoint ascending (low high : string) (rs : list (string * string)) : Prop :=
  match rs with
  | [] => str_le low high
  | (a, b) :: rs => str_le low a /\ str_le a b /\ ascending b high rs
  end.
Definition listed (rs : list (string * string)) (p : string) : Prop :=
  Exists (fun '(a, b) => between p a b) rs.

Lemma ascending_app low mid mid' high rs rs' :
  ascending low mid rs -> str_le mid mid' -> ascending mid' high rs' -> ascending low high (rs ++ rs').
Proof.
  revert low. induction rs as [|[a b] rs IH]; intros low; cbn.
  - intros ? ? H. destruct rs' as [|[a b] rs']; cbn in *; [str_order|]. destruct H as (? & ? & ?).
    repeat split; first [done|str_order].
  - intros (? & ? & ?) ? ?. auto.
Qed.

Lemma Range_acc n out low high : RangeTreeNode.Range n out low high = out ++ RangeTreeNode.Range n [] low high.
Proof.
  revert out low high. induction n as [k|k l IHl r IHr d]; intros out low high; cbn; [done|].
  rewrite IHr, (IHr (RangeTreeNode.Range l [] low (Ukey l))), IHl, (IHl []). by rewrite <- app_assoc.
Qed.

Lemma Range_node n low high : wf n low high ->
  ascending low high (RangeTreeNode.Range n [] low high) /\
  forall p, listed (RangeTreeNode.Range n [] low high) p <-> covers n low high p.
Proof.
  revert low high. induction n as [k|k l IHl r IHr d]; intros low high; cbn [wf RangeTreeNode.Range covers].
  - intros H. cbn. split; [repeat split; first [done|str_order]|]. intros p. unfold listed.
    rewrite Exists_cons, Exists_nil. tauto.
  - intros (Hl & Hk & Hr). rewrite Range_acc. destruct (IHl _ _ Hl) as [A1 C1], (IHr _ _ Hr) as [A2 C2].
    split; [by eapply ascending_app|]. intros p. unfold listed in *. by rewrite Exists_app, C1, C2.
Qed.

Lemma Range_holds t p : ok t -> listed (Range t) p <-> holds t p.
Proof.
  unfold ok, Range, holds, listed. destruct (root t) as [n|].
  - intros [W _]. by apply Range_node.
  - intros _. by rewrite Exists_nil.
Qed.

Lemma AddAll_makes t pairs : ok t -> makes (AddAll t pairs) (fun p => holds t p \/ listed pairs p).
Proof.
  unfold AddAll, listed. revert t. induction pairs as [|[a b] pairs IH]; intros t O; cbn [go_foldl].
  - exists t. split; [done|]. split; [done|]. intros p. rewrite Exists_nil. tauto.
  - destruct (AddRange_makes t a b O) as (t1 & E & O1 & H1). rewrite E. cbn [gbind].
    eapply makes_ext; [by apply IH|]. intros p. cbv beta. rewrite H1, Exists_cons. tauto.
Qed.

Lemma Add_makes t other : ok t -> ok other -> makes (Add t other) (fun p => holds t p \/ holds other p).
Proof.
  intros O1 O2. eapply makes_ext; [by apply AddAll_makes|]. intros p. cbv beta. by rewrite Range_holds.
Qed.

(** ** Refinement of sets of keys *)

(** What a program does with trees, and the set of keys it denotes. *)
Inductive expr :=
| ENew
| EAddRange (e : expr) (rangeLow rangeHigh : string)
| EDeleteRange (e : expr) (rangeLow rangeHigh : string)
| EAdd (e other : expr).

Fixpoint eval (e : expr) : go t :=
  match e with
  | ENew => Ok NewRangeTree
  | EAddRange e a b => let! t := eval e in AddRange t a b
  | EDeleteRange e a b => let! t := eval e in DeleteRange t a b
  | EAdd e other => let! t := eval e in let! o := eval other in Add t o
  end.

Fixpoint denotes (e : expr) (p : string) : bool :=
  match e with
  | ENew => false
  | EAddRange e a b => denotes e p || strInRangeRightOpen p a b
  | EDeleteRange e a b => denotes e p && negb (strInRangeRightOpen p a b)
  | EAdd e other => denotes e p || denotes other p
  end.

Lemma strInRangeRightOpen_between p a b : strInRangeRightOpen p a b = true <-> between p a b.
Proof. unfold strInRangeRightOpen. by rewrite andb_true_iff, !bool_decide_eq_true. Qed.

Lemma listed_in rs p : Exists (fun '(a, b) => strInRangeRightOpen p a b = true) rs <-> listed rs p.
Proof.
  unfold listed. rewrite !Exists_exists.
  split; intros ([a b] & ? & ?); exists (a, b); (split; [done|]); by apply strInRangeRightOpen_between.
Qed.

Lemma eval_makes e : makes (eval e) (fun p => denotes e p = true).
Proof.
  induction e as [|e (t & E & O & H) a b|e (t & E & O & H) a b|e (t & E & O & H) e' (t' & E' & O' & H')];
    cbn [eval denotes]; rewrite ?E, ?E'; cbn [gbind].
  - destruct NewRangeTree_ok as [O H]. exists NewRangeTree. split; [done|]. split; [done|].
    intros p. split; [intros []%H|done].
  - eapply makes_ext; [by apply AddRange_makes|]. intros p. cbv beta.
    by rewrite orb_true_iff, H, strInRangeRightOpen_between.
  - eapply makes_ext; [by apply DeleteRange_makes|]. intros p. cbv beta.
    by rewrite andb_true_iff, negb_true_iff, H, <- not_true_iff_false, strInRangeRightOpen_between.
  - eapply makes_ext; [by apply Add_makes|]. intros p. cbv beta. by rewrite orb_true_iff, H, H'.
Qed.

(** C27: whatever trees are built from ranges added, ranges deleted and trees
    merged, no operation panics, and [Search] answers whether the key is in the
    set those operations denote. *)
Theorem Search_refines e : exists t, eval e = Ok t /\ forall p, Search t p = denotes e p.
Proof.
  destruct (eval_makes e) as (t & E & O & H). exists t. split; [done|]. intros p.
  apply eq_true_iff_eq. by rewrite Search_holds, H.
Qed.

(** The ranges listed for such a tree follow each other from its start to
    its end without overlap, and hold exactly the keys of the set. *)
Theorem Range_refines e : exists t, eval e = Ok t /\
  (t.(root) = None \/ ascending (StartKey t) (EndKey t) (Range t)) /\
  forall p, Exists (fun '(a, b) => strInRangeRightOpen p a b = true) (Range t) <-> denotes e p = true.
Proof.
  destruct (eval_makes e) as (t & E & O & H). exists t. split; [done|]. split.
  - unfold Range, StartKey, EndKey, ok in *. destruct (root t) as [n|]; [right|by left].
    destruct O as [W _]. by apply (Range_node n _ _ W).
  - intros p. by rewrite <- H, <- Range_holds, listed_in.
Qed.

(** ** The ranges of the configuration *)

(** How a list of ranges is written. *)
Definition format1 (r : string * string) : string := "[" +:+ r.1 +:+ "," +:+ r.2 +:+ "]".
Fixpoint format (r : string * string) (rs : list (string * string)) : string :=
  match rs with
  | [] => format1 r
  | r' :: rs => format1 r +:+ String "+" (format r' rs)
  end.

Fixpoint lacks (c : ascii) (s : string) : Prop :=
  match s with EmptyString => True | String a s => a <> c /\ lacks c s end.

Lemma append_nil s : "" +:+ s = s.
Proof. done. Qed.
Lemma append_cons a s s' : String a s +:+ s' = String a (s +:+ s').
Proof. done. Qed.
Lemma append_assoc s s' s'' : (s +:+ s') +:+ s'' = s +:+ s' +:+ s''.
Proof. induction s as [|a s IH]; rewrite ?append_nil, ?append_cons; [done|]. by rewrite IH. Qed.
Ltac str_simpl := cbn; rewrite ?append_cons, ?append_nil; cbn.

Lemma lacks_app c s s' : lacks c s -> lacks c s' -> lacks c (s +:+ s').
Proof. induction s as [|a s IH]; str_simpl; [done|]. intros [? ?] ?. split; [done|]. by apply IH. Qed.

Lemma split_lacks c s : lacks c s -> split c s = [s].
Proof.
  induction s as [|a s IH]; cbn; [done|]. intros [->%Ascii.eqb_neq ?]. by rewrite IH.
Qed.

Lemma split_app c s s' : lacks c s -> split c (s +:+ String c s') = s :: split c s'.
Proof.
  induction s as [|a s IH]; str_simpl; [by rewrite Ascii.eqb_refl|].
  intros [->%Ascii.eqb_neq ?]. by rewrite IH.
Qed.

Definition plain (r : string * string) : Prop :=
  (lacks "+" r.1 /\ lacks "," r.1) /\ (lacks "+" r.2 /\ lacks "," r.2).

Lemma format1_eq r : format1 r = String "[" ((r.1 +:+ String "," r.2) +:+ "]").
Proof. unfold format1. str_simpl. by rewrite append_assoc, append_cons. Qed.

Lemma format1_lacks r : plain r -> lacks "+" (format1 r).
Proof.
  intros [[? _] [? _]]. rewrite format1_eq. cbn. split; [done|].
  apply lacks_app; [|done]. apply lacks_app; [done|]. by cbn.
Qed.

Lemma substring_prefix s s' : String.substring 0 (String.length s) (s +:+ s') = s.
Proof. induction s as [|a s IH]; str_simpl; [by destruct s'|]. by rewrite IH. Qed.

Lemma length_app_str s s' : String.length (s +:+ s') = (String.length s + String.length s')%nat.
Proof. induction s as [|a s IH]; str_simpl; [done|]. by rewrite IH. Qed.

Lemma format1_inner r : (2 <= String.length (format1 r))%nat /\
  String.substring 1 (String.length (format1 r) - 2) (format1 r) = r.1 +:+ String "," r.2.
Proof.
  rewrite format1_eq. generalize (r.1 +:+ String "," r.2). intros s. cbn [String.length String.substring].
  rewrite length_app_str. cbn [String.length]. split; [lia|].
  replace (_ - _)%nat with (String.length s) by lia. apply substring_prefix.
Qed.

Lemma split_format r rs : Forall plain (r :: rs) -> split "+" (format r rs) = map format1 (r :: rs).
Proof.
  revert r. induction rs as [|r' rs IH]; intros r [H Hrs]%Forall_cons; cbn [format].
  - by apply split_lacks, format1_lacks.
  - rewrite split_app by by apply format1_lacks. by rewrite IH.
Qed.

Lemma deserialize_format r rs : Forall plain (r :: rs) ->
  deserialize (format r rs) = Ok (map (fun r => [r.1; r.2]) (r :: rs)).
Proof.
  intros H. unfold deserialize. rewrite split_format by done.
  generalize dependent (r :: rs). clear. intros l H. induction H as [|r l H _ IH]; [done|].
  cbn [map go_mapM]. destruct (format1_inner r) as [Hn Hr].
  rewrite (bool_decide_false (_ < 2)%nat) by lia. rewrite Hr. destruct H as [[_ ?] [_ ?]].
  rewrite split_app, split_lacks by done. cbn [gbind]. by rewrite IH.
Qed.

(** The tree made from a written list of ranges, whose keys have neither
    separator in them, holds the keys of these ranges. *)
Theorem NewRangeTreeFromString_holds r rs (H : Forall plain (r :: rs)) :
  exists t, NewRangeTreeFromString (format r rs) = Ok t /\
    forall p, Search t p = existsb (fun r => strInRangeRightOpen p r.1 r.2) (r :: rs).
Proof.
  unfold NewRangeTreeFromString. rewrite deserialize_format by done. cbn [gbind].
  destruct NewRangeTree_ok as [O N]. destruct (AddAll_makes NewRangeTree (r :: rs) O) as (t & E & O' & Ht).
  exists t. split.
  - rewrite <- E. unfold AddAll. generalize (r :: rs). generalize NewRangeTree. clear.
    intros t l. revert t. induction l as [|[a b] l IH]; intros t; cbn; [done|].
    destruct (AddRange t a b); cbn; auto.
  - intros p. apply eq_true_iff_eq. rewrite Search_holds, Ht, <- listed_in by done.
    rewrite existsb_exists, Exists_exists. split.
    + intros [[]%N|([a b] & ? & ?)]. exists (a, b). by rewrite <- list_elem_of_In.
    + intros ([a b] & Hin & ?). right. exists (a, b). by rewrite list_elem_of_In.
Qed.

Lemma NewRangeTreeFromString_holds_witness :
  Forall plain [("10", "12"); ("20", "21")] /\
  exists t, NewRangeTreeFromString (format ("10", "12") [("20", "21")]) = Ok t /\
    forall p, Search t p = existsb (fun r => strInRangeRightOpen p r.1 r.2) [("10", "12"); ("20", "21")].
Proof.
  assert (Forall plain [("10", "12"); ("20", "21")]) as H by (repeat constructor; done).
  split; [exact H|exact (NewRangeTreeFromString_holds ("10", "12") [("20", "21")] H)].
Defined.

(** A shard without ranges in the configuration stops the node. *)
Example no_ranges : NewRangeTreeFromString "" = Panic.
Proof. reflexivity. Qed.
Example two_ranges_text : format ("10", "12") [("20", "21")] = "[10,12]+[20,21]".
Proof. reflexivity. Qed.
Example delete_splits :
  (let! t := NewRangeTreeFromString "[10,20]+[30,40]" in
   let! t := DeleteRange t "12" "35" in Ok (Range t)) = Ok [("10", "12"); ("35", "40")].
Proof. vm_compute. reflexivity. Qed.
End RangeTree.
