(* ===== verification/ShardInfo.v ===== *)
(** * The shards and their validators: [melete/shardinfo/shardinfo.go] *)

From S2P Require Import Prelude Wire Types Signer.
Local Open Scope Z_scope.

Module ShardInfo.
Record t := mk {
  PeerList : gmap string (list Peer.t);
  RelatedShards : gmap string bool;
  Related2LevelShards : gmap string bool;
  PeerRelatedMap : gmap string (list string);
  ShardIdentity : Z;
  KeyRangeMap : gmap string string }.

(** The message: the wrappers of repeated values are the lists themselves. *)
Record pbShardInfo := mkpb {
  pb_peerList : gmap string (list Peer.pbPeer); pb_relatedShards : gmap string bool;
  pb_related2LevelShards : gmap string bool; pb_peer_related_map : gmap string (list string);
  pb_shard_identity : Z }.

Definition setIdentity (s : t) (id : Z) : t :=
  mk (PeerList s) (RelatedShards s) (Related2LevelShards s) (PeerRelatedMap s) id (KeyRangeMap s).
Definition SetIShard (s : t) : t := setIdentity s BLOCKTYPE_I.
Definition SetCShard (s : t) : t := setIdentity s BLOCKTYPE_C.
Definition IsIShard (s : t) : bool := ShardIdentity s =? BLOCKTYPE_I.
Definition IsCShard (s : t) : bool := ShardIdentity s =? BLOCKTYPE_C.

Definition ToProto (s : t) : pbShardInfo :=
  mkpb (fmap (map Peer.ToProto) (PeerList s)) (RelatedShards s) (Related2LevelShards s)
    (PeerRelatedMap s) (ShardIdentity s).
Definition ProtoBytes `{Codec pbShardInfo} (s : t) : go bytes := MustProtoBytes (ToProto s).
(** The key ranges are not part of the message. *)
Definition NewShardInfoFromProto (p : pbShardInfo) : t :=
  mk (fmap (map Peer.NewPeerFromProto) (pb_peerList p)) (pb_relatedShards p)
    (pb_related2LevelShards p) (pb_peer_related_map p) (i8 (pb_shard_identity p)) ∅.
Definition NewShardInfoFromBytes `{Codec pbShardInfo} (bz : bytes) : option t :=
  NewShardInfoFromProto <$> Unmarshal bz.

(** [RelatedShards[x]] and [Related2LevelShards[x]] of a missing key are false. *)
Definition isRelated (s : t) (x : string) : bool := default false (RelatedShards s !! x).
Definition isRelated2 (s : t) (x : string) : bool := default false (Related2LevelShards s !! x).
(** The keys a [range] over a map visits. *)
Definition keys {A} (m : gmap string A) : list string := map fst (map_to_list m).

Lemma elem_of_keys {A} (m : gmap string A) k : k ∈ keys m <-> is_Some (m !! k).
Proof.
  unfold keys. rewrite list_elem_of_fmap. split.
  - intros ([k' v] & -> & Hin). apply elem_of_map_to_list in Hin. by exists v.
  - intros [v Hv]. exists (k, v). split; [done|]. by apply elem_of_map_to_list.
Qed.

Lemma keys_length {A} (m : gmap string A) : length (keys m) = size m.
Proof. unfold keys. by rewrite length_map, length_map_to_list. Qed.

Lemma ShardInfo_FromProto s :
  in_s 8 (ShardIdentity s) -> KeyRangeMap s = ∅ -> NewShardInfoFromProto (ToProto s) = s.
Proof.
  intros Hi Hk. destruct s as [pl r r2 pr id kr]. unfold NewShardInfoFromProto, ToProto. cbn in *.
  rewrite wrap_s_small by (done || lia). subst kr. f_equal.
  rewrite <- map_fmap_compose. rewrite <- (map_fmap_id pl) at 2. apply map_fmap_ext.
  intros k l _. cbn. rewrite map_map. rewrite <- (map_id l) at 2. apply map_ext. by intros [].
Qed.
End ShardInfo.
