(* ===== verification/HeightData.v ===== *)
(** * The data of one height: [melete/consensus/height_datas.go] and
    [melete/consensus/round-step.go]

    [HeightDataPackage] collects the messages of the current height: the
    proposal, the votes of the own shard, and the cross-shard messages of the
    related shards. *)

From S2P Require Import Prelude BitVector Hash Wire Types PartSet Signer Votes CSASet ShardInfo.
Local Open Scope Z_scope.

(** ** [round-step.go] *)

Definition RoundStepNone : Z := 0.
Definition RoundStepNewHeight : Z := 1.
Definition RoundStepNewRound : Z := 2.
Definition RoundStepPropose : Z := 3.
Definition RoundStepPrevote : Z := 4.
Definition RoundStepPrecommit : Z := 5.
Definition RoundStepCrossShardAccept : Z := 6.
Definition RoundStepCrossShardCommit : Z := 7.
Definition RoundStepCrossShardPropose : Z := RoundStepCrossShardAccept.

Definition RoundStepString (s : Z) : string :=
  if s =? RoundStepNewHeight then "New-Height"
  else if s =? RoundStepNewRound then "NewRound"
  else if s =? RoundStepPropose then "Propose"
  else if s =? RoundStepPrevote then "Prevote"
  else if s =? RoundStepPrecommit then "Precommit"
  else if s =? RoundStepCrossShardAccept then "CrossShardAccept"
  else if s =? RoundStepCrossShardCommit then "CrossShardCommit"
  else "Unknown".

(** ** Messages sent

    What a handler sends, in order: [SendToShard] of the p2p sender, whether
    called directly or in a goroutine. *)
Record Sent := mkSent { toShard : string; channel : Z; content : bytes; messageType : Z }.

Definition ChannelIDConsensusState : Z := 33.
(** [definition/message.go] *)
Definition MsgPart : Z := 1.
Definition TendermintProposal : Z := 4.
Definition TendermintPrevote : Z := 5.
Definition TendermintPrecommit : Z := 6.
Definition TendermintCrossShardProposal : Z := 7.
Definition TendermintCrossShardAccept : Z := 8.
Definition TendermintCrossShardCommit : Z := 9.

(** ** Votes of the own shard

    [Prevotes], [PrevotesBitVector] and [PrevotesTotal], and the same three
    fields for the precommits, with what the code reads of a vote. *)

Class VoteMsg (A : Type) := {
  vHeight : A -> Z; vRound : A -> Z; vIndex : A -> Z; vHash : A -> bytes; vSignature : A -> string;
  vSignBytes : A -> go bytes }.

#[export] Instance prevoteMsg `{Codec pbVote} : VoteMsg Prevote.t :=
  {| vHeight := Prevote.Height; vRound := Prevote.Round; vIndex := Prevote.ValidatorIndex;
     vHash := Prevote.BlockHeaderHash; vSignature := Prevote.Signature;
     vSignBytes := Prevote.SignBytes |}.
#[export] Instance precommitMsg `{Codec pbVote} : VoteMsg Precommit.t :=
  {| vHeight := Precommit.Height; vRound := Precommit.Round; vIndex := Precommit.ValidatorIndex;
     vHash := Precommit.BlockHeaderHash; vSignature := Precommit.Signature;
     vSignBytes := Precommit.SignBytes |}.

Record Votes (A : Type) := mkVotes { slots : list (option A); bits : option BV.t; total : Z }.
Arguments mkVotes {A}. Arguments slots {A}. Arguments bits {A}. Arguments total {A}.

Definition noVotes {A} : Votes A := mkVotes [] None 0.

Module HeightData.
Section heightdata.
Context `{Hash, StdTime, BLS, !Codec pbBlock, !Codec pbProposal, !Codec pbVote,
          !Codec pbCrossShardAccept, !Codec pbCrossShardCommit}.

(** ** State

    The sender and the pointer back to the consensus state are left out: what
    is sent is a result of the handlers. *)
Record t := mk {
  Height : Z; Round : Z; MyChainID : string; PassStep : Z;
  ShardInfo : ShardInfo.t; ShardVotes : gmap string Z; AllValidatorSet : gmap string Verifier;
  Proposal : option Proposal.t; Prevotes : Votes Prevote.t; Precommits : Votes Precommit.t;
  CrossShardProposals : gmap string CrossShardProposal.t;
  CrossShardAccepts : gmap string CSAShardSet.t; CrossShardAcceptFinishCounter : Z;
  CrossShardCommits : gmap string CrossShardCommit.t;
  CrossShardPartSets : gmap string PartSet.t; CrossShardBlocks : gmap string Block.t;
  randomHeaderBuffer : gmap string (list Part.t) }.

(** Assignments to single fields. *)
Definition setPassStep (h : t) (s : Z) : t :=
  mk (Height h) (Round h) (MyChainID h) s (ShardInfo h) (ShardVotes h) (AllValidatorSet h)
    (Proposal h) (Prevotes h) (Precommits h) (CrossShardProposals h) (CrossShardAccepts h)
    (CrossShardAcceptFinishCounter h) (CrossShardCommits h) (CrossShardPartSets h)
    (CrossShardBlocks h) (randomHeaderBuffer h).
Definition setProposal (h : t) (p : option Proposal.t) : t :=
  mk (Height h) (Round h) (MyChainID h) (PassStep h) (ShardInfo h) (ShardVotes h) (AllValidatorSet h)
    p (Prevotes h) (Precommits h) (CrossShardProposals h) (CrossShardAccepts h)
    (CrossShardAcceptFinishCounter h) (CrossShardCommits h) (CrossShardPartSets h)
    (CrossShardBlocks h) (randomHeaderBuffer h).
Definition setPrevotes (h : t) (v : Votes Prevote.t) : t :=
  mk (Height h) (Round h) (MyChainID h) (PassStep h) (ShardInfo h) (ShardVotes h) (AllValidatorSet h)
    (Proposal h) v (Precommits h) (CrossShardProposals h) (CrossShardAccepts h)
    (CrossShardAcceptFinishCounter h) (CrossShardCommits h) (CrossShardPartSets h)
    (CrossShardBlocks h) (randomHeaderBuffer h).
Definition setPrecommits (h : t) (v : Votes Precommit.t) : t :=
  mk (Height h) (Round h) (MyChainID h) (PassStep h) (ShardInfo h) (ShardVotes h) (AllValidatorSet h)
    (Proposal h) (Prevotes h) v (CrossShardProposals h) (CrossShardAccepts h)
    (CrossShardAcceptFinishCounter h) (CrossShardCommits h) (CrossShardPartSets h)
    (CrossShardBlocks h) (randomHeaderBuffer h).
Definition setCrossShardProposals (h : t) (m : gmap string CrossShardProposal.t) : t :=
  mk (Height h) (Round h) (MyChainID h) (PassStep h) (ShardInfo h) (ShardVotes h) (AllValidatorSet h)
    (Proposal h) (Prevotes h) (Precommits h) m (CrossShardAccepts h)
    (CrossShardAcceptFinishCounter h) (CrossShardCommits h) (CrossShardPartSets h)
    (CrossShardBlocks h) (randomHeaderBuffer h).
Definition setCrossShardAccepts (h : t) (m : gmap string CSAShardSet.t) (counter : Z) : t :=
  mk (Height h) (Round h) (MyChainID h) (PassStep h) (ShardInfo h) (ShardVotes h) (AllValidatorSet h)
    (Proposal h) (Prevotes h) (Precommits h) (CrossShardProposals h) m counter
    (CrossShardCommits h) (CrossShardPartSets h) (CrossShardBlocks h) (randomHeaderBuffer h).
Definition setCrossShardCommits (h : t) (m : gmap string CrossShardCommit.t) : t :=
  mk (Height h) (Round h) (MyChainID h) (PassStep h) (ShardInfo h) (ShardVotes h) (AllValidatorSet h)
    (Proposal h) (Prevotes h) (Precommits h) (CrossShardProposals h) (CrossShardAccepts h)
    (CrossShardAcceptFinishCounter h) m (CrossShardPartSets h) (CrossShardBlocks h)
    (randomHeaderBuffer h).
Definition setCrossShardPartSets (h : t) (m : gmap string PartSet.t) : t :=
  mk (Height h) (Round h) (MyChainID h) (PassStep h) (ShardInfo h) (ShardVotes h) (AllValidatorSet h)
    (Proposal h) (Prevotes h) (Precommits h) (CrossShardProposals h) (CrossShardAccepts h)
    (CrossShardAcceptFinishCounter h) (CrossShardCommits h) m (CrossShardBlocks h)
    (randomHeaderBuffer h).
Definition setCrossShardBlocks (h : t) (m : gmap string Block.t) : t :=
  mk (Height h) (Round h) (MyChainID h) (PassStep h) (ShardInfo h) (ShardVotes h) (AllValidatorSet h)
    (Proposal h) (Prevotes h) (Precommits h) (CrossShardProposals h) (CrossShardAccepts h)
    (CrossShardAcceptFinishCounter h) (CrossShardCommits h) (CrossShardPartSets h) m
    (randomHeaderBuffer h).
Definition setRandomHeaderBuffer (h : t) (m : gmap string (list Part.t)) : t :=
  mk (Height h) (Round h) (MyChainID h) (PassStep h) (ShardInfo h) (ShardVotes h) (AllValidatorSet h)
    (Proposal h) (Prevotes h) (Precommits h) (CrossShardProposals h) (CrossShardAccepts h)
    (CrossShardAcceptFinishCounter h) (CrossShardCommits h) (CrossShardPartSets h)
    (CrossShardBlocks h) m.

Definition IsIShard (h : t) : bool := ShardInfo.IsIShard (ShardInfo h).
Definition IsCShard (h : t) : bool := ShardInfo.IsCShard (ShardInfo h).

(** [PeerList[chain_id]]; a missing key gives the empty list. *)
Definition peersOf (h : t) (chain_id : string) : list Peer.t :=
  default [] (ShardInfo.PeerList (ShardInfo h) !! chain_id).
(** [ShardVotes[chain_id]] *)
Definition votesIn (h : t) (chain_id : string) : Z := default 0 (ShardVotes h !! chain_id).

(** ** Construction and reset *)

Definition peersVerifier (peers : list Peer.t) : Verifier := NewVerifier (map Peer.Pubkey peers).
Definition peersVotes (peers : list Peer.t) : Z :=
  fold_left (fun totalVotes peer => totalVotes + Peer.Vote peer) peers 0.

Definition SetShardInfo (h : t) (s : ShardInfo.t) : t :=
  mk (Height h) (Round h) (MyChainID h) (PassStep h) s
    (peersVotes <$> ShardInfo.PeerList s) (peersVerifier <$> ShardInfo.PeerList s)
    (Proposal h) (Prevotes h) (Precommits h) (CrossShardProposals h) (CrossShardAccepts h)
    (CrossShardAcceptFinishCounter h) (CrossShardCommits h) (CrossShardPartSets h)
    (CrossShardBlocks h) (randomHeaderBuffer h).

Definition clearProposal (h : t) : t :=
  let h := setProposal h None in
  let h := setCrossShardPartSets h (delete (MyChainID h) (CrossShardPartSets h)) in
  setCrossShardBlocks h (delete (MyChainID h) (CrossShardBlocks h)).

Definition emptyVotes {A} (size : Z) : Votes A :=
  mkVotes (replicate (Z.to_nat size) None) (BV.NewBitVector size) 0.

Definition clearPrevote (h : t) : go t :=
  let! val := deref (AllValidatorSet h !! MyChainID h) in
  Ok (setPrevotes h (emptyVotes (VerifierSize val))).
Definition clearPrecommit (h : t) : go t :=
  let! val := deref (AllValidatorSet h !! MyChainID h) in
  Ok (setPrecommits h (emptyVotes (VerifierSize val))).

Definition newAccepts (h : t) : gmap string CSAShardSet.t :=
  map_imap (fun cid _ => Some (CSAShardSet.NewCSAShardSet (Height h) cid (peersOf h cid)
                                 (AllValidatorSet h !! cid)))
    (ShardInfo.RelatedShards (ShardInfo h)).

Definition clearCrossShardData (h : t) : t :=
  let h := setCrossShardProposals h ∅ in
  let h := setCrossShardAccepts h (newAccepts h) 0 in
  let h := setCrossShardBlocks h ∅ in
  let h := setCrossShardCommits h ∅ in
  let h := setCrossShardPartSets h ∅ in
  setRandomHeaderBuffer h ∅.

Definition clearAll (h : t) : go t :=
  let h := clearProposal h in
  let! h := clearPrevote h in
  let! h := clearPrecommit h in
  Ok (clearCrossShardData h).

Definition NewHeightData (mychainid : string) (height : Z) (si : ShardInfo.t) : go t :=
  let h := mk height 0 mychainid RoundStepNewHeight si ∅ ∅ None noVotes noVotes ∅ ∅ 0 ∅ ∅ ∅ ∅ in
  clearAll (SetShardInfo h si).

Definition NextHeight (h : t) : go t :=
  clearAll (mk (i64 (Height h + 1)) 0 (MyChainID h) RoundStepNewHeight (ShardInfo h) (ShardVotes h)
    (AllValidatorSet h) (Proposal h) (Prevotes h) (Precommits h) (CrossShardProposals h)
    (CrossShardAccepts h) (CrossShardAcceptFinishCounter h) (CrossShardCommits h)
    (CrossShardPartSets h) (CrossShardBlocks h) (randomHeaderBuffer h)).

(** ** The steps that are finished

    Each check may advance [PassStep]. *)

Definition FinishProposal (h : t) : t * bool :=
  if PassStep h >=? RoundStepPropose then (h, true)
  else match Proposal h with
       | None => (h, false)
       | Some _ =>
           match CrossShardBlocks h !! MyChainID h with
           | None => (h, false)
           | Some _ => (setPassStep h RoundStepPropose, true)
           end
       end.

Definition quorum (h : t) (tot : Z) : bool := tot >? Z.quot (votesIn h (MyChainID h) * 2) 3.

Definition FinishPrevote (h : t) : t * bool :=
  if PassStep h >=? RoundStepPrevote then (h, true)
  else
    let '(h, b) := FinishProposal h in
    if negb b then (h, false)
    else if negb (quorum h (total (Prevotes h))) then (h, false)
    else (setPassStep h RoundStepPrevote, true).

Definition FinishPrecommit (h : t) : t * bool :=
  if PassStep h >=? RoundStepPrecommit then (h, true)
  else
    let '(h, b) := FinishPrevote h in
    if negb b then (h, false)
    else if negb (quorum h (total (Precommits h))) then (h, false)
    else (setPassStep h RoundStepPrecommit, true).

Definition hasKey {A} (m : gmap string A) (k : string) : bool := bool_decide (is_Some (m !! k)).

Definition relatedKeys (h : t) : list string := ShardInfo.keys (ShardInfo.RelatedShards (ShardInfo h)).
Definition related2Keys (h : t) : list string :=
  ShardInfo.keys (ShardInfo.Related2LevelShards (ShardInfo h)).

Definition FinishCrossShardAccept (h : t) : t * bool :=
  if PassStep h >=? RoundStepCrossShardAccept then (h, true)
  else
    let '(h, b) := FinishPrecommit h in
    if negb b then (h, false)
    else
      let ProposalSize := zlen (relatedKeys h) in
      if Z.of_nat (size (CrossShardProposals h)) <? ProposalSize + 1 then (h, false)
      else if Z.of_nat (size (CrossShardBlocks h)) <? ProposalSize + 1 then (h, false)
      else if negb (forallb (fun key => hasKey (CrossShardProposals h) key &&
                                        hasKey (CrossShardBlocks h) key) (relatedKeys h))
      then (h, false)
      else (setPassStep h RoundStepCrossShardAccept, true).

Definition FinishCrossShardProposal (h : t) : t * bool :=
  if PassStep h >=? RoundStepCrossShardPropose then (h, true)
  else
    let '(h, b) := FinishPrecommit h in
    if negb b then (h, false)
    else if CrossShardAcceptFinishCounter h <? zlen (relatedKeys h) then (h, false)
    else (setPassStep h RoundStepCrossShardPropose, true).

Definition FinishCrossShardCommit_I (h : t) : t * bool :=
  if PassStep h >=? RoundStepCrossShardCommit then (h, true)
  else
    let '(h, b) := FinishCrossShardAccept h in
    if negb b then (h, false)
    else if Z.of_nat (size (CrossShardCommits h)) <? zlen (relatedKeys h) then (h, false)
    else if negb (forallb (hasKey (CrossShardCommits h)) (relatedKeys h)) then (h, false)
    else (setPassStep h RoundStepCrossShardCommit, true).

(** This check does not advance [PassStep] to its own step. *)
Definition FinishCrossShardCommit_B (h : t) : t * bool :=
  if PassStep h >=? RoundStepCrossShardCommit then (h, true)
  else
    let '(h, b) := FinishCrossShardProposal h in
    if negb b then (h, false)
    else
      let n := zlen (relatedKeys h) + zlen (related2Keys h) + 1 in
      if Z.of_nat (size (CrossShardCommits h)) <? zlen (related2Keys h) + 1 then (h, false)
      else if Z.of_nat (size (CrossShardProposals h)) <? n then (h, false)
      else if Z.of_nat (size (CrossShardBlocks h)) <? n then (h, false)
      else if negb (forallb (fun key => hasKey (CrossShardBlocks h) key &&
                                        hasKey (CrossShardProposals h) key) (relatedKeys h))
      then (h, false)
      else if negb (forallb (fun key => hasKey (CrossShardBlocks h) key &&
                                        hasKey (CrossShardProposals h) key &&
                                        hasKey (CrossShardCommits h) key) (related2Keys h))
      then (h, false)
      else (h, true).

(** ** Parts and proposals *)

Definition addInnerPart (h : t) (p : Part.t) : go (t * option goerr) :=
  if negb (Height h =? Part.Height p) || negb (Round h =? Part.Round p) then Ok (h, Some DoNothing)
  else
    match CrossShardPartSets h !! Part.ChainID p with
    | None =>
        Ok (setRandomHeaderBuffer h
              (<[Part.ChainID p := default [] (randomHeaderBuffer h !! Part.ChainID p) ++ [p]]>
                 (randomHeaderBuffer h)), Some DoNothing)
    | Some part_set =>
        let! '(part_set, err) := PartSet.AddPart part_set p in
        let h := setCrossShardPartSets h (<[Part.ChainID p := part_set]> (CrossShardPartSets h)) in
        match err with
        | Some DuplicatedPartPassError => Ok (h, Some DoNothing)
        | Some err => Ok (h, Some err)
        | None =>
            if PartSet.IsComplete part_set then
              let! '(block, err) := PartSet.GenBlock part_set in
              match err with
              | Some err => Ok (h, Some err)
              | None =>
                  let! block := deref block in
                  Ok (setCrossShardBlocks h (<[Part.ChainID p := block]> (CrossShardBlocks h)), None)
              end
            else Ok (h, None)
        end
    end.

Definition AddPart (h : t) (p : Part.t) : go (t * option goerr) := addInnerPart h p.

(** The loop over the buffered parts; their errors are dropped. *)
Definition addBuffered (h : t) (chain_id : string) : go t :=
  match randomHeaderBuffer h !! chain_id with
  | None => Ok h
  | Some parts => go_foldl (fun h part => let! '(h, _) := addInnerPart h part in Ok h) h parts
  end.

(** ** Votes *)

Section votes.
Context {A} `{VoteMsg A}.

(** [AddPrevote] and [AddPrecommit], which differ in the fields they work on. *)
Definition addVote (h : t) (vs : Votes A) (p : A) : go (Votes A * option goerr) :=
  let! seen := BV.GetIndex (bits vs) (vIndex p) in
  if seen then Ok (vs, Some DoNothing)
  else if negb (Height h =? vHeight p) || negb (Round h =? vRound p) then Ok (vs, Some DoNothing)
  else
    let! val := deref (AllValidatorSet h !! MyChainID h) in
    let maxSize := VerifierSize val in
    if (vIndex p <? 0) || (vIndex p >=? maxSize) then
      Ok (vs, Some (Errorf "Proposer error: Should be at [0,%d], received %d"))
    else
      let! msg := vSignBytes p in
      let! valid := Verify val (vSignature p) msg (vIndex p) in
      if negb valid then Ok (vs, Some (Errorf "signature verification failed"))
      else
        let index := vIndex p in
        let! slots' := upd (slots vs) index (Some p) in
        match Proposal h with
        | Some proposal =>
            if bool_decide (Proposal.BlockHeaderHash proposal = vHash p) then
              let! '(bits', _) := BV.SetIndex (bits vs) index true in
              let! peer := idx (peersOf h (MyChainID h)) index in
              Ok (mkVotes slots' bits' (total vs + Peer.Vote peer), None)
            else Ok (mkVotes slots' (bits vs) (total vs), None)
        | None => Ok (mkVotes slots' (bits vs) (total vs), None)
        end.

(** The loop of [reCalculatePrevotes] and [reCalculatePrecommits]. *)
Fixpoint recountLoop (h : t) (blockHeaderHash : bytes) (i : Z) (rest : list (option A)) (vs : Votes A) :
    go (Votes A) :=
  match rest with
  | [] => Ok vs
  | None :: rest => recountLoop h blockHeaderHash (i + 1) rest vs
  | Some v :: rest =>
      if bool_decide (blockHeaderHash = vHash v) then
        let! '(bits', _) := BV.SetIndex (bits vs) i true in
        let! peer := idx (peersOf h (MyChainID h)) i in
        recountLoop h blockHeaderHash (i + 1) rest
          (mkVotes (slots vs) bits' (total vs + Peer.Vote peer))
      else recountLoop h blockHeaderHash (i + 1) rest vs
  end.

Definition recount (h : t) (vs : Votes A) : go (Votes A) :=
  match Proposal h with
  | None => Ok vs
  | Some p => recountLoop h (Proposal.BlockHeaderHash p) 0 (slots vs) vs
  end.
End votes.

Definition AddPrevote (h : t) (p : Prevote.t) : go (t * option goerr) :=
  let! '(vs, err) := addVote h (Prevotes h) p in Ok (setPrevotes h vs, err).
Definition AddPrecommit (h : t) (p : Precommit.t) : go (t * option goerr) :=
  let! '(vs, err) := addVote h (Precommits h) p in Ok (setPrecommits h vs, err).

Definition reCalculatePrevotes (h : t) : go t :=
  let! vs := recount h (Prevotes h) in Ok (setPrevotes h vs).
Definition reCalculatePrecommits (h : t) : go t :=
  let! vs := recount h (Precommits h) in Ok (setPrecommits h vs).

Definition AddProposal (h : t) (p : Proposal.t) (index : Z) : go (t * option goerr) :=
  match Proposal h with
  | Some _ => Ok (h, Some DoNothing)
  | None =>
      let ph := Proposal.Header p in
      if negb (Height h =? PartSetHeader.Height ph) || negb (Round h =? PartSetHeader.Round ph)
      then Ok (h, Some DoNothing)
      else if negb (Proposal.ProposerIndex p =? index) then
        Ok (h, Some (Errorf "Proposer error: Should have been %d, received %d"))
      else if negb (bool_decide (PartSetHeader.ChainID ph = MyChainID h)) then
        Ok (h, Some (Errorf "Proposal validation failed"))
      else
        let! val := deref (AllValidatorSet h !! MyChainID h) in
        let! msg := Proposal.SignBytes p in
        let! valid := Verify val (Proposal.Signature p) msg index in
        if negb valid then Ok (h, Some (Errorf "Proposal signature verification failed"))
        else
          let h := setProposal h (Some p) in
          let! part_set := PartSet.NewPartSet (Some ph) (Proposal.BlockHeaderHash p) in
          let h := setCrossShardPartSets h (<[MyChainID h := part_set]> (CrossShardPartSets h)) in
          let! h := addBuffered h (PartSetHeader.ChainID ph) in
          let! h := reCalculatePrevotes h in
          let! h := reCalculatePrecommits h in
          Ok (h, None)
  end.

(** ** Cross-shard messages *)

(** The votes of the set bits, added in 32 bits. *)
Definition proposalVotes (bv : option BV.t) (peers : list Peer.t) : go Z :=
  go_foldl (fun voteTotal (i : nat) =>
      let! b := BV.GetIndex bv (Z.of_nat i) in
      if b then let! peer := idx peers (Z.of_nat i) in Ok (i32 (voteTotal + Peer.Vote peer))
      else Ok voteTotal)
    0 (seq 0 (Z.to_nat (BV.Size bv))).

Definition AddCrossShardProposal (h : t) (csp : CrossShardProposal.t) : go (t * option goerr) :=
  let agg := CrossShardProposal.AggregatedSignatures csp in
  let header := PrecommitAggregated.Header agg in
  let chain_id := PartSetHeader.ChainID header in
  if negb (PartSetHeader.Height header =? Height h) then Ok (h, Some DoNothing)
  else
    match CrossShardProposals h !! chain_id with
    | Some _ => Ok (h, Some DoNothing)
    | None =>
        let bv := PrecommitAggregated.ValidatorBitVector agg in
        let! valid := PrecommitAggregated.VerifySignatures agg (AllValidatorSet h !! chain_id)
                        (BV.Byte bv) in
        if negb valid then Ok (h, Some (Errorf "CrossShardProposal signature verification failed:%s"))
        else
          let! voteTotal := proposalVotes bv (peersOf h chain_id) in
          if negb (voteTotal >? i32 (Z.quot (votesIn h chain_id * 2) 3)) then
            Ok (h, Some (Errorf "CrossShardProposal received less than 2/3 votes:%s"))
          else
            let h := setCrossShardProposals h (<[chain_id := csp]> (CrossShardProposals h)) in
            let! part_set := PartSet.NewPartSet (Some header) (PrecommitAggregated.BlockHeaderHash agg) in
            let h := setCrossShardPartSets h (<[chain_id := part_set]> (CrossShardPartSets h)) in
            let! h := addBuffered h chain_id in
            Ok (h, None)
    end.

Definition AddCrossShardAccept (h : t) (csa : CrossShardAccept.t) : go (t * option goerr) :=
  if negb (CrossShardAccept.Height csa =? Height h) then Ok (h, Some DoNothing)
  else if negb (bool_decide (CrossShardAccept.UpperChainID csa = MyChainID h)) then
    Ok (h, Some (Errorf "This is a vote for %s's CrossShardAccept. I'm %s"))
  else
    let cid := CrossShardAccept.AcceptChainID csa in
    if negb (ShardInfo.isRelated (ShardInfo h) cid) then
      Ok (h, Some (Errorf "%s is not my bridged i-shard (%s)"))
    else
      match CrossShardAccepts h !! cid with
      | None => Ok (h, Some (Errorf "%s is not my lower shard"))
      | Some acid =>
          let startFlag := CSAShardSet.HasMaj23 acid in
          let! '(acid, err) := CSAShardSet.AddCSA acid csa in
          let m := <[cid := acid]> (CrossShardAccepts h) in
          let counter := CrossShardAcceptFinishCounter h in
          match err with
          | Some err => Ok (setCrossShardAccepts h m counter, Some err)
          | None =>
              let endFlag := CSAShardSet.HasMaj23 acid in
              Ok (setCrossShardAccepts h m
                    (if negb startFlag && endFlag then counter + 1 else counter), None)
          end
      end.

(** The loop over the related shards of the sender; an error ends it. *)
Fixpoint checkCommit (h : t) (csc : CrossShardCommit.t) (i : Z) (chains : list string) :
    go (option goerr) :=
  match chains with
  | [] => Ok None
  | chain_id :: chains =>
      let! listed := idx (CrossShardCommit.ChainList csc) i in
      if negb (bool_decide (chain_id = listed)) then
        Ok (Some (Errorf "CrossShardCommit's ChainID does not match"))
      else
        let! err := CrossShardCommit.ValidateVote csc (peersOf h chain_id)
                      (AllValidatorSet h !! chain_id) i (i32 (votesIn h chain_id)) in
        match err with
        | Some err => Ok (Some err)
        | None => checkCommit h csc (i + 1) chains
        end
  end.

Definition SendToRelatedShardsExcept (bz : bytes) (mtype : Z) (relatedShards : list string) : list Sent :=
  map (fun shard => mkSent shard ChannelIDConsensusState bz mtype) relatedShards.

(** [PeerRelatedMap[chain_id]] *)
Definition relatedOf (h : t) (chain_id : string) : list string :=
  default [] (ShardInfo.PeerRelatedMap (ShardInfo h) !! chain_id).

Definition AddCrossShardCommit (h : t) (csc : CrossShardCommit.t) : go (t * list Sent * option goerr) :=
  let upper := CrossShardCommit.UpperChainID csc in
  if negb (CrossShardCommit.Height csc =? Height h) then Ok (h, [], Some DoNothing)
  else
    match CrossShardCommits h !! upper with
    | Some _ => Ok (h, [], Some DoNothing)
    | None =>
        if negb (ShardInfo.isRelated (ShardInfo h) upper) &&
           negb (ShardInfo.isRelated2 (ShardInfo h) upper) then
          Ok (h, [], Some (Errorf "This is a vote for %s's CrossShardCommit, not my neighboring shards"))
        else if negb (zlen (CrossShardCommit.ChainList csc) =? zlen (relatedOf h upper)) then
          Ok (h, [], Some (Errorf "The number of shards in CrossShardCommit does not match the  graph"))
        else
          let! err := checkCommit h csc 0 (relatedOf h upper) in
          match err with
          | Some err => Ok (h, [], Some err)
          | None =>
              let h := setCrossShardCommits h (<[upper := csc]> (CrossShardCommits h)) in
              if IsIShard h then
                let relatedMap := filter (fun key => key <> upper) (relatedKeys h) in
                let! bz := CrossShardCommit.ProtoBytes csc in
                Ok (h, SendToRelatedShardsExcept bz TendermintCrossShardCommit relatedMap, None)
              else Ok (h, [], None)
          end
    end.

(** ** Messages made from the collected votes *)

(** The signatures of the slots whose bit is set. *)
Definition countedSignatures (vs : Votes Precommit.t) : go (list string) :=
  go_foldl (fun aggSigs (i : nat) =>
      let! b := BV.GetIndex (bits vs) (Z.of_nat i) in
      if b then
        let! slot := idx (slots vs) (Z.of_nat i) in
        let! v := deref slot in
        Ok (aggSigs ++ [Precommit.Signature v])
      else Ok aggSigs)
    [] (seq 0 (Z.to_nat (BV.Size (bits vs)))).

Definition GenerateAggregatePrecommitSignature (h : t) : go PrecommitAggregated.t :=
  let! aggSigs := countedSignatures (Precommits h) in
  let! aggSig := deref (AggregateSignatures aggSigs) in
  let! p := deref (Proposal h) in
  PrecommitAggregated.NewPrecommitAggregated (BV.Byte (bits (Precommits h))) (Proposal.Header p)
    (Proposal.BlockHeaderHash p) aggSig.

(** One round of the loop: the aggregate of one related shard. *)
Definition acceptOf (h : t) (key : string) : go (string * bytes * bytes) :=
  let! set := deref (CrossShardAccepts h !! key) in
  let '(cmtstatus, votes) := CSAShardSet.GetMaj23 set in
  let! bv := go_foldl (fun bv vote =>
      let! '(bv, _) := BV.SetIndex bv (CrossShardAccept.ValidatorIndex vote) true in Ok bv)
    (BV.NewBitVector (zlen (peersOf h key))) votes in
  let! aggSig := deref (AggregateSignatures (map CrossShardAccept.Signature votes)) in
  Ok (aggSig, BV.Byte bv, default [] cmtstatus).

Definition GenerateCrossShardCommit (h : t) : go CrossShardCommit.t :=
  let chainList := relatedOf h (MyChainID h) in
  let! parts := go_mapM (acceptOf h) chainList in
  let! p := deref (Proposal h) in
  CrossShardCommit.NewCrossShardCommit (MyChainID h) (Height h) (Proposal.BlockHeaderHash p)
    chainList (map (fun x => x.1.1) parts) (map (fun x => x.1.2) parts) (map (fun x => x.2) parts).

(** ** Assignments of the consensus state ([main.go])

    The own proposal of a proposer ([createBlockAndBroadcast]), the own
    cross-shard proposal ([doPrecommit]) and the own cross-shard commit
    ([doCSP]) are put into the package without a check. *)
Definition setOwnProposal (h : t) (block : Block.t) (part_set : PartSet.t) (p : Proposal.t) : t :=
  let h := setCrossShardBlocks h (<[MyChainID h := block]> (CrossShardBlocks h)) in
  let h := setCrossShardPartSets h (<[MyChainID h := part_set]> (CrossShardPartSets h)) in
  setProposal h (Some p).
Definition setOwnCrossShardProposal (h : t) (csp : CrossShardProposal.t) : t :=
  setCrossShardProposals h (<[MyChainID h := csp]> (CrossShardProposals h)).
(** A block of the package that was hashed: its header and hash are filled in. *)
Definition setBlock (h : t) (chain_id : string) (b : Block.t) : t :=
  setCrossShardBlocks h (<[chain_id := b]> (CrossShardBlocks h)).
Definition setOwnCrossShardCommit (h : t) (csc : CrossShardCommit.t) : t :=
  setCrossShardCommits h (<[MyChainID h := csc]> (CrossShardCommits h)).

(** ** Invariant *)

(** The verifiers and the vote totals are those of the shard information. *)
Record configOK (h : t) : Prop := {
  c_valset : AllValidatorSet h = peersVerifier <$> ShardInfo.PeerList (ShardInfo h);
  c_votes : ShardVotes h = peersVotes <$> ShardInfo.PeerList (ShardInfo h);
  c_mine : is_Some (ShardInfo.PeerList (ShardInfo h) !! MyChainID h);
  c_nonneg cid : votesNonneg (peersOf h cid)
}.

Definition sameConfig (h h' : t) : Prop :=
  Height h' = Height h /\ Round h' = Round h /\ MyChainID h' = MyChainID h /\
  ShardInfo h' = ShardInfo h /\ ShardVotes h' = ShardVotes h /\ AllValidatorSet h' = AllValidatorSet h.

Lemma peersVotes_all peers : peersVotes peers = allVotes peers.
Proof.
  unfold peersVotes, allVotes. assert (forall acc, fold_left
    (fun totalVotes peer => totalVotes + Peer.Vote peer) peers acc = acc + zsum (map Peer.Vote peers)) as ->.
  { induction peers as [|p l IH]; intros acc; cbn [fold_left map]; [cbn; lia|].
    rewrite IH, zsum_cons. lia. }
  lia.
Qed.

Lemma votesIn_all h cid : configOK h -> votesIn h cid = allVotes (peersOf h cid).
Proof.
  intros Hc. unfold votesIn, peersOf. rewrite (c_votes h Hc), lookup_fmap.
  destruct (ShardInfo.PeerList _ !! cid); simpl; [apply peersVotes_all|done].
Qed.

Lemma valset_Some h cid val : configOK h ->
  AllValidatorSet h !! cid = Some val -> val = peersVerifier (peersOf h cid).
Proof.
  intros Hc. unfold peersOf. rewrite (c_valset h Hc), lookup_fmap.
  destruct (ShardInfo.PeerList _ !! cid); simpl; [by intros [= <-]|done].
Qed.

Lemma mine_valset h : configOK h ->
  AllValidatorSet h !! MyChainID h = Some (peersVerifier (peersOf h (MyChainID h))).
Proof.
  intros Hc. destruct (c_mine h Hc) as [l Hl]. unfold peersOf.
  by rewrite (c_valset h Hc), lookup_fmap, Hl.
Qed.

Lemma peersVerifier_length peers : length (peersVerifier peers) = length peers.
Proof. unfold peersVerifier, NewVerifier. by rewrite !length_map. Qed.

Section voteslemmas.
Context {A} `{VoteMsg A}.

(** A vote that was checked: it is for this height and round, from the validator
    of its slot and signed by it. *)
Record checked (h : t) (i : Z) (v : A) : Prop := {
  ck_index : vIndex v = i;
  ck_height : vHeight v = Height h;
  ck_round : vRound v = Round h;
  ck_signed : exists val msg, AllValidatorSet h !! MyChainID h = Some val /\
    vSignBytes v = Ok msg /\ Verify val (vSignature v) msg i = Ok true
}.

(** The vote in slot [i] is for the proposed block. *)
Definition counted (h : t) (vs : Votes A) (i : Z) : Prop :=
  exists v p, zlook (slots vs) i = Some (Some v) /\ Proposal h = Some p /\
    Proposal.BlockHeaderHash p = vHash v.

(** The bits are set exactly for the counted slots below [n], and the total is
    theirs. *)
Record tallied (h : t) (vs : Votes A) (bv : BV.t) (n : Z) : Prop := {
  t_bits : bits vs = Some bv;
  t_wf : BV.wf bv;
  t_size : BV.Bits bv = zlen (peersOf h (MyChainID h));
  t_len : zlen (slots vs) = zlen (peersOf h (MyChainID h));
  t_bit i : 0 <= i < zlen (slots vs) -> BV.bit bv i = true <-> i < n /\ counted h vs i;
  t_total : total vs = votesOf bv (peersOf h (MyChainID h))
}.

Definition slotsOK (h : t) (vs : Votes A) : Prop :=
  forall i v, zlook (slots vs) i = Some (Some v) -> checked h i v.

Definition votesOK (h : t) (vs : Votes A) : Prop :=
  slotsOK h vs /\ exists bv, tallied h vs bv (zlen (slots vs)).

(** Counting one more slot. *)
Lemma tally_set h vs bv n i v p slots' :
  tallied h vs bv n -> 0 <= i < zlen (slots vs) -> BV.bit bv i = false ->
  slots' = <[Z.to_nat i := Some v]> (slots vs) -> Proposal h = Some p ->
  Proposal.BlockHeaderHash p = vHash v ->
  exists bv' peer, BV.SetIndex (bits vs) i true = Ok (Some bv', true) /\
    idx (peersOf h (MyChainID h)) i = Ok peer /\ BV.wf bv' /\ BV.Bits bv' = BV.Bits bv /\
    (forall j, 0 <= j -> BV.bit bv' j = if j =? i then true else BV.bit bv j) /\
    total vs + Peer.Vote peer = votesOf bv' (peersOf h (MyChainID h)).
Proof.
  intros [Eb Hwf Hsz Hlen Hbit Htot] Hi Hf -> Hp Hh. rewrite Eb.
  destruct (BV.SetIndex_spec bv i true Hwf ltac:(lia)) as (bv' & E & Hwf' & HB & Hb').
  destruct (idx_total (peersOf h (MyChainID h)) i ltac:(lia)) as (peer & Ep & _).
  exists bv', peer. split; [done|]. split; [done|]. split; [done|]. split; [done|]. split; [done|].
  unfold votesOf. rewrite (votesFrom_set bv bv' 0 i) by (done || lia).
  rewrite Z.sub_0_r. apply idx_Ok in Ep. rewrite Ep, Htot. done.
Qed.

Lemma zlook_insert {B} (l : list B) i j (b : B) :
  0 <= i < zlen l -> 0 <= j -> zlook (<[Z.to_nat i := b]> l) j = if j =? i then Some b else zlook l j.
Proof.
  intros Hi Hj. unfold zlook. case_decide; [lia|]. destruct (Z.eqb_spec j i) as [->|Hne].
  - apply list_lookup_insert_eq. lia.
  - apply list_lookup_insert_ne. lia.
Qed.

Lemma Verify_Ok val sig msg i : 0 <= i -> exists b, Verify val sig msg i = Ok b.
Proof.
  intros Hi. unfold Verify. rewrite Z.geb_leb. destruct (Z.leb_spec (zlen val) i); [eauto|].
  destruct (idx_total val i ltac:(lia)) as (pk & -> & _). cbn. destruct pk; [|eauto].
  destruct (sigDeserialize sig); eauto.
Qed.

(** Adding a vote keeps the invariant; it panics only through a negative index
    below the first byte of the bit vector or an unencodable message. *)
Lemma addVote_ok h vs p vs' err :
  configOK h -> votesOK h vs -> addVote h vs p = Ok (vs', err) -> votesOK h vs' /\
  (forall bv bv', bits vs = Some bv -> bits vs' = Some bv' ->
     votesOf bv (peersOf h (MyChainID h)) <= votesOf bv' (peersOf h (MyChainID h))).
Proof.
  intros Hc [Hs (bv & Ht)] E. unfold addVote in E.
  assert (forall vs1 : Votes A, bits vs1 = bits vs -> forall bv bv', bits vs = Some bv ->
    bits vs1 = Some bv' -> votesOf bv (peersOf h (MyChainID h)) <= votesOf bv' (peersOf h (MyChainID h))) as Hsame.
  { intros vs1 E1 b1 b2 E2 E3. assert (b1 = b2) as -> by congruence. lia. }
  apply gbind_Ok in E as (seen & Eseen & E). destruct seen; [by injection E as <- <-; split; [split; eauto|apply Hsame]|].
  destruct (Z.eqb_spec (Height h) (vHeight p)) as [EH|]; [|by injection E as <- <-; split; [split; eauto|apply Hsame]].
  destruct (Z.eqb_spec (Round h) (vRound p)) as [ER|]; [|by injection E as <- <-; split; [split; eauto|apply Hsame]].
  cbn [orb negb] in E. rewrite mine_valset in E by done. cbn [deref gbind] in E.
  destruct (Z.ltb_spec (vIndex p) 0) as [|Hi0]; [by injection E as <- <-; split; [split; eauto|apply Hsame]|].
  cbn [orb] in E. rewrite Z.geb_leb in E. unfold VerifierSize in E. rewrite peersVerifier_length in E.
  destruct (Z.leb_spec (zlen (peersOf h (MyChainID h))) (vIndex p)) as [|Hi1];
    [by injection E as <- <-; split; [split; eauto|apply Hsame]|].
  apply gbind_Ok in E as (msg & Em & E). apply gbind_Ok in E as (valid & Ev & E).
  destruct valid; [|by injection E as <- <-; split; [split; eauto|apply Hsame]]. cbn [negb] in E.
  apply gbind_Ok in E as (slots' & Es & E). apply upd_Ok in Es as [Hi Es].
  set (i := vIndex p) in *.
  assert (BV.bit bv i = false) as Hf.
  { rewrite (t_bits _ _ _ _ Ht) in Eseen. rewrite BV.GetIndex_spec in Eseen by (done || apply Ht).
    rewrite (t_size _ _ _ _ Ht) in Eseen. destruct (Z.ltb_spec i (zlen (peersOf h (MyChainID h)))); [|lia].
    by injection Eseen. }
  assert (checked h i p) as Hck.
  { split; try done. exists (peersVerifier (peersOf h (MyChainID h))), msg. by rewrite mine_valset. }
  assert (forall b tot, slotsOK h (mkVotes slots' b tot)) as Hs'.
  { intros b tot j v Hj. cbn in Hj. pose proof Hj as [Hj0 _]%zlook_Some.
    rewrite Es, zlook_insert in Hj by (done || lia).
    destruct (Z.eqb_spec j i) as [->|]; [by injection Hj as <-|by apply Hs]. }
  assert (zlen slots' = zlen (slots vs)) as Hl' by by rewrite Es, length_insert.
  assert (forall b tot j, 0 <= j -> j <> i -> counted h (mkVotes slots' b tot) j <-> counted h vs j) as Hcnt.
  { intros b tot j Hj Hne. unfold counted. cbn. rewrite Es, zlook_insert by (done || lia).
    by destruct (Z.eqb_spec j i). }
  assert ((forall q, Proposal h = Some q -> Proposal.BlockHeaderHash q <> vHash p) ->
    votesOK h (mkVotes slots' (bits vs) (total vs))) as Hno.
  { intros Hq. split; [done|]. exists bv. destruct Ht. split; cbn; rewrite ?Hl'; try done.
    intros j Hj. destruct (decide (j = i)) as [->|Hne]; [|rewrite Hcnt by (done || lia); by apply t_bit0].
    rewrite Hf. split; [done|]. intros (_ & v & q & Hz & Eq & Hv). cbn in Hz.
    rewrite Es, zlook_insert, Z.eqb_refl in Hz by (done || lia). injection Hz as <-. by destruct (Hq q). }
  destruct (Proposal h) as [q|] eqn:Eq.
  2: { injection E as <- <-. split; [by apply Hno|by apply Hsame]. }
  case_bool_decide as Hh.
  2: { injection E as <- <-. split; [apply Hno; by intros ? [= <-]|by apply Hsame]. }
  destruct (tally_set h vs bv (zlen (slots vs)) i p q slots' Ht Hi Hf Es Eq Hh)
    as (bv' & peer & E1 & E2 & Hwf' & HB & Hb' & Htot).
  rewrite E1, E2 in E. cbn [gbind] in E. injection E as <- <-. split.
  - split; [done|]. exists bv'. split; cbn; rewrite ?Hl'; try done.
    + rewrite HB. apply Ht.
    + apply Ht.
    + intros j Hj. rewrite Hb' by lia. destruct (Z.eqb_spec j i) as [->|Hne].
      * split; [|done]. intros _. split; [lia|]. exists p, q. cbn.
        by rewrite Es, zlook_insert, Z.eqb_refl by (done || lia).
      * rewrite Hcnt by (done || lia). by apply Ht.
  - intros b b' Eb [= <-]. assert (b = bv) as -> by (rewrite (t_bits _ _ _ _ Ht) in Eb; congruence).
    rewrite <- Htot, (t_total _ _ _ _ Ht). apply idx_Ok, zlook_Some in E2 as [_ E2].
    pose proof (c_nonneg h Hc (MyChainID h)) as Hn. unfold votesNonneg in Hn.
    rewrite Forall_lookup in Hn. specialize (Hn _ _ E2). simpl in Hn. lia.
Qed.
Lemma recountLoop_ok h p vs bv (i : nat) rest :
  Proposal h = Some p -> tallied h vs bv (Z.of_nat i) -> rest = drop i (slots vs) ->
  (i <= length (slots vs))%nat ->
  exists vs' bv', recountLoop h (Proposal.BlockHeaderHash p) (Z.of_nat i) rest vs = Ok vs' /\
    slots vs' = slots vs /\ tallied h vs' bv' (zlen (slots vs)).
Proof.
  intros Hp. revert i vs bv. induction rest as [|slot rest IH]; intros i vs bv Ht Hr Hi.
  { exists vs, bv. split; [done|]. split; [done|]. apply (f_equal length) in Hr.
    rewrite length_drop in Hr. simpl in Hr.
    by replace (zlen (slots vs)) with (Z.of_nat i) by lia. }
  assert (slots vs !! i = Some slot) as Hslot.
  { rewrite <- (Nat.add_0_r i), <- lookup_drop, <- Hr. done. }
  pose proof (lookup_lt_Some _ _ _ Hslot) as Hlt.
  assert (rest = drop (S i) (slots vs)) as Hr'.
  { apply (f_equal tail) in Hr. cbn [tail] in Hr. rewrite Hr.
    replace (S i) with (i + 1)%nat by lia. rewrite <- drop_drop. by destruct (drop i (slots vs)). }
  assert (zlook (slots vs) (Z.of_nat i) = Some slot) as Hz
    by (apply zlook_Some; rewrite Nat2Z.id; split; [lia|done]).
  assert (~ counted h vs (Z.of_nat i) -> tallied h vs bv (Z.of_nat (S i))) as Hskip.
  { intros Hn. destruct Ht. split; try done. intros j Hj. rewrite (t_bit0 j Hj).
    destruct (decide (j = Z.of_nat i)) as [->|]; [split; intros [? ?]; [lia|done]|].
    split; intros [? ?]; (split; [lia|done]). }
  assert (Z.of_nat i + 1 = Z.of_nat (S i)) as Ei by lia.
  cbn [recountLoop]. destruct slot as [v|].
  - case_bool_decide as Hh.
    + assert (BV.bit bv (Z.of_nat i) = false) as Hf.
      { destruct (BV.bit bv (Z.of_nat i)) eqn:Eb; [|done].
        apply (t_bit _ _ _ _ Ht) in Eb as [? _]; lia. }
      assert (slots vs = <[Z.to_nat (Z.of_nat i) := Some v]> (slots vs)) as Es
        by (rewrite Nat2Z.id; symmetry; by apply list_insert_id).
      destruct (tally_set h vs bv (Z.of_nat i) (Z.of_nat i) v p (slots vs) Ht ltac:(lia) Hf Es Hp Hh)
        as (bv' & peer & E1 & E2 & Hwf' & HB & Hb' & Htot).
      rewrite E1, E2. cbn [gbind]. rewrite Ei.
      apply (IH (S i) (mkVotes (slots vs) (Some bv') (total vs + Peer.Vote peer)) bv');
        [|done|cbn; lia].
      split; cbn; try done; [rewrite HB; apply Ht|apply Ht|]. intros j Hj. rewrite Hb' by lia.
      destruct (Z.eqb_spec j (Z.of_nat i)) as [->|].
      * split; [|done]. intros _. split; [lia|]. by exists v, p.
      * rewrite (t_bit _ _ _ _ Ht) by done. split; intros [? ?]; (split; [lia|done]).
    + rewrite Ei. apply (IH (S i) vs bv); [|done|lia]. apply Hskip.
      intros (v' & p' & Hz' & Hp' & Hh'). rewrite Hz in Hz'. injection Hz' as <-.
      rewrite Hp in Hp'. by injection Hp' as <-.
  - rewrite Ei. apply (IH (S i) vs bv); [|done|lia]. apply Hskip.
    intros (v' & p' & Hz' & _). rewrite Hz in Hz'. done.
Qed.

Lemma recountLoop_ext h h' hash i rest (vs : Votes A) :
  peersOf h' (MyChainID h') = peersOf h (MyChainID h) ->
  recountLoop h' hash i rest vs = recountLoop h hash i rest vs.
Proof.
  intros E. revert i vs. induction rest as [|[v|] rest IH]; intros i vs; cbn [recountLoop]; [done| |apply IH].
  destruct (bool_decide _); [|apply IH]. rewrite E.
  destruct (BV.SetIndex _ _ _) as [[? ?]| |]; cbn [gbind]; [|done..].
  destruct (idx _ _); cbn [gbind]; [apply IH|done..].
Qed.

(** With a fresh proposal the votes are counted anew. *)
Lemma recount_ok h p vs :
  Proposal h = None -> votesOK h vs ->
  exists vs', recount (setProposal h (Some p)) vs = Ok vs' /\ votesOK (setProposal h (Some p)) vs'.
Proof.
  intros Hp [Hs (bv & Ht)]. set (h' := setProposal h (Some p)).
  assert (tallied h' vs bv (Z.of_nat 0)) as Ht0.
  { destruct Ht. split; try done. intros i Hi. rewrite (t_bit0 i Hi). split; [|intros [? _]; lia].
    intros (_ & v & q & _ & Hq & _). congruence. }
  destruct (recountLoop_ok h' p vs bv 0 (slots vs) eq_refl Ht0 eq_refl ltac:(lia))
    as (vs' & bv' & E & Es & Ht').
  exists vs'. split; [exact E|]. split; [|exists bv'; by rewrite Es].
  intros i v Hv. rewrite Es in Hv. destruct (Hs i v Hv). by split.
Qed.

(** The invariant of the votes only depends on the configuration and the
    proposal. *)
Lemma votesOK_ext h h' vs : sameConfig h h' -> Proposal h' = Proposal h -> votesOK h vs -> votesOK h' vs.
Proof.
  intros (E1 & E2 & E3 & E4 & E5 & E6) E7 [Hs (bv & [])]. unfold peersOf in *. split.
  - intros i v Hv. destruct (Hs i v Hv). split; rewrite ?E1, ?E2, ?E3, ?E6; done.
  - exists bv. split; unfold peersOf; rewrite ?E3, ?E4; try done.
    intros i Hi. rewrite (t_bit0 i Hi). unfold counted. by rewrite E7.
Qed.

Lemma emptyVotes_ok h n : n = zlen (peersOf h (MyChainID h)) -> votesOK h (emptyVotes n).
Proof.
  intros Hn. unfold emptyVotes. assert (0 <= n) by lia.
  assert (forall i, zlook (replicate (Z.to_nat n) (@None A)) i <> None ->
    zlook (replicate (Z.to_nat n) (@None A)) i = Some None) as Hz.
  { intros i Hi. unfold zlook in *. case_decide; [done|].
    destruct (replicate _ _ !! _) eqn:E; [|done]. apply lookup_replicate in E as [-> _]. done. }
  unfold BV.NewBitVector. destruct (Z.ltb_spec n 0); [lia|].
  set (bv := BV.mk n _). assert (BV.wf bv) as Hwf.
  { apply (BV.NewBitVector_wf n). unfold BV.NewBitVector. by destruct (Z.ltb_spec n 0); [lia|]. }
  assert (forall i, BV.bit bv i = false) as Hb.
  { intros i. unfold BV.bit. cbn. destruct (replicate _ _ !! _) eqn:E; [|done].
    apply lookup_replicate in E as [-> _]. apply Z.testbit_0_l. }
  split.
  - intros i v Hv. cbn in Hv. rewrite Hz in Hv by by rewrite Hv. done.
  - exists bv. split; cbn; rewrite ?length_replicate; try done; try lia.
    + intros i Hi. rewrite Hb. split; [done|]. intros (_ & v & p & Hv & _). cbn in Hv.
      rewrite Hz in Hv by by rewrite Hv. done.
    + unfold votesOf. generalize 0 at 2. generalize (peersOf h (MyChainID h)) as l. clear -Hb.
      induction l as [|p l IH]; intros i; cbn; [done|]. rewrite Hb, andb_false_r. by rewrite <- IH.
Qed.
End voteslemmas.

(** ** The invariant of the package

    Besides the votes: the step that was passed is justified by the proposal, the
    own block and the quorums it stands for. *)
Record wf (h : t) : Prop := {
  w_config : configOK h;
  w_prevotes : votesOK h (Prevotes h);
  w_precommits : votesOK h (Precommits h);
  w_header p : Proposal h = Some p ->
    PartSetHeader.Height (Proposal.Header p) = Height h /\
    PartSetHeader.Round (Proposal.Header p) = Round h /\
    PartSetHeader.ChainID (Proposal.Header p) = MyChainID h;
  w_propose : RoundStepPropose <= PassStep h ->
    Proposal h <> None /\ is_Some (CrossShardBlocks h !! MyChainID h);
  w_prevote : RoundStepPrevote <= PassStep h -> quorum h (total (Prevotes h)) = true;
  w_precommit : RoundStepPrecommit <= PassStep h -> quorum h (total (Precommits h)) = true
}.

Lemma configOK_ext h h' : sameConfig h h' -> configOK h -> configOK h'.
Proof.
  intros (E1 & E2 & E3 & E4 & E5 & E6) []. split; unfold peersOf in *; by rewrite ?E3, ?E4, ?E5, ?E6.
Qed.

Lemma sameConfig_refl h : sameConfig h h.
Proof. by repeat split. Qed.

Lemma quorum_ext h h' n : sameConfig h h' -> quorum h' n = quorum h n.
Proof. intros (E1 & E2 & E3 & E4 & E5 & E6). unfold quorum, votesIn. by rewrite E3, E5. Qed.

Lemma quorum_mono h n m : n <= m -> quorum h n = true -> quorum h m = true.
Proof. unfold quorum. intros Hnm Hq%Z.gtb_lt. apply Z.gtb_lt. lia. Qed.

(** An operation that only touches the cross-shard data. *)
Definition framed (h h' : t) : Prop :=
  sameConfig h h' /\ Proposal h' = Proposal h /\ Prevotes h' = Prevotes h /\
  Precommits h' = Precommits h /\ PassStep h' = PassStep h /\
  (is_Some (CrossShardBlocks h !! MyChainID h) -> is_Some (CrossShardBlocks h' !! MyChainID h)).

Lemma framed_refl h : framed h h.
Proof. by repeat split. Qed.

Lemma framed_trans h1 h2 h3 : framed h1 h2 -> framed h2 h3 -> framed h1 h3.
Proof.
  intros ((E1 & E2 & E3 & E4 & E5 & E6) & E7 & E8 & E9 & E10 & E11)
    ((F1 & F2 & F3 & F4 & F5 & F6) & F7 & F8 & F9 & F10 & F11).
  rewrite E3 in F11. split; [|repeat split; try congruence; by auto]. repeat split; congruence.
Qed.

Lemma wf_framed h h' : framed h h' -> wf h -> wf h'.
Proof.
  intros (Hc & E7 & E8 & E9 & E10 & E11) [W1 W2 W3 W7 W4 W5 W6].
  pose proof Hc as (_ & _ & E3 & _).
  split; rewrite ?E8, ?E9, ?E10.
  - by eapply configOK_ext.
  - by eapply votesOK_ext.
  - by eapply votesOK_ext.
  - destruct Hc as (-> & -> & -> & _). by rewrite E7.
  - intros Hp. destruct (W4 Hp). rewrite E7, E3. auto.
  - intros Hp. rewrite (quorum_ext h h') by done. auto.
  - intros Hp. rewrite (quorum_ext h h') by done. auto.
Qed.

Lemma addInnerPart_framed h p h' err : addInnerPart h p = Ok (h', err) -> framed h h'.
Proof.
  unfold addInnerPart. destruct (_ || _); [intros [= <- <-]; apply framed_refl|].
  destruct (CrossShardPartSets h !! _) as [ps|].
  - intros E. apply gbind_Ok in E as ([ps' e] & _ & E).
    destruct e as [[| |msg]|]; [by injection E as <- <-..|].
    destruct (PartSet.IsComplete ps'); [|by injection E as <- <-].
    apply gbind_Ok in E as ([block e] & _ & E). destruct e; [by injection E as <- <-|].
    apply gbind_Ok in E as (b & _ & E). injection E as <- <-.
    split; [by repeat split|]. repeat split; try done. cbn. intros Hb.
    destruct (decide (Part.ChainID p = MyChainID h)) as [->|];
      [by rewrite lookup_insert_eq|by rewrite lookup_insert_ne].
  - by intros [= <- <-].
Qed.

Lemma addBuffered_framed h cid h' : addBuffered h cid = Ok h' -> framed h h'.
Proof.
  unfold addBuffered. destruct (randomHeaderBuffer h !! cid) as [parts|]; [|intros [= <-]; apply framed_refl].
  apply (go_foldl_invariant _ (framed h)); [|apply framed_refl].
  intros s a s' _ Hf E. apply gbind_Ok in E as ([s1 e] & E & [= <-]).
  eapply framed_trans; [done|]. by eapply addInnerPart_framed.
Qed.

Lemma AddPrevote_wf h p h' err : wf h -> AddPrevote h p = Ok (h', err) -> wf h'.
Proof.
  intros [W1 W2 W3 W7 W4 W5 W6] E. unfold AddPrevote in E.
  apply gbind_Ok in E as ([vs e] & E & [= <- <-]).
  destruct (addVote_ok h (Prevotes h) p vs e W1 W2 E) as [Hok Hmono].
  assert (sameConfig h (setPrevotes h vs)) as Hc by by repeat split.
  split; cbn; try done; [by eapply configOK_ext|by eapply votesOK_ext|by eapply votesOK_ext|].
  intros Hp. rewrite (quorum_ext h) by done. eapply quorum_mono; [|by apply W5].
  destruct W2 as [_ (bv & Ht)], Hok as [_ (bv' & Ht')].
  rewrite (t_total _ _ _ _ Ht), (t_total _ _ _ _ Ht'). apply Hmono; [apply Ht|apply Ht'].
Qed.

Lemma AddPrecommit_wf h p h' err : wf h -> AddPrecommit h p = Ok (h', err) -> wf h'.
Proof.
  intros [W1 W2 W3 W7 W4 W5 W6] E. unfold AddPrecommit in E.
  apply gbind_Ok in E as ([vs e] & E & [= <- <-]).
  destruct (addVote_ok h (Precommits h) p vs e W1 W3 E) as [Hok Hmono].
  assert (sameConfig h (setPrecommits h vs)) as Hc by by repeat split.
  split; cbn; try done; [by eapply configOK_ext|by eapply votesOK_ext|by eapply votesOK_ext|].
  intros Hp. rewrite (quorum_ext h) by done. eapply quorum_mono; [|by apply W6].
  destruct W3 as [_ (bv & Ht)], Hok as [_ (bv' & Ht')].
  rewrite (t_total _ _ _ _ Ht), (t_total _ _ _ _ Ht'). apply Hmono; [apply Ht|apply Ht'].
Qed.

Lemma AddProposal_wf h p i h' err : wf h -> AddProposal h p i = Ok (h', err) -> wf h'.
Proof.
  intros Hwf E. unfold AddProposal in E.
  destruct (Proposal h) eqn:Ep; [by injection E as <- <-|].
  destruct (Z.eqb_spec (Height h) (PartSetHeader.Height (Proposal.Header p))) as [EH|];
    [|by injection E as <- <-].
  destruct (Z.eqb_spec (Round h) (PartSetHeader.Round (Proposal.Header p))) as [ER|];
    [|by injection E as <- <-]. cbn [negb orb] in E.
  destruct (negb _); [by injection E as <- <-|].
  case_bool_decide as EC; [|by injection E as <- <-]. cbn [negb] in E.
  apply gbind_Ok in E as (val & _ & E). apply gbind_Ok in E as (msg & _ & E).
  apply gbind_Ok in E as (valid & _ & E). destruct (negb valid); [by injection E as <- <-|].
  apply gbind_Ok in E as (ps & _ & E). apply gbind_Ok in E as (h1 & E1 & E).
  apply gbind_Ok in E as (h2 & E2 & E). apply gbind_Ok in E as (h3 & E3 & E). injection E as <- <-.
  destruct Hwf as [W1 W2 W3 W7 W4 W5 W6].
  assert (PassStep h < RoundStepPropose) as Hpass.
  { destruct (Z.lt_ge_cases (PassStep h) RoundStepPropose) as [|Hge]; [done|]. by apply W4 in Hge as [? _]. }
  set (h0 := setProposal h (Some p)) in *.
  apply addBuffered_framed in E1 as (Hc & F7 & F8 & F9 & F10 & F11).
  assert (sameConfig h0 h1) as Hc1 by exact Hc.
  unfold reCalculatePrevotes in E2. apply gbind_Ok in E2 as (vs & E2 & [= <-]).
  destruct (recount_ok h p (Prevotes h) Ep W2) as (vs' & R1 & R2). fold h0 in R1, R2.
  unfold reCalculatePrecommits in E3. apply gbind_Ok in E3 as (vc & E3 & [= <-]).
  destruct (recount_ok h p (Precommits h) Ep W3) as (vc' & S1 & S2). fold h0 in S1, S2.
  assert (forall A (V : VoteMsg A) (v : Votes A) g, sameConfig h0 g -> Proposal g = Some p ->
    recount g v = recount h0 v) as Hrec.
  { intros A V v g (G1 & G2 & G3 & G4 & G5 & G6) G7. unfold recount. rewrite G7. cbn [Proposal h0 setProposal].
    apply recountLoop_ext. unfold peersOf. by rewrite G3, G4. }
  cbn in F7, F8, F9, F10. rewrite (Hrec _ _ _ h1) in E2 by done. rewrite F8, R1 in E2. injection E2 as <-.
  rewrite (Hrec _ _ _ (setPrevotes h1 vs')) in E3 by done. cbn [Precommits setPrevotes] in E3.
  rewrite F9, S1 in E3. injection E3 as <-.
  split; cbn; rewrite ?F10; try (intros; lia).
  - eapply configOK_ext; [|exact W1]. exact Hc1.
  - by eapply (votesOK_ext h0).
  - by eapply (votesOK_ext h0).
  - rewrite F7. intros q [= <-]. destruct Hc as (G1 & G2 & G3 & _). cbn in G1, G2, G3.
    rewrite G1, G2, G3. done.
  - unfold RoundStepPrevote, RoundStepPropose in *. intros; lia.
  - unfold RoundStepPrecommit, RoundStepPropose in *. intros; lia.
Qed.

(** ** The cross-shard handlers only touch the cross-shard data *)

Lemma AddCrossShardProposal_framed h csp h' err :
  AddCrossShardProposal h csp = Ok (h', err) -> framed h h'.
Proof.
  unfold AddCrossShardProposal. intros E.
  destruct (negb _); [injection E as <- <-; apply framed_refl|].
  destruct (CrossShardProposals h !! _); [injection E as <- <-; apply framed_refl|].
  apply gbind_Ok in E as (valid & _ & E).
  destruct (negb valid); [injection E as <- <-; apply framed_refl|].
  apply gbind_Ok in E as (tot & _ & E). destruct (negb _); [injection E as <- <-; apply framed_refl|].
  apply gbind_Ok in E as (ps & _ & E). apply gbind_Ok in E as (h1 & E1 & E). injection E as <- <-.
  eapply framed_trans; [|by eapply addBuffered_framed]. by repeat split.
Qed.

Lemma AddCrossShardAccept_framed h csa h' err :
  AddCrossShardAccept h csa = Ok (h', err) -> framed h h'.
Proof.
  unfold AddCrossShardAccept. intros E. destruct (negb _); [injection E as <- <-; apply framed_refl|].
  destruct (negb _); [injection E as <- <-; apply framed_refl|].
  destruct (negb _); [injection E as <- <-; apply framed_refl|].
  destruct (CrossShardAccepts h !! _); [|injection E as <- <-; apply framed_refl].
  apply gbind_Ok in E as ([acid e] & _ & E). destruct e; injection E as <- <-; by repeat split.
Qed.

Lemma AddCrossShardCommit_framed h csc h' sent err :
  AddCrossShardCommit h csc = Ok (h', sent, err) -> framed h h'.
Proof.
  unfold AddCrossShardCommit. intros E. destruct (negb _); [injection E as <- <- <-; apply framed_refl|].
  destruct (CrossShardCommits h !! _); [injection E as <- <- <-; apply framed_refl|].
  destruct (_ && _); [injection E as <- <- <-; apply framed_refl|].
  destruct (negb _); [injection E as <- <- <-; apply framed_refl|].
  apply gbind_Ok in E as (e & _ & E). destruct e; [injection E as <- <- <-; apply framed_refl|].
  destruct (IsIShard _); [apply gbind_Ok in E as (bz & _ & E)|]; injection E as <- <- <-; by repeat split.
Qed.

(** ** Finishing steps *)

Lemma setPassStep_wf h s :
  wf h -> (RoundStepPropose <= s -> Proposal h <> None /\ is_Some (CrossShardBlocks h !! MyChainID h)) ->
  (RoundStepPrevote <= s -> quorum h (total (Prevotes h)) = true) ->
  (RoundStepPrecommit <= s -> quorum h (total (Precommits h)) = true) -> wf (setPassStep h s).
Proof.
  intros [W1 W2 W3 W7 _ _ _] S1 S2 S3. assert (sameConfig h (setPassStep h s)) as Hc by by repeat split.
  split; cbn; rewrite ?(quorum_ext h) by done; try done;
    [by eapply configOK_ext|by eapply votesOK_ext|by eapply votesOK_ext].
Qed.

(** What a finished step stands for; later steps include the earlier ones. *)
Definition proposed (h : t) : Prop := Proposal h <> None /\ is_Some (CrossShardBlocks h !! MyChainID h).
Definition prevoted (h : t) : Prop := proposed h /\ quorum h (total (Prevotes h)) = true.
Definition precommitted (h : t) : Prop := prevoted h /\ quorum h (total (Precommits h)) = true.

Ltac steps := unfold RoundStepCrossShardPropose, RoundStepCrossShardCommit, RoundStepCrossShardAccept,
  RoundStepPrecommit, RoundStepPrevote, RoundStepPropose in *.

(** A check returns the package it got with at most a later passed step. *)
Definition advanced (h h' : t) : Prop :=
  exists s, h' = setPassStep h s /\ PassStep h <= s.

Lemma advanced_refl h : advanced h h.
Proof. exists (PassStep h). split; [by destruct h|lia]. Qed.

Lemma advanced_trans h1 h2 h3 : advanced h1 h2 -> advanced h2 h3 -> advanced h1 h3.
Proof. intros (s & -> & Hs) (s' & -> & Hs'). exists s'. split; [done|]. cbn in *. lia. Qed.

Lemma advanced_Pass h s : PassStep h <= s -> advanced h (setPassStep h s).
Proof. intros. by exists s. Qed.

Lemma FinishProposal_spec h h' b :
  wf h -> FinishProposal h = (h', b) -> wf h' /\ advanced h h' /\ (b = true -> proposed h').
Proof.
  intros Hwf. unfold FinishProposal. rewrite Z.geb_leb.
  destruct (Z.leb_spec RoundStepPropose (PassStep h)) as [Hp|Hp].
  - intros [= <- <-]. split; [done|]. split; [apply advanced_refl|]. intros _. by apply Hwf.
  - destruct (Proposal h) eqn:Ep; [|intros [= <- <-]; split; [done|split; [apply advanced_refl|done]]].
    destruct (CrossShardBlocks h !! _) eqn:Eb; [|intros [= <- <-]; split; [done|split; [apply advanced_refl|done]]].
    intros [= <- <-]. split; [|split; [apply advanced_Pass; lia|]].
    + apply setPassStep_wf; [done|..]; steps; intros; [|lia..]. by rewrite Ep, Eb.
    + intros _. split; cbn; by rewrite ?Ep, ?Eb.
Qed.

Lemma FinishPrevote_spec h h' b :
  wf h -> FinishPrevote h = (h', b) -> wf h' /\ advanced h h' /\ (b = true -> prevoted h').
Proof.
  intros Hwf. unfold FinishPrevote. rewrite Z.geb_leb.
  destruct (Z.leb_spec RoundStepPrevote (PassStep h)) as [Hp|Hp].
  - intros [= <- <-]. split; [done|]. split; [apply advanced_refl|]. intros _.
    split; [apply Hwf; steps; lia|by apply Hwf].
  - destruct (FinishProposal h) as [h1 b1] eqn:E1.
    destruct (FinishProposal_spec h h1 b1 Hwf E1) as (Hwf1 & Hadv & Hb). destruct b1; cbn [negb].
    2: { by intros [= <- <-]. }
    destruct (quorum h1 _) eqn:Eq; cbn [negb]; [|by intros [= <- <-]].
    intros [= <- <-]. specialize (Hb eq_refl).
    split; [apply setPassStep_wf; [done|..]; steps; intros; try lia; done|].
    split; [|done]. destruct Hadv as (s & -> & Hs). exists RoundStepPrevote. split; [done|lia].
Qed.

Lemma FinishPrecommit_spec h h' b :
  wf h -> FinishPrecommit h = (h', b) -> wf h' /\ advanced h h' /\ (b = true -> precommitted h').
Proof.
  intros Hwf. unfold FinishPrecommit. rewrite Z.geb_leb.
  destruct (Z.leb_spec RoundStepPrecommit (PassStep h)) as [Hp|Hp].
  - intros [= <- <-]. split; [done|]. split; [apply advanced_refl|]. intros _.
    split; [split; [apply Hwf; steps; lia|apply Hwf; steps; lia]|by apply Hwf].
  - destruct (FinishPrevote h) as [h1 b1] eqn:E1.
    destruct (FinishPrevote_spec h h1 b1 Hwf E1) as (Hwf1 & Hadv & Hb). destruct b1; cbn [negb].
    2: { by intros [= <- <-]. }
    destruct (quorum h1 _) eqn:Eq; cbn [negb]; [|by intros [= <- <-]].
    intros [= <- <-]. specialize (Hb eq_refl) as [Hb Hq].
    split; [apply setPassStep_wf; [done|..]; steps; intros; try lia; done|].
    split; [|by split]. destruct Hadv as (s & -> & Hs). exists RoundStepPrecommit. split; [done|lia].
Qed.

Lemma precommitted_pass h s : precommitted h -> precommitted (setPassStep h s).
Proof. by intros. Qed.

(** The checks of the cross-shard steps: they go through [FinishPrecommit]. *)
Definition finishes (f : t -> t * bool) : Prop :=
  forall h h' b, wf h -> f h = (h', b) -> wf h' /\ advanced h h' /\ (b = true -> precommitted h').

Lemma pass_later h s :
  wf h -> precommitted h -> RoundStepPrecommit <= s -> wf (setPassStep h s).
Proof. intros Hwf [[Hp Hq] Hq'] Hs. apply setPassStep_wf; [done|..]; intros; done. Qed.

Lemma passed_precommitted h : wf h -> RoundStepPrecommit <= PassStep h -> precommitted h.
Proof.
  intros Hwf Hs. split; [split; [apply Hwf; steps; lia|apply Hwf; steps; lia]|by apply Hwf].
Qed.

(** A check with the shape: passed before, or after the check [f] and one more
    condition, moving on to step [s]. *)
Lemma finishes_step (f : t -> t * bool) (cond : t -> bool) s :
  RoundStepPrecommit <= s -> finishes f ->
  finishes (fun h => if PassStep h >=? s then (h, true)
    else let '(h, b) := f h in
         if negb b then (h, false) else if cond h then (setPassStep h s, true) else (h, false)).
Proof.
  intros Hs Hf h h' b Hwf. cbv beta. rewrite Z.geb_leb.
  destruct (Z.leb_spec s (PassStep h)) as [Hp|Hp].
  - intros [= <- <-]. split; [done|]. split; [apply advanced_refl|]. intros _.
    apply passed_precommitted; [done|lia].
  - destruct (f h) as [h1 b1] eqn:E1. destruct (Hf h h1 b1 Hwf E1) as (Hwf1 & Hadv & Hb).
    destruct b1; cbn [negb]; [|by intros [= <- <-]].
    destruct (cond h1); [|by intros [= <- <-]]. intros [= <- <-]. specialize (Hb eq_refl).
    split; [by apply pass_later|]. split; [|intros _; by apply precommitted_pass].
    destruct Hadv as (s1 & -> & Hs1). exists s. split; [done|lia].
Qed.

Lemma FinishPrecommit_finishes : finishes FinishPrecommit.
Proof. intros h h' b. apply FinishPrecommit_spec. Qed.

Lemma FinishCrossShardAccept_finishes : finishes FinishCrossShardAccept.
Proof.
  pose proof (finishes_step FinishPrecommit (fun h =>
    negb (Z.of_nat (size (CrossShardProposals h)) <? zlen (relatedKeys h) + 1) &&
    negb (Z.of_nat (size (CrossShardBlocks h)) <? zlen (relatedKeys h) + 1) &&
    forallb (fun key => hasKey (CrossShardProposals h) key && hasKey (CrossShardBlocks h) key)
      (relatedKeys h)) RoundStepCrossShardAccept ltac:(steps; lia) FinishPrecommit_finishes) as Hf.
  intros h h' b Hwf E. apply (Hf h h' b Hwf). rewrite <- E. unfold FinishCrossShardAccept.
  destruct (_ >=? _); [done|]. destruct (FinishPrecommit h) as [h1 []]; cbn [negb]; [|done].
  destruct (_ <? _); [done|]. destruct (_ <? _); [done|]. by destruct (forallb _ _).
Qed.

Lemma FinishCrossShardProposal_finishes : finishes FinishCrossShardProposal.
Proof.
  pose proof (finishes_step FinishPrecommit (fun h =>
    negb (CrossShardAcceptFinishCounter h <? zlen (relatedKeys h))) RoundStepCrossShardPropose
    ltac:(steps; lia) FinishPrecommit_finishes) as Hf.
  intros h h' b Hwf E. apply (Hf h h' b Hwf). rewrite <- E. unfold FinishCrossShardProposal.
  destruct (_ >=? _); [done|]. destruct (FinishPrecommit h) as [h1 []]; cbn [negb]; [|done].
  by destruct (_ <? _).
Qed.

Lemma FinishCrossShardCommit_I_finishes : finishes FinishCrossShardCommit_I.
Proof.
  pose proof (finishes_step FinishCrossShardAccept (fun h =>
    negb (Z.of_nat (size (CrossShardCommits h)) <? zlen (relatedKeys h)) &&
    forallb (hasKey (CrossShardCommits h)) (relatedKeys h)) RoundStepCrossShardCommit
    ltac:(steps; lia) FinishCrossShardAccept_finishes) as Hf.
  intros h h' b Hwf E. apply (Hf h h' b Hwf). rewrite <- E. unfold FinishCrossShardCommit_I.
  destruct (_ >=? _); [done|]. destruct (FinishCrossShardAccept h) as [h1 []]; cbn [negb]; [|done].
  destruct (_ <? _); [done|]. by destruct (forallb _ _).
Qed.

Lemma FinishCrossShardCommit_B_finishes : finishes FinishCrossShardCommit_B.
Proof.
  intros h h' b Hwf. unfold FinishCrossShardCommit_B. rewrite Z.geb_leb.
  destruct (Z.leb_spec RoundStepCrossShardCommit (PassStep h)) as [Hp|Hp].
  - intros [= <- <-]. split; [done|]. split; [apply advanced_refl|]. intros _.
    apply passed_precommitted; [done|]. steps. lia.
  - destruct (FinishCrossShardProposal h) as [h1 b1] eqn:E1.
    destruct (FinishCrossShardProposal_finishes h h1 b1 Hwf E1) as (Hwf1 & Hadv & Hb).
    destruct b1; cbn [negb]; [|by intros [= <- <-]].
    destruct (_ <? _); [by intros [= <- <-]|]. destruct (_ <? _); [by intros [= <- <-]|].
    destruct (_ <? _); [by intros [= <- <-]|].
    destruct (forallb _ _); cbn [negb]; [|by intros [= <- <-]].
    destruct (forallb _ _); cbn [negb]; [|by intros [= <- <-]].
    intros [= <- <-]. split; [done|]. split; [done|]. by apply Hb.
Qed.

(** ** The life of a height *)

(** The operations on the package between two heights. *)

(** A package at the start of a height. *)
Record fresh (h : t) : Prop := {
  fr_pass : PassStep h = RoundStepNewHeight;
  fr_prevotes : Prevotes h = emptyVotes (zlen (peersOf h (MyChainID h)));
  fr_precommits : Precommits h = emptyVotes (zlen (peersOf h (MyChainID h)))
}.

(** The proposal is for the height, the round and the chain of the package. *)
Definition proposalFor (h : t) (p : Proposal.t) : Prop :=
  PartSetHeader.Height (Proposal.Header p) = Height h /\
  PartSetHeader.Round (Proposal.Header p) = Round h /\
  PartSetHeader.ChainID (Proposal.Header p) = MyChainID h.

Inductive step : t -> t -> Prop :=
| StepProposal h p i h' err : AddProposal h p i = Ok (h', err) -> step h h'
| StepPart h p h' err : AddPart h p = Ok (h', err) -> step h h'
| StepPrevote h p h' err : AddPrevote h p = Ok (h', err) -> step h h'
| StepPrecommit h p h' err : AddPrecommit h p = Ok (h', err) -> step h h'
| StepCrossShardProposal h p h' err : AddCrossShardProposal h p = Ok (h', err) -> step h h'
| StepCrossShardAccept h p h' err : AddCrossShardAccept h p = Ok (h', err) -> step h h'
| StepCrossShardCommit h p h' sent err : AddCrossShardCommit h p = Ok (h', sent, err) -> step h h'
| StepOwnProposal h block ps p : fresh h -> proposalFor h p -> step h (setOwnProposal h block ps p)
| StepOwnCrossShardProposal h csp : step h (setOwnCrossShardProposal h csp)
| StepBlock h chain_id b : step h (setBlock h chain_id b)
| StepOwnCrossShardCommit h csc : step h (setOwnCrossShardCommit h csc)
| StepFinishProposal h h' b : FinishProposal h = (h', b) -> step h h'
| StepFinishPrevote h h' b : FinishPrevote h = (h', b) -> step h h'
| StepFinishPrecommit h h' b : FinishPrecommit h = (h', b) -> step h h'
| StepFinishCrossShardAccept h h' b : FinishCrossShardAccept h = (h', b) -> step h h'
| StepFinishCrossShardProposal h h' b : FinishCrossShardProposal h = (h', b) -> step h h'
| StepFinishCrossShardCommit_I h h' b : FinishCrossShardCommit_I h = (h', b) -> step h h'
| StepFinishCrossShardCommit_B h h' b : FinishCrossShardCommit_B h = (h', b) -> step h h'.

Lemma setOwnProposal_wf h block ps p :
  fresh h -> proposalFor h p -> wf h -> wf (setOwnProposal h block ps p).
Proof.
  intros [F1 F2 F3] Hp Hwf.
  assert (sameConfig h (setOwnProposal h block ps p)) as Hc by by repeat split.
  split; cbn; try (rewrite F1; steps; unfold RoundStepNewHeight; lia).
  - by eapply configOK_ext, Hwf.
  - rewrite F2. by apply emptyVotes_ok.
  - rewrite F3. by apply emptyVotes_ok.
  - by intros q [= <-].
Qed.

Lemma clearAll_fresh h h' :
  configOK h -> PassStep h = RoundStepNewHeight -> clearAll h = Ok h' -> fresh h' /\ Proposal h' = None.
Proof.
  intros Hc Hp E. unfold clearAll, clearPrevote, clearPrecommit in E.
  assert (configOK (clearProposal h)) as Hc0 by (eapply configOK_ext; [|done]; by repeat split).
  rewrite mine_valset in E by done. cbn [deref gbind] in E.
  set (n := VerifierSize _) in E.
  rewrite mine_valset in E by (eapply configOK_ext; [|exact Hc0]; by repeat split).
  cbn [deref gbind] in E. injection E as <-.
  assert (forall l, VerifierSize (peersVerifier l) = zlen l) as Hn
    by (intros l; unfold VerifierSize; by rewrite peersVerifier_length).
  unfold n. rewrite !Hn. by split.
Qed.

Lemma NextHeight_fresh h h' : wf h -> NextHeight h = Ok h' -> fresh h' /\ Proposal h' = None.
Proof.
  intros Hwf E. eapply clearAll_fresh; [| |exact E]; [|done]. destruct (w_config h Hwf). by split.
Qed.

Lemma step_wf h h' : wf h -> step h h' -> wf h'.
Proof.
  intros Hwf Hs. destruct Hs as [h p i h' err E|h p h' err E|h p h' err E|h p h' err E|h p h' err E
    |h p h' err E|h p h' sent err E|h block ps p Hf Hp|h csp|h cid b|h csc|h h' b E|h h' b E|h h' b E|h h' b E|h h' b E|h h' b E|h h' b E].
  - by eapply AddProposal_wf.
  - eapply wf_framed; [by eapply addInnerPart_framed|done].
  - by eapply AddPrevote_wf.
  - by eapply AddPrecommit_wf.
  - eapply wf_framed; [by eapply AddCrossShardProposal_framed|done].
  - eapply wf_framed; [by eapply AddCrossShardAccept_framed|done].
  - eapply wf_framed; [by eapply AddCrossShardCommit_framed|done].
  - by apply setOwnProposal_wf.
  - eapply wf_framed; [|done]. by repeat split.
  - eapply wf_framed; [|done]. split; [by repeat split|]. repeat split; try done. cbn. intros Hb.
    destruct (decide (cid = MyChainID h)) as [->|];
      [by rewrite lookup_insert_eq|by rewrite lookup_insert_ne].
  - eapply wf_framed; [|done]. by repeat split.
  - by apply (FinishProposal_spec h h' b).
  - by apply (FinishPrevote_spec h h' b).
  - by apply (FinishPrecommit_spec h h' b).
  - by apply (FinishCrossShardAccept_finishes h h' b).
  - by apply (FinishCrossShardProposal_finishes h h' b).
  - by apply (FinishCrossShardCommit_I_finishes h h' b).
  - by apply (FinishCrossShardCommit_B_finishes h h' b).
Qed.

Lemma AddProposal_config h p i h' err : AddProposal h p i = Ok (h', err) -> sameConfig h h'.
Proof.
  unfold AddProposal. intros E. destruct (Proposal h); [injection E as <- _; apply sameConfig_refl|].
  destruct (_ || _); [injection E as <- _; apply sameConfig_refl|].
  destruct (negb _); [injection E as <- _; apply sameConfig_refl|].
  destruct (negb _); [injection E as <- _; apply sameConfig_refl|].
  apply gbind_Ok in E as (val & _ & E). apply gbind_Ok in E as (msg & _ & E).
  apply gbind_Ok in E as (valid & _ & E).
  destruct (negb valid); [injection E as <- _; apply sameConfig_refl|].
  apply gbind_Ok in E as (ps & _ & E). apply gbind_Ok in E as (h1 & E1 & E).
  apply gbind_Ok in E as (h2 & E2 & E). apply gbind_Ok in E as (h3 & E3 & E). injection E as <- _.
  apply addBuffered_framed in E1 as (Hc & _).
  unfold reCalculatePrevotes in E2. apply gbind_Ok in E2 as (vs & _ & [= <-]).
  unfold reCalculatePrecommits in E3. apply gbind_Ok in E3 as (vc & _ & [= <-]). exact Hc.
Qed.

(** No operation changes the height, the round, the chain or the validators. *)
Lemma step_config h h' : wf h -> step h h' -> sameConfig h h'.
Proof.
  intros Hwf Hs. destruct Hs as [h p i h' err E|h p h' err E|h p h' err E|h p h' err E|h p h' err E
    |h p h' err E|h p h' sent err E|h block ps p Hf Hp|h csp|h cid b|h csc|h h' b E|h h' b E|h h' b E|h h' b E|h h' b E|h h' b E|h h' b E].
  - by eapply AddProposal_config.
  - by apply addInnerPart_framed in E as [? _].
  - unfold AddPrevote in E. by apply gbind_Ok in E as ([vs e] & _ & [= <- _]).
  - unfold AddPrecommit in E. by apply gbind_Ok in E as ([vs e] & _ & [= <- _]).
  - by apply AddCrossShardProposal_framed in E as [? _].
  - by apply AddCrossShardAccept_framed in E as [? _].
  - by apply AddCrossShardCommit_framed in E as [? _].
  - by repeat split.
  - by repeat split.
  - by repeat split.
  - by repeat split.
  - apply FinishProposal_spec in E as (_ & (x & -> & _) & _); [by repeat split|done].
  - apply FinishPrevote_spec in E as (_ & (x & -> & _) & _); [by repeat split|done].
  - apply FinishPrecommit_spec in E as (_ & (x & -> & _) & _); [by repeat split|done].
  - apply FinishCrossShardAccept_finishes in E as (_ & (x & -> & _) & _); [by repeat split|done].
  - apply FinishCrossShardProposal_finishes in E as (_ & (x & -> & _) & _); [by repeat split|done].
  - apply FinishCrossShardCommit_I_finishes in E as (_ & (x & -> & _) & _); [by repeat split|done].
  - apply FinishCrossShardCommit_B_finishes in E as (_ & (x & -> & _) & _); [by repeat split|done].
Qed.

Lemma clearAll_wf h h' : configOK h -> PassStep h = RoundStepNewHeight -> clearAll h = Ok h' -> wf h'.
Proof.
  intros Hc Hp E. unfold clearAll in E.
  set (h0 := clearProposal h) in *. assert (configOK h0) as Hc0 by (eapply configOK_ext; [|done]; by repeat split).
  unfold clearPrevote, clearPrecommit in E. rewrite mine_valset in E by done. cbn [deref gbind] in E.
  set (n := VerifierSize _) in E. change (AllValidatorSet (setPrevotes h0 (emptyVotes n))) with (AllValidatorSet h0) in E.
  change (MyChainID (setPrevotes h0 (emptyVotes n))) with (MyChainID h0) in E.
  rewrite mine_valset in E by done. cbn [deref gbind] in E. fold n in E.
  assert (n = zlen (peersOf h0 (MyChainID h0))) as Hn
    by (unfold n, VerifierSize; by rewrite peersVerifier_length).
  injection E as <-. split; cbn; try (rewrite Hp; steps; unfold RoundStepNewHeight; lia).
  - eapply configOK_ext; [|exact Hc0]. by repeat split.
  - apply (votesOK_ext h0); [by repeat split|done|by apply emptyVotes_ok].
  - apply (votesOK_ext h0); [by repeat split|done|by apply emptyVotes_ok].
  - done.
Qed.

Lemma clearAll_config h h' : clearAll h = Ok h' ->
  Height h' = Height h /\ Round h' = Round h /\ MyChainID h' = MyChainID h /\ ShardInfo h' = ShardInfo h.
Proof.
  unfold clearAll. intros E. apply gbind_Ok in E as (h1 & E1 & E).
  apply gbind_Ok in E as (h2 & E2 & E). injection E as <-.
  unfold clearPrevote in E1. apply gbind_Ok in E1 as (v1 & _ & [= <-]).
  unfold clearPrecommit in E2. apply gbind_Ok in E2 as (v2 & _ & [= <-]). done.
Qed.

Lemma NextHeight_config h h' : NextHeight h = Ok h' ->
  Height h' = i64 (Height h + 1) /\ Round h' = 0 /\ MyChainID h' = MyChainID h /\ ShardInfo h' = ShardInfo h.
Proof. intros E. exact (clearAll_config _ _ E). Qed.

Lemma NewHeightData_config my height si h : NewHeightData my height si = Ok h ->
  Height h = height /\ Round h = 0 /\ MyChainID h = my /\ ShardInfo h = si.
Proof. intros E. exact (clearAll_config _ _ E). Qed.

Lemma NextHeight_wf h h' : wf h -> NextHeight h = Ok h' -> wf h'.
Proof.
  intros Hwf E. eapply clearAll_wf; [| |exact E]; [|done].
  destruct (w_config h Hwf). split; done.
Qed.

Lemma NewHeightData_wf my height si h :
  is_Some (ShardInfo.PeerList si !! my) ->
  (forall cid peers, ShardInfo.PeerList si !! cid = Some peers -> votesNonneg peers) ->
  NewHeightData my height si = Ok h -> wf h.
Proof.
  intros Hm Hn E. eapply clearAll_wf; [| |exact E]; [|done].
  split; try done. intros cid. unfold peersOf. cbn.
  destruct (ShardInfo.PeerList si !! cid) eqn:Ep; simpl; [by eapply Hn|constructor].
Qed.

(** The packages a node goes through: made, changed by the operations, moved to
    the next height. *)
Inductive reachable (my : string) (si : ShardInfo.t) : t -> Prop :=
| ReachNew height h : NewHeightData my height si = Ok h -> reachable my si h
| ReachStep h h' : reachable my si h -> step h h' -> reachable my si h'
| ReachNext h h' : reachable my si h -> NextHeight h = Ok h' -> reachable my si h'.

Definition validShards (my : string) (si : ShardInfo.t) : Prop :=
  is_Some (ShardInfo.PeerList si !! my) /\
  forall cid peers, ShardInfo.PeerList si !! cid = Some peers -> votesNonneg peers.

Lemma reachable_ok my si h : validShards my si -> reachable my si h -> wf h.
Proof.
  intros [Hm Hn]. induction 1 as [height h E|h h' _ IH Hs|h h' _ IH E].
  - by eapply NewHeightData_wf.
  - by eapply step_wf.
  - by eapply NextHeight_wf.
Qed.

(** C16: whatever messages arrive in whatever order, over any number of heights,
    the package keeps its invariant: the bit vectors mark exactly the verified
    votes for the proposed block, the totals are the voting power of the marked
    validators, and a passed step has its proposal, block and quorums. *)
Theorem reachable_wf my si h : validShards my si -> reachable my si h -> wf h.
Proof. exact (reachable_ok my si h). Qed.

(** ** Quorums of votes *)

Lemma quorum_spec h n : configOK h ->
  quorum h n = true <-> 2 * allVotes (peersOf h (MyChainID h)) < 3 * n.
Proof.
  intros Hc. unfold quorum. rewrite votesIn_all by done.
  assert (0 <= allVotes (peersOf h (MyChainID h)))
    by (apply zsum_nonneg, Forall_fmap, (c_nonneg h Hc)).
  rewrite Z.quot_div_nonneg by lia. rewrite Z.gtb_lt.
  set (v := allVotes _) in *. pose proof (Z.div_mod (v * 2) 3 ltac:(lia)).
  pose proof (Z.mod_pos_bound (v * 2) 3 ltac:(lia)). lia.
Qed.

(** A set of validators with more than two thirds of the power of the own shard,
    each with a checked vote for the block with the given hash. *)
Definition voteQuorum {A} `{VoteMsg A} (h : t) (hash : bytes) (voters : list Z) : Prop :=
  NoDup voters /\ Forall (fun i => 0 <= i < zlen (peersOf h (MyChainID h))) voters /\
  2 * allVotes (peersOf h (MyChainID h)) < 3 * powerOf (peersOf h (MyChainID h)) voters /\
  forall i, i ∈ voters -> exists v, checked h i v /\ vHash v = hash.

Lemma votesOK_quorum {A} `{VoteMsg A} h (vs : Votes A) :
  configOK h -> votesOK h vs -> quorum h (total vs) = true ->
  exists p voters, Proposal h = Some p /\ voteQuorum (A := A) h (Proposal.BlockHeaderHash p) voters.
Proof.
  intros Hc [Hs (bv & [Eb Hwf Hsz Hlen Hbit Htot])] Hq%quorum_spec; [|done].
  rewrite Htot, votesOf_setBits in Hq by done.
  pose proof (setBits_NoDup bv) as Hnd. pose proof (setBits_range bv) as Hr.
  set (voters := map Z.of_nat (setBits bv)) in *. rewrite Hsz in Hr.
  assert (forall i, i ∈ voters -> counted h vs i) as Hcnt.
  { intros i [Hi Hb]%elem_of_setBits. apply Hbit in Hb as [_ ?]; [done|lia]. }
  assert (exists p, Proposal h = Some p) as [p Hp].
  { destruct voters as [|i l] eqn:Ev.
    - assert (0 <= allVotes (peersOf h (MyChainID h)))
        by (apply zsum_nonneg, Forall_fmap, (c_nonneg h Hc)). cbn in Hq. lia.
    - destruct (Hcnt i ltac:(set_solver)) as (v & p & _ & Hp & _). eauto. }
  exists p, voters. split; [done|]. split; [done|]. split; [done|]. split; [done|].
  intros i Hi. destruct (Hcnt i Hi) as (v & p' & Hz & Hp' & Hh). rewrite Hp in Hp'. injection Hp' as <-.
  exists v. split; [by apply Hs|done].
Qed.

(** C3: when the precommit step of a reachable package finishes, there is a
    proposal, the block is collected, and validators with more than two thirds of
    the voting power of the shard have signed a precommit (and others, or the
    same, a prevote) for the hash of the proposal at this height and round. *)
Theorem FinishPrecommit_quorum my si h h' :
  validShards my si -> reachable my si h -> FinishPrecommit h = (h', true) ->
  exists p prevoters precommitters, Proposal h' = Some p /\
    is_Some (CrossShardBlocks h' !! MyChainID h') /\
    voteQuorum (A := Prevote.t) h' (Proposal.BlockHeaderHash p) prevoters /\
    voteQuorum (A := Precommit.t) h' (Proposal.BlockHeaderHash p) precommitters.
Proof.
  intros Hv Hr E. pose proof (reachable_ok my si h Hv Hr) as Hwf.
  destruct (FinishPrecommit_spec h h' true Hwf E) as (Hwf' & _ & Hpc).
  destruct (Hpc eq_refl) as [[[_ Hb] Hq1] Hq2].
  destruct (votesOK_quorum h' (Prevotes h') (w_config h' Hwf') (w_prevotes h' Hwf') Hq1) as (p & l & Hp & Hl).
  destruct (votesOK_quorum h' (Precommits h') (w_config h' Hwf') (w_precommits h' Hwf') Hq2) as (p' & l' & Hp' & Hl').
  rewrite Hp in Hp'. injection Hp' as <-. by exists p, l, l'.
Qed.

(** C2: two nodes of a shard that finish the precommit step of the same height
    and round for different block hashes expose validators with more than a third
    of the voting power who signed precommits for both. *)
Theorem agreement my si h1 h1' h2 h2' p1 p2 :
  validShards my si -> reachable my si h1 -> reachable my si h2 ->
  FinishPrecommit h1 = (h1', true) -> FinishPrecommit h2 = (h2', true) ->
  ShardInfo h1' = ShardInfo h2' -> MyChainID h1' = MyChainID h2' ->
  Height h1' = Height h2' -> Round h1' = Round h2' ->
  Proposal h1' = Some p1 -> Proposal h2' = Some p2 ->
  Proposal.BlockHeaderHash p1 <> Proposal.BlockHeaderHash p2 ->
  let peers := peersOf h1' (MyChainID h1') in
  exists byzantine, NoDup byzantine /\ allVotes peers < 3 * powerOf peers byzantine /\
    forall i, i ∈ byzantine -> exists v1 v2 : Precommit.t,
      checked h1' i v1 /\ checked h1' i v2 /\
      Precommit.BlockHeaderHash v1 = Proposal.BlockHeaderHash p1 /\
      Precommit.BlockHeaderHash v2 = Proposal.BlockHeaderHash p2.
Proof.
  intros Hv Hr1 Hr2 E1 E2 ES EM EH ER Hp1 Hp2 Hne.
  destruct (FinishPrecommit_spec h1 h1' true (reachable_ok _ _ _ Hv Hr1) E1) as (W1 & _ & [_ Q1]); [done|].
  destruct (FinishPrecommit_spec h2 h2' true (reachable_ok _ _ _ Hv Hr2) E2) as (W2 & _ & [_ Q2]); [done|].
  destruct (votesOK_quorum h1' (Precommits h1') (w_config _ W1) (w_precommits _ W1) Q1)
    as (p & l & Hp & Hnd & Hrg & Hpow & Hck).
  destruct (votesOK_quorum h2' (Precommits h2') (w_config _ W2) (w_precommits _ W2) Q2)
    as (p' & l' & Hp' & Hnd' & Hrg' & Hpow' & Hck').
  rewrite Hp1 in Hp. injection Hp as <-. rewrite Hp2 in Hp'. injection Hp' as <-.
  assert (peersOf h2' (MyChainID h2') = peersOf h1' (MyChainID h1')) as EP
    by (unfold peersOf; by rewrite ES, EM).
  rewrite EP in *. destruct (quorum_overlap _ l l' (c_nonneg _ (w_config _ W1) _) Hnd Hnd' Hrg Hrg' Hpow Hpow')
    as (both & Hb1 & Hb2 & Hb3).
  cbv zeta. exists both. split; [done|]. split; [done|]. intros i Hi. destruct (Hb3 i Hi) as [Hi1 Hi2].
  destruct (Hck i Hi1) as (v1 & Hc1 & Hh1). destruct (Hck' i Hi2) as (v2 & Hc2 & Hh2).
  exists v1, v2. split; [done|]. split; [|done]. destruct Hc2 as [C1 C2 C3 (val & msg & C4 & C5 & C6)].
  split; [done|by rewrite EH|by rewrite ER|]. exists val, msg. split; [|done].
  rewrite (c_valset _ (w_config _ W1)), ES, EM, <- (c_valset _ (w_config _ W2)). done.
Qed.

(** A received vote with a validator index of -8 or less makes the node
    panic, whatever else it holds: the bit vector is read before the index is
    checked. *)
Theorem negative_index_panics my si h p :
  validShards my si -> reachable my si h -> Prevote.ValidatorIndex p <= -8 ->
  AddPrevote h p = Panic.
Proof.
  intros Hv Hr Hi. destruct (w_prevotes h (reachable_ok my si h Hv Hr)) as [_ (bv & Ht)].
  unfold AddPrevote, addVote. rewrite (t_bits _ _ _ _ Ht). cbn [BV.GetIndex vIndex prevoteMsg].
  destruct (t_wf _ _ _ _ Ht) as [Hb _]. rewrite Z.geb_leb.
  destruct (Z.leb_spec (BV.Bits bv) (Prevote.ValidatorIndex p)); [lia|].
  assert (Z.quot (Prevote.ValidatorIndex p) 8 < 0) as Hq.
  { rewrite <- (Z.opp_involutive (Prevote.ValidatorIndex p)), Z.quot_opp_l by lia.
    rewrite Z.quot_div_nonneg by lia.
    pose proof (Z.div_le_lower_bound (- Prevote.ValidatorIndex p) 8 1). lia. }
  unfold idx, zlook. by rewrite decide_True by done.
Qed.

(** ** Accepted cross-shard proposals *)

Lemma proposalVotes_exact bv peers :
  BV.wf bv -> BV.Bits bv = zlen peers -> votesNonneg peers -> allVotes peers < 2 ^ 31 ->
  proposalVotes (Some bv) peers = Ok (votesOf bv peers).
Proof.
  intros Hwf HB Hn Hs. rewrite votesOf_setBits by done. unfold proposalVotes, setBits. cbn [BV.Size].
  assert (forall l acc, NoDup l -> (forall i, i ∈ l -> Z.of_nat i < BV.Bits bv) -> 0 <= acc ->
    acc + powerOf peers (map Z.of_nat (filter (fun i => BV.bit bv (Z.of_nat i) = true) l)) < 2 ^ 31 ->
    go_foldl (fun voteTotal (i : nat) =>
      let! b := BV.GetIndex (Some bv) (Z.of_nat i) in
      if b then let! peer := idx peers (Z.of_nat i) in Ok (i32 (voteTotal + Peer.Vote peer))
      else Ok voteTotal) acc l =
    Ok (acc + powerOf peers (map Z.of_nat (filter (fun i => BV.bit bv (Z.of_nat i) = true) l)))) as HG.
  { induction l as [|i l IH]; intros acc Hnd Hl Ha Hb.
    - cbn. by rewrite Z.add_0_r.
    - cbn [go_foldl]. rewrite BV.GetIndex_spec by (done || lia). pose proof (Hl i ltac:(set_solver)).
      apply NoDup_cons in Hnd as [_ Hnd]. rewrite filter_cons in *. cbn [gbind].
      destruct (Z.ltb_spec (Z.of_nat i) (BV.Bits bv)); [|lia].
      destruct (BV.bit bv (Z.of_nat i)) eqn:Eb.
      + rewrite decide_True in * by done. cbn [map] in *. unfold powerOf in *. cbn [map] in *.
        rewrite zsum_cons in *. destruct (idx_total peers (Z.of_nat i) ltac:(lia)) as (peer & Ep & _).
        rewrite Ep. cbn [gbind]. apply idx_Ok in Ep. unfold power at 1 in Hb. unfold power at 1.
        rewrite Ep in *. assert (0 <= Peer.Vote peer).
        { pose proof (power_nonneg peers (Z.of_nat i) Hn) as Hp. unfold power in Hp. by rewrite Ep in Hp. }
        set (rest := zsum _) in *. assert (0 <= rest).
        { apply zsum_nonneg, Forall_fmap, Forall_forall. intros. simpl. by apply power_nonneg. }
        rewrite wrap_s_small by (unfold in_s; lia). rewrite IH; [f_equal; unfold rest; lia|done|set_solver|lia|].
        fold rest. lia.
      + rewrite decide_False in * by done. apply IH; [done|set_solver|done|done]. }
  rewrite HG; [done|apply NoDup_seq|intros i ?%elem_of_seq; lia|lia|].
  pose proof (powerOf_le peers _ Hn (setBits_NoDup bv)) as Hle. unfold setBits in Hle.
  rewrite HB in Hle. specialize (Hle ltac:(rewrite <- HB; apply setBits_range)). rewrite HB. lia.
Qed.

Lemma two_thirds_int x v : 0 <= v < 2 ^ 30 ->
  (x >? i32 (Z.quot (v * 2) 3)) = true <-> 2 * v < 3 * x.
Proof.
  intros Hv. rewrite Z.quot_div_nonneg by lia. rewrite Z.gtb_lt.
  pose proof (Z.div_mod (v * 2) 3 ltac:(lia)). pose proof (Z.mod_pos_bound (v * 2) 3 ltac:(lia)).
  rewrite wrap_s_small by (unfold in_s; lia). lia.
Qed.

(** C17: a cross-shard proposal that a reachable package accepts is for its height
    and carries the valid aggregate precommit signature of more than two thirds
    of the voting power of the proposing shard. *)
Theorem AddCrossShardProposal_sound my si h csp h' :
  validShards my si -> reachable my si h ->
  let agg := CrossShardProposal.AggregatedSignatures csp in
  let cid := PartSetHeader.ChainID (PrecommitAggregated.Header agg) in
  (forall bv, PrecommitAggregated.ValidatorBitVector agg = Some bv -> BV.wf bv) ->
  allVotes (peersOf h cid) < 2 ^ 30 ->
  AddCrossShardProposal h csp = Ok (h', None) ->
  exists keys bv, AllValidatorSet h !! cid = Some keys /\
    PrecommitAggregated.ValidatorBitVector agg = Some bv /\
    PartSetHeader.Height (PrecommitAggregated.Header agg) = Height h /\
    PrecommitAggregated.VerifySignatures agg (Some keys) (BV.Byte (Some bv)) = Ok true /\
    2 * allVotes (peersOf h cid) < 3 * votesOf bv (peersOf h cid).
Proof.
  intros Hv Hr agg cid Hbv Hmax E. pose proof (w_config h (reachable_ok my si h Hv Hr)) as Hc.
  unfold AddCrossShardProposal in E. fold agg cid in E.
  destruct (Z.eqb_spec (PartSetHeader.Height (PrecommitAggregated.Header agg)) (Height h)) as [EH|]; [|done].
  cbn [negb] in E. destruct (CrossShardProposals h !! cid); [done|].
  apply gbind_Ok in E as (valid & Ev & E). destruct valid; [|done]. cbn [negb] in E.
  apply gbind_Ok in E as (tot & Et & E). destruct (tot >? _) eqn:Eq; [|done].
  assert (0 <= allVotes (peersOf h cid)) by (apply zsum_nonneg, Forall_fmap, (c_nonneg h Hc)).
  rewrite votesIn_all in Eq by done. apply two_thirds_int in Eq; [|lia].
  destruct (AllValidatorSet h !! cid) as [keys|] eqn:Ek; [|done].
  pose proof (valset_Some h cid keys Hc Ek) as ->.
  destruct (PrecommitAggregated.ValidatorBitVector agg) as [bv|] eqn:Eb.
  - exists (peersVerifier (peersOf h cid)), bv. repeat (split; [done|]).
    rewrite proposalVotes_exact in Et; [by injection Et as <-|by apply Hbv| |apply (c_nonneg h Hc)|lia].
    unfold PrecommitAggregated.VerifySignatures in Ev. apply gbind_Ok in Ev as (msg & _ & Ev).
    unfold VerifyAggregateSignature in Ev. rewrite BV.decode_Byte in Ev by by apply Hbv.
    cbn [gbind BV.Size] in Ev. rewrite peersVerifier_length in Ev.
    by destruct (Z.eqb_spec (zlen (peersOf h cid)) (BV.Bits bv)).
  - cbn in Et. injection Et as <-. lia.
Qed.

(** ** The aggregate of the precommits *)

Lemma countedSignatures_ok h vs bv :
  tallied h vs bv (zlen (slots vs)) ->
  exists signed, countedSignatures vs = Ok signed.*2 /\ signed.*1 = setBits bv /\
    Forall (fun e => exists v, zlook (slots vs) (Z.of_nat e.1) = Some (Some v) /\
                               e.2 = Precommit.Signature v) signed.
Proof.
  intros [Eb Hwf Hsz Hlen Hbit Htot]. unfold countedSignatures, setBits. rewrite Eb. cbn [BV.Size].
  assert (forall l acc, (forall i, i ∈ l -> Z.of_nat i < BV.Bits bv) ->
    exists signed, go_foldl (fun aggSigs (i : nat) =>
      let! b := BV.GetIndex (Some bv) (Z.of_nat i) in
      if b then let! slot := idx (slots vs) (Z.of_nat i) in let! v := deref slot in
        Ok (aggSigs ++ [Precommit.Signature v]) else Ok aggSigs) acc l = Ok (acc ++ signed.*2) /\
    signed.*1 = filter (fun i => BV.bit bv (Z.of_nat i) = true) l /\
    Forall (fun e => exists v, zlook (slots vs) (Z.of_nat e.1) = Some (Some v) /\
                               e.2 = Precommit.Signature v) signed) as HG.
  { induction l as [|i l IH]; intros acc Hl.
    - exists []. cbn. rewrite app_nil_r. done.
    - cbn [go_foldl]. rewrite BV.GetIndex_spec by (done || lia). pose proof (Hl i ltac:(set_solver)).
      destruct (Z.ltb_spec (Z.of_nat i) (BV.Bits bv)); [|lia]. rewrite filter_cons. cbn [gbind].
      destruct (BV.bit bv (Z.of_nat i)) eqn:Hb.
      + rewrite decide_True by done. destruct (proj1 (Hbit (Z.of_nat i) ltac:(lia)) Hb) as [_ (v & p & Hz & _)].
        rewrite (proj2 (idx_Ok _ _ _) Hz). cbn [gbind deref].
        destruct (IH (acc ++ [Precommit.Signature v])) as (signed & E1 & E2 & E3); [set_solver|].
        exists ((i, Precommit.Signature v) :: signed). rewrite E1, <- app_assoc.
        split; [done|]. split; [cbn; by rewrite E2|]. constructor; [by exists v|done].
      + rewrite decide_False by done. apply IH. set_solver. }
  destruct (HG (seq 0 (Z.to_nat (BV.Bits bv))) []) as (signed & E1 & E2 & E3).
  - intros i Hi%elem_of_seq. lia.
  - by exists signed.
Qed.

Context `{!BLSLaws}.

(** C18: the aggregate a node makes when its precommit step is finished carries
    more than two thirds of the votes, and, provided every counted precommit is an
    approval (code OK of type precommit), its signature verifies for its validators
    exactly when the keys of the signers do not add up to the identity. *)
Theorem GenerateAggregate_verifies my si h p :
  validShards my si -> reachable my si h -> precommitted h -> Proposal h = Some p ->
  (forall i v, counted h (Precommits h) i -> zlook (slots (Precommits h)) i = Some (Some v) ->
     Precommit.Code v = CodeTypeOK /\ Precommit.VoteType v = VoteTypePrecommit) ->
  exists agg bv, GenerateAggregatePrecommitSignature h = Ok agg /\
    PrecommitAggregated.ValidatorBitVector agg = Some bv /\
    PrecommitAggregated.BlockHeaderHash agg = Proposal.BlockHeaderHash p /\
    2 * allVotes (peersOf h (MyChainID h)) < 3 * votesOf bv (peersOf h (MyChainID h)) /\
    exists valid, PrecommitAggregated.VerifySignatures agg (AllValidatorSet h !! MyChainID h)
      (BV.Byte (PrecommitAggregated.ValidatorBitVector agg)) = Ok valid /\
      (valid = true <-> aggregateKey (peersVerifier (peersOf h (MyChainID h))) bv <> pkZero).
Proof.
  intros Hv Hr [_ Hq] Hp Hall. pose proof (reachable_ok my si h Hv Hr) as Hwf.
  destruct (w_header h Hwf p Hp) as (EH & ER & _).
  pose proof (w_config h Hwf) as Hc. destruct (w_precommits h Hwf) as [Hs (bv & Ht)].
  pose proof Ht as [Eb Hbv Hsz Hlen Hbit Htot].
  destruct (countedSignatures_ok h (Precommits h) bv Ht) as (signed & Esig & Efst & Hsigned).
  set (val := peersVerifier (peersOf h (MyChainID h))).
  assert (zlen val = zlen (peersOf h (MyChainID h))) as Hval by (unfold val; by rewrite peersVerifier_length).
  assert (exists msg, Precommit.SignBytes
    (Precommit.NewPrecommit (Height h) (Round h) (Proposal.BlockHeaderHash p) (-1)) = Ok msg /\
    Forall (fun e => Verify val e.2 msg (Z.of_nat e.1) = Ok true) signed) as (msg & Emsg & Hver).
  { assert (forall i x, (i, x) ∈ signed -> exists msg, Precommit.SignBytes
      (Precommit.NewPrecommit (Height h) (Round h) (Proposal.BlockHeaderHash p) (-1)) = Ok msg /\
      Verify val x msg (Z.of_nat i) = Ok true) as HE.
    { intros i x Hin. rewrite Forall_forall in Hsigned. destruct (Hsigned _ Hin) as (v & Hz & Ex).
      cbn in Hz, Ex. subst x. destruct (Hs _ _ Hz) as [K1 K2 K3 (val' & msg & K4 & K5 & K6)].
      rewrite mine_valset in K4 by done. injection K4 as <-. exists msg. split; [|done].
      rewrite <- K5. unfold vSignBytes, precommitMsg, Precommit.SignBytes.
      assert (i ∈ setBits bv) as Hib by (rewrite <- Efst; apply list_elem_of_fmap; by exists (i, Precommit.Signature v)).
      apply list_elem_of_filter in Hib as [Hib Hir%elem_of_seq].
      destruct (proj1 (Hbit (Z.of_nat i) ltac:(lia)) Hib) as [_ Hcnt].
      destruct (Hall _ _ Hcnt Hz) as [C1 C2]. cbn in K2, K3. rewrite C1, C2, K2, K3.
      destruct Hcnt as (v' & p' & Hz' & Hp' & Hh). rewrite Hz in Hz'. injection Hz' as <-. rewrite Hp in Hp'. injection Hp' as <-.
      cbn in Hh. by rewrite Hh. }
    destruct signed as [|[i x] l].
    - cbn in Efst. rewrite quorum_spec, Htot, votesOf_setBits, <- Efst in Hq by done.
      assert (0 <= allVotes (peersOf h (MyChainID h)))
        by (apply zsum_nonneg, Forall_fmap, (c_nonneg h Hc)). cbn in Hq. lia.
    - destruct (HE i x ltac:(set_solver)) as (msg & Em & _). exists msg. split; [done|].
      apply Forall_forall. intros [j y] Hin. destruct (HE j y Hin) as (msg' & Em' & Hvj).
      rewrite Em in Em'. by injection Em' as <-. }
  destruct (aggregate_verifies val bv signed msg Hbv ltac:(lia) ltac:(by rewrite Efst) Hver)
    as (aggSig & valid & Eagg & Hagg & Hvalid).
  unfold GenerateAggregatePrecommitSignature. rewrite Esig. cbn [gbind]. rewrite Eagg. cbn [deref gbind].
  rewrite Hp. cbn [deref gbind]. unfold PrecommitAggregated.NewPrecommitAggregated.
  rewrite Eb, BV.decode_Byte by done. cbn [gbind]. eexists _, bv. split; [done|]. split; [done|].
  split; [done|]. split; [by rewrite <- Htot, <- quorum_spec|].
  exists valid. split; [|exact Hvalid]. unfold PrecommitAggregated.VerifySignatures. rewrite mine_valset by done.
  unfold PrecommitAggregated.Precommit_. cbn [PrecommitAggregated.Header PrecommitAggregated.BlockHeaderHash
    PrecommitAggregated.Code PrecommitAggregated.AggregatedSignatures PrecommitAggregated.ValidatorBitVector].
  rewrite EH, ER. unfold Precommit.NewPrecommit in *. cbn in Emsg. cbn. rewrite Emsg. cbn [gbind]. exact Hagg.
Qed.

End heightdata.
End HeightData.

(** ** A concrete height *)

Module HeightDemo.
Import DemoHash Demo SignerDemo VotesDemo PartSetDemo HeightData.
Local Open Scope string_scope.

Definition my : string := "shard-1".
Definition si : ShardInfo.t :=
  ShardInfo.mk {[my := peers]} {["upper" := true]} ∅ {["upper" := [my]]} BLOCKTYPE_I ∅.

(** Two proposals for the height: of the demo block and of another one. *)
Definition sentOf (w : bool) : PartSet.t :=
  if w then sent
  else match @PartSet.PartSetFromBlock _ _ Demo.blockCodec Demo.block2 12 0 with
       | Ok (_, ps) => ps | _ => sent end.
Definition partOf (w : bool) (i : nat) : Part.t :=
  match PartSet.Parts (sentOf w) !! i with Some (Some p) => p | _ => Part.mk "" 0 0 [] None end.
Definition hash (w : bool) : bytes := PartSet.BlockHeaderHash (sentOf w).
Definition enc (w : bool) (s : string) : bytes := of_str (if w then s else s ++ " 2").
Definition unsigned (w : bool) : Proposal.t :=
  Proposal.NewProposal (PartSet.Header (sentOf w)) 0 (hash w).
Definition proposalTable : list (pbProposal * bytes) :=
  map (fun w => (Proposal.ToProto (unsigned w), enc w "proposal")) [true; false].
Lemma proposalEncodings : NoDup proposalTable.*2.
Proof. apply (bool_decide_unpack _). vm_compute. exact I. Qed.
Definition proposalCodec : Codec pbProposal := tableCodec proposalTable proposalEncodings.
Definition voteMsg (w : bool) (vt code : Z) : pbVote := mkpbVote vt (-1) 7 0 code (hash w) "".
Definition voteTable : list (pbVote * bytes) :=
  w ← [true; false];
  [(voteMsg w VoteTypePrevote CodeTypeOK, enc w "prevote");
   (voteMsg w VoteTypePrecommit CodeTypeOK, enc w "precommit");
   (voteMsg w VoteTypePrecommit CodeTypeAbort, enc w "abort")].
Lemma voteEncodings : NoDup voteTable.*2.
Proof. apply (bool_decide_unpack _). vm_compute. exact I. Qed.
Definition voteCodec : Codec pbVote := tableCodec voteTable voteEncodings.
#[local] Existing Instance Demo.blockCodec.
#[local] Existing Instance proposalCodec.
#[local] Existing Instance voteCodec.
#[local] Existing Instance VotesDemo.acceptCodec.
#[local] Existing Instance VotesDemo.commitCodec.

Definition sign (i : nat) (msg : bytes) : string := Sign_ (S i : Signer) msg.
Definition proposal (w : bool) : Proposal.t :=
  Proposal.setSignature (unsigned w) (sign 0 (enc w "proposal")).
Definition prevote (w : bool) (i : nat) : Prevote.t :=
  Prevote.setSignature (Prevote.NewPrevote 7 0 (hash w) (Z.of_nat i)) (sign i (enc w "prevote")).
Definition precommit (w : bool) (i : nat) : Precommit.t :=
  Precommit.setSignature (Precommit.NewPrecommit 7 0 (hash w) (Z.of_nat i)) (sign i (enc w "precommit")).
(** A signed refusal. *)
Definition refusal (i : nat) : Precommit.t :=
  Precommit.setSignature
    (Precommit.SetOK (Precommit.NewPrecommit 7 0 (hash true) (Z.of_nat i)) false)
    (sign i (enc true "abort")).

Definition after (f : HeightData.t -> go (HeightData.t * option goerr)) (h : HeightData.t) : HeightData.t :=
  match f h with Ok (h', _) => h' | _ => h end.

Definition start : HeightData.t :=
  match NewHeightData my 7 si with Ok h => h
  | _ => mk 0 0 "" 0 si ∅ ∅ None noVotes noVotes ∅ ∅ 0 ∅ ∅ ∅ ∅ end.
(** A part and a vote arrive before the proposal. *)
Definition collected (w : bool) : HeightData.t :=
  fold_left (fun h f => after f h)
    ([(fun h => AddPart h (partOf w 2)); (fun h => AddPrevote h (prevote w 1));
      (fun h => AddProposal h (proposal w) 0);
      (fun h => AddPart h (partOf w 0)); (fun h => AddPart h (partOf w 1));
      (fun h => AddPrevote h (prevote w 0)); (fun h => AddPrevote h (prevote w 2))]) start.
Definition voted (w : bool) : HeightData.t :=
  fold_left (fun h i => after (fun h => AddPrecommit h (precommit w i)) h) [0; 1; 2]%nat (collected w).
Definition refused : HeightData.t :=
  after (fun h => AddPrecommit h (refusal 2))
    (fold_left (fun h i => after (fun h => AddPrecommit h (precommit true i)) h) [0; 1]%nat (collected true)).
Definition finished (w : bool) : HeightData.t := fst (FinishPrecommit (voted w)).

Lemma after_reachable f h :
  (forall h h' err, f h = Ok (h', err) -> step h h') -> reachable my si h -> reachable my si (after f h).
Proof.
  intros Hf Hr. unfold after. destruct (f h) as [[h' err]| |] eqn:E; [|done..].
  by eapply ReachStep, Hf.
Qed.

Lemma si_valid : validShards my si.
Proof.
  split; [by eexists|]. intros cid ps Hp.
  change (({[my := peers]} : gmap string (list Peer.t)) !! cid = Some ps) in Hp.
  apply lookup_singleton_Some in Hp as [_ <-].
  repeat constructor; cbn; lia.
Qed.

Lemma start_reachable : reachable my si start.
Proof. apply (ReachNew my si 7). vm_compute. reflexivity. Qed.

Lemma collected_reachable w : reachable my si (collected w).
Proof.
  unfold collected. cbn [fold_left].
  repeat (apply after_reachable;
    [intros h h' err E;
     first [by eapply StepPart | by eapply StepPrevote | by eapply StepProposal]|]).
  exact start_reachable.
Qed.

Lemma voted_reachable w : reachable my si (voted w).
Proof.
  unfold voted. cbn [fold_left].
  repeat (apply after_reachable; [intros h h' err E; by eapply StepPrecommit|]).
  exact (collected_reachable w).
Qed.

Lemma voted_finishes w : FinishPrecommit (voted w) = (finished w, true).
Proof. destruct w; vm_compute; reflexivity. Qed.

Lemma finished_precommitted w : precommitted (finished w).
Proof.
  by apply (FinishPrecommit_spec (voted w) (finished w) true
              (reachable_ok my si (voted w) si_valid (voted_reachable w)) (voted_finishes w)).
Qed.

Lemma finished_reachable w : reachable my si (finished w).
Proof. eapply ReachStep; [exact (voted_reachable w)|]. eapply StepFinishPrecommit, (voted_finishes w). Qed.

Lemma reachable_wf_witness : wf (finished true).
Proof. exact (reachable_wf my si (finished true) si_valid (finished_reachable true)). Defined.

Lemma FinishPrecommit_quorum_witness :
  exists p prevoters precommitters, Proposal (finished true) = Some p /\
    is_Some (CrossShardBlocks (finished true) !! MyChainID (finished true)) /\
    voteQuorum (A := Prevote.t) (finished true) (Proposal.BlockHeaderHash p) prevoters /\
    voteQuorum (A := Precommit.t) (finished true) (Proposal.BlockHeaderHash p) precommitters.
Proof. exact (FinishPrecommit_quorum my si (voted true) (finished true) si_valid (voted_reachable true)
  (voted_finishes true)). Defined.

Lemma negative_index_panics_witness : AddPrevote start (Prevote.NewPrevote 7 0 (hash true) (-8)) = Panic.
Proof. apply (negative_index_panics my si start _ si_valid start_reachable). cbn. lia. Defined.

Lemma GenerateAggregate_verifies_witness :
  exists agg bv, GenerateAggregatePrecommitSignature (finished true) = Ok agg /\
    PrecommitAggregated.ValidatorBitVector agg = Some bv /\
    PrecommitAggregated.BlockHeaderHash agg = Proposal.BlockHeaderHash (proposal true) /\
    2 * allVotes (peersOf (finished true) (MyChainID (finished true))) <
      3 * votesOf bv (peersOf (finished true) (MyChainID (finished true))) /\
    PrecommitAggregated.VerifySignatures agg (AllValidatorSet (finished true) !! MyChainID (finished true))
      (BV.Byte (PrecommitAggregated.ValidatorBitVector agg)) = Ok true.
Proof.
  destruct (GenerateAggregate_verifies my si (finished true) (proposal true) si_valid (finished_reachable true) (finished_precommitted true))
    as (agg & bv & E & Ebv & Eh & Hq & valid & Ev & Hvalid).
  - vm_compute. reflexivity.
  - intros i v _ Hv.
    assert (Forall (fun q => forall v, q = Some v ->
      Precommit.Code v = CodeTypeOK /\ Precommit.VoteType v = VoteTypePrecommit) (slots (Precommits (finished true)))) as HF.
    { assert (slots (Precommits (finished true)) = map (fun i => Some (precommit true i)) [0; 1; 2]%nat) as ->
        by (vm_compute; reflexivity).
      apply Forall_fmap, Forall_forall. intros j _ v' [= <-]. done. }
    apply zlook_Some in Hv as [_ Hv]. rewrite Forall_lookup in HF. by eapply HF.
  - exists agg, bv. split; [exact E|]. split; [exact Ebv|]. split; [exact Eh|]. split; [exact Hq|].
    rewrite Ev. f_equal. apply Hvalid. vm_compute in E. injection E as <-. injection Ebv as <-. vm_compute. discriminate.
Defined.

Lemma agreement_witness :
  let peers := peersOf (finished true) (MyChainID (finished true)) in
  exists byzantine, NoDup byzantine /\ allVotes peers < 3 * powerOf peers byzantine /\
    forall i, i ∈ byzantine -> exists v1 v2 : Precommit.t,
      checked (finished true) i v1 /\ checked (finished true) i v2 /\
      Precommit.BlockHeaderHash v1 = Proposal.BlockHeaderHash (proposal true) /\
      Precommit.BlockHeaderHash v2 = Proposal.BlockHeaderHash (proposal false).
Proof.
  refine (agreement my si (voted true) (finished true) (voted false) (finished false)
           (proposal true) (proposal false) si_valid (voted_reachable true) (voted_reachable false)
           (voted_finishes true) (voted_finishes false) _ _ _ _ _ _ _);
    [vm_compute; reflexivity..|vm_compute; discriminate].
Defined.

(** A signed refusal counts as a vote, and the aggregate it is part of does not
    verify. *)
Example refusal_breaks_aggregate :
  snd (FinishPrecommit refused) = true /\
  (let! agg := GenerateAggregatePrecommitSignature (fst (FinishPrecommit refused)) in
   PrecommitAggregated.VerifySignatures agg (AllValidatorSet refused !! my)
     (BV.Byte (PrecommitAggregated.ValidatorBitVector agg))) = Ok false.
Proof. vm_compute. split; reflexivity. Qed.

(** The own proposal, as it is sent to the related shards, accepted by a node of
    the same configuration at the start of the height. *)
Definition demoAggregate : PrecommitAggregated.t :=
  match GenerateAggregatePrecommitSignature (finished true) with
  | Ok agg => agg
  | _ => PrecommitAggregated.mk 0 0 None (PartSet.Header (sentOf true)) [] ""
  end.
Definition csp : CrossShardProposal.t :=
  CrossShardProposal.NewCrossShardProposal demoAggregate ShardTypeI.

Definition accepted : HeightData.t := after (fun h => AddCrossShardProposal h csp) start.

Lemma csp_accepted : AddCrossShardProposal start csp = Ok (accepted, None).
Proof. vm_compute. reflexivity. Qed.

Lemma csp_vector :
  PrecommitAggregated.ValidatorBitVector (CrossShardProposal.AggregatedSignatures csp) = Some VotesDemo.vector3.
Proof. vm_compute. reflexivity. Qed.

Lemma csp_votes :
  allVotes (peersOf start (PartSetHeader.ChainID
    (PrecommitAggregated.Header (CrossShardProposal.AggregatedSignatures csp)))) < 2 ^ 30.
Proof. vm_compute. reflexivity. Qed.

Lemma csp_wf bv :
  PrecommitAggregated.ValidatorBitVector (CrossShardProposal.AggregatedSignatures csp) = Some bv -> BV.wf bv.
Proof. rewrite csp_vector. intros [= <-]. exact VotesDemo.vector3_wf. Qed.

Lemma AddCrossShardProposal_sound_witness :
  let agg := CrossShardProposal.AggregatedSignatures csp in
  let cid := PartSetHeader.ChainID (PrecommitAggregated.Header agg) in
  exists keys bv, AllValidatorSet start !! cid = Some keys /\
    PrecommitAggregated.ValidatorBitVector agg = Some bv /\
    PartSetHeader.Height (PrecommitAggregated.Header agg) = Height start /\
    PrecommitAggregated.VerifySignatures agg (Some keys) (BV.Byte (Some bv)) = Ok true /\
    2 * allVotes (peersOf start cid) < 3 * votesOf bv (peersOf start cid).
Proof.
  exact (AddCrossShardProposal_sound my si start csp accepted si_valid start_reachable csp_wf
           csp_votes csp_accepted).
Defined.
End HeightDemo.
