(* ===== verification/Store.v ===== *)
(** * The block store: [utils/store/store.go] over [libs/db/types.go]

    [DB] is the database interface and [DBLaws] its documented contract for a
    backend that does not fail; the backends themselves (RocksDB, LevelDB) are
    bindings of C libraries. *)

From stdpp Require Import pretty.
From S2P Require Import Prelude.
Local Open Scope Z_scope.

(** ** [libs/db/types.go] *)

Inductive BatchOp :=
| BatchSet (key value : bytes)
| BatchDelete (key : bytes).

(** [dbGet] gives nil for an absent key. *)
Class DB := {
  Database : Type;
  dbGet : Database -> bytes -> option bytes * option goerr;
  dbHas : Database -> bytes -> bool * option goerr;
  dbSet : Database -> bytes -> bytes -> Database * option goerr;
  dbDelete : Database -> bytes -> Database * option goerr;
  batchWrite : Database -> list BatchOp -> Database * option goerr
}.

Definition applyOp (m : gmap bytes bytes) (op : BatchOp) : gmap bytes bytes :=
  match op with
  | BatchSet key value => <[key := value]> m
  | BatchDelete key => delete key m
  end.

Definition opKey (op : BatchOp) : bytes := match op with BatchSet key _ | BatchDelete key => key end.

(** Keys must not be empty. *)
Class DBLaws `{DB} := {
  contents : Database -> gmap bytes bytes;
  dbGet_spec d k : k <> [] -> dbGet d k = (contents d !! k, None);
  dbHas_spec d k : k <> [] -> dbHas d k = (bool_decide (is_Some (contents d !! k)), None);
  dbSet_spec d k v : k <> [] ->
    exists d', dbSet d k v = (d', None) /\ contents d' = <[k := v]> (contents d);
  dbDelete_spec d k : k <> [] ->
    exists d', dbDelete d k = (d', None) /\ contents d' = delete k (contents d);
  batchWrite_spec d ops : Forall (fun op => opKey op <> []) ops ->
    exists d', batchWrite d ops = (d', None) /\ contents d' = fold_left applyOp ops (contents d)
}.

(** What the store needs of a block ([ProtoBytesInterface]): its hash and its
    bytes, which [Hash] and [ProtoBytes] (which may panic) give. *)
Record Stored := mkStored { storedHash : bytes; storedBytes : go bytes }.

Module PrefixStore.
Section store.
Context `{DB}.

Definition stateKey : bytes := [Byte.x30].
Definition dataKey : bytes := [Byte.x31].
Definition toDataKey (bz : bytes) : bytes := dataKey ++ bz.
Definition toStateKey (bz : bytes) : bytes := stateKey ++ bz.
(** [bytes.TrimPrefix] *)
Definition fromDataKey (bz : bytes) : bytes :=
  if bool_decide (take (length dataKey) bz = dataKey) then drop (length dataKey) bz else bz.

Definition GetState (p : Database) (key : bytes) := dbGet p (toStateKey key).
Definition Get (p : Database) (key : bytes) := dbGet p (toDataKey key).
Definition HasState (p : Database) (key : bytes) := dbHas p (toStateKey key).
Definition Has (p : Database) (key : bytes) := dbHas p (toDataKey key).
Definition SetState (p : Database) (key state : bytes) := dbSet p (toStateKey key) state.
Definition Set_ (p : Database) (key value : bytes) := dbSet p (toDataKey key) value.
(** It deletes the bare prefix, not a state. *)
Definition DeleteState (p : Database) := dbDelete p stateKey.
Definition Delete (p : Database) (key : bytes) := dbDelete p (toDataKey key).

(** [fmt.Sprintf("%d:%s", height, chain)] *)
Definition heightKey (height : Z) (chain : string) : bytes :=
  of_str (pretty height +:+ ":" +:+ chain).

Definition GetBlockByHash (p : Database) (hs : bytes) := Get p hs.
Definition GetBlockByHeight (p : Database) (height : Z) (chain : string) : option bytes * option goerr :=
  let '(hs, err) := GetState p (heightKey height chain) in
  match err with
  | Some err => (None, Some err)
  | None => GetBlockByHash p (default [] hs)
  end.

Definition SetBlockByHash (p : Database) (hs : bytes) (block : Stored) : go (Database * option goerr) :=
  let! bz := storedBytes block in Ok (Set_ p hs bz).
Definition SetBlockByHeight (p : Database) (height : Z) (chain : string) (block : Stored) :
    go (Database * option goerr) :=
  let hs := storedHash block in
  let '(p, err) := SetState p (heightKey height chain) hs in
  match err with
  | Some err => Ok (p, Some err)
  | None => SetBlockByHash p hs block
  end.

(** A batch of data, in the order of the calls. *)
Definition batchOp (op : BatchOp) : BatchOp :=
  match op with
  | BatchSet key value => BatchSet (toDataKey key) value
  | BatchDelete key => BatchDelete (toDataKey key)
  end.
Definition WriteBatch (p : Database) (ops : list BatchOp) := batchWrite p (map batchOp ops).

(** ** Keys *)

Lemma toDataKey_inj k k' : toDataKey k = toDataKey k' -> k = k'.
Proof. by intros [= ->]. Qed.
Lemma toStateKey_inj k k' : toStateKey k = toStateKey k' -> k = k'.
Proof. by intros [= ->]. Qed.
Lemma state_data k k' : toStateKey k <> toDataKey k'.
Proof. done. Qed.
Lemma fromDataKey_to k : fromDataKey (toDataKey k) = k.
Proof. reflexivity. Qed.

Fixpoint noColon (s : string) : bool :=
  match s with
  | EmptyString => true
  | String a s => negb (bool_decide (a = Ascii.ascii_of_nat 58)) && noColon s
  end.

Lemma pretty_N_noColon n s : noColon s = true -> noColon (pretty_N_go n s) = true.
Proof.
  revert s. induction (N.lt_wf_0 n) as [n _ IH]; intros s Hs.
  destruct (decide (0 < n)%N) as [Hn|Hn].
  - rewrite pretty_N_go_step by done. apply IH; [apply N.div_lt; lia|]. simpl. rewrite Hs, andb_true_r.
    unfold pretty_N_char. by repeat case_match.
  - assert (n = 0%N) as -> by lia. by rewrite pretty_N_go_0.
Qed.

Lemma pretty_Z_noColon (z : Z) : noColon (pretty z) = true.
Proof.
  assert (forall p, noColon (pretty (N.pos p)) = true) as HN.
  { intros p. unfold pretty, pretty_N. case_decide; [done|]. by apply pretty_N_noColon. }
  destruct z as [|p|p]; [done|apply HN|]. unfold pretty, pretty_Z. cbn. apply HN.
Qed.

Lemma split_colon s s' t t' : noColon s = true -> noColon s' = true ->
  s +:+ String (Ascii.ascii_of_nat 58) t = s' +:+ String (Ascii.ascii_of_nat 58) t' -> s = s' /\ t = t'.
Proof.
  revert s'. induction s as [|a s IH]; intros [|b s'] Hs Hs' E; simpl in *.
  - by injection E.
  - injection E as <- _. done.
  - injection E as -> _. done.
  - injection E as -> E. apply andb_true_iff in Hs as [_ Hs], Hs' as [_ Hs'].
    by destruct (IH s' Hs Hs' E) as [-> ->].
Qed.

Lemma heightKey_inj h c h' c' : heightKey h c = heightKey h' c' -> h = h' /\ c = c'.
Proof.
  intros E%of_str_inj. cbn in E. apply split_colon in E as [E ->]; [|apply pretty_Z_noColon..].
  split; [|done]. by apply (inj pretty).
Qed.

(** ** Reads after writes *)

Context `{!DBLaws}.

Lemma WriteBatch_contents p ops :
  exists p', WriteBatch p ops = (p', None) /\ contents p' = fold_left applyOp (map batchOp ops) (contents p).
Proof. apply batchWrite_spec, Forall_fmap, Forall_true. by intros []. Qed.

Lemma SetBlockByHeight_contents p h c b bz : storedBytes b = Ok bz ->
  exists p', SetBlockByHeight p h c b = Ok (p', None) /\
  contents p' = <[toDataKey (storedHash b) := bz]>
    (<[toStateKey (heightKey h c) := storedHash b]> (contents p)).
Proof.
  intros Eb. unfold SetBlockByHeight, SetState. cbn zeta.
  destruct (dbSet_spec p (toStateKey (heightKey h c)) (storedHash b)) as (p1 & -> & E1); [done|].
  unfold SetBlockByHash, Set_. rewrite Eb. cbn [gbind].
  destruct (dbSet_spec p1 (toDataKey (storedHash b)) bz) as (p2 & -> & E2); [done|].
  exists p2. split; [done|]. by rewrite E2, E1.
Qed.

Lemma GetBlockByHeight_contents p h c :
  GetBlockByHeight p h c =
  (contents p !! toDataKey (default [] (contents p !! toStateKey (heightKey h c))), None).
Proof.
  unfold GetBlockByHeight, GetState. rewrite dbGet_spec by done. cbn.
  unfold GetBlockByHash, Get. by rewrite dbGet_spec.
Qed.

(** A stored block is read back under its height and chain; every other
    height and chain reads what it read before, unless it refers to the same
    hash. *)
Theorem SetBlockByHeight_reads p h c b bz : storedBytes b = Ok bz ->
  exists p', SetBlockByHeight p h c b = Ok (p', None) /\
    GetBlockByHeight p' h c = (Some bz, None) /\
    forall h' c', (h', c') <> (h, c) ->
      (fst (GetState p (heightKey h' c')) <> Some (storedHash b) /\ storedHash b <> [] ->
       GetBlockByHeight p' h' c' = GetBlockByHeight p h' c') /\
      (fst (GetState p (heightKey h' c')) = Some (storedHash b) ->
       GetBlockByHeight p' h' c' = (Some bz, None)).
Proof.
  intros Eb. destruct (SetBlockByHeight_contents p h c b bz Eb) as (p' & -> & Hc). exists p'. split; [done|].
  split; [|intros h' c' Hne].
  - rewrite GetBlockByHeight_contents, Hc.
    rewrite (lookup_insert_ne _ (toDataKey _) (toStateKey _)), lookup_insert_eq by done. cbn. by rewrite lookup_insert_eq.
  - assert (contents p' !! toStateKey (heightKey h' c') = contents p !! toStateKey (heightKey h' c')) as Es.
    { rewrite Hc, (lookup_insert_ne _ (toDataKey _) (toStateKey _)) by done. apply lookup_insert_ne.
      intros E%toStateKey_inj%heightKey_inj. destruct E as [-> ->]. done. }
    unfold GetState. rewrite dbGet_spec by done. cbn [fst]. rewrite !GetBlockByHeight_contents, Es.
    split.
    + intros [Hn Hnil].
      assert (storedHash b <> default [] (contents p !! toStateKey (heightKey h' c'))) as Hk
        by (destruct (contents p !! _) as [hs|]; cbn in Hn |- *; congruence).
      rewrite Hc, lookup_insert_ne by (by intros E%toDataKey_inj).
      by rewrite lookup_insert_ne.
    + intros ->. cbn. by rewrite Hc, lookup_insert_eq.
Qed.
End store.
End PrefixStore.

(** A database that is a finite map. *)
Module StoreDemo.
#[export] Instance mapDB : DB :=
  {| Database := gmap bytes bytes;
     dbGet d k := match k with [] => (None, Some (Errorf "key cannot be empty")) | _ => (d !! k, None) end;
     dbHas d k := match k with [] => (false, Some (Errorf "key cannot be empty"))
                  | _ => (bool_decide (is_Some (d !! k)), None) end;
     dbSet d k v := match k with [] => (d, Some (Errorf "key cannot be empty"))
                    | _ => (<[k := v]> d, None) end;
     dbDelete d k := match k with [] => (d, Some (Errorf "key cannot be empty"))
                     | _ => (delete k d, None) end;
     batchWrite d ops := (fold_left applyOp ops d, None) |}.

#[export] Program Instance mapLaws : DBLaws := {| contents := fun d : gmap bytes bytes => d |}.
Next Obligation. by intros d [|b k]. Qed.
Next Obligation. by intros d [|b k]. Qed.
Next Obligation. intros d [|b k] v Hk; [done|]. by eexists. Qed.
Next Obligation. intros d [|b k] Hk; [done|]. by eexists. Qed.
Next Obligation. intros d ops _. by eexists. Qed.

Lemma SetBlockByHeight_reads_witness :
  exists p', PrefixStore.SetBlockByHeight ∅ 3 "a" (mkStored [Byte.x01] (Ok [Byte.x02])) = Ok (p', None) /\
    PrefixStore.GetBlockByHeight p' 3 "a" = (Some [Byte.x02], None).
Proof.
  destruct (PrefixStore.SetBlockByHeight_reads ∅ 3 "a" (mkStored [Byte.x01] (Ok [Byte.x02])) [Byte.x02] eq_refl)
    as (p' & E1 & E2 & _).
  exists p'. split; [exact E1|exact E2].
Defined.
End StoreDemo.
