(* ===== verification/Backend.v ===== *)
(** * The in-memory database: [libs/db/memdb.go], [memdb_batch.go],
    [memdb_iterator.go] and [util.go]

    A backend whose code is in the repository. It keeps its items in a B-tree of
    an outside library, which is the interface [BTree]. The backend implements
    [DB] and obeys [DBLaws], and its iterators visit the keys of a domain in
    order; [PrefixIterator] ([utils/store/store.go]) works on any backend's. *)

From S2P Require Import Prelude Store.
Local Open Scope Z_scope.

(** ** The order of byte slices ([bytes.Compare]) *)

Definition bytesCompare (a b : bytes) : comparison :=
  String.compare (String.string_of_list_byte a) (String.string_of_list_byte b).
Definition bytesLess (a b : bytes) : bool := match bytesCompare a b with Lt => true | _ => false end.

Lemma bytesLess_str a b :
  bytesLess a b = true <-> str_lt (String.string_of_list_byte a) (String.string_of_list_byte b).
Proof. rewrite str_lt_compare. unfold bytesLess. by destruct (bytesCompare a b) eqn:E; unfold bytesCompare in E; rewrite E. Qed.

Lemma to_str_inj a b : String.string_of_list_byte a = String.string_of_list_byte b -> a = b.
Proof. intros E. by rewrite <- (String.list_byte_of_string_of_list_byte a), E, String.list_byte_of_string_of_list_byte. Qed.

Lemma bytesLess_irrefl a : bytesLess a a = false.
Proof. apply not_true_iff_false. rewrite bytesLess_str. apply irreflexivity, _. Qed.
Lemma bytesLess_trans a b c : bytesLess a b = true -> bytesLess b c = true -> bytesLess a c = true.
Proof. rewrite !bytesLess_str. by apply transitivity. Qed.
Lemma bytesLess_total a b : bytesLess a b = false -> bytesLess b a = false -> a = b.
Proof.
  rewrite <- !not_true_iff_false, !bytesLess_str, !str_lt_nle. intros H1 H2.
  apply to_str_inj, (anti_symm str_le); by apply dec_stable.
Qed.
Lemma bytesLess_neq a b : a <> b <-> bytesLess a b = true \/ bytesLess b a = true.
Proof.
  split.
  - intros Hne. destruct (bytesLess a b) eqn:E1; [by left|]. destruct (bytesLess b a) eqn:E2; [by right|].
    by destruct Hne; apply bytesLess_total.
  - intros [E|E] ->; by rewrite bytesLess_irrefl in E.
Qed.
(** Not less and not after. *)
Lemma bytesLess_le_trans a b c : bytesLess b a = false -> bytesLess b c = true -> bytesLess a c = true.
Proof.
  intros H1 H2. destruct (decide (a = b)) as [->|Hne]; [done|]. apply bytesLess_neq in Hne as [H|H]; [|congruence].
  by eapply bytesLess_trans.
Qed.
Lemma bytesLess_nil a : bytesLess a [] = false.
Proof. by destruct a. Qed.

(** ** [util.go] *)

Fixpoint incr (l : list byte) : option (list byte) :=
  match l with
  | [] => None
  | b :: l => if bval b <? 255 then Some (byte_of (bval b + 1) :: l) else cons Byte.x00 <$> incr l
  end.
(** The loop goes from the last byte to the first: [incr] has them reversed. *)
Definition cpIncr (bz : bytes) : go (option bytes) :=
  if bool_decide (bz = []) then Panic else Ok (@rev byte <$> incr (rev bz)).

(** A nil start is the empty key. *)
Definition IsKeyInDomain (key : bytes) (start end_ : option bytes) : bool :=
  negb (bytesLess key (default [] start)) &&
  match end_ with None => true | Some e => bytesLess key e end.

(** The value of a big-endian slice. *)
Fixpoint beValue (l : list byte) : Z := match l with [] => 0 | b :: l => bval b * 256 ^ zlen l + beValue l end.
Fixpoint leBytes (l : list byte) : Z := match l with [] => 0 | b :: l => bval b + 256 * leBytes l end.

Lemma beValue_app l b : beValue (l ++ [b]) = 256 * beValue l + bval b.
Proof.
  induction l as [|a l IH]; cbn [app beValue]; [change (bval b * 1 + 0 = 256 * 0 + bval b); ring|]. rewrite IH, length_app. cbn [length].
  replace (Z.of_nat (length l + 1)) with (Z.succ (zlen l)) by lia. rewrite Z.pow_succ_r by lia. ring.
Qed.
Lemma beValue_rev l : beValue (rev l) = leBytes l.
Proof. induction l as [|b l IH]; cbn [rev leBytes]; [done|]. rewrite beValue_app, IH. lia. Qed.

Lemma incr_spec l :
  match incr l with
  | Some l' => length l' = length l /\ leBytes l' = leBytes l + 1
  | None => leBytes l + 1 = 256 ^ zlen l
  end.
Proof.
  induction l as [|b l IH]; cbn [incr]; [done|]. pose proof (bval_range b). destruct (bval b <? 255) eqn:Eb.
  - apply Z.ltb_lt in Eb. cbn. rewrite bval_byte_of, Z.mod_small by lia. split; [done|lia].
  - apply Z.ltb_ge in Eb. destruct (incr l) as [l'|]; cbn [fmap option_fmap option_map length leBytes].
    + destruct IH as [-> ->]. cbn. split; [done|]. change (bval Byte.x00) with 0. lia.
    + rewrite Nat2Z.inj_succ, Z.pow_succ_r by lia. lia.
Qed.

(** The successor of a slice as a number of its length; nil past the last. *)
Lemma cpIncr_spec bz : bz <> [] ->
  exists r, cpIncr bz = Ok r /\
    match r with
    | Some bz' => length bz' = length bz /\ beValue bz' = beValue bz + 1
    | None => beValue bz + 1 = 256 ^ zlen bz
    end.
Proof.
  intros Hne. unfold cpIncr. rewrite bool_decide_false by done. eexists. split; [done|].
  pose proof (incr_spec (rev bz)) as Hi. rewrite <- beValue_rev, rev_involutive, length_rev in Hi.
  destruct (incr (rev bz)) as [l'|]; cbn; [|done]. by rewrite length_rev, beValue_rev.
Qed.

(** ** The B-tree ([github.com/google/btree]) *)

Record item := mkItem { key : bytes; value : bytes }.
Definition Less (i other : item) : bool := bytesLess (key i) (key other).

(** A traversal calls its visitor on a sequence of items until it says false;
    the sequence is what the operations here give. *)
Class BTree := {
  tree : Type;
  btNew : tree;
  btGet : tree -> item -> option item;
  btHas : tree -> item -> bool;
  btReplaceOrInsert : tree -> item -> tree;
  btDelete : tree -> item -> tree;
  btAscend : tree -> list item;
  btDescend : tree -> list item;
  btAscendGreaterOrEqual : tree -> item -> list item;
  btAscendRange : tree -> item -> item -> list item;
  btDescendLessOrEqual : tree -> item -> list item
}.

Definition before (a b : item) : Prop := Less a b = true.
(** Two items of the tree differ in their order; the documented ranges. *)
Class BTreeLaws `{BTree} := {
  items : tree -> list item;
  items_sorted t : StronglySorted before (items t);
  btNew_items : items btNew = [];
  btGet_spec t x i : btGet t x = Some i <-> i ∈ items t /\ Less i x = false /\ Less x i = false;
  btHas_spec t x : btHas t x = bool_decide (is_Some (btGet t x));
  btReplaceOrInsert_spec t x i :
    i ∈ items (btReplaceOrInsert t x) <-> i = x \/ (i ∈ items t /\ (Less i x = true \/ Less x i = true));
  btDelete_spec t x i : i ∈ items (btDelete t x) <-> i ∈ items t /\ (Less i x = true \/ Less x i = true);
  btAscend_spec t : btAscend t = items t;
  btDescend_spec t : btDescend t = rev (items t);
  btAscendGreaterOrEqual_spec t p : btAscendGreaterOrEqual t p = List.filter (fun i => negb (Less i p)) (items t);
  btAscendRange_spec t a b : btAscendRange t a b = List.filter (fun i => negb (Less i a) && Less i b) (items t);
  btDescendLessOrEqual_spec t p : btDescendLessOrEqual t p = rev (List.filter (fun i => negb (Less p i)) (items t))
}.

(** ** [memdb.go] and [memdb_batch.go] *)

Definition errBatchClosed : goerr := Errorf "batch has been written or closed".
Definition errKeyEmpty : goerr := Errorf "key cannot be empty".
Definition errValueNil : goerr := Errorf "value cannot be nil".

Module MemDBBackend.
Section memdb.
Context `{BTree}.

(** A database is its tree. A key that is nil is empty; a value can be nil. *)
Definition NewMemDB : tree := btNew.
Definition newKey (k : bytes) : item := mkItem k [].

Definition Get (db : tree) (k : bytes) : option bytes * option goerr :=
  if bool_decide (k = []) then (None, Some errKeyEmpty) else (value <$> btGet db (newKey k), None).
Definition Has (db : tree) (k : bytes) : bool * option goerr :=
  if bool_decide (k = []) then (false, Some errKeyEmpty) else (btHas db (newKey k), None).
Definition set (db : tree) (k v : bytes) : tree := btReplaceOrInsert db (mkItem k v).
Definition Set_ (db : tree) (k : bytes) (v : option bytes) : tree * option goerr :=
  if bool_decide (k = []) then (db, Some errKeyEmpty)
  else match v with None => (db, Some errValueNil) | Some v => (set db k v, None) end.
Definition SetSync (db : tree) (k : bytes) (v : option bytes) := Set_ db k v.
Definition delete_ (db : tree) (k : bytes) : tree := btDelete db (newKey k).
Definition Delete (db : tree) (k : bytes) : tree * option goerr :=
  if bool_decide (k = []) then (db, Some errKeyEmpty) else (delete_ db k, None).
Definition DeleteSync (db : tree) (k : bytes) := Delete db k.

(** The operations of a batch are nil once it is closed. *)
Definition Batch : Type := option (list BatchOp).
Definition newMemDBBatch : Batch := Some [].
Definition BatchSet_ (b : Batch) (k : bytes) (v : option bytes) : Batch * option goerr :=
  if bool_decide (k = []) then (b, Some errKeyEmpty)
  else match v with
  | None => (b, Some errValueNil)
  | Some v =>
      match b with
      | None => (b, Some errBatchClosed)
      | Some ops => (Some (ops ++ [BatchSet k v]), None)
      end
  end.
Definition BatchDelete_ (b : Batch) (k : bytes) : Batch * option goerr :=
  if bool_decide (k = []) then (b, Some errKeyEmpty)
  else match b with
  | None => (b, Some errBatchClosed)
  | Some ops => (Some (ops ++ [BatchDelete k]), None)
  end.
Definition writeOp (db : tree) (op : BatchOp) : tree :=
  match op with BatchSet k v => set db k v | BatchDelete k => delete_ db k end.
Definition BatchClose (b : Batch) : Batch * option goerr := (None, None).
Definition BatchWrite (db : tree) (b : Batch) : tree * (Batch * option goerr) :=
  match b with
  | None => (db, (b, Some errBatchClosed))
  | Some ops => (fold_left writeOp ops db, BatchClose b)
  end.
Definition BatchWriteSync (db : tree) (b : Batch) := BatchWrite db b.

(** A batch that is filled, each call's error left aside, and written. *)
Definition fillBatch (b : Batch) (op : BatchOp) : Batch :=
  match op with BatchSet k v => fst (BatchSet_ b k (Some v)) | BatchDelete k => fst (BatchDelete_ b k) end.
Definition writeAll (db : tree) (ops : list BatchOp) : tree * option goerr :=
  let '(db, (_, err)) := BatchWrite db (fold_left fillBatch ops newMemDBBatch) in (db, err).

(** ** [memdb_iterator.go]

    The channel and the go routine that fills it are the items that are still to
    be received: no write happens while they are sent. *)
Record Iter := mkIter { ch : list item; cur : option item; start : option bytes; end_ : option bytes }.

Fixpoint visit (skipEqual abortLessThan : option bytes) (l : list item) : list item :=
  match l with
  | [] => []
  | i :: l =>
      if bool_decide (skipEqual = Some (key i)) then visit None abortLessThan l
      else if match abortLessThan with Some a => bytesLess (key i) a | None => false end then []
      else i :: visit skipEqual abortLessThan l
  end.
Definition sent (db : tree) (start end_ : option bytes) (reverse : bool) : list item :=
  match start, end_, reverse with
  | None, None, false => visit None None (btAscend db)
  | None, None, true => visit None None (btDescend db)
  | _, None, false => visit None None (btAscendGreaterOrEqual db (newKey (default [] start)))
  | _, Some e, false => visit None None (btAscendRange db (newKey (default [] start)) (newKey e))
  | _, None, true => visit None start (btDescend db)
  | _, Some e, true => visit (Some e) start (btDescendLessOrEqual db (newKey e))
  end.
(** The first item is received at once. *)
Definition newMemDBIterator (db : tree) (start end_ : option bytes) (reverse : bool) : Iter :=
  match sent db start end_ reverse with
  | [] => mkIter [] None start end_
  | i :: l => mkIter l (Some i) start end_
  end.

Definition emptyKey (k : option bytes) : bool := bool_decide (k = Some []).
Definition Iterator_ (db : tree) (start end_ : option bytes) : Iter + goerr :=
  if emptyKey start || emptyKey end_ then inr errKeyEmpty else inl (newMemDBIterator db start end_ false).
Definition ReverseIterator (db : tree) (start end_ : option bytes) : Iter + goerr :=
  if emptyKey start || emptyKey end_ then inr errKeyEmpty else inl (newMemDBIterator db start end_ true).

Definition Close (i : Iter) : Iter * option goerr := (mkIter [] None (start i) (end_ i), None).
Definition Domain (i : Iter) : option bytes * option bytes := (start i, end_ i).
Definition Valid (i : Iter) : bool := bool_decide (is_Some (cur i)).
Definition assertIsValid (i : Iter) : go unit := if Valid i then Ok tt else Panic.
Definition Next (i : Iter) : go Iter :=
  let! _ := assertIsValid i in
  Ok (match ch i with
      | x :: l => mkIter l (Some x) (start i) (end_ i)
      | [] => mkIter [] None (start i) (end_ i)
      end).
Definition Key (i : Iter) : go bytes := let! _ := assertIsValid i in let! x := deref (cur i) in Ok (key x).
Definition Value (i : Iter) : go bytes := let! _ := assertIsValid i in let! x := deref (cur i) in Ok (value x).
Definition Error_ (i : Iter) : option goerr := None.
End memdb.

#[export] Instance memDB `{BTree} : DB :=
  {| Database := tree; dbGet := Get; dbHas := Has; dbSet db k v := Set_ db k (Some v); dbDelete := Delete;
     batchWrite := writeAll |}.

(** ** A database is a finite map *)

Section contents.
Context `{BTreeLaws}.

Definition pairOf (i : item) : bytes * bytes := (key i, value i).
Definition contentsOf (t : tree) : gmap bytes bytes := list_to_map (map pairOf (items t)).

Lemma sorted_keys l : StronglySorted before l -> NoDup (map key l).
Proof.
  induction 1 as [|i l _ IH Hall]; cbn; constructor; [|done].
  intros (j & E & Hj)%list_elem_of_fmap. rewrite Forall_forall in Hall. specialize (Hall j Hj).
  unfold before, Less in Hall. by rewrite E, bytesLess_irrefl in Hall.
Qed.
Lemma contents_Some t k v : contentsOf t !! k = Some v <-> mkItem k v ∈ items t.
Proof.
  unfold contentsOf. rewrite <- elem_of_list_to_map.
  - rewrite list_elem_of_fmap. split.
    + by intros ([k' v'] & [= -> ->] & Hin).
    + intros Hin. by exists (mkItem k v).
  - change (NoDup (map fst (map pairOf (items t)))). rewrite map_map. apply sorted_keys, items_sorted.
Qed.

Lemma contents_get t k : value <$> btGet t (newKey k) = contentsOf t !! k.
Proof.
  apply option_eq. intros v. rewrite contents_Some. split.
  - intros ([k' v'] & (Hin & H1 & H2)%btGet_spec & ->)%fmap_Some. cbn.
    by rewrite <- (bytesLess_total k' k H1 H2).
  - intros Hin. apply fmap_Some. exists (mkItem k v). split; [|done]. apply btGet_spec.
    split; [done|]. unfold Less. cbn. by rewrite bytesLess_irrefl.
Qed.
Lemma contents_has t k : btHas t (newKey k) = bool_decide (is_Some (contentsOf t !! k)).
Proof. rewrite btHas_spec, <- contents_get. apply bool_decide_ext. by rewrite fmap_is_Some. Qed.
Lemma contents_set t k v : contentsOf (set t k v) = <[k := v]> (contentsOf t).
Proof.
  apply map_eq. intros k'. apply option_eq. intros v'.
  rewrite contents_Some, lookup_insert_Some, contents_Some. unfold set. rewrite btReplaceOrInsert_spec.
  unfold Less. cbn [key]. rewrite <- bytesLess_neq. naive_solver.
Qed.
Lemma contents_delete t k : contentsOf (delete_ t k) = delete k (contentsOf t).
Proof.
  apply map_eq. intros k'. apply option_eq. intros v'.
  rewrite contents_Some, lookup_delete_Some, contents_Some. unfold delete_. rewrite btDelete_spec.
  unfold Less. cbn [key newKey]. rewrite <- bytesLess_neq. naive_solver.
Qed.
Lemma contents_new : contentsOf NewMemDB = ∅.
Proof. unfold contentsOf, NewMemDB. by rewrite btNew_items. Qed.

Lemma contents_ops t ops : contentsOf (fold_left writeOp ops t) = fold_left applyOp ops (contentsOf t).
Proof.
  revert t. induction ops as [|[k v|k] ops IH]; intros t; cbn; [done|..]; rewrite IH; f_equal.
  - apply contents_set.
  - apply contents_delete.
Qed.

(** A batch takes the operations on keys that are not empty. *)
Lemma fillBatch_open ops l :
  fold_left fillBatch ops (Some l) = Some (l ++ List.filter (fun op => negb (bool_decide (opKey op = []))) ops).
Proof.
  revert l. induction ops as [|[k v|k] ops IH]; intros l; cbn [fold_left fillBatch List.filter opKey]; [by rewrite app_nil_r|..];
    unfold BatchSet_, BatchDelete_; destruct (bool_decide (k = [])); cbn [fst negb]; rewrite IH; [done| |done|];
    by rewrite <- app_assoc.
Qed.
Lemma writeAll_contents t ops : exists t', writeAll t ops = (t', None) /\
  contentsOf t' = fold_left applyOp (List.filter (fun op => negb (bool_decide (opKey op = []))) ops) (contentsOf t).
Proof. unfold writeAll, newMemDBBatch. rewrite fillBatch_open. eexists. split; [done|]. apply contents_ops. Qed.

Lemma filter_all {A} (f : A -> bool) l : Forall (fun x => f x = true) l -> List.filter f l = l.
Proof. induction 1 as [|x l E _ IH]; cbn; [done|]. by rewrite E, IH. Qed.

(** The backend keeps the contract of [DB]. *)
#[export] Program Instance memDB_laws : DBLaws (H := memDB) := {| contents := contentsOf |}.
Next Obligation. intros d k Hk. cbn. unfold Get. by rewrite bool_decide_false, contents_get. Qed.
Next Obligation. intros d k Hk. cbn. unfold Has. by rewrite bool_decide_false, contents_has. Qed.
Next Obligation.
  intros d k v Hk. cbn. unfold Set_. rewrite bool_decide_false by done. eexists. split; [done|]. apply contents_set.
Qed.
Next Obligation.
  intros d k Hk. cbn. unfold Delete. rewrite bool_decide_false by done. eexists. split; [done|]. apply contents_delete.
Qed.
Next Obligation.
  intros d ops Hk. destruct (writeAll_contents d ops) as (d' & E & Ec). exists d'. split; [done|].
  rewrite Ec, filter_all; [done|]. eapply Forall_impl; [done|]. intros op Ho. cbv beta.
  by rewrite bool_decide_false.
Qed.

(** ** Iteration *)

Definition descends (a b : item) : Prop := before b a.

Lemma visit_all l : visit None None l = l.
Proof. induction l as [|i l IH]; cbn; [done|]. by rewrite IH. Qed.

Definition unless (skipEqual abortLessThan : option bytes) (i : item) : bool :=
  negb (bool_decide (skipEqual = Some (key i))) &&
  negb match abortLessThan with Some a => bytesLess (key i) a | None => false end.

Lemma filter_none {A} (f : A -> bool) l : Forall (fun x => f x = false) l -> List.filter f l = [].
Proof. induction 1 as [|x l E _ IH]; cbn; [done|]. by rewrite E. Qed.

Lemma visit_descending l skip abort : StronglySorted descends l ->
  visit skip abort l = List.filter (unless skip abort) l.
Proof.
  intros Hs. revert skip. induction Hs as [|i l _ IH Hall]; intros skip; cbn [visit List.filter]; [done|].
  rewrite Forall_forall in Hall. unfold unless at 1. destruct (bool_decide (skip = Some (key i))) eqn:Es; cbn [negb andb].
  - apply bool_decide_eq_true in Es as ->. rewrite IH. apply List.filter_ext_in. intros j Hj%list_elem_of_In.
    unfold unless. rewrite !bool_decide_false; [done| |done]. intros [= E].
    specialize (Hall j Hj). unfold descends, before, Less in Hall. by rewrite E, bytesLess_irrefl in Hall.
  - destruct abort as [a|]; [|by rewrite IH]. destruct (bytesLess (key i) a) eqn:Ea; cbn [negb]; [|by rewrite IH].
    symmetry. apply filter_none, Forall_forall. intros j Hj. unfold unless.
    rewrite (bytesLess_trans (key j) (key i) a (Hall j Hj) Ea). apply andb_false_r.
Qed.

Lemma sorted_filter {A} (R : A -> A -> Prop) f l : StronglySorted R l -> StronglySorted R (List.filter f l).
Proof.
  induction 1 as [|x l _ IH Hall]; cbn; [constructor|]. destruct (f x); [|done]. constructor; [done|].
  apply Forall_forall. intros y [Hy _]%list_elem_of_In%List.filter_In. rewrite Forall_forall in Hall.
  by apply Hall, list_elem_of_In.
Qed.
Lemma sorted_snoc {A} (R : A -> A -> Prop) l x : StronglySorted R l -> Forall (fun y => R y x) l -> StronglySorted R (l ++ [x]).
Proof.
  induction 1 as [|y l _ IH Hall]; cbn; intros Hx.
  - by repeat constructor.
  - apply Forall_cons in Hx as [Hy Hx]. constructor; [by apply IH|]. apply Forall_app. split; [done|by constructor].
Qed.
Lemma sorted_rev l : StronglySorted before l -> StronglySorted descends (rev l).
Proof.
  induction 1 as [|x l _ IH Hall]; cbn; [constructor|]. apply sorted_snoc; [done|]. apply Forall_forall.
  intros y Hy%list_elem_of_In%in_rev%list_elem_of_In. rewrite Forall_forall in Hall. by apply Hall.
Qed.

Lemma filter_and {A} (f g : A -> bool) l : List.filter f (List.filter g l) = List.filter (fun x => g x && f x) l.
Proof. induction l as [|x l IH]; cbn; [done|]. destruct (g x); cbn; [|done]. by rewrite IH. Qed.

Lemma bytesLess_below k e : bytesLess k e = negb (bytesLess e k) && negb (bool_decide (Some e = Some k)).
Proof.
  case_bool_decide as E; [injection E as ->; by rewrite bytesLess_irrefl, andb_false_r|]. rewrite andb_true_r.
  assert (k <> e) as [H1|H1]%bytesLess_neq by congruence; rewrite H1.
  - destruct (bytesLess e k) eqn:H2; [|done]. pose proof (bytesLess_trans _ _ _ H1 H2). by rewrite bytesLess_irrefl in H3.
  - apply not_true_iff_false. intros H2. pose proof (bytesLess_trans _ _ _ H1 H2) as H3. by rewrite bytesLess_irrefl in H3.
Qed.

(** What is sent are the items of the domain. *)
Lemma sent_domain t start end_ reverse :
  sent t start end_ reverse =
  (if reverse then @rev item else id) (List.filter (fun i => IsKeyInDomain (key i) start end_) (items t)).
Proof.
  assert (forall (f g : item -> bool) l, (forall i, f i = g i) -> List.filter f l = List.filter g l) as Hext
    by (intros; by apply List.filter_ext).
  pose proof (sorted_rev _ (items_sorted t)) as Hs.
  destruct reverse; unfold sent, IsKeyInDomain, id.
  - destruct end_ as [e|]; [|destruct start as [s|]].
    + transitivity (visit (Some e) start (btDescendLessOrEqual t (newKey e))); [by destruct start|].
      rewrite btDescendLessOrEqual_spec, visit_descending, <- List.filter_rev, filter_and.
      * rewrite <- List.filter_rev. apply Hext. intros i. rewrite (bytesLess_below (key i) e). unfold unless, Less. cbn [key newKey].
        destruct start as [s|]; cbn [default]; rewrite ?bytesLess_nil;
          destruct (bytesLess e (key i)), (bool_decide (Some e = Some (key i))); cbn; rewrite ?andb_true_r, ?andb_false_r; done.
      * by apply sorted_rev, sorted_filter, items_sorted.
    + rewrite btDescend_spec, visit_descending by done. rewrite <- List.filter_rev. apply Hext. intros i.
      unfold unless. rewrite bool_decide_false by done. cbn. by rewrite andb_true_r.
    + rewrite visit_all, btDescend_spec. f_equal. symmetry. apply filter_all, Forall_forall. intros i _.
      by rewrite bytesLess_nil.
  - destruct end_ as [e|]; [|destruct start as [s|]].
    + transitivity (visit None None (btAscendRange t (newKey (default [] start)) (newKey e))); [by destruct start|].
      by rewrite visit_all, btAscendRange_spec.
    + rewrite visit_all, btAscendGreaterOrEqual_spec. apply Hext. intros i. by rewrite andb_true_r.
    + rewrite visit_all, btAscend_spec. symmetry. apply filter_all, Forall_forall. intros i _. by rewrite bytesLess_nil.
Qed.

(** [for ; itr.Valid(); itr.Next()] *)
Fixpoint drain (fuel : nat) (it : Iter) : go (list (bytes * bytes)) :=
  if Valid it then
    match fuel with
    | O => OutOfFuel
    | S fuel =>
        let! k := Key it in
        let! v := Value it in
        let! it := Next it in
        let! l := drain fuel it in Ok ((k, v) :: l)
    end
  else Ok [].

Lemma drain_items l fuel s e : (length l <= fuel)%nat ->
  drain fuel (match l with [] => mkIter [] None s e | i :: l => mkIter l (Some i) s e end) = Ok (map pairOf l).
Proof.
  revert fuel. induction l as [|i l IH]; intros fuel Hf; [by destruct fuel|].
  destruct fuel as [|fuel]; cbn in Hf; [lia|]. cbn [drain]. unfold Key, Value, Next, assertIsValid. cbn.
  specialize (IH fuel ltac:(lia)). cbn in IH. destruct l; cbn in IH |- *; by rewrite IH.
Qed.

(** The order of a traversal. *)
Definition comes (reverse : bool) (a b : bytes * bytes) : Prop :=
  if reverse then bytesLess b.1 a.1 = true else bytesLess a.1 b.1 = true.

Definition openIterator (t : tree) (start end_ : option bytes) (reverse : bool) : Iter + goerr :=
  if reverse then ReverseIterator t start end_ else Iterator_ t start end_.

Lemma sorted_map {A B} (R : A -> A -> Prop) (S : B -> B -> Prop) (f : A -> B) l :
  (forall a b, R a b -> S (f a) (f b)) -> StronglySorted R l -> StronglySorted S (map f l).
Proof.
  intros Hf. induction 1 as [|x l _ IH Hall]; cbn; constructor; [done|]. apply Forall_fmap.
  eapply Forall_impl; [done|]. intros y. apply Hf.
Qed.

Lemma iterator_visits t start end_ reverse : start <> Some [] -> end_ <> Some [] ->
  exists it l, openIterator t start end_ reverse = inl it /\
    (forall fuel, (length l <= fuel)%nat -> drain fuel it = Ok l) /\
    StronglySorted (comes reverse) l /\
    forall k v, (k, v) ∈ l <-> contentsOf t !! k = Some v /\ IsKeyInDomain k start end_ = true.
Proof.
  intros Hs He. exists (newMemDBIterator t start end_ reverse), (map pairOf (sent t start end_ reverse)). split_and!.
  - unfold openIterator, ReverseIterator, Iterator_, emptyKey. rewrite !bool_decide_false by done. by destruct reverse.
  - intros fuel Hf. rewrite length_map in Hf. by apply drain_items.
  - rewrite sent_domain. pose proof (sorted_filter before (fun i => IsKeyInDomain (key i) start end_) _ (items_sorted t)) as Hf.
    destruct reverse.
    + by eapply (sorted_map descends); [|apply sorted_rev].
    + by eapply (sorted_map before).
  - intros k v. rewrite contents_Some, sent_domain.
    assert ((k, v) ∈ map pairOf (List.filter (fun i => IsKeyInDomain (key i) start end_) (items t)) <->
      mkItem k v ∈ items t /\ IsKeyInDomain k start end_ = true) as Hin.
    { rewrite list_elem_of_fmap. setoid_rewrite list_elem_of_In. setoid_rewrite List.filter_In. split.
      - by intros ([k' v'] & [= -> ->] & Hk).
      - intros Hk. by exists (mkItem k v). }
    rewrite <- Hin. destruct reverse; [|done]. rewrite map_rev, !list_elem_of_In. symmetry. apply in_rev.
Qed.
End contents.
End MemDBBackend.

(** ** The iterators of a database

    [Iterator] of [libs/db/types.go]; an iterator or the error of making it.
    Asking whether it is valid may change it. *)
Class Iterators `{DB} := {
  DbIter : Type;
  dbIterator : Database -> option bytes -> option bytes -> DbIter + goerr;
  dbReverseIterator : Database -> option bytes -> option bytes -> DbIter + goerr;
  iterDomain : DbIter -> option bytes * option bytes;
  iterValid : DbIter -> DbIter * bool;
  iterNext : DbIter -> go DbIter;
  iterKey : DbIter -> go bytes;
  iterValue : DbIter -> go bytes;
  iterError : DbIter -> option goerr;
  iterClose : DbIter -> DbIter * option goerr
}.

Section contract.
Context `{Iterators}.

Definition openDb (d : Database) (start end_ : option bytes) (reverse : bool) : DbIter + goerr :=
  if reverse then dbReverseIterator d start end_ else dbIterator d start end_.
(** [for ; itr.Valid(); itr.Next()] *)
Fixpoint visited (fuel : nat) (it : DbIter) : go (list (bytes * bytes)) :=
  let '(it, valid) := iterValid it in
  if valid then
    match fuel with
    | O => OutOfFuel
    | S fuel =>
        let! k := iterKey it in
        let! v := iterValue it in
        let! it := iterNext it in
        let! l := visited fuel it in Ok ((k, v) :: l)
    end
  else Ok [].
End contract.

(** What the comments of [libs/db/types.go] promise: an iterator visits the keys
    of its domain in order, and ends. *)
Class IteratorsLaws `{HD : DBLaws} `{!Iterators} := {
  iterators_visit d start end_ reverse : start <> Some [] -> end_ <> Some [] ->
    exists it l, openDb d start end_ reverse = inl it /\
      (forall fuel, (length l <= fuel)%nat -> visited fuel it = Ok l) /\
      StronglySorted (MemDBBackend.comes reverse) l /\
      forall k v, (k, v) ∈ l <-> contents d !! k = Some v /\ IsKeyInDomain k start end_ = true
}.

#[export] Instance memIterators `{B : BTree} : @Iterators (@MemDBBackend.memDB B) :=
  @Build_Iterators (@MemDBBackend.memDB B) MemDBBackend.Iter MemDBBackend.Iterator_ MemDBBackend.ReverseIterator
    MemDBBackend.Domain (fun it => (it, MemDBBackend.Valid it)) MemDBBackend.Next MemDBBackend.Key MemDBBackend.Value
    MemDBBackend.Error_ MemDBBackend.Close.

Lemma visited_mem `{B : BTree} fuel it :
  @visited (@MemDBBackend.memDB B) memIterators fuel it = MemDBBackend.drain fuel it.
Proof. reflexivity. Qed.
#[export] Instance memIterators_laws `{BTreeLaws} :
  @IteratorsLaws MemDBBackend.memDB MemDBBackend.memDB_laws memIterators.
Proof.
  split. intros t start end_ reverse Hs He.
  destruct (MemDBBackend.iterator_visits t start end_ reverse Hs He) as (it & l & Eit & Hd & Hl).
  exists it, l. split; [exact Eit|]. split; [|exact Hl]. intros fuel Hf. rewrite visited_mem. by apply Hd.
Qed.

(** ** The iterators of the store: [utils/store/store.go] *)

Module PrefixIterator.
Import PrefixStore.
Section iterator.
Context `{Iterators}.

(** The key of a nil bound is the bare prefix. *)
Definition bound (k : option bytes) : option bytes := Some (toDataKey (default [] k)).
Definition Iterator_ (p : Database) (start end_ : option bytes) : DbIter + goerr :=
  dbIterator p (bound start) (bound end_).
Definition ReverseIterator (p : Database) (start end_ : option bytes) : DbIter + goerr :=
  dbReverseIterator p (bound start) (bound end_).

Definition Domain (it : DbIter) : bytes * bytes :=
  let '(start, end_) := iterDomain it in (fromDataKey (default [] start), fromDataKey (default [] end_)).
Definition Valid (it : DbIter) : DbIter * bool := iterValid it.
Definition Next (it : DbIter) : go DbIter := iterNext it.
Definition Key (it : DbIter) : go bytes := let! k := iterKey it in Ok (fromDataKey k).
Definition Value (it : DbIter) : go bytes := iterValue it.
Definition Error_ (it : DbIter) : option goerr := iterError it.
(** It asks for the error and leaves the iterator open. *)
Definition Close (it : DbIter) : DbIter * option goerr := (it, iterError it).

(** [for ; iter.Valid(); iter.Next()] *)
Fixpoint drain (fuel : nat) (it : DbIter) : go (list (bytes * bytes)) :=
  let '(it, valid) := Valid it in
  if valid then
    match fuel with
    | O => OutOfFuel
    | S fuel =>
        let! k := Key it in
        let! v := Value it in
        let! it := Next it in
        let! l := drain fuel it in Ok ((k, v) :: l)
    end
  else Ok [].
End iterator.

Lemma bytesCompare_cons a x b y :
  bytesCompare (a :: x) (b :: y) =
  match N.compare (Byte.to_N a) (Byte.to_N b) with Eq => bytesCompare x y | c => c end.
Proof.
  unfold bytesCompare. cbn. unfold Ascii.compare.
  assert (forall c, Ascii.N_of_ascii (Ascii.ascii_of_byte c) = Byte.to_N c) as -> by (intros []; done).
  assert (forall c, Ascii.N_of_ascii (Ascii.ascii_of_byte c) = Byte.to_N c) as -> by (intros []; done). done.
Qed.
Lemma bytesLess_cons a x y : bytesLess (a :: x) (a :: y) = bytesLess x y.
Proof. unfold bytesLess. by rewrite bytesCompare_cons, N.compare_refl. Qed.

(** A key between two data keys is a data key. *)
Lemma data_domain k s e : IsKeyInDomain k (Some (toDataKey s)) (Some (toDataKey e)) = true <->
  exists k', k = toDataKey k' /\ IsKeyInDomain k' (Some s) (Some e) = true.
Proof.
  unfold IsKeyInDomain, toDataKey. cbn [app dataKey default from_option id]. split.
  - intros [H1%negb_true_iff H2]%andb_true_iff. destruct k as [|c k]; [done|].
    unfold bytesLess in H1, H2. rewrite bytesCompare_cons in H1, H2.
    destruct (N.compare_spec (Byte.to_N c) (Byte.to_N Byte.x31)) as [E|E|E]; [|done|done].
    assert (c = Byte.x31) as -> by (apply bval_inj; unfold bval; by rewrite E).
    exists k. split; [done|]. unfold bytesLess. by rewrite H1, H2.
  - intros (k' & -> & Hk). by rewrite !bytesLess_cons.
Qed.

Section visits.
Context `{IteratorsLaws}.

Lemma drain_prefix fuel it :
  drain fuel it = let! l := visited fuel it in Ok (map (fun kv => (fromDataKey kv.1, kv.2)) l).
Proof.
  revert it. induction fuel as [|fuel IH]; intros it; cbn [drain visited]; unfold Valid, Key, Value, Next;
    destruct (iterValid it) as [it1 []]; try done.
  destruct (iterKey it1); cbn; [|done..]. destruct (iterValue it1); cbn; [|done..].
  destruct (iterNext it1) as [it'| |]; cbn; [|done..]. rewrite IH. by destruct (visited fuel it').
Qed.

Definition openPrefix (d : Database) (start end_ : option bytes) (reverse : bool) : DbIter + goerr :=
  if reverse then ReverseIterator d start end_ else Iterator_ d start end_.

(** On a database that keeps the contract of iterators, a prefix iterator
    visits exactly the data keys from its start up to its end, without their
    prefix, in ascending order, or descending for a reverse one, and then ends. A
    nil end is the empty key: the iterator then visits nothing, where an iterator
    of the database visits all keys to the last. *)
Theorem Iterator_visits d start end_ reverse :
  exists it l, openPrefix d start end_ reverse = inl it /\
    (forall fuel, (length l <= fuel)%nat -> drain fuel it = Ok l) /\
    StronglySorted (MemDBBackend.comes reverse) l /\
    forall k v, (k, v) ∈ l <-> Get d k = (Some v, None) /\ IsKeyInDomain k start (Some (default [] end_)) = true.
Proof.
  destruct (iterators_visit d (bound start) (bound end_) reverse ltac:(done) ltac:(done))
    as (it & l & Eit & Hd & Hs & Hin).
  assert (forall k v, (k, v) ∈ l -> exists k', k = toDataKey k') as Hdata.
  { intros k v [_ (k' & -> & _)%data_domain]%Hin. by exists k'. }
  exists it, (map (fun kv => (fromDataKey kv.1, kv.2)) l). split_and!.
  - exact Eit.
  - intros fuel Hf. rewrite length_map in Hf. by rewrite drain_prefix, Hd.
  - clear Hd Hin. induction Hs as [|[k v] l _ IH Hall]; cbn; constructor.
    { apply IH. intros k' v' Hk. apply (Hdata k' v'). by right. }
    destruct (Hdata k v ltac:(left)) as [k0 ->]. apply Forall_fmap, Forall_forall. intros [k' v'] Hk.
    destruct (Hdata k' v' ltac:(by right)) as [k1 ->]. rewrite Forall_forall in Hall. specialize (Hall _ Hk).
    destruct reverse; cbn in *; by rewrite bytesLess_cons in Hall.
  - intros k v. unfold Get. rewrite dbGet_spec by done.
    transitivity ((toDataKey k, v) ∈ l).
    + rewrite list_elem_of_fmap. split.
      * intros ([k0 v0] & [= -> ->] & Hk). by destruct (Hdata _ _ Hk) as [k1 ->].
      * intros Hk. by exists (toDataKey k, v).
    + rewrite Hin. unfold bound. rewrite data_domain. split.
      * intros [E (k' & <-%toDataKey_inj & Hk)]. split; [by rewrite E|]. by destruct start.
      * intros [[= E] Hk]. split; [done|]. exists k. split; [done|]. by destruct start.
Qed.
End visits.
End PrefixIterator.

(** ** The database as an abstract map *)

Module MemDBSpec.
Import MemDBBackend.

(** A call on a batch, and on a database. *)
Inductive call := CallSet (k : bytes) (v : option bytes) | CallDelete (k : bytes).
Inductive op :=
  OpGet (k : bytes) | OpHas (k : bytes) | OpSet (k : bytes) (v : option bytes) | OpDelete (k : bytes)
  | OpBatch (calls : list call).
(** What a caller sees: a value, a truth value, and the errors in order. *)
Record result := mkResult { found : option bytes; present : bool; errors : list (option goerr) }.
Definition failed (err : option goerr) : result := mkResult None false [err].

Definition callErr (k : bytes) (v : option bytes) : option goerr :=
  if bool_decide (k = []) then Some errKeyEmpty else if bool_decide (v = None) then Some errValueNil else None.
Definition errOfCall (c : call) : option goerr :=
  match c with CallSet k v => callErr k v | CallDelete k => callErr k (Some []) end.
Definition accepted (c : call) : list BatchOp :=
  match errOfCall c, c with
  | None, CallSet k (Some v) => [BatchSet k v]
  | None, CallDelete k => [BatchDelete k]
  | _, _ => []
  end.

(** The specification on finite maps. *)
Definition abstract1 (m : gmap bytes bytes) (o : op) : gmap bytes bytes * result :=
  match o with
  | OpGet k => (m, match callErr k (Some []) with Some e => failed (Some e) | None => mkResult (m !! k) false [None] end)
  | OpHas k => (m, match callErr k (Some []) with
                   | Some e => failed (Some e)
                   | None => mkResult None (bool_decide (is_Some (m !! k))) [None]
                   end)
  | OpSet k v => (match callErr k v, v with None, Some v => <[k := v]> m | _, _ => m end, failed (callErr k v))
  | OpDelete k => (match callErr k (Some []) with None => delete k m | Some _ => m end, failed (callErr k (Some [])))
  | OpBatch calls => (fold_left applyOp (concat (map accepted calls)) m, mkResult None false (map errOfCall calls ++ [None]))
  end.
Fixpoint abstract (m : gmap bytes bytes) (ops : list op) : gmap bytes bytes * list result :=
  match ops with
  | [] => (m, [])
  | o :: ops => let '(m, r) := abstract1 m o in let '(m, rs) := abstract m ops in (m, r :: rs)
  end.

Section spec.
Context `{BTree}.

Fixpoint callAll (b : Batch) (calls : list call) : Batch * list (option goerr) :=
  match calls with
  | [] => (b, [])
  | c :: calls =>
      let '(b, err) := match c with CallSet k v => BatchSet_ b k v | CallDelete k => BatchDelete_ b k end in
      let '(b, errs) := callAll b calls in (b, err :: errs)
  end.
Definition exec1 (t : tree) (o : op) : tree * result :=
  match o with
  | OpGet k => let '(v, err) := Get t k in (t, mkResult v false [err])
  | OpHas k => let '(b, err) := Has t k in (t, mkResult None b [err])
  | OpSet k v => let '(t, err) := Set_ t k v in (t, failed err)
  | OpDelete k => let '(t, err) := Delete t k in (t, failed err)
  | OpBatch calls =>
      let '(b, errs) := callAll newMemDBBatch calls in
      let '(t, (_, err)) := BatchWrite t b in (t, mkResult None false (errs ++ [err]))
  end.
Fixpoint exec (t : tree) (ops : list op) : tree * list result :=
  match ops with
  | [] => (t, [])
  | o :: ops => let '(t, r) := exec1 t o in let '(t, rs) := exec t ops in (t, r :: rs)
  end.

Context `{!BTreeLaws}.

Lemma call_open c l :
  match c with CallSet k v => BatchSet_ (Some l) k v | CallDelete k => BatchDelete_ (Some l) k end =
  (Some (l ++ accepted c), errOfCall c).
Proof.
  unfold accepted, errOfCall, callErr. destruct c as [k [v|]|k]; unfold BatchSet_, BatchDelete_;
    destruct (bool_decide (k = [])); cbn; by rewrite ?app_nil_r.
Qed.
Lemma callAll_open calls l : callAll (Some l) calls = (Some (l ++ concat (map accepted calls)), map errOfCall calls).
Proof.
  revert l. induction calls as [|c calls IH]; intros l; cbn [callAll map concat]; [by rewrite app_nil_r|].
  by rewrite call_open, IH, <- app_assoc.
Qed.

Lemma exec1_refines t o : let '(t', r) := exec1 t o in abstract1 (contentsOf t) o = (contentsOf t', r).
Proof.
  destruct o as [k|k|k v|k|calls]; cbn [exec1 abstract1]; unfold Get, Has, Set_, Delete, callErr.
  - destruct (bool_decide (k = [])); cbn; [done|]. by rewrite contents_get.
  - destruct (bool_decide (k = [])); cbn; [done|]. by rewrite contents_has.
  - destruct (bool_decide (k = [])); cbn; [by destruct v|]. destruct v as [v|]; cbn; [by rewrite contents_set|done].
  - destruct (bool_decide (k = [])); cbn; [done|]. by rewrite contents_delete.
  - unfold newMemDBBatch. rewrite callAll_open. cbn. by rewrite contents_ops.
Qed.

(** C33: the in-memory database is a finite map: whatever sequence of reads,
    writes, deletions and batches it is given from its creation on, every value,
    every truth value and every error is the one of a finite map that refuses
    empty keys and nil values, and a batch takes effect as its accepted calls in
    their order. *)
Theorem exec_refines_map ops :
  abstract ∅ ops = (contentsOf (fst (exec NewMemDB ops)), snd (exec NewMemDB ops)).
Proof.
  rewrite <- contents_new. generalize NewMemDB. induction ops as [|o ops IH]; intros t; cbn [exec abstract]; [done|].
  pose proof (exec1_refines t o) as E. destruct (exec1 t o) as [t1 r]. rewrite E. rewrite IH.
  by destruct (exec t1 ops).
Qed.
End spec.
End MemDBSpec.

(** ** A B-tree that is a sorted list *)

Module BackendDemo.
Definition upTo (a b : bytes * bytes) : Prop := bytesLess b.1 a.1 = false.
#[export] Instance upTo_dec a b : Decision (upTo a b).
Proof. unfold upTo. apply _. Defined.
#[export] Instance upTo_trans : Transitive upTo.
Proof.
  intros a b c. unfold upTo. intros H1 H2. apply not_true_iff_false. intros H3.
  pose proof (bytesLess_le_trans b.1 c.1 a.1) as H4. rewrite H4 in H1; [done| |done].
  destruct (bytesLess c.1 b.1) eqn:E; done.
Qed.
#[export] Instance upTo_total : Total upTo.
Proof.
  intros a b. unfold upTo. destruct (bytesLess b.1 a.1) eqn:E; [|by left]. right.
  apply not_true_iff_false. intros E2. pose proof (bytesLess_trans _ _ _ E E2) as E3. by rewrite bytesLess_irrefl in E3.
Qed.

Definition toItem (x : bytes * bytes) : item := mkItem x.1 x.2.
Definition listItems (t : gmap bytes bytes) : list item := map toItem (merge_sort upTo (map_to_list t)).
#[export] Instance listTree : BTree :=
  {| tree := gmap bytes bytes; btNew := ∅;
     btGet t x := mkItem (key x) <$> t !! key x;
     btHas t x := bool_decide (is_Some (t !! key x));
     btReplaceOrInsert t x := <[key x := value x]> t;
     btDelete t x := delete (key x) t;
     btAscend := listItems;
     btDescend t := rev (listItems t);
     btAscendGreaterOrEqual t p := List.filter (fun i => negb (Less i p)) (listItems t);
     btAscendRange t a b := List.filter (fun i => negb (Less i a) && Less i b) (listItems t);
     btDescendLessOrEqual t p := rev (List.filter (fun i => negb (Less p i)) (listItems t)) |}.

Lemma listItems_In t i : i ∈ listItems t <-> t !! key i = Some (value i).
Proof.
  unfold listItems. rewrite list_elem_of_fmap. setoid_rewrite merge_sort_Permutation. split.
  - by intros ([k v] & -> & Hk%elem_of_map_to_list).
  - intros Hi. exists (key i, value i). split; [by destruct i|]. by apply elem_of_map_to_list.
Qed.
Lemma listItems_sorted t : StronglySorted before (listItems t).
Proof.
  unfold listItems. pose proof (StronglySorted_merge_sort upTo (map_to_list t)) as Hs.
  assert (NoDup (merge_sort upTo (map_to_list t)).*1) as Hnd by (rewrite merge_sort_Permutation; apply NoDup_fst_map_to_list).
  induction Hs as [|x l _ IH Hall]; cbn; constructor.
  - apply IH. by apply NoDup_cons in Hnd as [_ ?].
  - apply NoDup_cons in Hnd as [Hn _]. apply Forall_fmap, Forall_forall. intros y Hy. rewrite Forall_forall in Hall.
    specialize (Hall y Hy). assert (x.1 <> y.1) as [E|E]%bytesLess_neq; [|done|].
    + intros E. apply Hn. rewrite E. apply list_elem_of_fmap. by exists y.
    + unfold upTo in Hall. congruence.
Qed.

#[export] Program Instance listTree_laws : BTreeLaws := {| items := listItems |}.
Next Obligation. apply listItems_sorted. Qed.
Next Obligation. reflexivity. Qed.
Next Obligation.
  intros t x i. cbn. rewrite listItems_In, fmap_Some. unfold Less. split.
  - intros (v & E & ->). cbn. by rewrite bytesLess_irrefl.
  - intros (E & H1 & H2). rewrite <- (bytesLess_total _ _ H1 H2). exists (value i). split; [done|by destruct i].
Qed.
Next Obligation. intros t x. cbn. apply bool_decide_ext. by rewrite fmap_is_Some. Qed.
Next Obligation.
  intros t x i. cbn. rewrite !listItems_In. cbn. rewrite lookup_insert_Some. unfold Less. rewrite <- bytesLess_neq.
  destruct i, x; cbn. naive_solver.
Qed.
Next Obligation.
  intros t x i. cbn. rewrite !listItems_In. cbn. rewrite lookup_delete_Some. unfold Less. rewrite <- bytesLess_neq. naive_solver.
Qed.
Next Obligation. reflexivity. Qed.
Next Obligation. reflexivity. Qed.
Next Obligation. reflexivity. Qed.
Next Obligation. reflexivity. Qed.
Next Obligation. reflexivity. Qed.

Import MemDBSpec.
(** The second write to a key wins, a nil value and an empty key are refused, and
    a batch keeps its order. *)
Definition ops : list op :=
  [OpSet (of_str "a") (Some (of_str "1")); OpSet (of_str "a") (Some (of_str "2")); OpGet (of_str "a");
   OpSet (of_str "b") None; OpGet []; OpHas (of_str "b");
   OpBatch [CallSet (of_str "b") (Some (of_str "3")); CallDelete []; CallDelete (of_str "a"); CallSet (of_str "c") (Some [])];
   OpGet (of_str "a"); OpHas (of_str "c"); OpDelete (of_str "b")].
Lemma exec_refines_map_witness :
  snd (exec MemDBBackend.NewMemDB ops) =
  [failed None; failed None; mkResult (Some (of_str "2")) false [None];
   failed (Some errValueNil); failed (Some errKeyEmpty); mkResult None false [None];
   mkResult None false [None; Some errKeyEmpty; None; None; None];
   failed None; mkResult None true [None]; failed None].
Proof.
  refine (eq_trans (eq_sym (f_equal snd (exec_refines_map ops))) _). vm_compute. reflexivity.
Defined.

(** Two data keys of the domain, one past its end, and a state. *)
Definition db : tree :=
  fst (@PrefixStore.Set_ MemDBBackend.memDB (fst (exec MemDBBackend.NewMemDB
    [OpSet (of_str "1b") (Some (of_str "x")); OpSet (of_str "1ab") (Some (of_str "y")); OpSet (of_str "1d") (Some (of_str "z"));
     OpSet (of_str "0b") (Some (of_str "state"))])) (of_str "c") []).

Abbreviation memOpen := (@PrefixIterator.openPrefix MemDBBackend.memDB memIterators).
Abbreviation memDrain := (@PrefixIterator.drain MemDBBackend.memDB memIterators).
Lemma Iterator_visits_witness :
  exists it l, memOpen db (Some (of_str "a")) (Some (of_str "d")) true = inl it /\
    memDrain (length l) it = Ok l /\
    (of_str "b", of_str "x") ∈ l /\ (of_str "d", of_str "z") ∉ l.
Proof.
  destruct (@PrefixIterator.Iterator_visits _ _ _ memIterators_laws db (Some (of_str "a")) (Some (of_str "d")) true) as (it & l & E & D & _ & I).
  exists it, l. split; [exact E|]. split; [apply D; reflexivity|]. split.
  - apply I. split; vm_compute; reflexivity.
  - rewrite I. intros [_ Hk]. vm_compute in Hk. discriminate Hk.
Defined.

(** The keys in descending order; and nothing up to a nil end. *)
Example descending :
  (let! l := memDrain 9 (match memOpen db (Some (of_str "a")) (Some (of_str "d")) true with
     inl it => it | inr _ => MemDBBackend.mkIter [] None None None end) in Ok (map fst l)) =
  Ok [of_str "c"; of_str "b"; of_str "ab"].
Proof. vm_compute. reflexivity. Qed.
Example nil_end :
  (let! l := memDrain 9 (match memOpen db None None false with
     inl it => it | inr _ => MemDBBackend.mkIter [] None None None end) in Ok (map fst l)) = Ok [].
Proof. vm_compute. reflexivity. Qed.

(** A closed batch refuses every call. *)
Example closed_batch :
  let b := fst (snd (MemDBBackend.BatchWrite db (Some [BatchSet (of_str "k") []]))) in
  MemDBBackend.BatchDelete_ b (of_str "k") = (None, Some errBatchClosed) /\
  MemDBBackend.BatchWrite db b = (db, (None, Some errBatchClosed)).
Proof. split; reflexivity. Qed.
End BackendDemo.
