(* ===== verification/Engines.v ===== *)
(** * The databases on disk: [libs/db/tm-rocksdb.go], [rocksdb_batch.go],
    [rocksdb_iterator.go], [goleveldb.go], [goleveldb_batch.go],
    [goleveldb_iterator.go] and [db.go]

    Both backends wrap a library, which is an interface here, with the laws that
    it documents. Each implements [DB] and keeps [DBLaws], and its iterators keep
    [IteratorsLaws]; the store of a node is one of RocksDB ([NewPrefixStore]). *)

From S2P Require Import Prelude Store Backend.
Local Open Scope Z_scope.

(** ** The cursor of a library

    [gorocksdb.Iterator] and [iterator.Iterator] of goleveldb, which names the
    same operations [First], [Last], [Seek], [Next] and [Prev]. A key or value that
    does not exist is nil. *)
Class Cursor := {
  cursor : Type;
  SeekToFirst : cursor -> cursor;
  SeekToLast : cursor -> cursor;
  Seek : cursor -> bytes -> cursor;
  cNext : cursor -> cursor;
  cPrev : cursor -> cursor;
  cValid : cursor -> bool;
  cKey : cursor -> option bytes;
  cValue : cursor -> option bytes;
  cErr : cursor -> option goerr;
  cClose : cursor -> cursor
}.

(** A cursor stands at a place in the items it was made over, or next to them. *)
Definition stands (l : list item) (p : Z) : bool := (0 <=? p) && (p <? zlen l).
Class CursorLaws `{Cursor} := {
  snapshot : cursor -> list item;
  place : cursor -> Z;
  snapshot_sorted c : StronglySorted before (snapshot c);
  cursor_first c : snapshot (SeekToFirst c) = snapshot c /\ place (SeekToFirst c) = 0;
  cursor_last c : snapshot (SeekToLast c) = snapshot c /\ place (SeekToLast c) = zlen (snapshot c) - 1;
  cursor_seek c k : snapshot (Seek c k) = snapshot c /\
    place (Seek c k) = zlen (List.filter (fun i => bytesLess (key i) k) (snapshot c));
  cursor_next c : cValid c = true -> snapshot (cNext c) = snapshot c /\ place (cNext c) = place c + 1;
  cursor_prev c : cValid c = true -> snapshot (cPrev c) = snapshot c /\ place (cPrev c) = place c - 1;
  cursor_valid c : cValid c = stands (snapshot c) (place c);
  cursor_item c i : zlook (snapshot c) (place c) = Some i -> cKey c = Some (key i) /\ cValue c = Some (value i);
  cursor_err c : cErr c = None
}.

(** The fields of [rocksDBIterator] and of [goLevelDBIterator]. *)
Record Iter `{Cursor} := mkIter {
  source : cursor; start : option bytes; end_ : option bytes; isReverse : bool; isInvalid : bool }.
Definition setSource `{Cursor} (itr : Iter) (c : cursor) : Iter :=
  mkIter _ c (start itr) (end_ itr) (isReverse itr) (isInvalid itr).
Definition setInvalid `{Cursor} (itr : Iter) : Iter :=
  mkIter _ (source itr) (start itr) (end_ itr) (isReverse itr) true.

(** ** [rocksdb_iterator.go] *)

Module RocksDBIterator.
Section iterator.
Context `{Cursor}.

Definition newRocksDBIterator (source : cursor) (start end_ : option bytes) (isReverse : bool) : Iter :=
  let source :=
    if isReverse then
      match end_ with
      | None => SeekToLast source
      | Some e =>
          let source := Seek source e in
          if cValid source then
            let eoakey := default [] (cKey source) in
            if negb (bytesLess eoakey e) then cPrev source else source
          else SeekToLast source
      end
    else
      match start with
      | None => SeekToFirst source
      | Some s => Seek source s
      end in
  mkIter _ source start end_ isReverse false.

Definition Domain (itr : Iter) : option bytes * option bytes := (start itr, end_ itr).
(** Once invalid, forever invalid. *)
Definition Valid (itr : Iter) : Iter * bool :=
  if isInvalid itr then (itr, false)
  else
    match cErr (source itr) with
    | Some _ => (setInvalid itr, false)
    | None =>
        if negb (cValid (source itr)) then (setInvalid itr, false)
        else
          let key := default [] (cKey (source itr)) in
          if isReverse itr then
            match start itr with
            | Some s => if bytesLess key s then (setInvalid itr, false) else (itr, true)
            | None => (itr, true)
            end
          else
            match end_ itr with
            | Some e => if negb (bytesLess key e) then (setInvalid itr, false) else (itr, true)
            | None => (itr, true)
            end
    end.
Definition assertIsValid (itr : Iter) : go unit := if snd (Valid itr) then Ok tt else Panic.
Definition Key (itr : Iter) : go bytes := let! _ := assertIsValid itr in Ok (default [] (cKey (source itr))).
Definition Value (itr : Iter) : go bytes := let! _ := assertIsValid itr in Ok (default [] (cValue (source itr))).
Definition Next (itr : Iter) : go Iter :=
  let! _ := assertIsValid itr in
  Ok (setSource itr (if isReverse itr then cPrev (source itr) else cNext (source itr))).
Definition Error_ (itr : Iter) : option goerr := cErr (source itr).
Definition Close (itr : Iter) : Iter * option goerr := (setSource itr (cClose (source itr)), None).
End iterator.
End RocksDBIterator.

(** ** [goleveldb_iterator.go] *)

Module GoLevelDBIterator.
Section iterator.
Context `{Cursor}.

(** [Seek] says whether the cursor stands on a key. *)
Definition newGoLevelDBIterator (source : cursor) (start end_ : option bytes) (isReverse : bool) : Iter :=
  let source :=
    if isReverse then
      match end_ with
      | None => SeekToLast source
      | Some e =>
          let source := Seek source e in
          let valid := cValid source in
          if valid then
            let eoakey := default [] (cKey source) in
            if negb (bytesLess eoakey e) then cPrev source else source
          else SeekToLast source
      end
    else
      match start with
      | None => SeekToFirst source
      | Some s => Seek source s
      end in
  mkIter _ source start end_ isReverse false.

Definition Domain (itr : Iter) : option bytes * option bytes := (start itr, end_ itr).
Definition Error_ (itr : Iter) : option goerr := cErr (source itr).
Definition Valid (itr : Iter) : Iter * bool :=
  if isInvalid itr then (itr, false)
  else
    match Error_ itr with
    | Some _ => (setInvalid itr, false)
    | None =>
        if negb (cValid (source itr)) then (setInvalid itr, false)
        else
          let key := default [] (cKey (source itr)) in
          if isReverse itr then
            match start itr with
            | Some s => if bytesLess key s then (setInvalid itr, false) else (itr, true)
            | None => (itr, true)
            end
          else
            match end_ itr with
            | Some e => if negb (bytesLess key e) then (setInvalid itr, false) else (itr, true)
            | None => (itr, true)
            end
    end.
Definition assertIsValid (itr : Iter) : go unit := if snd (Valid itr) then Ok tt else Panic.
Definition Key (itr : Iter) : go bytes := let! _ := assertIsValid itr in Ok (default [] (cKey (source itr))).
Definition Value (itr : Iter) : go bytes := let! _ := assertIsValid itr in Ok (default [] (cValue (source itr))).
Definition Next (itr : Iter) : go Iter :=
  let! _ := assertIsValid itr in
  Ok (setSource itr (if isReverse itr then cPrev (source itr) else cNext (source itr))).
Definition Close (itr : Iter) : Iter * option goerr := (setSource itr (cClose (source itr)), None).
End iterator.
End GoLevelDBIterator.

(** ** Walking over a domain *)

(** The items up to the first that [f] refuses. *)
Fixpoint upto (f : item -> bool) (l : list item) : list item :=
  match l with [] => [] | i :: l => if f i then i :: upto f l else [] end.

Lemma upto_filter (R : item -> item -> Prop) f l : StronglySorted R l ->
  (forall i j, R i j -> f i = false -> f j = false) -> upto f l = List.filter f l.
Proof.
  intros Hs Hf. induction Hs as [|i l _ IH Hall]; cbn; [done|]. destruct (f i) eqn:E; [by rewrite IH|].
  symmetry. apply MemDBBackend.filter_none. eapply Forall_impl; [exact Hall|]. intros j Hj. by eapply Hf.
Qed.

(** A sorted list is what is below a bound and what is not. *)
Lemma sorted_split l k : StronglySorted before l ->
  let n := length (List.filter (fun i => bytesLess (key i) k) l) in
  take n l = List.filter (fun i => bytesLess (key i) k) l /\
  drop n l = List.filter (fun i => negb (bytesLess (key i) k)) l.
Proof.
  induction 1 as [|i l _ IH Hall]; cbn; [done|]. destruct (bytesLess (key i) k) eqn:E; cbn [length negb take drop].
  - destruct IH as [-> ->]. done.
  - assert (forall (f : item -> bool), (forall j, j ∈ l -> f j = false) -> List.filter f l = []) as Hnone
      by (intros f Hf; by apply MemDBBackend.filter_none, Forall_forall).
    assert (forall j, j ∈ l -> bytesLess (key j) k = false) as Hl.
    { intros j Hj. rewrite Forall_forall in Hall. apply not_true_iff_false. intros Hk.
      specialize (Hall j Hj). unfold before, Less in Hall. by rewrite (bytesLess_trans _ _ _ Hall Hk) in E. }
    rewrite (Hnone _ Hl). cbn. split; [done|]. f_equal. symmetry. apply MemDBBackend.filter_all, Forall_forall.
    intros j Hj. by rewrite (Hl j Hj).
Qed.

Section walk.
Context `{CursorLaws}.

(** What is still ahead of a cursor, forwards or backwards. *)
Definition rest (backwards : bool) (c : cursor) : list item :=
  if backwards then rev (take (Z.to_nat (place c + 1)) (snapshot c)) else drop (Z.to_nat (place c)) (snapshot c).
Definition good (backwards : bool) (c : cursor) : Prop :=
  if backwards then -1 <= place c < zlen (snapshot c) else 0 <= place c.
Definition move (backwards : bool) (c : cursor) : cursor := if backwards then cPrev c else cNext c.

Lemma rest_ahead backwards c : good backwards c ->
  match rest backwards c with
  | [] => cValid c = false
  | i :: l => cValid c = true /\ cKey c = Some (key i) /\ cValue c = Some (value i) /\
      rest backwards (move backwards c) = l /\ good backwards (move backwards c)
  end.
Proof.
  intros Hg. pose proof (cursor_valid c) as Hv. unfold stands in Hv.
  assert (forall i, snapshot c !! Z.to_nat (place c) = Some i -> 0 <= place c ->
    cValid c = true /\ cKey c = Some (key i) /\ cValue c = Some (value i)) as Hi.
  { intros i Hl Hp. pose proof (cursor_item c i) as Hit. rewrite zlook_Some in Hit. destruct Hit as [-> ->]; [done|].
    apply lookup_lt_Some in Hl. split; [|done]. rewrite Hv. apply andb_true_iff. lia. }
  destruct backwards; cbn [good rest move] in *.
  - destruct (Z.eq_dec (place c) (-1)) as [E|Hne]; [rewrite E in *; exact Hv|].
    replace (Z.to_nat (place c + 1)) with (S (Z.to_nat (place c))) by lia.
    destruct (lookup_lt_is_Some_2 (snapshot c) (Z.to_nat (place c))) as [i Hl]; [lia|].
    rewrite (take_S_r _ _ _ Hl), rev_app_distr. cbn [rev app]. destruct (Hi i Hl) as (V & K & W); [lia|].
    split; [done|]. split; [done|]. split; [done|]. destruct (cursor_prev c V) as [Es Ep]. rewrite Es, Ep.
    split; [|lia]. do 2 f_equal. lia.
  - destruct (drop (Z.to_nat (place c)) (snapshot c)) as [|i l] eqn:Ed.
    + apply (f_equal length) in Ed. rewrite length_drop in Ed. cbn in Ed. rewrite Hv. apply andb_false_iff. right. lia.
    + assert (snapshot c !! Z.to_nat (place c) = Some i) as Hl.
      { rewrite <- (Nat.add_0_r (Z.to_nat (place c))), <- lookup_drop, Ed. done. }
      destruct (Hi i Hl Hg) as (V & K & W). split; [done|]. split; [done|]. split; [done|].
      destruct (cursor_next c V) as [Es Ep]. rewrite Es, Ep. split; [|lia].
      replace (Z.to_nat (place c + 1)) with (Z.to_nat (place c) + 1)%nat by lia. by rewrite <- drop_drop, Ed.
Qed.

(** [for ; itr.Valid(); itr.Next()] *)
Fixpoint walk (fuel : nat) (itr : Iter) : go (list (bytes * bytes)) :=
  let '(itr, valid) := RocksDBIterator.Valid itr in
  if valid then
    match fuel with
    | O => OutOfFuel
    | S fuel =>
        let! k := RocksDBIterator.Key itr in
        let! v := RocksDBIterator.Value itr in
        let! itr := RocksDBIterator.Next itr in
        let! l := walk fuel itr in Ok ((k, v) :: l)
    end
  else Ok [].

Definition within (backwards : bool) (s e : option bytes) (i : item) : bool :=
  if backwards then match s with Some s => negb (bytesLess (key i) s) | None => true end
  else match e with Some e => bytesLess (key i) e | None => true end.

Lemma Valid_within c s e backwards i : cValid c = true -> cKey c = Some (key i) ->
  RocksDBIterator.Valid (mkIter _ c s e backwards false) =
  if within backwards s e i then (mkIter _ c s e backwards false, true)
  else (mkIter _ c s e backwards true, false).
Proof.
  intros Hv Hk. unfold RocksDBIterator.Valid, within. cbn [isInvalid source isReverse start end_].
  rewrite cursor_err, Hv, Hk. cbn [negb default from_option id]. destruct backwards; [destruct s as [s|]|destruct e as [e|]]; try done.
  - by destruct (bytesLess (key i) s).
  - by destruct (bytesLess (key i) e).
Qed.

Lemma walk_rest fuel c s e backwards : good backwards c ->
  (length (upto (within backwards s e) (rest backwards c)) <= fuel)%nat ->
  walk fuel (mkIter _ c s e backwards false) = Ok (map MemDBBackend.pairOf (upto (within backwards s e) (rest backwards c))).
Proof.
  revert c. induction fuel as [|fuel IH]; intros c Hg Hf; pose proof (rest_ahead backwards c Hg) as Ha;
    (destruct (rest backwards c) as [|i l] eqn:Er;
     [cbn [walk]; unfold RocksDBIterator.Valid; cbn [isInvalid source]; by rewrite cursor_err, Ha|]);
    destruct Ha as (V & K & W & Em & Gm); cbn [walk upto] in *; rewrite (Valid_within c s e backwards i V K);
    destruct (within backwards s e i) eqn:Ew; try done; cbn [length] in Hf; [lia|].
  unfold RocksDBIterator.Key, RocksDBIterator.Value, RocksDBIterator.Next, RocksDBIterator.assertIsValid.
  rewrite (Valid_within c s e backwards i V K), Ew. cbn [snd gbind source]. rewrite K, W. cbn [gbind default from_option id].
  change (setSource _ _) with (mkIter _ (move backwards c) s e backwards false).
  rewrite IH; [|done|rewrite Em; lia]. by rewrite Em.
Qed.

(** Where an iterator starts. *)
Lemma new_rest c s e backwards : let itr := RocksDBIterator.newRocksDBIterator c s e backwards in
  itr = mkIter _ (source itr) s e backwards false /\ good backwards (source itr) /\
  rest backwards (source itr) =
  if backwards then rev (match e with Some e => List.filter (fun i => bytesLess (key i) e) (snapshot c) | None => snapshot c end)
  else match s with Some s => List.filter (fun i => negb (bytesLess (key i) s)) (snapshot c) | None => snapshot c end.
Proof.
  cbn zeta. split; [done|]. unfold RocksDBIterator.newRocksDBIterator. cbn [source].
  assert (forall c1, snapshot c1 = snapshot c ->
    good true (SeekToLast c1) /\ rest true (SeekToLast c1) = rev (snapshot c)) as Hlast.
  { intros c1 E1. destruct (cursor_last c1) as [Es Ep]. unfold good, rest. rewrite Es, Ep, E1. split; [lia|].
    replace (Z.to_nat _) with (length (snapshot c)) by lia. by rewrite firstn_all. }
  destruct backwards.
  - destruct e as [e|]; [|by apply Hlast]. pose proof (sorted_split (snapshot c) e (snapshot_sorted c)) as [Et Ed].
    destruct (cursor_seek c e) as [Es Ep]. set (n := length (List.filter (fun i => bytesLess (key i) e) (snapshot c))) in *.
    assert (n <= length (snapshot c))%nat as Hn by apply filter_length_le. rewrite cursor_valid, Es, Ep. unfold stands.
    destruct (Z.ltb_spec (Z.of_nat n) (zlen (snapshot c))) as [Hlt|Hge].
    + rewrite (proj2 (Z.leb_le 0 (Z.of_nat n))) by lia. cbn [andb].
      destruct (lookup_lt_is_Some_2 (snapshot c) n) as [i Hi]; [lia|].
      destruct (cursor_item (Seek c e) i) as [-> _].
      { rewrite Es, Ep. apply zlook_Some. rewrite Nat2Z.id. split; [lia|done]. }
      change (default [] (Some (key i))) with (key i). assert (bytesLess (key i) e = false) as ->.
      { assert (i ∈ List.filter (fun i => negb (bytesLess (key i) e)) (snapshot c)) as Hin.
        { rewrite <- Ed. apply (list_elem_of_lookup_2 _ 0). by rewrite lookup_drop, Nat.add_0_r. }
        by apply list_elem_of_In, List.filter_In in Hin as [_ ?%negb_true_iff]. }
      cbn [negb]. assert (cValid (Seek c e) = true) as V.
      { rewrite cursor_valid, Es, Ep. unfold stands. apply andb_true_iff. lia. }
      destruct (cursor_prev _ V) as [Es' Ep']. unfold good, rest. rewrite Es', Ep', Es, Ep. split; [lia|].
      replace (Z.to_nat _) with n by lia. by rewrite Et.
    + rewrite andb_false_r. destruct (Hlast (Seek c e) Es) as [G R]. split; [exact G|]. rewrite R, <- Et.
      by rewrite take_ge by lia.
  - destruct s as [s|].
    + destruct (cursor_seek c s) as [Es Ep]. unfold good, rest. rewrite Es, Ep. split; [lia|].
      rewrite Nat2Z.id. apply (sorted_split (snapshot c) s (snapshot_sorted c)).
    + destruct (cursor_first c) as [Es Ep]. unfold good, rest. by rewrite Es, Ep.
Qed.

Definition ahead (backwards : bool) (i j : item) : Prop := if backwards then before j i else before i j.
Lemma within_sorted backwards s e i j : ahead backwards i j ->
  within backwards s e i = false -> within backwards s e j = false.
Proof.
  unfold within, ahead, before, Less. destruct backwards; intros Hij.
  - destruct s as [s|]; [|done]. rewrite !negb_false_iff. by apply bytesLess_trans.
  - destruct e as [e|]; [|done]. intros Hi. apply not_true_iff_false. intros Hj.
    by rewrite (bytesLess_trans _ _ _ Hij Hj) in Hi.
Qed.

(** An iterator visits the items of its domain, in their order. *)
Definition inOrder (backwards : bool) (l : list item) : list item := if backwards then rev l else l.
Lemma walk_domain c s e backwards :
  let l := inOrder backwards (List.filter (fun i => IsKeyInDomain (key i) s e) (snapshot c)) in
  forall fuel, (length l <= fuel)%nat ->
  walk fuel (RocksDBIterator.newRocksDBIterator c s e backwards) = Ok (map MemDBBackend.pairOf l).
Proof.
  cbn zeta. destruct (new_rest c s e backwards) as (Ei & G & R). set (c1 := source _) in *.
  assert (upto (within backwards s e) (rest backwards c1) =
    inOrder backwards (List.filter (fun i => IsKeyInDomain (key i) s e) (snapshot c))) as Hu.
  { rewrite (upto_filter (ahead backwards)).
    - rewrite R. unfold IsKeyInDomain, within, inOrder. destruct backwards.
      + rewrite List.filter_rev. f_equal. destruct e as [e|].
        * rewrite MemDBBackend.filter_and. apply List.filter_ext. intros i.
          destruct s as [s|]; cbn; rewrite ?bytesLess_nil, ?andb_true_r; [apply andb_comm|done].
        * apply List.filter_ext. intros i. destruct s as [s|]; cbn; by rewrite ?bytesLess_nil, ?andb_true_r.
      + destruct s as [s|].
        * rewrite MemDBBackend.filter_and. apply List.filter_ext. intros i. by destruct e.
        * apply List.filter_ext. intros i. cbn. by rewrite bytesLess_nil.
    - rewrite R. destruct backwards.
      + apply MemDBBackend.sorted_rev. destruct e; [apply MemDBBackend.sorted_filter|]; apply snapshot_sorted.
      + destruct s; [apply MemDBBackend.sorted_filter|]; apply snapshot_sorted.
    - intros i j. apply within_sorted. }
  intros fuel Hf. rewrite Ei, walk_rest; [by rewrite Hu|done|by rewrite Hu].
Qed.
End walk.

(** The visits of an iterator over a cursor whose items are those of a map, at
    least in the domain. *)
Lemma walk_visits `{CursorLaws} (c : cursor) (s e : option bytes) (backwards : bool) (m : gmap bytes bytes) :
  (forall k v, IsKeyInDomain k s e = true -> mkItem k v ∈ snapshot c <-> m !! k = Some v) ->
  exists l, (forall fuel, (length l <= fuel)%nat -> walk fuel (RocksDBIterator.newRocksDBIterator c s e backwards) = Ok l) /\
    StronglySorted (MemDBBackend.comes backwards) l /\
    forall k v, (k, v) ∈ l <-> m !! k = Some v /\ IsKeyInDomain k s e = true.
Proof.
  intros Hm. set (l := inOrder backwards (List.filter (fun i => IsKeyInDomain (key i) s e) (snapshot c))).
  exists (map MemDBBackend.pairOf l). split; [|split].
  - intros fuel Hf. rewrite length_map in Hf. by apply walk_domain.
  - pose proof (MemDBBackend.sorted_filter before (fun i => IsKeyInDomain (key i) s e) _ (snapshot_sorted c)) as Hs.
    unfold l, inOrder. destruct backwards.
    + by eapply (MemDBBackend.sorted_map MemDBBackend.descends); [|apply MemDBBackend.sorted_rev].
    + by eapply (MemDBBackend.sorted_map before).
  - intros k v. transitivity (mkItem k v ∈ snapshot c /\ IsKeyInDomain k s e = true); [|naive_solver].
    assert (forall i, i ∈ l <-> i ∈ snapshot c /\ IsKeyInDomain (key i) s e = true) as Hl.
    { intros i. unfold l, inOrder. rewrite !list_elem_of_In. destruct backwards; [rewrite <- in_rev|]; apply List.filter_In. }
    rewrite list_elem_of_fmap. setoid_rewrite Hl. split.
    + by intros ([k' v'] & [= -> ->] & Hk).
    + intros Hk. by exists (mkItem k v).
Qed.

(** A batch that is filled with calls that it accepts. *)
Lemma fill_ops {B} (f : option B -> BatchOp -> option B) (opsOf : B -> list BatchOp) ops b :
  (forall b op, opKey op <> [] -> exists b', f (Some b) op = Some b' /\ opsOf b' = opsOf b ++ [op]) ->
  Forall (fun op => opKey op <> []) ops ->
  exists b', fold_left f ops (Some b) = Some b' /\ opsOf b' = opsOf b ++ ops.
Proof.
  intros Hf Hk. revert b. induction Hk as [|op ops Hne _ IH]; intros b; cbn [fold_left].
  - exists b. by rewrite app_nil_r.
  - destruct (Hf b op Hne) as (b1 & -> & E1). destruct (IH b1) as (b' & E & Eo). exists b'. split; [done|].
    by rewrite Eo, E1, <- app_assoc.
Qed.

(** ** [tm-rocksdb.go] and [rocksdb_batch.go] *)

(** [github.com/cosmos/gorocksdb]: a write is synchronous or not. *)
Class GoRocksDB := {
  rdb : Type;
  rWriteBatch : Type;
  rCursor :: Cursor;
  rOpenDb : string -> rdb + goerr;
  rGet : rdb -> bytes -> option bytes * option goerr;
  rPut : bool -> rdb -> bytes -> bytes -> rdb * option goerr;
  rDelete : bool -> rdb -> bytes -> rdb * option goerr;
  rWrite : bool -> rdb -> rWriteBatch -> rdb * option goerr;
  rNewWriteBatch : rWriteBatch;
  rBatchPut : rWriteBatch -> bytes -> bytes -> rWriteBatch;
  rBatchDelete : rWriteBatch -> bytes -> rWriteBatch;
  rNewIterator : rdb -> cursor
}.
(** A database that works is a map, and a cursor sees it as it is. *)
Class GoRocksDBLaws `{GoRocksDB} := {
  rCursor_laws :: CursorLaws;
  rContents : rdb -> gmap bytes bytes;
  rBatchOps : rWriteBatch -> list BatchOp;
  rGet_spec d k : rGet d k = (rContents d !! k, None);
  rPut_spec sync d k v : exists d', rPut sync d k v = (d', None) /\ rContents d' = <[k := v]> (rContents d);
  rDelete_spec sync d k : exists d', rDelete sync d k = (d', None) /\ rContents d' = delete k (rContents d);
  rWrite_spec sync d b : exists d', rWrite sync d b = (d', None) /\ rContents d' = fold_left applyOp (rBatchOps b) (rContents d);
  rNewWriteBatch_ops : rBatchOps rNewWriteBatch = [];
  rBatchPut_ops b k v : rBatchOps (rBatchPut b k v) = rBatchOps b ++ [BatchSet k v];
  rBatchDelete_ops b k : rBatchOps (rBatchDelete b k) = rBatchOps b ++ [BatchDelete k];
  rNewIterator_snapshot d k v : mkItem k v ∈ snapshot (rNewIterator d) <-> rContents d !! k = Some v
}.

Module RocksDB.
Section rocksdb.
Context `{GoRocksDB}.

(** The path of the database; [join] is [filepath.Join]. *)
Definition dbPath (join : string -> string -> string) (name dir : string) : string := join dir (name +:+ ".db").
Definition NewRocksDBWithOptions (join : string -> string -> string) (name dir : string) : rdb + goerr :=
  rOpenDb (dbPath join name dir).
(** The options that it sets are those of the library. *)
Definition NewRocksDB (join : string -> string -> string) (name dir : string) : rdb + goerr :=
  NewRocksDBWithOptions join name dir.

Definition Get (db : rdb) (k : bytes) : option bytes * option goerr :=
  if bool_decide (k = []) then (None, Some errKeyEmpty)
  else match rGet db k with
  | (_, Some err) => (None, Some err)
  | (res, None) => (res, None)
  end.
Definition Has (db : rdb) (k : bytes) : bool * option goerr :=
  match Get db k with
  | (_, Some err) => (false, Some err)
  | (bz, None) => (bool_decide (is_Some bz), None)
  end.
Definition Set_ (db : rdb) (k : bytes) (v : option bytes) : rdb * option goerr :=
  if bool_decide (k = []) then (db, Some errKeyEmpty)
  else match v with None => (db, Some errValueNil) | Some v => rPut false db k v end.
Definition SetSync (db : rdb) (k : bytes) (v : option bytes) : rdb * option goerr :=
  if bool_decide (k = []) then (db, Some errKeyEmpty)
  else match v with None => (db, Some errValueNil) | Some v => rPut true db k v end.
Definition Delete (db : rdb) (k : bytes) : rdb * option goerr :=
  if bool_decide (k = []) then (db, Some errKeyEmpty) else rDelete false db k.
(** The error of the library is dropped. *)
Definition DeleteSync (db : rdb) (k : bytes) : rdb * option goerr :=
  if bool_decide (k = []) then (db, Some errKeyEmpty)
  else let '(db, err) := rDelete true db k in (db, None).

(** A batch is nil once it is closed. *)
Definition Batch : Type := option rWriteBatch.
Definition newRocksDBBatch : Batch := Some rNewWriteBatch.
Definition BatchSet_ (b : Batch) (k : bytes) (v : option bytes) : Batch * option goerr :=
  if bool_decide (k = []) then (b, Some errKeyEmpty)
  else match v with
  | None => (b, Some errValueNil)
  | Some v =>
      match b with
      | None => (b, Some errBatchClosed)
      | Some batch => (Some (rBatchPut batch k v), None)
      end
  end.
Definition BatchDelete_ (b : Batch) (k : bytes) : Batch * option goerr :=
  if bool_decide (k = []) then (b, Some errKeyEmpty)
  else match b with
  | None => (b, Some errBatchClosed)
  | Some batch => (Some (rBatchDelete batch k), None)
  end.
Definition BatchClose (b : Batch) : Batch * option goerr := (None, None).
Definition BatchWrite (db : rdb) (b : Batch) : rdb * (Batch * option goerr) :=
  match b with
  | None => (db, (b, Some errBatchClosed))
  | Some batch =>
      match rWrite false db batch with
      | (db, Some err) => (db, (b, Some err))
      | (db, None) => let '(b, _) := BatchClose b in (db, (b, None))
      end
  end.
Definition BatchWriteSync (db : rdb) (b : Batch) : rdb * (Batch * option goerr) :=
  match b with
  | None => (db, (b, Some errBatchClosed))
  | Some batch =>
      match rWrite true db batch with
      | (db, Some err) => (db, (b, Some err))
      | (db, None) => (db, BatchClose b)
      end
  end.
(** A batch that is filled, each call's error left aside, and written. *)
Definition fillBatch (b : Batch) (op : BatchOp) : Batch :=
  match op with BatchSet k v => fst (BatchSet_ b k (Some v)) | BatchDelete k => fst (BatchDelete_ b k) end.
Definition writeAll (db : rdb) (ops : list BatchOp) : rdb * option goerr :=
  let '(db, (_, err)) := BatchWrite db (fold_left fillBatch ops newRocksDBBatch) in (db, err).

Definition Iterator_ (db : rdb) (start end_ : option bytes) : Iter + goerr :=
  if MemDBBackend.emptyKey start || MemDBBackend.emptyKey end_ then inr errKeyEmpty
  else inl (RocksDBIterator.newRocksDBIterator (rNewIterator db) start end_ false).
Definition ReverseIterator (db : rdb) (start end_ : option bytes) : Iter + goerr :=
  if MemDBBackend.emptyKey start || MemDBBackend.emptyKey end_ then inr errKeyEmpty
  else inl (RocksDBIterator.newRocksDBIterator (rNewIterator db) start end_ true).
End rocksdb.

#[export] Instance rocksDB `{GoRocksDB} : DB :=
  {| Database := rdb; dbGet := Get; dbHas := Has; dbSet db k v := Set_ db k (Some v); dbDelete := Delete;
     batchWrite := writeAll |}.
#[export] Instance rocksIterators `{GoRocksDB} : @Iterators rocksDB :=
  @Build_Iterators rocksDB Iter Iterator_ ReverseIterator RocksDBIterator.Domain RocksDBIterator.Valid
    RocksDBIterator.Next RocksDBIterator.Key RocksDBIterator.Value RocksDBIterator.Error_ RocksDBIterator.Close.

Section laws.
Context `{GoRocksDBLaws}.

Lemma fillBatch_ops b op : opKey op <> [] ->
  exists b', fillBatch (Some b) op = Some b' /\ rBatchOps b' = rBatchOps b ++ [op].
Proof.
  destruct op as [k v|k]; cbn; intros Hne; unfold BatchSet_, BatchDelete_; rewrite bool_decide_false by done; eexists.
  - split; [done|]. apply rBatchPut_ops.
  - split; [done|]. apply rBatchDelete_ops.
Qed.

#[export] Program Instance rocksDB_laws : DBLaws (H := rocksDB) := {| contents := rContents |}.
Next Obligation. intros d k Hk. cbn. unfold Get. by rewrite bool_decide_false, rGet_spec. Qed.
Next Obligation. intros d k Hk. cbn. unfold Has, Get. by rewrite bool_decide_false, rGet_spec. Qed.
Next Obligation. intros d k v Hk. cbn. unfold Set_. rewrite bool_decide_false by done. apply rPut_spec. Qed.
Next Obligation. intros d k Hk. cbn. unfold Delete. rewrite bool_decide_false by done. apply rDelete_spec. Qed.
Next Obligation.
  intros d ops Hk. cbn. unfold writeAll, newRocksDBBatch, Batch.
  destruct (fill_ops fillBatch rBatchOps ops rNewWriteBatch fillBatch_ops Hk) as (b & -> & Eb).
  cbn [BatchWrite]. destruct (rWrite_spec false d b) as (d' & -> & Ed). exists d'. split; [done|].
  by rewrite Ed, Eb, rNewWriteBatch_ops.
Qed.

Lemma rocksDB_iterates : @IteratorsLaws rocksDB rocksDB_laws rocksIterators.
Proof.
  split. intros d start end_ backwards Hs He.
  destruct (walk_visits (rNewIterator d) start end_ backwards (rContents d)) as (l & Hl).
  { intros k v _. apply rNewIterator_snapshot. }
  exists (RocksDBIterator.newRocksDBIterator (rNewIterator d) start end_ backwards), l. split; [|exact Hl].
  unfold openDb. cbn [dbIterator dbReverseIterator rocksIterators]. unfold Iterator_, ReverseIterator, MemDBBackend.emptyKey.
  rewrite !bool_decide_false by done. by destruct backwards.
Qed.
#[export] Existing Instance rocksDB_iterates.
End laws.
End RocksDB.

(** ** [goleveldb.go] and [goleveldb_batch.go] *)

(** [github.com/syndtr/goleveldb]: a missing key is an error. A cursor is made
    over a range, nil bounds are open. *)
Inductive levelErr := ErrNotFound | LevelErr (err : goerr).
Class GoLevelDBLib := {
  ldb : Type;
  lBatch : Type;
  lCursor :: Cursor;
  lOpenFile : string -> ldb + goerr;
  lGet : ldb -> bytes -> bytes + levelErr;
  lPut : bool -> ldb -> bytes -> bytes -> ldb * option goerr;
  lDelete : bool -> ldb -> bytes -> ldb * option goerr;
  lWrite : bool -> ldb -> lBatch -> ldb * option goerr;
  lNewBatch : lBatch;
  lBatchPut : lBatch -> bytes -> bytes -> lBatch;
  lBatchDelete : lBatch -> bytes -> lBatch;
  lNewIterator : ldb -> option bytes -> option bytes -> cursor
}.
Class GoLevelDBLaws `{GoLevelDBLib} := {
  lCursor_laws :: CursorLaws;
  lContents : ldb -> gmap bytes bytes;
  lBatchOps : lBatch -> list BatchOp;
  lGet_spec d k : lGet d k = match lContents d !! k with Some v => inl v | None => inr ErrNotFound end;
  lPut_spec sync d k v : exists d', lPut sync d k v = (d', None) /\ lContents d' = <[k := v]> (lContents d);
  lDelete_spec sync d k : exists d', lDelete sync d k = (d', None) /\ lContents d' = delete k (lContents d);
  lWrite_spec sync d b : exists d', lWrite sync d b = (d', None) /\ lContents d' = fold_left applyOp (lBatchOps b) (lContents d);
  lNewBatch_ops : lBatchOps lNewBatch = [];
  lBatchPut_ops b k v : lBatchOps (lBatchPut b k v) = lBatchOps b ++ [BatchSet k v];
  lBatchDelete_ops b k : lBatchOps (lBatchDelete b k) = lBatchOps b ++ [BatchDelete k];
  lNewIterator_snapshot d s e k v :
    mkItem k v ∈ snapshot (lNewIterator d s e) <-> lContents d !! k = Some v /\ IsKeyInDomain k s e = true
}.

Module GoLevelDB.
Section goleveldb.
Context `{GoLevelDBLib}.

Definition NewGoLevelDBWithOpts (join : string -> string -> string) (name dir : string) : ldb + goerr :=
  lOpenFile (RocksDB.dbPath join name dir).
Definition NewGoLevelDB (join : string -> string -> string) (name dir : string) : ldb + goerr :=
  NewGoLevelDBWithOpts join name dir.

Definition Get (db : ldb) (k : bytes) : option bytes * option goerr :=
  if bool_decide (k = []) then (None, Some errKeyEmpty)
  else match lGet db k with
  | inr ErrNotFound => (None, None)
  | inr (LevelErr err) => (None, Some err)
  | inl res => (Some res, None)
  end.
Definition Has (db : ldb) (k : bytes) : bool * option goerr :=
  match Get db k with
  | (_, Some err) => (false, Some err)
  | (bz, None) => (bool_decide (is_Some bz), None)
  end.
Definition Set_ (db : ldb) (k : bytes) (v : option bytes) : ldb * option goerr :=
  if bool_decide (k = []) then (db, Some errKeyEmpty)
  else match v with None => (db, Some errValueNil) | Some v => lPut false db k v end.
Definition SetSync (db : ldb) (k : bytes) (v : option bytes) : ldb * option goerr :=
  if bool_decide (k = []) then (db, Some errKeyEmpty)
  else match v with None => (db, Some errValueNil) | Some v => lPut true db k v end.
Definition Delete (db : ldb) (k : bytes) : ldb * option goerr :=
  if bool_decide (k = []) then (db, Some errKeyEmpty) else lDelete false db k.
Definition DeleteSync (db : ldb) (k : bytes) : ldb * option goerr :=
  if bool_decide (k = []) then (db, Some errKeyEmpty) else lDelete true db k.

Definition Batch : Type := option lBatch.
Definition newGoLevelDBBatch : Batch := Some lNewBatch.
Definition BatchSet_ (b : Batch) (k : bytes) (v : option bytes) : Batch * option goerr :=
  if bool_decide (k = []) then (b, Some errKeyEmpty)
  else match v with
  | None => (b, Some errValueNil)
  | Some v =>
      match b with
      | None => (b, Some errBatchClosed)
      | Some batch => (Some (lBatchPut batch k v), None)
      end
  end.
Definition BatchDelete_ (b : Batch) (k : bytes) : Batch * option goerr :=
  if bool_decide (k = []) then (b, Some errKeyEmpty)
  else match b with
  | None => (b, Some errBatchClosed)
  | Some batch => (Some (lBatchDelete batch k), None)
  end.
Definition BatchClose (b : Batch) : Batch * option goerr := (None, None).
Definition write (sync : bool) (db : ldb) (b : Batch) : ldb * (Batch * option goerr) :=
  match b with
  | None => (db, (b, Some errBatchClosed))
  | Some batch =>
      match lWrite sync db batch with
      | (db, Some err) => (db, (b, Some err))
      | (db, None) => (db, BatchClose b)
      end
  end.
Definition BatchWrite (db : ldb) (b : Batch) := write false db b.
Definition BatchWriteSync (db : ldb) (b : Batch) := write true db b.
Definition fillBatch (b : Batch) (op : BatchOp) : Batch :=
  match op with BatchSet k v => fst (BatchSet_ b k (Some v)) | BatchDelete k => fst (BatchDelete_ b k) end.
Definition writeAll (db : ldb) (ops : list BatchOp) : ldb * option goerr :=
  let '(db, (_, err)) := BatchWrite db (fold_left fillBatch ops newGoLevelDBBatch) in (db, err).

Definition Iterator_ (db : ldb) (start end_ : option bytes) : Iter + goerr :=
  if MemDBBackend.emptyKey start || MemDBBackend.emptyKey end_ then inr errKeyEmpty
  else inl (GoLevelDBIterator.newGoLevelDBIterator (lNewIterator db start end_) start end_ false).
Definition ReverseIterator (db : ldb) (start end_ : option bytes) : Iter + goerr :=
  if MemDBBackend.emptyKey start || MemDBBackend.emptyKey end_ then inr errKeyEmpty
  else inl (GoLevelDBIterator.newGoLevelDBIterator (lNewIterator db start end_) start end_ true).
End goleveldb.

#[export] Instance goLevelDB `{GoLevelDBLib} : DB :=
  {| Database := ldb; dbGet := Get; dbHas := Has; dbSet db k v := Set_ db k (Some v); dbDelete := Delete;
     batchWrite := writeAll |}.
#[export] Instance levelIterators `{GoLevelDBLib} : @Iterators goLevelDB :=
  @Build_Iterators goLevelDB Iter Iterator_ ReverseIterator GoLevelDBIterator.Domain GoLevelDBIterator.Valid
    GoLevelDBIterator.Next GoLevelDBIterator.Key GoLevelDBIterator.Value GoLevelDBIterator.Error_ GoLevelDBIterator.Close.

Section laws.
Context `{GoLevelDBLaws}.

Lemma level_fillBatch_ops b op : opKey op <> [] ->
  exists b', fillBatch (Some b) op = Some b' /\ lBatchOps b' = lBatchOps b ++ [op].
Proof.
  destruct op as [k v|k]; cbn; intros Hne; unfold BatchSet_, BatchDelete_; rewrite bool_decide_false by done; eexists.
  - split; [done|]. apply lBatchPut_ops.
  - split; [done|]. apply lBatchDelete_ops.
Qed.

#[export] Program Instance goLevelDB_laws : DBLaws (H := goLevelDB) := {| contents := lContents |}.
Next Obligation.
  intros d k Hk. cbn. unfold Get. rewrite bool_decide_false, lGet_spec by done. by destruct (lContents d !! k).
Qed.
Next Obligation.
  intros d k Hk. cbn. unfold Has, Get. rewrite bool_decide_false, lGet_spec by done. by destruct (lContents d !! k).
Qed.
Next Obligation. intros d k v Hk. cbn. unfold Set_. rewrite bool_decide_false by done. apply lPut_spec. Qed.
Next Obligation. intros d k Hk. cbn. unfold Delete. rewrite bool_decide_false by done. apply lDelete_spec. Qed.
Next Obligation.
  intros d ops Hk. cbn. unfold writeAll, newGoLevelDBBatch, Batch.
  destruct (fill_ops fillBatch lBatchOps ops lNewBatch level_fillBatch_ops Hk) as (b & -> & Eb).
  cbn [BatchWrite write]. destruct (lWrite_spec false d b) as (d' & -> & Ed). exists d'. split; [done|].
  by rewrite Ed, Eb, lNewBatch_ops.
Qed.

(** The two iterators are the same walk. *)
Lemma goLevelDB_iterates : @IteratorsLaws goLevelDB goLevelDB_laws levelIterators.
Proof.
  split. intros d start end_ backwards Hs He.
  destruct (walk_visits (lNewIterator d start end_) start end_ backwards (lContents d)) as (l & Hl).
  { intros k v Hk. rewrite lNewIterator_snapshot. naive_solver. }
  exists (GoLevelDBIterator.newGoLevelDBIterator (lNewIterator d start end_) start end_ backwards), l. split; [|exact Hl].
  unfold openDb. cbn [dbIterator dbReverseIterator levelIterators]. unfold Iterator_, ReverseIterator, MemDBBackend.emptyKey.
  rewrite !bool_decide_false by done. by destruct backwards.
Qed.
#[export] Existing Instance goLevelDB_iterates.
End laws.
End GoLevelDB.

(** ** [db.go], and the store of a node *)

Module Backends.
Section backends.
(** A database of any backend, and the error of [NewDB] for an unknown one, which
    lists the known ones in the order of a loop over the map. *)
Context {AnyDB : Type} (shuffle : list string -> list string).

Definition dbCreator : Type := string -> string -> AnyDB + goerr.
Definition GoLevelDBBackend : string := "goleveldb".
Definition MemDBBackend : string := "memdb".
Definition RocksDBBackend : string := "rocksdb".

Definition registerDBCreator (backends : gmap string dbCreator) (backend : string) (creator : dbCreator) (force : bool) :
    gmap string dbCreator :=
  match backends !! backend with
  | Some _ => if negb force then backends else <[backend := creator]> backends
  | None => <[backend := creator]> backends
  end.
Definition errUnknown (backend : string) (keys : list string) : goerr :=
  Errorf ("unknown db_backend " +:+ backend +:+ ", expected one of " +:+ String.concat "," keys).
(** The error is wrapped; what it says is left out. *)
Definition errFailed : goerr := Errorf "failed to initialize database: %w".
Definition NewDB (backends : gmap string dbCreator) (name backend dir : string) : AnyDB + goerr :=
  match backends !! backend with
  | None => inr (errUnknown backend (shuffle (map fst (map_to_list backends))))
  | Some dbCreator =>
      match dbCreator name dir with
      | inr _ => inr errFailed
      | inl db => inl db
      end
  end.

(** The [init] functions run in the order of the files. *)
Definition registered (level memory rocks : dbCreator) : gmap string dbCreator :=
  registerDBCreator (registerDBCreator (registerDBCreator ∅ GoLevelDBBackend level false)
    MemDBBackend memory false) RocksDBBackend rocks false.
Definition NewPrefixStore (backends : gmap string dbCreator) (name dir : string) : go AnyDB :=
  match NewDB backends name RocksDBBackend dir with
  | inr _ => Panic
  | inl db => Ok db
  end.

(** A node keeps its data in RocksDB, whatever else is linked. *)
Lemma registered_rocks (level memory rocks : dbCreator) : registered level memory rocks !! RocksDBBackend = Some rocks.
Proof.
  unfold registered, registerDBCreator. rewrite lookup_empty, lookup_insert_ne, lookup_empty by done.
  rewrite !lookup_insert_ne, lookup_empty by done. by rewrite lookup_insert_eq.
Qed.
Lemma NewPrefixStore_rocks (level memory rocks : dbCreator) name dir :
  NewPrefixStore (registered level memory rocks) name dir =
  match rocks name dir with inl db => Ok db | inr _ => Panic end.
Proof.
  unfold NewPrefixStore, NewDB. pose proof (registered_rocks level memory rocks) as E. unfold dbCreator in *. rewrite E.
  by destruct (rocks name dir).
Qed.
End backends.
End Backends.

(** ** The backends agree *)

Lemma comes_unique backwards (l1 l2 : list (bytes * bytes)) :
  StronglySorted (MemDBBackend.comes backwards) l1 -> StronglySorted (MemDBBackend.comes backwards) l2 ->
  (forall x, x ∈ l1 <-> x ∈ l2) -> l1 = l2.
Proof.
  assert (forall a b, MemDBBackend.comes backwards a b -> ~ MemDBBackend.comes backwards b a) as Hasym.
  { intros a b. unfold MemDBBackend.comes. destruct backwards; intros H1 H2;
      pose proof (bytesLess_trans _ _ _ H1 H2) as H3; by rewrite bytesLess_irrefl in H3. }
  assert (forall l, StronglySorted (MemDBBackend.comes backwards) l -> NoDup l) as Hnd.
  { induction 1 as [|x l _ IH Hall]; constructor; [|done]. intros Hx. rewrite Forall_forall in Hall.
    specialize (Hall x Hx). by apply (Hasym x x). }
  intros S1 S2 Hin. apply (StronglySorted_unique_strong (MemDBBackend.comes backwards)); [|done..|by apply NoDup_Permutation; auto].
  intros a b _ _ H1 H2. by destruct (Hasym a b).
Qed.

(** C35: with the same contents RocksDB and goleveldb show the same: an iterator
    of either, in either direction, visits exactly the keys of its domain in
    order with their values, and ends. *)
Theorem backends_agree `{GoRocksDBLaws, GoLevelDBLaws} (dr : rdb) (dl : ldb) (start end_ : option bytes) (backwards : bool) :
  rContents dr = lContents dl -> start <> Some [] -> end_ <> Some [] ->
  exists ir il l,
    @openDb _ RocksDB.rocksIterators dr start end_ backwards = inl ir /\
    @openDb _ GoLevelDB.levelIterators dl start end_ backwards = inl il /\
    (forall fuel, (length l <= fuel)%nat ->
      @visited _ RocksDB.rocksIterators fuel ir = Ok l /\ @visited _ GoLevelDB.levelIterators fuel il = Ok l) /\
    StronglySorted (MemDBBackend.comes backwards) l /\
    forall k v, (k, v) ∈ l <-> rContents dr !! k = Some v /\ IsKeyInDomain k start end_ = true.
Proof.
  intros E Hs He.
  destruct (@iterators_visit _ _ _ RocksDB.rocksDB_iterates dr start end_ backwards Hs He) as (ir & lr & Er & Dr & Sr & Ir).
  destruct (@iterators_visit _ _ _ GoLevelDB.goLevelDB_iterates dl start end_ backwards Hs He) as (il & ll & El & Dl & Sl & Il).
  cbn [contents RocksDB.rocksDB_laws GoLevelDB.goLevelDB_laws] in Ir, Il.
  assert (lr = ll) as <-.
  { apply (comes_unique backwards); [done..|]. intros [k v]. by rewrite Ir, Il, E. }
  exists ir, il, lr. split_and!; try done. intros fuel Hf. split; [by apply Dr|by apply Dl].
Qed.

(** ** A library that keeps a map in memory *)

Module EnginesDemo.
Import BackendDemo.

(** A cursor: the map, the range, and the place. *)
Record view := mkView { over : gmap bytes bytes; from : option bytes; limit : option bytes; at_ : Z }.
Definition shown (c : view) : list item :=
  List.filter (fun i => IsKeyInDomain (key i) (from c) (limit c)) (listItems (over c)).
Definition goTo (c : view) (p : Z) : view := mkView (over c) (from c) (limit c) p.
#[export] Instance viewCursor : Cursor :=
  {| cursor := view;
     SeekToFirst c := goTo c 0;
     SeekToLast c := goTo c (zlen (shown c) - 1);
     Seek c k := goTo c (zlen (List.filter (fun i => bytesLess (key i) k) (shown c)));
     cNext c := goTo c (at_ c + 1);
     cPrev c := goTo c (at_ c - 1);
     cValid c := stands (shown c) (at_ c);
     cKey c := key <$> zlook (shown c) (at_ c);
     cValue c := value <$> zlook (shown c) (at_ c);
     cErr c := None;
     cClose c := c |}.
#[export] Program Instance viewCursor_laws : CursorLaws := {| snapshot := shown; place := at_ |}.
Next Obligation. intros c. apply MemDBBackend.sorted_filter, listItems_sorted. Qed.
Next Obligation. done. Qed.
Next Obligation. done. Qed.
Next Obligation. done. Qed.
Next Obligation. done. Qed.
Next Obligation. done. Qed.
Next Obligation. done. Qed.
Next Obligation. intros c i E. cbn. by rewrite E. Qed.
Next Obligation. done. Qed.

Lemma shown_In m s e k v : mkItem k v ∈ shown (mkView m s e (-1)) <-> m !! k = Some v /\ IsKeyInDomain k s e = true.
Proof.
  unfold shown. cbn [over from limit]. rewrite list_elem_of_In, List.filter_In, <- list_elem_of_In, listItems_In. done.
Qed.

#[export] Instance mapRocks : GoRocksDB :=
  {| rdb := gmap bytes bytes; rWriteBatch := list BatchOp; rCursor := viewCursor;
     rOpenDb _ := inl ∅; rGet d k := (d !! k, None);
     rPut _ d k v := (<[k := v]> d, None); rDelete _ d k := (delete k d, None);
     rWrite _ d b := (fold_left applyOp b d, None);
     rNewWriteBatch := []; rBatchPut b k v := b ++ [BatchSet k v]; rBatchDelete b k := b ++ [BatchDelete k];
     rNewIterator d := mkView d None None (-1) |}.
#[export] Program Instance mapRocks_laws : GoRocksDBLaws := {| rContents d := d; rBatchOps b := b |}.
Next Obligation. done. Qed.
Next Obligation. intros. by eexists. Qed.
Next Obligation. intros. by eexists. Qed.
Next Obligation. intros. by eexists. Qed.
Next Obligation. done. Qed.
Next Obligation. done. Qed.
Next Obligation. done. Qed.
Next Obligation.
  intros d k v. cbn. rewrite shown_In. unfold IsKeyInDomain. cbn [default from_option id]. rewrite bytesLess_nil. naive_solver.
Qed.

#[export] Instance mapLevel : GoLevelDBLib :=
  {| ldb := gmap bytes bytes; lBatch := list BatchOp; lCursor := viewCursor;
     lOpenFile _ := inl ∅; lGet d k := match d !! k with Some v => inl v | None => inr ErrNotFound end;
     lPut _ d k v := (<[k := v]> d, None); lDelete _ d k := (delete k d, None);
     lWrite _ d b := (fold_left applyOp b d, None);
     lNewBatch := []; lBatchPut b k v := b ++ [BatchSet k v]; lBatchDelete b k := b ++ [BatchDelete k];
     lNewIterator d s e := mkView d s e (-1) |}.
#[export] Program Instance mapLevel_laws : GoLevelDBLaws := {| lContents d := d; lBatchOps b := b |}.
Next Obligation. done. Qed.
Next Obligation. intros. by eexists. Qed.
Next Obligation. intros. by eexists. Qed.
Next Obligation. intros. by eexists. Qed.
Next Obligation. done. Qed.
Next Obligation. done. Qed.
Next Obligation. done. Qed.
Next Obligation. intros d s e k v. apply shown_In. Qed.

Definition letters : gmap bytes bytes :=
  {[of_str "a" := of_str "1"; of_str "b" := of_str "2"; of_str "c" := []; of_str "d" := of_str "4"]}.
Lemma backends_agree_witness :
  exists ir il l,
    @openDb _ RocksDB.rocksIterators (letters : @rdb mapRocks) (Some (of_str "b")) (Some (of_str "d")) true = inl ir /\
    @openDb _ GoLevelDB.levelIterators (letters : @ldb mapLevel) (Some (of_str "b")) (Some (of_str "d")) true = inl il /\
    @visited _ RocksDB.rocksIterators (length l) ir = @visited _ GoLevelDB.levelIterators (length l) il /\
    (of_str "c", []) ∈ l /\ (of_str "d", of_str "4") ∉ l.
Proof.
  destruct (@backends_agree mapRocks mapRocks_laws mapLevel mapLevel_laws letters letters (Some (of_str "b")) (Some (of_str "d")) true
    eq_refl ltac:(done) ltac:(done)) as (ir & il & l & Er & El & D & _ & I).
  exists ir, il, l. split; [exact Er|]. split; [exact El|]. split.
  { destruct (D (length l) ltac:(done)) as [-> ->]. reflexivity. }
  split.
  - apply I. split; vm_compute; reflexivity.
  - rewrite I. intros [_ Hk]. vm_compute in Hk. discriminate Hk.
Defined.

Definition walked (it : (Iter (H := viewCursor) + goerr)) : go (list bytes) :=
  match it with
  | inl it => let! l := @visited _ RocksDB.rocksIterators 9 it in Ok (map fst l)
  | inr _ => Panic
  end.
Example backwards_from_end :
  walked (RocksDB.ReverseIterator (letters : @rdb mapRocks) None (Some (of_str "c"))) = Ok [of_str "b"; of_str "a"] /\
  walked (RocksDB.ReverseIterator (letters : @rdb mapRocks) (Some (of_str "b")) None) = Ok [of_str "d"; of_str "c"; of_str "b"] /\
  walked (RocksDB.Iterator_ (letters : @rdb mapRocks) (Some (of_str "bb")) (Some (of_str "d"))) = Ok [of_str "c"].
Proof. vm_compute. split_and!; reflexivity. Qed.

(** A store of a node on RocksDB. *)
Example store_reads :
  let d := fst (@PrefixStore.Set_ (@RocksDB.rocksDB mapRocks) (∅ : gmap bytes bytes) (of_str "k") (of_str "v")) in
  @PrefixStore.Get (@RocksDB.rocksDB mapRocks) d (of_str "k") = (Some (of_str "v"), None).
Proof. reflexivity. Qed.
End EnginesDemo.
