(* ===== verification/Consensus.v ===== *)
(** * The consensus state machine: [melete/consensus/main.go],
    [melete/consensus/sort_shard.go]

    [ConsensusState] drives the package of the current height through the steps
    of a height: it votes, answers the related shards, executes the blocks and
    moves to the next height. The application, the two mempools and the
    database are interfaces, as in [melete/definition/module.go]. *)

From S2P Require Import Prelude BitVector Convert Hash Merkle Wire Types.
From S2P Require Import PartSet Signer Votes CSASet ShardInfo HeightData Store.
Local Open Scope Z_scope.

(** ** [sort_shard.go] *)

Definition ShardIDLess (a b : string) : bool := bool_decide (str_lt a b).
Definition sortShards (shards : list string) : list string := sortStrings shards.

(** ** Interfaces ([module.go])

    The methods of an interface may panic: [None]. [PreExecutionC] gets a
    pointer to the block and may hash it, which changes the block. *)
Class ABCIConn := {
  App : Type;
  PreExecutionC : App -> Block.t -> option (App * Block.t * ABCIPreExecutionResponseC);
  PreExecutionI : App -> list (option Block.t) -> option (App * ABCIPreExecutionResponseI);
  Execution : App -> list (option Block.t) -> list (option BV.t) -> list (option Block.t) ->
    option (App * ABCIExecutionResponse);
  AppCommit : App -> App * bytes
}.

Class MempoolConn := {
  Pool : Type;
  ReapTx : Pool -> Z -> option (Txs.t * Z * option goerr);
  Update : Pool -> Txs.t -> bytes -> option (Pool * option goerr)
}.

(** What is not determined by the state: the n-th reading of the clock and the
    order of the n-th loop over a map. *)
Class Env := {
  Now : nat -> Time;
  rangeOrder : nat -> list string -> list string;
  rangeOrder_perm n l : rangeOrder n l ≡ₚ l
}.

(** [Time.Add] (in nanoseconds) and [Time.Before]. *)
Definition timeAdd (t : Time) (d : Z) : Time := Unix (sec t) (nsec t + d).
Definition timeBefore (t u : Time) : bool := (sec t <? sec u) || ((sec t =? sec u) && (nsec t <? nsec u)).

(** A message of the consensus channel. *)
Inductive Msg :=
| MPart (m : Part.t)
| MProposal (m : Proposal.t)
| MPrevote (m : Prevote.t)
| MPrecommit (m : Precommit.t)
| MCrossShardProposal (m : CrossShardProposal.t)
| MCrossShardAccept (m : CrossShardAccept.t)
| MCrossShardCommit (m : CrossShardCommit.t).

Module Consensus.
(** The numbers that are logged when a height is finished: the inner transactions
    of the own block, those across shards that the status passes, and all of these. *)
Definition finishC (block : Block.t) (CommitStatus : bytes) : go (Z * Z * Z) :=
  let innerTxs := zlen (Body.BodyTxs (Block.Body block)) in
  let allTxs := zlen (CrossShardBody.CrossShardTxs (Block.CrossShardBody block)) in
  let! bv := BV.NewBitArrayFromByte CommitStatus in
  let! passTxs := BV.CountNoneZero bv in
  Ok (innerTxs, passTxs, allTxs).
Definition finishI (block : Block.t) : Z * Z * Z := (zlen (Body.BodyTxs (Block.Body block)), 0, 0).

Section consensus.
Context `{Hash, StdTime, BLS, ABCIConn, MempoolConn, DB, Env}.
Context `{!Codec pbBlock, !Codec pbProposal, !Codec pbVote, !Codec pbCrossShardAccept,
          !Codec pbCrossShardCommit, !Codec pbCrossShardProposal, !Codec pbPart, !Codec pbReceipt}.

(** ** State

    The fields that never change are in [Config]. *)
Record Config := mkConfig {
  signer : Signer; signerIndex : Z; MinBlockInterval : Z; MaxPartSize : Z; maxBlockTxNum : Z }.

(** What is known of the last and of the current block of the own chain. *)
Record ChainState := mkChain {
  LastBlockTime : Time;
  LastBlockHash : bytes; LastChainedHash : list bytes;
  LastRelatedCommitStatus : list bytes; LastCommitStatus : bytes;
  LastReceiptRoot : bytes; LastStateRoot : bytes;
  BlockHash : bytes; ChainedHash : list bytes;
  RelatedCommitStatus : list bytes; CommitStatus : bytes }.

(** The parts the state points to, the messages sent so far, and the number of
    readings of the environment. *)
Record World := mkWorld {
  abci : App; mempool : Pool; cross_shard_mempool : Pool; store : Database;
  outbox : list Sent; ticks : nat }.

Record t := mk {
  Height : Z; Round : Z; Step : Z;
  heightDatas : HeightData.t;
  relayMessageChannel : gmap Z (gmap Z (list Msg));
  chain : ChainState; world : World }.

Definition setStep (s : t) (st : Z) : t :=
  mk (Height s) (Round s) st (heightDatas s) (relayMessageChannel s) (chain s) (world s).
Definition setData (s : t) (h : HeightData.t) : t :=
  mk (Height s) (Round s) (Step s) h (relayMessageChannel s) (chain s) (world s).
Definition setRelay (s : t) (r : gmap Z (gmap Z (list Msg))) : t :=
  mk (Height s) (Round s) (Step s) (heightDatas s) r (chain s) (world s).
Definition setChain (s : t) (c : ChainState) : t :=
  mk (Height s) (Round s) (Step s) (heightDatas s) (relayMessageChannel s) c (world s).
Definition setWorld (s : t) (w : World) : t :=
  mk (Height s) (Round s) (Step s) (heightDatas s) (relayMessageChannel s) (chain s) w.

Definition setApp (s : t) (a : App) : t :=
  let w := world s in
  setWorld s (mkWorld a (mempool w) (cross_shard_mempool w) (store w) (outbox w) (ticks w)).
Definition setMempool (s : t) (p : Pool) : t :=
  let w := world s in
  setWorld s (mkWorld (abci w) p (cross_shard_mempool w) (store w) (outbox w) (ticks w)).
Definition setCrossMempool (s : t) (p : Pool) : t :=
  let w := world s in
  setWorld s (mkWorld (abci w) (mempool w) p (store w) (outbox w) (ticks w)).
Definition setStore (s : t) (d : Database) : t :=
  let w := world s in
  setWorld s (mkWorld (abci w) (mempool w) (cross_shard_mempool w) d (outbox w) (ticks w)).
Definition send (s : t) (l : list Sent) : t :=
  let w := world s in
  setWorld s (mkWorld (abci w) (mempool w) (cross_shard_mempool w) (store w) (outbox w ++ l) (ticks w)).
Definition tick (s : t) : t :=
  let w := world s in
  setWorld s (mkWorld (abci w) (mempool w) (cross_shard_mempool w) (store w) (outbox w) (S (ticks w))).

Definition setBlockHash (s : t) (hs : bytes) : t :=
  let c := chain s in
  setChain s (mkChain (LastBlockTime c) (LastBlockHash c) (LastChainedHash c)
    (LastRelatedCommitStatus c) (LastCommitStatus c) (LastReceiptRoot c) (LastStateRoot c) hs
    (ChainedHash c) (RelatedCommitStatus c) (CommitStatus c)).
Definition setLastBlockTime (s : t) (tm : Time) : t :=
  let c := chain s in
  setChain s (mkChain tm (LastBlockHash c) (LastChainedHash c)
    (LastRelatedCommitStatus c) (LastCommitStatus c) (LastReceiptRoot c) (LastStateRoot c)
    (BlockHash c) (ChainedHash c) (RelatedCommitStatus c) (CommitStatus c)).
Definition setChained (s : t) (hashes statuses : list bytes) : t :=
  let c := chain s in
  setChain s (mkChain (LastBlockTime c) (LastBlockHash c) (LastChainedHash c)
    (LastRelatedCommitStatus c) (LastCommitStatus c) (LastReceiptRoot c) (LastStateRoot c)
    (BlockHash c) hashes statuses (CommitStatus c)).
Definition setCommitStatus (s : t) (st : bytes) : t :=
  let c := chain s in
  setChain s (mkChain (LastBlockTime c) (LastBlockHash c) (LastChainedHash c)
    (LastRelatedCommitStatus c) (LastCommitStatus c) (LastReceiptRoot c) (LastStateRoot c)
    (BlockHash c) (ChainedHash c) (RelatedCommitStatus c) st).
Definition setRoots (s : t) (receiptRoot stateRoot : bytes) : t :=
  let c := chain s in
  setChain s (mkChain (LastBlockTime c) (LastBlockHash c) (LastChainedHash c)
    (LastRelatedCommitStatus c) (LastCommitStatus c) receiptRoot stateRoot
    (BlockHash c) (ChainedHash c) (RelatedCommitStatus c) (CommitStatus c)).

Definition myID (s : t) : string := HeightData.MyChainID (heightDatas s).
Definition myBlock (s : t) : option Block.t := HeightData.CrossShardBlocks (heightDatas s) !! myID s.
Definition IsIShard (s : t) : bool := HeightData.IsIShard (heightDatas s).
Definition IsCShard (s : t) : bool := HeightData.IsCShard (heightDatas s).

Variable cfg : Config.

Definition NewConsensusState (chain_id : string) (si : ShardInfo.t)
    (a : App) (mp cmp : Pool) (d : Database) : go t :=
  let! h := HeightData.NewHeightData chain_id 0 si in
  Ok (mk 0 0 RoundStepNewHeight h ∅
        (mkChain (Now 0) (Merkle.HashFromByteSlices []) [] [] [] (Merkle.HashFromByteSlices []) [] [] [] [] [])
        (mkWorld a mp cmp d [] 1)).

(** ** Proposer *)

(** [a % b] of Go panics on zero. *)
Definition goRem (a b : Z) : go Z := if b =? 0 then Panic else Ok (Z.rem a b).

Definition calculateProposer (s : t) : go Z :=
  let! val := deref (HeightData.AllValidatorSet (heightDatas s) !! myID s) in
  goRem (i64 (Height s + Round s)) (VerifierSize val).
Definition isProposer (s : t) : go bool :=
  let! p := calculateProposer s in Ok (p =? signerIndex cfg).

(** ** Sending

    The loops over the related shards send the same message to every shard;
    their order is not kept. *)
Definition SendTo (s : t) (shardID : string) (bz : bytes) (mtype : Z) : t :=
  send s [mkSent shardID ChannelIDConsensusState bz mtype].
Definition SendInternal (s : t) (bz : bytes) (mtype : Z) : t := SendTo s (myID s) bz mtype.
Definition SendToRelatedShards (s : t) (bz : bytes) (mtype : Z) : t :=
  send s (map (fun shard => mkSent shard ChannelIDConsensusState bz mtype)
            (HeightData.relatedKeys (heightDatas s))).
Definition SendTo2LevelRelatedShards (s : t) (bz : bytes) (mtype : Z) : t :=
  send s (map (fun shard => mkSent shard ChannelIDConsensusState bz mtype)
            (HeightData.related2Keys (heightDatas s))).

(** Sending every part of a set. *)
Definition sendParts (f : t -> bytes -> Z -> t) (s : t) (parts : list (option Part.t)) : go t :=
  go_foldl (fun s part =>
      let! part := deref part in
      let! bz := Part.ProtoBytes part in
      Ok (f s bz MsgPart)) s parts.

(** ** Early messages *)

Definition addRelayMessageIfOverTime (s : t) (height round : Z) (msg : Msg) : t * bool :=
  if (Height s <? height) || ((Height s =? height) && (Round s <? round)) then
    match relayMessageChannel s !! height with
    | Some u =>
        (setRelay s (<[height := <[round := default [] (u !! round) ++ [msg]]> u]> (relayMessageChannel s)),
         true)
    | None => (setRelay s (<[height := {[round := [msg]]}]> (relayMessageChannel s)), false)
    end
  else (s, false).

Definition Next (s : t) : t :=
  if Step s =? RoundStepCrossShardCommit then
    mk (i64 (Height s + 1)) 0 RoundStepNewHeight (heightDatas s)
      (delete (Height s) (relayMessageChannel s)) (chain s) (world s)
  else setStep s (i8 (Step s + 1)).

(** [Hash] on the block of a chain, which is hashed in place. *)
Definition hashBlock (s : t) (chain_id : string) : go (t * bytes) :=
  let! b := deref (HeightData.CrossShardBlocks (heightDatas s) !! chain_id) in
  let '(b, hs) := Block.Hash_ b in
  Ok (setData s (HeightData.setBlock (heightDatas s) chain_id b), hs).

(** ** The actions of the steps *)

(** C-shard validators other than the proposer check the pre-execution. *)
Definition checkPreExecution (s : t) (proposalBlock : Block.t) : go (t * Block.t) :=
  let! check := if IsCShard s then let! p := calculateProposer s in Ok (negb (p =? signerIndex cfg))
                else Ok false in
  if check then
    let! '(a, b, resp) := deref (PreExecutionC (abci (world s)) proposalBlock) in
    if negb (rcCode resp =? CodeTypeOK) ||
       negb (CompareBytesList (rcCrossShardDatas resp)
               (CrossShardBody.CrossShardDatas (Block.CrossShardBody b)))
    then Panic
    else Ok (setData (setApp s a) (HeightData.setBlock (heightDatas s) (myID s) b), b)
  else Ok (s, proposalBlock).

Definition doPropose (s : t) : go t :=
  let! proposalBlock := deref (myBlock s) in
  let! '(s, proposalBlock) := checkPreExecution s proposalBlock in
  if negb (bool_decide (LastReceiptRoot (chain s) = Header.ReceiptRoot (Block.Header proposalBlock)))
  then Panic
  else if negb (bool_decide (LastStateRoot (chain s) = Header.StateRoot (Block.Header proposalBlock)))
  then Panic
  else
    let! '(s, hs) := hashBlock s (myID s) in
    let s := setBlockHash s hs in
    let vote := Prevote.NewPrevote (Height s) (Round s) hs (signerIndex cfg) in
    let! sig := SignType (signer cfg) (Prevote.SignBytes vote) in
    let vote := Prevote.setSignature vote sig in
    let! '(h, _) := HeightData.AddPrevote (heightDatas s) vote in
    let s := setData s h in
    let! bz := Prevote.ProtoBytes vote in
    Ok (Next (SendInternal s bz TendermintPrevote)).

Definition doPrevote (s : t) : go t :=
  let vote := Precommit.NewPrecommit (Height s) (Round s) (BlockHash (chain s)) (signerIndex cfg) in
  let! sig := SignType (signer cfg) (Precommit.SignBytes vote) in
  let vote := Precommit.setSignature vote sig in
  let! '(h, _) := HeightData.AddPrecommit (heightDatas s) vote in
  let s := setData s h in
  let! bz := Precommit.ProtoBytes vote in
  Ok (Next (SendInternal s bz TendermintPrecommit)).

Definition ownPartSet (s : t) : go (t * PartSet.t) :=
  match HeightData.CrossShardPartSets (heightDatas s) !! myID s with
  | Some part_set => Ok (s, part_set)
  | None =>
      let! proposalBlock := deref (myBlock s) in
      let! '(b, part_set) := PartSet.PartSetFromBlock proposalBlock (MaxPartSize cfg) (Round s) in
      Ok (setData s (HeightData.setBlock (heightDatas s) (myID s) b), part_set)
  end.

Definition doPrecommit_I (s : t) : go t :=
  let! agg := HeightData.GenerateAggregatePrecommitSignature (heightDatas s) in
  let proposal := CrossShardProposal.NewCrossShardProposal agg ShardTypeI in
  let s := setData s (HeightData.setOwnCrossShardProposal (heightDatas s) proposal) in
  let! b := isProposer s in
  if b then
    let! bz := CrossShardProposal.ProtoBytes proposal in
    let s := SendToRelatedShards s bz TendermintCrossShardProposal in
    let! '(s, part_set) := ownPartSet s in
    sendParts SendToRelatedShards s (PartSet.Parts part_set)
  else Ok s.

(** The block without its inner transactions, as the related shards get it. *)
Definition strippedBlock (b : Block.t) : Block.t :=
  Block.mk (Block.Header b) (Body.mk []) (Block.CrossShardBody b) (Block.Relation b) [].

Definition withHeader (agg : PrecommitAggregated.t) (h : PartSetHeader.t) : PrecommitAggregated.t :=
  PrecommitAggregated.mk (PrecommitAggregated.VoteType agg) (PrecommitAggregated.Code agg)
    (PrecommitAggregated.ValidatorBitVector agg) h (PrecommitAggregated.BlockHeaderHash agg)
    (PrecommitAggregated.AggregatedSignatures agg).

Definition doPrecommit_C (s : t) : go t :=
  let! proposalBlock := deref (myBlock s) in
  let! '(_, part_set) := PartSet.PartSetFromBlock (strippedBlock proposalBlock) (MaxPartSize cfg) (Round s) in
  let! agg := HeightData.GenerateAggregatePrecommitSignature (heightDatas s) in
  let proposal := CrossShardProposal.NewCrossShardProposal
    (withHeader agg (PartSet.Header part_set)) ShardTypeC in
  let s := setData s (HeightData.setOwnCrossShardProposal (heightDatas s) proposal) in
  let! b := isProposer s in
  if b then
    let! bz := CrossShardProposal.ProtoBytes proposal in
    let s := SendToRelatedShards s bz TendermintCrossShardProposal in
    let s := SendTo2LevelRelatedShards s bz TendermintCrossShardProposal in
    sendParts (fun s bz mtype => SendTo2LevelRelatedShards (SendToRelatedShards s bz mtype) bz mtype) s
      (PartSet.Parts part_set)
  else Ok s.

Definition doPrecommit (s : t) : go t :=
  let! s := if IsIShard s then doPrecommit_I s else doPrecommit_C s in
  Ok (Next s).

(** The answer to one related shard. *)
Definition sendAccept (statuses : list bytes) (s : t) (i : Z) (shard : string) : go t :=
  let! '(s, hs) := hashBlock s shard in
  let! status := idx statuses i in
  let csa := CrossShardAccept.NewCrossShardAccept shard (myID s) (Height s) hs status (signerIndex cfg) in
  let! sig := SignType (signer cfg) (CrossShardAccept.SignBytes csa) in
  let csa := CrossShardAccept.setSignature csa sig in
  let! bz := CrossShardAccept.ProtoBytes csa in
  Ok (SendTo s shard bz TendermintCrossShardAccept).

Fixpoint sendAccepts (statuses : list bytes) (s : t) (i : Z) (shards : list string) : go t :=
  match shards with
  | [] => Ok s
  | shard :: shards =>
      let! s := sendAccept statuses s i shard in
      sendAccepts statuses s (i + 1) shards
  end.

Definition doCSA (s : t) : go t :=
  let relatedShards := sortShards (HeightData.relatedKeys (heightDatas s)) in
  let blocks := map (fun shard => HeightData.CrossShardBlocks (heightDatas s) !! shard) relatedShards in
  let! '(a, resp) := deref (PreExecutionI (abci (world s)) blocks) in
  let! s := sendAccepts (riCommitStatusVote resp) (setApp s a) 0 relatedShards in
  Ok (Next s).

Definition doCSP (s : t) : go t :=
  let! csc := HeightData.GenerateCrossShardCommit (heightDatas s) in
  let s := setData s (HeightData.setOwnCrossShardCommit (heightDatas s) csc) in
  let! b := isProposer s in
  let! s := if b then let! bz := CrossShardCommit.ProtoBytes csc in
                      Ok (SendToRelatedShards s bz TendermintCrossShardCommit)
            else Ok s in
  Ok (Next s).

(** ** Execution of the blocks of a height *)

(** The loop over the commit statuses of a shard. *)
Fixpoint combineStatuses (total : option BV.t) (statuses : list bytes) : go (option BV.t) :=
  match statuses with
  | [] => Ok total
  | status :: statuses =>
      let! bv := BV.NewBitArrayFromByte status in
      let! total := match total with None => Ok bv | Some _ => BV.And total bv end in
      combineStatuses total statuses
  end.

Definition commitStatusOf (s : t) (shard : string) : go (option BV.t) :=
  let! csc := deref (HeightData.CrossShardCommits (heightDatas s) !! shard) in
  combineStatuses None (CrossShardCommit.CommitStatusList csc).

Definition executionAllBlocks (s : t) (c_neighbours i_neighbours : list string) :
    go (t * ABCIExecutionResponse * list bytes) :=
  let block := fun shard => HeightData.CrossShardBlocks (heightDatas s) !! shard in
  let! commitStatuses := go_mapM (commitStatusOf s) c_neighbours in
  let! '(a, resp) := deref (Execution (abci (world s)) (map block c_neighbours) commitStatuses
                              (map block i_neighbours)) in
  Ok (setApp s a, resp, map BV.Byte commitStatuses).

Definition appendChained (s : t) (hs : bytes) : t :=
  setChained s (ChainedHash (chain s) ++ [hs]) (RelatedCommitStatus (chain s)).

(** The own block becomes the last block. *)
Definition finishOwnBlock (s : t) : go t :=
  let! '(s, hs) := hashBlock s (myID s) in
  let! block := deref (myBlock s) in
  Ok (setLastBlockTime (setBlockHash s hs) (Header.Time (Block.Header block))).

Definition chainRelated (s : t) (x : string * bytes) : go t :=
  let '(cshard, status) := x in
  let s := setChained s (ChainedHash (chain s)) (RelatedCommitStatus (chain s) ++ [status]) in
  let! '(s, hs) := hashBlock s cshard in
  Ok (appendChained s hs).

Definition chainC (s : t) (x : string * bytes) : go t :=
  if bool_decide (fst x = myID s) then finishOwnBlock (setCommitStatus s (snd x))
  else chainRelated s x.

Definition chainI (s : t) (ishard : string) : go t :=
  if bool_decide (ishard = myID s) then Ok s
  else let! '(s, hs) := hashBlock s ishard in Ok (appendChained s hs).

(** The receipts of the own chain, whose tree root goes into the next block. *)
Definition receiptRoot (receipts : list Receipt.t) : go bytes :=
  let! receiptTree := go_mapM Receipt.ProtoBytes receipts in
  Ok (fst (Merkle.ProofsFromByteSlices receiptTree)).

Definition receiptsOf (m : gmap string (list Receipt.t)) (chain_id : string) : list Receipt.t :=
  default [] (m !! chain_id).

Definition commitApp (s : t) (root : bytes) : t :=
  let '(a, stateRoot) := AppCommit (abci (world s)) in
  setRoots (setApp s a) root stateRoot.

Definition storeBlock (s : t) (height : Z) (chain_id : string) (shard : string) : go t :=
  let! '(s, hs) := hashBlock s shard in
  let! block := deref (HeightData.CrossShardBlocks (heightDatas s) !! shard) in
  let! '(d, _) := PrefixStore.SetBlockByHeight (store (world s)) height chain_id
                    (mkStored hs (Block.ProtoBytes block)) in
  Ok (setStore s d).

(** Under its own height and chain. *)
Definition storeShard (s : t) (shard : string) : go t :=
  let! block := deref (HeightData.CrossShardBlocks (heightDatas s) !! shard) in
  storeBlock s (Header.Height (Block.Header block)) (Header.ChainID (Block.Header block)) shard.

Definition updateMempool (s : t) (txs : Txs.t) : go t :=
  let! '(p, _) := deref (Update (mempool (world s)) txs []) in Ok (setMempool s p).
Definition updateCrossMempool (s : t) (txs : Txs.t) (status : bytes) : go t :=
  let! '(p, _) := deref (Update (cross_shard_mempool (world s)) txs status) in Ok (setCrossMempool s p).

(** Up to the new height. *)
Definition doCSC_C (s : t) : go t :=
  let my := myID s in
  let c_neighbours := sortShards (my :: HeightData.related2Keys (heightDatas s)) in
  let i_neighbours := my :: rangeOrder (ticks (world s)) (HeightData.relatedKeys (heightDatas s)) in
  let! '(s, resp, commitStatus) := executionAllBlocks (tick s) c_neighbours i_neighbours in
  let! s := go_foldl chainC (setChained s [] []) (combine c_neighbours commitStatus) in
  let! s := go_foldl chainI s i_neighbours in
  let! root := receiptRoot (receiptsOf (CrossShardResps resp) my ++ receiptsOf (InnerShardResps resp) my) in
  let s := commitApp s root in
  let! s := go_foldl storeShard s c_neighbours in
  let! s := go_foldl storeShard s i_neighbours in
  let! block := deref (myBlock s) in
  let! s := updateMempool s (Body.BodyTxs (Block.Body block)) in
  let! s := updateCrossMempool s (CrossShardBody.CrossShardTxs (Block.CrossShardBody block))
              (CommitStatus (chain s)) in
  let! _ := finishC block (CommitStatus (chain s)) in
  Ok s.

Definition doCSC_I (s : t) : go t :=
  let my := myID s in
  let c_neighbours := sortShards (HeightData.relatedKeys (heightDatas s)) in
  let! '(s, resp, commitStatus) := executionAllBlocks s c_neighbours [my] in
  let! s := go_foldl chainRelated (setChained s [] []) (combine c_neighbours commitStatus) in
  let! s := finishOwnBlock (setCommitStatus s []) in
  let! root := receiptRoot (receiptsOf (InnerShardResps resp) my) in
  let s := commitApp s root in
  let! s := storeBlock s (Height s) my my in
  let! s := go_foldl storeShard s c_neighbours in
  let! block := deref (myBlock s) in
  updateMempool s (Body.BodyTxs (Block.Body block)).

(** ** A new height *)

Definition createHeader (s : t) (time : Time) : Header.t :=
  Header.mk (if IsCShard s then BLOCKTYPE_C else BLOCKTYPE_I) (LastBlockHash (chain s)) (myID s) (Height s)
    time [] [] (LastStateRoot (chain s)) (LastReceiptRoot (chain s)) [].

Definition createRelation (s : t) : Relation.t :=
  Relation.mk (LastRelatedCommitStatus (chain s)) (LastChainedHash (chain s)) (LastCommitStatus (chain s)).

(** A failing mempool is a panic. *)
Definition reap (p : Pool) (maxTxs : Z) : go (Txs.t * Z) :=
  let! '(txs, n, err) := deref (ReapTx p maxTxs) in
  match err with Some _ => Panic | None => Ok (txs, n) end.

(** The inner and the cross-shard transactions of the next block. *)
Definition reapBlock (s : t) : go (Txs.t * Txs.t) :=
  if IsCShard s then
    let! '(innerTxs, innerTxsSize) := reap (mempool (world s)) (Z.quot (maxBlockTxNum cfg) 2) in
    let! '(crossShardTxs, _) :=
      reap (cross_shard_mempool (world s)) (i64 (maxBlockTxNum cfg - innerTxsSize)) in
    Ok (innerTxs, crossShardTxs)
  else
    let! '(innerTxs, _) := reap (mempool (world s)) (maxBlockTxNum cfg) in
    Ok (innerTxs, []).

(** Not before the minimal interval after the last block. *)
Definition blockTime (s : t) : Time :=
  let interval_dst := timeAdd (LastBlockTime (chain s)) (MinBlockInterval cfg) in
  let now := Now (ticks (world s)) in
  if timeBefore now interval_dst then interval_dst else now.

Definition setDatas (b : Block.t) (datas : list bytes) : Block.t :=
  Block.mk (Block.Header b) (Block.Body b)
    (CrossShardBody.mk (CrossShardBody.CrossShardTxs (Block.CrossShardBody b)) datas)
    (Block.Relation b) (Block.blockhash b).

(** The block of the next height; a C-shard pre-executes it. *)
Definition createBlock (s : t) : go (t * Block.t) :=
  let! '(innerTxs, crossShardTxs) := reapBlock s in
  let block := Block.mk (createHeader s (blockTime s)) (Body.mk innerTxs)
    (CrossShardBody.mk crossShardTxs []) (createRelation s) [] in
  let s := tick s in
  if IsCShard s then
    let! '(a, block, resp) := deref (PreExecutionC (abci (world s)) block) in
    Ok (setApp s a, setDatas block (rcCrossShardDatas resp))
  else Ok (s, block).

Definition createBlockAndBroadcast (s : t) : go t :=
  let! '(s, block) := createBlock s in
  let! '(block, part_set) := PartSet.PartSetFromBlock block (MaxPartSize cfg) (Round s) in
  let proposal := Proposal.NewProposal (PartSet.Header part_set) (signerIndex cfg)
    (PartSet.BlockHeaderHash part_set) in
  let! sig := SignType (signer cfg) (Proposal.SignBytes proposal) in
  let proposal := Proposal.setSignature proposal sig in
  let s := setData s (HeightData.setOwnProposal (heightDatas s) block part_set proposal) in
  let! bz := Proposal.ProtoBytes proposal in
  sendParts SendInternal (SendInternal s bz TendermintProposal) (PartSet.Parts part_set).

(** [doMessage] handles the messages that came too early. *)
Definition enterNewRound (doMessage : t -> Msg -> go (t * option goerr)) (s : t) : go t :=
  let s := setStep s RoundStepPropose in
  let! b := isProposer s in
  let! s := if b then createBlockAndBroadcast s else Ok s in
  match relayMessageChannel s !! Height s with
  | None => Ok s
  | Some relay_height =>
      match relay_height !! Round s with
      | None => Ok s
      | Some relayRound =>
          go_foldl (fun s msg => let! '(s, _) := doMessage s msg in Ok s) s relayRound
      end
  end.

(** The current block becomes the last one. *)
Definition rollChain (s : t) : t :=
  let c := chain s in
  setChain s (mkChain (LastBlockTime c) (BlockHash c) (ChainedHash c) (RelatedCommitStatus c)
    (CommitStatus c) (LastReceiptRoot c) (LastStateRoot c) (BlockHash c) (ChainedHash c)
    (RelatedCommitStatus c) (CommitStatus c)).

Definition enterNewHeight (doMessage : t -> Msg -> go (t * option goerr)) (s : t) : go t :=
  let s := rollChain (Next (setStep s RoundStepCrossShardCommit)) in
  let! h := HeightData.NextHeight (heightDatas s) in
  enterNewRound doMessage (setData s h).

(** ** Messages and state transitions *)

Definition msgHeight (m : Msg) : Z :=
  match m with
  | MPart m => Part.Height m
  | MProposal m => PartSetHeader.Height (Proposal.Header m)
  | MPrevote m => Prevote.Height m
  | MPrecommit m => Precommit.Height m
  | MCrossShardProposal m =>
      PartSetHeader.Height (PrecommitAggregated.Header (CrossShardProposal.AggregatedSignatures m))
  | MCrossShardAccept m => CrossShardAccept.Height m
  | MCrossShardCommit m => CrossShardCommit.Height m
  end.
Definition msgRound (m : Msg) : Z :=
  match m with
  | MPart m => Part.Round m
  | MProposal m => PartSetHeader.Round (Proposal.Header m)
  | MPrevote m => Prevote.Round m
  | MPrecommit m => Precommit.Round m
  | _ => 0
  end.

Definition noSent (r : go (HeightData.t * option goerr)) : go (HeightData.t * list Sent * option goerr) :=
  let! '(h, err) := r in Ok (h, [], err).

(** The message is given to the package of the height. *)
Definition addToHeight (s : t) (m : Msg) : go (HeightData.t * list Sent * option goerr) :=
  let h := heightDatas s in
  match m with
  | MPart m => noSent (HeightData.AddPart h m)
  | MProposal m => let! p := calculateProposer s in noSent (HeightData.AddProposal h m p)
  | MPrevote m => noSent (HeightData.AddPrevote h m)
  | MPrecommit m => noSent (HeightData.AddPrecommit h m)
  | MCrossShardProposal m => noSent (HeightData.AddCrossShardProposal h m)
  | MCrossShardAccept m => noSent (HeightData.AddCrossShardAccept h m)
  | MCrossShardCommit m => HeightData.AddCrossShardCommit h m
  end.

(** [doMessage] up to the state transition: [Some err] is an early return. *)
Definition addMessage (s : t) (m : Msg) : go (t * option (option goerr)) :=
  let '(s, relayed) := addRelayMessageIfOverTime s (msgHeight m) (msgRound m) m in
  if relayed then Ok (s, Some None)
  else
    let! '(h, sent, err) := addToHeight s m in
    let s := send (setData s h) sent in
    match err with
    | Some DoNothing => Ok (s, Some None)
    | Some err => Ok (s, Some (Some err))
    | None => Ok (s, None)
    end.

(** One round of [handleStateTransition]: it waits, goes on with the next step,
    or has executed the blocks and enters the next height. *)
Inductive outcome := Waiting | Stepped | Finished.

Definition finish (f : HeightData.t -> HeightData.t * bool) (s : t) : t * bool :=
  let '(h, b) := f (heightDatas s) in (setData s h, b).

(** The checks of an I-shard and of a C-shard, the second only when the first
    one fails. *)
Definition finishIC (f g : HeightData.t -> HeightData.t * bool) (s : t) : t * bool * bool :=
  let '(s, i) := if IsIShard s then finish f s else (s, false) in
  if i then (s, true, false)
  else let '(s, c) := if IsCShard s then finish g s else (s, false) in (s, false, c).

Definition stepWith (b : bool) (o : outcome) (m : go t) (s : t) : go (t * outcome) :=
  if b then let! s := m in Ok (s, o) else Ok (s, Waiting).

Definition transition (s : t) : go (t * outcome) :=
  if Step s =? RoundStepPropose then
    let '(s, b) := finish HeightData.FinishProposal s in stepWith b Stepped (doPropose s) s
  else if Step s =? RoundStepPrevote then
    let '(s, b) := finish HeightData.FinishPrevote s in stepWith b Stepped (doPrevote s) s
  else if Step s =? RoundStepPrecommit then
    let '(s, b) := finish HeightData.FinishPrecommit s in stepWith b Stepped (doPrecommit s) s
  else if Step s =? RoundStepCrossShardAccept then
    let '(s, i, c) := finishIC HeightData.FinishCrossShardAccept HeightData.FinishCrossShardProposal s in
    if i then stepWith true Stepped (doCSA s) s else stepWith c Stepped (doCSP s) s
  else if Step s =? RoundStepCrossShardCommit then
    let '(s, i, c) := finishIC HeightData.FinishCrossShardCommit_I HeightData.FinishCrossShardCommit_B s in
    if i then stepWith true Finished (doCSC_I s) s else stepWith c Finished (doCSC_C s) s
  else Ok (s, Stepped).

(** The two functions call each other; the fuel bounds the depth of the calls. *)
Fixpoint doMessage (fuel : nat) (s : t) (m : Msg) {struct fuel} : go (t * option goerr) :=
  match fuel with
  | O => OutOfFuel
  | S fuel =>
      let! '(s, r) := addMessage s m in
      match r with
      | Some err => Ok (s, err)
      | None => let! s := handleStateTransition fuel s in Ok (s, None)
      end
  end
with handleStateTransition (fuel : nat) (s : t) {struct fuel} : go t :=
  match fuel with
  | O => OutOfFuel
  | S fuel =>
      let! '(s, o) := transition s in
      match o with
      | Waiting => Ok s
      | Stepped => handleStateTransition fuel s
      | Finished => let! s := enterNewHeight (doMessage fuel) s in handleStateTransition fuel s
      end
  end.

Definition Start (fuel : nat) (s : t) : go t :=
  if Height s =? 0 then enterNewHeight (doMessage fuel) s else handleStateTransition fuel s.

(** ** Receiving *)

(** A message is read, checked and handled; the first function is the
    constructor that reads the bytes. *)
Definition receiveWith {A} (fuel : nat) (s : t) (m : go (option A)) (name : string)
    (validate : A -> go (option goerr)) (msg : A -> Msg) : go (t * option goerr) :=
  let! m := m in
  match m with
  | None => Ok (s, Some (Errorf name))
  | Some m =>
      let! err := validate m in
      match err with
      | Some err => Ok (s, Some err)
      | None => doMessage fuel s (msg m)
      end
  end.

Definition Receive (fuel : nat) (s : t) (channel_id : Z) (bz : bytes) (mtype : Z) : go (t * option goerr) :=
  if mtype =? MsgPart then
    receiveWith fuel s (Part.NewPartFromBytes bz) "Part Unmarshal Error" Part.ValidateBasic MPart
  else if mtype =? TendermintProposal then
    receiveWith fuel s (Proposal.NewProposalFromBytes bz) "Proposal Unmarshal Error"
      (fun m => Ok (Proposal.ValidateBasic m)) MProposal
  else if mtype =? TendermintPrevote then
    receiveWith fuel s (Ok (Prevote.NewPrevoteFromBytes bz)) "Prevote Unmarshal Error"
      (fun m => Ok (Prevote.ValidateBasic m)) MPrevote
  else if mtype =? TendermintPrecommit then
    receiveWith fuel s (Ok (Precommit.NewPrecommitFromBytes bz)) "Precommit Unmarshal Error"
      (fun m => Ok (Precommit.ValidateBasic m)) MPrecommit
  else if mtype =? TendermintCrossShardProposal then
    receiveWith fuel s (CrossShardProposal.NewCrossShardProposalFromBytes bz)
      "CrossShardProposal Unmarshal Error"
      (fun m => Ok (CrossShardProposal.ValidateBasic m)) MCrossShardProposal
  else if mtype =? TendermintCrossShardAccept then
    if IsIShard s then Ok (s, Some (Errorf "I-shard received CrossShardAcceptmessage. Is it a problem?"))
    else receiveWith fuel s (Ok (CrossShardAccept.NewCrossShardAcceptFromBytes bz))
           "CrossShardAccept Unmarshal Error"
           (fun m => Ok (CrossShardAccept.ValidateBasic m)) MCrossShardAccept
  else if mtype =? TendermintCrossShardCommit then
    receiveWith fuel s (CrossShardCommit.NewCrossShardCommitFromBytes bz)
      "CrossShardCommit Unmarshal Error"
      (fun m => Ok (CrossShardCommit.ValidateBasic m)) MCrossShardCommit
  else Ok (s, Some (Errorf "Tendermint.ConsensusState: Unrecognized message type")).
End consensus. End Consensus.
