(* ===== verification/ConsensusSafety.v ===== *)
(** * Safety of the consensus state machine

    What every run of [Consensus] keeps: the package of the height is one of
    the reachable packages of [HeightData], and the node votes at most once for
    every height. *)

From S2P Require Import Prelude BitVector Convert Hash Merkle Wire Types.
From S2P Require Import PartSet Signer Votes CSASet ShardInfo HeightData Store Codecs Consensus.
Import Consensus.
Local Open Scope Z_scope.

(** The votes of one kind among the messages sent. *)
Definition voteSends `{Codec pbVote} (ty : Z) (l : list Sent) : list pbVote :=
  omap (fun e => if messageType e =? ty then Unmarshal (content e) else None) l.

(** What the code relies on of the application: pre-execution does at most hash
    the block. *)
Class ABCILaws `{Hash, StdTime, ABCIConn} : Prop := {
  PreExecutionC_block a b a' b' r :
    PreExecutionC a b = Some (a', b', r) -> b' = b \/ b' = fst (Block.Hash_ b)
}.

Section safety.
Context `{Hash, StdTime, BLS, ABCIConn, MempoolConn, DB, Env, !ABCILaws}.
Context `{!Codec pbBlock, !Codec pbProposal, !Codec pbVote, !Codec pbCrossShardAccept,
          !Codec pbCrossShardCommit, !Codec pbCrossShardProposal, !Codec pbPart, !Codec pbReceipt}.
Variable cfg : Config.

Definition out (s : t) : list Sent := outbox (world s).
Definition sentVotes (ty : Z) (s : t) : list pbVote := voteSends ty (out s).

Lemma voteSends_app ty l k : voteSends ty (l ++ k) = voteSends ty l ++ voteSends ty k.
Proof. apply omap_app. Qed.

(** ** Steps that send no vote

    They leave the height, the step and the relayed messages alone, and with
    [k] the hash of the current block too. *)
Definition noVote (l : list Sent) : Prop :=
  voteSends TendermintPrevote l = [] /\ voteSends TendermintPrecommit l = [].

Record frame (k : bool) (s s' : t) : Prop := {
  f_height : Height s' = Height s;
  f_round : Round s' = Round s;
  f_step : Step s' = Step s;
  f_relay : relayMessageChannel s' = relayMessageChannel s;
  f_data : rtc HeightData.step (heightDatas s) (heightDatas s');
  f_block : k = true -> BlockHash (chain s') = BlockHash (chain s);
  f_out : exists l, out s' = out s ++ l /\ noVote l
}.

#[local] Instance frame_preorder k : PreOrder (frame k).
Proof.
  split.
  - intros s. split; try done. exists []. by rewrite app_nil_r.
  - intros s1 s2 s3 [E1 E2 E3 E4 E5 E7 (l & E6 & N1 & N2)] [F1 F2 F3 F4 F5 F7 (k' & F6 & M1 & M2)].
    split; try congruence; [by etransitivity|intros Hk; rewrite F7, E7; done|]. exists (l ++ k').
    rewrite F6, E6, app_assoc. split; [done|]. unfold noVote. rewrite !voteSends_app. by rewrite N1, N2.
Qed.

Lemma frame_chain s c : frame false s (setChain s c).
Proof. split; try done. exists []. by rewrite app_nil_r. Qed.

Lemma frame_data k s h : HeightData.step (heightDatas s) h -> frame k s (setData s h).
Proof. split; try done; [by apply rtc_once|]. exists []. by rewrite app_nil_r. Qed.

(** The world without new messages. *)
Lemma frame_world k s w : outbox w = out s -> frame k s (setWorld s w).
Proof. intros E. split; try done. exists []. by rewrite app_nil_r. Qed.

Lemma frame_send k s l : noVote l -> frame k s (send s l).
Proof. split; try done. by exists l. Qed.

Definition quiet (mtype : Z) : Prop := mtype <> TendermintPrevote /\ mtype <> TendermintPrecommit.

Lemma voteSends_other ty mtype bz shards : mtype <> ty ->
  voteSends ty (map (fun shard => mkSent shard ChannelIDConsensusState bz mtype) shards) = [].
Proof.
  intros Hne. apply Z.eqb_neq in Hne. unfold voteSends. induction shards as [|x l IH]; [done|].
  simpl. by rewrite Hne.
Qed.

Lemma noVote_same mtype bz shards : quiet mtype ->
  noVote (map (fun shard => mkSent shard ChannelIDConsensusState bz mtype) shards).
Proof. intros [? ?]. by split; apply voteSends_other. Qed.

Lemma frame_related k s bz mtype : quiet mtype -> frame k s (SendToRelatedShards s bz mtype).
Proof. intros Hq. by apply frame_send, noVote_same. Qed.
Lemma frame_related2 k s bz mtype : quiet mtype -> frame k s (SendTo2LevelRelatedShards s bz mtype).
Proof. intros Hq. by apply frame_send, noVote_same. Qed.
Lemma frame_to k s shard bz mtype : quiet mtype -> frame k s (SendTo s shard bz mtype).
Proof. intros Hq. apply frame_send. by apply (noVote_same mtype bz [shard]). Qed.

Lemma quiet_part : quiet MsgPart. Proof. done. Qed.
Lemma quiet_proposal : quiet TendermintProposal. Proof. done. Qed.
Lemma quiet_csp : quiet TendermintCrossShardProposal. Proof. done. Qed.
Lemma quiet_csa : quiet TendermintCrossShardAccept. Proof. done. Qed.
Lemma quiet_csc : quiet TendermintCrossShardCommit. Proof. done. Qed.

Lemma hashBlock_frame k s cid s' hs : hashBlock s cid = Ok (s', hs) -> frame k s s'.
Proof.
  unfold hashBlock. intros E. apply gbind_Ok in E as (b & _ & E).
  destruct (Block.Hash_ b) as [b' h]. injection E as <- _. apply frame_data, HeightData.StepBlock.
Qed.

Lemma go_foldl_frame k {A} (f : t -> A -> go t) s l s' :
  (forall s a s', f s a = Ok s' -> frame k s s') -> go_foldl f s l = Ok s' -> frame k s s'.
Proof.
  intros Hf. apply (go_foldl_invariant f (frame k s)); [|reflexivity].
  intros s1 a s2 _ H1' E. etransitivity; [exact H1'|by eapply Hf].
Qed.

Lemma sendParts_frame k f s parts s' :
  (forall s bz, frame k s (f s bz MsgPart)) -> sendParts f s parts = Ok s' -> frame k s s'.
Proof.
  intros Hf. apply go_foldl_frame. intros s1 part s2 E.
  apply gbind_Ok in E as (p & _ & E). apply gbind_Ok in E as (bz & _ & E). injection E as <-. apply Hf.
Qed.

Lemma frame_weaken s s' k : frame k s s' -> frame false s s'.
Proof. intros []. by split. Qed.

Lemma checkPreExecution_frame k s b s' b' :
  checkPreExecution cfg s b = Ok (s', b') -> frame k s s'.
Proof.
  unfold checkPreExecution. intros E. apply gbind_Ok in E as (check & _ & E).
  destruct check; [|injection E as <- _; reflexivity].
  apply gbind_Ok in E as ([[a b1] r] & _ & E). destruct (_ || _); [done|]. injection E as <- _.
  etransitivity; [apply (frame_world k s (world (setApp s a))); reflexivity|].
  apply (frame_data k (setApp s a)), HeightData.StepBlock.
Qed.

Lemma ownPartSet_frame k s s' ps : ownPartSet cfg s = Ok (s', ps) -> frame k s s'.
Proof.
  unfold ownPartSet. destruct (_ !! _) as [ps0|]; [intros [= <- _]; reflexivity|]. intros E.
  apply gbind_Ok in E as (b & _ & E). apply gbind_Ok in E as ([b1 ps1] & _ & E). injection E as <- _.
  apply frame_data, HeightData.StepBlock.
Qed.

Lemma doPrecommit_I_frame k s s' : doPrecommit_I cfg s = Ok s' -> frame k s s'.
Proof.
  unfold doPrecommit_I. intros E. apply gbind_Ok in E as (agg & _ & E). apply gbind_Ok in E as (b & _ & E).
  etransitivity; [apply frame_data, HeightData.StepOwnCrossShardProposal|].
  destruct b; [|injection E as <-; reflexivity].
  apply gbind_Ok in E as (bz & _ & E). apply gbind_Ok in E as ([s1 ps] & E1 & E).
  etransitivity; [|eapply sendParts_frame, E; intros; apply frame_related, quiet_part].
  etransitivity; [|eapply ownPartSet_frame, E1]. apply frame_related, quiet_csp.
Qed.

Lemma doPrecommit_C_frame k s s' : doPrecommit_C cfg s = Ok s' -> frame k s s'.
Proof.
  unfold doPrecommit_C. intros E. apply gbind_Ok in E as (b0 & _ & E).
  apply gbind_Ok in E as ([b1 ps] & _ & E). apply gbind_Ok in E as (agg & _ & E).
  apply gbind_Ok in E as (b & _ & E).
  etransitivity; [apply frame_data, HeightData.StepOwnCrossShardProposal|].
  destruct b; [|injection E as <-; reflexivity].
  apply gbind_Ok in E as (bz & _ & E).
  etransitivity; [|eapply sendParts_frame, E; intros;
    etransitivity; [apply frame_related|apply frame_related2]; apply quiet_part].
  etransitivity; [apply frame_related|apply frame_related2]; apply quiet_csp.
Qed.

Lemma sendAccepts_frame k statuses s i shards s' :
  sendAccepts cfg statuses s i shards = Ok s' -> frame k s s'.
Proof.
  revert s i. induction shards as [|shard shards IH]; intros s i; cbn [sendAccepts]; [intros [= <-]; reflexivity|].
  intros E. apply gbind_Ok in E as (s1 & E1 & E). etransitivity; [|by eapply IH].
  unfold sendAccept in E1. apply gbind_Ok in E1 as ([s2 hs] & E2 & E1).
  apply gbind_Ok in E1 as (st & _ & E1). apply gbind_Ok in E1 as (sig & _ & E1).
  apply gbind_Ok in E1 as (bz & _ & E1). injection E1 as <-.
  etransitivity; [by eapply hashBlock_frame|]. apply frame_to, quiet_csa.
Qed.

(** ** The actions and their step *)

Lemma doPrecommit_spec k s s' : doPrecommit cfg s = Ok s' -> exists s1, frame k s s1 /\ s' = Next s1.
Proof.
  unfold doPrecommit. intros E. apply gbind_Ok in E as (s1 & E1 & E). injection E as <-. exists s1.
  split; [|done]. destruct (IsIShard s); [by apply doPrecommit_I_frame|by apply doPrecommit_C_frame].
Qed.

Lemma doCSA_spec k s s' : doCSA cfg s = Ok s' -> exists s1, frame k s s1 /\ s' = Next s1.
Proof.
  unfold doCSA. intros E. apply gbind_Ok in E as ([a r] & _ & E). apply gbind_Ok in E as (s1 & E1 & E).
  injection E as <-. exists s1. split; [|done].
  etransitivity; [apply (frame_world k s (world (setApp s a))); reflexivity|].
  by eapply sendAccepts_frame.
Qed.

Lemma doCSP_spec k s s' : doCSP cfg s = Ok s' -> exists s1, frame k s s1 /\ s' = Next s1.
Proof.
  unfold doCSP. intros E. apply gbind_Ok in E as (csc & _ & E). apply gbind_Ok in E as (b & _ & E).
  apply gbind_Ok in E as (s1 & E1 & E). injection E as <-. exists s1. split; [|done].
  etransitivity; [apply frame_data, HeightData.StepOwnCrossShardCommit|].
  destruct b; [|injection E1 as <-; reflexivity]. apply gbind_Ok in E1 as (bz & _ & E1). injection E1 as <-.
  apply frame_related, quiet_csc.
Qed.

(** ** The execution of the blocks *)

Lemma executionAllBlocks_frame k s cs js s' resp sts :
  executionAllBlocks s cs js = Ok (s', resp, sts) -> frame k s s'.
Proof.
  unfold executionAllBlocks. intros E. apply gbind_Ok in E as (bvs & _ & E).
  apply gbind_Ok in E as ([a r] & _ & E). injection E as <- _ _. by apply frame_world.
Qed.

Lemma finishOwnBlock_frame s s' : finishOwnBlock s = Ok s' -> frame false s s'.
Proof.
  unfold finishOwnBlock. intros E. apply gbind_Ok in E as ([s1 hs] & E1 & E).
  apply gbind_Ok in E as (b & _ & E). injection E as <-.
  etransitivity; [by eapply hashBlock_frame|]. etransitivity; apply frame_chain.
Qed.

Lemma chainRelated_frame s x s' : chainRelated s x = Ok s' -> frame false s s'.
Proof.
  unfold chainRelated. destruct x as [shard status]. intros E.
  apply gbind_Ok in E as ([s1 hs] & E1 & E). injection E as <-.
  etransitivity; [|apply frame_chain]. etransitivity; [|by eapply hashBlock_frame]. apply frame_chain.
Qed.

Lemma chainC_frame s x s' : chainC s x = Ok s' -> frame false s s'.
Proof.
  unfold chainC. destruct (bool_decide _); [|apply chainRelated_frame].
  intros E%finishOwnBlock_frame. etransitivity; [|exact E]. apply frame_chain.
Qed.

Lemma chainI_frame s shard s' : chainI s shard = Ok s' -> frame false s s'.
Proof.
  unfold chainI. destruct (bool_decide _); [intros [= <-]; reflexivity|]. intros E.
  apply gbind_Ok in E as ([s1 hs] & E1 & E). injection E as <-.
  etransitivity; [by eapply hashBlock_frame|apply frame_chain].
Qed.

Lemma commitApp_frame s root : frame false s (commitApp s root).
Proof.
  unfold commitApp. destruct (AppCommit _) as [a r].
  etransitivity; [apply (frame_world false s (world (setApp s a))); reflexivity|]. apply frame_chain.
Qed.

Lemma storeBlock_frame k s height cid shard s' : storeBlock s height cid shard = Ok s' -> frame k s s'.
Proof.
  unfold storeBlock. intros E. apply gbind_Ok in E as ([s1 hs] & E1 & E).
  apply gbind_Ok in E as (b & _ & E). apply gbind_Ok in E as ([d e] & _ & E). injection E as <-.
  etransitivity; [by eapply hashBlock_frame|]. by apply frame_world.
Qed.

Lemma storeShard_frame k s shard s' : storeShard s shard = Ok s' -> frame k s s'.
Proof. unfold storeShard. intros E. apply gbind_Ok in E as (b & _ & E). by eapply storeBlock_frame. Qed.

Lemma updateMempool_frame k s txs s' : updateMempool s txs = Ok s' -> frame k s s'.
Proof.
  unfold updateMempool. intros E. apply gbind_Ok in E as ([p e] & _ & E). injection E as <-.
  by apply frame_world.
Qed.

Lemma updateCrossMempool_frame k s txs st s' : updateCrossMempool s txs st = Ok s' -> frame k s s'.
Proof.
  unfold updateCrossMempool. intros E. apply gbind_Ok in E as ([p e] & _ & E). injection E as <-.
  by apply frame_world.
Qed.

Lemma doCSC_C_frame s s' : doCSC_C s = Ok s' -> frame false s s'.
Proof.
  unfold doCSC_C. intros E. apply gbind_Ok in E as ([[s1 resp] sts] & E1 & E).
  apply gbind_Ok in E as (s2 & E2 & E). apply gbind_Ok in E as (s3 & E3 & E).
  apply gbind_Ok in E as (root & _ & E). apply gbind_Ok in E as (s4 & E4 & E).
  apply gbind_Ok in E as (s5 & E5 & E). apply gbind_Ok in E as (b & _ & E).
  apply gbind_Ok in E as (s6 & E6 & E). apply gbind_Ok in E as (s7 & E7 & E).
  apply gbind_Ok in E as (n & _ & E). injection E as <-.
  apply executionAllBlocks_frame with (k := false) in E1.
  apply go_foldl_frame with (k := false) in E2; [|exact chainC_frame].
  apply go_foldl_frame with (k := false) in E3; [|exact chainI_frame].
  apply go_foldl_frame with (k := false) in E4; [|intros; by eapply storeShard_frame].
  apply go_foldl_frame with (k := false) in E5; [|intros; by eapply storeShard_frame].
  apply updateMempool_frame with (k := false) in E6. apply updateCrossMempool_frame with (k := false) in E7.
  transitivity (tick s); [by apply (frame_world false s (world (tick s)))|].
  etransitivity; [exact E1|]. etransitivity; [apply frame_chain|]. etransitivity; [exact E2|].
  etransitivity; [exact E3|]. etransitivity; [apply commitApp_frame|]. etransitivity; [exact E4|].
  etransitivity; [exact E5|]. etransitivity; [exact E6|exact E7].
Qed.

Lemma doCSC_I_frame s s' : doCSC_I s = Ok s' -> frame false s s'.
Proof.
  unfold doCSC_I. intros E. apply gbind_Ok in E as ([[s1 resp] sts] & E1 & E).
  apply gbind_Ok in E as (s2 & E2 & E). apply gbind_Ok in E as (s3 & E3 & E).
  apply gbind_Ok in E as (root & _ & E). apply gbind_Ok in E as (s4 & E4 & E).
  apply gbind_Ok in E as (s5 & E5 & E). apply gbind_Ok in E as (b & _ & E).
  apply executionAllBlocks_frame with (k := false) in E1.
  apply go_foldl_frame with (k := false) in E2; [|exact chainRelated_frame].
  apply finishOwnBlock_frame in E3. apply storeBlock_frame with (k := false) in E4.
  apply go_foldl_frame with (k := false) in E5; [|intros; by eapply storeShard_frame].
  apply updateMempool_frame with (k := false) in E.
  etransitivity; [exact E1|]. etransitivity; [apply frame_chain|]. etransitivity; [exact E2|].
  etransitivity; [apply frame_chain|]. etransitivity; [exact E3|]. etransitivity; [apply commitApp_frame|].
  etransitivity; [exact E4|]. etransitivity; [exact E5|exact E].
Qed.

(** ** The checks *)

Lemma finish_frame k f s s' b :
  (forall h h' b, f h = (h', b) -> HeightData.step h h') -> finish f s = (s', b) -> frame k s s'.
Proof.
  intros Hf. unfold finish. destruct (f _) as [h b1] eqn:E. intros [= <- <-]. by eapply frame_data, Hf.
Qed.

Lemma finishIC_frame k f g s s' i c :
  (forall h h' b, f h = (h', b) -> HeightData.step h h') ->
  (forall h h' b, g h = (h', b) -> HeightData.step h h') ->
  finishIC f g s = (s', i, c) -> frame k s s'.
Proof.
  intros Hf Hg. unfold finishIC. destruct (if IsIShard s then finish f s else (s, false)) as [s1 i1] eqn:E1.
  assert (frame k s s1) as Hs1.
  { destruct (IsIShard s); [exact (finish_frame k f s s1 i1 Hf E1)|]. injection E1 as <- _. reflexivity. }
  destruct i1; [by intros [= <- <- <-]|].
  destruct (if IsCShard s1 then finish g s1 else (s1, false)) as [s2 c2] eqn:E2. intros [= <- <- <-].
  etransitivity; [exact Hs1|]. destruct (IsCShard s1); [exact (finish_frame k g s1 s2 c2 Hg E2)|].
  injection E2 as <- _. reflexivity.
Qed.

(** ** The messages sent only grow *)

Definition grows (s s' : t) : Prop := out s `prefix_of` out s'.

#[local] Instance grows_preorder : PreOrder grows.
Proof.
  split; [intros s; exists []; by rewrite app_nil_r|].
  intros s1 s2 s3 [l E] [k F]. exists (l ++ k). by rewrite F, E, app_assoc.
Qed.

Lemma frame_grows k s s' : frame k s s' -> grows s s'.
Proof. intros Hf. destruct (f_out _ _ _ Hf) as (l & E & _). by exists l. Qed.

Lemma grows_length s s' : grows s s' -> zlen (out s) <= zlen (out s').
Proof. intros Hg. apply prefix_length in Hg. lia. Qed.

Lemma Next_out s : out (Next s) = out s.
Proof. unfold Next. by destruct (_ =? _). Qed.

Lemma createBlock_out s s' b : createBlock cfg s = Ok (s', b) ->
  frame true s s' /\ Header.ChainID (Block.Header b) = myID s /\ Header.Height (Block.Header b) = Height s.
Proof.
  unfold createBlock. intros E. apply gbind_Ok in E as ([inner cross] & _ & E).
  set (b0 := Block.mk _ _ _ _ _) in E.
  assert (frame true s (tick s)) as Ht by (by apply (frame_world true s (world (tick s)))).
  change (IsCShard (tick s)) with (IsCShard s) in E. destruct (IsCShard s).
  - apply gbind_Ok in E as ([[a b1] r] & E1 & E). injection E as <- <-.
    destruct (PreExecutionC _ _) as [[[a' b'] r']|] eqn:Ep; [|done]. injection E1 as -> -> ->.
    split; [etransitivity; [exact Ht|]; by apply (frame_world true (tick s) (world (setApp (tick s) a)))|].
    apply PreExecutionC_block in Ep as [->| ->]; [done|].
    unfold Block.Hash_. by destruct (negb _).
  - injection E as <- <-. done.
Qed.

Lemma PartSetFromBlock_header b m r b' ps : PartSet.PartSetFromBlock b m r = Ok (b', ps) ->
  PartSetHeader.Height (PartSet.Header ps) = Header.Height (Block.Header b) /\
  PartSetHeader.Round (PartSet.Header ps) = r /\
  PartSetHeader.ChainID (PartSet.Header ps) = Header.ChainID (Block.Header b).
Proof.
  unfold PartSet.PartSetFromBlock. intros E. apply gbind_Ok in E as (bz & _ & E).
  apply gbind_Ok in E as (l & _ & E). destruct (Merkle.ProofsFromByteSlices l) as [hs proof].
  destruct (Block.Hash_ b) as [b1 h]. by injection E as _ <-.
Qed.

(** Proposing changes the package by the own proposal only. *)
Lemma createBlockAndBroadcast_spec s s' : createBlockAndBroadcast cfg s = Ok s' ->
  grows s s' /\
  (HeightData.fresh (heightDatas s) -> HeightData.Height (heightDatas s) = Height s ->
   HeightData.Round (heightDatas s) = Round s -> frame true s s').
Proof.
  unfold createBlockAndBroadcast. intros E. apply gbind_Ok in E as ([s1 b] & E1 & E).
  destruct (createBlock_out s s1 b E1) as (Hf & Hc & Hh).
  apply gbind_Ok in E as ([b1 ps] & E2 & E). apply PartSetFromBlock_header in E2 as (P1 & P2 & P3).
  apply gbind_Ok in E as (sig & _ & E). apply gbind_Ok in E as (bz & _ & E).
  set (p := Proposal.setSignature _ sig) in E.
  set (s2 := setData s1 _) in E.
  assert (frame true s2 s') as Hs.
  { etransitivity; [|eapply sendParts_frame, E; intros; apply frame_to, quiet_part].
    apply frame_to, quiet_proposal. }
  split.
  - etransitivity; [by eapply frame_grows|]. apply (frame_grows _ _ _ Hs).
  - intros Hfr HH HR.
    assert (heightDatas s1 = heightDatas s) as Hd.
    { unfold createBlock in E1. apply gbind_Ok in E1 as ([i c] & _ & E1). destruct (IsCShard (tick s)).
      - apply gbind_Ok in E1 as ([[a' b'] r'] & _ & E1). by injection E1 as <- _.
      - by injection E1 as <- _. }
    etransitivity; [exact Hf|]. etransitivity; [|exact Hs]. apply frame_data, HeightData.StepOwnProposal.
    + by rewrite Hd.
    + rewrite Hd. unfold HeightData.proposalFor. cbn [p Proposal.setSignature Proposal.NewProposal Proposal.Header].
      rewrite P1, P2, P3, Hc, Hh. split; [by rewrite HH|]. split; [|done].
      rewrite HR. apply (f_round _ _ _ Hf).
Qed.

Lemma doPropose_spec s s' : doPropose cfg s = Ok s' -> exists s1 v bz,
  frame false s s1 /\ s' = Next (SendInternal s1 bz TendermintPrevote) /\ Prevote.ProtoBytes v = Ok bz /\
  Prevote.Height v = Height s /\ Prevote.BlockHeaderHash v = BlockHash (chain s1).
Proof.
  unfold doPropose. intros E. apply gbind_Ok in E as (b & _ & E). apply gbind_Ok in E as ([s1 b1] & E1 & E).
  destruct (negb _); [done|]. destruct (negb _); [done|]. apply gbind_Ok in E as ([s2 hs] & E2 & E).
  apply gbind_Ok in E as (sig & _ & E). apply gbind_Ok in E as ([h err] & E3 & E).
  apply gbind_Ok in E as (bz & Eb & E). injection E as <-.
  apply (checkPreExecution_frame false) in E1. apply (hashBlock_frame false) in E2.
  exists (setData (setBlockHash s2 hs) h). eexists _, bz.
  split; [|split; [done|split; [exact Eb|split; [|done]]]].
  - etransitivity; [exact E1|]. etransitivity; [exact E2|]. etransitivity; [apply (frame_chain s2)|].
    apply (frame_data false (setBlockHash s2 hs)). by eapply HeightData.StepPrevote.
  - cbn. rewrite (f_height _ _ _ E2), (f_height _ _ _ E1). done.
Qed.

Lemma doPrevote_spec s s' : doPrevote cfg s = Ok s' -> exists s1 v bz,
  frame true s s1 /\ s' = Next (SendInternal s1 bz TendermintPrecommit) /\ Precommit.ProtoBytes v = Ok bz /\
  Precommit.Height v = Height s /\ Precommit.BlockHeaderHash v = BlockHash (chain s).
Proof.
  unfold doPrevote. intros E. apply gbind_Ok in E as (sig & _ & E).
  apply gbind_Ok in E as ([h err] & E3 & E). apply gbind_Ok in E as (bz & Eb & E). injection E as <-.
  exists (setData s h). eexists _, bz. split; [|split; [done|split; [exact Eb|done]]].
  apply frame_data. by eapply HeightData.StepPrecommit.
Qed.

Lemma addMessage_frame s m s' r : addMessage s m = Ok (s', r) ->
  exists relay b, addRelayMessageIfOverTime s (msgHeight m) (msgRound m) m = (setRelay s relay, b) /\
    frame true (setRelay s relay) s'.
Proof.
  unfold addMessage. intros E.
  assert (exists relay b, addRelayMessageIfOverTime s (msgHeight m) (msgRound m) m = (setRelay s relay, b))
    as (relay & relayed & Er).
  { unfold addRelayMessageIfOverTime. destruct (_ || _).
    - destruct (relayMessageChannel s !! msgHeight m); eauto.
    - exists (relayMessageChannel s), false. by destruct s. }
  rewrite Er in E. exists relay, relayed. split; [done|]. destruct relayed; [injection E as <- _; reflexivity|].
  apply gbind_Ok in E as ([[h sent] err] & E1 & E). set (s1 := setRelay s relay) in *.
  assert (frame true s1 (send (setData s1 h) sent)) as Hf.
  { assert (HeightData.step (heightDatas s1) h /\ noVote sent) as [Hs Hn].
    { unfold addToHeight in E1. destruct m; try (unfold noSent in E1).
      - apply gbind_Ok in E1 as ([h1 e1] & E1 & [= <- <- _]). split; [by eapply HeightData.StepPart|done].
      - apply gbind_Ok in E1 as (p & _ & E1).
        apply gbind_Ok in E1 as ([h1 e1] & E1 & [= <- <- _]). split; [by eapply HeightData.StepProposal|done].
      - apply gbind_Ok in E1 as ([h1 e1] & E1 & [= <- <- _]). split; [by eapply HeightData.StepPrevote|done].
      - apply gbind_Ok in E1 as ([h1 e1] & E1 & [= <- <- _]). split; [by eapply HeightData.StepPrecommit|done].
      - apply gbind_Ok in E1 as ([h1 e1] & E1 & [= <- <- _]).
        split; [by eapply HeightData.StepCrossShardProposal|done].
      - apply gbind_Ok in E1 as ([h1 e1] & E1 & [= <- <- _]).
        split; [by eapply HeightData.StepCrossShardAccept|done].
      - split; [by eapply HeightData.StepCrossShardCommit|].
        unfold HeightData.AddCrossShardCommit in E1.
        destruct (negb _); [by injection E1 as _ <- _|]. destruct (_ !! _); [by injection E1 as _ <- _|].
        destruct (_ && _); [by injection E1 as _ <- _|]. destruct (negb _); [by injection E1 as _ <- _|].
        apply gbind_Ok in E1 as (err' & _ & E1). destruct err'; [by injection E1 as _ <- _|].
        destruct (HeightData.IsIShard _); [|by injection E1 as _ <- _].
        apply gbind_Ok in E1 as (bz & _ & E1). injection E1 as _ <- _. apply noVote_same, quiet_csc. }
    etransitivity; [by apply frame_data|]. by apply frame_send. }
  destruct err as [[| |e]|]; injection E as <- _; exact Hf.
Qed.

(** ** One vote for every height *)

(** A vote of an earlier height, or of the current one: then the step after
    [st] is reached and the vote is for the current block. *)
Definition votedFor (s : t) (st : Z) (v : pbVote) : Prop :=
  pbv_height v < Height s \/
  (pbv_height v = Height s /\ st < Step s /\ pbv_hash v = BlockHash (chain s)).

Definition once (prevotes precommits : list pbVote) : Prop :=
  NoDup (pbv_height <$> prevotes) /\ NoDup (pbv_height <$> precommits) /\
  forall v w, v ∈ prevotes -> w ∈ precommits -> pbv_height v = pbv_height w -> pbv_hash v = pbv_hash w.

Record votesOnce (s : t) : Prop := {
  vo_prevotes : Forall (votedFor s RoundStepPropose) (sentVotes TendermintPrevote s);
  vo_precommits : Forall (votedFor s RoundStepPrevote) (sentVotes TendermintPrecommit s);
  vo_once : once (sentVotes TendermintPrevote s) (sentVotes TendermintPrecommit s);
  vo_bound : 0 <= Height s <= zlen (out s) + (if Step s <=? RoundStepPropose then 1 else 0)
}.

(** The same when the height is about to end. *)
Record votesPast (s : t) : Prop := {
  vp_prevotes : Forall (fun v => pbv_height v <= Height s) (sentVotes TendermintPrevote s);
  vp_precommits : Forall (fun v => pbv_height v <= Height s) (sentVotes TendermintPrecommit s);
  vp_once : once (sentVotes TendermintPrevote s) (sentVotes TendermintPrecommit s);
  vp_bound : 0 <= Height s <= zlen (out s)
}.

Lemma frame_votes k s s' : frame k s s' ->
  sentVotes TendermintPrevote s' = sentVotes TendermintPrevote s /\
  sentVotes TendermintPrecommit s' = sentVotes TendermintPrecommit s.
Proof.
  intros [_ _ _ _ _ _ (l & E & N1 & N2)]. unfold sentVotes. rewrite E, !voteSends_app, N1, N2.
  by rewrite !app_nil_r.
Qed.

Lemma frame_length k s s' : frame k s s' -> zlen (out s) <= zlen (out s').
Proof. intros Hf%frame_grows. by apply grows_length. Qed.

Lemma votesOnce_frame s s' : frame true s s' -> votesOnce s -> votesOnce s'.
Proof.
  intros Hf [V1 V2 V3 V4]. destruct (frame_votes _ _ _ Hf) as [E1 E2].
  assert (forall st v, votedFor s st v -> votedFor s' st v) as Hv.
  { intros st v. unfold votedFor. by rewrite (f_height _ _ _ Hf), (f_step _ _ _ Hf), (f_block _ _ _ Hf). }
  split; rewrite ?E1, ?E2, ?(f_height _ _ _ Hf), ?(f_step _ _ _ Hf).
  - eapply Forall_impl; [exact V1|apply Hv].
  - eapply Forall_impl; [exact V2|apply Hv].
  - done.
  - pose proof (frame_length _ _ _ Hf). lia.
Qed.

Lemma votesPast_frame s s' : frame false s s' -> RoundStepPropose < Step s -> votesOnce s -> votesPast s'.
Proof.
  intros Hf Hst [V1 V2 V3 V4]. destruct (frame_votes _ _ _ Hf) as [E1 E2].
  split; rewrite ?E1, ?E2, ?(f_height _ _ _ Hf).
  - eapply Forall_impl; [exact V1|]. intros v [?|(? & _)]; lia.
  - eapply Forall_impl; [exact V2|]. intros v [?|(? & _)]; lia.
  - done.
  - pose proof (frame_length _ _ _ Hf). destruct (Z.leb_spec (Step s) RoundStepPropose); lia.
Qed.

(** A later step of the same height. *)
Lemma votesOnce_step s st : Step s <= st -> RoundStepPropose < Step s ->
  votesOnce s -> votesOnce (setStep s st).
Proof.
  intros Hst Hp [V1 V2 V3 V4]. split; try done.
  - eapply Forall_impl; [exact V1|]. intros v [?|(? & ? & ?)]; [by left|right; cbn; auto with lia].
  - eapply Forall_impl; [exact V2|]. intros v [?|(? & ? & ?)]; [by left|right; cbn; auto with lia].
  - change (out (setStep s st)) with (out s). cbn [Height Step setStep].
    destruct (Z.leb_spec (Step s) RoundStepPropose), (Z.leb_spec st RoundStepPropose); lia.
Qed.

Lemma once_prevote prevotes precommits v : once prevotes precommits ->
  Forall (fun w => pbv_height w <> pbv_height v) prevotes ->
  Forall (fun w => pbv_height w <> pbv_height v) precommits ->
  once (prevotes ++ [v]) precommits.
Proof.
  intros (N1 & N2 & N3) H1' H2'. rewrite Forall_forall in H1', H2'. split; [|split; [done|]].
  - rewrite fmap_app. apply NoDup_app. split; [done|]. split; [|apply NoDup_singleton].
    intros h (w & -> & Hw)%list_elem_of_fmap Hv%list_elem_of_singleton. by apply (H1' w).
  - intros x w [Hx| ->%list_elem_of_singleton]%elem_of_app Hw Ex; [by apply N3|]. by destruct (H2' w).
Qed.

Lemma once_precommit prevotes precommits w : once prevotes precommits ->
  Forall (fun v => pbv_height v <> pbv_height w) precommits ->
  Forall (fun v => pbv_height v = pbv_height w -> pbv_hash v = pbv_hash w) prevotes ->
  once prevotes (precommits ++ [w]).
Proof.
  intros (N1 & N2 & N3) H1' H2'. rewrite Forall_forall in H1', H2'. split; [done|split].
  - rewrite fmap_app. apply NoDup_app. split; [done|]. split; [|apply NoDup_singleton].
    intros h (x & -> & Hx)%list_elem_of_fmap Hv%list_elem_of_singleton. by apply (H1' x).
  - intros v x Hv [Hx| ->%list_elem_of_singleton]%elem_of_app Ex; [by apply N3|]. by apply H2'.
Qed.

Lemma sentVotes_send s s' ty bz (v : pbVote) :
  out s' = out s ++ [mkSent (myID s) ChannelIDConsensusState bz ty] -> Marshal v = Some bz ->
  sentVotes ty s' = sentVotes ty s ++ [v] /\
  forall ty', ty' <> ty -> sentVotes ty' s' = sentVotes ty' s.
Proof.
  intros E Hm. unfold sentVotes. rewrite E. split.
  - rewrite voteSends_app. f_equal. unfold voteSends. cbn -[Z.eqb]. rewrite Z.eqb_refl. by rewrite (Unmarshal_Marshal _ _ Hm).
  - intros ty' Hne. rewrite voteSends_app.
    pose proof (voteSends_other ty' ty bz [myID s] (not_eq_sym Hne)) as Eo. cbn [map] in Eo.
    rewrite Eo. apply app_nil_r.
Qed.

Lemma Next_step s : RoundStepPropose <= Step s < RoundStepCrossShardCommit -> Next s = setStep s (Step s + 1).
Proof.
  unfold Next, RoundStepPropose, RoundStepCrossShardCommit. intros Hs.
  destruct (Z.eqb_spec (Step s) 7); [lia|]. rewrite wrap_s_small by (unfold in_s; lia). done.
Qed.

Lemma votedFor_before s st v : Step s <= st -> votedFor s st v -> pbv_height v < Height s.
Proof. intros Hs [?|(_ & ? & _)]; lia. Qed.

Lemma votesOnce_propose s s1 v bz :
  votesOnce s -> Step s = RoundStepPropose -> frame false s s1 -> Prevote.ProtoBytes v = Ok bz ->
  Prevote.Height v = Height s -> Prevote.BlockHeaderHash v = BlockHash (chain s1) ->
  votesOnce (Next (SendInternal s1 bz TendermintPrevote)).
Proof.
  intros [V1 V2 V3 V4] Hst Hf Eb Hh Hb. set (s2 := SendInternal s1 bz TendermintPrevote).
  assert (Step s2 = RoundStepPropose) as Hs2 by (rewrite <- Hst; apply (f_step _ _ _ Hf)).
  rewrite Next_step by (rewrite Hs2; unfold RoundStepPropose, RoundStepCrossShardCommit; lia).
  destruct (frame_votes _ _ _ Hf) as [E1 E2].
  assert (Marshal (Prevote.ToProto v) = Some bz) as Em.
  { unfold Prevote.ProtoBytes, MustProtoBytes in Eb. by destruct (Marshal _) as [b|]; [injection Eb as ->|]. }
  destruct (sentVotes_send s1 s2 TendermintPrevote bz (Prevote.ToProto v) eq_refl Em) as [S1 S2].
  specialize (S2 TendermintPrecommit ltac:(done)).
  assert (Height s2 = Height s) as Hs' by apply (f_height _ _ _ Hf).
  assert (Forall (fun w => pbv_height w < Height s) (sentVotes TendermintPrevote s)) as B1.
  { eapply Forall_impl; [exact V1|]. intros w. apply votedFor_before. lia. }
  assert (Forall (fun w => pbv_height w < Height s) (sentVotes TendermintPrecommit s)) as B2.
  { eapply Forall_impl; [exact V2|]. intros w. apply votedFor_before. rewrite Hst. done. }
  assert (forall st, sentVotes st (setStep s2 (Step s2 + 1)) = sentVotes st s2) as Est by done.
  assert (BlockHash (chain s2) = BlockHash (chain s1)) as Hc2 by done.
  assert (out s2 = out s1 ++ [mkSent (myID s1) ChannelIDConsensusState bz TendermintPrevote]) as Eo by done.
  pose proof (frame_length _ _ _ Hf) as Hlen. clearbody s2.
  split; rewrite ?Est, ?S1, ?S2, ?E1, ?E2.
  - apply Forall_app. split; [eapply Forall_impl; [exact B1|]; intros w Hw; left; cbn in Hw |- *; lia|].
    apply Forall_singleton. right. split; [cbn; lia|]. split; [cbn; rewrite Hs2; done|]. cbn. by rewrite Hc2.
  - eapply Forall_impl; [exact B2|]. intros w Hw; left; cbn in Hw |- *; lia.
  - apply once_prevote; [done|..]; (eapply Forall_impl; [first [exact B1|exact B2]|]); cbn; intros w; lia.
  - change (out (setStep s2 (Step s2 + 1))) with (out s2).
    rewrite Eo, length_app. cbn [Height Step setStep length]. rewrite Hs2, Hs'.
    destruct (Z.leb_spec (Step s) RoundStepPropose), (Z.leb_spec (RoundStepPropose + 1) RoundStepPropose); lia.
Qed.

Lemma votesOnce_prevote s s1 v bz :
  votesOnce s -> Step s = RoundStepPrevote -> frame true s s1 -> Precommit.ProtoBytes v = Ok bz ->
  Precommit.Height v = Height s -> Precommit.BlockHeaderHash v = BlockHash (chain s) ->
  votesOnce (Next (SendInternal s1 bz TendermintPrecommit)).
Proof.
  intros [V1 V2 V3 V4] Hst Hf Eb Hh Hb. set (s2 := SendInternal s1 bz TendermintPrecommit).
  assert (Step s2 = RoundStepPrevote) as Hs2 by (rewrite <- Hst; apply (f_step _ _ _ Hf)).
  rewrite Next_step by (rewrite Hs2; unfold RoundStepPropose, RoundStepPrevote, RoundStepCrossShardCommit; lia).
  destruct (frame_votes _ _ _ Hf) as [E1 E2].
  assert (Marshal (Precommit.ToProto v) = Some bz) as Em.
  { unfold Precommit.ProtoBytes, MustProtoBytes in Eb. by destruct (Marshal _) as [b|]; [injection Eb as ->|]. }
  destruct (sentVotes_send s1 s2 TendermintPrecommit bz (Precommit.ToProto v) eq_refl Em) as [S1 S2].
  specialize (S2 TendermintPrevote ltac:(done)).
  assert (Height s2 = Height s) as Hs' by apply (f_height _ _ _ Hf).
  assert (BlockHash (chain s1) = BlockHash (chain s)) as Hc by by apply (f_block _ _ _ Hf).
  assert (Forall (fun w => pbv_height w < Height s) (sentVotes TendermintPrecommit s)) as B2.
  { eapply Forall_impl; [exact V2|]. intros w. apply votedFor_before. rewrite Hst. done. }
  assert (forall st, sentVotes st (setStep s2 (Step s2 + 1)) = sentVotes st s2) as Est by done.
  assert (BlockHash (chain s2) = BlockHash (chain s1)) as Hc2 by done.
  assert (out s2 = out s1 ++ [mkSent (myID s1) ChannelIDConsensusState bz TendermintPrecommit]) as Eo by done.
  pose proof (frame_length _ _ _ Hf) as Hlen. clearbody s2.
  split; rewrite ?Est, ?S1, ?S2, ?E1, ?E2.
  - eapply Forall_impl; [exact V1|]. intros w [?|(? & ? & ?)]; [left; cbn; lia|right].
    cbn. rewrite Hs', Hs2, Hc2, Hc. split; [done|]. split; [done|done].
  - apply Forall_app. split; [eapply Forall_impl; [exact B2|]; intros w Hw; left; cbn in Hw |- *; lia|].
    apply Forall_singleton. right. split; [cbn; lia|]. split; [cbn; rewrite Hs2; done|]. cbn.
    by rewrite Hc2, Hc.
  - apply once_precommit; [done|..].
    + eapply Forall_impl; [exact B2|]. cbn. intros w; lia.
    + eapply Forall_impl; [exact V1|]. cbn. intros w Hw Ew. rewrite Hb.
      destruct Hw as [?|(_ & _ & ?)]; [lia|done].
  - change (out (setStep s2 (Step s2 + 1))) with (out s2).
    rewrite Eo, length_app. cbn [Height Step setStep length]. rewrite Hs2, Hs'.
    destruct (Z.leb_spec (Step s) RoundStepPropose), (Z.leb_spec (RoundStepPrevote + 1) RoundStepPropose); lia.
Qed.

(** ** One round of the state machine *)

Inductive stepped (s : t) : t -> outcome -> Prop :=
| SteppedWait s' : frame true s s' -> stepped s s' Waiting
| SteppedPropose s1 s' : Step s = RoundStepPropose -> frame true s s1 -> doPropose cfg s1 = Ok s' ->
    stepped s s' Stepped
| SteppedPrevote s1 s' : Step s = RoundStepPrevote -> frame true s s1 -> doPrevote cfg s1 = Ok s' ->
    stepped s s' Stepped
| SteppedNext s1 : RoundStepPrecommit <= Step s < RoundStepCrossShardCommit -> frame true s s1 ->
    stepped s (Next s1) Stepped
| SteppedFinish s' : Step s = RoundStepCrossShardCommit -> frame false s s' -> stepped s s' Finished
| SteppedIdle : ~ RoundStepPropose <= Step s <= RoundStepCrossShardCommit -> stepped s s Stepped.

Lemma transition_stepped s s' o : transition cfg s = Ok (s', o) -> stepped s s' o.
Proof.
  unfold transition. intros E.
  destruct (Z.eqb_spec (Step s) RoundStepPropose) as [E1|E1].
  { destruct (finish _ s) as [s1 b] eqn:Ef. apply (finish_frame true) in Ef; [|by intros; eapply HeightData.StepFinishProposal].
    unfold stepWith in E. destruct b; [|injection E as <- <-; by apply SteppedWait].
    apply gbind_Ok in E as (s2 & E2 & [= <- <-]). by eapply SteppedPropose. }
  destruct (Z.eqb_spec (Step s) RoundStepPrevote) as [E2|E2].
  { destruct (finish _ s) as [s1 b] eqn:Ef. apply (finish_frame true) in Ef; [|by intros; eapply HeightData.StepFinishPrevote].
    unfold stepWith in E. destruct b; [|injection E as <- <-; by apply SteppedWait].
    apply gbind_Ok in E as (s2 & E3 & [= <- <-]). by eapply SteppedPrevote. }
  destruct (Z.eqb_spec (Step s) RoundStepPrecommit) as [E3|E3].
  { destruct (finish _ s) as [s1 b] eqn:Ef. apply (finish_frame true) in Ef; [|by intros; eapply HeightData.StepFinishPrecommit].
    unfold stepWith in E. destruct b; [|injection E as <- <-; by apply SteppedWait].
    apply gbind_Ok in E as (s2 & E4 & [= <- <-]). destruct (doPrecommit_spec true _ _ E4) as (s3 & F3 & ->).
    apply SteppedNext; [rewrite E3; done|by etransitivity]. }
  destruct (Z.eqb_spec (Step s) RoundStepCrossShardAccept) as [E4|E4].
  { destruct (finishIC _ _ s) as [[s1 i] c] eqn:Ef. apply (finishIC_frame true) in Ef;
      [|by intros; eapply HeightData.StepFinishCrossShardAccept|by intros; eapply HeightData.StepFinishCrossShardProposal].
    assert (forall s3, frame true s1 s3 -> stepped s (Next s3) Stepped) as Hn.
    { intros s3 F3. apply SteppedNext; [rewrite E4; done|by etransitivity]. }
    destruct i; unfold stepWith in E.
    - apply gbind_Ok in E as (s2 & E5 & [= <- <-]). destruct (doCSA_spec true _ _ E5) as (s3 & F3 & ->). by apply Hn.
    - destruct c; [|injection E as <- <-; by apply SteppedWait].
      apply gbind_Ok in E as (s2 & E5 & [= <- <-]). destruct (doCSP_spec true _ _ E5) as (s3 & F3 & ->). by apply Hn. }
  destruct (Z.eqb_spec (Step s) RoundStepCrossShardCommit) as [E5|E5].
  { destruct (finishIC _ _ s) as [[s1 i] c] eqn:Ef. apply (finishIC_frame true) in Ef;
      [|by intros; eapply HeightData.StepFinishCrossShardCommit_I|by intros; eapply HeightData.StepFinishCrossShardCommit_B].
    destruct i; unfold stepWith in E.
    - apply gbind_Ok in E as (s2 & E6 & [= <- <-]). apply SteppedFinish; [done|].
      etransitivity; [eapply frame_weaken, Ef|by apply doCSC_I_frame].
    - destruct c; [|injection E as <- <-; by apply SteppedWait].
      apply gbind_Ok in E as (s2 & E6 & [= <- <-]). apply SteppedFinish; [done|].
      etransitivity; [eapply frame_weaken, Ef|by apply doCSC_C_frame]. }
  injection E as <- <-. apply SteppedIdle.
  unfold RoundStepPropose, RoundStepPrevote, RoundStepPrecommit, RoundStepCrossShardAccept,
    RoundStepCrossShardCommit in *. lia.
Qed.

Lemma stepped_grows s s' o : stepped s s' o -> grows s s'.
Proof.
  assert (forall s1 bz ty, grows s1 (Next (SendInternal s1 bz ty))) as Hn.
  { intros s1 bz ty. unfold grows. rewrite Next_out. by eexists. }
  destruct 1 as [s' Hf|s1 s' Est Hf E|s1 s' Est Hf E|s1 Est Hf|s' Est Hf|_].
  - by eapply frame_grows.
  - destruct (doPropose_spec s1 s' E) as (s2 & v & bz & F2 & -> & _).
    etransitivity; [by eapply frame_grows|]. etransitivity; [by eapply frame_grows|apply Hn].
  - destruct (doPrevote_spec s1 s' E) as (s2 & v & bz & F2 & -> & _).
    etransitivity; [by eapply frame_grows|]. etransitivity; [by eapply frame_grows|apply Hn].
  - etransitivity; [by eapply frame_grows|]. unfold grows. by rewrite Next_out.
  - by eapply frame_grows.
  - reflexivity.
Qed.

(** ** The invariant of a run *)

Variables (my : string) (si : ShardInfo.t).
Hypothesis Hvalid : HeightData.validShards my si.

Record dataOK (s : t) : Prop := {
  d_reach : HeightData.reachable my si (heightDatas s);
  d_height : HeightData.Height (heightDatas s) = Height s;
  d_round : Round s = 0;
  d_hround : HeightData.Round (heightDatas s) = 0
}.

Record inv (s : t) : Prop := {
  i_data : dataOK s;
  i_step : RoundStepPropose <= Step s <= RoundStepCrossShardCommit;
  i_votes : votesOnce s
}.

Lemma reachable_rtc h h' : HeightData.reachable my si h -> rtc HeightData.step h h' ->
  HeightData.reachable my si h' /\ HeightData.sameConfig h h'.
Proof.
  intros Hr Hs. revert Hr. induction Hs as [h|h1 h2 h3 Hs _ IH]; intros Hr.
  - split; [done|apply HeightData.sameConfig_refl].
  - pose proof (HeightData.step_config h1 h2 (HeightData.reachable_ok my si h1 Hvalid Hr) Hs) as C1.
    destruct IH as [Hr' C2]; [by eapply HeightData.ReachStep|]. split; [done|].
    destruct C1 as (? & ? & ? & ? & ? & ?), C2 as (? & ? & ? & ? & ? & ?). repeat split; congruence.
Qed.

Lemma dataOK_frame k s s' : frame k s s' -> dataOK s -> dataOK s'.
Proof.
  intros Hf [D1 D2 D3 D4]. destruct (reachable_rtc _ _ D1 (f_data _ _ _ Hf)) as [Hr (C1 & C2 & _)].
  split; [done|..]; rewrite ?(f_height _ _ _ Hf), ?(f_round _ _ _ Hf); congruence.
Qed.

Lemma dataOK_send s l : dataOK s -> dataOK (send s l).
Proof. by intros []. Qed.

Lemma inv_frame s s' : frame true s s' -> inv s -> inv s'.
Proof.
  intros Hf [I1 I2 I3]. split; [by eapply dataOK_frame| |by eapply votesOnce_frame].
  by rewrite (f_step _ _ _ Hf).
Qed.

Lemma dataOK_step s st : dataOK s -> dataOK (setStep s st).
Proof. by intros []. Qed.

Ltac unfold_steps := unfold RoundStepPropose, RoundStepPrevote, RoundStepPrecommit,
  RoundStepCrossShardAccept, RoundStepCrossShardCommit in *.

Lemma inv_stepped s s' o : inv s -> stepped s s' o ->
  match o with Finished => dataOK s' /\ votesPast s' | _ => inv s' end.
Proof.
  intros Hi Hs. destruct Hs as [s' Hf|s1 s' Est Hf E|s1 s' Est Hf E|s1 Est Hf|s' Est Hf|Hn].
  - by eapply inv_frame.
  - assert (inv s1) as [D1 I1 V1] by by eapply inv_frame.
    assert (Step s1 = RoundStepPropose) as E1 by (by rewrite (f_step _ _ _ Hf)).
    destruct (doPropose_spec s1 s' E) as (s2 & v & bz & F2 & -> & Eb & Eh & Ehs).
    assert (Step (SendInternal s2 bz TendermintPrevote) = RoundStepPropose) as E2
      by (cbn; by rewrite (f_step _ _ _ F2)).
    split; [| |by eapply votesOnce_propose].
    + rewrite Next_step by (rewrite E2; done). apply dataOK_step, dataOK_send. by eapply dataOK_frame.
    + rewrite Next_step by (rewrite E2; done). cbn [Step setStep]. rewrite E2. done.
  - assert (inv s1) as [D1 I1 V1] by by eapply inv_frame.
    assert (Step s1 = RoundStepPrevote) as E1 by (by rewrite (f_step _ _ _ Hf)).
    destruct (doPrevote_spec s1 s' E) as (s2 & v & bz & F2 & -> & Eb & Eh & Ehs).
    assert (Step (SendInternal s2 bz TendermintPrecommit) = RoundStepPrevote) as E2
      by (cbn; by rewrite (f_step _ _ _ F2)).
    split; [| |by eapply votesOnce_prevote].
    + rewrite Next_step by (rewrite E2; done). apply dataOK_step, dataOK_send. by eapply dataOK_frame.
    + rewrite Next_step by (rewrite E2; done). cbn [Step setStep]. rewrite E2. done.
  - assert (inv s1) as [D1 I1 V1] by by eapply inv_frame.
    assert (Step s1 = Step s) as E1 by apply (f_step _ _ _ Hf).
    rewrite Next_step by (rewrite E1; unfold_steps; lia).
    split; [by apply dataOK_step|cbn [Step setStep]; rewrite E1; unfold_steps; lia|].
    apply votesOnce_step; [lia|rewrite E1; unfold_steps; lia|done].
  - split; [eapply dataOK_frame, Hi; done|]. eapply votesPast_frame; [done|rewrite Est; done|apply Hi].
  - destruct Hn. apply Hi.
Qed.

(** The new height: no vote for it was sent yet. *)
Lemma votesOnce_new s s' : votesPast s -> Height s' = Height s + 1 -> Step s' = RoundStepPropose ->
  out s' = out s -> votesOnce s'.
Proof.
  intros [P1 P2 P3 P4] Eh Es Eo. split; unfold sentVotes; rewrite ?Eo.
  - eapply Forall_impl; [exact P1|]. cbn. intros v Hv. left. lia.
  - eapply Forall_impl; [exact P2|]. cbn. intros v Hv. left. lia.
  - done.
  - rewrite Es, Eh. destruct (Z.leb_spec RoundStepPropose RoundStepPropose); lia.
Qed.

(** The number of messages a node has sent, far below the range of a height. *)
Definition sentBound (s : t) : Prop := zlen (out s) < 2 ^ 63 - 1.

Lemma sentBound_grows s s' : grows s s' -> sentBound s' -> sentBound s.
Proof. intros Hg%grows_length. unfold sentBound. lia. Qed.

Definition handles (doMsg : t -> Msg -> go (t * option goerr)) : Prop :=
  forall s m s' e, doMsg s m = Ok (s', e) -> grows s s' /\ (inv s -> sentBound s' -> inv s').

Lemma replay_inv doMsg msgs s s' : handles doMsg ->
  go_foldl (fun s msg => let! '(s, _) := doMsg s msg in Ok s) s msgs = Ok s' ->
  grows s s' /\ (inv s -> sentBound s' -> inv s').
Proof.
  intros Hh. revert s. induction msgs as [|m msgs IH]; intros s; cbn [go_foldl].
  - intros [= <-]. split; [reflexivity|done].
  - intros E. apply gbind_Ok in E as (s1 & E1 & E). apply gbind_Ok in E1 as ([s2 e] & E1 & [= ->]).
    destruct (Hh _ _ _ _ E1) as [G1 I1], (IH _ E) as [G2 I2].
    split; [by etransitivity|]. intros Hi Hb. apply I2; [|done]. apply I1; [done|by eapply sentBound_grows].
Qed.

Lemma enterNewRound_inv doMsg s s' : handles doMsg -> enterNewRound cfg doMsg s = Ok s' ->
  grows s s' /\
  (inv (setStep s RoundStepPropose) -> HeightData.fresh (heightDatas s) -> sentBound s' -> inv s').
Proof.
  intros Hh. unfold enterNewRound. set (s0 := setStep s RoundStepPropose). intros E.
  apply gbind_Ok in E as (b & _ & E). apply gbind_Ok in E as (s1 & E1 & E).
  assert (grows s0 s1 /\ (inv s0 -> HeightData.fresh (heightDatas s) -> inv s1)) as [G1 I1].
  { destruct b; [|injection E1 as <-; split; [reflexivity|done]].
    destruct (createBlockAndBroadcast_spec _ _ E1) as [G F]. split; [done|]. intros Hi Hfr.
    eapply inv_frame; [|exact Hi]. apply F; [done|apply Hi|].
    destruct (i_data _ Hi) as [_ _ E2 E3]. by rewrite E2, E3. }
  assert (grows s1 s' /\ (inv s1 -> sentBound s' -> inv s')) as [G2 I2].
  { destruct (relayMessageChannel s1 !! Height s1) as [u|]; [|by injection E as <-; split; [reflexivity|]].
    destruct (u !! Round s1) as [msgs|]; [|by injection E as <-; split; [reflexivity|]].
    by eapply replay_inv. }
  split; [by etransitivity|]. auto.
Qed.

Lemma enterNewHeight_inv doMsg s s' : handles doMsg -> enterNewHeight cfg doMsg s = Ok s' ->
  grows s s' /\ (dataOK s -> votesPast s -> sentBound s' -> inv s').
Proof.
  intros Hh. unfold enterNewHeight. intros E. apply gbind_Ok in E as (h & E1 & E).
  destruct (enterNewRound_inv _ _ _ Hh E) as [G I].
  assert (Next (setStep s RoundStepCrossShardCommit) = mk (i64 (Height s + 1)) 0 RoundStepNewHeight
    (heightDatas s) (delete (Height s) (relayMessageChannel s)) (chain s) (world s)) as En by done.
  rewrite En in G, I, E1. cbn [heightDatas setData rollChain setChain] in E1.
  split; [exact G|]. intros [D1 D2 D3 D4] Hp Hb. apply I; [| |done].
  - assert (0 <= Height s < 2 ^ 63 - 1) as HB.
    { pose proof (sentBound_grows _ _ G Hb) as Hb'. unfold sentBound in Hb'.
      destruct (vp_bound _ Hp). change (out _) with (out s) in Hb'. lia. }
    assert (i64 (Height s + 1) = Height s + 1) as E64 by (apply wrap_s_small; unfold in_s; lia).
    pose proof (HeightData.NextHeight_config _ _ E1) as (C1 & C2 & _).
    split; [split|done|].
    + by eapply HeightData.ReachNext.
    + cbn. by rewrite C1, D2.
    + done.
    + done.
    + eapply votesOnce_new; [exact Hp|exact E64|done|done].
  - eapply HeightData.NextHeight_fresh; [|exact E1]. by eapply HeightData.reachable_ok.
Qed.

Lemma run_handles fuel :
  handles (doMessage cfg fuel) /\
  forall s s', handleStateTransition cfg fuel s = Ok s' -> grows s s' /\ (inv s -> sentBound s' -> inv s').
Proof.
  induction fuel as [|fuel [IHm IHt]]; [done|]. split.
  - intros s m s' e E. cbn [doMessage] in E. apply gbind_Ok in E as ([s1 r] & E1 & E).
    destruct (addMessage_frame _ _ _ _ E1) as (relay & b & _ & Hf).
    assert (grows s s1) as G1 by exact (frame_grows _ _ _ Hf).
    assert (inv s -> inv s1) as I1.
    { intros [[] ? []]. eapply inv_frame; [exact Hf|]. split; [by split|done|by split]. }
    destruct r as [err|]; [injection E as <- _; split; [done|auto]|].
    apply gbind_Ok in E as (s2 & E2 & E). injection E as <- _.
    destruct (IHt _ _ E2) as [G2 I2]. split; [by etransitivity|auto].
  - intros s s' E. cbn [handleStateTransition] in E. apply gbind_Ok in E as ([s1 o] & E1 & E).
    apply transition_stepped in E1. pose proof (stepped_grows _ _ _ E1) as G1.
    pose proof (fun Hi => inv_stepped s s1 o Hi E1) as I1. destruct o.
    + injection E as <-. split; [done|auto].
    + destruct (IHt _ _ E) as [G2 I2]. split; [by etransitivity|auto].
    + apply gbind_Ok in E as (s2 & E2 & E). destruct (enterNewHeight_inv _ _ _ IHm E2) as [G2 I2].
      destruct (IHt _ _ E) as [G3 I3].
      split; [etransitivity; [exact G1|by etransitivity]|].
      intros Hi Hb. apply I3; [|done]. destruct (I1 Hi) as [Hd Hp]. apply I2; [done|done|].
      by eapply sentBound_grows.
Qed.

Lemma Receive_handles fuel s ch bz mtype s' err : Receive cfg fuel s ch bz mtype = Ok (s', err) ->
  grows s s' /\ (inv s -> sentBound s' -> inv s').
Proof.
  assert (forall A (m : go (option A)) name validate msg,
    receiveWith cfg fuel s m name validate msg = Ok (s', err) ->
    grows s s' /\ (inv s -> sentBound s' -> inv s')) as Hr.
  { intros A m name validate msg E. unfold receiveWith in E. apply gbind_Ok in E as (o & _ & E).
    destruct o as [a|]; [|injection E as <- _; split; [reflexivity|done]].
    apply gbind_Ok in E as (e & _ & E). destruct e; [injection E as <- _; split; [reflexivity|done]|].
    exact (proj1 (run_handles fuel) _ _ _ _ E). }
  unfold Receive. intros E.
  repeat match type of E with
  | (if ?b then _ else _) = _ => destruct b
  | receiveWith _ _ _ _ _ _ _ = _ => by apply Hr in E
  | Ok _ = _ => injection E as <- _; split; [reflexivity|done]
  end.
Qed.

(** What a node goes through: it is made, started, and receives messages, each
    of which it handles with enough fuel. *)
Inductive run : t -> Prop :=
| RunStart a mp cmp d s0 fuel s :
    NewConsensusState my si a mp cmp d = Ok s0 -> Start cfg fuel s0 = Ok s -> run s
| RunReceive s fuel ch bz mtype s' err :
    run s -> Receive cfg fuel s ch bz mtype = Ok (s', err) -> run s'.

Lemma NewConsensusState_inv a mp cmp d s0 : NewConsensusState my si a mp cmp d = Ok s0 ->
  Height s0 = 0 /\ dataOK s0 /\ votesPast s0.
Proof.
  unfold NewConsensusState. generalize (mkChain (Now 0) (Merkle.HashFromByteSlices []) [] [] []
    (Merkle.HashFromByteSlices []) [] [] [] [] []) as c. intros c E.
  apply gbind_Ok in E as (h & Eh & E). destruct (HeightData.NewHeightData_config _ _ _ _ Eh) as (E1 & E2 & _).
  injection E as <-. split; [done|]. split.
  - split; [by eapply HeightData.ReachNew|exact E1|done|exact E2].
  - split; [constructor|constructor| |done]. split; [constructor|split; [constructor|]].
    intros v w Hv. by apply elem_of_nil in Hv.
Qed.

Lemma run_inv s : run s -> sentBound s -> inv s.
Proof.
  induction 1 as [a mp cmp d s0 fuel s E0 E|s fuel ch bz mtype s' err _ IH E]; intros Hb.
  - destruct (NewConsensusState_inv _ _ _ _ _ E0) as (Ez & Hd & Hp).
    unfold Start in E. rewrite Ez in E. change (0 =? 0) with true in E. cbv iota in E.
    eapply enterNewHeight_inv; [apply run_handles|exact E|done..].
  - destruct (Receive_handles _ _ _ _ _ _ _ E) as [G I]. apply I; [|done].
    apply IH. by eapply sentBound_grows.
Qed.

(** C4: the package of the height that a node works on is always one of the
    reachable packages of its height, whatever it receives: the theorems on
    reachable packages hold for running nodes. *)
Theorem run_reachable s : run s -> sentBound s ->
  HeightData.reachable my si (heightDatas s) /\
  HeightData.Height (heightDatas s) = Height s /\ HeightData.Round (heightDatas s) = Round s /\
  Round s = 0 /\ RoundStepPropose <= Step s <= RoundStepCrossShardCommit.
Proof.
  intros Hr Hb. destruct (run_inv s Hr Hb) as [[D1 D2 D3 D4] I V]. by rewrite D3, D4.
Qed.

(** C1: a node never votes twice: of the prevotes and of the precommits it has
    sent there is at most one for every height, and a precommit is for the block
    of the prevote. *)
Theorem one_vote_per_height s : run s -> sentBound s ->
  NoDup (pbv_height <$> sentVotes TendermintPrevote s) /\
  NoDup (pbv_height <$> sentVotes TendermintPrecommit s) /\
  forall v w, v ∈ sentVotes TendermintPrevote s -> w ∈ sentVotes TendermintPrecommit s ->
    pbv_height v = pbv_height w -> pbv_hash v = pbv_hash w.
Proof. intros Hr Hb. apply (run_inv s Hr Hb). Qed.
End safety.

(** ** A shard of three validators *)

Module ConsensusDemo.
Import DemoHash Demo DemoCodecs StoreDemo.

(** A toy scheme with small signatures. *)
Definition tinyBLS : BLS :=
  {| PublicKey := nat; Sig := nat; SecretKey := nat; pkZero := 0%nat; pkAdd := Nat.add;
     sigZero := 0%nat; sigAdd := Nat.add; GetPublicKey := fun k => k;
     SignByte := fun k _ => k; VerifyByte := fun s p _ => (s =? p)%nat;
     pkDeserialize := fun s => Some (String.length s);
     skDeserialize := fun s => Some (String.length s);
     sigDeserialize := fun s => Some (String.length s);
     sigSerialize := SignerDemo.unary |}.
#[export] Existing Instance tinyBLS.

(** An application that does nothing, an empty mempool and a fixed clock. *)
#[export] Instance idleABCI : ABCIConn :=
  {| App := unit;
     PreExecutionC a b := Some (a, b, mkRespC CodeTypeOK []);
     PreExecutionI a bs := Some (a, mkRespI CodeTypeOK (map (fun _ => []) bs));
     Execution a _ _ _ := Some (a, mkExecResp ∅ ∅);
     AppCommit a := (a, []) |}.
#[export] Instance idleLaws : ABCILaws.
Proof. split. intros a b a' b' r [= _ <- _]. by left. Qed.
#[export] Instance idleMempool : MempoolConn :=
  {| Pool := unit; ReapTx _ _ := Some ([], 0, None); Update p _ _ := Some (p, None) |}.
#[export] Program Instance fixedEnv : Env :=
  {| Now := fun _ => mkTime 1700000000 0; rangeOrder := fun _ l => l |}.
Next Obligation. done. Qed.

Definition my : string := "a".
Definition peers : list Peer.t :=
  [Peer.mk "ip1" ∅ "x" 1; Peer.mk "ip2" ∅ "xx" 1; Peer.mk "ip3" ∅ "xxx" 1].
Definition si : ShardInfo.t := ShardInfo.mk {[my := peers]} ∅ ∅ ∅ BLOCKTYPE_I ∅.

Lemma shards_valid : HeightData.validShards my si.
Proof.
  split; [by eexists|]. intros cid ps Hp.
  change (({[my := peers]} : gmap string (list Peer.t)) !! cid = Some ps) in Hp.
  apply lookup_singleton_Some in Hp as [_ <-]. repeat constructor; cbn; lia.
Qed.

Definition config (i : nat) : Config := mkConfig (S i) (Z.of_nat i) 1000 4096 100.
Definition fresh : go t := NewConsensusState my si () () () (∅ : gmap bytes bytes).
Definition vote (i : nat) : Prevote.t :=
  Prevote.setSignature (Prevote.NewPrevote 1 0 (replicate 32 Byte.x00) (Z.of_nat i)) (SignerDemo.unary (S i)).
(** The proposer of the first height hears the vote of another validator, and
    then votes itself. *)
Definition dummy : t :=
  mk 0 0 0 (HeightData.mk 0 0 my 0 si ∅ ∅ None noVotes noVotes ∅ ∅ 0 ∅ ∅ ∅ ∅) ∅
    (mkChain (mkTime 0 0) [] [] [] [] [] [] [] [] [] []) (mkWorld () () () (∅ : gmap bytes bytes) [] 0).

Definition fresh0 : t := valueOf dummy fresh.
Definition started1 : t := valueOf dummy (Start (config 1) 20 fresh0).
Definition voteBytes : bytes := valueOf [] (Prevote.ProtoBytes (vote 0)).
Definition received1 : t * option goerr :=
  valueOf (dummy, None) (Receive (config 1) 20 started1 ChannelIDConsensusState voteBytes TendermintPrevote).
Definition voted1 : t := fst received1.

Lemma fresh0_new : NewConsensusState my si () () () (∅ : gmap bytes bytes) = Ok fresh0.
Proof. apply (valueOf_Ok dummy). vm_compute. reflexivity. Qed.
Lemma started1_starts : Start (config 1) 20 fresh0 = Ok started1.
Proof. apply (valueOf_Ok dummy). vm_compute. reflexivity. Qed.
Lemma received1_Ok :
  Receive (config 1) 20 started1 ChannelIDConsensusState voteBytes TendermintPrevote = Ok received1.
Proof. unfold received1. apply valueOf_Ok. vm_compute. reflexivity. Qed.
Definition voted1_received := Ok_pair _ _ received1_Ok.
Lemma voted1_run : run (config 1) my si voted1.
Proof. eapply RunReceive, voted1_received. eapply RunStart; [exact fresh0_new|exact started1_starts]. Qed.
Lemma voted1_sent : sentBound voted1.
Proof. vm_compute. reflexivity. Qed.
(** It has proposed, and voted once. *)
Example voted1_once : Step voted1 = RoundStepPrevote /\ length (sentVotes TendermintPrevote voted1) = 1%nat.
Proof. vm_compute. split; reflexivity. Qed.

Lemma run_reachable_witness :
  HeightData.reachable my si (heightDatas voted1) /\
  HeightData.Height (heightDatas voted1) = Height voted1 /\
  HeightData.Round (heightDatas voted1) = Round voted1 /\
  Round voted1 = 0 /\ RoundStepPropose <= Step voted1 <= RoundStepCrossShardCommit.
Proof. exact (run_reachable (config 1) my si shards_valid voted1 voted1_run voted1_sent). Defined.

Lemma one_vote_per_height_witness :
  NoDup (pbv_height <$> sentVotes TendermintPrevote voted1) /\
  NoDup (pbv_height <$> sentVotes TendermintPrecommit voted1) /\
  forall v w, v ∈ sentVotes TendermintPrevote voted1 -> w ∈ sentVotes TendermintPrecommit voted1 ->
    pbv_height v = pbv_height w -> pbv_hash v = pbv_hash w.
Proof. exact (one_vote_per_height (config 1) my si shards_valid voted1 voted1_run voted1_sent). Defined.
End ConsensusDemo.
