(* ===== verification/MemDB.v ===== *)
(** * The overlays a bank transaction runs on: [abci/minibank/memdb.go]

    [MemoryDB] buffers the reads and writes of one transaction over the values
    committed by earlier transactions of the block, over the database.
    [RangeDB] restricts it to the keys of a range tree; [CrossShardDB] replaces
    the reads by the data another shard sent. The three are instances of the
    interface a transaction is executed against. *)

From S2P Require Import Prelude Convert Store RangeTree.
Import RangeTree.
Local Open Scope Z_scope.

Definition initBalance : Z := 1000000.

(** [GetSetMemDB] and [MemDB]. A read may fill a buffer; the slices stored in
    the database are decoded, which panics on fewer than four bytes. *)
Class MemDB (D : Type) := {
  mGet : D -> string -> go (D * (Z * option goerr));
  mHas : D -> string -> go (D * (bool * option goerr));
  mSet : D -> string -> Z -> go (D * option goerr);
  mGetReadSet : D -> gmap string Z;
  mGetWriteSet : D -> gmap string Z;
  mCommitWrite : D -> bool -> D;
  mWrite : D -> go (D * option goerr)
}.

Module MemoryDB.
Section memory.
Context `{DB}.
Record t := mk { db : Database; memDB : gmap string Z; writeBuffer : gmap string Z; readBuffer : gmap string Z }.

Definition NewMemoryDB (db : Database) : t := mk db ∅ ∅ ∅.
Definition setRead (m : t) (key : string) (v : Z) : t :=
  mk (db m) (memDB m) (writeBuffer m) (<[key := v]> (readBuffer m)).
Definition setMem (m : t) (key : string) (v : Z) : t :=
  mk (db m) (<[key := v]> (memDB m)) (writeBuffer m) (readBuffer m).

Definition Get (m : t) (key : string) : go (t * (Z * option goerr)) :=
  match writeBuffer m !! key with
  | Some out => Ok (m, (out, None))
  | None =>
      match readBuffer m !! key with
      | Some out => Ok (m, (out, None))
      | None =>
          match memDB m !! key with
          | Some out => Ok (setRead m key out, (out, None))
          | None =>
              let '(bz, err) := PrefixStore.Get (db m) (of_str key) in
              match err, default [] bz with
              | Some _, _ | None, [] => Ok (setRead m key initBalance, (initBalance, None))
              | None, bz =>
                  let! amount := BytesToUint32 bz in
                  Ok (setRead (setMem m key amount) key amount, (amount, None))
              end
          end
      end
  end.

(** A key found in [memDB] and not yet read is recorded as read with value 0. *)
Definition Has (m : t) (key : string) : go (t * (bool * option goerr)) :=
  match writeBuffer m !! key with
  | Some _ => Ok (m, (true, None))
  | None =>
      match memDB m !! key with
      | Some _ =>
          Ok (if bool_decide (default 0 (readBuffer m !! key) = 0) then setRead m key 0 else m, (true, None))
      | None => Ok (m, PrefixStore.Has (db m) (of_str key))
      end
  end.

Definition Set_ (m : t) (key : string) (value : Z) : go (t * option goerr) :=
  Ok (mk (db m) (memDB m) (<[key := value]> (writeBuffer m)) (readBuffer m), None).

Definition GetReadSet (m : t) : gmap string Z := readBuffer m.
Definition GetWriteSet (m : t) : gmap string Z := writeBuffer m.

(** The loop over the write buffer puts each entry in [memDB]. *)
Definition CommitWrite (m : t) (do_ : bool) : t :=
  mk (db m) (if do_ then writeBuffer m ∪ memDB m else memDB m) ∅ ∅.

Definition clearMemory (m : t) : t := mk (db m) ∅ (writeBuffer m) (readBuffer m).

Definition putOp (e : string * Z) : BatchOp := BatchSet (of_str e.1) (Uint32ToBytes e.2).
(** The batch is written, and on success the memory is emptied. *)
Definition writeBatch (m : t) (entries : list (string * Z)) : t * option goerr :=
  let '(d, err) := PrefixStore.WriteBatch (db m) (map putOp entries) in
  let m := mk d (memDB m) (writeBuffer m) (readBuffer m) in
  match err with Some err => (m, Some err) | None => (clearMemory m, None) end.
Definition Write (m : t) : go (t * option goerr) := Ok (writeBatch m (map_to_list (memDB m))).

#[global] Instance memDB_inst : MemDB t :=
  {| mGet := Get; mHas := Has; mSet := Set_; mGetReadSet := GetReadSet; mGetWriteSet := GetWriteSet;
     mCommitWrite := CommitWrite; mWrite := Write |}.
End memory.
End MemoryDB.

(** The texts of the overlays' own errors, which end up in receipts. *)
Class OverlayTexts := { outOfRangeText : string; notProvidedText : string -> string }.
#[export] Instance meleteTexts : OverlayTexts :=
  {| outOfRangeText := "out of shard range";
     notProvidedText key := "in transaction processing，read key=" +:+ key +:+ "，but Cross-shard blocks are not provided" |}.

Module RangeDB.
Section range.
Context `{DB, OverlayTexts}.
(** A nil range tree panics when it is searched. *)
Record t := mk { db : MemoryDB.t; rangeTree : option RangeTree.t }.

Definition NewRangeDB (db : MemoryDB.t) (range_tree : option RangeTree.t) : t := mk db range_tree.
Definition search (rangeTree : option RangeTree.t) (key : string) : go bool :=
  let! rt := deref rangeTree in Ok (RangeTree.Search rt key).

Definition outOfRange : goerr := Errorf outOfRangeText.

Definition Get (m : t) (key : string) : go (t * (Z * option goerr)) :=
  let! found := search (rangeTree m) key in
  if found then let! '(d, r) := MemoryDB.Get (db m) key in Ok (mk d (rangeTree m), r)
  else Ok (m, (0, Some outOfRange)).

Definition Has (m : t) (key : string) : go (t * (bool * option goerr)) :=
  let! found := search (rangeTree m) key in
  if found then let! '(d, r) := MemoryDB.Has (db m) key in Ok (mk d (rangeTree m), r)
  else Ok (m, (false, Some outOfRange)).

Definition Set_ (m : t) (key : string) (value : Z) : go (t * option goerr) :=
  let! found := search (rangeTree m) key in
  if found then let! '(d, r) := MemoryDB.Set_ (db m) key value in Ok (mk d (rangeTree m), r)
  else Ok (m, Some outOfRange).

(** The committed entries of the range. *)
Fixpoint inRange (rt : option RangeTree.t) (entries : list (string * Z)) : go (list (string * Z)) :=
  match entries with
  | [] => Ok []
  | e :: entries =>
      let! found := search rt e.1 in
      let! rest := inRange rt entries in
      Ok (if found then e :: rest else rest)
  end.
Definition Write (m : t) : go (t * option goerr) :=
  let! entries := inRange (rangeTree m) (map_to_list (MemoryDB.memDB (db m))) in
  let '(d, err) := MemoryDB.writeBatch (db m) entries in
  Ok (mk d (rangeTree m), err).

Definition GetReadSet (m : t) : gmap string Z := MemoryDB.GetReadSet (db m).
Definition GetWriteSet (m : t) : gmap string Z := MemoryDB.GetWriteSet (db m).
Definition CommitWrite (m : t) (do_ : bool) : t := mk (MemoryDB.CommitWrite (db m) do_) (rangeTree m).

#[global] Instance rangeDB_inst : MemDB t :=
  {| mGet := Get; mHas := Has; mSet := Set_; mGetReadSet := GetReadSet; mGetWriteSet := GetWriteSet;
     mCommitWrite := CommitWrite; mWrite := Write |}.
End range.
End RangeDB.

Module CrossShardDB.
Section cross.
Context `{DB, OverlayTexts}.
Record t := mk { crossShardData : gmap string Z; db : MemoryDB.t }.

Definition NewCrossShardDB (db : MemoryDB.t) (cross_shard_data : gmap string Z) : t := mk cross_shard_data db.
Definition notProvided (key : string) : goerr := Errorf (notProvidedText key).

Definition Get (m : t) (key : string) : go (t * (Z * option goerr)) :=
  match MemoryDB.writeBuffer (db m) !! key with
  | Some out => Ok (m, (out, None))
  | None =>
      match crossShardData m !! key with
      | Some bz => Ok (m, (bz, None))
      | None => Ok (m, (0, Some (notProvided key)))
      end
  end.
Definition Set_ (m : t) (key : string) (value : Z) : go (t * option goerr) :=
  let! '(d, r) := MemoryDB.Set_ (db m) key value in Ok (mk (crossShardData m) d, r).
Definition Has (m : t) (key : string) : go (t * (bool * option goerr)) :=
  Ok (m, (bool_decide (is_Some (MemoryDB.writeBuffer (db m) !! key)) ||
          bool_decide (is_Some (crossShardData m !! key)), None)).
Definition Write (m : t) : go (t * option goerr) :=
  let! '(d, err) := MemoryDB.Write (db m) in Ok (mk (crossShardData m) d, err).

(** The reads are the data that was given. *)
Definition GetReadSet (m : t) : gmap string Z := crossShardData m.
Definition GetWriteSet (m : t) : gmap string Z := MemoryDB.GetWriteSet (db m).
Definition CommitWrite (m : t) (do_ : bool) : t := mk (crossShardData m) (MemoryDB.CommitWrite (db m) do_).

#[global] Instance crossShardDB_inst : MemDB t :=
  {| mGet := Get; mHas := Has; mSet := Set_; mGetReadSet := GetReadSet; mGetWriteSet := GetWriteSet;
     mCommitWrite := CommitWrite; mWrite := Write |}.
End cross.
End CrossShardDB.

(** ** What a transaction may rely on

    [reads] gives the value a read of a key returns, [None] when it fails;
    [base] the values committed before the transaction. [dok] is the invariant
    while a transaction has only read and written; [wok] is what is left when
    the execution failed, and enough to end the transaction. *)
Class MemDBLaws (D : Type) `{MemDB D} := {
  wok : D -> Prop;
  dok : D -> Prop;
  base : D -> string -> Z;
  reads : D -> string -> option Z;
  present : D -> string -> option bool;
  writable : D -> string -> bool;
  dok_wok d : dok d -> wok d;
  reads_writable d key : dok d -> is_Some (reads d key) -> writable d key = true;
  present_writable d key : dok d -> present d key = Some false -> writable d key = true;
  Get_law d key : dok d ->
    exists d' r, mGet d key = Ok (d', r) /\
      match reads d key with
      | Some v => r = (v, None) /\ (mGetWriteSet d !! key = None -> mGetReadSet d' !! key = Some v)
      | None => is_Some r.2
      end /\
      dok d' /\ mGetWriteSet d' = mGetWriteSet d /\ mGetReadSet d ⊆ mGetReadSet d' /\
      (forall k, base d' k = base d k) /\ (forall k, reads d' k = reads d k) /\
      (forall k, writable d' k = writable d k);
  Has_law d key : dok d ->
    exists d' r, mHas d key = Ok (d', r) /\ wok d' /\ (forall k, base d' k = base d k) /\
      match present d key with
      | Some b => r = (b, None) /\ (b = false -> d' = d)
      | None => is_Some r.2
      end;
  Set_law d key v : dok d -> in_u 32 v -> writable d key = true ->
    exists d', mSet d key v = Ok (d', None) /\ dok d' /\
      mGetWriteSet d' = <[key := v]> (mGetWriteSet d) /\ mGetReadSet d' = mGetReadSet d /\
      (forall k, base d' k = base d k) /\ (forall k, writable d' k = writable d k);
  Set_refused d key v : dok d -> writable d key = false ->
    exists e, mSet d key v = Ok (d, Some e);
  Commit_law d b : wok d ->
    dok (mCommitWrite d b) /\ mGetWriteSet (mCommitWrite d b) = ∅ /\
    forall k, base (mCommitWrite d b) k =
      if b then default (base d k) (mGetWriteSet d !! k) else base d k
}.

(** ** The values in the database *)

Section laws.
Context `{DBLaws, OverlayTexts}.

(** Every stored balance can be decoded; an absent or empty one reads as
    [initBalance]. *)
Definition stored (d : Database) (key : string) : bytes :=
  default [] (contents d !! PrefixStore.toDataKey (of_str key)).
Definition decodable (d : Database) : Prop := forall key, stored d key = [] \/ (4 <= length (stored d key))%nat.
Definition balance (d : Database) (key : string) : Z :=
  match stored d key with
  | [] => initBalance
  | bz => match BytesToUint32 bz with Ok v => v | _ => 0 end
  end.

Lemma balance_range d key : decodable d -> in_u 32 (balance d key).
Proof.
  intros Hd. unfold balance. specialize (Hd key). destruct (stored d key) as [|b bz]; [unfold in_u, initBalance; lia|].
  destruct (BytesToUint32 (b :: bz)) eqn:E; [by eapply BytesToUint32_range|unfold in_u; lia..].
Qed.

Lemma Get_balance d key : decodable d ->
  (let '(bz, err) := PrefixStore.Get d (of_str key) in
   match err, default [] bz with
   | Some _, _ | None, [] => Ok initBalance
   | None, bz => BytesToUint32 bz
   end) = Ok (balance d key).
Proof.
  intros Hd. unfold PrefixStore.Get. rewrite dbGet_spec by done. fold (stored d key). unfold balance.
  specialize (Hd key). destruct (stored d key) as [|b bz]; [done|]. destruct Hd as [|Hd]; [done|].
  unfold BytesToUint32, leUint. destruct (Nat.ltb_spec (length (b :: bz)) 4); [lia|done].
Qed.

(** *** [MemoryDB] *)

Definition mbase (m : MemoryDB.t) (key : string) : Z :=
  default (balance (MemoryDB.db m) key) (MemoryDB.memDB m !! key).
Definition mvalue (m : MemoryDB.t) (key : string) : Z :=
  default (mbase m key) (MemoryDB.writeBuffer m !! key).
Definition typedMap (m : gmap string Z) : Prop := map_Forall (fun _ v => in_u 32 v) m.

Record mwok (m : MemoryDB.t) : Prop := {
  mw_db : decodable (MemoryDB.db m);
  mw_mem : typedMap (MemoryDB.memDB m);
  mw_write : typedMap (MemoryDB.writeBuffer m)
}.
Record mdok (m : MemoryDB.t) : Prop := {
  md_wok : mwok m;
  md_read key v : MemoryDB.readBuffer m !! key = Some v -> v = mbase m key
}.

Lemma mbase_range m key : mwok m -> in_u 32 (mbase m key).
Proof.
  intros [Hd Hm _]. unfold mbase. destruct (MemoryDB.memDB m !! key) as [v|] eqn:E; [exact (Hm key v E)|].
  by apply balance_range.
Qed.

Lemma mvalue_range m key : mwok m -> in_u 32 (mvalue m key).
Proof.
  intros W. unfold mvalue. destruct (MemoryDB.writeBuffer m !! key) as [v|] eqn:E.
  - exact (mw_write m W key v E).
  - by apply mbase_range.
Qed.

Lemma mbase_setMem m key k : mbase (MemoryDB.setMem m key (mbase m key)) k = mbase m k.
Proof.
  unfold mbase at 1, MemoryDB.setMem. cbn. destruct (decide (k = key)) as [->|Hk].
  - by rewrite lookup_insert_eq.
  - by rewrite lookup_insert_ne.
Qed.

Lemma mdok_setRead m key : mdok m -> mdok (MemoryDB.setRead m key (mbase m key)).
Proof.
  intros [W R]. split; [by destruct W|]. intros k v. cbn. unfold mbase in *. cbn.
  destruct (decide (k = key)) as [->|Hk]; [rewrite lookup_insert_eq; congruence|].
  rewrite lookup_insert_ne by done. apply R.
Qed.

Lemma mdok_setMem m key : mdok m -> mdok (MemoryDB.setMem m key (mbase m key)).
Proof.
  intros [W R]. split.
  - pose proof (mbase_range m key W). destruct W as [Wd Wm Ww]. split; cbn; [done| |done].
    apply map_Forall_insert_2; done.
  - intros k v. rewrite mbase_setMem. apply R.
Qed.

(** A read that is recorded. *)
Definition reading (m m' : MemoryDB.t) (key : string) : Prop :=
  mdok m' /\ MemoryDB.writeBuffer m' = MemoryDB.writeBuffer m /\
  MemoryDB.readBuffer m ⊆ MemoryDB.readBuffer m' /\
  (forall k, mbase m' k = mbase m k) /\
  (MemoryDB.writeBuffer m !! key = None -> MemoryDB.readBuffer m' !! key = Some (mvalue m key)).

Lemma reading_setRead m key : mdok m -> MemoryDB.readBuffer m !! key = None ->
  MemoryDB.writeBuffer m !! key = None -> reading m (MemoryDB.setRead m key (mbase m key)) key.
Proof.
  intros Hm Hr Hw. split; [by apply mdok_setRead|]. split; [done|]. split; [by apply insert_subseteq|].
  split; [done|]. intros _. cbn. unfold mvalue. by rewrite lookup_insert_eq, Hw.
Qed.

Lemma MemoryDB_Get_spec m key : mdok m ->
  exists m', MemoryDB.Get m key = Ok (m', (mvalue m key, None)) /\ reading m m' key.
Proof.
  intros Hm. unfold MemoryDB.Get, mvalue at 1.
  destruct (MemoryDB.writeBuffer m !! key) as [v|] eqn:Ew.
  { exists m. split; [done|]. split; [done|]. by rewrite Ew. }
  destruct (MemoryDB.readBuffer m !! key) as [v|] eqn:Er.
  { pose proof (md_read m Hm key v Er) as ->. exists m. split; [done|]. split; [done|].
    unfold mvalue. by rewrite Ew. }
  cbn [default]. destruct (MemoryDB.memDB m !! key) as [v|] eqn:Em.
  { assert (mbase m key = v) as <- by (unfold mbase; by rewrite Em).
    eexists. split; [done|]. by apply reading_setRead. }
  assert (mbase m key = balance (MemoryDB.db m) key) as E by (unfold mbase; by rewrite Em).
  pose proof (Get_balance (MemoryDB.db m) key (mw_db _ (md_wok m Hm))) as Eb. rewrite <- E in Eb.
  pose proof (reading_setRead m key Hm Er Ew) as R1.
  pose proof (reading_setRead (MemoryDB.setMem m key (mbase m key)) key (mdok_setMem m key Hm) Er Ew) as R2.
  rewrite mbase_setMem in R2.
  assert (reading m (MemoryDB.setRead (MemoryDB.setMem m key (mbase m key)) key (mbase m key)) key) as R3.
  { destruct R2 as (A & B & C & D' & F). split; [done|]. split; [done|]. split; [done|].
    split; [intros k; rewrite D'; apply mbase_setMem|]. intros _. rewrite F by done. f_equal.
    unfold mvalue. cbn. rewrite Ew. apply mbase_setMem. }
  destruct (PrefixStore.Get _ _) as [bz [err|]].
  { injection Eb as Eb. rewrite Eb. eauto. }
  destruct (default [] bz) as [|b rest].
  { injection Eb as Eb. rewrite Eb. eauto. }
  rewrite Eb. cbn [gbind]. eauto.
Qed.

Definition mpresent (m : MemoryDB.t) (key : string) : bool :=
  bool_decide (is_Some (MemoryDB.writeBuffer m !! key)) || bool_decide (is_Some (MemoryDB.memDB m !! key)) ||
  bool_decide (is_Some (contents (MemoryDB.db m) !! PrefixStore.toDataKey (of_str key))).

Lemma MemoryDB_Has_spec m key : mwok m ->
  exists m', MemoryDB.Has m key = Ok (m', (mpresent m key, None)) /\ mwok m' /\
    (forall k, mbase m' k = mbase m k) /\ (mpresent m key = false -> m' = m).
Proof.
  intros Hm. unfold MemoryDB.Has, mpresent.
  destruct (MemoryDB.writeBuffer m !! key) as [v|]; [by exists m|].
  destruct (MemoryDB.memDB m !! key) as [v|].
  - eexists. split; [reflexivity|]. case_bool_decide; (split; [by destruct Hm|]); done.
  - exists m. split; [|done]. unfold PrefixStore.Has. by rewrite dbHas_spec.
Qed.

Lemma MemoryDB_Set_spec m key v : mdok m -> in_u 32 v ->
  exists m', MemoryDB.Set_ m key v = Ok (m', None) /\ mdok m' /\
    MemoryDB.writeBuffer m' = <[key := v]> (MemoryDB.writeBuffer m) /\
    MemoryDB.readBuffer m' = MemoryDB.readBuffer m /\ (forall k, mbase m' k = mbase m k).
Proof.
  intros [[Wd Wm Ww] R] Hv. eexists. split; [reflexivity|]. split; [|done].
  split; [split; [done|done|]|exact R]. by apply map_Forall_insert_2.
Qed.

Lemma MemoryDB_Commit_spec m b : mwok m ->
  mdok (MemoryDB.CommitWrite m b) /\ MemoryDB.writeBuffer (MemoryDB.CommitWrite m b) = ∅ /\
  forall k, mbase (MemoryDB.CommitWrite m b) k =
    if b then default (mbase m k) (MemoryDB.writeBuffer m !! k) else mbase m k.
Proof.
  intros [Wd Wm Ww]. split; [|split; [done|]].
  - split; [split; cbn; [done| |done]|done]. destruct b; [|done].
    intros k v [E|[_ E]]%lookup_union_Some_raw; [exact (Ww k v E)|exact (Wm k v E)].
  - intros k. unfold mbase. cbn. destruct b; [|done]. rewrite lookup_union.
    destruct (MemoryDB.writeBuffer m !! k); cbn; [by destruct (MemoryDB.memDB m !! k)|].
    by destruct (MemoryDB.memDB m !! k).
Qed.

(** *** Writing to the database *)

Lemma batch_lookup (entries : list (string * Z)) (c : gmap bytes bytes) (key : string) : NoDup entries.*1 ->
  fold_left applyOp (map PrefixStore.batchOp (map MemoryDB.putOp entries)) c !! PrefixStore.toDataKey (of_str key) =
  match (list_to_map entries : gmap string Z) !! key with
  | Some v => Some (Uint32ToBytes v)
  | None => c !! PrefixStore.toDataKey (of_str key)
  end.
Proof.
  revert c. induction entries as [|[k v] entries IH]; intros c; cbn [map fold_left list_to_map]; [done|].
  intros [Hk Hnd]%NoDup_cons. rewrite IH by done. cbn. destruct (decide (key = k)) as [->|Hne].
  - rewrite lookup_insert_eq, not_elem_of_list_to_map_1 by done. cbn. by rewrite lookup_insert_eq.
  - rewrite (lookup_insert_ne _ k) by done. destruct (list_to_map entries !! key); [done|].
    apply lookup_insert_ne. intros E%PrefixStore.toDataKey_inj%of_str_inj. congruence.
Qed.

Lemma writeBatch_spec m (entries : list (string * Z)) : decodable (MemoryDB.db m) -> NoDup entries.*1 ->
  Forall (fun e => in_u 32 e.2) entries ->
  exists d, MemoryDB.writeBatch m entries =
    (MemoryDB.mk d ∅ (MemoryDB.writeBuffer m) (MemoryDB.readBuffer m), None) /\ decodable d /\
    forall key, balance d key = default (balance (MemoryDB.db m) key) ((list_to_map entries : gmap string Z) !! key).
Proof.
  intros Hd Hnd Hv. unfold MemoryDB.writeBatch.
  destruct (PrefixStore.WriteBatch_contents (MemoryDB.db m) (map MemoryDB.putOp entries)) as (d & -> & Ec).
  exists d. split; [done|].
  assert (forall key, stored d key =
    match (list_to_map entries : gmap string Z) !! key with Some v => Uint32ToBytes v | None => stored (MemoryDB.db m) key end) as Es.
  { intros key. unfold stored. rewrite Ec, batch_lookup by done. by destruct (list_to_map entries !! key). }
  split.
  - intros key. rewrite Es. destruct (list_to_map entries !! key); [|apply Hd]. right. by rewrite Uint32ToBytes_length.
  - intros key. unfold balance. rewrite Es. destruct (list_to_map entries !! key) as [v|] eqn:E; [|done]. cbn [default].
    apply elem_of_list_to_map_2 in E. rewrite Forall_forall in Hv. specialize (Hv _ E). cbn in Hv.
    pose proof (BytesToUint32_app v [] Hv) as Eb. rewrite app_nil_r in Eb.
    pose proof (Uint32ToBytes_length v) as L. destruct (Uint32ToBytes v); [done|]. by rewrite Eb.
Qed.

Lemma Write_spec m : mwok m ->
  exists d, MemoryDB.Write m = Ok (MemoryDB.mk d ∅ (MemoryDB.writeBuffer m) (MemoryDB.readBuffer m), None) /\
    decodable d /\ forall key, balance d key = mbase m key.
Proof.
  intros [Wd Wm Ww]. unfold MemoryDB.Write.
  destruct (writeBatch_spec m (map_to_list (MemoryDB.memDB m))) as (d & -> & Hd & Hb); [done|apply NoDup_fst_map_to_list| |].
  - apply Forall_forall. intros [k v] E%elem_of_map_to_list. exact (Wm k v E).
  - exists d. split; [done|]. split; [done|]. intros key. by rewrite Hb, list_to_map_to_list.
Qed.

Lemma inRange_filter rt entries :
  RangeDB.inRange (Some rt) entries = Ok (List.filter (fun e => RangeTree.Search rt e.1) entries).
Proof.
  induction entries as [|e entries IH]; cbn; [done|]. rewrite IH. cbn. by destruct (RangeTree.Search rt e.1).
Qed.

Lemma filter_list_to_map (P : string -> bool) (entries : list (string * Z)) key : NoDup entries.*1 ->
  (list_to_map (List.filter (fun e => P e.1) entries) : gmap string Z) !! key =
  if P key then (list_to_map entries : gmap string Z) !! key else None.
Proof.
  induction entries as [|[k v] entries IH]; cbn [List.filter list_to_map fst]; [by destruct (P key)|].
  intros [Hk Hnd]%NoDup_cons. destruct (decide (key = k)) as [->|Hne].
  - cbn. rewrite lookup_insert_eq. destruct (P k) eqn:E; cbn.
    + by rewrite lookup_insert_eq.
    + rewrite IH by done. by destruct (P k).
  - cbn. rewrite (lookup_insert_ne _ k) by done. destruct (P k); cbn; [rewrite lookup_insert_ne by done|]; by apply IH.
Qed.

Lemma filter_fst_NoDup (P : string -> bool) (entries : list (string * Z)) :
  NoDup entries.*1 -> NoDup (List.filter (fun e => P e.1) entries).*1.
Proof.
  induction entries as [|[k v] entries IH]; cbn; [done|]. intros [Hk Hnd]%NoDup_cons.
  destruct (P k); cbn; [|by apply IH]. apply NoDup_cons. split; [|by apply IH].
  intros Hin. apply Hk. apply list_elem_of_fmap in Hin as ([k' v'] & -> & Hin).
  apply list_elem_of_fmap. exists (k', v'). split; [done|].
  rewrite list_elem_of_In in Hin |- *. by apply filter_In in Hin as [? _].
Qed.

(** *** [RangeDB] *)

(** Writing back changes the keys of the range to the committed values and no
    other. *)
Lemma RangeDB_Write_spec m rt : RangeDB.rangeTree m = Some rt -> mwok (RangeDB.db m) ->
  exists m', RangeDB.Write m = Ok (m', None) /\ decodable (MemoryDB.db (RangeDB.db m')) /\
    forall key, balance (MemoryDB.db (RangeDB.db m')) key =
      if RangeTree.Search rt key then mbase (RangeDB.db m) key else balance (MemoryDB.db (RangeDB.db m)) key.
Proof.
  intros Hrt [Wd Wm Ww]. unfold RangeDB.Write. rewrite Hrt, inRange_filter. cbn [gbind].
  set (l := map_to_list (MemoryDB.memDB (RangeDB.db m))).
  assert (NoDup l.*1) as Hnd by apply NoDup_fst_map_to_list.
  destruct (writeBatch_spec (RangeDB.db m) (List.filter (fun e => RangeTree.Search rt e.1) l)) as (d & -> & Hd & Hb);
    [done|by apply filter_fst_NoDup| |].
  - apply Forall_forall. intros [k v] E. rewrite list_elem_of_In in E. apply filter_In in E as [E _].
    rewrite <- list_elem_of_In in E. apply elem_of_map_to_list in E. exact (Wm k v E).
  - eexists. split; [reflexivity|]. split; [done|]. intros key. cbn. rewrite Hb, filter_list_to_map by done.
    unfold l, mbase. rewrite list_to_map_to_list. by destruct (RangeTree.Search rt key).
Qed.

(** *** The laws *)

#[local] Obligation Tactic := idtac.
#[export] Program Instance memory_laws : MemDBLaws MemoryDB.t :=
  {| wok := mwok; dok := mdok; base := mbase; reads m key := Some (mvalue m key);
     present m key := Some (mpresent m key); writable _ _ := true; dok_wok := md_wok |}.
Next Obligation. done. Qed.
Next Obligation. done. Qed.
Next Obligation.
  intros m key Hm. destruct (MemoryDB_Get_spec m key Hm) as (m' & E & R1 & R2 & R3 & R4 & R5).
  exists m', (mvalue m key, None). split; [exact E|]. split; [by split|].
  split_and!; try done. intros k. unfold mvalue. by rewrite R2, R4.
Qed.
Next Obligation.
  intros m key Hm. destruct (MemoryDB_Has_spec m key (md_wok m Hm)) as (m' & E & W & B & F).
  exists m', (mpresent m key, None). split; [exact E|]. by split.
Qed.
Next Obligation.
  intros m key v Hm Hv _. destruct (MemoryDB_Set_spec m key v Hm Hv) as (m' & E & W & B & F & G).
  by exists m'.
Qed.
Next Obligation. done. Qed.
Next Obligation. intros m b Hm. by apply MemoryDB_Commit_spec. Qed.

Definition searched (m : RangeDB.t) (key : string) : bool :=
  match RangeDB.rangeTree m with Some rt => RangeTree.Search rt key | None => false end.

#[export] Program Instance range_laws : MemDBLaws RangeDB.t :=
  {| wok m := mwok (RangeDB.db m) /\ is_Some (RangeDB.rangeTree m);
     dok m := mdok (RangeDB.db m) /\ is_Some (RangeDB.rangeTree m);
     base m := mbase (RangeDB.db m);
     reads m key := if searched m key then Some (mvalue (RangeDB.db m) key) else None;
     present m key := if searched m key then Some (mpresent (RangeDB.db m) key) else None;
     writable := searched |}.
Next Obligation. intros m [Hm Hr]. by destruct Hm. Qed.
Next Obligation. intros m key _. cbn. destruct (searched m key); [done|]. by intros []. Qed.
Next Obligation. intros m key _. cbn. by destruct (searched m key). Qed.
Next Obligation.
  intros [d rt0] key [Hm [rt Hrt]]. cbn in *. subst rt0.
  unfold RangeDB.Get, RangeDB.search, searched. cbn. destruct (RangeTree.Search rt key) eqn:Es.
  - destruct (MemoryDB_Get_spec d key Hm) as (m' & E & R1 & R2 & R3 & R4 & R5). rewrite E. cbn.
    eexists _, _. split; [reflexivity|]. cbn. split; [by split|].
    split_and!; try done. intros k. unfold mvalue. by rewrite R2, R4.
  - eexists _, _. split; [reflexivity|]. by split_and!.
Qed.
Next Obligation.
  intros [d rt0] key [Hm [rt Hrt]]. cbn in *. subst rt0.
  unfold RangeDB.Has, RangeDB.search, searched. cbn. destruct (RangeTree.Search rt key) eqn:Es.
  - destruct (MemoryDB_Has_spec d key (md_wok d Hm)) as (m' & E & W & B & F). rewrite E. cbn.
    eexists _, _. split; [reflexivity|]. cbn. split_and!; try done.
    intros Hf. by rewrite F.
  - eexists _, _. split; [reflexivity|]. cbn. split_and!; try done; by destruct Hm.
Qed.
Next Obligation.
  intros [d rt0] key v [Hm [rt Hrt]] Hv. cbn in *. subst rt0.
  unfold RangeDB.Set_, RangeDB.search, searched. cbn [RangeDB.db RangeDB.rangeTree deref gbind]. intros Es. rewrite Es.
  destruct (MemoryDB_Set_spec d key v Hm Hv) as (m' & E & W & B & F & G). rewrite E. cbn.
  eexists. split; [reflexivity|]. cbn. by split_and!.
Qed.
Next Obligation.
  intros [d rt0] key v [Hm [rt Hrt]]. cbn in *. subst rt0.
  unfold RangeDB.Set_, RangeDB.search, searched. cbn. intros ->. by eexists.
Qed.
Next Obligation.
  intros [d rt0] b [Hm Hrt]. cbn in *. destruct (MemoryDB_Commit_spec d b Hm) as (A & B & C).
  by split_and!.
Qed.

(** The values of a cross-shard execution are the data and the own writes. *)
Definition cvalue (m : CrossShardDB.t) (key : string) : option Z :=
  match MemoryDB.writeBuffer (CrossShardDB.db m) !! key with
  | Some v => Some v
  | None => CrossShardDB.crossShardData m !! key
  end.

#[export] Program Instance cross_laws : MemDBLaws CrossShardDB.t :=
  {| wok m := mwok (CrossShardDB.db m); dok m := mdok (CrossShardDB.db m);
     base m := mbase (CrossShardDB.db m); reads := cvalue;
     present m key := Some (bool_decide (is_Some (cvalue m key))); writable _ _ := true |}.
Next Obligation. intros m Hm. by destruct Hm. Qed.
Next Obligation. done. Qed.
Next Obligation. done. Qed.
Next Obligation.
  intros m key Hm. unfold cvalue. cbn. unfold CrossShardDB.Get.
  destruct (MemoryDB.writeBuffer _ !! key) as [v|] eqn:Ew;
    [|destruct (CrossShardDB.crossShardData m !! key) as [v|] eqn:Ec];
    (eexists _, _; split; [reflexivity|]; cbn; split_and!; try done; try (intros E0; exfalso; clear -E0 Ew; unfold CrossShardDB.GetWriteSet, MemoryDB.GetWriteSet in E0; congruence); eauto).
Qed.
Next Obligation.
  intros m key Hm. cbn. unfold CrossShardDB.Has, cvalue. eexists _, _. split; [reflexivity|].
  split; [by destruct Hm|]. split; [done|]. split; [|done]. f_equal.
  by destruct (MemoryDB.writeBuffer _ !! key).
Qed.
Next Obligation.
  intros m key v Hm Hv _. unfold mSet, CrossShardDB.crossShardDB_inst, CrossShardDB.Set_.
  destruct (MemoryDB_Set_spec (CrossShardDB.db m) key v Hm Hv) as (m' & E & W & B & F & G). rewrite E. cbn.
  eexists. split; [reflexivity|]. cbn. by split_and!.
Qed.
Next Obligation. done. Qed.
Next Obligation.
  intros m b Hm. cbn in *. destruct (MemoryDB_Commit_spec (CrossShardDB.db m) b Hm) as (A & B & C).
  by split_and!.
Qed.
End laws.
