(* ===== verification/BankTx.v ===== *)
(** * Transactions of the bank: [abci/minibank/types.go]

    The two kinds of transactions with their bytes, the validity of a transfer,
    and the encoding of the values a cross-shard transaction read. *)

From S2P Require Import Prelude Convert Wire Codecs.
Local Open Scope Z_scope.

(** ** [proto/melete/abci/minibank] *)

Record pbTransferTx := mkTransferTx {
  From : list string; To : list string; FromMoney : list Z; ToMoney : list Z;
  TBuffer : bytes; TTime : option Time }.
Record pbInsertTx := mkInsertTx { Account : string; Money : Z; IBuffer : bytes; ITime : option Time }.
Record pbBankData := mkBankData { Keys : list string; OK : bool; Values : list Z }.

#[export] Instance pbTransferTx_eq_dec : EqDecision pbTransferTx.
Proof. solve_decision. Defined.
#[export] Instance pbInsertTx_eq_dec : EqDecision pbInsertTx.
Proof. solve_decision. Defined.
#[export] Instance pbBankData_eq_dec : EqDecision pbBankData.
Proof. solve_decision. Defined.

(** The kind of a transaction is in its first four bytes ([message.go]). *)
Definition TxTransfer : Z := 10.
Definition TxInsert : Z := 11.

Section tx.
Context `{!Codec pbTransferTx, !Codec pbInsertTx, !Codec pbBankData}.

Definition TransferBytes (tx : pbTransferTx) : go bytes :=
  let! bz := MustProtoBytes tx in Ok (Uint32ToBytes TxTransfer ++ bz).
Definition InsertBytes (tx : pbInsertTx) : go bytes :=
  let! bz := MustProtoBytes tx in Ok (Uint32ToBytes TxInsert ++ bz).
Definition TransferTxSize (tx : pbTransferTx) : go Z := let! bz := TransferBytes tx in Ok (zlen bz).
Definition InsertTxSize (tx : pbInsertTx) : go Z := let! bz := InsertBytes tx in Ok (zlen bz).

(** The reading of the clock is an argument. *)
Definition NewTransferTx (froms : list string) (fromMoney : list Z) (tos : list string) (toMoney : list Z)
    (now : Time) : pbTransferTx :=
  mkTransferTx froms tos fromMoney toMoney [] (Some (ThirdPartyProtoTime now)).
Definition NewInsertTx (account : string) (money : Z) (now : Time) : pbInsertTx :=
  mkInsertTx account money [] (Some (ThirdPartyProtoTime now)).

(** The bytes are all the digit 0; a negative length panics. *)
Definition GenerateRandomBytes (n : Z) : go bytes :=
  if n <? 0 then Panic else Ok (replicate (Z.to_nat n) Byte.x30).

(** Padded up to a size. *)
Definition NewTransferTxMustLen (froms : list string) (fromMoney : list Z) (tos : list string) (toMoney : list Z)
    (mustLen : Z) (now : Time) : go pbTransferTx :=
  let tx := NewTransferTx froms fromMoney tos toMoney now in
  let! size := TransferTxSize tx in
  let delta := mustLen - size in
  if delta >? 0 then
    let! buffer := GenerateRandomBytes delta in
    Ok (mkTransferTx (From tx) (To tx) (FromMoney tx) (ToMoney tx) buffer (TTime tx))
  else Ok tx.
Definition NewInsertTxMustLen (account : string) (money mustLen : Z) (now : Time) : go pbInsertTx :=
  let tx := NewInsertTx account money now in
  let! size := InsertTxSize tx in
  let delta := mustLen - size in
  if delta >? 0 then
    let! buffer := GenerateRandomBytes delta in
    Ok (mkInsertTx (Account tx) (Money tx) buffer (ITime tx))
  else Ok tx.

(** The sums are of machine words: they wrap. *)
Definition sum32 (l : list Z) : Z := fold_left (fun s money => wrap_u 32 (s + money)) l 0.
Definition ValidateTransferTx (tx : pbTransferTx) : option goerr :=
  if negb (zlen (From tx) =? zlen (FromMoney tx)) || negb (zlen (To tx) =? zlen (ToMoney tx)) then
    Some (Errorf "From/FromMoney and To/ToMoney have different lengths")
  else if (zlen (From tx) =? 0) || (zlen (To tx) =? 0) then Some (Errorf "From/To is empty")
  else if negb (sum32 (FromMoney tx) =? sum32 (ToMoney tx)) then
    Some (Errorf " FromMoney and ToMoney is not equal")
  else None.

(** The first four bytes are skipped, so there must be four; [None] is an error
    of the decoder. *)
Definition NewTransferTxFromBytes (txBytes : bytes) : go (option pbTransferTx) :=
  if (length txBytes <? 4)%nat then Panic else Ok (Unmarshal (drop 4 txBytes)).

(** ** The values a transaction read *)

Fixpoint fillData (keys : list string) (values : list Z) (out : gmap string Z) : go (gmap string Z) :=
  match keys, values with
  | [], _ => Ok out
  | key :: keys, value :: values => fillData keys values (<[key := value]> out)
  | _ :: _, [] => Panic
  end.
Definition NewCrossShardDataFromBytes (bz : bytes) : go (option (gmap string Z * bool)) :=
  match Unmarshal bz with
  | None => Ok None
  | Some bd => let! out := fillData (Keys bd) (Values bd) ∅ in Ok (Some (out, OK bd))
  end.

Definition toBankData (data : gmap string Z) (ok : bool) : pbBankData :=
  let keyList := sortStrings (map fst (map_to_list data)) in
  mkBankData keyList ok (map (fun key => default 0 (data !! key)) keyList).
Definition CrossShardDataBytes (data : gmap string Z) (ok : bool) : go bytes :=
  MustProtoBytes (toBankData data ok).

Lemma fillData_spec keys (data : gmap string Z) out : NoDup keys -> (forall k, k ∈ keys -> is_Some (data !! k)) ->
  exists out', fillData keys (map (fun key => default 0 (data !! key)) keys) out = Ok out' /\
    forall k, out' !! k = if decide (k ∈ keys) then data !! k else out !! k.
Proof.
  revert out. induction keys as [|key keys IH]; intros out; cbn [fillData map].
  - intros _ _. exists out. split; [done|]. intros k. rewrite decide_False; [done|]. by apply not_elem_of_nil.
  - intros [Hk Hnd]%NoDup_cons Hd. destruct (IH (<[key := default 0 (data !! key)]> out)) as (out' & E & Ho); [done| |].
    { intros k ?. apply Hd. by constructor. }
    exists out'. split; [done|]. intros k. rewrite Ho. destruct (decide (k ∈ keys)) as [Hin|Hin].
    + by rewrite decide_True by by constructor.
    + destruct (decide (k = key)) as [->|Hne].
      * rewrite lookup_insert_eq, decide_True by constructor.
        destruct (Hd key) as [v ->]; [constructor|done].
      * rewrite lookup_insert_ne by done. rewrite decide_False; [done|].
        intros [?|?]%elem_of_cons; done.
Qed.

Lemma data_restored data ok bz : CrossShardDataBytes data ok = Ok bz ->
  NewCrossShardDataFromBytes bz = Ok (Some (data, ok)).
Proof.
  intros Hm. unfold CrossShardDataBytes, MustProtoBytes in Hm. unfold NewCrossShardDataFromBytes.
  destruct (Marshal (toBankData data ok)) as [b|] eqn:E; [|done]. injection Hm as ->.
  rewrite (Unmarshal_Marshal _ _ E). unfold toBankData. cbn [Keys Values OK].
  set (keys := sortStrings _).
  assert (keys ≡ₚ map fst (map_to_list data)) as Hp by apply merge_sort_Permutation.
  destruct (fillData_spec keys data ∅) as (out & -> & Ho).
  - rewrite Hp. apply NoDup_fst_map_to_list.
  - intros k. rewrite Hp. intros ([k' v] & -> & Hin)%list_elem_of_fmap.
    apply elem_of_map_to_list in Hin. by exists v.
  - cbn [gbind]. do 3 f_equal. apply map_eq. intros k. rewrite Ho. case_decide as D; [done|].
    rewrite lookup_empty. destruct (data !! k) as [v|] eqn:Ek; [|done]. destruct D. rewrite Hp.
    apply list_elem_of_fmap. exists (k, v). split; [done|]. by apply elem_of_map_to_list.
Qed.

(** The values a cross-shard transaction read are restored from the bytes
    sent with the block, with whether it was executed. *)
Theorem CrossShardDataBytes_roundtrip data ok bz (Hm : CrossShardDataBytes data ok = Ok bz) :
  NewCrossShardDataFromBytes bz = Ok (Some (data, ok)).
Proof. exact (data_restored data ok bz Hm). Qed.
End tx.

(** ** A concrete encoding, and an evaluation *)

Definition serBool : Ser bool :=
  serMap serZ (fun b : bool => if b then 1 else 0) (fun z : Z => z =? 1) (fun b : bool => match b with true => eq_refl | false => eq_refl end).
Definition serTransferTx : Ser pbTransferTx :=
  serMap (serPair (serPair (serList serString) (serList serString))
            (serPair (serPair (serList serZ) (serList serZ)) (serPair serBytes (serOption serTime))))
    (fun m => ((From m, To m), ((FromMoney m, ToMoney m), (TBuffer m, TTime m))))
    (fun x => mkTransferTx x.1.1 x.1.2 x.2.1.1 x.2.1.2 x.2.2.1 x.2.2.2)
    (fun m => match m with mkTransferTx _ _ _ _ _ _ => eq_refl end).
Definition serInsertTx : Ser pbInsertTx :=
  serMap (serPair (serPair serString serZ) (serPair serBytes (serOption serTime)))
    (fun m => ((Account m, Money m), (IBuffer m, ITime m)))
    (fun x => mkInsertTx x.1.1 x.1.2 x.2.1 x.2.2) (fun m => match m with mkInsertTx _ _ _ _ => eq_refl end).
Definition serBankData : Ser pbBankData :=
  serMap (serPair (serList serString) (serPair serBool (serList serZ))) (fun m => (Keys m, (OK m, Values m)))
    (fun x => mkBankData x.1 x.2.1 x.2.2) (fun m => match m with mkBankData _ _ _ => eq_refl end).

Module BankTxDemo.
(** Money fields are 32-bit words. *)
Definition isU32 (v : Z) : bool := (0 <=? v) && (v <? 2 ^ 32).
#[export] Instance transferSer : Codec pbTransferTx :=
  restrict (fun t => forallb isU32 (FromMoney t) && forallb isU32 (ToMoney t)) (SerCodec serTransferTx).
#[export] Instance insertSer : Codec pbInsertTx := restrict (fun t => isU32 (Money t)) (SerCodec serInsertTx).
#[export] Instance bankDataSer : Codec pbBankData := SerCodec serBankData.

Definition someData : gmap string Z := {["a" := 7; "b" := 4294967295]}.
Definition someBytes : bytes := put serBankData (toBankData someData true).

Lemma CrossShardDataBytes_roundtrip_witness :
  CrossShardDataBytes someData true = Ok someBytes /\
  NewCrossShardDataFromBytes someBytes = Ok (Some (someData, true)).
Proof.
  assert (CrossShardDataBytes someData true = Ok someBytes) as E by reflexivity.
  split; [exact E|exact (CrossShardDataBytes_roundtrip someData true someBytes E)].
Defined.
End BankTxDemo.
