(* ===== verification/Bank.v ===== *)
(** * The bank application: [abci/minibank/bank.go], [utils/dep-graph.go]

    The application validates transactions, executes the cross-shard
    transactions of its own blocks in advance and records what they read,
    votes on the blocks of the related shards, and executes the agreed blocks.
    A transaction runs against the interface of [MemDB]. *)

From S2P Require Import Prelude BitVector Convert Hash Wire Types RangeTree ShardInfo.
From S2P Require Import Store MemDB BankTx.
Local Open Scope Z_scope.

(** ** [dep-graph.go]: the last writer of every key *)

Module DependencyGraph.
Definition t := gmap string Z.
Definition NewDependencyGraph : t := ∅.
Definition AddWrite (dg : t) (w : string) (index : Z) : t := <[w := index]> dg.
Definition AddRead (dg : t) (r : string) : option Z := dg !! r.
Definition Map (dg : t) : gmap string Z := dg.
End DependencyGraph.
Import DependencyGraph (NewDependencyGraph, AddWrite, AddRead).

(** ** One transaction *)

Module Tx.
Section tx.
Context {D : Type} `{MemDB D} (LockedKeys : gmap string bool).

(** A step that may end the transaction with an error. *)
Definition res (A : Type) : Type := go (D * (A + goerr)).
Definition ret {A} (d : D) (a : A) : res A := Ok (d, inl a).
Definition fail {A} (d : D) (e : goerr) : res A := Ok (d, inr e).
Definition tbind {A B} (m : res A) (f : D -> A -> res B) : res B :=
  let! '(d, r) := m in match r with inl a => f d a | inr e => fail d e end.

Definition locked (key : string) : bool := default false (LockedKeys !! key).
Definition isLocked : goerr := Errorf "The primary key is locked".

Definition read (d : D) (key : string) : res Z :=
  let! '(d, (v, err)) := mGet d key in
  match err with Some e => fail d e | None => ret d v end.

(** The balances of the senders after they paid. *)
Fixpoint debit (d : D) (from : list string) (money : list Z) : res (list Z) :=
  match from with
  | [] => ret d []
  | fromKey :: from =>
      if locked fromKey then fail d isLocked
      else tbind (read d fromKey) (fun d balance =>
        match money with
        | [] => Panic
        | m :: money =>
            if balance <? m then fail d (Errorf "Balance is not Enough")
            else tbind (debit d from money) (fun d rest => ret d (wrap_u 32 (balance - m) :: rest))
        end)
  end.

(** The balances of the receivers: the sum wraps. *)
Fixpoint credit (d : D) (to_ : list string) (money : list Z) : res (list Z) :=
  match to_ with
  | [] => ret d []
  | toKey :: to_ =>
      if locked toKey then fail d isLocked
      else tbind (read d toKey) (fun d balance =>
        match money with
        | [] => Panic
        | m :: money =>
            tbind (credit d to_ money) (fun d rest => ret d (wrap_u 32 (balance + m) :: rest))
        end)
  end.

Fixpoint store (d : D) (keys : list string) (balances : list Z) : res unit :=
  match keys with
  | [] => ret d tt
  | key :: keys =>
      if locked key then fail d isLocked
      else
        match balances with
        | [] => Panic
        | b :: balances =>
            let! '(d, err) := mSet d key b in
            match err with Some e => fail d e | None => store d keys balances end
        end
  end.

Definition doTransfer (tx : pbTransferTx) (d : D) : res unit :=
  match ValidateTransferTx tx with
  | Some e => fail d e
  | None =>
      tbind (debit d (From tx) (FromMoney tx)) (fun d fromBalance =>
      tbind (credit d (To tx) (ToMoney tx)) (fun d toBalance =>
      tbind (store d (From tx) fromBalance) (fun d _ => store d (To tx) toBalance)))
  end.

Definition doInsert (tx : pbInsertTx) (d : D) : res unit :=
  if locked (Account tx) then fail d (Errorf "Key Already Locked")
  else
    let! '(d, (ok, err)) := mHas d (Account tx) in
    match err with
    | Some e => fail d e
    | None =>
        if ok then fail d (Errorf "Key Already Exists")
        else
          let! '(d, err) := mSet d (Account tx) (Money tx) in
          match err with Some e => fail d e | None => ret d tt end
    end.

(** The text of a decoding error is the protobuf library's. *)
Context `{!Codec pbTransferTx, !Codec pbInsertTx} (unmarshalError : bytes -> string).

Definition execute (txBytes : bytes) (d : D) : res unit :=
  if (length txBytes <? 4)%nat then fail d (Errorf "given tx Length less than 4，Illegal format")
  else
    let! txType := BytesToUint32 (take 4 txBytes) in
    if txType =? TxTransfer then
      let! tx := NewTransferTxFromBytes txBytes in
      match tx with Some tx => doTransfer tx d | None => fail d (Errorf (unmarshalError txBytes)) end
    else if txType =? TxInsert then
      match Unmarshal (drop 4 txBytes) with
      | Some tx => doInsert tx d
      | None => fail d (Errorf (unmarshalError txBytes))
      end
    else fail d (Errorf "ABCI Tx Undefined type").
End tx.
End Tx.

(** The outcome of a transaction. *)
Definition errOf (r : unit + goerr) : option goerr := match r with inl _ => None | inr e => Some e end.
Definition errText (e : goerr) : string :=
  match e with DoNothing => "" | DuplicatedPartPassError => "Duplicated-Part" | Errorf msg => msg end.

(** ** The application *)

Module Bank.
Section bank.
Context `{Hash, StdTime, DB, !Codec pbTransferTx, !Codec pbInsertTx, !Codec pbBankData}.
Context (unmarshalError : bytes -> string).

(** A range tree that was not configured is a nil pointer: [None]. *)
Record Application := mkApp {
  db : Database;
  KeyRangeTree : option RangeTree.t;
  relatedIKeyRangeTree : gmap string RangeTree.t;
  IsI : bool; myChainID : string; appStatus : bytes;
  LockedKeys : gmap string bool;
  preExecutionInputList : gmap bytes (list (gmap string Z));
  preExecutionOutputList : gmap bytes (list (gmap string Z)) }.

Definition NewApplication (db : Database) (chain_id : string) (isI : bool) (keyRangeTree : option RangeTree.t)
    (relatedIKeyRangeTree : gmap string RangeTree.t) : Application :=
  mkApp db keyRangeTree relatedIKeyRangeTree isI chain_id (of_str "minibank") ∅ ∅ ∅.

Definition setDB (app : Application) (d : Database) : Application :=
  mkApp d (KeyRangeTree app) (relatedIKeyRangeTree app) (IsI app) (myChainID app) (appStatus app) (LockedKeys app)
    (preExecutionInputList app) (preExecutionOutputList app).
Definition setLists (app : Application) (i o : gmap bytes (list (gmap string Z))) : Application :=
  mkApp (db app) (KeyRangeTree app) (relatedIKeyRangeTree app) (IsI app) (myChainID app) (appStatus app)
    (LockedKeys app) i o.

Definition Commit (app : Application) : Application * bytes := (setLists app ∅ ∅, appStatus app).

Definition execute {D} `{MemDB D} (app : Application) (tx : bytes) (d : D) : go (D * option goerr) :=
  let! '(d, r) := Tx.execute (LockedKeys app) unmarshalError tx d in Ok (d, errOf r).

(** *** Validation *)

Fixpoint allInRange (rangeTree : option RangeTree.t) (keys : list string) : go bool :=
  match keys with
  | [] => Ok true
  | key :: keys =>
      let! found := RangeDB.search rangeTree key in
      if found then allInRange rangeTree keys else Ok false
  end.

Definition ValidateTx (app : Application) (txBytes : bytes) (isCrossShard : bool) : go bool :=
  if (length txBytes <? 4)%nat then Ok false
  else if IsI app && isCrossShard then Ok false
  else
    let rangeTree := if IsI app || isCrossShard then KeyRangeTree app
                     else relatedIKeyRangeTree app !! myChainID app in
    let! txType := BytesToUint32 (take 4 txBytes) in
    if txType =? TxTransfer then
      match (Unmarshal (drop 4 txBytes) : option pbTransferTx) with
      | None => Ok false
      | Some tx =>
          let! from := allInRange rangeTree (From tx) in
          if from then allInRange rangeTree (To tx) else Ok false
      end
    else if txType =? TxInsert then
      match (Unmarshal (drop 4 txBytes) : option pbInsertTx) with
      | None => Ok false
      | Some tx => RangeDB.search rangeTree (Account tx)
      end
    else Ok false.

(** *** The vote of an I shard

    The keys a transfer reads and writes are the same; a transaction that does
    not decode has none. *)
Definition getRWSet (txBz : bytes) : go (gset string) :=
  let! tx := NewTransferTxFromBytes txBz in
  Ok (match tx with None => ∅ | Some tx => list_to_set (From tx) ∪ list_to_set (To tx) end).

(** No read of a key that an aborted transaction of the block or, unless
    written in the block before, an earlier block writes. *)
Fixpoint independent (dg alldg : DependencyGraph.t) (bv : option BV.t) (reads : list string) : go bool :=
  match reads with
  | [] => Ok true
  | r :: reads =>
      match AddRead dg r with
      | Some index =>
          let! committed := BV.GetIndex bv index in
          if committed then independent dg alldg bv reads else Ok false
      | None => if AddRead alldg r then Ok false else independent dg alldg bv reads
      end
  end.

Definition addWrites (dg : DependencyGraph.t) (keys : list string) (index : Z) : DependencyGraph.t :=
  fold_left (fun dg w => AddWrite dg w index) keys dg.

Fixpoint firstPassTxs (alldg : DependencyGraph.t) (i : Z) (txs : Txs.t)
    (bv : option BV.t) (dg : DependencyGraph.t) : go (option BV.t * DependencyGraph.t) :=
  match txs with
  | [] => Ok (bv, dg)
  | tx :: txs =>
      let! keys := getRWSet tx in
      let! dgFlag := independent dg alldg bv (elements keys) in
      let dg := addWrites dg (elements keys) i in
      let! '(bv, _) := BV.SetIndex bv i dgFlag in
      firstPassTxs alldg (i + 1) txs bv dg
  end.

Definition crossTxs (block : Block.t) : Txs.t := CrossShardBody.CrossShardTxs (Block.CrossShardBody block).
Definition crossDatas (block : Block.t) : list bytes := CrossShardBody.CrossShardDatas (Block.CrossShardBody block).

Fixpoint firstPass (alldg : DependencyGraph.t) (blockIndex : Z) (blocks : list (option Block.t)) : go (list bytes) :=
  match blocks with
  | [] => Ok []
  | block :: blocks =>
      let! block := deref block in
      let! '(bv, dg) := firstPassTxs alldg 0 (crossTxs block) (BV.NewBitVector (zlen (crossTxs block)))
                          NewDependencyGraph in
      let alldg := addWrites alldg (map fst (map_to_list (DependencyGraph.Map dg))) blockIndex in
      let! rest := firstPass alldg (blockIndex + 1) blocks in
      Ok (BV.Byte bv :: rest)
  end.

(** The values the sender read are those of the own keys. *)
Fixpoint fresh (keyRangeTree : option RangeTree.t) (m : MemoryDB.t) (csdb : list (string * Z)) :
    go (MemoryDB.t * bool) :=
  match csdb with
  | [] => Ok (m, true)
  | (key, value) :: csdb =>
      let! found := RangeDB.search keyRangeTree key in
      if found then
        let! '(m, (v, err)) := MemoryDB.Get m key in
        if bool_decide (is_Some err) || negb (v =? value) then Ok (m, false)
        else fresh keyRangeTree m csdb
      else fresh keyRangeTree m csdb
  end.

Fixpoint readsCommitted (dg : DependencyGraph.t) (bv : option BV.t) (reads : list string) : go bool :=
  match reads with
  | [] => Ok true
  | r :: reads =>
      match AddRead dg r with
      | Some index =>
          let! committed := BV.GetIndex bv index in
          if committed then readsCommitted dg bv reads else Ok false
      | None => readsCommitted dg bv reads
      end
  end.

(** The transaction at [i] of a block, still marked by the first pass. *)
Definition preExecuteTx (app : Application) (i : Z) (tx data : bytes)
    (s : MemoryDB.t * option BV.t * DependencyGraph.t) : go (MemoryDB.t * option BV.t * DependencyGraph.t) :=
  let '(m, bv, dg) := s in
  let! csd := NewCrossShardDataFromBytes data in
  match csd with
  | None => let! '(bv, _) := BV.SetIndex bv i false in Ok (m, bv, dg)
  | Some (_, false) => let! '(bv, _) := BV.SetIndex bv i true in Ok (m, bv, dg)
  | Some (csdb, true) =>
      let! '(m, freshFlag) := fresh (KeyRangeTree app) m (map_to_list csdb) in
      if negb freshFlag then let! '(bv, _) := BV.SetIndex bv i false in Ok (m, bv, dg)
      else
        let! '(d, err) := execute app tx (CrossShardDB.NewCrossShardDB m csdb) in
        match err with
        | Some _ =>
            let! '(bv, _) := BV.SetIndex bv i false in
            Ok (CrossShardDB.db (CrossShardDB.CommitWrite d false), bv, dg)
        | None =>
            let! dgFlag := readsCommitted dg bv (map fst (map_to_list (CrossShardDB.GetReadSet d))) in
            let dg := addWrites dg (map fst (map_to_list (CrossShardDB.GetWriteSet d))) i in
            let! '(bv, _) := BV.SetIndex bv i dgFlag in
            Ok (CrossShardDB.db (CrossShardDB.CommitWrite d dgFlag), bv, dg)
        end
  end.

Fixpoint preExecuteTxs (app : Application) (datas : list bytes) (i : Z) (txs : Txs.t)
    (s : MemoryDB.t * option BV.t * DependencyGraph.t) : go (MemoryDB.t * option BV.t * DependencyGraph.t) :=
  match txs with
  | [] => Ok s
  | tx :: txs =>
      let! marked := BV.GetIndex s.1.2 i in
      let! s := (if marked then let! data := idx datas i in preExecuteTx app i tx data s else Ok s) in
      preExecuteTxs app datas (i + 1) txs s
  end.

(** The blocks are executed side by side, each on the database. *)
Definition preExecutionB (app : Application) (x : option Block.t * bytes) : go bytes :=
  let! block := deref x.1 in
  let! bv := BV.NewBitArrayFromByte x.2 in
  let! '(_, bv, _) := preExecuteTxs app (crossDatas block) 0 (crossTxs block)
                        (MemoryDB.NewMemoryDB (db app), bv, NewDependencyGraph) in
  Ok (BV.Byte bv).

Definition PreExecutionI (app : Application) (blockList : list (option Block.t)) :
    go ABCIPreExecutionResponseI :=
  let! commitStatuses := firstPass NewDependencyGraph 0 blockList in
  let! commitStatuses := go_mapM (preExecutionB app) (combine blockList commitStatuses) in
  Ok (mkRespI CodeTypeOK commitStatuses).

(** *** The own block of a C shard *)

Definition emptyOnError (err : option goerr) (m : gmap string Z) : gmap string Z :=
  match err with None => m | Some _ => ∅ end.

(** What each transaction read and wrote, and the bytes of what it read. *)
Fixpoint preExecuteC (app : Application) (txs : Txs.t) (d : RangeDB.t) :
    go (list (gmap string Z) * list (gmap string Z) * list bytes) :=
  match txs with
  | [] => Ok ([], [], [])
  | tx :: txs =>
      let! '(d, err) := execute app tx d in
      let readSet := emptyOnError err (RangeDB.GetReadSet d) in
      let writeSet := emptyOnError err (RangeDB.GetWriteSet d) in
      let ok := bool_decide (err = None) in
      let d := RangeDB.CommitWrite d ok in
      let! data := CrossShardDataBytes readSet ok in
      let! '(ins, outs, datas) := preExecuteC app txs d in
      Ok (readSet :: ins, writeSet :: outs, data :: datas)
  end.

(** The block is hashed, which fills its header. *)
Definition PreExecutionC (app : Application) (block : Block.t) :
    go (Application * Block.t * ABCIPreExecutionResponseC) :=
  let '(block, blockKey) := Block.Hash_ block in
  let! '(ins, outs, datas) := preExecuteC app (crossTxs block)
                                (RangeDB.NewRangeDB (MemoryDB.NewMemoryDB (db app)) (KeyRangeTree app)) in
  Ok (setLists app (<[blockKey := ins]> (preExecutionInputList app))
                   (<[blockKey := outs]> (preExecutionOutputList app)), block,
      mkRespC CodeTypeOK datas).

(** *** Execution *)

Definition receipt (code : Z) (log : string) : Receipt.t := Receipt.mk code log "" ∅.

Fixpoint setAll (m : MemoryDB.t) (entries : list (string * Z)) : go MemoryDB.t :=
  match entries with
  | [] => Ok m
  | (key, value) :: entries => let! '(m, _) := MemoryDB.Set_ m key value in setAll m entries
  end.

(** A committed transaction: the writes of the pre-execution when this node
    made them, or an execution on the data of the sender. *)
Definition executeCTx (app : Application) (outs : list (gmap string Z)) (bv : option BV.t) (i : Z)
    (tx data : bytes) (m : MemoryDB.t) : go (MemoryDB.t * Receipt.t) :=
  let! csd := NewCrossShardDataFromBytes data in
  match csd with
  | None => Ok (m, receipt CodeTypeEncodingError (unmarshalError data))
  | Some (_, false) => Ok (m, receipt CodeTypeAbort "C PreExecution Abort")
  | Some (csdb, true) =>
      let! committed := BV.GetIndex bv i in
      if negb committed then Ok (m, receipt CodeTypeAbort "I PreExecution Abort")
      else if zlen outs >? i then
        let! out := idx outs i in
        let! m := setAll m (map_to_list out) in
        Ok (MemoryDB.CommitWrite m true, receipt CodeTypeOK "")
      else
        let! '(d, err) := execute app tx (CrossShardDB.NewCrossShardDB m csdb) in
        match err with
        | Some _ => Panic
        | None => Ok (CrossShardDB.db (CrossShardDB.CommitWrite d true), receipt CodeTypeOK "")
        end
  end.

Fixpoint executeCTxs (app : Application) (outs : list (gmap string Z)) (bv : option BV.t) (datas : list bytes)
    (i : Z) (txs : Txs.t) (m : MemoryDB.t) : go (MemoryDB.t * list Receipt.t) :=
  match txs with
  | [] => Ok (m, [])
  | tx :: txs =>
      let! data := idx datas i in
      let! '(m, r) := executeCTx app outs bv i tx data m in
      let! '(m, rs) := executeCTxs app outs bv datas (i + 1) txs m in
      Ok (m, r :: rs)
  end.

(** The blocks are executed side by side, each on the database. *)
Definition executionC (app : Application) (commitBitVector : list (option BV.t)) (x : nat * option Block.t) :
    go (MemoryDB.t * (string * list Receipt.t)) :=
  let! block := deref x.2 in
  let! bv := idx commitBitVector (Z.of_nat x.1) in
  let outs := default [] (preExecutionOutputList app !! snd (Block.Hash_ block)) in
  let! '(m, rs) := executeCTxs app outs bv (crossDatas block) 0 (crossTxs block) (MemoryDB.NewMemoryDB (db app)) in
  Ok (m, (Header.ChainID (Block.Header block), rs)).

(** The overlays share the database: each is written to what the one before
    left. A failing write is a panic. *)
Definition writeRange (keyRangeTree : option RangeTree.t) (d : Database) (m : MemoryDB.t) : go Database :=
  let m := MemoryDB.mk d (MemoryDB.memDB m) (MemoryDB.writeBuffer m) (MemoryDB.readBuffer m) in
  let! '(r, err) := RangeDB.Write (RangeDB.NewRangeDB m keyRangeTree) in
  match err with Some _ => Panic | None => Ok (MemoryDB.db (RangeDB.db r)) end.

Definition bodyTxs (block : Block.t) : Txs.t := Body.BodyTxs (Block.Body block).

Fixpoint executeInner (app : Application) (txs : Txs.t) (d : RangeDB.t) : go (RangeDB.t * list Receipt.t) :=
  match txs with
  | [] => Ok (d, [])
  | tx :: txs =>
      let! '(d, err) := execute app tx d in
      let r := match err with
               | Some e => receipt CodeTypeAbort (errText e)
               | None => receipt CodeTypeOK ""
               end in
      let! '(d, rs) := executeInner app txs (RangeDB.CommitWrite d (bool_decide (err = None))) in
      Ok (d, r :: rs)
  end.

(** An inner-shard block on the keys of a shard. *)
Definition execBlock (app : Application) (rangeTree : option RangeTree.t) (d : Database) (block : Block.t) :
    go (Database * (string * list Receipt.t)) :=
  let! '(r, rs) := executeInner app (bodyTxs block) (RangeDB.NewRangeDB (MemoryDB.NewMemoryDB d) rangeTree) in
  let! '(r, err) := RangeDB.Write r in
  match err with
  | Some _ => Panic
  | None => Ok (MemoryDB.db (RangeDB.db r), (Header.ChainID (Block.Header block), rs))
  end.

(** A C shard executes the blocks of its I shards side by side, each on the
    keys of its shard; here they run one after the other. *)
Fixpoint execBlocks (app : Application) (d : Database) (blocks : list (option Block.t)) :
    go (Database * list (string * list Receipt.t)) :=
  match blocks with
  | [] => Ok (d, [])
  | block :: blocks =>
      let! block := deref block in
      let! '(d, r) := execBlock app (relatedIKeyRangeTree app !! Header.ChainID (Block.Header block)) d block in
      let! '(d, rs) := execBlocks app d blocks in
      Ok (d, r :: rs)
  end.

Definition byChain (l : list (string * list Receipt.t)) : gmap string (list Receipt.t) :=
  fold_left (fun m x => <[x.1 := x.2]> m) l ∅.

Definition Execution (app : Application) (CrossShardBlocks : list (option Block.t))
    (commitBitVector : list (option BV.t)) (InnerShardBlocks : list (option Block.t)) :
    go (Application * ABCIExecutionResponse) :=
  let! executed := go_mapM (executionC app commitBitVector)
                     (combine (seq 0 (length CrossShardBlocks)) CrossShardBlocks) in
  let! d := go_foldl (writeRange (KeyRangeTree app)) (db app) (map fst executed) in
  let crossResps := byChain (map snd executed) in
  if IsI app then
    let! block := idx InnerShardBlocks 0 in
    let! block := deref block in
    let! '(d, r) := execBlock app (KeyRangeTree app) d block in
    Ok (setDB app d, mkExecResp crossResps (byChain [r]))
  else
    let! '(d, rs) := execBlocks app d InnerShardBlocks in
    Ok (setDB app d, mkExecResp crossResps (byChain rs)).
End bank.
End Bank.
