(* ===== verification/BankSpec.v ===== *)
(** * What the bank promises

    The outcome of a transaction as a function of the values it reads, the
    agreement of all shards on the execution of a cross-shard block, and the
    conservation of money. *)

From S2P Require Import Prelude BitVector Convert Hash Wire Types RangeTree ShardInfo.
From S2P Require Import Store MemDB Codecs BankTx Bank.
Import Bank.
Local Open Scope Z_scope.

(** ** The outcome of a transaction *)

Section outcome.
Context (lockedKeys : gmap string bool).
Notation locked := (Tx.locked lockedKeys).

Fixpoint debits (bal : string -> option Z) (from : list string) (money : list Z) : option (list Z) :=
  match from, money with
  | [], _ => Some []
  | k :: from, m :: money =>
      if locked k then None
      else b ← bal k; if b <? m then None else rest ← debits bal from money; Some (wrap_u 32 (b - m) :: rest)
  | _ :: _, [] => None
  end.

Fixpoint credits (bal : string -> option Z) (to_ : list string) (money : list Z) : option (list Z) :=
  match to_, money with
  | [], _ => Some []
  | k :: to_, m :: money =>
      if locked k then None
      else b ← bal k; rest ← credits bal to_ money; Some (wrap_u 32 (b + m) :: rest)
  | _ :: _, [] => None
  end.

(** The assignments of a transfer, in order: both balances are computed from
    the values before. *)
Definition transfer (bal : string -> option Z) (tx : pbTransferTx) : option (list (string * Z)) :=
  match ValidateTransferTx tx with
  | Some _ => None
  | None =>
      from ← debits bal (From tx) (FromMoney tx);
      to_ ← credits bal (To tx) (ToMoney tx);
      Some (combine (From tx) from ++ combine (To tx) to_)
  end.

Definition assign (l : list (string * Z)) (m : gmap string Z) : gmap string Z :=
  fold_left (fun m x => <[x.1 := x.2]> m) l m.

Lemma assign_app l l' m : assign (l ++ l') m = assign l' (assign l m).
Proof. apply fold_left_app. Qed.

(** ** Against the interface *)

Context {D : Type} `{MemDBLaws D}.

(** Reading changes nothing a transaction can see. *)
Record same (d d' : D) : Prop := {
  sm_ok : dok d';
  sm_write : mGetWriteSet d' = mGetWriteSet d;
  sm_read : mGetReadSet d ⊆ mGetReadSet d';
  sm_base k : base d' k = base d k;
  sm_reads k : reads d' k = reads d k;
  sm_writable k : writable d' k = writable d k
}.

Lemma same_refl d : dok d -> same d d.
Proof. by split. Qed.
Lemma same_trans d1 d2 d3 : same d1 d2 -> same d2 d3 -> same d1 d3.
Proof.
  intros [] []. split; try done; try congruence. by etransitivity.
Qed.

(** The values of the keys are among the recorded reads. *)
Definition recorded (d d' : D) (keys : list string) : Prop :=
  forall k, k ∈ keys -> is_Some (reads d k) /\ writable d' k = true /\ locked k = false /\
    (mGetWriteSet d = ∅ -> mGetReadSet d' !! k = reads d k).

Lemma read_law d key : dok d ->
  exists d' r, Tx.read d key = Ok (d', r) /\ same d d' /\
    match reads d key with
    | Some v => r = inl v /\ (mGetWriteSet d = ∅ -> mGetReadSet d' !! key = Some v)
    | None => exists e, r = inr e
    end.
Proof.
  intros Hd. destruct (Get_law d key Hd) as (d' & [v err] & E & R & A & B & C & D1 & D2 & D3).
  unfold Tx.read. rewrite E. cbn [gbind].
  assert (same d d') as S by by split.
  destruct (reads d key) as [w|].
  - destruct R as [[= -> ->] R]. exists d', (inl w). split; [done|]. split; [done|]. split; [done|].
    intros Ew. apply R. by rewrite Ew, lookup_empty.
  - destruct R as [e Ee]. cbn in Ee. subst err. exists d', (inr e). split; [done|]. split; [done|]. eauto.
Qed.

Lemma recorded_more d d1 d2 keys : recorded d d1 keys -> same d1 d2 -> recorded d d2 keys.
Proof.
  intros Hr S k Hk. destruct (Hr k Hk) as (A & B & C & E). split; [done|]. split; [by rewrite (sm_writable _ _ S)|].
  split; [done|]. intros Ew. specialize (E Ew). destruct A as [v Hv]. rewrite Hv in E |- *.
  eapply lookup_weaken; [exact E|apply (sm_read _ _ S)].
Qed.

Lemma recorded_same d d1 d2 keys : same d d1 -> recorded d1 d2 keys -> recorded d d2 keys.
Proof.
  intros S Hr k Hk. destruct (Hr k Hk) as (A & B & C & E). rewrite (sm_reads _ _ S), (sm_write _ _ S) in *.
  done.
Qed.

Lemma recorded_nil d d' : recorded d d' [].
Proof. intros k Hk. by apply not_elem_of_nil in Hk. Qed.

Lemma recorded_cons d d' key keys : is_Some (reads d key) -> dok d' -> same d d' -> locked key = false ->
  (mGetWriteSet d = ∅ -> mGetReadSet d' !! key = reads d key) -> recorded d d' keys ->
  recorded d d' (key :: keys).
Proof.
  intros Hs Hd S Hl Hr Hrec k [->|Hk]%elem_of_cons; [|by apply Hrec].
  split; [done|]. split; [|done]. apply reads_writable; [done|]. by rewrite (sm_reads _ _ S).
Qed.

(** The two read loops, with the value they compute. *)
Definition reading_spec (d : D) (keys : list string) (m : Tx.res (D := D) (list Z)) (r : option (list Z)) : Prop :=
  exists d' x, m = Ok (d', x) /\ same d d' /\
    match r with
    | Some l => x = inl l /\ recorded d d' keys /\ length l = length keys
    | None => exists e, x = inr e
    end.

Lemma reading_cons d key keys (body : D -> Z -> Tx.res (list Z)) (next : Z -> option (list Z)) :
  dok d -> locked key = false ->
  (forall d1 b, same d d1 -> match next b with
     | Some l => exists d' l', body d1 b = Ok (d', inl l) /\ l = l' /\ same d1 d' /\ recorded d1 d' keys /\ length l = S (length keys)
     | None => exists d' e, body d1 b = Ok (d', inr e) /\ same d1 d'
     end) ->
  reading_spec d (key :: keys) (Tx.tbind (Tx.read d key) body) (b ← reads d key; next b).
Proof.
  intros Hd Hl Hbody. destruct (read_law d key Hd) as (d1 & r & E & S & R). unfold Tx.tbind. rewrite E. cbn [gbind].
  destruct (reads d key) as [b|] eqn:Eb; cbn [mbind option_bind].
  - destruct R as [-> R]. specialize (Hbody d1 b S). destruct (next b) as [l|].
    + destruct Hbody as (d' & l' & Eb' & <- & S' & Hrec & Hn). exists d', (inl l). split; [done|].
      split; [by eapply same_trans|]. split; [done|]. split; [|done].
      apply recorded_cons; [by rewrite Eb|by apply (sm_ok _ _ S')|by eapply same_trans|done| |by eapply recorded_same].
      intros Ew. rewrite Eb. eapply lookup_weaken; [by apply R|apply (sm_read _ _ S')].
    + destruct Hbody as (d' & e & Eb' & S'). exists d', (inr e). split; [done|]. split; [by eapply same_trans|]. eauto.
  - destruct R as [e ->]. exists d1, (inr e). split; [done|]. split; [done|]. eauto.
Qed.

Lemma debits_ext f g from money : (forall k, k ∈ from -> f k = g k) -> debits f from money = debits g from money.
Proof.
  intros E. revert money. induction from as [|k from IH]; intros [|m money]; cbn; try done.
  rewrite E by constructor. destruct (locked k); [done|]. destruct (g k); cbn; [|done].
  rewrite IH; [done|]. intros k' Hk. apply E. by constructor.
Qed.
Lemma credits_ext f g from money : (forall k, k ∈ from -> f k = g k) -> credits f from money = credits g from money.
Proof.
  intros E. revert money. induction from as [|k from IH]; intros [|m money]; cbn; try done.
  rewrite E by constructor. destruct (locked k); [done|]. destruct (g k); cbn; [|done].
  rewrite IH; [done|]. intros k' Hk. apply E. by constructor.
Qed.

Lemma debit_law d from money : dok d -> length from = length money ->
  reading_spec d from (Tx.debit lockedKeys d from money) (debits (reads d) from money).
Proof.
  revert d money. induction from as [|key from IH]; intros d [|m money]; cbn [Tx.debit debits length]; try done.
  - intros Hd _. exists d, (inl []). split; [done|]. split; [by apply same_refl|]. split; [done|].
    split; [apply recorded_nil|done].
  - intros Hd [= Hn]. destruct (locked key) eqn:El.
    { eexists d, _. split; [done|]. split; [by apply same_refl|]. by eexists. }
    apply reading_cons; [done|done|]. intros d1 b S. destruct (b <? m).
    { eexists _, _. split; [reflexivity|]. apply same_refl, S. }
    destruct (IH d1 money (sm_ok _ _ S) Hn) as (d' & x & E & S' & R). unfold Tx.tbind. rewrite E. cbn [gbind].
    rewrite (debits_ext _ (reads d)) in R by (intros; apply S).
    destruct (debits (reads d) from money) as [l|]; cbn.
    + destruct R as (-> & R & Hl). eexists d', _. split; [done|]. split; [done|]. cbn. auto.
    + destruct R as [e ->]. by eexists _, _.
Qed.

Lemma credit_law d to_ money : dok d -> length to_ = length money ->
  reading_spec d to_ (Tx.credit lockedKeys d to_ money) (credits (reads d) to_ money).
Proof.
  revert d money. induction to_ as [|key to_ IH]; intros d [|m money]; cbn [Tx.credit credits length]; try done.
  - intros Hd _. exists d, (inl []). split; [done|]. split; [by apply same_refl|]. split; [done|].
    split; [apply recorded_nil|done].
  - intros Hd [= Hn]. destruct (locked key) eqn:El.
    { eexists d, _. split; [done|]. split; [by apply same_refl|]. by eexists. }
    apply reading_cons; [done|done|]. intros d1 b S.
    destruct (IH d1 money (sm_ok _ _ S) Hn) as (d' & x & E & S' & R). unfold Tx.tbind. rewrite E. cbn [gbind].
    rewrite (credits_ext _ (reads d)) in R by (intros; apply S).
    destruct (credits (reads d) to_ money) as [l|]; cbn.
    + destruct R as (-> & R & Hl). eexists d', _. split; [done|]. split; [done|]. cbn. auto.
    + destruct R as [e ->]. by eexists _, _.
Qed.

Record wrote (d d' : D) (l : list (string * Z)) : Prop := {
  wr_ok : dok d';
  wr_write : mGetWriteSet d' = assign l (mGetWriteSet d);
  wr_read : mGetReadSet d' = mGetReadSet d;
  wr_base k : base d' k = base d k;
  wr_writable k : writable d' k = writable d k
}.

Lemma store_law d keys balances : dok d -> length keys = length balances ->
  Forall (fun k => writable d k = true /\ locked k = false) keys -> Forall (in_u 32) balances ->
  exists d', Tx.store lockedKeys d keys balances = Ok (d', inl tt) /\ wrote d d' (combine keys balances).
Proof.
  revert d balances. induction keys as [|key keys IH]; intros d [|b balances] Hd; cbn [length Tx.store combine]; try done.
  - intros _ _ _. exists d. by split.
  - intros [= Hn] [[Hw Hl] Hk]%Forall_cons [Hb Hbs]%Forall_cons. rewrite Hl.
    destruct (Set_law d key b Hd Hb Hw) as (d1 & E & A1 & A2 & A3 & A4 & A5). rewrite E. cbn [gbind].
    destruct (IH d1 balances A1 Hn) as (d' & E' & [B1 B2 B3 B4 B5]); [|done|].
    + eapply Forall_impl; [exact Hk|]. intros k [? ?]. by rewrite A5.
    + exists d'. split; [exact E'|]. split; [done| |congruence|intros k; by rewrite B4|intros k; by rewrite B5].
      rewrite B2, A2. done.
Qed.

Lemma debits_range bal from money l : debits bal from money = Some l -> Forall (in_u 32) l.
Proof.
  revert money l. induction from as [|k from IH]; intros [|m money] l; cbn; try done; try (intros [= <-]; constructor).
  destruct (locked k); [done|]. destruct (bal k) as [b|]; cbn; [|done]. destruct (b <? m); [done|].
  destruct (debits bal from money) eqn:E; cbn; [|done]. intros [= <-]. constructor; [by apply wrap_u_range|by eapply IH].
Qed.
Lemma credits_range bal from money l : credits bal from money = Some l -> Forall (in_u 32) l.
Proof.
  revert money l. induction from as [|k from IH]; intros [|m money] l; cbn; try done; try (intros [= <-]; constructor).
  destruct (locked k); [done|]. destruct (bal k) as [b|]; cbn; [|done].
  destruct (credits bal from money) eqn:E; cbn; [|done]. intros [= <-]. constructor; [by apply wrap_u_range|by eapply IH].
Qed.

Lemma ValidateTransferTx_lengths tx : ValidateTransferTx tx = None ->
  length (From tx) = length (FromMoney tx) /\ length (To tx) = length (ToMoney tx) /\
  sum32 (FromMoney tx) = sum32 (ToMoney tx).
Proof.
  unfold ValidateTransferTx.
  destruct (negb (_ =? zlen (FromMoney tx)) || negb (_ =? zlen (ToMoney tx))) eqn:E1; [done|].
  destruct ((_ =? 0) || (_ =? 0)); [done|].
  destruct (negb (sum32 _ =? _)) eqn:E3; [done|]. intros _.
  apply orb_false_iff in E1 as [F1%negb_false_iff%Z.eqb_eq F2%negb_false_iff%Z.eqb_eq].
  apply negb_false_iff, Z.eqb_eq in E3. lia.
Qed.

Lemma ValidateTransferTx_nonempty tx : ValidateTransferTx tx = None -> From tx ++ To tx <> [].
Proof.
  unfold ValidateTransferTx. destruct (negb (_ =? zlen (FromMoney tx)) || _); [done|].
  destruct (From tx); [done|]. done.
Qed.

(** How a transaction ends: an error that leaves what was committed, or the
    assignments, every key of which was read and is recorded. *)
Definition ends (d : D) (m : Tx.res (D := D) unit) (r : option (list (string * Z))) (keys : list string) : Prop :=
  exists d' x, m = Ok (d', x) /\ wok d' /\ (forall k, base d' k = base d k) /\
    match r with
    | Some l => x = inl tt /\ dok d' /\ mGetWriteSet d' = assign l (mGetWriteSet d) /\
        mGetReadSet d ⊆ mGetReadSet d' /\
        (keys = [] -> mGetReadSet d' = mGetReadSet d) /\
        (mGetWriteSet d = ∅ -> forall k, k ∈ keys -> is_Some (reads d k) /\ mGetReadSet d' !! k = reads d k)
    | None => exists e, x = inr e
    end.

Lemma doTransfer_law tx d : dok d ->
  ends d (Tx.doTransfer lockedKeys tx d) (transfer (reads d) tx) (From tx ++ To tx).
Proof.
  intros Hd. unfold Tx.doTransfer, transfer, ends. destruct (ValidateTransferTx tx) as [e|] eqn:Ev.
  { exists d, (inr e). split; [done|]. split; [by apply dok_wok|]. split; [done|]. eauto. }
  destruct (ValidateTransferTx_lengths tx Ev) as (L1 & L2 & _).
  destruct (debit_law d (From tx) (FromMoney tx) Hd L1) as (d1 & x1 & E1 & S1 & R1). rewrite E1.
  unfold Tx.tbind at 1. cbn [gbind]. destruct (debits (reads d) _ _) as [l1|] eqn:Ed; cbn [mbind option_bind].
  2:{ destruct R1 as [e ->]. exists d1, (inr e). split; [done|].
      split; [apply dok_wok, S1|]. split; [apply S1|]. eauto. }
  destruct R1 as (-> & R1 & N1).
  destruct (credit_law d1 (To tx) (ToMoney tx) (sm_ok _ _ S1) L2) as (d2 & x2 & E2 & S2 & R2). rewrite E2.
  unfold Tx.tbind at 1. cbn [gbind]. rewrite (credits_ext _ (reads d)) in R2 by (intros; apply S1).
  pose proof (same_trans _ _ _ S1 S2) as S12.
  destruct (credits (reads d) _ _) as [l2|] eqn:Ec; cbn [mbind option_bind].
  2:{ destruct R2 as [e ->]. exists d2, (inr e). split; [done|].
      split; [apply dok_wok, S12|]. split; [apply S12|]. eauto. }
  destruct R2 as (-> & R2 & N2).
  pose proof (recorded_more _ _ _ _ R1 S2) as R1'. pose proof (recorded_same _ _ _ _ S1 R2) as R2'.
  destruct (store_law d2 (From tx) l1 (sm_ok _ _ S12)) as (d3 & E3 & W3); [done| |by eapply debits_range|].
  { apply Forall_forall. intros k Hk. by destruct (R1' k Hk) as (_ & ? & ? & _). }
  unfold Tx.tbind at 1. rewrite E3. cbn [gbind].
  destruct (store_law d3 (To tx) l2 (wr_ok _ _ _ W3)) as (d4 & E4 & W4); [done| |by eapply credits_range|].
  { apply Forall_forall. intros k Hk. rewrite (wr_writable _ _ _ W3). by destruct (R2' k Hk) as (_ & ? & ? & _). }
  exists d4, (inl tt). split; [exact E4|]. split; [apply dok_wok, W4|].
  split; [intros k; by rewrite (wr_base _ _ _ W4), (wr_base _ _ _ W3), (sm_base _ _ S12)|].
  split; [done|]. split; [apply W4|].
  split; [by rewrite (wr_write _ _ _ W4), (wr_write _ _ _ W3), (sm_write _ _ S12), assign_app|].
  rewrite (wr_read _ _ _ W4), (wr_read _ _ _ W3). split; [apply S12|].
  split; [by intros Hn; destruct (ValidateTransferTx_nonempty tx Ev)|].
  intros Ew k [Hk|Hk]%elem_of_app; [destruct (R1' k Hk) as (A & _ & _ & B)|destruct (R2' k Hk) as (A & _ & _ & B)]; auto.
Qed.

(** An insert fails on a key that is present. *)
Definition insert (pres : string -> option bool) (tx : pbInsertTx) : option (list (string * Z)) :=
  if locked (Account tx) then None
  else match pres (Account tx) with Some false => Some [(Account tx, Money tx)] | _ => None end.

Lemma doInsert_law tx d : dok d -> in_u 32 (Money tx) ->
  ends d (Tx.doInsert lockedKeys tx d) (insert (present d) tx) [].
Proof.
  intros Hd Hm. unfold Tx.doInsert, insert, ends. destruct (locked (Account tx)).
  { eexists d, _. split; [done|]. split; [by apply dok_wok|]. split; [done|]. by eexists. }
  destruct (Has_law d (Account tx) Hd) as (d1 & [b err] & E & W & B & R). rewrite E. cbn [gbind].
  destruct (present d (Account tx)) as [b'|] eqn:Ep.
  - destruct R as [[= -> ->] R]. destruct b'.
    + eexists d1, _. split; [done|]. split; [done|]. split; [done|]. by eexists.
    + specialize (R eq_refl). subst d1.
      destruct (Set_law d (Account tx) (Money tx) Hd Hm) as (d2 & E2 & A1 & A2 & A3 & A4 & A5).
      { by apply present_writable. }
      rewrite E2. cbn [gbind]. exists d2, (inl tt). split; [done|]. split; [by apply dok_wok|]. split; [done|].
      split; [done|]. split; [done|]. split; [exact A2|]. split; [by rewrite A3|]. split; [done|].
      intros _ k Hk. by apply not_elem_of_nil in Hk.
  - destruct R as [e Ee]. cbn in Ee. subst err. eexists d1, _. split; [done|]. split; [done|]. split; [done|].
    by eexists.
Qed.

Lemma transfer_ext f g tx : (forall k, k ∈ From tx ++ To tx -> f k = g k) -> transfer f tx = transfer g tx.
Proof.
  intros E. unfold transfer. destruct (ValidateTransferTx tx); [done|].
  rewrite (debits_ext f g), (credits_ext f g); [done|..]; intros; apply E, elem_of_app; auto.
Qed.
End outcome.

(** A 32-bit field of a decoded message is in its range. *)
Class TxCodecLaws `{!Codec pbTransferTx, !Codec pbInsertTx} : Prop := {
  insert_u32 b (tx : pbInsertTx) : Unmarshal b = Some tx -> in_u 32 (Money tx);
  transfer_u32 b (tx : pbTransferTx) : Unmarshal b = Some tx ->
    Forall (in_u 32) (FromMoney tx) /\ Forall (in_u 32) (ToMoney tx)
}.

Section execute.
Context `{!Codec pbTransferTx, !Codec pbInsertTx, !TxCodecLaws}.
Context (lockedKeys : gmap string bool) (unmarshalError : bytes -> string).

(** What the bytes of a transaction do, from the values and the presence of
    keys. *)
Definition outcome (bal : string -> option Z) (pres : string -> option bool) (txBytes : bytes) :
    option (list (string * Z)) :=
  if (length txBytes <? 4)%nat then None
  else
    match BytesToUint32 (take 4 txBytes) with
    | Ok txType =>
        if txType =? TxTransfer then tx ← Unmarshal (drop 4 txBytes); transfer lockedKeys bal tx
        else if txType =? TxInsert then tx ← Unmarshal (drop 4 txBytes); insert lockedKeys pres tx
        else None
    | _ => None
    end.

(** The keys a transaction reads. *)
Definition readKeys (txBytes : bytes) : list string :=
  match BytesToUint32 (take 4 txBytes), Unmarshal (drop 4 txBytes) with
  | Ok txType, Some tx => if txType =? TxTransfer then From tx ++ To tx else []
  | _, _ => []
  end.

Lemma execute_law {D} `{MemDBLaws D} tx d : dok d ->
  ends d (Tx.execute lockedKeys unmarshalError tx d) (outcome (reads d) (present d) tx) (readKeys tx).
Proof.
  intros Hd. unfold Tx.execute, outcome, readKeys.
  assert (forall e keys, ends d (Tx.fail d e) None keys) as Hf.
  { intros e keys. eexists _, _. split; [reflexivity|]. split; [by apply dok_wok|]. split; [done|]. by eexists. }
  destruct (Nat.ltb_spec (length tx) 4); [apply Hf|].
  unfold BytesToUint32, leUint. rewrite length_take. destruct (Nat.ltb_spec (4 `min` length tx) 4); [lia|]. cbn [gbind].
  destruct (_ =? TxTransfer).
  - unfold NewTransferTxFromBytes. destruct (Nat.ltb_spec (length tx) 4); [lia|]. cbn [gbind].
    destruct (Unmarshal (drop 4 tx)) as [t|]; cbn; [by apply doTransfer_law|apply Hf].
  - destruct (_ =? TxInsert); [|destruct (Unmarshal (M := pbTransferTx) _); apply Hf].
    destruct (Unmarshal (M := pbInsertTx) (drop 4 tx)) as [t|] eqn:E; cbn; [|destruct (Unmarshal (M := pbTransferTx) _); apply Hf].
    apply insert_u32 in E. destruct (Unmarshal (M := pbTransferTx) _); by apply doInsert_law.
Qed.
End execute.

(** ** All shards execute a cross-shard block alike *)

Section agreement.
Context `{Hash, StdTime, DBLaws, !Codec pbTransferTx, !Codec pbInsertTx, !Codec pbBankData, !TxCodecLaws}.
Context (unmarshalError : bytes -> string).

Lemma bank_execute_law {D} `{MemDBLaws D} app tx (d : D) : dok d ->
  exists d' err, execute unmarshalError app tx d = Ok (d', err) /\ wok d' /\ (forall k, base d' k = base d k) /\
    match outcome (LockedKeys app) (reads d) (present d) tx with
    | Some l => err = None /\ dok d' /\ mGetWriteSet d' = assign l (mGetWriteSet d) /\
        (readKeys tx = [] -> mGetReadSet d' = mGetReadSet d) /\
        (mGetWriteSet d = ∅ -> forall k, k ∈ readKeys tx -> is_Some (reads d k) /\ mGetReadSet d' !! k = reads d k)
    | None => is_Some err
    end.
Proof.
  intros Hd. destruct (execute_law (LockedKeys app) unmarshalError tx d Hd) as (d' & x & E & W & B & R).
  unfold execute. rewrite E. cbn [gbind]. exists d', (errOf x). split; [done|]. split; [done|]. split; [done|].
  destruct (outcome _ _ _ _).
  - destruct R as (-> & R1 & R2 & _ & R3 & R4). auto.
  - destruct R as [e ->]. by eexists.
Qed.

Lemma outcome_cross lk bal pres (c : CrossShardDB.t) tx l :
  outcome lk bal pres tx = Some l ->
  (forall k, k ∈ readKeys tx -> cvalue c k = bal k) -> (readKeys tx = [] -> forall k, cvalue c k = None) ->
  outcome lk (reads c) (present c) tx = Some l.
Proof.
  unfold outcome, readKeys. destruct (length tx <? 4)%nat; [done|].
  destruct (BytesToUint32 (take 4 tx)) as [ty| |]; [|done..]. destruct (ty =? TxTransfer).
  - destruct (Unmarshal (M := pbTransferTx) (drop 4 tx)) as [t|]; cbn; [|done]. intros E Hk _.
    rewrite <- E. apply transfer_ext. exact Hk.
  - intros E _ Hk. destruct (ty =? TxInsert); [|done].
    destruct (Unmarshal (M := pbInsertTx) (drop 4 tx)) as [t|]; cbn in *; [|done]. unfold insert in *.
    destruct (Tx.locked lk (Account t)); [done|]. rewrite Hk.
    + destruct (pres (Account t)) as [[]|]; done.
    + by destruct (Unmarshal (M := pbTransferTx) _).
Qed.

(** The reads of an execution are enough to repeat it anywhere. *)
Lemma reexecute {D} `{MemDBLaws D} app tx (d d' : D) m :
  dok d -> mGetWriteSet d = ∅ -> mGetReadSet d = ∅ -> execute unmarshalError app tx d = Ok (d', None) ->
  mdok m -> MemoryDB.writeBuffer m = ∅ ->
  exists c, execute unmarshalError app tx (CrossShardDB.NewCrossShardDB m (mGetReadSet d')) = Ok (c, None) /\
    CrossShardDB.GetWriteSet c = mGetWriteSet d' /\ mwok (CrossShardDB.db c) /\
    forall k, mbase (CrossShardDB.db c) k = mbase m k.
Proof.
  intros Hd Hw Hr E Hm Hmw. destruct (bank_execute_law app tx d Hd) as (d1 & err & E1 & _ & _ & R).
  rewrite E in E1. injection E1 as <- <-.
  destruct (outcome _ _ _ _) as [l|] eqn:Eo; [|by destruct R].
  destruct R as (_ & _ & Rw & Rr & Rk).
  assert (dok (CrossShardDB.NewCrossShardDB m (mGetReadSet d'))) as Hc by exact Hm.
  destruct (bank_execute_law app tx _ Hc) as (c & err & Ec & W & B & R).
  rewrite (outcome_cross _ _ _ _ _ l Eo) in R.
  - destruct R as (-> & Ok & Rw' & _). exists c. split; [exact Ec|]. split; [|by split].
    rewrite Rw, Hw. etransitivity; [exact Rw'|]. cbn. unfold CrossShardDB.GetWriteSet, MemoryDB.GetWriteSet. cbn.
    by rewrite Hmw.
  - intros k Hk. destruct (Rk Hw k Hk) as [_ <-]. unfold cvalue. cbn. by rewrite Hmw, lookup_empty.
  - intros Hn k. unfold cvalue. cbn. rewrite Hmw, lookup_empty, Rr, Hr by done. apply lookup_empty.
Qed.

Lemma setAll_spec m (l : list (string * Z)) : mdok m -> Forall (fun e => in_u 32 e.2) l -> NoDup l.*1 ->
  exists m', setAll m l = Ok m' /\ mdok m' /\ (forall k, mbase m' k = mbase m k) /\
    forall k, MemoryDB.writeBuffer m' !! k =
      match (list_to_map l : gmap string Z) !! k with Some v => Some v | None => MemoryDB.writeBuffer m !! k end.
Proof.
  revert m. induction l as [|[key v] l IH]; intros m Hm; cbn [setAll list_to_map].
  { intros _ _. by exists m. }
  intros [Hv Hl]%Forall_cons [Hk Hnd]%NoDup_cons.
  destruct (MemoryDB_Set_spec m key v Hm Hv) as (m1 & E & M1 & W1 & _ & B1). rewrite E. cbn [gbind].
  destruct (IH m1 M1 Hl Hnd) as (m' & E' & M' & B' & W'). exists m'. split; [done|]. split; [done|].
  split; [intros k; by rewrite B'|]. intros k. rewrite W', W1. cbn. destruct (decide (k = key)) as [->|Hne].
  - by rewrite lookup_insert_eq, not_elem_of_list_to_map_1, lookup_insert_eq.
  - by rewrite !lookup_insert_ne.
Qed.

(** Committing the writes of the pre-execution. *)
Lemma commit_outs m (out : gmap string Z) : mdok m -> MemoryDB.writeBuffer m = ∅ -> typedMap out ->
  exists m', setAll m (map_to_list out) = Ok m' /\ mdok (MemoryDB.CommitWrite m' true) /\
    forall k, mbase (MemoryDB.CommitWrite m' true) k = default (mbase m k) (out !! k).
Proof.
  intros Hm Hw Ho. destruct (setAll_spec m (map_to_list out) Hm) as (m' & E & M' & B' & W').
  - apply Forall_forall. intros [k v] Hin%elem_of_map_to_list. exact (Ho k v Hin).
  - apply NoDup_fst_map_to_list.
  - exists m'. split; [done|]. destruct (MemoryDB_Commit_spec m' true (md_wok _ M')) as (C1 & _ & C2).
    split; [done|]. intros k. rewrite C2, W', B', list_to_map_to_list.
    destruct (out !! k); [done|]. by rewrite Hw, lookup_empty.
Qed.

(** A commit bit vector that can be read. *)
Definition readable (bv : option BV.t) : Prop := match bv with Some v => BV.wf v | None => True end.
Lemma readable_GetIndex bv i : readable bv -> 0 <= i -> exists b, BV.GetIndex bv i = Ok b.
Proof. destruct bv as [v|]; cbn [readable]; [|by eexists]. intros W Hi. rewrite BV.GetIndex_spec by done. eauto. Qed.

(** An overlay between two transactions. *)
Definition idle (m : MemoryDB.t) : Prop := mdok m /\ MemoryDB.writeBuffer m = ∅.

Lemma overlay_default (m : MemoryDB.t) (w W : gmap string Z) k :
  default (default (mbase m k) (w !! k)) (W !! k) = default (mbase m k) ((W ∪ w) !! k).
Proof. rewrite lookup_union. by destruct (W !! k), (w !! k). Qed.

(** The writes of one transaction, given what the sender's pre-execution read
    and wrote, with its output at hand and without. *)
Lemma executeCTx_agree app app' tx d d' err data outs bv i m m' :
  LockedKeys app' = LockedKeys app ->
  dok d -> mGetWriteSet d = ∅ -> mGetReadSet d = ∅ -> execute unmarshalError app tx d = Ok (d', err) ->
  CrossShardDataBytes (emptyOnError err (RangeDB.GetReadSet d')) (bool_decide (err = None)) = Ok data ->
  readable bv -> 0 <= i -> zlen outs > i -> outs !! Z.to_nat i = Some (emptyOnError err (RangeDB.GetWriteSet d')) ->
  idle m -> idle m' ->
  exists (w : gmap string Z) r m1 m2, executeCTx unmarshalError app outs bv i tx data m = Ok (m1, r) /\
    executeCTx unmarshalError app' [] bv i tx data m' = Ok (m2, r) /\ idle m1 /\ idle m2 /\
    forall k, mbase m1 k = default (mbase m k) (w !! k) /\ mbase m2 k = default (mbase m' k) (w !! k).
Proof.
  intros Hl Hd Hw Hr E Ed Hbv Hi Hn Ho Hm Hm'. unfold executeCTx. rewrite (data_restored _ _ _ Ed). cbn [gbind].
  assert (forall r : Receipt.t, exists (w : gmap string Z) (r' : Receipt.t) m1 m2, Ok (m, r) = Ok (m1, r') /\ Ok (m', r) = Ok (m2, r') /\ idle m1 /\ idle m2 /\
    forall k, mbase m1 k = default (mbase m k) (w !! k) /\ mbase m2 k = default (mbase m' k) (w !! k)) as Hskip.
  { intros r. exists ∅, r, m, m'. split_and!; try done. all: by intros k; rewrite lookup_empty. }
  destruct err as [e|]; cbn [emptyOnError] in *; [rewrite bool_decide_false by done; apply Hskip|].
  rewrite bool_decide_true by done. destruct (readable_GetIndex bv i Hbv Hi) as [b ->]. cbn [gbind].
  destruct b; cbn [negb]; [|apply Hskip].
  assert (zlen outs >? i = true) as -> by (apply Z.gtb_lt; lia).
  assert (zlen (@nil (gmap string Z)) >? i = false) as -> by (rewrite Z.gtb_ltb; apply Z.ltb_ge; cbn; lia).
  unfold idx, zlook. rewrite decide_False by lia. rewrite Ho. cbn [deref gbind].
  destruct Hm as [Hm Hmw], Hm' as [Hm' Hmw'].
  assert (typedMap (RangeDB.GetWriteSet d')) as Ht.
  { destruct (bank_execute_law app tx d Hd) as (d1 & err & E1 & W & _). rewrite E in E1. injection E1 as <- <-.
    apply W. }
  destruct (commit_outs m _ Hm Hmw Ht) as (m1 & -> & C1 & C2). cbn [gbind].
  destruct (reexecute app tx d d' m' Hd Hw Hr E Hm' Hmw') as (c & Ec & Wc & Mc & Bc).
  assert (execute unmarshalError app' tx (CrossShardDB.NewCrossShardDB m' (RangeDB.GetReadSet d')) = Ok (c, None)) as ->.
  { rewrite <- Ec. unfold execute. by rewrite Hl. }
  cbn [gbind]. destruct (MemoryDB_Commit_spec _ true Mc) as (D1 & D2 & D3).
  exists (RangeDB.GetWriteSet d'). eexists _, _, _. split; [reflexivity|]. split; [reflexivity|].
  split; [by split|]. split; [by split|]. intros k. split; [apply C2|].
  etransitivity; [apply D3|]. unfold CrossShardDB.GetWriteSet, MemoryDB.GetWriteSet in Wc. rewrite Wc, Bc. done.
Qed.

Lemma range_commit_empty (d : RangeDB.t) b :
  mGetWriteSet (RangeDB.CommitWrite d b) = ∅ /\ mGetReadSet (RangeDB.CommitWrite d b) = ∅.
Proof. done. Qed.

Lemma executeCTxs_agree app app' bv txs d ins outs datas po pd m m' :
  LockedKeys app' = LockedKeys app -> readable bv ->
  dok d -> mGetWriteSet d = ∅ -> mGetReadSet d = ∅ ->
  preExecuteC unmarshalError app txs d = Ok (ins, outs, datas) -> length po = length pd -> idle m -> idle m' ->
  exists (W : gmap string Z) rs m1 m2,
    executeCTxs unmarshalError app (po ++ outs) bv (pd ++ datas) (zlen po) txs m = Ok (m1, rs) /\
    executeCTxs unmarshalError app' [] bv (pd ++ datas) (zlen po) txs m' = Ok (m2, rs) /\
    idle m1 /\ idle m2 /\ length rs = length txs /\
    forall k, mbase m1 k = default (mbase m k) (W !! k) /\ mbase m2 k = default (mbase m' k) (W !! k).
Proof.
  intros Hl Hbv. revert d ins outs datas po pd m m'.
  induction txs as [|tx txs IH]; intros d ins outs datas po pd m m' Hd Hw Hr; cbn [preExecuteC executeCTxs].
  { intros _ _ Hm Hm'. exists ∅, [], m, m'. split_and!; try done. all: by intros k; rewrite lookup_empty. }
  intros E Hn Hm Hm'. apply gbind_Ok in E as ([d1 err] & Ee & E).
  apply gbind_Ok in E as (data & Ed & E). apply gbind_Ok in E as ([[ins' outs'] datas'] & Er & [= <- <- <-]).
  assert (idx (pd ++ data :: datas') (zlen po) = Ok data) as ->.
  { unfold idx, zlook. rewrite decide_False by lia. rewrite Hn, Nat2Z.id, list_lookup_middle by done. done. }
  cbn [gbind].
  destruct (executeCTx_agree app app' tx d d1 err data (po ++ emptyOnError err (RangeDB.GetWriteSet d1) :: outs') bv
              (zlen po) m m' Hl Hd Hw Hr Ee Ed Hbv) as (w & r & m1 & m2 & E1 & E2 & I1 & I2 & B1);
    [lia|rewrite length_app; cbn; lia|by rewrite Nat2Z.id, list_lookup_middle|done|done|].
  rewrite E1, E2. cbn [gbind].
  destruct (bank_execute_law app tx d Hd) as (d2 & err2 & Ee2 & Wd & _). rewrite Ee in Ee2. injection Ee2 as <- <-.
  destruct (Commit_law d1 (bool_decide (err = None)) Wd) as (Cd & _).
  destruct (range_commit_empty d1 (bool_decide (err = None))) as [Cw Cr].
  destruct (IH (RangeDB.CommitWrite d1 (bool_decide (err = None))) ins' outs' datas'
              (po ++ [emptyOnError err (RangeDB.GetWriteSet d1)]) (pd ++ [data]) m1 m2 Cd Cw Cr Er)
    as (W & rs & n1 & n2 & F1 & F2 & J1 & J2 & N & B2); [by rewrite !length_app, Hn|done|done|].
  rewrite <- (app_assoc pd) in F1, F2. rewrite <- (app_assoc po) in F1. cbn [List.app] in F1, F2.
  replace (zlen (po ++ [emptyOnError err (RangeDB.GetWriteSet d1)])) with (zlen po + 1) in F1, F2
    by (rewrite length_app; cbn; lia).
  rewrite F1, F2. cbn [gbind]. exists (W ∪ w), (r :: rs), n1, n2. split_and!; try done; [cbn; lia|].
  intros k. rewrite <- !overlay_default. destruct (B1 k) as [<- <-]. apply B2.
Qed.

Lemma NewMemoryDB_idle d : decodable d ->
  idle (MemoryDB.NewMemoryDB d) /\ forall k, mbase (MemoryDB.NewMemoryDB d) k = balance d k.
Proof. intros Hd. split; [|done]. split; [|done]. split; [|done]. by split. Qed.

Lemma preExecuteC_locked app app' txs d : LockedKeys app' = LockedKeys app ->
  preExecuteC unmarshalError app' txs d = preExecuteC unmarshalError app txs d.
Proof.
  intros E. revert d. induction txs as [|tx txs IH]; intros d; cbn [preExecuteC]; [done|].
  unfold execute. rewrite E. destruct (Tx.execute _ _ _ _) as [[d' x]| |]; cbn; [|done..].
  destruct (CrossShardDataBytes _ _); cbn; [|done..]. by rewrite IH.
Qed.

(** The proposer hashes the block before it adds the values read: they are not
    in the hash. *)
Definition withDatas (b : Block.t) (datas : list bytes) : Block.t :=
  Block.mk (Block.Header b) (Block.Body b) (CrossShardBody.mk (crossTxs b) datas) (Block.Relation b) (Block.blockhash b).
Lemma hash_cached (b : Block.t) : zlen (Block.blockhash b) = HashSize -> snd (Block.Hash_ b) = Block.blockhash b.
Proof.
  intros E. unfold Block.Hash_. change (Block.blockhash (Block.fillHeader b)) with (Block.blockhash b). cbv zeta.
  by rewrite E, Z.eqb_refl.
Qed.
Lemma Hash_caches (b : Block.t) : Block.blockhash (fst (Block.Hash_ b)) = snd (Block.Hash_ b).
Proof. unfold Block.Hash_. cbv zeta. by destruct (negb _). Qed.

Lemma proposed_key (b : Block.t) datas : zlen (snd (Block.Hash_ b)) = HashSize ->
  snd (Block.Hash_ (withDatas (fst (Block.Hash_ b)) datas)) = snd (Block.Hash_ b).
Proof.
  intros E. rewrite (hash_cached (withDatas _ datas)); [apply Hash_caches|].
  change (zlen (Block.blockhash (fst (Block.Hash_ b))) = HashSize). by rewrite Hash_caches.
Qed.
Lemma withDatas_crossDatas (b : Block.t) datas : crossDatas (withDatas b datas) = datas.
Proof. done. Qed.
Lemma proposed_crossTxs (b : Block.t) datas : crossTxs (withDatas (fst (Block.Hash_ b)) datas) = crossTxs b.
Proof. unfold Block.Hash_. cbv zeta. by destruct (negb _). Qed.

Definition headerChain (b : Block.t) : string := Header.ChainID (Block.Header b).

(** C20: the shard that proposed a cross-shard block and executed it in advance,
    and any other shard that only has the block with the values its
    transactions read, execute the block with the same receipts and write the
    same values, each over its own database. *)
Theorem executionC_agree app app1 block block1 resp app2 block' bv
  (Hpre : PreExecutionC unmarshalError app block = Ok (app1, block1, resp))
  (Htxs : crossTxs block' = crossTxs block) (Hdatas : crossDatas block' = rcCrossShardDatas resp)
  (Hkey : snd (Block.Hash_ block') = snd (Block.Hash_ block))
  (Hother : preExecutionOutputList app2 !! snd (Block.Hash_ block') = None)
  (Hlk : LockedKeys app2 = LockedKeys app) (Hrt : is_Some (KeyRangeTree app))
  (Hd1 : decodable (db app)) (Hd2 : decodable (db app2)) (Hbv : readable bv) :
  exists (W : gmap string Z) rs m1 m2,
    executionC unmarshalError app1 [bv] (0%nat, Some block') = Ok (m1, (headerChain block', rs)) /\
    executionC unmarshalError app2 [bv] (0%nat, Some block') = Ok (m2, (headerChain block', rs)) /\
    length rs = length (crossTxs block) /\
    forall k, mbase m1 k = default (balance (db app) k) (W !! k) /\
              mbase m2 k = default (balance (db app2) k) (W !! k).
Proof.
  unfold PreExecutionC in Hpre. pose proof (surjective_pairing (Block.Hash_ block)) as Eb.
  destruct (Block.Hash_ block) as [bl key] eqn:Eh. cbn [snd] in Hkey.
  assert (crossTxs bl = crossTxs block) as Etx.
  { unfold Block.Hash_ in Eh. destruct (negb _) in Eh; injection Eh as <- _; done. }
  apply gbind_Ok in Hpre as ([[ins outs] datas] & Ep & [= <- <- <-]). rewrite Etx in Ep. cbn in Hdatas.
  destruct (NewMemoryDB_idle _ Hd1) as [I1 B1], (NewMemoryDB_idle _ Hd2) as [I2 B2].
  assert (dok (RangeDB.NewRangeDB (MemoryDB.NewMemoryDB (db app)) (KeyRangeTree app))) as Hd by (split; [apply I1|done]).
  set (app1 := setLists app _ _).
  rewrite <- (preExecuteC_locked app app1) in Ep by done.
  destruct (executeCTxs_agree app1 app2 bv (crossTxs block) _ ins outs datas [] []
              (MemoryDB.NewMemoryDB (db app)) (MemoryDB.NewMemoryDB (db app2)) Hlk Hbv Hd eq_refl eq_refl Ep eq_refl I1 I2)
    as (W & rs & m1 & m2 & E1 & E2 & _ & _ & N & B).
  exists W, rs, m1, m2. unfold executionC, idx. cbn [snd fst deref gbind Z.of_nat zlook].
  assert (preExecutionOutputList app1 !! key = Some outs) as Ho by (apply lookup_insert_eq).
  rewrite Hother, Hkey, Ho, Htxs, Hdatas. cbn [default]. cbn in E1, E2.
  change (deref (zlook [bv] (Z.of_nat 0))) with (Ok bv). unfold id. cbn [gbind].
  change (db app1) with (db app). change (Z.of_nat 0) with 0 in E1, E2. rewrite E1, E2. cbn [gbind]. split_and!; try done.
Qed.
End agreement.

(** ** Money *)

Lemma sum32_wrap l s : fold_left (fun s money => wrap_u 32 (s + money)) l (wrap_u 32 s) = wrap_u 32 (s + zsum l).
Proof.
  revert s. induction l as [|m l IH]; intros s; cbn [fold_left zsum foldr]; [by rewrite Z.add_0_r|].
  replace (wrap_u 32 (wrap_u 32 s + m)) with (wrap_u 32 (s + m)).
  2:{ unfold wrap_u. by rewrite Zplus_mod_idemp_l. }
  rewrite IH. unfold zsum. f_equal. lia.
Qed.

(** The sum is the sum modulo [2^32]. *)
Lemma sum32_spec l : sum32 l = zsum l mod 2 ^ 32.
Proof. exact (sum32_wrap l 0). Qed.

Section money.
Context (lockedKeys : gmap string bool) (bal : string -> option Z) (b : string -> Z).
Context (Hbal : forall k v, bal k = Some v -> v = b k) (Hb : forall k, in_u 32 (b k)).

Lemma debits_sum from money l : debits lockedKeys bal from money = Some l -> length from = length money ->
  Forall (in_u 32) money -> zsum l = zsum (map b from) - zsum money /\ length l = length from.
Proof using Hbal Hb.
  revert money l. induction from as [|k from IH]; intros [|m money] l; cbn [debits length]; try done.
  { intros [= <-] _ _. done. }
  intros E [= Hn] [Hm Hms]%Forall_cons. destruct (Tx.locked lockedKeys k); [done|].
  destruct (bal k) as [v|] eqn:Ek; cbn in E; [|done]. apply Hbal in Ek. subst v.
  destruct (Z.ltb_spec (b k) m); [done|]. destruct (debits lockedKeys bal from money) as [l'|] eqn:El; cbn in E; [|done].
  injection E as <-. destruct (IH money l' El Hn Hms) as [IH1 IH2]. specialize (Hb k).
  cbn [map zsum foldr length]. fold (zsum l') (zsum (map b from)) (zsum money).
  rewrite wrap_u_small by (unfold in_u in *; lia). lia.
Qed.

(** The receivers whose balance overflows. *)
Definition overflows (to_ : list string) (money : list Z) : Z :=
  zlen (List.filter (fun x => 2 ^ 32 <=? b x.1 + x.2) (combine to_ money)).

Lemma credits_sum to_ money l : credits lockedKeys bal to_ money = Some l -> length to_ = length money ->
  Forall (in_u 32) money ->
  zsum l = zsum (map b to_) + zsum money - 2 ^ 32 * overflows to_ money /\ length l = length to_.
Proof using Hbal Hb.
  revert money l. induction to_ as [|k to_ IH]; intros [|m money] l; cbn [credits length combine]; try done.
  { intros [= <-] _ _. done. }
  intros E [= Hn] [Hm Hms]%Forall_cons. destruct (Tx.locked lockedKeys k); [done|].
  destruct (bal k) as [v|] eqn:Ek; cbn in E; [|done]. apply Hbal in Ek. subst v.
  destruct (credits lockedKeys bal to_ money) as [l'|] eqn:El; cbn in E; [|done].
  injection E as <-. destruct (IH money l' El Hn Hms) as [IH1 IH2]. specialize (Hb k).
  cbn [map zsum foldr length]. fold (zsum l') (zsum (map b to_)) (zsum money).
  unfold overflows in *. cbn [combine List.filter fst snd]. unfold in_u in Hb, Hm.
  destruct (Z.leb_spec (2 ^ 32) (b k + m)); cbn [length].
  - assert (wrap_u 32 (b k + m) = b k + m - 2 ^ 32) as ->.
    { unfold wrap_u. symmetry. apply (Z.mod_unique_pos _ _ 1); lia. }
    lia.
  - rewrite wrap_u_small by (unfold in_u; lia). lia.
Qed.
End money.

Lemma assign_lookup_ne (l : list (string * Z)) m k : k ∉ l.*1 -> assign l m !! k = m !! k.
Proof.
  revert m. induction l as [|[k' v] l IH]; intros m; cbn; [done|]. intros [Hk Hl]%not_elem_of_cons.
  unfold assign in *. cbn. rewrite IH by done. by rewrite lookup_insert_ne.
Qed.

Lemma assign_lookup (l : list (string * Z)) m k v : NoDup l.*1 -> (k, v) ∈ l -> assign l m !! k = Some v.
Proof.
  revert m. induction l as [|[k' v'] l IH]; intros m; cbn; [by intros _ ?%not_elem_of_nil|].
  intros [Hk Hnd]%NoDup_cons [[= -> ->]|Hin]%elem_of_cons; [|by apply IH].
  unfold assign. cbn. fold (assign l (<[k' := v']> m)). rewrite assign_lookup_ne by done. apply lookup_insert_eq.
Qed.

(** The values after the assignments are the assigned ones. *)
Lemma map_assign (f : string -> Z) keys vals (L : list (string * Z)) :
  NoDup L.*1 -> combine keys vals ⊆ L -> length vals = length keys ->
  map (fun k => default (f k) (assign L ∅ !! k)) keys = vals.
Proof.
  intros Hnd. revert vals. induction keys as [|k keys IH]; intros [|v vals]; cbn; try done.
  intros Hsub [= Hn]. rewrite (assign_lookup L ∅ k v Hnd) by (apply Hsub; constructor). cbn. f_equal.
  apply IH; [|done]. intros x Hx. apply Hsub. by constructor.
Qed.

Section conservation.
Context `{Hash, StdTime, DBLaws, !Codec pbTransferTx, !Codec pbInsertTx, !TxCodecLaws}.
Context (unmarshalError : bytes -> string).

Lemma range_reads_base (d : RangeDB.t) k v : mGetWriteSet d = ∅ -> reads d k = Some v -> v = base d k.
Proof.
  cbn. unfold RangeDB.GetWriteSet, MemoryDB.GetWriteSet, mvalue. intros ->. destruct (searched d k); [|done].
  rewrite lookup_empty. by intros [= <-].
Qed.
Lemma range_base_u32 (d : RangeDB.t) k : dok d -> in_u 32 (base d k).
Proof. intros [[W _] _]. by apply mbase_range. Qed.

(** What a transfer that succeeds commits. *)
Lemma transfer_commits app (d d' : RangeDB.t) tx (t : pbTransferTx) :
  dok d -> mGetWriteSet d = ∅ -> execute unmarshalError app tx d = Ok (d', None) ->
  BytesToUint32 (take 4 tx) = Ok TxTransfer -> Unmarshal (drop 4 tx) = Some t ->
  exists l, transfer (LockedKeys app) (reads d) t = Some l /\
    forall k, base (RangeDB.CommitWrite d' true) k = default (base d k) (assign l ∅ !! k).
Proof.
  intros Hd Hw E Ety Et. destruct (execute_law (LockedKeys app) unmarshalError tx d Hd) as (d1 & x & E1 & W & B & R).
  unfold execute in E. rewrite E1 in E. cbn in E. injection E as <- Ex.
  assert (outcome (LockedKeys app) (reads d) (present d) tx = transfer (LockedKeys app) (reads d) t) as Eo.
  { unfold outcome. unfold BytesToUint32, leUint in Ety. rewrite length_take in Ety.
    destruct (Nat.ltb_spec (4 `min` length tx) 4); [done|]. destruct (Nat.ltb_spec (length tx) 4); [lia|].
    unfold BytesToUint32, leUint. rewrite length_take. destruct (Nat.ltb_spec (4 `min` length tx) 4); [lia|].
    injection Ety as ->. by rewrite Z.eqb_refl, Et. }
  rewrite Eo in R. destruct (transfer _ _ t) as [l|]; [|by destruct R as [e ->]].
  exists l. split; [done|]. destruct R as (-> & _ & Rw & _). intros k.
  destruct (Commit_law d1 true W) as (_ & _ & C). etransitivity; [apply C|]. by rewrite Rw, Hw, B.
Qed.

(** C21: a transfer between distinct accounts, executed where no writes are pending,
    leaves every other account as it was
    and changes their total by a multiple of 2^32 that is known exactly: it grows
    by 2^32 for every time that the sum of the received money wraps more often than
    that of the paid money, and shrinks by 2^32 for every receiver whose balance
    overflows. So the total is kept when both sums and all balances fit. *)
Theorem transfer_conserves app (d d' : RangeDB.t) tx (t : pbTransferTx)
  (Hd : dok d) (Hw : mGetWriteSet d = ∅) (He : execute unmarshalError app tx d = Ok (d', None))
  (Hty : BytesToUint32 (take 4 tx) = Ok TxTransfer) (Ht : Unmarshal (drop 4 tx) = Some t)
  (Hnd : NoDup (From t ++ To t)) :
  let before := zsum (map (base d) (From t ++ To t)) in
  let after := zsum (map (base (RangeDB.CommitWrite d' true)) (From t ++ To t)) in
  (exists wraps, zsum (ToMoney t) = zsum (FromMoney t) + 2 ^ 32 * wraps /\
     after = before + 2 ^ 32 * (wraps - overflows (base d) (To t) (ToMoney t))) /\
  (zsum (FromMoney t) < 2 ^ 32 -> zsum (ToMoney t) < 2 ^ 32 ->
   (forall k m, (k, m) ∈ combine (To t) (ToMoney t) -> base d k + m < 2 ^ 32) -> after = before) /\
  forall k, k ∉ From t ++ To t -> base (RangeDB.CommitWrite d' true) k = base d k.
Proof.
  intros before after.
  destruct (transfer_commits app d d' tx t Hd Hw He Hty Ht) as (l & El & Hl). unfold transfer in El.
  destruct (ValidateTransferTx t) eqn:Ev; [done|]. destruct (ValidateTransferTx_lengths t Ev) as (L1 & L2 & Es).
  destruct (transfer_u32 _ _ Ht) as [U1 U2].
  destruct (debits _ _ _ _) as [l1|] eqn:E1; cbn in El; [|done].
  destruct (credits _ _ _ _) as [l2|] eqn:E2; cbn in El; [|done]. injection El as <-.
  assert (forall k v, reads d k = Some v -> v = base d k) as Hr by (intros; by apply range_reads_base).
  assert (forall k, in_u 32 (base d k)) as Hu by (intros; by apply range_base_u32).
  destruct (debits_sum _ _ _ Hr Hu _ _ _ E1 L1 U1) as [S1 N1].
  destruct (credits_sum _ _ _ Hr Hu _ _ _ E2 L2 U2) as [S2 N2].
  assert ((combine (From t) l1 ++ combine (To t) l2).*1 = From t ++ To t) as Ek.
  { rewrite fmap_app. f_equal; apply fst_zip; lia. }
  rewrite !sum32_spec in Es. set (o := overflows _ _ _) in *.
  assert (after = before + (zsum (ToMoney t) - zsum (FromMoney t)) - 2 ^ 32 * o) as Ha.
  { unfold after, before. rewrite !map_app, !zsum_app. rewrite !(map_ext _ _ Hl).
    set (L := combine (From t) l1 ++ combine (To t) l2) in *.
    assert (NoDup L.*1) as HL by by rewrite Ek.
    rewrite (map_assign (base d) (From t) l1 L HL), (map_assign (base d) (To t) l2 L HL); [|set_solver|done|set_solver|done].
    lia. }
  split; [|split].
  - exists (zsum (ToMoney t) / 2 ^ 32 - zsum (FromMoney t) / 2 ^ 32).
    pose proof (Z.div_mod (zsum (ToMoney t)) (2 ^ 32) ltac:(lia)) as D1.
    pose proof (Z.div_mod (zsum (FromMoney t)) (2 ^ 32) ltac:(lia)) as D2. rewrite <- Es in D1. clear -Ha D1 D2.
    clearbody after before o. set (q1 := zsum (ToMoney t) / 2 ^ 32) in *. set (q2 := zsum (FromMoney t) / 2 ^ 32) in *.
    set (r := zsum (FromMoney t) mod 2 ^ 32) in *. clearbody q1 q2 r. split; lia.
  - intros Hf Hto Hov.
    assert (forall l, Forall (in_u 32) l -> zsum l < 2 ^ 32 -> zsum l mod 2 ^ 32 = zsum l) as Hmod.
    { intros l Hu' ?. apply Z.mod_small. split; [|done]. apply zsum_nonneg. eapply Forall_impl; [exact Hu'|]. by intros ? []. }
    rewrite !Hmod in Es by done. rewrite Ha, Es. assert (o = 0) as ->; [|lia]. unfold o, overflows.
    destruct (List.filter _ _) as [|[k m] r] eqn:Ef; [done|]. exfalso.
    assert (List.In (k, m) (List.filter (fun x => 2 ^ 32 <=? base d x.1 + x.2) (combine (To t) (ToMoney t)))) as Hin by (rewrite Ef; by left).
    apply List.filter_In in Hin as [Hin%list_elem_of_In Hge%Z.leb_le]. specialize (Hov k m Hin). cbn [fst snd] in Hge. lia.
  - intros k Hk. rewrite Hl, assign_lookup_ne by by rewrite Ek. by rewrite lookup_empty.
Qed.

(** A transfer from an account to itself creates the transferred amount:
    the debit is overwritten by the credit of the old balance. *)
Theorem transfer_to_self_creates app (d d' : RangeDB.t) tx (t : pbTransferTx) k m
  (Hd : dok d) (Hw : mGetWriteSet d = ∅) (He : execute unmarshalError app tx d = Ok (d', None))
  (Hty : BytesToUint32 (take 4 tx) = Ok TxTransfer) (Ht : Unmarshal (drop 4 tx) = Some t)
  (Hf : From t = [k]) (Hto : To t = [k]) (Hm : ToMoney t = [m]) :
  base (RangeDB.CommitWrite d' true) k = wrap_u 32 (base d k + m).
Proof.
  destruct (transfer_commits app d d' tx t Hd Hw He Hty Ht) as (l & El & Hl). unfold transfer in El.
  destruct (ValidateTransferTx t) eqn:Ev; [done|]. rewrite Hf, Hto, Hm in El.
  pose proof (fun v => range_reads_base d k v Hw) as Hr. set (R := reads d) in *. clearbody R.
  destruct (debits _ _ _ _) as [l1|]; cbn in El; [|done].
  destruct (Tx.locked (LockedKeys app) k); [done|].
  destruct (R k) as [v|]; cbn in El; [|done]. injection El as <-. rewrite Hl, assign_app, (Hr v eq_refl).
  unfold assign at 1. cbn. by rewrite lookup_insert_eq.
Qed.
End conservation.

(** ** Concrete evaluations *)

Module BankDemo.
Import DemoHash Demo StoreDemo BankTxDemo.

Lemma isU32_range v : isU32 v = true -> in_u 32 v.
Proof. unfold isU32, in_u. rewrite andb_true_iff, Z.leb_le, Z.ltb_lt. done. Qed.

#[export] Instance demoLaws : TxCodecLaws.
Proof.
  split; cbn [Unmarshal transferSer insertSer restrict]; intros b tx.
  - destruct (Unmarshal b) as [m|]; [|done]. destruct (isU32 (Money m)) eqn:E; [|done].
    intros [= <-]. by apply isU32_range.
  - destruct (Unmarshal b) as [m|]; [|done]. destruct (_ && _) eqn:E; [|done]. intros [= <-].
    apply andb_true_iff in E as [E1 E2]. rewrite forallb_forall in E1, E2.
    split; apply Forall_forall; intros v Hv%list_elem_of_In; apply isU32_range; auto.
Qed.

Definition noText (_ : bytes) : string := "proto: cannot parse".
Definition keys : RangeTree.t :=
  {| RangeTree.start := "a"; RangeTree.end_ := "z"; RangeTree.root := Some (RangeTreeNode.Leaf "z") |}.
Definition application : Application :=
  NewApplication (∅ : gmap bytes bytes) "C0" false (Some keys) ∅.
Definition other : Application :=
  NewApplication (∅ : gmap bytes bytes) "I0" true (Some keys) ∅.
Definition now : Time := mkTime 1700000000 0.
Definition pay (from to_ : string) (m : Z) : pbTransferTx := NewTransferTx [from] [m] [to_] [m] now.
Definition payBytes (from to_ : string) (m : Z) : bytes := valueOf [] (TransferBytes (pay from to_ m)).

(** The second transaction reads what the first wrote; the third overdraws. *)
Definition crossBlock (datas : list bytes) : Block.t :=
  Block.mk (Block.Header block) (Block.Body block)
    (CrossShardBody.mk [payBytes "alice" "bob" 5; payBytes "bob" "carol" 1000003; payBytes "alice" "bob" 1000000] datas)
    (Block.Relation block) [].

Definition noApp : Application * Block.t * ABCIPreExecutionResponseC := (application, block, mkRespC 0 []).
Definition pre := valueOf noApp (PreExecutionC noText application (crossBlock [])).
Lemma pre_Ok : PreExecutionC noText application (crossBlock []) = Ok (pre.1.1, pre.1.2, pre.2).
Proof.
  assert (PreExecutionC noText application (crossBlock []) = Ok pre) as -> by (unfold pre; apply valueOf_Ok; vm_compute; reflexivity).
  by destruct pre as [[? ?] ?].
Qed.
Definition commitBits : option BV.t := Some (BV.mk 3 [Byte.x07]).
Lemma commitBits_readable : readable commitBits.
Proof. split; [cbn; lia|reflexivity]. Qed.
Lemma empty_decodable : decodable (∅ : gmap bytes bytes).
Proof. intros key. left. unfold stored. cbn [contents mapLaws]. by rewrite lookup_empty. Qed.

(** The block as the proposer sends it. *)
Definition proposed : Block.t := withDatas (fst (Block.Hash_ (crossBlock []))) (rcCrossShardDatas pre.2).
Lemma key_length : zlen (snd (Block.Hash_ (crossBlock []))) = HashSize.
Proof. vm_compute. reflexivity. Qed.
Definition key_same := proposed_key (crossBlock []) (rcCrossShardDatas pre.2) key_length.
Definition proposed_txs := proposed_crossTxs (crossBlock []) (rcCrossShardDatas pre.2).
Definition proposed_datas := withDatas_crossDatas (fst (Block.Hash_ (crossBlock []))) (rcCrossShardDatas pre.2).
Lemma other_empty key : preExecutionOutputList other !! key = None.
Proof. apply lookup_empty. Qed.

Lemma executionC_agree_witness :
  exists (W : gmap string Z) rs m1 m2,
    executionC noText pre.1.1 [commitBits] (0%nat, Some proposed) =
      Ok (m1, (headerChain proposed, rs)) /\
    executionC noText other [commitBits] (0%nat, Some proposed) =
      Ok (m2, (headerChain proposed, rs)) /\
    length rs = length (crossTxs (crossBlock [])) /\
    forall k, mbase m1 k = default (balance (db application) k) (W !! k) /\
              mbase m2 k = default (balance (db other) k) (W !! k).
Proof.
  exact (executionC_agree noText application pre.1.1 (crossBlock []) pre.1.2 pre.2 other
           proposed commitBits pre_Ok proposed_txs proposed_datas
           key_same (other_empty _) eq_refl (mk_is_Some (KeyRangeTree application) keys eq_refl)
           empty_decodable empty_decodable commitBits_readable).
Defined.

Definition start : RangeDB.t := RangeDB.NewRangeDB (MemoryDB.NewMemoryDB (∅ : gmap bytes bytes)) (Some keys).
Lemma start_ok : dok start.
Proof. split; [apply NewMemoryDB_idle, empty_decodable|by exists keys]. Qed.
Definition run (tx : bytes) := valueOf (start, None) (execute noText application tx start).
Definition succeeds (tx : bytes) : bool :=
  match execute noText application tx start with Ok (_, None) => true | _ => false end.
Lemma run_Ok tx : succeeds tx = true -> execute noText application tx start = Ok (fst (run tx), None).
Proof. unfold succeeds, run. destruct (execute noText application tx start) as [[d [e|]]| |]; done. Qed.
Lemma paid : succeeds (payBytes "alice" "bob" 5) = true.
Proof. vm_compute. reflexivity. Qed.
Lemma paid_self : succeeds (payBytes "alice" "alice" 5) = true.
Proof. vm_compute. reflexivity. Qed.
Lemma pay_decodes from to_ : Unmarshal (drop 4 (payBytes from to_ 5)) = Some (pay from to_ 5).
Proof. apply (Unmarshal_Marshal (pay from to_ 5)). reflexivity. Qed.
Lemma start_base k : base start k = 1000000.
Proof.
  cbn. unfold mbase. cbn. unfold balance, stored. cbn [contents mapLaws]. rewrite !lookup_empty. reflexivity.
Qed.

Lemma transfer_conserves_witness :
  let d' := fst (run (payBytes "alice" "bob" 5)) in
  zsum (map (base (RangeDB.CommitWrite d' true)) ["alice"; "bob"]) = zsum (map (base start) ["alice"; "bob"]) /\
  forall k, k ∉ ["alice"; "bob"] -> base (RangeDB.CommitWrite d' true) k = base start k.
Proof.
  destruct (transfer_conserves noText application start _ _ (pay "alice" "bob" 5) start_ok eq_refl
            (run_Ok _ paid) eq_refl (pay_decodes "alice" "bob")) as (_ & Hc & Ho).
  - apply (bool_decide_unpack _). vm_compute. exact I.
  - split; [|exact Ho]. apply Hc.
    + reflexivity.
    + reflexivity.
    + intros k m Hin. apply list_elem_of_singleton in Hin. injection Hin as -> ->. rewrite start_base. reflexivity.
Defined.

Lemma transfer_to_self_creates_witness :
  base (RangeDB.CommitWrite (fst (run (payBytes "alice" "alice" 5))) true) "alice" = wrap_u 32 (base start "alice" + 5).
Proof.
  exact (transfer_to_self_creates noText application start _ _ (pay "alice" "alice" 5) "alice" 5 start_ok eq_refl
           (run_Ok _ paid_self) eq_refl (pay_decodes "alice" "alice") eq_refl eq_refl eq_refl).
Defined.

(** The sum of the received money wraps: this transfer is valid. *)
Example wrapped_sum : ValidateTransferTx (mkTransferTx ["a"] ["b"; "c"] [0] [4294967295; 1] [] None) = None.
Proof. reflexivity. Qed.
End BankDemo.
