(* ===== verification/BankVotes.v ===== *)
(** * The votes of the bank isolate the cross-shard blocks

    What the commit bits of [PreExecutionI] guarantee: a transaction marked to
    commit shares no key with an aborted one before it in its block, nor with
    any transaction of an earlier block, so the blocks can be executed side by
    side. *)

From S2P Require Import Prelude BitVector Convert Hash Wire Types RangeTree ShardInfo.
From S2P Require Import Store MemDB BankTx Bank BankSpec.
Import Bank DependencyGraph(NewDependencyGraph, AddWrite, AddRead).
Local Open Scope Z_scope.

Section votes.
Context `{Hash, StdTime, DB, !Codec pbTransferTx, !Codec pbInsertTx, !Codec pbBankData}.
Context (unmarshalError : bytes -> string).

(** The keys of a transaction, and of the [i]-th of a list. *)
Definition keysOf (tx : bytes) : gset string := match getRWSet tx with Ok s => s | _ => ∅ end.
Definition keysAt (txs : Txs.t) (i : nat) : gset string :=
  match txs !! i with Some tx => keysOf tx | None => ∅ end.

Lemma AddWrite_lookup dg w index k : AddWrite dg w index !! k = if decide (k = w) then Some index else dg !! k.
Proof.
  destruct (decide (k = w)) as [->|Hne]; [apply lookup_insert_eq|by apply lookup_insert_ne].
Qed.

Lemma addWrites_lookup dg keys index k :
  addWrites dg keys index !! k = if decide (k ∈ keys) then Some index else dg !! k.
Proof.
  unfold addWrites. revert dg. induction keys as [|w keys IH]; intros dg; cbn [fold_left]; [done|].
  rewrite IH, AddWrite_lookup.
  destruct (decide (k ∈ keys)), (decide (k = w)), (decide (k ∈ w :: keys)) as [D|D];
    rewrite elem_of_cons in D; first [done|tauto].
Qed.

Lemma independent_true dg alldg bv reads : independent dg alldg bv reads = Ok true ->
  forall r, r ∈ reads -> match dg !! r with Some z => BV.GetIndex bv z = Ok true | None => alldg !! r = None end.
Proof.
  induction reads as [|w reads IH]; cbn [independent]; [by intros _ r ?%not_elem_of_nil|].
  unfold AddRead. destruct (dg !! w) as [z|] eqn:Ew.
  - destruct (BV.GetIndex bv z) as [[]| |] eqn:Ez; cbn; try done. intros E r [->|Hr]%elem_of_cons; [by rewrite Ew|by apply IH].
  - destruct (alldg !! w) eqn:Ea; [done|]. intros E r [->|Hr]%elem_of_cons; [by rewrite Ew|by apply IH].
Qed.

(** The state of the first pass before the [n]-th transaction of a block. *)
Record passed (alldg : DependencyGraph.t) (txs : Txs.t) (n : nat) (bv : BV.t) (dg : DependencyGraph.t) : Prop := {
  ps_wf : BV.wf bv;
  ps_bits : BV.Bits bv = zlen txs;
  ps_written k z : dg !! k = Some z ->
    exists j, z = Z.of_nat j /\ (j < n)%nat /\ k ∈ keysAt txs j /\ forall l, (j < l < n)%nat -> k ∉ keysAt txs l;
  ps_unwritten k : dg !! k = None -> forall j, (j < n)%nat -> k ∉ keysAt txs j;
  ps_closed i j k : (i < n)%nat -> BV.bit bv (Z.of_nat i) = true -> (j < i)%nat ->
    k ∈ keysAt txs i -> k ∈ keysAt txs j -> BV.bit bv (Z.of_nat j) = true;
  ps_isolated i k : (i < n)%nat -> BV.bit bv (Z.of_nat i) = true -> k ∈ keysAt txs i -> alldg !! k = None
}.

Lemma GetIndex_bit bv i b : BV.wf bv -> 0 <= i -> BV.GetIndex (Some bv) i = Ok b ->
  b = true -> i < BV.Bits bv /\ BV.bit bv i = true.
Proof.
  intros W Hi E ->. rewrite BV.GetIndex_spec in E by done.
  destruct (Z.ltb_spec i (BV.Bits bv)); [|done]. by injection E as ->.
Qed.

Lemma passed_step alldg txs n bv dg tx keys flag bv' b :
  passed alldg txs n bv dg -> txs !! n = Some tx -> getRWSet tx = Ok keys ->
  independent dg alldg (Some bv) (elements keys) = Ok flag ->
  BV.SetIndex (Some bv) (Z.of_nat n) flag = Ok (bv', b) ->
  exists v, bv' = Some v /\ passed alldg txs (S n) v (addWrites dg (elements keys) (Z.of_nat n)).
Proof.
  intros [W B P1 P2 P3 P4] Htx Hk Hi Hs.
  assert (n < length txs)%nat as Hn by (by eapply lookup_lt_Some).
  destruct (BV.SetIndex_spec bv (Z.of_nat n) flag W ltac:(lia)) as (v & E & W' & B' & Hbit).
  rewrite E in Hs. injection Hs as <- _. exists v. split; [done|].
  assert (keysAt txs n = keys) as Hkn by (unfold keysAt, keysOf; by rewrite Htx, Hk).
  assert (forall j, j <> n -> BV.bit v (Z.of_nat j) = BV.bit bv (Z.of_nat j)) as Hold.
  { intros j Hj. rewrite Hbit by lia. destruct (Z.eqb_spec (Z.of_nat j) (Z.of_nat n)); [lia|done]. }
  assert (BV.bit v (Z.of_nat n) = flag) as Hnew by (rewrite Hbit, Z.eqb_refl by lia; done).
  assert (flag = true -> forall k, k ∈ keys ->
    match dg !! k with
    | Some z => exists l, z = Z.of_nat l /\ (l < n)%nat /\ k ∈ keysAt txs l /\ BV.bit bv (Z.of_nat l) = true /\
                  forall j, (l < j < n)%nat -> k ∉ keysAt txs j
    | None => alldg !! k = None
    end) as Hflag.
  { intros -> k Hin. pose proof (independent_true _ _ _ _ Hi k ltac:(by apply elem_of_elements)) as Hr.
    destruct (dg !! k) as [z|] eqn:Ek; [|done]. destruct (P1 k z Ek) as (l & -> & Hl & Hkl & Hlast).
    destruct (GetIndex_bit bv (Z.of_nat l) true W (Nat2Z.is_nonneg l) Hr eq_refl) as [_ ?]. by exists l. }
  split; [done|congruence|..].
  - intros k z. rewrite addWrites_lookup. case_decide as D.
    + intros [= <-]. exists n. rewrite Hkn. split; [done|]. split; [lia|]. split; [by apply elem_of_elements|]. intros l ?. lia.
    + intros Ek. destruct (P1 k z Ek) as (j & -> & Hj & Hkj & Hlast). exists j. split; [done|]. split; [lia|].
      split; [done|]. intros l Hl. destruct (decide (l = n)) as [->|]; [|apply Hlast; lia].
      rewrite Hkn. by rewrite elem_of_elements in D.
  - intros k. rewrite addWrites_lookup. case_decide as D; [done|]. intros Ek j Hj.
    destruct (decide (j = n)) as [->|]; [rewrite Hkn; by rewrite elem_of_elements in D|apply P2; [done|lia]].
  - intros i j k Hin Hb Hj Hki Hkj. rewrite (Hold j) by lia. destruct (decide (i = n)) as [->|Hne].
    + rewrite Hnew in Hb. rewrite Hkn in Hki. specialize (Hflag Hb k Hki). destruct (dg !! k) as [z|] eqn:Ek.
      * destruct Hflag as (l & -> & Hl & Hkl & Hbl & Hlast). destruct (Nat.lt_trichotomy l j) as [?|[->|?]]; [|done|].
        -- by destruct (Hlast j ltac:(lia)).
        -- by apply (P3 l j k).
      * by destruct (P2 k Ek j Hj).
    + rewrite Hold in Hb by done. apply (P3 i j k); first [done|lia].
  - intros i k Hin Hb Hki. destruct (decide (i = n)) as [->|Hne].
    + rewrite Hnew in Hb. rewrite Hkn in Hki. specialize (Hflag Hb k Hki). destruct (dg !! k) as [z|]; [|done].
      destruct Hflag as (l & -> & Hl & Hkl & Hbl & _). by apply (P4 l k).
    + rewrite Hold in Hb by done. apply (P4 i k); first [done|lia].
Qed.

Lemma firstPassTxs_passed alldg pre txs bv dg bv' dg' :
  passed alldg (pre ++ txs) (length pre) bv dg ->
  firstPassTxs alldg (zlen pre) txs (Some bv) dg = Ok (bv', dg') ->
  exists v, bv' = Some v /\ passed alldg (pre ++ txs) (length (pre ++ txs)) v dg'.
Proof.
  revert pre bv dg. induction txs as [|tx txs IH]; intros pre bv dg Hp; cbn [firstPassTxs].
  { intros [= <- <-]. exists bv. rewrite app_nil_r in *. by split. }
  intros E. apply gbind_Ok in E as (keys & Ek & E). apply gbind_Ok in E as (flag & Ef & E).
  apply gbind_Ok in E as ([bv1 b] & Es & E).
  destruct (passed_step _ _ _ _ _ tx keys flag bv1 b Hp) as (v & -> & Hp'); [by apply list_lookup_middle|done..|].
  replace (zlen pre + 1) with (zlen (pre ++ [tx])) in E by (rewrite length_app; cbn; lia).
  replace (pre ++ tx :: txs) with ((pre ++ [tx]) ++ txs) in * by by rewrite <- app_assoc.
  apply (IH (pre ++ [tx]) v) in E; [done|]. rewrite length_app. cbn. by rewrite Nat.add_1_r.
Qed.

Lemma passed_start alldg txs v : BV.NewBitVector (zlen txs) = Some v ->
  passed alldg txs 0 v NewDependencyGraph.
Proof.
  intros E. split; try done; try lia.
  - by eapply BV.NewBitVector_wf.
  - unfold BV.NewBitVector in E. destruct (_ <? _) in E; [done|]. by injection E as <-.
Qed.

Lemma firstPassTxs_spec alldg txs bv dg :
  firstPassTxs alldg 0 txs (BV.NewBitVector (zlen txs)) NewDependencyGraph = Ok (bv, dg) ->
  exists v, bv = Some v /\ passed alldg txs (length txs) v dg.
Proof.
  destruct (BV.NewBitVector (zlen txs)) as [v|] eqn:E.
  - intros Ep. exact (firstPassTxs_passed alldg [] txs v NewDependencyGraph bv dg (passed_start _ _ _ E) Ep).
  - unfold BV.NewBitVector in E. destruct (Z.ltb_spec (zlen txs) 0) in E; [lia|done].
Qed.

Lemma keysAt_bound txs j k : k ∈ keysAt txs j -> (j < length txs)%nat.
Proof. unfold keysAt. destruct (txs !! j) eqn:E; [by intros _; eapply lookup_lt_Some|by intros ?%not_elem_of_empty]. Qed.

Lemma firstPass_spec alldg i blocks st : firstPass alldg i blocks = Ok st ->
  length st = length blocks /\
  forall b, (b < length blocks)%nat -> exists block v dg alldg',
    blocks !! b = Some (Some block) /\ st !! b = Some (BV.Byte (Some v)) /\
    passed alldg' (crossTxs block) (length (crossTxs block)) v dg /\
    (forall k, is_Some (alldg !! k) -> is_Some (alldg' !! k)) /\
    forall a blockA j k, (a < b)%nat -> blocks !! a = Some (Some blockA) -> k ∈ keysAt (crossTxs blockA) j ->
      is_Some (alldg' !! k).
Proof.
  revert alldg i st. induction blocks as [|block blocks IH]; intros alldg i st; cbn [firstPass].
  { intros [= <-]. split; [done|]. cbn. lia. }
  intros E. apply gbind_Ok in E as (bl & Eb & E). destruct block as [block|]; [|done]. injection Eb as <-.
  apply gbind_Ok in E as ([bv dg] & Ep & E). apply gbind_Ok in E as (rest & Er & [= <-]).
  destruct (firstPassTxs_spec _ _ _ _ Ep) as (v & -> & P).
  destruct (IH _ _ _ Er) as [Hlen Hrest]. split; [cbn; lia|]. intros [|b] Hb.
  { exists block, v, dg, alldg. split_and!; try done. intros; lia. }
  cbn in Hb. destruct (Hrest b ltac:(lia)) as (block' & v' & dg' & alldg' & E1 & E2 & P' & Hmono & Hearlier).
  exists block', v', dg', alldg'. split_and!; try done.
  - intros k Hk. apply Hmono. rewrite addWrites_lookup. case_decide; [done|exact Hk].
  - intros [|a] blockA j k Ha EA Hk; [|apply (Hearlier a blockA j k); [lia|done|done]].
    injection EA as <-. apply Hmono. rewrite addWrites_lookup. rewrite decide_True; [done|].
    destruct (dg !! k) as [z|] eqn:Ek.
    + apply list_elem_of_fmap. exists (k, z). split; [done|]. by apply elem_of_map_to_list.
    + destruct (ps_unwritten _ _ _ _ _ P k Ek j (keysAt_bound _ _ _ Hk) Hk).
Qed.

(** The second pass only clears bits. *)
Definition clears (v : BV.t) (bv' : option BV.t) : Prop :=
  exists v', bv' = Some v' /\ BV.wf v' /\ BV.Bits v' = BV.Bits v /\
    forall j, 0 <= j -> BV.bit v' j = true -> BV.bit v j = true.

Lemma clears_SetIndex v i flag bv' b : BV.wf v -> BV.GetIndex (Some v) i = Ok true -> 0 <= i ->
  BV.SetIndex (Some v) i flag = Ok (bv', b) -> clears v bv'.
Proof.
  intros W Hg Hi Hs. destruct (GetIndex_bit v i true W Hi Hg eq_refl) as [Hlt Hbit].
  destruct (BV.SetIndex_spec v i flag W ltac:(lia)) as (v' & E & W' & B & Hb). rewrite E in Hs. injection Hs as <- <-.
  exists v'. split_and!; try done. intros j Hj. rewrite Hb by done. by destruct (Z.eqb_spec j i) as [->|].
Qed.

Lemma preExecuteTx_clears app i tx data m v dg m' bv' dg' : BV.wf v -> BV.GetIndex (Some v) i = Ok true -> 0 <= i ->
  preExecuteTx unmarshalError app i tx data (m, Some v, dg) = Ok (m', bv', dg') -> clears v bv'.
Proof.
  intros W Hg Hi. pose proof (fun flag bv' b => clears_SetIndex v i flag bv' b W Hg Hi) as Hc.
  unfold preExecuteTx. intros E. apply gbind_Ok in E as (csd & _ & E).
  assert (forall flag (f : option BV.t -> go (MemoryDB.t * option BV.t * DependencyGraph.t)),
    (forall x, f x = Ok (m', bv', dg') -> bv' = x) ->
    (let! '(bv, _) := BV.SetIndex (Some v) i flag in f bv) = Ok (m', bv', dg') -> clears v bv') as Hset.
  { intros flag f Hf Ef. apply gbind_Ok in Ef as ([x b] & Es & Ef). apply Hf in Ef as ->. by eapply Hc. }
  destruct csd as [[csdb []]|]; [|by eapply Hset, E; intros x [= _ <- _]..].
  apply gbind_Ok in E as ([m1 ff] & _ & E). destruct ff; cbn [negb] in E; [|by eapply Hset, E; intros x [= _ <- _]].
  apply gbind_Ok in E as ([d err] & _ & E). destruct err; [by eapply Hset, E; intros x [= _ <- _]|].
  apply gbind_Ok in E as (flag & _ & E). by eapply Hset, E; intros x [= _ <- _].
Qed.

Lemma preExecuteTxs_clears app datas i txs m v dg m' bv' dg' : BV.wf v -> 0 <= i ->
  preExecuteTxs unmarshalError app datas i txs (m, Some v, dg) = Ok (m', bv', dg') -> clears v bv'.
Proof.
  revert i m v dg. induction txs as [|tx txs IH]; intros i m v dg W Hi; cbn [preExecuteTxs].
  { intros [= _ <- _]. by exists v. }
  intros E. apply gbind_Ok in E as (marked & Em & E). apply gbind_Ok in E as ([[m1 bv1] dg1] & E1 & E).
  cbn [fst snd] in Em. assert (clears v bv1) as (v1 & -> & W1 & B1 & C1).
  { destruct marked; [|injection E1 as _ <- _; by exists v].
    apply gbind_Ok in E1 as (data & _ & E1). by eapply preExecuteTx_clears. }
  destruct (IH (i + 1) m1 v1 dg1 W1 ltac:(lia) E) as (v2 & -> & W2 & B2 & C2).
  exists v2. split_and!; try done; [congruence|]. auto.
Qed.

(** What the vote for a block says of its [i]-th transaction. *)
Definition commits (vote : bytes) (i : nat) : Prop :=
  exists bv, BV.NewBitArrayFromByte vote = Ok bv /\ BV.GetIndex bv (Z.of_nat i) = Ok true.

Lemma vote_passed app blocks resp b block : PreExecutionI unmarshalError app blocks = Ok resp ->
  blocks !! b = Some (Some block) -> exists vote alldg dg v,
    riCommitStatusVote resp !! b = Some vote /\ passed alldg (crossTxs block) (length (crossTxs block)) v dg /\
    (forall i, commits vote i -> (i < length (crossTxs block))%nat /\ BV.bit v (Z.of_nat i) = true) /\
    forall a blockA j k, (a < b)%nat -> blocks !! a = Some (Some blockA) -> k ∈ keysAt (crossTxs blockA) j ->
      is_Some (alldg !! k).
Proof.
  unfold PreExecutionI. intros E Hb. apply gbind_Ok in E as (st & Ef & E). apply gbind_Ok in E as (votes & Ev & [= <-]).
  destruct (firstPass_spec _ _ _ _ Ef) as [Hlen Hst].
  assert (b < length blocks)%nat as Hlt by (by eapply lookup_lt_Some).
  destruct (Hst b Hlt) as (bl & v & dg & alldg & Eb & Es & P & _ & Hearlier). rewrite Hb in Eb. injection Eb as <-.
  apply go_mapM_Ok in Ev. assert (combine blocks st !! b = Some (Some block, BV.Byte (Some v))) as Ec.
  { apply lookup_zip_with_Some. by exists (Some block), (BV.Byte (Some v)). }
  destruct (Forall2_lookup_l _ _ _ _ _ Ev Ec) as (vote & Evote & Ep).
  exists vote, alldg, dg, v. split; [done|]. split; [done|]. split; [|done].
  intros i (bv & Ed & Eg). unfold preExecutionB in Ep. cbn [fst snd deref gbind] in Ep.
  rewrite (BV.decode_Byte v (ps_wf _ _ _ _ _ P)) in Ep. cbn [gbind] in Ep.
  apply gbind_Ok in Ep as ([[m' bv'] dg'] & Ep & [= <-]).
  destruct (preExecuteTxs_clears _ _ _ _ _ _ _ _ _ _ (ps_wf _ _ _ _ _ P) (Z.le_refl 0) Ep) as (v' & -> & W' & B' & C').
  rewrite (BV.decode_Byte v' W') in Ed. injection Ed as <-.
  destruct (GetIndex_bit v' (Z.of_nat i) true W' ltac:(lia) Eg eq_refl) as [Hi Hbit].
  split; [|by apply C'; [lia|]]. rewrite B', (ps_bits _ _ _ _ _ P) in Hi. lia.
Qed.

(** C22: a transaction that an I shard votes to commit shares no key with any
    transaction of an earlier block of the vote, committed or not. *)
Theorem PreExecutionI_isolates app blocks resp a b blockA blockB vote i j
  (E : PreExecutionI unmarshalError app blocks = Ok resp) (Hab : (a < b)%nat)
  (HA : blocks !! a = Some (Some blockA)) (HB : blocks !! b = Some (Some blockB))
  (Hv : riCommitStatusVote resp !! b = Some vote) (Hc : commits vote i) :
  keysAt (crossTxs blockB) i ## keysAt (crossTxs blockA) j.
Proof.
  destruct (vote_passed app blocks resp b blockB E HB) as (vote' & alldg & dg & v & Ev & P & Hbits & Hearlier).
  rewrite Hv in Ev. injection Ev as <-. destruct (Hbits i Hc) as [Hi Hbit].
  intros k Hki Hkj. destruct (Hearlier a blockA j k Hab HA Hkj) as [z Hz].
  by rewrite (ps_isolated _ _ _ _ _ P i k Hi Hbit Hki) in Hz.
Qed.

(** In the first pass of a vote, a transaction marked to commit shares no
    key with an aborted one before it in the block. *)
Theorem firstPass_closed alldg txs bv dg i j k
  (E : firstPassTxs alldg 0 txs (BV.NewBitVector (zlen txs)) NewDependencyGraph = Ok (bv, dg))
  (Hi : BV.GetIndex bv (Z.of_nat i) = Ok true) (Hij : (j < i)%nat)
  (Hki : k ∈ keysAt txs i) (Hkj : k ∈ keysAt txs j) : BV.GetIndex bv (Z.of_nat j) = Ok true.
Proof.
  destruct (firstPassTxs_spec _ _ _ _ E) as (v & -> & P).
  destruct (GetIndex_bit v (Z.of_nat i) true (ps_wf _ _ _ _ _ P) ltac:(lia) Hi eq_refl) as [Hlt Hbit].
  rewrite (ps_bits _ _ _ _ _ P) in Hlt. rewrite BV.GetIndex_spec by (apply P || lia).
  rewrite (ps_bits _ _ _ _ _ P). destruct (Z.ltb_spec (Z.of_nat j) (zlen txs)); [|lia].
  f_equal. apply (ps_closed _ _ _ _ _ P i j k); first [done|lia].
Qed.
End votes.

(** ** Concrete evaluations *)

Module VotesDemo2.
Import DemoHash Types.Demo StoreDemo BankTxDemo BankDemo.

(** Two blocks: the first transaction of the second shares an account with the
    first block, the second does not. *)
Definition block2 : Block.t :=
  Block.mk (Block.Header block) (Block.Body block)
    (CrossShardBody.mk [payBytes "alice" "dave" 5; payBytes "erin" "frank" 7] []) (Block.Relation block) [].
Definition datas (b : Block.t) : list bytes :=
  rcCrossShardDatas (valueOf noApp (PreExecutionC noText application b)).2.
Definition blockA : Block.t := withDatas (crossBlock []) (datas (crossBlock [])).
Definition blockB : Block.t := withDatas block2 (datas block2).
Definition blocks : list (option Block.t) := [Some blockA; Some blockB].
Definition resp : ABCIPreExecutionResponseI := valueOf (mkRespI 0 []) (PreExecutionI noText other blocks).
Definition voteB : bytes := default [] (riCommitStatusVote resp !! 1%nat).
Lemma resp_Ok : PreExecutionI noText other blocks = Ok resp.
Proof. unfold resp. apply valueOf_Ok. vm_compute. reflexivity. Qed.
Lemma voteB_given : riCommitStatusVote resp !! 1%nat = Some voteB.
Proof.
  unfold voteB. destruct (riCommitStatusVote resp !! 1%nat) eqn:E; [done|]. exfalso. revert E.
  assert (bool_decide (riCommitStatusVote resp !! 1%nat = None) = false) as E by (vm_compute; reflexivity).
  by apply bool_decide_eq_false in E.
Qed.
Definition committed (vote : bytes) (i : Z) : bool :=
  valueOf false (let! bv := BV.NewBitArrayFromByte vote in BV.GetIndex bv i).
(** It votes for the second transaction only. *)
Example voteB_bits : committed voteB 0 = false /\ committed voteB 1 = true.
Proof. split; vm_compute; reflexivity. Qed.
Lemma voteB_commits : commits voteB 1.
Proof.
  assert (committed voteB 1 = true) as E by (vm_compute; reflexivity). unfold committed in E. unfold commits.
  destruct (BV.NewBitArrayFromByte voteB) as [bv| |]; [|done..]. exists bv. split; [done|]. cbn [gbind] in E.
  change (Z.of_nat 1) with 1. by destruct (BV.GetIndex bv 1) as [[]| |].
Qed.

Lemma PreExecutionI_isolates_witness : keysAt (crossTxs blockB) 1 ## keysAt (crossTxs blockA) 0.
Proof.
  exact (PreExecutionI_isolates noText other blocks resp 0 1 blockA blockB voteB 1 0 resp_Ok
           (Nat.lt_0_succ 0) eq_refl eq_refl voteB_given voteB_commits).
Defined.

Definition txs : Txs.t := crossTxs (crossBlock []).
Definition passed1 : option BV.t * DependencyGraph.t := 
  valueOf (None, NewDependencyGraph)
    (firstPassTxs NewDependencyGraph 0 txs (BV.NewBitVector (zlen txs)) NewDependencyGraph).
Lemma passed1_Ok : firstPassTxs NewDependencyGraph 0 txs (BV.NewBitVector (zlen txs)) NewDependencyGraph = Ok (fst passed1, snd passed1).
Proof. apply Ok_pair. unfold passed1. apply valueOf_Ok. vm_compute. reflexivity. Qed.
Lemma bob_in i : (i < 2)%nat -> "bob" ∈ keysAt txs i.
Proof. intros Hi. assert (i = 0 \/ i = 1)%nat as [->| ->] by lia; apply (bool_decide_unpack _); vm_compute; exact I. Qed.
Lemma bit1 : BV.GetIndex (fst passed1) (Z.of_nat 1) = Ok true.
Proof. vm_compute. reflexivity. Qed.
Lemma firstPass_closed_witness : BV.GetIndex (fst passed1) (Z.of_nat 0) = Ok true.
Proof.
  exact (firstPass_closed NewDependencyGraph txs (fst passed1) (snd passed1) 1 0 "bob" passed1_Ok bit1
           (Nat.lt_0_succ 0) (bob_in 1 (Nat.lt_succ_diag_r 1)) (bob_in 0 (Nat.lt_0_succ 1))).
Defined.
End VotesDemo2.
