(* ===== verification/CList.v ===== *)
(** * The concurrent linked list of the mempool: [libs/clist/clist.go]

    Elements are allocated in a heap that is never freed: a pointer is the
    index of an element. A wait group of count one and the channel closed with
    it are one flag, [true] once waiters are released; releasing twice panics
    (a negative counter, a channel closed twice). Every method holds the lock
    while it runs, so an execution is a sequence of methods. *)

From S2P Require Import Prelude.
Local Open Scope Z_scope.

Module CList.
Section clist.
Context {V : Type}.

Notation ptr := nat (only parsing).
Record CElement := mkElem {
  prev : option ptr; prevDone : bool;
  next : option ptr; nextDone : bool;
  removed : bool;
  Value : V }.

Record t := mk {
  heap : list CElement;
  wgDone : bool;
  head : option ptr; tail : option ptr;
  len : Z; maxLen : Z }.

Definition MaxLength : Z := 2 ^ 63 - 1.

Definition setHeap (l : t) (h : list CElement) : t := mk h (wgDone l) (head l) (tail l) (len l) (maxLen l).

(** The list, empty again; what was allocated is left. *)
Definition Init (l : t) : t := mk (heap l) false None None 0 (maxLen l).
Definition newWithMax (maxLength : Z) : t := Init (mk [] false None None 0 maxLength).
Definition New : t := newWithMax MaxLength.

Definition Len (l : t) : Z := len l.
Definition Front (l : t) : option ptr := head l.
Definition Back (l : t) : option ptr := tail l.

Definition elem (l : t) (e : ptr) : go CElement := deref (heap l !! e).
Definition Next (l : t) (e : ptr) : go (option ptr) := let! c := elem l e in Ok (next c).
Definition Prev (l : t) (e : ptr) : go (option ptr) := let! c := elem l e in Ok (prev c).
Definition Removed (l : t) (e : ptr) : go bool := let! c := elem l e in Ok (removed c).

(** One turn of the loop of a blocking method: the result, or a wait, which
    returns at once when the flag is set. *)
Inductive turn (A : Type) := Return (a : A) | Wait (released : bool).
Arguments Return {A}. Arguments Wait {A}.
Definition NextWait (l : t) (e : ptr) : go (turn (option ptr)) :=
  let! c := elem l e in
  Ok (if bool_decide (is_Some (next c)) || removed c then Return (next c) else Wait (nextDone c)).
Definition PrevWait (l : t) (e : ptr) : go (turn (option ptr)) :=
  let! c := elem l e in
  Ok (if bool_decide (is_Some (prev c)) || removed c then Return (prev c) else Wait (prevDone c)).
Definition FrontWait (l : t) : turn ptr := match head l with Some e => Return e | None => Wait (wgDone l) end.
Definition BackWait (l : t) : turn ptr := match tail l with Some e => Return e | None => Wait (wgDone l) end.
(** Whether the channel a caller gets is closed. *)
Definition NextWaitChan (l : t) (e : ptr) : go bool := let! c := elem l e in Ok (nextDone c).
Definition PrevWaitChan (l : t) (e : ptr) : go bool := let! c := elem l e in Ok (prevDone c).
Definition WaitChan (l : t) : bool := wgDone l.

(** [Done] and [close]: once only. *)
Definition release (done : bool) : go bool := if done then Panic else Ok true.

Definition relink (old new : option ptr) (done : bool) : go bool :=
  match old, new with
  | Some _, None => Ok false
  | None, Some _ => release done
  | _, _ => Ok done
  end.

Definition SetNext (l : t) (e : ptr) (newNext : option ptr) : go t :=
  let! c := elem l e in
  let! d := relink (next c) newNext (nextDone c) in
  Ok (setHeap l (<[e := mkElem (prev c) (prevDone c) newNext d (removed c) (Value c)]> (heap l))).
Definition SetPrev (l : t) (e : ptr) (newPrev : option ptr) : go t :=
  let! c := elem l e in
  let! d := relink (prev c) newPrev (prevDone c) in
  Ok (setHeap l (<[e := mkElem newPrev d (next c) (nextDone c) (removed c) (Value c)]> (heap l))).

Definition SetRemoved (l : t) (e : ptr) : go t :=
  let! c := elem l e in
  let! pd := match prev c with None => release (prevDone c) | Some _ => Ok (prevDone c) end in
  let! nd := match next c with None => release (nextDone c) | Some _ => Ok (nextDone c) end in
  Ok (setHeap l (<[e := mkElem (prev c) pd (next c) nd true (Value c)]> (heap l))).

Definition DetachNext (l : t) (e : ptr) : go t :=
  let! c := elem l e in
  if negb (removed c) then Panic
  else Ok (setHeap l (<[e := mkElem (prev c) (prevDone c) None (nextDone c) (removed c) (Value c)]> (heap l))).
Definition DetachPrev (l : t) (e : ptr) : go t :=
  let! c := elem l e in
  if negb (removed c) then Panic
  else Ok (setHeap l (<[e := mkElem None (prevDone c) (next c) (nextDone c) (removed c) (Value c)]> (heap l))).

Definition PushBack (l : t) (v : V) : go (t * ptr) :=
  let e := length (heap l) in
  let l1 := setHeap l (heap l ++ [mkElem None false None false false v]) in
  let! wg := (if len l =? 0 then release (wgDone l) else Ok (wgDone l)) in
  if len l >=? maxLen l then Panic
  else
    let l2 := mk (heap l1) wg (head l) (tail l) (len l + 1) (maxLen l) in
    match tail l with
    | None => Ok (mk (heap l2) wg (Some e) (Some e) (len l2) (maxLen l), e)
    | Some last_ =>
        let! l3 := SetPrev l2 e (Some last_) in
        let! l4 := SetNext l3 last_ (Some e) in
        Ok (mk (heap l4) wg (head l4) (Some e) (len l4) (maxLen l4), e)
    end.

Definition Remove (l : t) (e : ptr) : go (t * V) :=
  let! c := elem l e in
  let prev := prev c in let next := next c in
  if bool_decide (head l = None) || bool_decide (tail l = None) then Panic
  else if bool_decide (prev = None) && negb (bool_decide (head l = Some e)) then Panic
  else if bool_decide (next = None) && negb (bool_decide (tail l = Some e)) then Panic
  else
    let l := mk (heap l) (if len l =? 1 then false else wgDone l) (head l) (tail l) (len l - 1) (maxLen l) in
    let! l := match prev with
              | None => Ok (mk (heap l) (wgDone l) next (tail l) (len l) (maxLen l))
              | Some p => SetNext l p next
              end in
    let! l := match next with
              | None => Ok (mk (heap l) (wgDone l) (head l) prev (len l) (maxLen l))
              | Some n => SetPrev l n prev
              end in
    let! l := SetRemoved l e in
    Ok (l, Value c).

(** ** The sequence a list stands for *)

(** The neighbours of the [i]-th element of a sequence of pointers. *)
Definition before (s : list ptr) (i : nat) : option ptr := match i with O => None | S i => s !! i end.
Definition after (s : list ptr) (i : nat) : option ptr := s !! S i.

(** The flags of an element: waiters are released when there is a neighbour to
    give them. *)
Definition linked (s : list ptr) (i : nat) (c : CElement) : Prop :=
  prev c = before s i /\ next c = after s i /\ removed c = false /\
  prevDone c = bool_decide (is_Some (before s i)) /\ nextDone c = bool_decide (is_Some (after s i)).

(** A removed element has released all its waiters. *)
Definition gone (c : CElement) : Prop := removed c = true /\ prevDone c = true /\ nextDone c = true.

Record repr (l : t) (s : list ptr) : Prop := {
  rp_nodup : NoDup s;
  rp_head : head l = s !! 0%nat;
  rp_tail : tail l = last s;
  rp_len : len l = zlen s;
  rp_wg : wgDone l = bool_decide (s <> []);
  rp_in i e : s !! i = Some e -> exists c, heap l !! e = Some c /\ linked s i c;
  rp_out e c : heap l !! e = Some c -> e ∉ s -> gone c
}.

(** The values of the sequence. *)
Definition valueAt (l : t) (e : ptr) : option V := Value <$> heap l !! e.

(** ** What the setters do *)

Lemma heap_insert (h : list CElement) (e : ptr) c' x : is_Some (h !! e) ->
  <[e := c']> h !! x = if decide (x = e) then Some c' else h !! x.
Proof.
  intros [c Hc]. destruct (decide (x = e)) as [->|Hne].
  - apply list_lookup_insert_eq. by eapply lookup_lt_Some.
  - by apply list_lookup_insert_ne.
Qed.

(** A list that differs in one element only. *)
Record updated (l l' : t) (e : ptr) (c' : CElement) : Prop := {
  up_heap x : heap l' !! x = if decide (x = e) then Some c' else heap l !! x;
  up_size : length (heap l') = length (heap l);
  up_wg : wgDone l' = wgDone l;
  up_head : head l' = head l;
  up_tail : tail l' = tail l;
  up_len : len l' = len l;
  up_max : maxLen l' = maxLen l
}.

Lemma updated_setHeap l e c c' : heap l !! e = Some c -> updated l (setHeap l (<[e := c']> (heap l))) e c'.
Proof.
  intros Hc. split; try done.
  - intros x. apply heap_insert. by exists c.
  - apply length_insert.
Qed.

Lemma SetNext_updated l e c new d : heap l !! e = Some c -> relink (next c) new (nextDone c) = Ok d ->
  exists l', SetNext l e new = Ok l' /\
    updated l l' e (mkElem (prev c) (prevDone c) new d (removed c) (Value c)).
Proof.
  intros Hc Hd. unfold SetNext, elem. rewrite Hc. cbn [deref gbind]. rewrite Hd. cbn [gbind].
  eexists. split; [reflexivity|]. by eapply updated_setHeap.
Qed.

Lemma SetPrev_updated l e c new d : heap l !! e = Some c -> relink (prev c) new (prevDone c) = Ok d ->
  exists l', SetPrev l e new = Ok l' /\
    updated l l' e (mkElem new d (next c) (nextDone c) (removed c) (Value c)).
Proof.
  intros Hc Hd. unfold SetPrev, elem. rewrite Hc. cbn [deref gbind]. rewrite Hd. cbn [gbind].
  eexists. split; [reflexivity|]. by eapply updated_setHeap.
Qed.

Lemma SetRemoved_updated l e c : heap l !! e = Some c ->
  prevDone c = bool_decide (is_Some (prev c)) -> nextDone c = bool_decide (is_Some (next c)) ->
  exists l' c', SetRemoved l e = Ok l' /\ updated l l' e c' /\ gone c' /\ Value c' = Value c.
Proof.
  intros Hc Hp Hn. unfold SetRemoved, elem. rewrite Hc. cbn [deref gbind].
  assert (match prev c with None => release (prevDone c) | Some _ => Ok (prevDone c) end = Ok true) as ->
    by (rewrite Hp; by destruct (prev c)).
  assert (match next c with None => release (nextDone c) | Some _ => Ok (nextDone c) end = Ok true) as ->
    by (rewrite Hn; by destruct (next c)).
  cbn [gbind]. eexists _, _. split; [reflexivity|]. split; [by eapply updated_setHeap|]. by repeat split.
Qed.

(** ** Adding at the end *)

Lemma before_app s s' i : (i <= length s)%nat -> before (s ++ s') i = before s i.
Proof. destruct i; cbn; [done|]. intros ?. apply lookup_app_l. lia. Qed.
Lemma after_app s s' i : (S i < length s)%nat -> after (s ++ s') i = after s i.
Proof. unfold after. intros ?. by apply lookup_app_l. Qed.

Lemma linked_app s s' i c : linked s i c -> (S i < length s)%nat -> linked (s ++ s') i c.
Proof. unfold linked. intros H Hi. by rewrite before_app, after_app by lia. Qed.

Lemma rp_bound l s e : repr l s -> e ∈ s -> (e < length (heap l))%nat.
Proof.
  intros R [i Hi]%list_elem_of_lookup. destruct (rp_in _ _ R i e Hi) as (c & Hc & _). by eapply lookup_lt_Some.
Qed.

(** A fresh element linked after the last one. *)
Definition newElem (v : V) : CElement := mkElem None false None false false v.

Lemma fresh_not_in l s : repr l s -> length (heap l) ∉ s.
Proof. intros R Hin%(rp_bound _ _ _ R). lia. Qed.

Lemma PushBack_empty l v : repr l [] -> 0 < maxLen l ->
  exists l', PushBack l v = Ok (l', length (heap l)) /\ repr l' [length (heap l)] /\
    maxLen l' = maxLen l /\ heap l' = heap l ++ [newElem v].
Proof.
  intros [_ Hh Ht Hl Hw _ Ho] Hm. unfold PushBack. rewrite Hl, Hw, Ht. cbn [last length].
  destruct (Z.geb_spec (Z.of_nat 0) (maxLen l)); [lia|]. cbn.
  eexists. split; [reflexivity|]. split; [|done]. split; cbn; try done.
  - apply NoDup_singleton.
  - intros [|i] e [= <-]. exists (newElem v). split; [|by repeat split].
    rewrite lookup_app_r, Nat.sub_diag by lia. done.
  - intros e c He Hn. rewrite list_elem_of_singleton in Hn.
    destruct (decide (e < length (heap l))%nat).
    + rewrite lookup_app_l in He by done. apply (Ho e c He). by apply not_elem_of_nil.
    + apply lookup_lt_Some in He. rewrite length_app in He. cbn in He. lia.
Qed.

Lemma PushBack_nonempty l s x v : repr l (s ++ [x]) -> zlen (s ++ [x]) < maxLen l ->
  exists l', PushBack l v = Ok (l', length (heap l)) /\ repr l' ((s ++ [x]) ++ [length (heap l)]) /\
    maxLen l' = maxLen l /\ length (heap l') = S (length (heap l)) /\
    forall y, valueAt l' y = if decide (y = length (heap l)) then Some v else valueAt l y.
Proof.
  intros R Hm. pose proof (fresh_not_in _ _ R) as Hf. destruct R as [Hnd Hh Ht Hl Hw Hi Ho].
  set (e := length (heap l)) in *. unfold PushBack. rewrite Hl, Ht, last_snoc. fold e.
  destruct (Z.eqb_spec (zlen (s ++ [x])) 0) as [E0|_]; [rewrite length_app in E0; cbn in E0; lia|]. cbn [gbind].
  destruct (Z.geb_spec (zlen (s ++ [x])) (maxLen l)); [lia|].
  destruct (Hi (length s) x) as (c & Hc & L1 & L2 & L3 & L4 & L5); [by rewrite list_lookup_middle|].
  assert (after (s ++ [x]) (length s) = None) as Ha by (apply lookup_ge_None; rewrite length_app; cbn; lia).
  rewrite Ha in L2, L5. cbn in L5.
  set (l2 := mk _ _ _ _ _ _).
  assert (forall y, heap l2 !! y = if decide (y = e) then Some (newElem v) else heap l !! y) as H2.
  { intros y. unfold l2. cbn. destruct (decide (y = e)) as [->|Hne].
    - unfold e. by rewrite lookup_app_r, Nat.sub_diag by lia.
    - destruct (decide (y < e)%nat); [by rewrite lookup_app_l by done|].
      rewrite !lookup_ge_None_2; [done| |]; rewrite ?length_app; cbn; unfold e in *; lia. }
  assert (x <> e) as Hxe by (intros ->; apply Hf; set_solver).
  destruct (SetPrev_updated l2 e (newElem v) (Some x) true) as (l3 & -> & U3); [by rewrite H2, decide_True|done|].
  cbn [gbind].
  destruct (SetNext_updated l3 x c (Some e) true) as (l4 & -> & U4).
  { rewrite (up_heap _ _ _ _ U3), H2. by rewrite !decide_False. }
  { by rewrite L2, L5. }
  cbn [gbind]. eexists. split; [reflexivity|].
  assert (forall y, heap l4 !! y =
    if decide (y = x) then Some (mkElem (prev c) (prevDone c) (Some e) true (removed c) (Value c))
    else if decide (y = e) then Some (mkElem (Some x) true None false false v) else heap l !! y) as H4.
  { intros y. rewrite (up_heap _ _ _ _ U4), (up_heap _ _ _ _ U3), H2. unfold newElem. cbn.
    destruct (decide (y = x)) as [->|]; [done|]. by destruct (decide (y = e)). }
  assert (length (heap l4) = S e) as Hlen.
  { rewrite (up_size _ _ _ _ U4), (up_size _ _ _ _ U3). unfold l2. cbn. rewrite length_app. cbn. unfold e. lia. }
  split; [|split; [by rewrite (up_max _ _ _ _ U4), (up_max _ _ _ _ U3)|split; [exact Hlen|]]].
  2:{ intros y. unfold valueAt. cbn. rewrite H4. repeat case_decide; try done; subst; try done. by rewrite Hc. }
  split; cbn.
  - apply NoDup_app. split; [done|]. split; [|apply NoDup_singleton]. intros y Hy ->%list_elem_of_singleton. done.
  - rewrite (up_head _ _ _ _ U4), (up_head _ _ _ _ U3). cbn. rewrite Hh. by destruct s.
  - by rewrite last_snoc.
  - rewrite (up_len _ _ _ _ U4), (up_len _ _ _ _ U3). cbn. rewrite !length_app. cbn. lia.
  - rewrite Hw, !bool_decide_true; [done|by destruct s..].
  - intros i y Hy. rewrite H4. destruct (decide (i = length (s ++ [x]))) as [->|Hn1].
    { rewrite list_lookup_middle in Hy by done. injection Hy as <-. rewrite decide_False, decide_True by done.
      eexists. split; [reflexivity|]. unfold linked. cbn.
      assert (before ((s ++ [x]) ++ [e]) (length (s ++ [x])) = Some x) as ->.
      { rewrite length_app. cbn. rewrite Nat.add_1_r. cbn. rewrite <- app_assoc. cbn [app]. by rewrite list_lookup_middle. }
      assert (after ((s ++ [x]) ++ [e]) (length (s ++ [x])) = None) as ->
        by (apply lookup_ge_None; rewrite !length_app; cbn; lia).
      by repeat split. }
    assert (i < length (s ++ [x]))%nat as Hi'.
    { apply lookup_lt_Some in Hy. rewrite !length_app in *. cbn in *. lia. }
    rewrite lookup_app_l in Hy by done. destruct (decide (i = length s)) as [->|Hn2].
    + rewrite list_lookup_middle in Hy by done. injection Hy as <-. rewrite decide_True by done.
      eexists. split; [reflexivity|]. unfold linked. cbn. rewrite before_app by lia.
      assert (after ((s ++ [x]) ++ [e]) (length s) = Some e) as ->.
      { unfold after. rewrite lookup_app_r, length_app by (rewrite length_app; cbn; lia). cbn.
        by replace (S (length s) - (length s + 1))%nat with 0%nat by lia. }
      by repeat split.
    + assert (y <> x) as Hyx.
      { intros ->. apply Hn2. eapply NoDup_lookup; [exact Hnd|exact Hy|]. by rewrite list_lookup_middle. }
      assert (y <> e) by (intros ->; apply Hf; by eapply list_elem_of_lookup_2).
      rewrite !decide_False by done. destruct (Hi i y Hy) as (c' & Hc' & Lc). exists c'. split; [done|].
      apply linked_app; [done|]. rewrite length_app in *. cbn in *. lia.
  - intros y c' Hy Hn. rewrite H4 in Hy. apply not_elem_of_app in Hn as [Hn1 Hn2].
    rewrite decide_False in Hy by set_solver. rewrite decide_False in Hy by set_solver. by apply (Ho y c').
Qed.

Lemma PushBack_repr l s v : repr l s -> zlen s < maxLen l ->
  exists l', PushBack l v = Ok (l', length (heap l)) /\ repr l' (s ++ [length (heap l)]) /\
    maxLen l' = maxLen l /\ length (heap l') = S (length (heap l)) /\
    forall x, valueAt l' x = if decide (x = length (heap l)) then Some v else valueAt l x.
Proof.
  destruct s as [|x s _] using rev_ind; [|apply PushBack_nonempty].
  intros R Hm. destruct (PushBack_empty l v R Hm) as (l' & E & R' & M & Hh). exists l'.
  split; [done|]. split; [done|]. split; [done|]. unfold valueAt. rewrite Hh, length_app. cbn. split; [lia|].
  intros x. destruct (decide (x = length (heap l))) as [->|Hne].
  - by rewrite lookup_app_r, Nat.sub_diag by lia.
  - destruct (decide (x < length (heap l))%nat); [by rewrite lookup_app_l by done|].
    rewrite !lookup_ge_None_2; [done|lia|]. rewrite length_app. cbn. lia.
Qed.

(** ** Removing an element *)

(** The two neighbours of an element. *)
Lemma before_middle s1 (e : ptr) s2 : before (s1 ++ e :: s2) (length s1) = last s1.
Proof.
  destruct s1 as [|x s1 _] using rev_ind; [done|]. rewrite last_snoc, length_app. cbn.
  rewrite Nat.add_1_r. cbn. rewrite <- app_assoc. cbn [app]. by rewrite list_lookup_middle.
Qed.
Lemma after_middle s1 (e : ptr) s2 : after (s1 ++ e :: s2) (length s1) = s2 !! 0%nat.
Proof.
  unfold after. rewrite lookup_app_r by lia. by replace (S (length s1) - length s1)%nat with 1%nat by lia.
Qed.

Lemma last_tail s1 (e : ptr) s2 : s2 <> [] -> last (s1 ++ e :: s2) = last (s1 ++ s2).
Proof. destruct s2 as [|y s2 _] using rev_ind; [done|]. rewrite app_comm_cons, !app_assoc, !last_snoc. done. Qed.

(** The neighbours in the shorter sequence. *)
Lemma removed_neighbours s1 (e : ptr) s2 i : (i < length (s1 ++ s2))%nat ->
  let j := if decide (i < length s1)%nat then i else S i in
  (s1 ++ s2) !! i = (s1 ++ e :: s2) !! j /\
  before (s1 ++ s2) i = (if decide (i = length s1) then last s1 else before (s1 ++ e :: s2) j) /\
  after (s1 ++ s2) i = (if decide (S i = length s1) then s2 !! 0%nat else after (s1 ++ e :: s2) j).
Proof.
  intros Hi j. unfold j. destruct (decide (i < length s1)%nat) as [Hlt|Hge].
  - rewrite !lookup_app_l by done. split; [done|]. rewrite decide_False by lia.
    split; [by rewrite !before_app by lia|]. case_decide as E.
    + unfold after. rewrite lookup_app_r by lia. by replace (S i - length s1)%nat with 0%nat by lia.
    + by rewrite !after_app by lia.
  - rewrite (decide_False (P := S i = length s1)) by lia. unfold after.
    rewrite !lookup_app_r by lia. replace (S i - length s1)%nat with (S (i - length s1)) by lia.
    replace (S (S i) - length s1)%nat with (S (S (i - length s1))) by lia. cbn [lookup list_lookup].
    split; [done|]. split; [|done]. case_decide as E.
    + subst i. destruct s1 as [|x s1 _] using rev_ind; [done|]. rewrite last_snoc, length_app. cbn.
      rewrite Nat.add_1_r. cbn. rewrite <- app_assoc. cbn [app]. by rewrite list_lookup_middle.
    + destruct i as [|i]; [lia|]. cbn. rewrite !lookup_app_r by lia.
      replace (S i - length s1)%nat with (S (i - length s1)) by lia. done.
Qed.

Definition withNext (c : CElement) (new : option ptr) : CElement :=
  mkElem (prev c) (prevDone c) new (bool_decide (is_Some new)) (removed c) (Value c).
Definition withPrev (c : CElement) (new : option ptr) : CElement :=
  mkElem new (bool_decide (is_Some new)) (next c) (nextDone c) (removed c) (Value c).

(** One side is relinked: the neighbour's link, or the end of the list. *)
Lemma relink_prev l p new c : heap l !! p = Some c -> is_Some (next c) -> nextDone c = true ->
  exists l', SetNext l p new = Ok l' /\ updated l l' p (withNext c new).
Proof.
  intros Hc [x Hx] Hd. destruct (SetNext_updated l p c new (bool_decide (is_Some new)) Hc) as (l' & E & U).
  - rewrite Hx, Hd. by destruct new.
  - by exists l'.
Qed.
Lemma relink_next l n new c : heap l !! n = Some c -> is_Some (prev c) -> prevDone c = true ->
  exists l', SetPrev l n new = Ok l' /\ updated l l' n (withPrev c new).
Proof.
  intros Hc [x Hx] Hd. destruct (SetPrev_updated l n c new (bool_decide (is_Some new)) Hc) as (l' & E & U).
  - rewrite Hx, Hd. by destruct new.
  - by exists l'.
Qed.

(** The elements around a removed one. *)
Lemma linked_before l s1 e s2 p : repr l (s1 ++ e :: s2) -> last s1 = Some p ->
  exists c, heap l !! p = Some c /\ linked (s1 ++ e :: s2) (length s1 - 1) c /\ next c = Some e /\ nextDone c = true.
Proof.
  intros R Hp. destruct s1 as [|x s1 _] using rev_ind; [done|]. rewrite last_snoc in Hp. injection Hp as ->.
  destruct (rp_in _ _ R (length s1) p) as (c & Hc & L); [by rewrite <- app_assoc; cbn [app]; rewrite list_lookup_middle|].
  rewrite length_app. cbn. replace (length s1 + 1 - 1)%nat with (length s1) by lia. exists c. split; [done|]. split; [done|].
  assert (after ((s1 ++ [p]) ++ e :: s2) (length s1) = Some e) as Ha.
  { unfold after. rewrite lookup_app_r, length_app by (rewrite length_app; cbn; lia). cbn.
    by replace (S (length s1) - (length s1 + 1))%nat with 0%nat by lia. }
  destruct L as (_ & L2 & _ & _ & L5). rewrite L2, L5, Ha. done.
Qed.
Lemma linked_after l s1 e s2 n : repr l (s1 ++ e :: s2) -> s2 !! 0%nat = Some n ->
  exists c, heap l !! n = Some c /\ linked (s1 ++ e :: s2) (S (length s1)) c /\ prev c = Some e /\ prevDone c = true.
Proof.
  intros R Hn. destruct s2 as [|y s2]; [done|]. cbn in Hn. injection Hn as ->.
  destruct (rp_in _ _ R (S (length s1)) n) as (c & Hc & L).
  { rewrite lookup_app_r by lia. by replace (S (length s1) - length s1)%nat with 1%nat by lia. }
  exists c. split; [done|]. split; [done|].
  assert (before (s1 ++ e :: n :: s2) (S (length s1)) = Some e) as Hb by (cbn; by rewrite list_lookup_middle).
  destruct L as (L1 & _ & _ & L4 & _). rewrite L1, L4, Hb. done.
Qed.

Definition unlinked (s1 s2 : list ptr) (y : ptr) (c : CElement) : CElement :=
  if bool_decide (Some y = last s1) then withNext c (s2 !! 0%nat)
  else if bool_decide (Some y = s2 !! 0%nat) then withPrev c (last s1)
  else c.

(** The first two writes, whether there is a neighbour or not. *)
Lemma step_prev l s1 (e : ptr) s2 l0 : repr l (s1 ++ e :: s2) -> heap l0 = heap l ->
  exists l1,
    match last s1 with
    | None => Ok (mk (heap l0) (wgDone l0) (s2 !! 0%nat) (tail l0) (len l0) (maxLen l0))
    | Some p => SetNext l0 p (s2 !! 0%nat)
    end = Ok l1 /\
    (forall y, heap l1 !! y =
      (fun c => if bool_decide (Some y = last s1) then withNext c (s2 !! 0%nat) else c) <$> heap l !! y) /\
    length (heap l1) = length (heap l) /\ wgDone l1 = wgDone l0 /\ tail l1 = tail l0 /\ len l1 = len l0 /\
    maxLen l1 = maxLen l0 /\ head l1 = match last s1 with None => s2 !! 0%nat | Some _ => head l0 end.
Proof.
  intros R E0. destruct (last s1) as [p|] eqn:Ep.
  - destruct (linked_before _ _ _ _ _ R Ep) as (c & Hc & _ & Hn & Hd).
    destruct (relink_prev l0 p (s2 !! 0%nat) c) as (l1 & -> & [U1 U2 U3 U4 U5 U6 U7]); [by rewrite E0|by rewrite Hn|done|].
    exists l1. rewrite U2, E0. split_and!; try done. intros y. rewrite U1, E0. destruct (decide (y = p)) as [->|Hne].
    + by rewrite Hc, bool_decide_true.
    + rewrite bool_decide_false by congruence. by destruct (heap l !! y).
  - eexists. split; [reflexivity|]. cbn. rewrite E0. split_and!; try done.
    intros y. by destruct (heap l !! y).
Qed.

Lemma step_next l s1 (e : ptr) s2 l1 : repr l (s1 ++ e :: s2) ->
  (forall y, heap l1 !! y =
    (fun c => if bool_decide (Some y = last s1) then withNext c (s2 !! 0%nat) else c) <$> heap l !! y) ->
  exists l2,
    match s2 !! 0%nat with
    | None => Ok (mk (heap l1) (wgDone l1) (head l1) (last s1) (len l1) (maxLen l1))
    | Some n => SetPrev l1 n (last s1)
    end = Ok l2 /\
    (forall y, heap l2 !! y = unlinked s1 s2 y <$> heap l !! y) /\
    length (heap l2) = length (heap l1) /\ wgDone l2 = wgDone l1 /\ head l2 = head l1 /\ len l2 = len l1 /\
    maxLen l2 = maxLen l1 /\ tail l2 = match s2 !! 0%nat with None => last s1 | Some _ => tail l1 end.
Proof.
  intros R H1. unfold unlinked. destruct (s2 !! 0%nat) as [n|] eqn:En.
  - destruct (linked_after _ _ _ _ _ R En) as (c & Hc & _ & Hp & Hd).
    assert (Some n <> last s1) as Hne.
    { intros E. pose proof (rp_nodup _ _ R) as Hnd. apply NoDup_app in Hnd as (_ & Hdis & _).
      apply (Hdis n); [rewrite last_lookup in E; by eapply list_elem_of_lookup_2|].
      constructor. by eapply list_elem_of_lookup_2. }
    destruct (relink_next l1 n (last s1) c) as (l2 & -> & [U1 U2 U3 U4 U5 U6 U7]);
      [by rewrite H1, Hc, bool_decide_false by done|by rewrite Hp|done|].
    exists l2. rewrite U2. split_and!; try done. intros y. rewrite U1, H1. destruct (decide (y = n)) as [->|Hy].
    + rewrite Hc. cbn. by rewrite (bool_decide_false (Some n = last s1)), (bool_decide_true (Some n = Some n)).
    + rewrite (bool_decide_false (Some y = Some n)) by congruence. done.
  - eexists. split; [reflexivity|]. cbn. split_and!; try done.
Qed.

(** The three writes of [Remove]. *)
Lemma Remove_heap l s1 e s2 : repr l (s1 ++ e :: s2) ->
  exists l' c c', Remove l e = Ok (l', Value c) /\ heap l !! e = Some c /\ gone c' /\ Value c' = Value c /\
    (forall y, heap l' !! y = if decide (y = e) then Some c' else unlinked s1 s2 y <$> heap l !! y) /\
    length (heap l') = length (heap l) /\ maxLen l' = maxLen l /\ len l' = zlen (s1 ++ s2) /\
    wgDone l' = bool_decide (s1 ++ s2 <> []) /\
    head l' = (s1 ++ s2) !! 0%nat /\ tail l' = last (s1 ++ s2).
Proof.
  intros R. pose proof R as [Hnd Hh Ht Hl Hw Hi Ho].
  destruct (Hi (length s1) e) as (c & Hc & L1 & L2 & L3 & L4 & L5); [by rewrite list_lookup_middle|].
  rewrite before_middle in L1, L4. rewrite after_middle in L2, L5.
  apply NoDup_app in Hnd as (Hnd1 & Hdis & Hnd2). apply NoDup_cons in Hnd2 as [He2 Hnd2].
  assert (e ∉ s1) as He1 by (intros Hin; apply (Hdis e Hin); constructor).
  assert (Some e <> last s1) as Hne1 by (intros E; apply He1; eapply list_elem_of_lookup_2; by rewrite <- last_lookup).
  assert (Some e <> s2 !! 0%nat) as Hne2 by (intros E; apply He2; by eapply list_elem_of_lookup_2).
  unfold Remove, elem. rewrite Hc. cbn [deref gbind]. rewrite Hh, Ht, L1, L2.
  rewrite (bool_decide_false (_ = None)) by by destruct s1.
  rewrite (bool_decide_false (last _ = None)) by (rewrite last_None; by destruct s1). cbn [orb].
  assert (bool_decide (last s1 = None) && negb (bool_decide ((s1 ++ e :: s2) !! 0%nat = Some e)) = false) as ->.
  { destruct (bool_decide (last s1 = None)) eqn:E1; [|done]. apply bool_decide_eq_true, last_None in E1 as ->.
    by rewrite bool_decide_true. }
  assert (bool_decide (s2 !! 0%nat = None) && negb (bool_decide (last (s1 ++ e :: s2) = Some e)) = false) as ->.
  { destruct (bool_decide (s2 !! 0%nat = None)) eqn:E1; [|done]. apply bool_decide_eq_true in E1.
    destruct s2; [|done]. by rewrite last_snoc, bool_decide_true. }
  set (l0 := mk _ _ _ _ _ _).
  destruct (step_prev l s1 e s2 l0 R eq_refl) as (l1 & -> & A1 & A2 & A3 & A4 & A5 & A6 & A7). cbn [gbind].
  destruct (step_next l s1 e s2 l1 R A1) as (l2 & -> & B1 & B2 & B3 & B4 & B5 & B6 & B7). cbn [gbind].
  assert (unlinked s1 s2 e c = c) as Hec by (unfold unlinked; by rewrite !bool_decide_false).
  destruct (SetRemoved_updated l2 e c) as (l3 & c' & -> & U & G & V').
  { by rewrite B1, Hc; cbn; rewrite Hec. } { by rewrite L4, L1. } { by rewrite L5, L2. }
  cbn [gbind]. exists l3, c, c'. split; [done|]. split; [done|]. split; [done|]. split; [done|].
  split; [intros y; by rewrite (up_heap _ _ _ _ U), B1|].
  rewrite (up_size _ _ _ _ U), (up_max _ _ _ _ U), (up_len _ _ _ _ U), (up_wg _ _ _ _ U), (up_head _ _ _ _ U),
    (up_tail _ _ _ _ U), B2, A2, B6, A6, B5, A5, B3, A3, B4, A7, B7, A4.
  unfold l0. cbn [len wgDone head tail maxLen heap]. rewrite Hl, Hw, !length_app. cbn [length].
  split_and!; try done; [lia|..].
  - rewrite (bool_decide_true (s1 ++ e :: s2 <> [])) by by destruct s1.
    destruct (Z.eqb_spec (Z.of_nat (length s1 + S (length s2))) 1).
    + assert (s1 = [] /\ s2 = []) as [-> ->] by (destruct s1, s2; cbn in *; done || lia). done.
    + rewrite bool_decide_true; [done|]. destruct s1, s2; cbn in *; done || lia.
  - destruct s1 as [|x s1 _] using rev_ind; [done|]. rewrite last_snoc. by destruct s1.
  - destruct s2 as [|y s2]; cbn; [by rewrite app_nil_r|]. by apply last_tail.
Qed.

Lemma ends_at s1 s2 i (y : ptr) : NoDup (s1 ++ s2) -> (s1 ++ s2) !! i = Some y ->
  (Some y = last s1 <-> S i = length s1) /\ (Some y = s2 !! 0%nat <-> i = length s1).
Proof.
  intros Hnd Hy. split; split.
  - intros E. destruct s1 as [|x s1 _] using rev_ind; [done|]. rewrite last_snoc in E. injection E as ->.
    assert (i = length s1) as ->; [|rewrite length_app; cbn; lia].
    eapply NoDup_lookup; [exact Hnd|exact Hy|]. rewrite <- app_assoc. cbn [app]. by rewrite list_lookup_middle.
  - intros E. rewrite last_lookup, <- E. cbn. rewrite lookup_app_l in Hy by lia. done.
  - intros E. eapply NoDup_lookup; [exact Hnd|exact Hy|]. rewrite lookup_app_r, Nat.sub_diag by lia. done.
  - intros ->. by rewrite lookup_app_r, Nat.sub_diag in Hy by lia.
Qed.

Lemma Remove_repr l s1 e s2 : repr l (s1 ++ e :: s2) ->
  exists l' v, Remove l e = Ok (l', v) /\ valueAt l e = Some v /\ repr l' (s1 ++ s2) /\ maxLen l' = maxLen l /\
    length (heap l') = length (heap l) /\ forall x, valueAt l' x = valueAt l x.
Proof.
  intros R. destruct (Remove_heap l s1 e s2 R) as (l' & c & c' & E & Hc & G & Hv & Hh & Hs & Hm & Hl & Hw & Hhd & Htl).
  exists l', (Value c). split; [done|]. split; [unfold valueAt; by rewrite Hc|].
  destruct R as [Hnd _ _ _ _ Hi Ho].
  assert (e ∉ s1 ++ s2 /\ NoDup (s1 ++ s2)) as [Hne Hnd'].
  { rewrite <- Permutation_middle in Hnd. by apply NoDup_cons in Hnd. }
  split; [|split; [done|split; [done|]]].
  2:{ intros x. unfold valueAt. rewrite Hh. destruct (decide (x = e)) as [->|]; [cbn; by rewrite Hc, Hv|].
      destruct (heap l !! x); cbn; [|done]. unfold unlinked. by repeat case_match. }
  split; try done.
  - intros i y Hy. assert (i < length (s1 ++ s2))%nat as Hlt by (by eapply lookup_lt_Some).
    destruct (removed_neighbours s1 e s2 i Hlt) as (N1 & N2 & N3). rewrite N1 in Hy.
    destruct (Hi _ y Hy) as (cy & Hcy & Lcy). rewrite Hh, decide_False, Hcy.
    2:{ intros ->. apply Hne. rewrite <- N1 in Hy. by eapply list_elem_of_lookup_2. }
    eexists. split; [reflexivity|]. unfold linked. rewrite N2, N3. rewrite <- N1 in Hy.
    destruct Lcy as (M1 & M2 & M3 & M4 & M5). unfold unlinked.
    pose proof (ends_at s1 s2 i y Hnd' Hy) as [P1 P2].
    rewrite (bool_decide_ext _ _ P1), (bool_decide_ext _ _ P2).
    destruct (decide (S i = length s1)) as [E1|E1].
    { rewrite (bool_decide_true (S i = length s1)) by done. rewrite decide_False by lia. cbn. by rewrite M1, M3, M4. }
    rewrite (bool_decide_false (S i = length s1)) by done. destruct (decide (i = length s1)) as [E2|E2].
    { rewrite (bool_decide_true (i = length s1)) by done. cbn. by rewrite M2, M3, M5. }
    rewrite (bool_decide_false (i = length s1)) by done. by rewrite M1, M2, M3, M4, M5.
  - intros y cy Hy Hn. rewrite Hh in Hy. destruct (decide (y = e)) as [->|Hye]; [by injection Hy as <-|].
    destruct (heap l !! y) as [c0|] eqn:E0; [|done]. injection Hy as <-.
    assert (y ∉ s1 ++ e :: s2) as Hn' by set_solver. pose proof (Ho y c0 E0 Hn') as Hg.
    unfold unlinked. rewrite !bool_decide_false; [done|..].
    + intros Ey. apply Hn, elem_of_app. right. by eapply list_elem_of_lookup_2.
    + intros Ey. apply Hn, elem_of_app. left. rewrite last_lookup in Ey. by eapply list_elem_of_lookup_2.
Qed.

(** ** Executions *)

Lemma New_repr max : repr (newWithMax max) [].
Proof. split; try done; try (by intros ? ? ?). apply NoDup_nil_2. Qed.

Inductive op := OpPush (v : V) | OpRemove (e : ptr).
Definition exec1 (l : t) (o : op) : go t :=
  match o with
  | OpPush v => let! '(l, _) := PushBack l v in Ok l
  | OpRemove e => let! '(l, _) := Remove l e in Ok l
  end.
Definition exec (l : t) (ops : list op) : go t := go_foldl exec1 l ops.

(** The sequence the operations stand for, with the number of pushes so far:
    elements are numbered, and only an element of the sequence is removed. *)
Definition spec1 (s : list (ptr * V) * nat) (o : op) : option (list (ptr * V) * nat) :=
  let '(s, n) := s in
  match o with
  | OpPush v => Some (s ++ [(n, v)], S n)
  | OpRemove e => if bool_decide (e ∈ s.*1) then Some (List.filter (fun x => negb (bool_decide (x.1 = e))) s, n) else None
  end.
Fixpoint spec (s : list (ptr * V) * nat) (ops : list op) : option (list (ptr * V) * nat) :=
  match ops with [] => Some s | o :: ops => s' ← spec1 s o; spec s' ops end.

(** The list stands for the sequence of elements with their values. *)
Record stands (l : t) (s : list (ptr * V) * nat) : Prop := {
  sd_repr : repr l s.1.*1;
  sd_next : length (heap l) = s.2;
  sd_values e v : (e, v) ∈ s.1 -> valueAt l e = Some v
}.

Lemma filter_middle (s1 : list (ptr * V)) e v s2 : NoDup (s1 ++ (e, v) :: s2).*1 ->
  List.filter (fun x => negb (bool_decide (x.1 = e))) (s1 ++ (e, v) :: s2) = s1 ++ s2.
Proof.
  intros Hnd. rewrite fmap_app, fmap_cons in Hnd. cbn in Hnd. rewrite <- Permutation_middle in Hnd.
  apply NoDup_cons in Hnd as [Hne _]. rewrite List.filter_app. cbn. rewrite bool_decide_true by done. cbn.
  rewrite elem_of_app in Hne.
  assert (forall k : list (ptr * V), e ∉ k.*1 -> List.filter (fun x => negb (bool_decide (x.1 = e))) k = k) as Hf.
  { induction k as [|x k IH]; cbn; [done|]. intros [Hx Hk]%not_elem_of_cons.
    rewrite bool_decide_false by congruence. cbn. by rewrite IH. }
  rewrite !Hf by tauto. done.
Qed.

Lemma stands_bound l s : stands l s -> zlen s.1 <= Z.of_nat s.2.
Proof.
  intros [R N _]. assert (length (s.1.*1) <= length (seq 0 s.2))%nat as Hl.
  - apply submseteq_length, NoDup_submseteq; [apply R|]. intros x Hx. apply elem_of_seq.
    pose proof (rp_bound _ _ _ R Hx). lia.
  - rewrite length_seq, length_fmap in Hl. lia.
Qed.

Lemma exec1_stands l s o s' : stands l s -> spec1 s o = Some s' -> Z.of_nat s.2 < maxLen l ->
  exists l', exec1 l o = Ok l' /\ stands l' s' /\ maxLen l' = maxLen l.
Proof.
  destruct s as [s n]. intros St E Hm. pose proof (stands_bound _ _ St) as Hle. destruct St as [R N Vs].
  cbn [fst snd] in *. destruct o as [v|e]; cbn [spec1 exec1] in *.
  - injection E as <-. rewrite <- (length_fmap fst) in Hle.
    destruct (PushBack_repr l (s.*1) v R ltac:(lia)) as (l' & -> & R' & M & Hl & Hv). exists l'.
    split; [done|]. split; [|done]. split; cbn.
    + by rewrite fmap_app, <- N.
    + lia.
    + intros e w [Hin|Hin]%elem_of_app; rewrite Hv.
      * rewrite decide_False; [by apply Vs|]. assert (e ∈ s.*1) as He by (apply list_elem_of_fmap; by exists (e, w)).
        pose proof (rp_bound _ _ _ R He). lia.
      * apply list_elem_of_singleton in Hin as [= -> ->]. by rewrite decide_True.
  - destruct (bool_decide (e ∈ s.*1)) eqn:Hin; [|done]. apply bool_decide_eq_true in Hin. injection E as <-.
    apply list_elem_of_fmap in Hin as ([e' v] & -> & Hin). cbn [fst].
    apply list_elem_of_split in Hin as (s1 & s2 & ->).
    rewrite filter_middle by apply R. pose proof R as R0. rewrite fmap_app, fmap_cons in R0.
    destruct (Remove_repr l (s1.*1) e' (s2.*1) R0) as (l' & w & -> & _ & R' & M & Hl & Hv).
    exists l'. split; [done|]. split; [|done]. split; cbn.
    + by rewrite fmap_app.
    + lia.
    + intros e w' Hin. rewrite Hv. apply Vs. set_solver.
Qed.

Lemma exec_stands max ops s : spec ([], 0%nat) ops = Some s -> zlen ops <= max ->
  exists l, exec (newWithMax max) ops = Ok l /\ stands l s.
Proof.
  assert (forall ops l s s', stands l s -> spec s ops = Some s' -> Z.of_nat s.2 + zlen ops <= maxLen l ->
    exists l', exec l ops = Ok l' /\ stands l' s') as Hgen.
  { clear. induction ops as [|o ops IH]; intros l s s' St; cbn [spec exec go_foldl length].
    - intros [= <-] _. by exists l.
    - intros E Hm. destruct (spec1 s o) as [s1|] eqn:E1; [|done]. cbn in E.
      destruct (exec1_stands l s o s1 St E1 ltac:(lia)) as (l1 & -> & St1 & M1). cbn [gbind].
      apply (IH l1 s1 s' St1 E). rewrite M1.
      assert (s1.2 <= S s.2)%nat; [|lia]. destruct s as [s n], o; cbn in E1; [injection E1 as <-; cbn; lia|].
      case_match; [|done]. injection E1 as <-. cbn. lia. }
  intros Hs Hm. apply (Hgen ops _ ([], 0%nat) s); [|done|cbn; lia].
  split; [apply New_repr|done|by intros e v ?%not_elem_of_nil].
Qed.

(** C28: a list that only ever removes elements it holds implements the sequence
    of its elements: no operation panics, and no wait group is done twice. *)
Theorem exec_refines max ops s n (Hs : spec ([], 0%nat) ops = Some (s, n)) (Hmax : zlen ops <= max) :
  exists l, exec (newWithMax max) ops = Ok l /\ Len l = zlen s /\ Front l = (s !! 0%nat) ≫= Some ∘ fst /\
    Back l = (last s) ≫= Some ∘ fst /\
    forall i e v, s !! i = Some (e, v) -> Next l e = Ok ((s !! S i) ≫= Some ∘ fst) /\ valueAt l e = Some v.
Proof.
  destruct (exec_stands max ops (s, n) Hs Hmax) as (l & E & [R N Vs]). cbn in *. exists l. split; [done|].
  assert (forall i, s.*1 !! i = (s !! i) ≫= Some ∘ fst) as Hl by (intros i; rewrite list_lookup_fmap; by destruct (s !! i)).
  split; [|split; [|split]].
  - unfold Len. by rewrite (rp_len _ _ R), length_fmap.
  - unfold Front. by rewrite (rp_head _ _ R), Hl.
  - unfold Back. rewrite (rp_tail _ _ R), !last_lookup, length_fmap. apply Hl.
  - intros i e v Hi. split; [|by apply Vs; eapply list_elem_of_lookup_2].
    destruct (rp_in _ _ R i e) as (c & Hc & _ & Hn & _); [by rewrite list_lookup_fmap, Hi|].
    unfold Next, elem. rewrite Hc. cbn [deref gbind]. rewrite Hn. unfold after. by rewrite Hl.
Qed.

(** After such operations a caller that waits for the next element is woken:
    [NextWait] waits only on the last element, whose waiters are not yet
    released; every other element, removed ones included, has released them. *)
Theorem NextWait_blocks max ops s n l e (Hs : spec ([], 0%nat) ops = Some (s, n)) (Hmax : zlen ops <= max)
  (He : exec (newWithMax max) ops = Ok l) (Hin : (e < n)%nat) :
  NextWait l e = Ok (Wait false) /\ Back l = Some e \/
  exists x, NextWait l e = Ok (Return x) /\ NextWaitChan l e = Ok true.
Proof.
  destruct (exec_stands max ops (s, n) Hs Hmax) as (l' & E & [R N Vs]). rewrite He in E. injection E as <-. cbn in *.
  destruct (lookup_lt_is_Some_2 (heap l) e) as [c Hc]; [lia|]. unfold NextWait, NextWaitChan, elem. rewrite Hc.
  cbn [deref gbind]. destruct (decide (e ∈ s.*1)) as [[i Hi]%list_elem_of_lookup|Hn].
  - destruct (rp_in _ _ R i e Hi) as (c' & Hc' & _ & L2 & L3 & _ & L5). rewrite Hc in Hc'. injection Hc' as <-.
    rewrite L2, L3, L5. destruct (after (s.*1) i) as [x|] eqn:Ea.
    + right. exists (Some x). by rewrite !bool_decide_true by done.
    + left. rewrite bool_decide_false by (by intros []). split; [done|]. unfold Back. rewrite (rp_tail _ _ R), last_lookup.
      apply lookup_ge_None in Ea. apply lookup_lt_Some in Hi as Hlt. by replace (pred (length s.*1)) with i by lia.
  - right. destruct (rp_out _ _ R e c Hc Hn) as (G1 & _ & G3). exists (next c). rewrite G1, G3, orb_true_r. done.
Qed.
End clist.
Arguments op V : clear implicits.
Arguments Return {A}. Arguments Wait {A}.
End CList.

(** ** Concrete evaluations *)

Module CListDemo.
Import CList.
Definition ops : list (op string) := [OpPush "a"; OpPush "b"; OpPush "c"; OpRemove 1; OpPush "d"].
Definition seq : list (nat * string) := [(0%nat, "a"); (2%nat, "c"); (3%nat, "d")].

Lemma exec_refines_witness :
  exists l, exec (newWithMax 10) ops = Ok l /\ Len l = 3 /\ Front l = Some 0%nat /\ Back l = Some 3%nat.
Proof.
  destruct (exec_refines 10 ops seq 4 eq_refl ltac:(cbn; lia)) as (l & E & H1 & H2 & H3 & _).
  exists l. split; [exact E|]. split; [exact H1|]. split; [exact H2|exact H3].
Defined.

Definition final : t := valueOf New (exec (newWithMax 10) ops).
Lemma final_Ok : exec (newWithMax 10) ops = Ok final.
Proof. unfold final. apply valueOf_Ok. vm_compute. reflexivity. Qed.
Lemma NextWait_blocks_witness :
  NextWait final 3 = Ok (Wait false) /\ Back final = Some 3%nat \/
  exists x, NextWait final 3 = Ok (Return x) /\ NextWaitChan final 3 = Ok true.
Proof. exact (NextWait_blocks 10 ops seq 4 final 3 eq_refl ltac:(cbn; lia) final_Ok ltac:(lia)). Defined.
End CListDemo.
