(* ===== verification/Mempool.v ===== *)
(** * The mempool: [melete/mempool/mempool.go]

    The transactions wait in the linked list of [CList], and a map finds the
    element of a transaction. The application that validates a transaction is
    a parameter. *)

From S2P Require Import Prelude BitVector Hash Types CList.
Local Open Scope Z_scope.

Module Mempool.
Section mempool.
Context (ValidateTx : bytes -> bool -> go bool).

Record t := mk { txs : CList.t (V := bytes); txsMap : gmap bytes nat; isCrossShardMempool : bool }.

Definition NewMempool (isCrossShard : bool) : t := mk CList.New ∅ isCrossShard.

Definition notValid : goerr := Errorf "The transaction did not pass ValidateTx".

(** The key of a transaction is its bytes. *)
Definition AddTx (m : t) (tx : bytes) : go (t * option goerr) :=
  let! valid := ValidateTx tx (isCrossShardMempool m) in
  if negb valid then Ok (m, Some notValid)
  else
    let! '(l, e) := CList.PushBack (txs m) tx in
    Ok (mk l (<[tx := e]> (txsMap m)) (isCrossShardMempool m), None).
Definition Receive (m : t) (chID : Z) (message : bytes) (messageType : Z) : go (t * option goerr) := AddTx m message.

Definition RemoveTx (m : t) (tx : bytes) : go (t * option goerr) :=
  match txsMap m !! tx with
  | Some u =>
      let! '(l, _) := CList.Remove (txs m) u in
      Ok (mk l (delete tx (txsMap m)) (isCrossShardMempool m), None)
  | None => Ok (m, None)
  end.

(** The loop checks the number after it added a transaction. *)
Fixpoint reapLoop (fuel : nat) (l : CList.t) (e : option nat) (maxTxs : Z) (out : Txs.t) : go Txs.t :=
  match e, fuel with
  | None, _ => Ok out
  | Some _, O => OutOfFuel
  | Some e, S fuel =>
      let! c := CList.elem l e in
      let out := out ++ [CList.Value c] in
      if zlen out >=? maxTxs then Ok out
      else let! n := CList.Next l e in reapLoop fuel l n maxTxs out
  end.
(** The slice is made with the given capacity: a negative one panics. *)
Definition ReapTx (m : t) (maxTxs : Z) : go (Txs.t * Z * option goerr) :=
  if maxTxs <? 0 then Panic
  else
    let! out := reapLoop (length (CList.heap (txs m))) (txs m) (CList.Front (txs m)) maxTxs [] in
    Ok (out, zlen out, None).

(** The cross-shard pool keeps what was not committed. *)
Fixpoint updateCross (m : t) (bv : option BV.t) (i : Z) (l : Txs.t) : go t :=
  match l with
  | [] => Ok m
  | tx :: l =>
      let! committed := BV.GetIndex bv i in
      let! m := (if committed then let! '(m, _) := RemoveTx m tx in Ok m else Ok m) in
      updateCross m bv (i + 1) l
  end.
Definition updateInner (m : t) (l : Txs.t) : go t :=
  go_foldl (fun m tx => let! '(m, _) := RemoveTx m tx in Ok m) m l.
Definition Update (m : t) (l : Txs.t) (commitStatus : bytes) : go (t * option goerr) :=
  match l with
  | [] => Ok (m, None)
  | _ =>
      if isCrossShardMempool m then
        let! bv := BV.NewBitArrayFromByte commitStatus in
        let! m := updateCross m bv 0 l in Ok (m, None)
      else let! m := updateInner m l in Ok (m, None)
  end.

(** ** The transactions a pool holds *)

(** The list stands for the numbered transactions [s], and the map finds each
    by its bytes. *)
Record holds (m : t) (s : list (nat * bytes) * nat) : Prop := {
  hd_stands : CList.stands (txs m) s;
  hd_map tx e : txsMap m !! tx = Some e <-> (e, tx) ∈ s.1
}.

Lemma holds_NoDup m s : holds m s -> NoDup s.1.*2.
Proof.
  intros [St Hm]. pose proof (CList.rp_nodup _ _ (CList.sd_repr _ _ St)) as Hnd.
  apply NoDup_fmap_2_strong; [|by eapply NoDup_fmap_1].
  intros [e1 x1] [e2 x2] H1 H2; cbn. intros <-.
  apply Hm in H1, H2. congruence.
Qed.

Lemma NewMempool_holds cross : holds (NewMempool cross) ([], 0%nat).
Proof.
  split; [split; [apply CList.New_repr|done|by intros e v ?%not_elem_of_nil]|].
  intros tx e. cbn. rewrite lookup_empty. split; [done|]. by intros ?%not_elem_of_nil.
Qed.

Lemma AddTx_holds m s tx : holds m s -> ValidateTx tx (isCrossShardMempool m) = Ok true -> tx ∉ s.1.*2 ->
  Z.of_nat s.2 < CList.maxLen (txs m) ->
  exists m', AddTx m tx = Ok (m', None) /\ holds m' (s.1 ++ [(s.2, tx)], S s.2) /\
    isCrossShardMempool m' = isCrossShardMempool m /\ CList.maxLen (txs m') = CList.maxLen (txs m).
Proof.
  intros [St Hm] Hv Hn Hmax. unfold AddTx. rewrite Hv. cbn [gbind negb].
  destruct s as [s n]. cbn [fst snd] in *.
  destruct (CList.exec1_stands (txs m) (s, n) (CList.OpPush tx) _ St eq_refl Hmax) as (l' & E & St' & M).
  cbn in E. apply gbind_Ok in E as ([l e] & E & [= ->]).
  destruct (CList.PushBack_repr _ _ tx (CList.sd_repr _ _ St)) as (l2 & E2 & _).
  { cbn. rewrite length_fmap. pose proof (CList.stands_bound _ _ St). cbn in *. lia. }
  rewrite E in E2. injection E2 as <- ->. rewrite E. cbn [gbind]. eexists. split; [reflexivity|].
  split; [|done]. split; [done|]. cbn. rewrite (CList.sd_next _ _ St). cbn.
  intros x e. rewrite elem_of_app, list_elem_of_singleton. destruct (decide (x = tx)) as [->|Hx].
  - rewrite lookup_insert_eq. split; [intros [= <-]; by right|].
    intros [Hin|[= ->]]; [|done]. destruct Hn. apply list_elem_of_fmap. by exists (e, tx).
  - rewrite lookup_insert_ne by done. rewrite Hm. split; [by left|]. intros [?|[= _ ?]]; done.
Qed.

(** Removing by the number of an element and by its bytes is the same: the
    numbers are distinct, and so are the transactions. *)
Definition notTx (tx : bytes) (x : nat * bytes) : bool := negb (bool_decide (x.2 = tx)).

Lemma NoDup_fmap_inj {A B} (f : A -> B) (l : list A) x y : NoDup (f <$> l) -> x ∈ l -> y ∈ l -> f x = f y -> x = y.
Proof.
  intros Hnd [i Hi]%list_elem_of_lookup [j Hj]%list_elem_of_lookup E.
  assert (i = j) as ->; [|congruence]. apply (NoDup_lookup (f <$> l) i j (f x) Hnd); rewrite list_lookup_fmap.
  - by rewrite Hi.
  - by rewrite Hj, E.
Qed.

Lemma filter_notTx (l : list (nat * bytes)) e tx : NoDup l.*1 -> NoDup l.*2 -> (e, tx) ∈ l ->
  List.filter (fun x => negb (bool_decide (x.1 = e))) l = List.filter (notTx tx) l.
Proof.
  intros H1 H2 Hin. apply List.filter_ext_in. intros [e' tx'] Hin'%list_elem_of_In. unfold notTx. cbn. f_equal.
  apply bool_decide_ext. split; intros ->.
  - by assert ((e, tx') = (e, tx)) as [= ->] by (by apply (NoDup_fmap_inj fst l)).
  - by assert ((e', tx) = (e, tx)) as [= ->] by (by apply (NoDup_fmap_inj snd l)).
Qed.

Lemma filter_absent (l : list (nat * bytes)) tx : tx ∉ l.*2 -> List.filter (notTx tx) l = l.
Proof.
  induction l as [|[e x] l IH]; cbn; [done|]. intros [Hx Hl]%not_elem_of_cons. unfold notTx at 1. cbn.
  rewrite bool_decide_false by congruence. cbn. by rewrite IH.
Qed.

Lemma elem_of_notTx (l : list (nat * bytes)) tx e x : (e, x) ∈ List.filter (notTx tx) l <-> (e, x) ∈ l /\ x <> tx.
Proof.
  rewrite !list_elem_of_In, List.filter_In. unfold notTx. cbn. by rewrite negb_true_iff, bool_decide_eq_false.
Qed.

Lemma RemoveTx_holds m s tx : holds m s -> Z.of_nat s.2 < CList.maxLen (txs m) ->
  exists m', RemoveTx m tx = Ok (m', None) /\ holds m' (List.filter (notTx tx) s.1, s.2) /\
    isCrossShardMempool m' = isCrossShardMempool m /\ CList.maxLen (txs m') = CList.maxLen (txs m).
Proof.
  intros Hh Hmax. pose proof (holds_NoDup _ _ Hh) as Hnd. destruct Hh as [St Hm]. destruct s as [s n]. cbn [fst snd] in *.
  unfold RemoveTx. destruct (txsMap m !! tx) as [e|] eqn:Ee.
  - apply Hm in Ee as Hin.
    destruct (CList.exec1_stands (txs m) (s, n) (CList.OpRemove e) (List.filter (notTx tx) s, n) St) as (l' & E & St' & M).
    { cbn. rewrite bool_decide_true by (apply list_elem_of_fmap; by exists (e, tx)).
      rewrite (filter_notTx s e tx); [done| |done|done]. exact (CList.rp_nodup _ _ (CList.sd_repr _ _ St)). }
    { done. }
    cbn in E. apply gbind_Ok in E as ([l v] & -> & [= ->]). cbn [gbind]. eexists. split; [reflexivity|].
    split; [|done]. split; [done|]. intros x e'. cbn. rewrite elem_of_notTx, <- Hm.
    destruct (decide (x = tx)) as [->|Hx].
    + rewrite lookup_delete_eq. split; [done|tauto].
    + rewrite lookup_delete_ne by done. tauto.
  - exists m. split; [done|]. split; [|done]. split; [|intros x e; cbn; rewrite elem_of_notTx, Hm].
    + cbn. rewrite filter_absent; [done|]. intros ([e x] & -> & Hin)%list_elem_of_fmap. apply Hm in Hin. cbn in *; congruence.
    + split; [|tauto]. intros Hin. split; [done|]. intros ->. apply Hm in Hin. by rewrite Hin in Ee.
Qed.

(** ** The pool as a sequence of transactions *)

Inductive op := OpAdd (tx : bytes) | OpUpdate (l : Txs.t) (commitStatus : bytes).
Definition run1 (m : t) (o : op) : go t :=
  match o with
  | OpAdd tx => let! '(m, _) := AddTx m tx in Ok m
  | OpUpdate l st => let! '(m, _) := Update m l st in Ok m
  end.
Definition run (m : t) (ops : list op) : go t := go_foldl run1 m ops.

(** The bit of a decoded vector at an index; a vector that could not be made
    and an index out of range are not set. *)
Definition committedAt (bv : option BV.t) (i : Z) : bool :=
  match bv with None => false | Some b => if i <? BV.Bits b then BV.bit b i else false end.
(** The transactions of a block whose bit is set. *)
Fixpoint committed (bv : option BV.t) (i : Z) (l : Txs.t) : Txs.t :=
  match l with [] => [] | tx :: l => (if committedAt bv i then [tx] else []) ++ committed bv (i + 1) l end.
Definition without (gone pool : Txs.t) : Txs.t := List.filter (fun tx => negb (bool_decide (tx ∈ gone))) pool.

(** What a pool holds after an operation: a transaction that is already in the
    pool is not added again, and a status a block carries can be decoded. *)
Definition pool1 (cross : bool) (pool : Txs.t) (o : op) : option Txs.t :=
  match o with
  | OpAdd tx =>
      match ValidateTx tx cross with
      | Ok true => if bool_decide (tx ∈ pool) then None else Some (pool ++ [tx])
      | Ok false => Some pool
      | _ => None
      end
  | OpUpdate [] _ => Some pool
  | OpUpdate l st =>
      if cross then
        match BV.NewBitArrayFromByte st with
        | Ok bv => Some (without (committed bv 0 l) pool)
        | _ => None
        end
      else Some (without l pool)
  end.
Fixpoint poolAfter (cross : bool) (pool : Txs.t) (ops : list op) : option Txs.t :=
  match ops with [] => Some pool | o :: ops => pool ← pool1 cross pool o; poolAfter cross pool ops end.

(** A state that stands for a pool, after [n] additions at most. *)
Definition pools (m : t) (cross : bool) (pool : Txs.t) (n : Z) : Prop :=
  exists s, holds m s /\ s.1.*2 = pool /\ Z.of_nat s.2 <= n /\ isCrossShardMempool m = cross /\
    CList.maxLen (txs m) = CList.MaxLength.

Lemma GetIndex_committedAt st bv i : BV.NewBitArrayFromByte st = Ok bv -> 0 <= i ->
  BV.GetIndex bv i = Ok (committedAt bv i).
Proof.
  intros E Hi. destruct bv as [b|]; [|done]. apply BV.GetIndex_spec; [|done]. by eapply BV.decoded_wf.
Qed.

Lemma filter_fmap_snd (l : list (nat * bytes)) tx :
  (List.filter (notTx tx) l).*2 = List.filter (fun x => negb (bool_decide (x = tx))) l.*2.
Proof. induction l as [|[e x] l IH]; cbn; [done|]. unfold notTx at 1. cbn. case_match; cbn; by rewrite IH. Qed.

Lemma filter_filter {A} (f g : A -> bool) l : List.filter f (List.filter g l) = List.filter (fun x => g x && f x) l.
Proof. induction l as [|x l IH]; cbn; [done|]. destruct (g x); cbn; [|done]. by rewrite IH. Qed.

Lemma without_cons tx l pool : without l (List.filter (fun x => negb (bool_decide (x = tx))) pool) = without (tx :: l) pool.
Proof.
  unfold without. rewrite filter_filter. apply List.filter_ext. intros x. rewrite <- negb_orb. f_equal.
  rewrite <- bool_decide_or. apply bool_decide_ext. by rewrite elem_of_cons.
Qed.
Lemma without_nil pool : without [] pool = pool.
Proof. unfold without. induction pool; cbn; [done|]. by f_equal. Qed.

Lemma RemoveTx_pools m cross pool n tx : pools m cross pool n -> n < CList.MaxLength ->
  exists m', RemoveTx m tx = Ok (m', None) /\
    pools m' cross (List.filter (fun x => negb (bool_decide (x = tx))) pool) n.
Proof.
  intros (s & Hh & <- & Hn & Hc & Hm) Hlt. destruct (RemoveTx_holds m s tx Hh ltac:(lia)) as (m' & E & Hh' & Hc' & Hm').
  exists m'. split; [done|]. eexists. split; [exact Hh'|]. cbn. rewrite filter_fmap_snd. split_and!; congruence || done.
Qed.

Lemma updateInner_pools l : forall m cross pool n, pools m cross pool n -> n < CList.MaxLength ->
  exists m', updateInner m l = Ok m' /\ pools m' cross (without l pool) n.
Proof.
  induction l as [|tx l IH]; intros m cross pool n Hp Hn; cbn [updateInner go_foldl].
  - exists m. by rewrite without_nil.
  - destruct (RemoveTx_pools m cross pool n tx Hp Hn) as (m1 & E & Hp1). unfold updateInner. cbn [go_foldl].
    rewrite E. cbn [gbind]. destruct (IH m1 cross _ n Hp1 Hn) as (m2 & E2 & Hp2). exists m2. split; [exact E2|].
    by rewrite <- without_cons.
Qed.

Lemma updateCross_pools st bv l : BV.NewBitArrayFromByte st = Ok bv ->
  forall i m cross pool n, 0 <= i -> pools m cross pool n -> n < CList.MaxLength ->
  exists m', updateCross m bv i l = Ok m' /\ pools m' cross (without (committed bv i l) pool) n.
Proof.
  intros Hbv. induction l as [|tx l IH]; intros i m cross pool n Hi Hp Hn; cbn [updateCross committed].
  - exists m. by rewrite without_nil.
  - rewrite (GetIndex_committedAt st bv i Hbv Hi). cbn [gbind]. destruct (committedAt bv i).
    + destruct (RemoveTx_pools m cross pool n tx Hp Hn) as (m1 & -> & Hp1). cbn [gbind app].
      destruct (IH (i + 1) m1 cross _ n ltac:(lia) Hp1 Hn) as (m2 & E2 & Hp2). exists m2. split; [exact E2|].
      by rewrite <- without_cons.
    + cbn [gbind app]. apply IH; [lia|done|done].
Qed.

Lemma run1_pools m cross pool n o pool' : pools m cross pool n -> n < CList.MaxLength -> pool1 cross pool o = Some pool' ->
  exists m', run1 m o = Ok m' /\ pools m' cross pool' (n + 1).
Proof.
  intros Hp Hlt E. assert (forall m pool, pools m cross pool n -> pools m cross pool (n + 1)) as Hw.
  { intros m1 pool1 (s & H1 & H2 & H3 & H4). exists s. split_and!; try done; [lia|apply H4..]. }
  pose proof Hp as (s & Hh & Hs & Hn & Hc & Hm). destruct o as [tx|l st]; cbn [run1 pool1] in *.
  - destruct (ValidateTx tx cross) as [[]| |] eqn:Hv; try done.
    + destruct (bool_decide (tx ∈ pool)) eqn:Hin; [done|]. apply bool_decide_eq_false in Hin. injection E as <-.
      destruct (AddTx_holds m s tx Hh) as (m' & -> & Hh' & Hc' & Hm'); [by rewrite Hc|by rewrite Hs|lia|].
      cbn [gbind]. exists m'. split; [done|]. eexists. split; [exact Hh'|]. cbn. rewrite fmap_app, Hs.
      split_and!; try done; [lia|congruence..].
    + injection E as <-. unfold AddTx. rewrite Hc, Hv. cbn. exists m. split; [done|]. by apply Hw.
  - destruct l as [|tx l]; [injection E as <-; cbn; exists m; split; [done|]; by apply Hw|].
    cbn [Update]. rewrite Hc. destruct cross.
    + destruct (BV.NewBitArrayFromByte st) as [bv| |] eqn:Hbv; try done. injection E as <-. cbn [gbind].
      destruct (updateCross_pools st bv (tx :: l) Hbv 0 m true pool n ltac:(lia) Hp Hlt) as (m' & -> & Hp').
      cbn [gbind]. exists m'. split; [done|]. by apply Hw.
    + injection E as <-. destruct (updateInner_pools (tx :: l) m false pool n Hp Hlt) as (m' & -> & Hp').
      cbn [gbind]. exists m'. split; [done|]. by apply Hw.
Qed.

Lemma run_pools cross ops pool : poolAfter cross [] ops = Some pool -> zlen ops <= CList.MaxLength ->
  exists m n, run (NewMempool cross) ops = Ok m /\ pools m cross pool n.
Proof.
  assert (forall m q n, pools m cross q n -> poolAfter cross q ops = Some pool -> n + zlen ops <= CList.MaxLength ->
    exists m' n', run m ops = Ok m' /\ pools m' cross pool n') as Hgen.
  { induction ops as [|o ops IH]; intros m q n Hp; cbn [poolAfter run go_foldl length].
    - intros [= <-] _. by exists m, n.
    - destruct (pool1 cross q o) as [q'|] eqn:E1; [|done]. cbn. intros E Hn.
      destruct (run1_pools m cross q n o q' Hp ltac:(lia) E1) as (m1 & E2 & Hp1). unfold run. cbn [go_foldl].
      rewrite E2. cbn [gbind]. apply (IH m1 q' (n + 1) Hp1 E). lia. }
  intros E Hn. apply (Hgen (NewMempool cross) [] 0); [|done|lia].
  exists ([], 0%nat). split; [apply NewMempool_holds|]. by split_and!.
Qed.

(** ** Reaping *)

Lemma take_step {A} (l : list A) i x k : l !! i = Some x -> (0 < k)%nat ->
  take k (drop i l) = x :: take (pred k) (drop (S i) l).
Proof. intros Hx Hk. rewrite (drop_S _ _ _ Hx). by destruct k; [lia|]. Qed.

Lemma reapLoop_take l s maxTxs : CList.stands l s -> forall fuel i out, (length s.1 - i <= fuel)%nat ->
  reapLoop fuel l (fst <$> s.1 !! i) maxTxs out =
  Ok (out ++ take (Z.to_nat (Z.max 1 (maxTxs - zlen out))) (drop i s.1.*2)).
Proof.
  intros St. induction fuel as [|fuel IH]; intros i out Hf; cbn [reapLoop].
  - rewrite (lookup_ge_None_2 s.1 i) by lia. cbn. rewrite drop_ge by (rewrite length_fmap; lia).
    by rewrite take_nil, app_nil_r.
  - destruct (s.1 !! i) as [[e tx]|] eqn:Ei; cbn [fmap option_fmap option_map fst].
    2:{ apply lookup_ge_None in Ei. rewrite drop_ge by (rewrite length_fmap; lia). by rewrite take_nil, app_nil_r. }
    assert (s.1.*1 !! i = Some e) as H1 by by rewrite list_lookup_fmap, Ei.
    assert (s.1.*2 !! i = Some tx) as H2 by by rewrite list_lookup_fmap, Ei.
    pose proof (CList.sd_values _ _ St e tx ltac:(by eapply list_elem_of_lookup_2)) as Hv.
    destruct (CList.rp_in _ _ (CList.sd_repr _ _ St) i e H1) as (c & Hc & _ & Hn & _).
    unfold CList.valueAt in Hv. rewrite Hc in Hv. injection Hv as Hv. unfold CList.Next, CList.elem. rewrite Hc. cbn [deref gbind].
    rewrite Hv, Hn, (take_step _ i tx _ H2), length_app by lia. cbn [length].
    destruct (Z.geb_spec (Z.of_nat (length out + 1)) maxTxs).
    + replace (pred _) with 0%nat by lia. done.
    + unfold CList.after. rewrite list_lookup_fmap, (IH (S i)), length_app by lia. cbn [length].
      rewrite <- app_assoc. cbn [app]. do 4 f_equal. lia.
Qed.

Lemma ReapTx_pools m cross pool n maxTxs : pools m cross pool n ->
  ReapTx m maxTxs =
    if maxTxs <? 0 then Panic
    else let out := take (Z.to_nat (Z.max 1 maxTxs)) pool in Ok (out, zlen out, None).
Proof.
  intros (s & [St _] & <- & _). unfold ReapTx. destruct (maxTxs <? 0); [done|].
  assert (CList.Front (txs m) = fst <$> s.1 !! 0%nat) as ->.
  { unfold CList.Front. by rewrite (CList.rp_head _ _ (CList.sd_repr _ _ St)), list_lookup_fmap. }
  rewrite (reapLoop_take _ s maxTxs St _ 0).
  2:{ pose proof (CList.stands_bound _ _ St). rewrite (CList.sd_next _ _ St). lia. }
  cbn. by rewrite Z.sub_0_r.
Qed.

(** C29: a pool run from empty, by no more operations than the longest list has
    elements, to which a transaction is only added while it is not there, holds a sequence of transactions in the order they were added,
    less those a block committed; no operation panics and the loop that reaps
    ends. It returns the first transactions, at least one if there is one, and
    panics on a negative number. *)
Theorem ReapTx_pool cross ops pool (Hp : poolAfter cross [] ops = Some pool) (Hn : zlen ops <= CList.MaxLength) :
  exists m, run (NewMempool cross) ops = Ok m /\ forall maxTxs,
    ReapTx m maxTxs =
      if maxTxs <? 0 then Panic
      else let out := take (Z.to_nat (Z.max 1 maxTxs)) pool in Ok (out, zlen out, None).
Proof.
  destruct (run_pools cross ops pool Hp Hn) as (m & n & E & Hm). exists m. split; [done|].
  intros maxTxs. by eapply ReapTx_pools.
Qed.
End mempool.
End Mempool.

(** ** Concrete evaluations *)

Module MempoolDemo.
Import Mempool.
(** Every transaction but the empty one is valid. *)
Definition valid (tx : bytes) (_ : bool) : go bool := Ok (negb (bool_decide (tx = []))).
Definition a : bytes := of_str "a".
Definition b : bytes := of_str "b".
Definition c : bytes := of_str "c".
(** Three transactions; a block with all of them commits the first and the third. *)
Definition ops : list op := [OpAdd a; OpAdd b; OpAdd []; OpAdd c; OpUpdate [a; b; c] [byte_of 5; byte_of 5]; OpAdd a].

Lemma ReapTx_pool_witness :
  exists m, run valid (NewMempool true) ops = Ok m /\
    ReapTx m 0 = Ok ([b], 1, None) /\ ReapTx m 5 = Ok ([b; a], 2, None) /\ ReapTx m (-1) = Panic.
Proof.
  destruct (ReapTx_pool valid true ops [b; a] eq_refl ltac:(unfold CList.MaxLength; cbn; lia)) as (m & E & R).
  exists m. split; [exact E|]. split; [exact (R 0)|]. split; [exact (R 5)|exact (R (-1))].
Defined.

(** A transaction that is added twice stays: the map finds the second element only. *)
Example added_twice :
  (let! m := run valid (NewMempool false) [OpAdd a; OpAdd a; OpUpdate [a] []; OpUpdate [a] []] in ReapTx m 5)
  = Ok ([a], 1, None).
Proof. vm_compute. reflexivity. Qed.
End MempoolDemo.
