(* ===== verification/Relay.v ===== *)
(** * Messages kept for later heights

    Both state machines keep a message that is too early in a map from its height
    to a map from its round. What follows is common to them: such a map is keyed
    by its messages, and the heights above the current one that it has messages
    for measure how much work is left. *)

From S2P Require Import Prelude.
Local Open Scope Z_scope.

Module Relay.
Section relay.
Context {M : Type} (height round : M -> Z).

Abbreviation t := (gmap Z (gmap Z (list M))).
Implicit Types r : t.

(** Messages are kept under their height and round. *)
Definition keyed r : Prop :=
  forall h u rd l m, r !! h = Some u -> u !! rd = Some l -> m ∈ l -> height m = h /\ round m = rd.
Definition upTo (K : Z) r : Prop := forall h, is_Some (r !! h) -> h <= K.

Lemma keyed_smaller r r' : r' ⊆ r -> keyed r -> keyed r'.
Proof. intros Hs Hk h u rd l m Hu. eapply Hk. by eapply lookup_weaken. Qed.
Lemma upTo_smaller K r r' : r' ⊆ r -> upTo K r -> upTo K r'.
Proof. intros Hs Hk h [u Hu]. apply Hk. exists u. by eapply lookup_weaken. Qed.

(** A message is kept behind those of its height and round. *)
Definition keep r (m : M) : t :=
  match r !! height m with
  | Some u => <[height m := <[round m := default [] (u !! round m) ++ [m]]> u]> r
  | None => <[height m := {[round m := [m]]}]> r
  end.

Lemma keep_dom r m : dom (keep r m) = {[height m]} ∪ dom r.
Proof. unfold keep. by destruct (r !! height m); rewrite dom_insert_L. Qed.

Lemma keep_keyed r m : keyed r -> keyed (keep r m).
Proof.
  intros Hk h u' rd l x. unfold keep. destruct (r !! height m) as [u|] eqn:Eu;
    (destruct (decide (h = height m)) as [->|Hne]; [rewrite lookup_insert_eq|rewrite lookup_insert_ne by done; apply Hk]).
  - intros [= <-]. destruct (decide (rd = round m)) as [->|Hne]; [rewrite lookup_insert_eq|rewrite lookup_insert_ne by done; by eapply Hk].
    intros [= <-] [Hin| ->%list_elem_of_singleton]%elem_of_app; [|done].
    destruct (u !! round m) as [l'|] eqn:El; [by eapply Hk|by apply not_elem_of_nil in Hin].
  - intros [= <-]. rewrite lookup_singleton_Some. by intros [<- <-] ->%list_elem_of_singleton.
Qed.

(** Every message kept has a property. *)
Definition holds (P : M -> Prop) r : Prop :=
  forall h u rd l, r !! h = Some u -> u !! rd = Some l -> Forall P l.

Lemma holds_smaller P r r' : r' ⊆ r -> holds P r -> holds P r'.
Proof. intros Hs Hp h u rd l Hu. eapply Hp. by eapply lookup_weaken. Qed.
Lemma keep_holds P r m : P m -> holds P r -> holds P (keep r m).
Proof.
  intros Hm Hp h u' rd l. unfold keep. destruct (r !! height m) as [u|] eqn:Eu;
    (destruct (decide (h = height m)) as [->|Hne]; [rewrite lookup_insert_eq|rewrite lookup_insert_ne by done; apply Hp]).
  - intros [= <-]. destruct (decide (rd = round m)) as [->|Hne]; [rewrite lookup_insert_eq|rewrite lookup_insert_ne by done; by eapply Hp].
    intros [= <-]. apply Forall_app. split; [|by constructor].
    destruct (u !! round m) as [l'|] eqn:El; [by eapply Hp|constructor].
  - intros [= <-]. rewrite lookup_singleton_Some. intros [<- <-]. by constructor.
Qed.

(** ** The heights above the current one *)

Definition aboveSet (n : Z) r : gset Z := dom (filter (fun x : Z * _ => n < x.1) r).
Definition above (n : Z) r : nat := size (aboveSet n r).

(** The height grows, and messages kept are only dropped. *)
Definition later (n : Z) r (n' : Z) r' : Prop := n <= n' /\ r' ⊆ r.

Lemma elem_of_above n r h : h ∈ aboveSet n r <-> n < h /\ is_Some (r !! h).
Proof.
  unfold aboveSet. rewrite elem_of_dom. split.
  - intros [u [Hu Hh]%map_lookup_filter_Some]. eauto.
  - intros [Hh [u Hu]]. exists u. by apply map_lookup_filter_Some.
Qed.

Lemma above_dom n r : (above n r <= size r)%nat.
Proof.
  unfold above. rewrite <- size_dom. apply subseteq_size. intros h [_ Hh]%elem_of_above. by apply elem_of_dom.
Qed.

Lemma above_mono n r n' r' : later n r n' r' -> (above n' r' <= above n r)%nat.
Proof.
  intros [Hh Hr]. unfold above. apply subseteq_size. intros h [Hlt [u Hu]]%elem_of_above. apply elem_of_above.
  split; [lia|]. exists u. by eapply lookup_weaken.
Qed.

(** Reaching a height that messages were kept for. *)
Lemma above_less n r n' r' h : later n r n' r' -> is_Some (r !! h) -> n < h <= n' -> (above n' r' < above n r)%nat.
Proof.
  intros [Hh Hr] Hu Hlt. unfold above. apply subset_size. split.
  - intros x [Hx [u Hux]]%elem_of_above. apply elem_of_above. split; [lia|]. exists u. by eapply lookup_weaken.
  - intros Hsub. assert (h ∈ aboveSet n r) as Hin by (apply elem_of_above; split; [lia|done]).
    apply Hsub, elem_of_above in Hin as [? _]. lia.
Qed.

Lemma keep_size r m : (size (keep r m) <= S (size r))%nat.
Proof.
  rewrite <- (size_dom (keep r m)), keep_dom, size_union_alt, size_singleton. cbn. apply le_n_S.
  rewrite <- size_dom. apply subseteq_size. by apply subseteq_difference_l.
Qed.

(** What hearing a message leaves. *)
Definition heard r (m : M) r' : Prop := r' = r \/ r' = keep r m.
Lemma heard_keyed r m r' : heard r m r' -> keyed r -> keyed r'.
Proof. intros [-> | ->]; [done|apply keep_keyed]. Qed.
Lemma heard_upTo K r m r' : heard r m r' -> upTo K r -> height m <= K -> upTo K r'.
Proof.
  intros [-> | ->] Hk Hm; [done|]. intros h Hh%elem_of_dom. rewrite keep_dom in Hh.
  apply elem_of_union in Hh as [->%elem_of_singleton|Hh%elem_of_dom]; [done|by apply Hk].
Qed.
Lemma heard_above n r m r' : heard r m r' -> (above n r' <= S (size r))%nat.
Proof.
  intros Hh. etransitivity; [apply above_dom|]. destruct Hh as [-> | ->]; [lia|apply keep_size].
Qed.
End relay.
End Relay.
