(* ===== verification/Termination.v ===== *)
(** * The consensus state machine answers every message

    Handling a message may finish a height, replay the messages kept for the
    next one, finish that height too, and so on. This ends: a height is only
    left with the vote of another validator, and only finitely many messages
    are kept. *)

From S2P Require Import Prelude BitVector Convert Hash Merkle Wire Types.
From S2P Require Import PartSet Signer Votes CSASet ShardInfo HeightData Store Codecs Consensus ConsensusSafety Relay.
Import Consensus.
Local Open Scope Z_scope.

Section termination.
Context `{Hash, StdTime, BLS, ABCIConn, MempoolConn, DB, Env, !ABCILaws}.
Context `{!Codec pbBlock, !Codec pbProposal, !Codec pbVote, !Codec pbCrossShardAccept,
          !Codec pbCrossShardCommit, !Codec pbCrossShardProposal, !Codec pbPart, !Codec pbReceipt}.
Variable cfg : Config.
Hypothesis HMaxPartSize : 0 < MaxPartSize cfg.

(** ** Every handler and every action ends *)

Lemma fillElems_ends bv i payload : ends (BV.fillElems bv i payload).
Proof. revert bv i. induction payload; intros; cbn [BV.fillElems]; ends. Qed.
Lemma gather_ends i parts bs : ends (PartSet.gather i parts bs).
Proof. revert i bs. induction parts; intros; cbn [PartSet.gather]; ends. Qed.
Lemma addKeys_ends s bm ids pk : ends (addKeys s bm ids pk).
Proof. revert pk. induction ids; intros; cbn [addKeys]; ends. Qed.
#[local] Hint Resolve fillElems_ends gather_ends addKeys_ends : ends.
Lemma recountLoop_ends `{VoteMsg A} h hash i rest (vs : HeightData.Votes A) : ends (HeightData.recountLoop h hash i rest vs).
Proof. revert i vs. induction rest; intros; cbn [HeightData.recountLoop]; ends. Qed.
Lemma combineStatuses_ends bv l : ends (combineStatuses bv l).
Proof. revert bv. induction l; intros; cbn [combineStatuses]; ends. Qed.
Lemma sendAccepts_ends statuses s i shards : ends (sendAccepts cfg statuses s i shards).
Proof. revert s i. induction shards; intros; cbn [sendAccepts]; ends. Qed.
Lemma split_ends data : ends (SplitByteArray data (MaxPartSize cfg)).
Proof.
  destruct (splitLoop_spec (length data) data (MaxPartSize cfg) 0 HMaxPartSize) as (cs & E & _); [lia..|].
  unfold SplitByteArray. by rewrite E.
Qed.
#[local] Hint Resolve recountLoop_ends combineStatuses_ends sendAccepts_ends split_ends : ends.
Lemma tally_ends bv i peers total : ends (CrossShardCommit.tally bv i peers total).
Proof. revert i total. induction peers; intros; cbn [CrossShardCommit.tally]; ends. Qed.
Lemma prevote_signs p : ends (vSignBytes (A := Prevote.t) p).
Proof. cbn. ends. Qed.
Lemma precommit_signs p : ends (vSignBytes (A := Precommit.t) p).
Proof. cbn. ends. Qed.
#[local] Hint Resolve tally_ends prevote_signs precommit_signs : ends.
Lemma checkCommit_ends h csc i chains : ends (HeightData.checkCommit h csc i chains).
Proof. revert i. induction chains; intros; cbn [HeightData.checkCommit]; ends. Qed.
#[local] Hint Resolve checkCommit_ends : ends.

Lemma addMessage_ends s m : ends (addMessage s m).
Proof. ends. Qed.
Lemma transition_ends s : ends (transition cfg s).
Proof. ends. Qed.
Lemma createBlockAndBroadcast_ends s : ends (createBlockAndBroadcast cfg s).
Proof. ends. Qed.
Lemma isProposer_ends s : ends (isProposer cfg s).
Proof. ends. Qed.
Lemma NextHeight_ends h : ends (HeightData.NextHeight h).
Proof. ends. Qed.
#[local] Hint Resolve addMessage_ends transition_ends createBlockAndBroadcast_ends isProposer_ends NextHeight_ends : ends.

(** ** A package with no vote but the own one *)

Variables (my : string) (si : ShardInfo.t).
Hypothesis Hvalid : HeightData.validShards my si.
Definition mine : list Peer.t := default [] (ShardInfo.PeerList si !! my).
(** The own vote is no quorum. *)
Hypothesis Hown : 3 * power mine (signerIndex cfg) <= 2 * allVotes mine.

Record lonely (h : HeightData.t) : Prop := {
  ly_pass : HeightData.PassStep h < RoundStepPrevote;
  ly_slots i v : zlook (slots (HeightData.Prevotes h)) i = Some (Some v) -> i = signerIndex cfg
}.

(** An operation that adds no prevote and passes no step. *)
Definition mute (h h' : HeightData.t) : Prop :=
  slots (HeightData.Prevotes h') = slots (HeightData.Prevotes h) /\ HeightData.PassStep h' = HeightData.PassStep h.

Lemma lonely_mute h h' : mute h h' -> lonely h -> lonely h'.
Proof. intros [E1 E2] [L1 L2]. split; [lia|by rewrite E1]. Qed.
Lemma mute_refl h : mute h h.
Proof. done. Qed.
Lemma framed_mute h h' : HeightData.framed h h' -> mute h h'.
Proof. intros (_ & _ & E & _ & E' & _). split; [by rewrite E|done]. Qed.
#[local] Hint Resolve mute_refl framed_mute : core.

Lemma recountLoop_slots `{VoteMsg A} h hash i rest (vs vs' : HeightData.Votes A) :
  HeightData.recountLoop h hash i rest vs = Ok vs' -> slots vs' = slots vs.
Proof.
  revert i vs. induction rest as [|[v|] rest IH]; intros i vs; cbn [HeightData.recountLoop]; [by intros [= <-]| |apply IH].
  destruct (bool_decide _); [|apply IH]. intros (b & _ & E)%gbind_Ok. destruct b as [b' ?].
  apply gbind_Ok in E as (peer & _ & E). by apply IH in E.
Qed.

Lemma addVote_slots `{VoteMsg A} h (vs vs' : HeightData.Votes A) p err : HeightData.addVote h vs p = Ok (vs', err) ->
  slots vs' = slots vs \/
  (HeightData.Height h = vHeight p /\ 0 <= vIndex p < zlen (slots vs) /\ slots vs' = <[Z.to_nat (vIndex p) := Some p]> (slots vs)).
Proof.
  unfold HeightData.addVote. intros E. apply gbind_Ok in E as (seen & _ & E).
  destruct seen; [injection E as <- _; by left|].
  destruct (Z.eqb_spec (HeightData.Height h) (vHeight p)) as [EH|]; [|injection E as <- _; by left].
  destruct (_ || _); [injection E as <- _; by left|]. apply gbind_Ok in E as (val & _ & E).
  destruct (_ || _); [injection E as <- _; by left|]. apply gbind_Ok in E as (msg & _ & E).
  apply gbind_Ok in E as (valid & _ & E). destruct valid; [|injection E as <- _; by left]. cbn [negb] in E.
  apply gbind_Ok in E as (sl & Es & E). apply upd_Ok in Es as [Hi ->]. right. split; [done|]. split; [done|].
  destruct (HeightData.Proposal h); [|by injection E as <- _]. destruct (bool_decide _); [|by injection E as <- _].
  apply gbind_Ok in E as ([b ?] & _ & E). apply gbind_Ok in E as (peer & _ & E). by injection E as <- _.
Qed.

Lemma AddPrevote_lonely h p h' err : HeightData.AddPrevote h p = Ok (h', err) ->
  (HeightData.Height h = Prevote.Height p -> Prevote.ValidatorIndex p = signerIndex cfg) -> lonely h -> lonely h'.
Proof.
  intros E Hp [L1 L2]. unfold HeightData.AddPrevote in E. apply gbind_Ok in E as ([vs e] & E & [= <- _]).
  split; [exact L1|]. intros i v. cbn [HeightData.Prevotes HeightData.setPrevotes].
  destruct (addVote_slots _ _ _ _ _ E) as [->|(EH & Hi & ->)]; [apply L2|].
  intros Hz. pose proof Hz as [Hi0 _]%zlook_Some. rewrite HeightData.zlook_insert in Hz by done.
  destruct (Z.eqb_spec i (vIndex p)) as [->|]; [by apply Hp|by eapply L2].
Qed.

Lemma AddProposal_mute h p i h' err : HeightData.AddProposal h p i = Ok (h', err) -> mute h h'.
Proof.
  unfold HeightData.AddProposal. destruct (HeightData.Proposal h); [intros [= <- _]; done|].
  destruct (_ || _); [intros [= <- _]; done|]. destruct (negb _); [intros [= <- _]; done|].
  destruct (negb _); [intros [= <- _]; done|]. intros E. apply gbind_Ok in E as (val & _ & E).
  apply gbind_Ok in E as (msg & _ & E). apply gbind_Ok in E as (valid & _ & E).
  destruct valid; [|injection E as <- _; done]. cbn [negb] in E. apply gbind_Ok in E as (ps & _ & E).
  apply gbind_Ok in E as (h1 & E1 & E). apply HeightData.addBuffered_framed, framed_mute in E1 as [M1 M2].
  apply gbind_Ok in E as (h2 & E2 & E). apply gbind_Ok in E as (h3 & E3 & E). injection E as <- _.
  unfold HeightData.reCalculatePrevotes, HeightData.reCalculatePrecommits, HeightData.recount in *.
  apply gbind_Ok in E2 as (v2 & E2 & [= <-]). apply gbind_Ok in E3 as (v3 & _ & [= <-]).
  unfold mute. cbn in M1, M2 |- *. rewrite <- M1, M2. split; [|done].
  destruct (HeightData.Proposal h1); [by eapply recountLoop_slots|by injection E2 as <-].
Qed.

(** Only a prevote of the height of the package, from another validator, is
    company. *)
Lemma addToHeight_lonely s m h sent err : addToHeight s m = Ok (h, sent, err) ->
  HeightData.Height (heightDatas s) <> msgHeight m -> lonely (heightDatas s) -> lonely h.
Proof.
  intros E Hh. destruct m; cbn [addToHeight msgHeight] in *; unfold noSent in E.
  - apply gbind_Ok in E as ([h1 e] & E & [= <- _ _]). apply lonely_mute, framed_mute. by eapply HeightData.addInnerPart_framed.
  - apply gbind_Ok in E as (p & _ & E). apply gbind_Ok in E as ([h1 e] & E & [= <- _ _]).
    apply lonely_mute. by eapply AddProposal_mute.
  - apply gbind_Ok in E as ([h1 e] & E & [= <- _ _]). by eapply AddPrevote_lonely.
  - apply gbind_Ok in E as ([h1 e] & E & [= <- _ _]). apply lonely_mute.
    unfold HeightData.AddPrecommit in E. by apply gbind_Ok in E as ([vs e'] & _ & [= <- _]).
  - apply gbind_Ok in E as ([h1 e] & E & [= <- _ _]). apply lonely_mute, framed_mute. by eapply HeightData.AddCrossShardProposal_framed.
  - apply gbind_Ok in E as ([h1 e] & E & [= <- _ _]). apply lonely_mute, framed_mute. by eapply HeightData.AddCrossShardAccept_framed.
  - apply lonely_mute, framed_mute. by eapply HeightData.AddCrossShardCommit_framed.
Qed.

Lemma fresh_lonely h : HeightData.fresh h -> lonely h.
Proof.
  intros [F1 F2 _]. split; [by rewrite F1|]. rewrite F2. unfold HeightData.emptyVotes. cbn [slots].
  intros i v [_ Hz]%zlook_Some. by apply lookup_replicate in Hz as [[=] _].
Qed.

Lemma lonely_quorum h : HeightData.wf h -> HeightData.peersOf h (HeightData.MyChainID h) = mine -> lonely h ->
  HeightData.quorum h (total (HeightData.Prevotes h)) = false.
Proof.
  intros W Ep [_ L2]. apply not_true_iff_false. intros Hq.
  apply HeightData.quorum_spec in Hq; [|apply W].
  destruct (HeightData.w_prevotes h W) as [_ (bv & [Eb Hwf Hsz Hlen Hbit Htot])].
  rewrite Htot, votesOf_setBits, Ep in Hq by done.
  assert (forall i, i ∈ map Z.of_nat (setBits bv) -> i = signerIndex cfg) as Hall.
  { intros i [Hi Hb]%elem_of_setBits. apply Hbit in Hb as [_ (v & p & Hz & _)]; [by eapply L2|lia]. }
  pose proof (setBits_NoDup bv) as Hnd. pose proof (power_nonneg mine (signerIndex cfg)) as Hpos.
  assert (votesNonneg mine) as Hn by (rewrite <- Ep; apply W). specialize (Hpos Hn).
  destruct (map Z.of_nat (setBits bv)) as [|i [|j l]].
  - cbn in Hq. pose proof (zsum_nonneg (map Peer.Vote mine)) as Hz0. unfold allVotes in Hq.
    assert (0 <= zsum (map Peer.Vote mine)); [|lia]. apply Hz0. by apply Forall_fmap.
  - rewrite (Hall i) in Hq by set_solver. unfold powerOf in Hq. cbn in Hq. lia.
  - exfalso. apply NoDup_cons in Hnd as [Hni _]. apply Hni.
    rewrite (Hall i), (Hall j) by set_solver. constructor.
Qed.

(** ** A node that hears nobody waits *)

Lemma reachable_config h : HeightData.reachable my si h ->
  HeightData.wf h /\ HeightData.peersOf h (HeightData.MyChainID h) = mine.
Proof.
  intros Hr. split; [by eapply HeightData.reachable_ok|].
  assert (HeightData.MyChainID h = my /\ HeightData.ShardInfo h = si) as [E1 E2]; [|unfold HeightData.peersOf; by rewrite E1, E2].
  induction Hr as [height h E|h h' Hr IH Hs|h h' Hr IH E].
  - by apply HeightData.NewHeightData_config in E as (_ & _ & ? & ?).
  - destruct (HeightData.step_config h h' (HeightData.reachable_ok my si h Hvalid Hr) Hs) as (_ & _ & -> & -> & _). done.
  - apply HeightData.NextHeight_config in E as (_ & _ & -> & ->). done.
Qed.

(** Nothing but the package, the chain and what was sent changes. *)
Definition still (s s' : t) : Prop :=
  Height s' = Height s /\ relayMessageChannel s' = relayMessageChannel s.
Lemma still_frame k s s' : frame k s s' -> still s s'.
Proof. intros []. done. Qed.
Lemma still_trans s1 s2 s3 : still s1 s2 -> still s2 s3 -> still s1 s3.
Proof. unfold still. intros [-> ->] [-> ->]. done. Qed.
Lemma still_Next s : RoundStepPropose <= Step s < RoundStepCrossShardCommit ->
  still s (Next s) /\ Step (Next s) = Step s + 1 /\ heightDatas (Next s) = heightDatas s.
Proof. intros Hs. by rewrite Next_step. Qed.

Definition quietAt (s : t) : Prop :=
  lonely (heightDatas s) /\ RoundStepPropose <= Step s <= RoundStepPrevote.

Lemma FinishProposal_mute h h' b : HeightData.FinishProposal h = (h', b) -> lonely h -> lonely h'.
Proof.
  unfold HeightData.FinishProposal. destruct (_ >=? _); [by intros [= <- _]|].
  destruct (HeightData.Proposal h); [|by intros [= <- _]]. destruct (_ !! _); [|by intros [= <- _]].
  intros [= <- _] [L1 L2]. by split.
Qed.

Lemma FinishPrevote_lonely h h' b : HeightData.reachable my si h -> HeightData.FinishPrevote h = (h', b) -> lonely h ->
  b = false /\ lonely h'.
Proof.
  intros Hr E Hl. pose proof (ly_pass h Hl) as Hp. unfold HeightData.FinishPrevote in E.
  destruct (Z.geb_spec (HeightData.PassStep h) RoundStepPrevote); [lia|].
  destruct (HeightData.FinishProposal h) as [h1 b1] eqn:E1. pose proof (FinishProposal_mute _ _ _ E1 Hl) as Hl1.
  destruct b1; [|by injection E as <- <-]. cbn [negb] in E.
  destruct (reachable_config h1) as [W Ep]; [by eapply HeightData.ReachStep, HeightData.StepFinishProposal|].
  rewrite (lonely_quorum h1 W Ep Hl1) in E. by injection E as <- <-.
Qed.

Lemma hashBlock_mute s cid s' hs : hashBlock s cid = Ok (s', hs) -> mute (heightDatas s) (heightDatas s').
Proof.
  unfold hashBlock. intros E. apply gbind_Ok in E as (b & _ & E). destruct (Block.Hash_ b). by injection E as <- _.
Qed.

Lemma doPropose_lonely s s' : doPropose cfg s = Ok s' -> lonely (heightDatas s) -> lonely (heightDatas s').
Proof.
  unfold doPropose. intros E Hl. apply gbind_Ok in E as (b & _ & E). apply gbind_Ok in E as ([s1 b1] & E1 & E).
  destruct (negb _); [done|]. destruct (negb _); [done|]. apply gbind_Ok in E as ([s2 hs] & E2 & E).
  apply gbind_Ok in E as (sig & _ & E). apply gbind_Ok in E as ([h err] & E3 & E).
  apply gbind_Ok in E as (bz & _ & E). injection E as <-.
  assert (mute (heightDatas s) (heightDatas s1)) as M1.
  { unfold checkPreExecution in E1. apply gbind_Ok in E1 as (check & _ & E1). destruct check; [|by injection E1 as <- _].
    apply gbind_Ok in E1 as ([[a b'] r] & _ & E1). destruct (_ || _); [done|]. by injection E1 as <- _. }
  apply hashBlock_mute in E2.
  assert (lonely h) as Hh.
  { eapply AddPrevote_lonely; [exact E3|done|]. eapply lonely_mute; [exact E2|]. by eapply lonely_mute. }
  unfold Next. by destruct (_ =? _).
Qed.

Lemma transition_quiet s : dataOK my si s -> quietAt s ->
  settles (transition cfg s) (fun r => still s r.1 /\ dataOK my si r.1 /\ quietAt r.1 /\
    (r.2 = Waiting \/ Step s = RoundStepPropose /\ r.2 = Stepped /\ Step r.1 = RoundStepPrevote)).
Proof.
  intros Hd [Hl Hs]. split; [apply transition_ends|]. intros [s' o] E. cbn [fst snd].
  assert (forall k s', frame k s s' -> still s s' /\ dataOK my si s' /\ Step s' = Step s) as Hf.
  { intros k s1 F. split; [by eapply still_frame|]. split; [by eapply dataOK_frame|apply (f_step _ _ _ F)]. }
  unfold transition in E. destruct (Z.eqb_spec (Step s) RoundStepPropose) as [Es|Es].
  - destruct (finish _ s) as [s1 b] eqn:Ef. unfold finish in Ef.
    destruct (HeightData.FinishProposal (heightDatas s)) as [h b'] eqn:Eh. injection Ef as <- <-.
    pose proof (FinishProposal_mute _ _ _ Eh Hl) as Hl1.
    destruct (Hf true (setData s h)) as (F1 & F2 & F3); [by eapply frame_data, HeightData.StepFinishProposal|].
    unfold stepWith in E. destruct b'; [|injection E as <- <-; split; [done|split; [done|split; [done|by left]]]].
    apply gbind_Ok in E as (s2 & E2 & [= <- <-]). pose proof (doPropose_lonely _ _ E2 Hl1) as Hl2.
    destruct (doPropose_spec cfg _ _ E2) as (s3 & v & bz & F & -> & _).
    destruct (still_Next (SendInternal s3 bz TendermintPrevote)) as (N1 & N2 & N3).
    { cbn. rewrite (f_step _ _ _ F). cbn. by rewrite Es. }
    assert (Step (Next (SendInternal s3 bz TendermintPrevote)) = RoundStepPrevote) as N4.
    { rewrite N2. cbn. rewrite (f_step _ _ _ F). cbn. by rewrite Es. }
    split; [eapply still_trans; [exact F1|]; eapply still_trans; [by eapply still_frame|exact N1]|].
    split; [|split; [split; [done|by rewrite N4]|by right]].
    assert (dataOK my si s3) as D3 by by eapply dataOK_frame.
    rewrite Next_step by (cbn; rewrite (f_step _ _ _ F); cbn; by rewrite Es). by apply dataOK_step, dataOK_send.
  - assert (Step s = RoundStepPrevote) as Es' by (unfold RoundStepPropose, RoundStepPrevote in *; lia).
    rewrite Es', Z.eqb_refl in E. destruct (finish _ s) as [s1 b] eqn:Ef. unfold finish in Ef.
    destruct (HeightData.FinishPrevote (heightDatas s)) as [h b'] eqn:Eh. injection Ef as <- <-.
    destruct (FinishPrevote_lonely _ _ _ (d_reach _ _ _ Hd) Eh Hl) as [-> Hl1].
    injection E as <- <-. destruct (Hf true (setData s h)) as (F1 & F2 & F3); [by eapply frame_data, HeightData.StepFinishPrevote|].
    split; [done|]. split; [done|]. split; [|by left]. split; [done|]. by rewrite F3.
Qed.

Lemma handle_quiet fuel s : (2 <= fuel)%nat -> dataOK my si s -> quietAt s ->
  settles (handleStateTransition cfg fuel s) (fun s' => still s s' /\ dataOK my si s' /\ quietAt s').
Proof.
  intros Hf Hd Hq. destruct fuel as [|fuel]; [lia|]. cbn [handleStateTransition].
  eapply settles_bind; [by apply transition_quiet|]. intros [s1 o]. cbn [fst snd].
  intros (S1 & D1 & Q1 & [->|(_ & -> & E1)]); [by apply settles_Ok|].
  destruct fuel as [|fuel]; [lia|]. cbn [handleStateTransition].
  eapply settles_bind; [by apply transition_quiet|]. intros [s2 o]. cbn [fst snd].
  intros (S2 & D2 & Q2 & [->|(E2 & _)]); [|rewrite E1 in E2; done].
  apply settles_Ok. split; [by eapply still_trans|done].
Qed.

(** ** The messages kept for later heights *)

Abbreviation keyed := (Relay.keyed msgHeight msgRound).
Abbreviation upTo := Relay.upTo.
Definition above (s : t) : nat := Relay.above (Height s) (relayMessageChannel s).
Definition later (s s' : t) : Prop := Relay.later (Height s) (relayMessageChannel s) (Height s') (relayMessageChannel s').
#[local] Instance later_preorder : PreOrder later.
Proof.
  split; [intros s; split; [lia|done]|]. intros s1 s2 s3 [A1 A2] [B1 B2]. split; [lia|by etransitivity].
Qed.
Lemma still_later s s' : still s s' -> later s s'.
Proof. intros [E1 E2]. split; [lia|by rewrite E2]. Qed.
Lemma above_later s s' : later s s' -> (above s' <= above s)%nat.
Proof. apply Relay.above_mono. Qed.
Lemma above_reached s s' h : later s s' -> is_Some (relayMessageChannel s !! h) -> Height s < h <= Height s' ->
  (above s' < above s)%nat.
Proof. apply Relay.above_less. Qed.

(** The state of a node whose messages are all for heights up to [K]: no
    validator can be heard above. *)
Record good (K : Z) (s : t) : Prop := {
  g_data : dataOK my si s;
  g_step : RoundStepPropose <= Step s <= RoundStepCrossShardCommit;
  g_keyed : keyed (relayMessageChannel s);
  g_upTo : upTo K (relayMessageChannel s);
  g_height : - 2 ^ 63 <= Height s <= K + 1;
  g_top : Height s = K + 1 -> quietAt s
}.

Variable K : Z.
Hypothesis HK : K < 2 ^ 63 - 1.

Lemma good_quiet s s' : good K s -> still s s' -> dataOK my si s' -> quietAt s' -> good K s'.
Proof.
  intros [G1 G2 G3 G4 G5 G6] [E1 E2] D Q. split; rewrite ?E1, ?E2; try done.
  destruct Q. unfold RoundStepPropose, RoundStepPrevote, RoundStepCrossShardCommit in *. lia.
Qed.
Lemma good_below s s' : good K s -> still s s' -> dataOK my si s' -> Height s <= K ->
  RoundStepPropose <= Step s' <= RoundStepCrossShardCommit -> good K s'.
Proof.
  intros [G1 G2 G3 G4 G5 G6] [E1 E2] D HH Hs. split; rewrite ?E1, ?E2; try done. lia.
Qed.

(** ** One round *)

Lemma stepped_good s s' o : good K s -> Height s <= K -> stepped cfg s s' o ->
  still s s' /\
  match o with
  | Waiting => good K s'
  | Stepped => good K s' /\ Step s' = Step s + 1
  | Finished => dataOK my si s' /\ Step s = RoundStepCrossShardCommit
  end.
Proof.
  intros Hg HH Hs. pose proof (g_data _ _ Hg) as Hd. pose proof (g_step _ _ Hg) as Hst.
  assert (forall k s1 s2, frame k s s1 -> frame false s1 s2 -> RoundStepPropose <= Step s < RoundStepCrossShardCommit ->
    forall l, still s (Next (send s2 l)) /\ good K (Next (send s2 l)) /\ Step (Next (send s2 l)) = Step s + 1) as Hnext.
  { intros k s1 s2 F1 F2 Hlt l. assert (Step (send s2 l) = Step s) as E2.
    { cbn. rewrite (f_step _ _ _ F2). apply (f_step _ _ _ F1). }
    destruct (still_Next (send s2 l)) as (N1 & N2 & N3); [by rewrite E2|].
    assert (still s (Next (send s2 l))) as HS.
    { eapply still_trans; [by eapply still_frame|]. eapply still_trans; [by eapply still_frame|exact N1]. }
    split; [done|]. rewrite N2, E2. split; [|done].
    apply (good_below s); [done|done| |done|rewrite N2, E2; unfold RoundStepPropose, RoundStepCrossShardCommit in *; lia].
    assert (dataOK my si s1) as D1 by by eapply dataOK_frame.
    assert (dataOK my si s2) as D2 by by eapply dataOK_frame.
    rewrite Next_step by (by rewrite E2). by apply dataOK_step, dataOK_send. }
  destruct Hs as [s' Hf|s1 s' Est Hf E|s1 s' Est Hf E|s1 Est Hf|s' Est Hf|Hn].
  - split; [by eapply still_frame|]. apply (good_below s); [done|by eapply still_frame|by eapply dataOK_frame|done|].
    by rewrite (f_step _ _ _ Hf).
  - destruct (doPropose_spec cfg s1 s' E) as (s2 & v & bz & F2 & -> & _). eapply Hnext; [exact Hf|exact F2|by rewrite Est].
  - destruct (doPrevote_spec cfg s1 s' E) as (s2 & v & bz & F2 & -> & _).
    eapply Hnext; [exact Hf|by eapply frame_weaken|by rewrite Est].
  - assert (send s1 [] = s1) as <-.
    { unfold send, setWorld. rewrite app_nil_r. destruct s1 as [? ? ? ? ? ? []]. done. }
    eapply Hnext; [exact Hf|apply frame_preorder|]. unfold RoundStepPropose, RoundStepPrecommit in *. lia.
  - split; [by eapply still_frame|]. split; [by eapply dataOK_frame|done].
  - destruct Hn. done.
Qed.

(** ** A message *)

Lemma addMessage_quiet s m s' r : addMessage s m = Ok (s', r) -> dataOK my si s -> msgHeight m <> Height s ->
  quietAt s -> quietAt s'.
Proof.
  intros E Hd Hm [Hl Hs]. unfold addMessage in E.
  assert (exists rl b, addRelayMessageIfOverTime s (msgHeight m) (msgRound m) m = (setRelay s rl, b)) as (rl & b & Er).
  { unfold addRelayMessageIfOverTime. destruct (_ || _); [destruct (_ !! _); eauto|].
    exists (relayMessageChannel s), false. by destruct s. }
  rewrite Er in E. destruct b; [injection E as <- _; by split|].
  apply gbind_Ok in E as ([[h sent] err] & E & Es).
  assert (lonely h) as Hh.
  { eapply addToHeight_lonely; [exact E| |exact Hl]. cbn. rewrite (d_height _ _ _ Hd). congruence. }
  destruct err as [[| |e]|]; injection Es as <- _; by split.
Qed.

(** A message kept for an earlier height or the current one is not kept again. *)
Lemma addMessage_good s m : good K s -> msgHeight m <= K -> msgHeight m <= Height s -> msgRound m = 0 ->
  settles (addMessage s m) (fun r => still s r.1 /\ good K r.1).
Proof.
  intros Hg HmK Hm Hr. split; [apply addMessage_ends|]. intros [s' r] E. cbn [fst].
  pose proof (g_data _ _ Hg) as Hd. destruct (addMessage_frame _ _ _ _ E) as (rl & b & Er & Hf).
  assert (setRelay s rl = s) as Es.
  { unfold addRelayMessageIfOverTime in Er. rewrite Hr, (d_round _ _ _ Hd) in Er.
    destruct (Z.ltb_spec (Height s) (msgHeight m)); [lia|]. rewrite andb_false_r in Er. by injection Er. }
  rewrite Es in Hf. assert (still s s') as HS by by eapply still_frame.
  assert (dataOK my si s') as Hd' by by eapply dataOK_frame. split; [done|].
  destruct (decide (Height s = K + 1)) as [Et|Et].
  - apply (good_quiet s); [done..|]. eapply addMessage_quiet; [exact E|done|lia|by apply Hg].
  - apply (good_below s); [done..| |].
    + pose proof (g_height _ _ Hg). lia.
    + rewrite (f_step _ _ _ Hf). apply Hg.
Qed.

(** ** The next height *)

Lemma sendParts_data f s parts s' : (forall s bz ty, heightDatas (f s bz ty) = heightDatas s) ->
  sendParts f s parts = Ok s' -> heightDatas s' = heightDatas s.
Proof.
  intros Hf. apply (go_foldl_invariant _ (fun x => heightDatas x = heightDatas s)); [|done].
  intros s1 part s2 _ E1 E. apply gbind_Ok in E as (p & _ & E). apply gbind_Ok in E as (bz & _ & E).
  injection E as <-. by rewrite Hf.
Qed.

Lemma createBlockAndBroadcast_mute s s' : createBlockAndBroadcast cfg s = Ok s' ->
  mute (heightDatas s) (heightDatas s') /\ relayMessageChannel s' = relayMessageChannel s.
Proof.
  unfold createBlockAndBroadcast. intros E. apply gbind_Ok in E as ([s1 b] & E1 & E).
  destruct (createBlock_out cfg s s1 b E1) as (Hf & _).
  apply gbind_Ok in E as ([b1 ps] & _ & E). apply gbind_Ok in E as (sig & _ & E). apply gbind_Ok in E as (bz & _ & E).
  assert (heightDatas s1 = heightDatas s) as Hd.
  { unfold createBlock in E1. apply gbind_Ok in E1 as ([i c] & _ & E1). destruct (IsCShard (tick s)).
    - apply gbind_Ok in E1 as ([[a' b'] r'] & _ & E1). by injection E1 as <- _.
    - by injection E1 as <- _. }
  split.
  - apply sendParts_data in E; [|done]. unfold mute. rewrite E. cbn. by rewrite Hd.
  - apply (sendParts_frame true) in E; [|intros; apply frame_to, quiet_part].
    rewrite (f_relay _ _ _ E). cbn. apply (f_relay _ _ _ Hf).
Qed.

(** The state in which a new height is entered. *)
Definition newHeight (s : t) (h : HeightData.t) : t :=
  setStep (setData (rollChain (Next (setStep s RoundStepCrossShardCommit))) h) RoundStepPropose.

Lemma newHeight_good s h : dataOK my si s -> keyed (relayMessageChannel s) -> upTo K (relayMessageChannel s) ->
  - 2 ^ 63 <= Height s <= K -> HeightData.NextHeight (heightDatas s) = Ok h ->
  good K (newHeight s h) /\ later s (newHeight s h) /\ Height (newHeight s h) = Height s + 1 /\
  quietAt (newHeight s h) /\ HeightData.fresh h.
Proof.
  intros [D1 D2 D3 D4] Hk Hu HH E.
  assert (newHeight s h = mk (i64 (Height s + 1)) 0 RoundStepPropose h (delete (Height s) (relayMessageChannel s))
    (chain (newHeight s h)) (world s)) as -> by done.
  assert (i64 (Height s + 1) = Height s + 1) as E64 by (apply wrap_s_small; unfold in_s; lia).
  pose proof (HeightData.NextHeight_config _ _ E) as (C1 & C2 & _).
  assert (HeightData.fresh h) as Hf by (eapply HeightData.NextHeight_fresh; [by eapply HeightData.reachable_ok|exact E]).
  set (s1 := mk _ _ _ _ _ _ _). assert (delete (Height s) (relayMessageChannel s) ⊆ relayMessageChannel s) as Hsub by apply delete_subseteq.
  assert (quietAt s1) as Hq by (split; [by apply fresh_lonely|done]).
  split; [|split; [split; [unfold s1; cbn; lia|done]|split; [done|done]]].
  split; try done; unfold s1; cbn [relayMessageChannel Height].
  - split; unfold s1; cbn; [by eapply HeightData.ReachNext|by rewrite C1, D2|done|done].
  - by eapply Relay.keyed_smaller.
  - by eapply Relay.upTo_smaller.
  - lia.
Qed.

Lemma enter_settles doMsg s : dataOK my si s -> keyed (relayMessageChannel s) -> upTo K (relayMessageChannel s) ->
  - 2 ^ 63 <= Height s <= K ->
  (forall s1 m, good K s1 -> msgHeight m <= K -> msgHeight m <= Height s1 -> msgRound m = 0 -> (above s1 < above s)%nat ->
     settles (doMsg s1 m) (fun r => good K r.1 /\ later s1 r.1)) ->
  settles (enterNewHeight cfg doMsg s)
    (fun s' => good K s' /\ later s s' /\ (quietAt s' \/ (above s' < above s)%nat)).
Proof.
  intros Hd Hk Hu HH Hdo. unfold enterNewHeight.
  eapply settles_bind; [split; [apply NextHeight_ends|intros h E; exact E]|]. intros h E.
  change (HeightData.NextHeight (heightDatas s) = Ok h) in E.
  destruct (newHeight_good s h Hd Hk Hu HH E) as (Hg & Hlt & Hn & Hq & Hfr). unfold enterNewRound.
  fold (newHeight s h). set (s1 := newHeight s h) in *.
  eapply settles_bind; [split; [apply isProposer_ends|intros b _; exact I]|]. intros b _.
  apply settles_bind with (P := fun s2 => good K s2 /\ still s1 s2 /\ quietAt s2 /\ Round s2 = 0).
  { assert (good K s1 /\ still s1 s1 /\ quietAt s1 /\ Round s1 = 0) as Hs1 by done.
    destruct b; [|by apply settles_Ok]. split; [apply createBlockAndBroadcast_ends|]. intros s2 E2.
    destruct (createBlockAndBroadcast_mute _ _ E2) as [M _].
    destruct (createBlockAndBroadcast_spec cfg _ _ E2) as [_ F].
    assert (frame true s1 s2) as F2.
    { pose proof (g_data _ _ Hg) as [D1 D2 D3 D4]. apply F; [exact Hfr|done|by rewrite D3, D4]. }
    assert (quietAt s2) as Q2.
    { destruct Hq as [Hl Hs]. split; [by eapply lonely_mute|by rewrite (f_step _ _ _ F2)]. }
    assert (still s1 s2) as S2 by by eapply still_frame.
    assert (dataOK my si s2) as D2 by (eapply dataOK_frame; [done|exact F2|apply Hg]).
    split; [by apply (good_quiet s1)|]. split; [done|]. split; [done|]. by apply D2. }
  intros s2 (G2 & S2 & Q2 & R2).
  assert (later s s2) as L2 by (etransitivity; [exact Hlt|by apply still_later]).
  destruct (relayMessageChannel s2 !! Height s2) as [u|] eqn:Eu; [|by apply settles_Ok; auto].
  destruct (u !! Round s2) as [msgs|] eqn:Em; [|by apply settles_Ok; auto].
  assert (above s2 < above s)%nat as Ha.
  { apply above_reached with (h := Height s2); [done| |destruct S2; lia].
    destruct L2 as [_ L2]. exists u. by eapply lookup_weaken. }
  eapply settles_weaken; [apply settles_foldl with (P := fun s3 => good K s3 /\ later s2 s3); [by split|]|].
  - intros s3 m Hin [G3 L3]. destruct (g_keyed _ _ G2 _ _ _ _ _ Eu Em Hin) as [Ehm Erm].
    assert (msgHeight m <= K) as HmK by (rewrite Ehm; apply (g_upTo _ _ G2); eauto).
    eapply settles_bind; [apply Hdo; [done|done| |by rewrite Erm|]|].
    + rewrite Ehm. apply L3.
    + pose proof (above_later _ _ L3). lia.
    + intros [s4 e] [G4 L4]. apply settles_Ok. split; [done|by etransitivity].
  - intros s3 [G3 L3]. split; [done|]. split; [by etransitivity|]. right. pose proof (above_later _ _ L3). lia.
Qed.

(** ** Enough fuel *)

Lemma above_still s s' : still s s' -> above s' = above s.
Proof. intros [E1 E2]. unfold above. by rewrite E1, E2. Qed.

Lemma handle_settles n : forall fuel s, good K s -> (above s <= n)%nat -> (6 * n + 8 <= fuel)%nat ->
  settles (handleStateTransition cfg fuel s) (fun s' => good K s' /\ later s s').
Proof.
  induction n as [n IH] using lt_wf_ind.
  assert (forall d fuel s, Step s = RoundStepCrossShardCommit - Z.of_nat d -> good K s -> (above s <= n)%nat ->
    (6 * n + d + 4 <= fuel)%nat ->
    settles (handleStateTransition cfg fuel s) (fun s' => good K s' /\ later s s')) as Hsteps.
  { induction d as [|d IHd]; intros fuel s Es Hg Ha Hf.
    all: assert (Height s = K + 1 \/ Height s <= K) as [Ht|Ht] by (pose proof (g_height _ _ Hg); lia);
      [eapply settles_weaken; [apply handle_quiet; [lia|apply Hg|by apply Hg]|];
       intros s' (S' & D' & Q'); split; [by apply (good_quiet s)|by apply still_later]|].
    all: destruct fuel as [|fuel]; [lia|]; cbn [handleStateTransition];
      eapply settles_bind; [split; [apply transition_ends|intros r E; exact E]|]; intros [s1 o] E;
      destruct (stepped_good s s1 o Hg Ht (transition_stepped _ _ _ _ E)) as [HS Ho]; pose proof (above_still _ _ HS) as Ea;
      destruct o; [by apply settles_Ok; split; [|apply still_later]| |].
    1: { destruct Ho as [G1 E1]. destruct (g_step _ _ G1). lia. }
    2: { destruct Ho as [G1 E1]. eapply settles_weaken; [apply IHd; [lia|done|lia|lia]|].
         intros s2 [G2 L2]. split; [done|]. etransitivity; [by apply still_later|done]. }
    all: destruct Ho as [D1 E1]; pose proof HS as [HH HR]; destruct Hg as [_ _ Hk Hu Hh _].
    all: eapply settles_bind; [apply enter_settles with (s := s1); [done|by rewrite HR|by rewrite HR|lia|]|].
    all: try (intros s2 (G2 & L2 & [Q2|A2]);
      [eapply settles_weaken; [apply handle_quiet; [lia|apply G2|done]|];
       intros s3 (S3 & D3 & Q3); split; [by apply (good_quiet s2)|]
      |eapply settles_weaken; [apply (IH (above s2)); [lia|done|lia|lia]|]; intros s3 [G3 L3]; split; [done|]];
      (etransitivity; [by apply still_later|]; etransitivity; [exact L2|]; done || by apply still_later)).
    all: intros s2 m G2 HmK Hm Hr A2; destruct fuel as [|fuel]; [lia|]; cbn [doMessage];
      eapply settles_bind; [by apply addMessage_good|]; intros [s3 r] [S3 G3]; cbn [fst] in *;
      destruct r as [err|]; [apply settles_Ok; split; [done|by apply still_later]|];
      pose proof (above_still _ _ S3);
      eapply settles_bind; [apply (IH (above s3)); [lia|done|lia|lia]|]; intros s4 [G4 L4]; apply settles_Ok;
      split; [done|]; etransitivity; [by apply still_later|done]. }
  intros fuel s Hg Ha Hf. pose proof (g_step _ _ Hg).
  apply (Hsteps (Z.to_nat (RoundStepCrossShardCommit - Step s))); [|done|done|];
    unfold RoundStepPropose, RoundStepCrossShardCommit in *; lia.
Qed.

(** ** Running nodes *)

Lemma stepped_relay s s' o : stepped cfg s s' o -> relayMessageChannel s' ⊆ relayMessageChannel s.
Proof.
  assert (forall s, relayMessageChannel (Next s) ⊆ relayMessageChannel s) as Hn.
  { intros s1. unfold Next. destruct (_ =? _); [apply delete_subseteq|done]. }
  assert (forall k s1 s2, frame k s1 s2 -> relayMessageChannel s2 = relayMessageChannel s1) as Hf by (by intros ? ? ? []).
  destruct 1 as [s' F|s1 s' _ F E|s1 s' _ F E|s1 _ F|s' _ F|_]; try done; try (by rewrite (Hf _ _ _ F)).
  - destruct (doPropose_spec cfg s1 s' E) as (s2 & v & bz & F2 & -> & _). etransitivity; [apply Hn|]. cbn.
    by rewrite (Hf _ _ _ F2), (Hf _ _ _ F).
  - destruct (doPrevote_spec cfg s1 s' E) as (s2 & v & bz & F2 & -> & _). etransitivity; [apply Hn|]. cbn.
    by rewrite (Hf _ _ _ F2), (Hf _ _ _ F).
  - etransitivity; [apply Hn|]. by rewrite (Hf _ _ _ F).
Qed.

(** What a message leaves in the channel: at most one more height. *)
Lemma addRelay_heard s m rl b : addRelayMessageIfOverTime s (msgHeight m) (msgRound m) m = (setRelay s rl, b) ->
  Relay.heard msgHeight msgRound (relayMessageChannel s) m rl.
Proof.
  unfold Relay.heard, addRelayMessageIfOverTime, Relay.keep. intros E. destruct (_ || _).
  - right. destruct (_ !! _); by injection E as <- _.
  - left. exact (f_equal (fun x : t * bool => relayMessageChannel x.1) (eq_sym E)).
Qed.

Definition keeps (s s' : t) : Prop := keyed (relayMessageChannel s) -> keyed (relayMessageChannel s').

Lemma enterNewHeight_keeps doMsg s s' : (forall s m s' e, doMsg s m = Ok (s', e) -> keeps s s') ->
  enterNewHeight cfg doMsg s = Ok s' -> keeps s s'.
Proof.
  intros Hdo. unfold enterNewHeight. intros E Hk. apply gbind_Ok in E as (h & _ & E).
  unfold enterNewRound in E. fold (newHeight s h) in E.
  assert (keyed (relayMessageChannel (newHeight s h))) as Hk1 by (eapply Relay.keyed_smaller; [apply delete_subseteq|exact Hk]).
  set (s1 := newHeight s h) in *. apply gbind_Ok in E as (b & _ & E). apply gbind_Ok in E as (s2 & E2 & E).
  assert (keyed (relayMessageChannel s2)) as Hk2.
  { destruct b; [|by injection E2 as <-]. by rewrite (proj2 (createBlockAndBroadcast_mute _ _ E2)). }
  destruct (_ !! _) as [u|]; [|by injection E as <-]. destruct (_ !! _) as [l|]; [|by injection E as <-].
  revert E. apply (go_foldl_invariant _ (fun x => keyed (relayMessageChannel x))); [|done].
  intros s3 m s4 _ Hk3 E. apply gbind_Ok in E as ([s5 e] & E & [= <-]). by eapply Hdo.
Qed.

Lemma run_keeps fuel : (forall s m s' e, doMessage cfg fuel s m = Ok (s', e) -> keeps s s') /\
  forall s s', handleStateTransition cfg fuel s = Ok s' -> keeps s s'.
Proof.
  induction fuel as [|fuel [IHm IHt]]; [done|]. split.
  - intros s m s' e E Hk. cbn [doMessage] in E. apply gbind_Ok in E as ([s1 r] & E1 & E).
    destruct (addMessage_frame _ _ _ _ E1) as (rl & b & Er & Hf).
    assert (keyed (relayMessageChannel s1)) as Hk1.
    { rewrite (f_relay _ _ _ Hf). apply (Relay.heard_keyed _ _ _ _ _ (addRelay_heard _ _ _ _ Er) Hk). }
    destruct r as [err|]; [by injection E as <- _|]. apply gbind_Ok in E as (s2 & E2 & E). injection E as <- _.
    by eapply IHt.
  - intros s s' E Hk. cbn [handleStateTransition] in E. apply gbind_Ok in E as ([s1 o] & E1 & E).
    apply transition_stepped, stepped_relay in E1. assert (keyed (relayMessageChannel s1)) as Hk1 by by eapply Relay.keyed_smaller.
    destruct o; [by injection E as <-|by eapply IHt|]. apply gbind_Ok in E as (s2 & E2 & E).
    eapply IHt; [exact E|]. by eapply enterNewHeight_keeps.
Qed.

Lemma run_keyed s : run cfg my si s -> keyed (relayMessageChannel s).
Proof.
  induction 1 as [a mp cmp d s0 fuel s E0 E|s fuel ch bz mtype s' err _ IH E].
  - assert (keyed (relayMessageChannel s0) /\ Height s0 = 0) as [Hk Hz].
    { unfold NewConsensusState in E0. apply gbind_Ok in E0 as (h & _ & E0).
      revert E0. generalize (mkChain (Now 0) (Merkle.HashFromByteSlices []) [] [] []
        (Merkle.HashFromByteSlices []) [] [] [] [] []) as c. intros c [= <-]. split; [|done].
      intros h' u rd l m. cbn. by rewrite lookup_empty. }
    unfold Start in E. rewrite Hz in E. change (0 =? 0) with true in E. cbv iota in E.
    eapply enterNewHeight_keeps; [apply run_keeps|exact E|exact Hk].
  - assert (forall A (m : go (option A)) name validate msg,
      receiveWith cfg fuel s m name validate msg = Ok (s', err) -> keeps s s') as Hr.
    { intros A m name validate msg Em. unfold receiveWith in Em. apply gbind_Ok in Em as (o & _ & Em).
      destruct o as [x|]; [|injection Em as <- _; by intros Hk0]. apply gbind_Ok in Em as (e & _ & Em).
      destruct e; [injection Em as <- _; by intros Hk0|]. exact (proj1 (run_keeps fuel) _ _ _ _ Em). }
    unfold Receive in E.
    repeat match type of E with
    | (if ?b then _ else _) = _ => destruct b
    | receiveWith _ _ _ _ _ _ _ = _ => apply Hr in E; exact (E IH)
    | Ok _ = _ => injection E as <- _; exact IH
    end.
Qed.
End termination.

Section answers.
Context `{Hash, StdTime, BLS, ABCIConn, MempoolConn, DB, Env, !ABCILaws}.
Context `{!Codec pbBlock, !Codec pbProposal, !Codec pbVote, !Codec pbCrossShardAccept,
          !Codec pbCrossShardCommit, !Codec pbCrossShardProposal, !Codec pbPart, !Codec pbReceipt}.

(** C9: a running node whose own vote is no quorum handles every message:
    however many heights the messages kept for later let it finish, the
    recursion between [doMessage] and [handleStateTransition] ends, within a
    depth that is linear in the number of heights messages are kept for. *)
Theorem doMessage_ends cfg my si s m fuel
  (Hpart : 0 < MaxPartSize cfg) (Hvalid : HeightData.validShards my si)
  (Hown : 3 * power (mine my si) (signerIndex cfg) <= 2 * allVotes (mine my si))
  (Hrun : run cfg my si s) (Hsent : sentBound s)
  (Hs : Height s < 2 ^ 63 - 1) (Hm : msgHeight m < 2 ^ 63 - 1)
  (Hkept : forall h, is_Some (relayMessageChannel s !! h) -> h < 2 ^ 63 - 1)
  (Hfuel : (6 * size (relayMessageChannel s) + 15 <= fuel)%nat) :
  doMessage cfg fuel s m <> OutOfFuel.
Proof.
  destruct (run_inv cfg my si Hvalid s Hrun Hsent) as [Hd Hst Hv].
  assert (Relay.keyed msgHeight msgRound (relayMessageChannel s)) as Hk by by eapply run_keyed.
  destruct fuel as [|fuel]; [lia|]. cbn [doMessage].
  apply (ends_bind (addMessage s m)); [apply addMessage_ends|]. intros [s1 r] E.
  destruct r as [err|]; [done|]. destruct (addMessage_frame _ _ _ _ E) as (rl & b & Er & Hf).
  apply addRelay_heard in Er.
  assert (good cfg my si (2 ^ 63 - 2) s1) as Hg.
  { assert (Height s1 = Height s) as Eh by apply (f_height _ _ _ Hf).
    assert (0 <= Height s) as H0s by (destruct (vo_bound _ Hv); lia).
    split; rewrite ?(f_relay _ _ _ Hf), ?Eh; [| |by eapply Relay.heard_keyed| |lia|lia].
    - apply (dataOK_frame my si Hvalid _ _ _ Hf). by destruct Hd.
    - rewrite (f_step _ _ _ Hf). exact Hst.
    - eapply Relay.heard_upTo; [exact Er| |lia]. intros h Hh. specialize (Hkept h Hh). lia. }
  apply (ends_bind (handleStateTransition cfg fuel s1)); [|done].
  eapply (handle_settles cfg Hpart my si Hvalid Hown (2 ^ 63 - 2) ltac:(lia) (above s1)); [exact Hg|done|].
  pose proof (Relay.heard_above _ _ (Height s1) _ _ _ Er) as Ha. unfold above. rewrite (f_relay _ _ _ Hf). cbn. lia.
Qed.
End answers.

(** ** The shard of three validators *)

Module TerminationDemo.
Import DemoHash Demo DemoCodecs StoreDemo ConsensusDemo.

Lemma doMessage_ends_witness : doMessage (config 1) 40 voted1 (MPrevote (vote 2)) <> OutOfFuel.
Proof.
  apply (doMessage_ends (config 1) my si voted1 (MPrevote (vote 2)) 40).
  - cbn. lia.
  - exact shards_valid.
  - apply (bool_decide_unpack _). vm_compute. exact I.
  - exact voted1_run.
  - exact voted1_sent.
  - apply (bool_decide_unpack _). vm_compute. exact I.
  - apply (bool_decide_unpack _). vm_compute. exact I.
  - intros h. assert (relayMessageChannel voted1 = ∅) as -> by (vm_compute; reflexivity).
    rewrite lookup_empty. intros [? [=]].
  - apply Nat.leb_le. vm_compute. reflexivity.
Defined.

(** A validator that is alone in its shard never waits once it handles a
    message: it finishes one height after the other within one call. *)
Definition alone : ShardInfo.t := ShardInfo.mk {[my := take 1 peers]} ∅ ∅ ∅ BLOCKTYPE_I ∅.
Example alone_never_waits :
  (let! s := NewConsensusState my alone () () () (∅ : gmap bytes bytes) in
   let! s := Start (config 0) 5 s in
   let! '(s, _) := doMessage (config 0) 30 s (MPrevote (vote 0)) in Ok (Height s)) = OutOfFuel.
Proof. vm_compute. reflexivity. Qed.
End TerminationDemo.
