(* ===== verification/Node.v ===== *)
(** * A node: [melete/main/start.go]

    The application and the mempools a node is made of, from the configuration
    and the shard information, and the interfaces of the consensus state machine
    they implement. *)

From S2P Require Import Prelude BitVector Convert Hash Wire Types ShardInfo Store RangeTree MemDB BankTx Bank.
From S2P Require Import CList Mempool Consensus ConsensusSafety BankSpec.
Local Open Scope Z_scope.

(** The fields of [Config] that are used here ([melete/main/config.go]). *)
Record NodeConfig := mkNodeConfig { ChainID : string; IsI : bool; ABCIApp : string }.

(** A panic of the component is one of the interface. The recursions of the
    components end, so nothing else is lost. *)
Definition toOption {A} (m : go A) : option A := match m with Ok a => Some a | _ => None end.

Section node.
Context `{Hash, StdTime, DB, !Codec pbTransferTx, !Codec pbInsertTx, !Codec pbBankData}.
Context (unmarshalError : bytes -> string).

(** ** Interfaces *)

#[export] Instance bankConn : ABCIConn :=
  {| App := Bank.Application;
     PreExecutionC app block := toOption (Bank.PreExecutionC unmarshalError app block);
     PreExecutionI app blocks := r ← toOption (Bank.PreExecutionI unmarshalError app blocks); Some (app, r);
     Execution app cross bvs inner := toOption (Bank.Execution unmarshalError app cross bvs inner);
     AppCommit := Bank.Commit |}.

(** The cross-shard pool of an I shard is nil. *)
#[export] Instance mempoolConn : MempoolConn :=
  {| Pool := option Mempool.t;
     ReapTx pool maxTxs := m ← pool; toOption (Mempool.ReapTx m maxTxs);
     Update pool txs status := m ← pool; '(m, err) ← toOption (Mempool.Update m txs status); Some (Some m, err) |}.

(** The bank only hashes the block it executes in advance. *)
#[export] Instance bankConn_laws : ABCILaws.
Proof.
  split. intros app b app' b' r. cbn [PreExecutionC bankConn]. unfold Bank.PreExecutionC.
  destruct (Block.Hash_ b) as [b1 key]. destruct (Bank.preExecuteC _ _ _ _) as [[[ins outs] datas]| |]; [|done..].
  intros [= _ <- _]. by right.
Qed.

(** ** Key ranges *)

Definition shardTree (si : ShardInfo.t) (shard : string) : go RangeTree.t :=
  RangeTree.NewRangeTreeFromString (default "" (ShardInfo.KeyRangeMap si !! shard)).

Definition addShard (si : ShardInfo.t) (x : RangeTree.t * gmap string RangeTree.t) (shard : string) :
    go (RangeTree.t * gmap string RangeTree.t) :=
  let! t := shardTree si shard in
  let! keyRangeTree := RangeTree.Add x.1 t in
  Ok (keyRangeTree, <[shard := t]> x.2).

(** [order] is the order in which the loop visits the related shards. *)
Definition createKeyRangeTree (cfg : NodeConfig) (si : ShardInfo.t) (order : list string) :
    go (RangeTree.t * gmap string RangeTree.t) :=
  let! keyRangeTree := shardTree si (ChainID cfg) in
  if IsI cfg then Ok (keyRangeTree, ∅)
  else
    let! own := shardTree si (ChainID cfg) in
    go_foldl (addShard si) (keyRangeTree, {[ChainID cfg := own]}) order.

Definition createABCI (cfg : NodeConfig) (si : ShardInfo.t) (order : list string) (db : Database) : go Bank.Application :=
  let! '(keyRangeTree, relatedKeyRangeForest) := createKeyRangeTree cfg si order in
  if bool_decide (ABCIApp cfg = "minibank")
  then Ok (Bank.NewApplication db (ChainID cfg) (IsI cfg) (Some keyRangeTree) relatedKeyRangeForest)
  else Panic.

(** The mempool and the cross-shard mempool. *)
Definition createMempool (cfg : NodeConfig) : Mempool.t * option Mempool.t :=
  (Mempool.NewMempool false, if IsI cfg then None else Some (Mempool.NewMempool true)).

(** ** What a node accepts *)

(** A key of the ranges of one of the shards. *)
Definition ownedBy (si : ShardInfo.t) (shards : list string) (key : string) : bool :=
  existsb (fun shard => match shardTree si shard with Ok t => RangeTree.Search t key | _ => false end) shards.

(** The keys of a transaction that can be decoded. *)
Definition txKeys (tx : bytes) : option (list string) :=
  match BytesToUint32 (take 4 tx) with
  | Ok ty =>
      if ty =? TxTransfer then t ← (Unmarshal (drop 4 tx) : option pbTransferTx); Some (From t ++ To t)
      else if ty =? TxInsert then t ← (Unmarshal (drop 4 tx) : option pbInsertTx); Some [Account t]
      else None
  | _ => None
  end.

Lemma NewRangeTreeFromString_ok s t : RangeTree.NewRangeTreeFromString s = Ok t -> RangeTree.ok t.
Proof.
  unfold RangeTree.NewRangeTreeFromString. intros (l & _ & E)%gbind_Ok. revert E.
  apply (go_foldl_invariant _ RangeTree.ok); [|apply RangeTree.NewRangeTree_ok].
  intros t1 pair t2 _ O E. destruct pair as [|a [|b pair]]; [done..|].
  destruct (RangeTree.AddRange_makes t1 a b O) as (t' & E' & O' & _). rewrite E in E'. by injection E' as <-.
Qed.

Lemma createKeyRangeTree_searches cfg si order tree forest : createKeyRangeTree cfg si order = Ok (tree, forest) ->
  (forall key, RangeTree.Search tree key = ownedBy si (if IsI cfg then [ChainID cfg] else ChainID cfg :: order) key) /\
  (IsI cfg = false -> ChainID cfg ∉ order -> exists own, forest !! ChainID cfg = Some own /\
     forall key, RangeTree.Search own key = ownedBy si [ChainID cfg] key).
Proof.
  unfold createKeyRangeTree. intros E. apply gbind_Ok in E as (t0 & E0 & E).
  assert (forall key, ownedBy si [ChainID cfg] key = RangeTree.Search t0 key) as Hown.
  { intros key. cbn. by rewrite E0, orb_false_r. }
  destruct (IsI cfg); [injection E as <- <-; split; [done|done]|]. rewrite E0 in E. cbn [gbind] in E.
  assert (forall order x x' seen, RangeTree.ok x.1 -> (forall key, RangeTree.Search x.1 key = ownedBy si seen key) ->
    go_foldl (addShard si) x order = Ok x' ->
    (forall key, RangeTree.Search x'.1 key = ownedBy si (seen ++ order) key) /\
    (forall shard, shard ∉ order -> x'.2 !! shard = x.2 !! shard)) as Hgen.
  { clear. induction order as [|shard order IH]; intros x x' seen O Hx; cbn [go_foldl].
    - intros [= <-]. by rewrite app_nil_r.
    - intros (x1 & E1 & E)%gbind_Ok. unfold addShard in E1. apply gbind_Ok in E1 as (t & Et & E1).
      apply gbind_Ok in E1 as (tree & E1 & [= <-]).
      pose proof (NewRangeTreeFromString_ok _ _ Et) as Ot.
      destruct (RangeTree.Add_makes x.1 t O Ot) as (tree' & E2 & O' & Hh). rewrite E1 in E2. injection E2 as <-.
      destruct (IH (tree, <[shard := t]> x.2) x' (seen ++ [shard]) O') as [Hs1 Hs2]; [|exact E|].
      + intros key. cbn [fst]. apply eq_true_iff_eq. rewrite RangeTree.Search_holds, Hh by done.
        rewrite <- !RangeTree.Search_holds, Hx by done. unfold ownedBy. rewrite existsb_app, orb_true_iff. cbn.
        by rewrite Et, orb_false_r.
      + rewrite <- app_assoc in Hs1. split; [exact Hs1|]. intros sh [Hne Hn]%not_elem_of_cons.
        rewrite Hs2 by done. by apply lookup_insert_ne. }
  destruct (Hgen order (t0, {[ChainID cfg := t0]}) (tree, forest) [ChainID cfg] (NewRangeTreeFromString_ok _ _ E0) ltac:(intros; by rewrite Hown) E) as [Hs1 Hs2].
  split; [exact Hs1|]. intros _ Hn. exists t0. cbn [snd] in Hs2. rewrite Hs2 by done.
  split; [by rewrite lookup_singleton_eq|]. intros key. by rewrite Hown.
Qed.

Lemma allInRange_forallb tree keys :
  Bank.allInRange (Some tree) keys = Ok (forallb (RangeTree.Search tree) keys).
Proof.
  induction keys as [|key keys IH]; cbn; [done|]. by destruct (RangeTree.Search tree key).
Qed.

(** The tree that a transaction is checked against. *)
Lemma ValidateTx_tree (app : Bank.Application) tx cross tree :
  (if Bank.IsI app || cross then Bank.KeyRangeTree app else Bank.relatedIKeyRangeTree app !! Bank.myChainID app) = Some tree ->
  Bank.IsI app && cross = false ->
  Bank.ValidateTx app tx cross =
    Ok (match txKeys tx with Some keys => forallb (RangeTree.Search tree) keys | None => false end).
Proof.
  intros Ht Hc. unfold Bank.ValidateTx, txKeys, BytesToUint32, leUint. rewrite Hc, Ht, length_take.
  destruct (Nat.ltb_spec (length tx) 4) as [Hl|Hl].
  { destruct (Nat.ltb_spec (4 `min` length tx) 4); [done|lia]. }
  destruct (Nat.ltb_spec (4 `min` length tx) 4); [lia|]. cbn [gbind].
  destruct (_ =? TxTransfer).
  - destruct (Unmarshal (drop 4 tx)) as [t|]; cbn; [|done]. rewrite !allInRange_forallb, forallb_app. cbn.
    by destruct (forallb _ (From t)).
  - destruct (_ =? TxInsert); [|done]. destruct (Unmarshal (drop 4 tx)) as [t|]; cbn; [|done]. by rewrite andb_true_r.
Qed.

Lemma ValidateTx_owned cfg si order db app tx cross
  (Hn : ChainID cfg ∉ order) (Happ : createABCI cfg si order db = Ok app) :
  Bank.ValidateTx app tx cross =
    Ok (negb (IsI cfg && cross) &&
        match txKeys tx with
        | Some keys => forallb (ownedBy si (if cross then ChainID cfg :: order else [ChainID cfg])) keys
        | None => false
        end).
Proof.
  unfold createABCI in Happ. apply gbind_Ok in Happ as ([tree forest] & E & Happ).
  destruct (bool_decide _); [|done]. injection Happ as <-.
  destruct (createKeyRangeTree_searches _ _ _ _ _ E) as [Hs1 Hs2].
  assert (forall t keys f, (forall key, RangeTree.Search t key = f key) -> forallb (RangeTree.Search t) keys = forallb f keys) as Hext.
  { intros t keys f Hf. induction keys; cbn; [done|]. by rewrite Hf, IHkeys. }
  destruct (IsI cfg && cross) eqn:Ec; cbn [negb andb].
  { apply andb_true_iff in Ec as [Ei ->]. unfold Bank.ValidateTx, Bank.NewApplication.
    cbn [Bank.IsI]. rewrite Ei. by destruct (length tx <? 4)%nat. }
  destruct (IsI cfg) eqn:Ei; cbn in Ec; [subst cross|destruct cross].
  - rewrite (ValidateTx_tree _ tx false tree); [|by rewrite ?Ei|done].
    destruct (txKeys tx); [|done]. by rewrite (Hext _ _ _ Hs1).
  - rewrite (ValidateTx_tree _ tx true tree); [|done|by rewrite ?Ei].
    destruct (txKeys tx); [|done]. by rewrite (Hext _ _ _ Hs1).
  - destruct (Hs2 eq_refl Hn) as (own & Hown & Hs).
    rewrite (ValidateTx_tree _ tx false own); [|by rewrite ?Ei|done].
    destruct (txKeys tx); [|done]. by rewrite (Hext _ _ _ Hs).
Qed.

(** The application of a node accepts exactly the transactions that can be
    decoded and whose keys are all of the shard: an inner transaction those of
    its own ranges, a cross-shard transaction of a C shard those of its own
    ranges and of its related shards; an I shard accepts no cross-shard
    transaction. Checking never panics. *)
Theorem createABCI_validates cfg si order db app tx cross
  (Hn : ChainID cfg ∉ order) (Happ : createABCI cfg si order db = Ok app) :
  Bank.ValidateTx app tx cross =
    Ok (negb (IsI cfg && cross) &&
        match txKeys tx with
        | Some keys => forallb (ownedBy si (if cross then ChainID cfg :: order else [ChainID cfg])) keys
        | None => false
        end).
Proof. by apply (ValidateTx_owned cfg si order db app tx cross). Qed.

(** Whatever transactions are offered to a mempool of a node and whatever
    blocks are committed, the transactions it reaps for the next block can be
    decoded, and their keys are all of the shard, or for the cross-shard pool
    of the shard and its related shards. *)
Theorem reaped_owned cfg si order db app cross ops pool
  (Hn : ChainID cfg ∉ order) (Happ : createABCI cfg si order db = Ok app)
  (Hpool : Mempool.poolAfter (Bank.ValidateTx app) cross [] ops = Some pool) (Hops : zlen ops <= CList.MaxLength) :
  exists m, Mempool.run (Bank.ValidateTx app) (Mempool.NewMempool cross) ops = Ok m /\
    forall maxTxs out n err, Mempool.ReapTx m maxTxs = Ok (out, n, err) ->
      n = zlen out /\ Forall (fun tx => exists keys, txKeys tx = Some keys /\
        Forall (fun key => ownedBy si (if cross then ChainID cfg :: order else [ChainID cfg]) key = true) keys) out.
Proof.
  destruct (Mempool.run_pools (Bank.ValidateTx app) cross ops pool Hpool Hops) as (m & k & E & Hm).
  exists m. split; [done|]. intros maxTxs out n err Er.
  rewrite (Mempool.ReapTx_pools m cross pool k maxTxs Hm) in Er. destruct (maxTxs <? 0); [done|].
  injection Er as <- <- _. split; [done|]. apply Forall_take.
  assert (forall ops pool0 pool, Forall (fun tx => Bank.ValidateTx app tx cross = Ok true) pool0 ->
    Mempool.poolAfter (Bank.ValidateTx app) cross pool0 ops = Some pool ->
    Forall (fun tx => Bank.ValidateTx app tx cross = Ok true) pool) as Hgen.
  { clear. induction ops as [|o ops IH]; intros pool0 pool Hall; cbn; [by intros [= <-]|].
    destruct (Mempool.pool1 _ _ _ _) as [pool1|] eqn:E1; [|done]. apply IH. clear IH.
    assert (forall gone, Forall (fun tx => Bank.ValidateTx app tx cross = Ok true) (Mempool.without gone pool0)) as Hw.
    { intros gone. apply Forall_forall. intros tx [Hin _]%list_elem_of_In%List.filter_In.
      rewrite Forall_forall in Hall. by apply Hall, list_elem_of_In. }
    destruct o as [tx|l st]; cbn in E1.
    - destruct (Bank.ValidateTx app tx cross) as [[]| |] eqn:Ev; [|by injection E1 as <-|done..].
      destruct (bool_decide _); [done|]. injection E1 as <-. apply Forall_app. by split; [|apply Forall_singleton].
    - destruct l; [by injection E1 as <-|]. destruct cross; [|injection E1 as <-; apply Hw].
      destruct (BV.NewBitArrayFromByte st); [|done..]. injection E1 as <-. apply Hw. }
  eapply Forall_impl; [apply (Hgen ops [] pool); [constructor|done]|]. intros tx Hv. cbv beta in Hv.
  rewrite (ValidateTx_owned cfg si order db app tx cross Hn Happ) in Hv. injection Hv as Hv.
  apply andb_true_iff in Hv as [_ Hv]. destruct (txKeys tx) as [keys|]; [|done]. exists keys. split; [done|].
  apply Forall_forall. intros key Hin%list_elem_of_In. rewrite forallb_forall in Hv. by apply Hv.
Qed.
End node.

(** ** A C shard with two I shards *)

Module NodeDemo.
Import DemoHash Demo StoreDemo BankTxDemo BankDemo.
Definition cfg : NodeConfig := mkNodeConfig "C1" false "minibank".
Definition shards : ShardInfo.t :=
  ShardInfo.mk ∅ {["I1" := true; "I2" := true]} ∅ ∅ BLOCKTYPE_C
    {["C1" := "[a,b]"; "I1" := "[c,d]+[m,n]"; "I2" := "[e,f]"]}.
Definition order : list string := ["I2"; "I1"].
Definition noApp : Bank.Application := application.
Definition app : Bank.Application := valueOf noApp (createABCI cfg shards order (∅ : gmap bytes bytes)).
Lemma app_Ok : createABCI cfg shards order (∅ : gmap bytes bytes) = Ok app.
Proof. unfold app. apply valueOf_Ok. vm_compute. reflexivity. Qed.
Lemma not_in_order : ChainID cfg ∉ order.
Proof. apply (bool_decide_unpack _). vm_compute. exact I. Qed.

Lemma createABCI_validates_witness :
  Bank.ValidateTx app (payBytes "alice" "mike" 5) true = Ok true /\
  Bank.ValidateTx app (payBytes "alice" "mike" 5) false = Ok false /\
  Bank.ValidateTx app (payBytes "alice" "zoe" 5) true = Ok false.
Proof.
  split; [|split]; refine (eq_trans (createABCI_validates cfg shards order _ app _ _ not_in_order app_Ok) _);
    vm_compute; reflexivity.
Defined.

Definition ops : list Mempool.op :=
  [Mempool.OpAdd (payBytes "alice" "mike" 5); Mempool.OpAdd (payBytes "alice" "zoe" 5); Mempool.OpAdd (payBytes "eve" "cecil" 1)].
Definition pool : Txs.t := [payBytes "alice" "mike" 5; payBytes "eve" "cecil" 1].
Lemma pool_after : Mempool.poolAfter (Bank.ValidateTx app) true [] ops = Some pool.
Proof. vm_compute. reflexivity. Qed.

Lemma reaped_owned_witness :
  exists m, Mempool.run (Bank.ValidateTx app) (Mempool.NewMempool true) ops = Ok m /\
    forall maxTxs out n err, Mempool.ReapTx m maxTxs = Ok (out, n, err) ->
      n = zlen out /\ Forall (fun tx => exists keys, txKeys tx = Some keys /\
        Forall (fun key => ownedBy shards ("C1" :: order) key = true) keys) out.
Proof.
  exact (reaped_owned cfg shards order _ app true ops pool not_in_order app_Ok pool_after ltac:(apply Z.leb_le; vm_compute; reflexivity)).
Defined.
End NodeDemo.
