(* ===== verification/Network.v ===== *)
(** * The network of a node: [utils/p2p]

    A [Sender] keeps one connection for an address and writes every message as a
    line; a [Receiver] reads the lines of a connection and hands each message to
    the reactor of its channel. The TCP stack ([Net]) and the JSON encoding of an
    envelope ([EnvelopJSON]) are interfaces. *)

From S2P Require Import Prelude BitVector Convert Wire Types Signer ShardInfo.
From stdpp Require Import pretty.
Local Open Scope Z_scope.

(** ** [p2p.go] and [message.go] *)

Definition ChannelIDConsensusState : Z := 33.
Definition ChannelIDMempool : Z := 49.
Definition ChannelIDCrossShardMempool : Z := 50.

Module Envelop.
(** A channel is a byte, a type a 32-bit word. *)
Record t := mk { Channel_id : Z; Message : bytes; MessageType : Z }.
Definition NewEnvelop (channel_id : Z) (message : bytes) (messageType : Z) : t := mk channel_id message messageType.
Record pbEnvelop := mkpb { pb_ChannelId : Z; pb_Message : bytes; pb_MessageType : Z }.
Definition ToProto (e : t) : pbEnvelop := mkpb (Channel_id e) (Message e) (MessageType e).
(** [byte(int8(..))] *)
Definition NewEnvelopFromProto (p : pbEnvelop) : t :=
  mk (wrap_u 8 (i8 (pb_ChannelId p))) (pb_Message p) (pb_MessageType p).
Definition NewEnvelopFromBytes `{Codec pbEnvelop} (bz : bytes) : option t := NewEnvelopFromProto <$> Unmarshal bz.

Definition wf (e : t) : Prop := in_u 8 (Channel_id e) /\ in_u 32 (MessageType e).

(** A channel above 127 passes through a negative [int8] and comes back. *)
Lemma FromProto_ToProto e : wf e -> NewEnvelopFromProto (ToProto e) = e.
Proof.
  intros [He _]. destruct e as [c m ty]. unfold NewEnvelopFromProto, ToProto, wf, in_u in *. cbn in *. f_equal.
  unfold wrap_u, wrap_s. rewrite Zminus_mod_idemp_l. replace (c + 2 ^ (8 - 1) - 2 ^ (8 - 1)) with c by lia.
  by apply Z.mod_small.
Qed.
End Envelop.

(** [encoding/json] on an envelope: compact, on one line, and read back. *)
Class EnvelopJSON := {
  jsonMarshal : Envelop.t -> bytes;
  jsonUnmarshal : bytes -> Envelop.t + goerr
}.
Class EnvelopJSONLaws `{EnvelopJSON} := {
  json_roundtrip e : Envelop.wf e -> jsonUnmarshal (jsonMarshal e) = inl e;
  json_line e : Byte.x0a ∉ jsonMarshal e;
  json_nonempty e : jsonMarshal e <> []
}.

Definition newline : byte := Byte.x0a.

(** ** [sender.go] *)

(** The [n]-th event of a sender: a connection attempt, setting a deadline, a
    write. A write that fails may have written the first bytes; an error is what
    made it stop early ([io.Writer]). *)
Class Net := {
  Conn : Type;
  dial : nat -> string -> Conn + goerr;
  setDeadline : nat -> Conn -> option goerr;
  write : nat -> Conn -> bytes -> nat * option goerr
}.
Class NetLaws `{Net} := {
  write_early n c line k err : line <> [] -> write n c line = (k, Some err) -> (k < length line)%nat
}.

Module Sender.
Section sender.
Context `{Net}.

(** [wire] is what was written, in order, and where. *)
Record t := mk {
  shardMap : gmap string (list Peer.t); connMap : gmap string Conn; MyIP : string;
  ticks : nat; wire : list (string * Conn * bytes) }.

Definition NewSender (ip : string) : t := mk ∅ ∅ ip 0 [].

Definition tick (s : t) : t := mk (shardMap s) (connMap s) (MyIP s) (S (ticks s)) (wire s).
Definition setConn (s : t) (addr : string) (c : Conn) : t :=
  mk (shardMap s) (<[addr := c]> (connMap s)) (MyIP s) (ticks s) (wire s).
Definition setPeers (s : t) (cid : string) (l : list Peer.t) : t :=
  mk (<[cid := l]> (shardMap s)) (connMap s) (MyIP s) (ticks s) (wire s).
Definition written (s : t) (addr : string) (c : Conn) (line : bytes) : t :=
  mk (shardMap s) (connMap s) (MyIP s) (S (ticks s)) (wire s ++ [(addr, c, line)]).

Definition peersOf (s : t) (cid : string) : list Peer.t := default [] (shardMap s !! cid).

(** The loop goes through the keys of the map of the peer's chains. *)
Definition addToShard (peer : Peer.t) (s : t) (cid : string) : t :=
  let l := peersOf s cid in
  if bool_decide (l = []) then setPeers s cid [peer]
  else if existsb (Peer.Equal peer) l then s
  else setPeers s cid (l ++ [peer]).
Definition chains (peer : Peer.t) : list string := map fst (map_to_list (Peer.Chain peer)).
Definition AddPeer (s : t) (peer : Peer.t) : t := fold_left (addToShard peer) (chains peer) s.

(** A connection that is made, with its deadline. *)
Definition connect (s : t) (addr : string) : go (t * option goerr) :=
  match dial (ticks s) addr with
  | inr err => Ok (tick s, Some err)
  | inl c => if setDeadline (ticks s) c then Panic else Ok (tick (setConn s addr c), None)
  end.

Fixpoint TcpDial (depth : nat) (s : t) (context : bytes) (addr : string) : go (t * option goerr) :=
  let! '(s, err) := match connMap s !! addr with Some _ => Ok (s, None) | None => connect s addr end in
  match err, connMap s !! addr with
  | Some err, _ => Ok (s, Some err)
  | None, None => Panic
  | None, Some conn =>
      let line := context ++ [newline] in
      match write (ticks s) conn line with
      | (_, None) => Ok (written s addr conn line, None)
      | (n, Some err) =>
          let s := written s addr conn (take n line) in
          match depth with
          | O => Ok (s, Some err)
          | S depth => TcpDial depth s context addr
          end
      end
  end.

Context `{EnvelopJSON}.

Definition Send (s : t) (peer : Peer.t) (channel_id : Z) (message : bytes) (messageType : Z) : go (t * option goerr) :=
  if bool_decide (MyIP s = Peer.IP peer) then Ok (s, None)
  else TcpDial 5 s (jsonMarshal (Envelop.mk channel_id message messageType)) (Peer.IP peer).

(** [SendToShard] starts a go routine for each peer: [order] is the order in
    which they run. *)
Definition SendToShard (s : t) (shardID : string) (order : list Peer.t -> list Peer.t) (channel_id : Z) (message : bytes)
    (messageType : Z) : go t :=
  go_foldl (fun s peer => let! '(s, _) := Send s peer channel_id message messageType in Ok s) s (order (peersOf s shardID)).

(** The loops of [Start] go through the shards in [order]; the errors are joined
    by newlines. *)
Definition startPeer (x : t * list string) (p : Peer.t) : go (t * list string) :=
  let '(s, errs) := x in
  if bool_decide (Peer.IP p = MyIP s) || bool_decide (is_Some (connMap s !! Peer.IP p)) then Ok x
  else
    let! '(s, err) := connect s (Peer.IP p) in
    Ok (s, match err with Some (Errorf m) => errs ++ [m] | Some _ => errs ++ [EmptyString] | None => errs end).
Definition Start (s : t) (order : list string) : go (t * option goerr) :=
  let! '(s, errs) := go_foldl startPeer (s, []) (concat (map (peersOf s) order)) in
  Ok (s, if bool_decide (errs = []) then None else Some (Errorf (String.concat (String (Ascii.ascii_of_nat 10) EmptyString) errs))).

(** ** Whom a sender knows *)

Definition addOne (l : list Peer.t) (peer : Peer.t) : list Peer.t := if existsb (Peer.Equal peer) l then l else l ++ [peer].
Definition belongs (cid : string) (peer : Peer.t) : bool := bool_decide (is_Some (Peer.Chain peer !! cid)).

Lemma addToShard_peers peer s c cid :
  peersOf (addToShard peer s c) cid = if bool_decide (c = cid) then addOne (peersOf s cid) peer else peersOf s cid.
Proof.
  unfold addToShard, addOne. destruct (decide (c = cid)) as [->|Hc].
  - rewrite (bool_decide_true (cid = cid)) by done. case_bool_decide as Hl; [rewrite Hl|destruct (existsb _ _); [done|]];
      unfold peersOf, setPeers; cbn; by rewrite lookup_insert_eq.
  - rewrite (bool_decide_false (c = cid)) by done. unfold peersOf.
    destruct (bool_decide _); [|destruct (existsb _ _)]; cbn; by rewrite ?lookup_insert_ne.
Qed.
Lemma AddPeer_peers s peer cid :
  peersOf (AddPeer s peer) cid = if belongs cid peer then addOne (peersOf s cid) peer else peersOf s cid.
Proof.
  unfold AddPeer. assert (NoDup (chains peer)) as Hnd by apply NoDup_fst_map_to_list.
  assert (belongs cid peer = bool_decide (cid ∈ chains peer)) as ->.
  { apply bool_decide_ext. unfold chains. rewrite list_elem_of_fmap. split.
    - intros [b Hb]. exists (cid, b). split; [done|]. by apply elem_of_map_to_list.
    - intros ([c b] & -> & Hb%elem_of_map_to_list). by exists b. }
  revert s. induction Hnd as [|c l Hc _ IH]; intros s; cbn [fold_left]; [done|].
  rewrite IH, !addToShard_peers. destruct (decide (c = cid)) as [->|Hne].
  - rewrite (bool_decide_false (cid ∈ l)), !bool_decide_true by (done || constructor). done.
  - rewrite (bool_decide_false (c = cid)) by done.
    rewrite (bool_decide_ext (cid ∈ l) (cid ∈ c :: l)); [done|]. rewrite elem_of_cons. naive_solver.
Qed.
Lemma AddPeers_peers l s cid :
  peersOf (fold_left AddPeer l s) cid = fold_left addOne (List.filter (belongs cid) l) (peersOf s cid).
Proof.
  revert s. induction l as [|p l IH]; intros s; cbn [fold_left List.filter]; [done|]. rewrite IH, AddPeer_peers.
  by destruct (belongs cid p).
Qed.

Lemma addOne_spec l p : NoDup (map Peer.IP l) ->
  NoDup (map Peer.IP (addOne l p)) /\
  forall ip, ip ∈ map Peer.IP (addOne l p) <-> ip = Peer.IP p \/ ip ∈ map Peer.IP l.
Proof.
  intros Hnd. unfold addOne. destruct (existsb (Peer.Equal p) l) eqn:E.
  - split; [done|]. intros ip. split; [by right|]. intros [->|?]; [|done].
    apply existsb_exists in E as (q & Hq%list_elem_of_In & Ep%bool_decide_eq_true). rewrite Ep.
    apply list_elem_of_fmap. by exists q.
  - rewrite map_app. cbn. split.
    + apply NoDup_app. split; [done|]. split; [|apply NoDup_singleton].
      intros ip (q & -> & Hq)%list_elem_of_fmap Ei%list_elem_of_singleton. apply not_true_iff_false in E. apply E.
      apply existsb_exists. exists q. split; [by apply list_elem_of_In|]. by apply bool_decide_eq_true.
    + intros ip. rewrite elem_of_app, list_elem_of_singleton. tauto.
Qed.
Lemma addAll_spec ps : forall l, NoDup (map Peer.IP l) ->
  NoDup (map Peer.IP (fold_left addOne ps l)) /\
  forall ip, ip ∈ map Peer.IP (fold_left addOne ps l) <-> ip ∈ map Peer.IP ps \/ ip ∈ map Peer.IP l.
Proof.
  induction ps as [|p ps IH]; intros l Hnd; cbn [fold_left map].
  - split; [done|]. intros ip. split; [by right|]. by intros [?%elem_of_nil|].
  - destruct (addOne_spec l p Hnd) as [H1 H2]. destruct (IH _ H1) as [H3 H4]. split; [done|].
    intros ip. rewrite H4, H2, elem_of_cons. tauto.
Qed.
End sender.
End Sender.

(** [createP2p] of [melete/main/start.go]: the loops over the related shards have
    the orders [related] and [related2]. *)
Definition peersIn (si : ShardInfo.t) (shard : string) : list Peer.t := default [] (ShardInfo.PeerList si !! shard).
Definition createSender `{Net} (chainID : string) (localIP : string) (localPort : Z) (si : ShardInfo.t)
    (related related2 : list string) : Sender.t :=
  fold_left Sender.AddPeer (concat (map (peersIn si) (related ++ chainID :: related2)))
    (Sender.NewSender (localIP +:+ ":" +:+ pretty localPort)).

(** ** [receiver.go] *)

Module Receiver.
Section receiver.
Context {Reactor : Type} `{EnvelopJSON}.

(** A reactor can be nil. *)
Definition t : Type := gmap Z (option Reactor).
Definition NewReceiver : t := ∅.
Definition AddChennel (r : t) (reactor : option Reactor) (channel_id : Z) : t := <[channel_id := reactor]> r.

(** A call of the method [Receive] of a reactor. *)
Definition Call : Type := Reactor * Envelop.t.

(** [ReadBytes('\n')] of a stream that ends: the line with its newline, and
    true; at the end what is left, and false. *)
Fixpoint ReadBytes (data : bytes) : bytes * bytes * bool :=
  match data with
  | [] => ([], [], false)
  | b :: data =>
      if bool_decide (b = newline) then ([b], data, true)
      else let '(line, rest, ok) := ReadBytes data in (b :: line, rest, ok)
  end.

Definition trimNewline (bz : bytes) : bytes :=
  if bool_decide (last bz = Some newline) then removelast bz else bz.

(** What a line does: a call, or a line of the log. *)
Definition dispatch (r : t) (bz : bytes) : go (list Call) :=
  match jsonUnmarshal bz with
  | inr _ => Ok []
  | inl e =>
      match r !! Envelop.Channel_id e with
      | Some (Some reactor) => Ok [(reactor, e)]
      | Some None => Panic
      | None => Ok []
      end
  end.

(** The loop for at most [turns] turns over a stream that ends with [data]: the
    calls it made, and whether it returned. Nothing cancels the context
    ([context.Background]); the end of the stream, by EOF or by an error, returns,
    but only after a line that is not empty. *)
Fixpoint handleConnection (turns : nat) (r : t) (data : bytes) : go (list Call * bool) :=
  match turns with
  | O => Ok ([], false)
  | S turns =>
      let '(bz, data, ok) := ReadBytes data in
      if bool_decide (bz = []) then handleConnection turns r data
      else
        let bz := trimNewline bz in
        if ok then
          let! calls := dispatch r bz in
          let! '(more, returned) := handleConnection turns r data in
          Ok (calls ++ more, returned)
        else Ok ([], true)
  end.

(** ** What is read *)



Context `{!EnvelopJSONLaws}.


Definition lineOf (e : Envelop.t) : bytes := jsonMarshal e ++ [newline].





End receiver.
Arguments t : clear implicits.
End Receiver.

(** ** From a sender to a receiver *)

Module Delivery.
Import Sender Receiver.
Section delivery.
Context `{Net, EnvelopJSON}.

(** What was written to an address, and the connections it was written on. *)
Definition toAddr (addr : string) (x : string * Conn * bytes) : bool := bool_decide (x.1.1 = addr).
Definition chunks (s : Sender.t) (addr : string) : list bytes := map snd (List.filter (toAddr addr) (wire s)).
Definition stream (s : Sender.t) (addr : string) : bytes := concat (chunks s addr).





Context `{!NetLaws}.



(** A message for a peer. *)
Definition sendAll (s : Sender.t) (msgs : list (Peer.t * Envelop.t)) : go (Sender.t * list (option goerr)) :=
  go_foldl (fun '(s, errs) '(peer, e) =>
    let! '(s, err) := Send s peer (Envelop.Channel_id e) (Envelop.Message e) (Envelop.MessageType e) in
    Ok (s, errs ++ [err])) (s, []) msgs.



Context `{!EnvelopJSONLaws}.


Context {Reactor : Type}.


(** After a node made its sender, the peers that it sends to in a shard are
    the peers that the shard information lists for its own shard, the related
    shards and theirs, and that belong to the shard, one for every address. *)
Theorem createSender_peers chainID localIP localPort si related related2 cid :
  let s := createSender chainID localIP localPort si related related2 in
  NoDup (map Peer.IP (peersOf s cid)) /\
  forall ip, ip ∈ map Peer.IP (peersOf s cid) <->
    exists shard peer, shard ∈ related ++ chainID :: related2 /\ peer ∈ peersIn si shard /\ Peer.IP peer = ip /\
      is_Some (Peer.Chain peer !! cid).
Proof.
  cbv zeta. unfold createSender. rewrite AddPeers_peers.
  match goal with |- context [fold_left addOne ?ps ?l] => destruct (addAll_spec ps l) as [Hnd Hin] end; [constructor|].
  split; [done|]. intros ip. rewrite Hin, list_elem_of_fmap. split.
  - intros [(p & -> & [Hp Hb]%list_elem_of_In%List.filter_In)|?%elem_of_nil]; [|done].
    apply in_concat in Hp as (ps & (shard & <- & Hs)%in_map_iff & Hp). exists shard, p.
    split_and!; [by apply list_elem_of_In|by apply list_elem_of_In|done|]. by apply bool_decide_eq_true in Hb.
  - intros (shard & p & Hs%list_elem_of_In & Hp%list_elem_of_In & <- & Hb). left. exists p. split; [done|].
    apply list_elem_of_In, List.filter_In. split; [|by apply bool_decide_eq_true].
    apply in_concat. exists (peersIn si shard). split; [|done]. apply in_map_iff. by exists shard.
Qed.
End delivery.
End Delivery.

(** The reactors of a node ([InitNode] of [melete/main/start.go]): an I shard has
    no cross-shard mempool, and registers nil. *)
Definition nodeReceiver {Reactor} (consensus mempool : Reactor) (cross_shard_mempool : option Reactor) : Receiver.t Reactor :=
  let r := Receiver.AddChennel Receiver.NewReceiver (Some consensus) ChannelIDConsensusState in
  let r := Receiver.AddChennel r (Some mempool) ChannelIDMempool in
  Receiver.AddChennel r cross_shard_mempool ChannelIDCrossShardMempool.

(** ** A concrete network *)

Module NetworkDemo.
(** An envelope is written with two letters for a byte. *)
Definition letters (b : byte) : bytes := [byte_of (97 + bval b / 16); byte_of (97 + bval b mod 16)].
Fixpoint unletters (l : bytes) : bytes :=
  match l with a :: b :: l => byte_of ((bval a - 97) * 16 + (bval b - 97)) :: unletters l | _ => [] end.
Lemma unletters_letters l : unletters (concat (map letters l)) = l.
Proof.
  induction l as [|b l IH]; cbn [map concat letters app unletters]; [done|]. rewrite IH. f_equal.
  pose proof (bval_range b). pose proof (Z.div_mod (bval b) 16 ltac:(lia)).
  pose proof (Z.mod_pos_bound (bval b) 16 ltac:(lia)).
  assert (0 <= bval b / 16 < 16) by (split; [apply Z.div_pos; lia|apply Z.div_lt_upper_bound; lia]).
  rewrite !bval_byte_of, !Z.mod_small by lia. rewrite <- (byte_of_bval b) at 3. f_equal. lia.
Qed.
Lemma letters_line b : newline ∉ letters b.
Proof.
  pose proof (bval_range b). pose proof (Z.mod_pos_bound (bval b) 16 ltac:(lia)).
  assert (0 <= bval b / 16 < 16) by (split; [apply Z.div_pos; lia|apply Z.div_lt_upper_bound; lia]).
  assert (forall z, 0 <= z < 16 -> newline <> byte_of (97 + z)) as Hn.
  { intros z Hz E. apply (f_equal bval) in E. rewrite bval_byte_of, Z.mod_small in E by lia. change (bval newline) with 10 in E. lia. }
  unfold letters. rewrite !not_elem_of_cons. split_and!; [by apply Hn..|by apply not_elem_of_nil].
Qed.

#[export] Instance demoJSON : EnvelopJSON :=
  {| jsonMarshal e := Byte.x7b :: concat (map letters (byte_of (Envelop.Channel_id e) :: Uint32ToBytes (Envelop.MessageType e) ++ Envelop.Message e));
     jsonUnmarshal bz :=
       match bz with
       | Byte.x7b :: l =>
           match unletters l with
           | c :: rest =>
               match BytesToUint32 rest with
               | Ok ty => inl (Envelop.mk (bval c) (drop 4 rest) ty)
               | _ => inr (Errorf "unexpected end of JSON input")
               end
           | [] => inr (Errorf "unexpected end of JSON input")
           end
       | _ => inr (Errorf "invalid character")
       end |}.
#[export] Instance demoJSON_laws : EnvelopJSONLaws.
Proof.
  split.
  - intros [c m ty] [Hc Ht]. cbn [jsonUnmarshal jsonMarshal demoJSON]. rewrite unletters_letters.
    cbn [Envelop.Channel_id Envelop.MessageType Envelop.Message] in *. cbv beta iota.
    rewrite BytesToUint32_app by done. rewrite bval_byte_of, Z.mod_small by (unfold in_u in Hc; lia).
    reflexivity.
  - intros e. cbn [jsonMarshal demoJSON]. apply not_elem_of_cons. split; [done|].
    intros Hin%list_elem_of_In%in_concat. destruct Hin as (x & (b & <- & _)%in_map_iff & Hin).
    by apply (letters_line b), list_elem_of_In.
  - done.
Qed.

(** Every address answers; the writes in [failing] fail after [partial] bytes. *)
Definition demoNet (failing : list nat) (partial : nat) : Net :=
  {| Conn := string;
     dial n addr := inl addr;
     setDeadline n c := None;
     write n c line := if bool_decide (n ∈ failing) then (min partial (pred (length line)), Some (Errorf "i/o timeout")) else (length line, None) |}.
#[export] Instance demoNet_laws failing partial : NetLaws (H := demoNet failing partial).
Proof.
  split. intros n c line k err Hl. cbn. case_bool_decide; [|done]. intros [= <- _]. destruct line; [done|]. cbn. lia.
Qed.
Definition peer (ip chain : string) : Peer.t := Peer.mk ip {[chain := true]} "key" 1.
Definition envelope (c : Z) (m : string) : Envelop.t := Envelop.mk c (of_str m) 4.
Definition msgs : list (Peer.t * Envelop.t) :=
  [(peer "b" "I1", envelope 33 "vote"); (peer "c" "I1", envelope 33 "vote"); (peer "a" "I1", envelope 33 "self");
   (peer "b" "I1", envelope 49 "tx"); (peer "b" "I1", envelope 7 "unknown")].
(** The reactors are named by numbers. *)
Definition reactors : Receiver.t nat := nodeReceiver 1%nat 2%nat (Some 3%nat).


(** A write that fails after one byte spoils the line that repeats it: no error is
    reported and the message is lost. *)
Example partial_write_loses :
  (let! '(s, errs) := Delivery.sendAll (H := demoNet [1%nat] 1) (Sender.NewSender "a") [(peer "b" "I1", envelope 33 "vote")] in
   let! '(calls, _) := Receiver.handleConnection 9 reactors (Delivery.stream s "b") in Ok (errs, calls)) = Ok ([None], []).
Proof. vm_compute. reflexivity. Qed.

(** A message for the cross-shard mempool stops a node of an I shard. *)
Example nil_reactor_panics :
  Receiver.handleConnection 1 (nodeReceiver 1%nat 2%nat None) (Receiver.lineOf (envelope 50 "tx")) = Panic.
Proof. vm_compute. reflexivity. Qed.

(** A connection that ends within a line ends the loop; one that ends after a
    line does not. *)
Example end_within_line :
  Receiver.handleConnection 9 reactors (Receiver.lineOf (envelope 33 "vote") ++ of_str "{") = Ok ([(1%nat, envelope 33 "vote")], true).
Proof. vm_compute. reflexivity. Qed.
End NetworkDemo.
