(* ===== verification/Importer.v ===== *)
(** * The load of a node: [melete/abci/minibank/importer.go]

    A node makes the transactions that it is measured with itself: transfers
    between random accounts of its shard, or, on a C shard, of all shards of its
    cross-shard blocks. [StartMempool] offers them one after the other to the
    node's pools and sends them to the other nodes of the shard.

    A random source is a state with draws ([Rand]). The rates at which
    transactions are offered are rounded products of floats, and are given as
    integers. *)

From Stdlib Require Import Ascii.
From S2P Require Import Prelude BitVector Convert Hash Wire Types Signer ShardInfo Store RangeTree MemDB BankTx Bank.
From S2P Require Import CList Mempool Consensus BankSpec Node Network.
From stdpp Require Import gmap pretty relations.
Local Open Scope Z_scope.

(** ** Random sources ([math/rand]) *)

Class Rand := { rng : Type; draw : rng -> Z -> Z * rng }.
Class RandLaws `{Rand} := { draw_range r n : 0 < n -> 0 <= (draw r n).1 < n }.

Definition Intn `{Rand} (r : rng) (n : Z) : go (Z * rng) := if n <=? 0 then Panic else Ok (draw r n).

(** ** Accounts *)

Abbreviation slen s := (Z.of_nat (String.length s)).

(** [strings.Repeat("0", count)] *)
Fixpoint zeros (n : nat) : string := match n with O => "" | S n => String "0"%char (zeros n) end.
Definition RepeatZero (count : Z) : go string := if count <? 0 then Panic else Ok (zeros (Z.to_nat count)).

Section generate.
Context `{Rand}.

(** One draw of [generateAccounts]: a prefix, and a number in 32 places. *)
Definition drawAccount (prefixes : list string) (n : Z) (r : rng) : go (string * rng) :=
  let! '(i, r) := Intn r (zlen prefixes) in
  let! prefix := idx prefixes i in
  let! '(j, r) := Intn r n in
  let num := j + 1 in
  let numStr := pretty num in
  let! pad := RepeatZero (32 - slen prefix - slen numStr) in
  let numStr := pad +:+ numStr in
  Ok (prefix +:+ numStr, r).

(** The inner loop draws again while the account was generated before. *)
Fixpoint redraw (fuel : nat) (prefixes : list string) (n : Z) (generated : gset string) (result : string) (r : rng) :
    go (string * rng) :=
  if bool_decide (result ∈ generated) then
    match fuel with
    | O => OutOfFuel
    | S fuel => let! '(result, r) := drawAccount prefixes n r in redraw fuel prefixes n generated result r
    end
  else Ok (result, r).

(** The outer loop: [k] accounts are missing, [results] are there. *)
Fixpoint accountsLoop (fuel : nat) (prefixes : list string) (n : Z) (k : nat) (generated : gset string)
    (results : list string) (r : rng) : go (list string * rng) :=
  match k with
  | O => Ok (results, r)
  | S k =>
      let! '(result, r) := drawAccount prefixes n r in
      let! '(result, r) := redraw fuel prefixes n generated result r in
      accountsLoop fuel prefixes n k ({[result]} ∪ generated) (results ++ [result]) r
  end.
Definition generateAccounts (fuel : nat) (prefixes : list string) (n k : Z) (r : rng) : go (list string * rng) :=
  if k <? 0 then Panic else accountsLoop fuel prefixes n (Z.to_nat k) ∅ [] r.
End generate.

(** ** The importer *)

Module Importor.
Section importor.
Context `{Rand, Net, EnvelopJSON, !Codec pbTransferTx}.

(** [rate], [rate1] and [rate2] are the integers that [StartMempool] computes
    from [commit_rate] and [cross_shard_rate]. *)
Record t := mk {
  mempool : option Mempool.t; cross_shard_mempool : option Mempool.t;
  transferSize : Z; mustLen : Z; accountNumPerShard : Z;
  txPool : list pbTransferTx; cross_shard_txPool : list pbTransferTx;
  rate : Z; rate1 : Z; rate2 : Z;
  isI : bool; MyRangeTree : option RangeTree.t; AllRelatedRangeTree : list RangeTree.t;
  p2pConn : option Sender.t; myChain : string }.

Definition NewImportor (mmp cmmp : option Mempool.t) (transferSize mustLen accountNumPerShard : Z)
    (rates : Z * Z * Z) (isI : bool) (myRangeTree : option RangeTree.t) (KeyRangeTree : list RangeTree.t)
    (p2pConn : option Sender.t) (chain : string) : t :=
  mk mmp cmmp transferSize mustLen accountNumPerShard [] [] rates.1.1 rates.1.2 rates.2 isI myRangeTree KeyRangeTree
    p2pConn chain.

Inductive Pool := Inner | Cross.
#[global] Instance Pool_eq_dec : EqDecision Pool.
Proof. solve_decision. Defined.
Definition isCross (p : Pool) : bool := match p with Inner => false | Cross => true end.

Definition poolOf (im : t) (p : Pool) : list pbTransferTx :=
  match p with Inner => txPool im | Cross => cross_shard_txPool im end.
Definition setPool (im : t) (p : Pool) (l : list pbTransferTx) : t :=
  mk (mempool im) (cross_shard_mempool im) (transferSize im) (mustLen im) (accountNumPerShard im)
    (match p with Inner => l | Cross => txPool im end) (match p with Inner => cross_shard_txPool im | Cross => l end)
    (rate im) (rate1 im) (rate2 im) (isI im) (MyRangeTree im) (AllRelatedRangeTree im) (p2pConn im) (myChain im).
Definition mempoolOf (im : t) (p : Pool) : option Mempool.t :=
  match p with Inner => mempool im | Cross => cross_shard_mempool im end.
Definition setMempool (im : t) (p : Pool) (m : option Mempool.t) : t :=
  mk (match p with Inner => m | Cross => mempool im end) (match p with Inner => cross_shard_mempool im | Cross => m end)
    (transferSize im) (mustLen im) (accountNumPerShard im) (txPool im) (cross_shard_txPool im)
    (rate im) (rate1 im) (rate2 im) (isI im) (MyRangeTree im) (AllRelatedRangeTree im) (p2pConn im) (myChain im).
Definition setConn (im : t) (c : option Sender.t) : t :=
  mk (mempool im) (cross_shard_mempool im) (transferSize im) (mustLen im) (accountNumPerShard im) (txPool im)
    (cross_shard_txPool im) (rate im) (rate1 im) (rate2 im) (isI im) (MyRangeTree im) (AllRelatedRangeTree im) c (myChain im).

(** ** Generation *)

(** The loops that fill a pool: [n] transactions are missing, the next is the
    [i]-th, made at the time [clock i]. Every amount is 1. *)
Fixpoint fill (fuel : nat) (im : t) (prefixes : list string) (clock : nat -> Time) (n i : nat) (r : rng) : go (list pbTransferTx) :=
  match n with
  | O => Ok []
  | S n =>
      let inputSize := Z.to_nat (Z.quot (transferSize im) 2) in
      let transferMoney := replicate (Z.to_nat (transferSize im)) 1 in
      let! '(accounts, r) := generateAccounts fuel prefixes (accountNumPerShard im) (transferSize im) r in
      let! tx := NewTransferTxMustLen (take inputSize accounts) (take inputSize transferMoney)
                   (drop inputSize accounts) (drop inputSize transferMoney) (mustLen im) (clock i) in
      let! rest := fill fuel im prefixes clock n (S i) r in
      Ok (tx :: rest)
  end.
(** The capacity of [transferMoney] and the length of the pool must not be
    negative. *)
Definition generate (fuel : nat) (im : t) (p : Pool) (prefixes : list string) (clock : nat -> Time) (n : Z) (r : rng) : go t :=
  if (n <? 0) || (transferSize im <? 0) then Panic
  else let! txs := fill fuel im prefixes clock (Z.to_nat n) 0 r in Ok (setPool im p txs).

(** The lower bounds of the node's ranges are the prefixes. *)
Definition RandomGenerateTx (fuel : nat) (im : t) (clock : nat -> Time) (n : Z) (r : rng) : go t :=
  let! tree := deref (MyRangeTree im) in
  generate fuel im Inner (map fst (RangeTree.Range tree)) clock n r.

(** Of every shard, the lower bound of the first range. *)
Definition RandomGenerateCrossShardTx (fuel : nat) (im : t) (clock : nat -> Time) (n : Z) (r : rng) : go t :=
  let! prefixes := go_mapM (fun tree => let! range := idx (RangeTree.Range tree) 0 in Ok (fst range)) (AllRelatedRangeTree im) in
  generate fuel im Cross prefixes clock n r.

(** ** Broadcast *)

Definition batch : Z := 1.

(** What a turn of a loop reads from outside for its [i]-th transaction: the
    clock, and the order in which the go routines of the sender run. *)
Record Outside := mkOutside { now : Time; peerOrder : list Peer.t -> list Peer.t }.

Definition setTime (tx : pbTransferTx) (time : Time) : pbTransferTx :=
  mkTransferTx (From tx) (To tx) (FromMoney tx) (ToMoney tx) (TBuffer tx) (Some (ThirdPartyProtoTime time)).
Definition channelOf (p : Pool) : Z := match p with Inner => ChannelIDMempool | Cross => ChannelIDCrossShardMempool end.

(** The application that validates a transaction for a mempool. *)
Context (ValidateTx : bytes -> bool -> go bool).

(** The errors of [AddTx] and [SendToShard] are dropped. *)
Definition offer (p : Pool) (im : t) (x : pbTransferTx * Outside) : go t :=
  let '(tx, out) := x in
  let! btx := TransferBytes (setTime tx (now out)) in
  let! m := deref (mempoolOf im p) in
  let! '(m, _) := Mempool.AddTx ValidateTx m btx in
  let im := setMempool im p (Some m) in
  match p2pConn im with
  | None => Ok im
  | Some s =>
      let! s := Sender.SendToShard s (myChain im) (peerOrder out) (channelOf p) btx TxTransfer in
      Ok (setConn im (Some s))
  end.

(** One turn of the loop over a pool; the loop ends with the pool. *)
Definition turn (im : t) (p : Pool) (outs : list Outside) : go t :=
  let pool := poolOf im p in
  let dst := if zlen pool <? batch then zlen pool else batch in
  let! im := go_foldl (offer p) im (combine (take (Z.to_nat dst) pool) outs) in
  Ok (setPool im p (drop (Z.to_nat dst) pool)).

(** The go routines that [StartMempool] starts, each a loop over one pool. *)
Definition StartMempool (im : t) : list Pool :=
  if isI im then
    if bool_decide (is_Some (mempool im)) && (rate im >? 0) then [Inner] else []
  else if bool_decide (is_Some (mempool im)) && bool_decide (is_Some (cross_shard_mempool im)) then
    (if rate1 im >? 0 then [Inner] else []) ++ (if rate2 im >? 0 then [Cross] else [])
  else [].

(** The loops run side by side: a schedule lists their turns. A pool that
    no loop was started for is not touched. *)
Definition run (im : t) (schedule : list (Pool * Outside)) : go t :=
  let loops := StartMempool im in
  go_foldl (fun im '(p, out) => if bool_decide (p ∈ loops) then turn im p [out] else Ok im) im schedule.
End importor.
End Importor.

(** ** The importer of a node ([InitNode] of [melete/main/start.go]) *)

Section start.
Context `{Rand, Net, EnvelopJSON, !Codec pbTransferTx}.

(** The constants of [start.go]; the numbers of transactions and the rates are
    computed with floats. *)
Definition transferSize : Z := 6.
Definition mustLen : Z := 512.
Definition accountNumTotal : Z := 1000000.

(** [forestOrder] is the order in which the trees of the shards are collected. *)
Definition createImportor (cfg : NodeConfig) (si : ShardInfo.t) (order forestOrder : list string) (rates : Z * Z * Z)
    (sender : option Sender.t) : go Importor.t :=
  let! '(keyRangeTree, rf) := createKeyRangeTree cfg si order in
  let '(mempool, cross_shard_mempool) := createMempool cfg in
  let shardNum := Z.of_nat (size (ShardInfo.PeerList si)) in
  if shardNum =? 0 then Panic
  else
    let '(my, related) := if IsI cfg then (Some keyRangeTree, [])
                          else (rf !! ChainID cfg, omap (fun shard => rf !! shard) forestOrder) in
    Ok (Importor.NewImportor (Some mempool) cross_shard_mempool transferSize mustLen (Z.quot accountNumTotal shardNum)
          rates (IsI cfg) my related sender (ChainID cfg)).

Definition generateAll (fuel : nat) (cfg : NodeConfig) (im : Importor.t) (clock : nat -> Time)
    (crossTxNum innerTxNum : Z) (crossSeed innerSeed : rng) : go Importor.t :=
  if IsI cfg then Importor.RandomGenerateTx fuel im clock innerTxNum innerSeed
  else
    let! im := Importor.RandomGenerateCrossShardTx fuel im clock crossTxNum crossSeed in
    Importor.RandomGenerateTx fuel im clock innerTxNum innerSeed.
End start.

(** ** Strings *)

Lemma slen_app s t : slen (s +:+ t) = slen s + slen t.
Proof.
  induction s as [|c s IH]; [done|]. change (String c s +:+ t) with (String c (s +:+ t)). cbn [String.length]. lia.
Qed.
Lemma slen_zeros n : slen (zeros n) = Z.of_nat n.
Proof. induction n as [|n IH]; cbn [zeros String.length]; lia. Qed.

Lemma str_le_append s t : str_le s (s +:+ t).
Proof.
  rewrite str_le_compare. induction s as [|c s IH]; [by destruct t|].
  change (String c s +:+ t) with (String c (s +:+ t)). cbn. unfold Ascii.compare. by rewrite N.compare_refl.
Qed.

(** What is put behind a lower bound stays below an upper bound that does not
    begin with it. *)
Lemma str_lt_append lo hi t : str_le lo hi -> String.prefix lo hi = false -> str_lt (lo +:+ t) hi.
Proof.
  rewrite str_lt_compare, str_le_compare. revert hi. induction lo as [|c lo IH]; intros [|d hi]; try done.
  change (String c lo +:+ t) with (String c (lo +:+ t)). cbn. destruct (Ascii.ascii_dec c d) as [->|Hne].
  - unfold Ascii.compare. rewrite !N.compare_refl. apply IH.
  - unfold Ascii.compare. intros Hle _. destruct (N.compare_spec (Ascii.N_of_ascii c) (Ascii.N_of_ascii d)) as [E|E|E]; [|done..].
    destruct Hne. apply (f_equal Ascii.ascii_of_N) in E. by rewrite !Ascii.ascii_N_embedding in E.
Qed.

(** ** What is generated *)

Definition account (prefix : string) (num : Z) : string :=
  prefix +:+ (zeros (Z.to_nat (32 - slen prefix - slen (pretty num : string))) +:+ pretty num).
Definition accounts (prefixes : list string) (n : Z) : list string :=
  prefixes ≫= fun prefix => (fun j => account prefix (j + 1)) <$> seqZ 0 n.

Lemma elem_of_accounts a prefixes n : a ∈ accounts prefixes n <->
  exists prefix j, prefix ∈ prefixes /\ 0 <= j < n /\ a = account prefix (j + 1).
Proof.
  unfold accounts. rewrite list_elem_of_bind. setoid_rewrite list_elem_of_fmap. setoid_rewrite elem_of_seqZ. split.
  - intros (prefix & (j & -> & ?) & ?). exists prefix, j. split_and!; [done|lia..|done].
  - intros (prefix & j & ? & ? & ->). exists prefix. split; [|done]. exists j. split; [done|lia].
Qed.

(** The prefixes leave room for the numbers, and there is something to draw. *)
Record fits (prefixes : list string) (n : Z) : Prop := {
  ft_some : prefixes <> [];
  ft_pos : 0 < n;
  ft_room prefix j : prefix ∈ prefixes -> 0 <= j < n -> slen prefix + slen (pretty (j + 1) : string) <= 32 }.

Section drawn.
Context `{RandLaws}.

Lemma drawAccount_Ok prefixes n r a r' : drawAccount prefixes n r = Ok (a, r') ->
  a ∈ accounts prefixes n /\ slen a = 32.
Proof.
  unfold drawAccount, Intn, RepeatZero. destruct (Z.leb_spec (zlen prefixes) 0) as [?|Hp]; [done|]. cbn [gbind].
  pose proof (draw_range r _ Hp) as Hi. destruct (draw r _) as [i r1]. cbn [fst] in Hi.
  destruct (idx_total prefixes i Hi) as (prefix & -> & Hpre). cbn [gbind].
  destruct (Z.leb_spec n 0) as [?|Hn]; [done|]. cbn [gbind].
  pose proof (draw_range r1 _ Hn) as Hj. destruct (draw r1 n) as [j r2]. cbn [fst] in Hj.
  destruct (Z.ltb_spec (32 - slen prefix - slen (pretty (j + 1) : string)) 0); [done|]. cbn [gbind].
  intros [= <- _]. split.
  - apply elem_of_accounts. exists prefix, j. split_and!; [by eapply list_elem_of_lookup_2|lia..|done].
  - rewrite !slen_app, slen_zeros. lia.
Qed.

Lemma drawAccount_total prefixes n r : fits prefixes n -> exists a r', drawAccount prefixes n r = Ok (a, r').
Proof.
  intros [Hs Hn Hroom]. unfold drawAccount, Intn, RepeatZero.
  assert (0 < zlen prefixes) as Hp by (destruct prefixes; cbn; [done|lia]).
  destruct (Z.leb_spec (zlen prefixes) 0); [lia|]. cbn [gbind].
  pose proof (draw_range r _ Hp) as Hi. destruct (draw r _) as [i r1]. cbn [fst] in Hi.
  destruct (idx_total prefixes i Hi) as (prefix & -> & Hpre). cbn [gbind].
  destruct (Z.leb_spec n 0); [lia|]. cbn [gbind].
  pose proof (draw_range r1 _ Hn) as Hj. destruct (draw r1 n) as [j r2]. cbn [fst] in Hj.
  specialize (Hroom prefix j ltac:(by eapply list_elem_of_lookup_2) Hj).
  destruct (Z.ltb_spec (32 - slen prefix - slen (pretty (j + 1) : string)) 0); [lia|]. cbn [gbind]. eauto.
Qed.

(** The accounts so far, and the map of them. *)
Record collected (prefixes : list string) (n : Z) (generated : gset string) (results : list string) : Prop := {
  cl_set : generated = list_to_set results;
  cl_nodup : NoDup results;
  cl_in : Forall (fun a => a ∈ accounts prefixes n /\ slen a = 32) results }.

Lemma redraw_Ok fuel prefixes n generated result r a r' :
  redraw fuel prefixes n generated result r = Ok (a, r') -> result ∈ accounts prefixes n /\ slen result = 32 ->
  a ∉ generated /\ a ∈ accounts prefixes n /\ slen a = 32.
Proof.
  revert result r. induction fuel as [|fuel IH]; intros result r; cbn [redraw]; case_bool_decide; try done.
  - by intros [= <- _].
  - intros E _. go_inv. destruct x as [b r1]. apply (IH b r1); [done|]. by eapply drawAccount_Ok.
  - by intros [= <- _].
Qed.

Lemma accountsLoop_Ok fuel prefixes n k generated results r out r' :
  accountsLoop fuel prefixes n k generated results r = Ok (out, r') -> collected prefixes n generated results ->
  length out = (length results + k)%nat /\ NoDup out /\ Forall (fun a => a ∈ accounts prefixes n /\ slen a = 32) out.
Proof.
  revert generated results r. induction k as [|k IH]; intros generated results r; cbn [accountsLoop].
  - intros [= <- _] []. split_and!; [lia|done..].
  - intros E [Hg Hd Hf]. go_inv. destruct x as [b r1]. go_inv. destruct x as [a r2].
    destruct (redraw_Ok _ _ _ _ _ _ _ _ E1 (drawAccount_Ok _ _ _ _ _ E0)) as (Hn & Ha).
    apply IH in E as (El & ? & ?).
    + rewrite length_app in El. cbn in El. split_and!; [lia|done..].
    + split.
      * rewrite Hg, list_to_set_app_L. cbn. set_solver.
      * apply NoDup_app. split_and!; [done| |apply NoDup_singleton]. subst generated. set_solver.
      * apply Forall_app. split; [done|]. by apply Forall_singleton.
Qed.

Lemma generateAccounts_Ok fuel prefixes n k r out r' : generateAccounts fuel prefixes n k r = Ok (out, r') ->
  zlen out = k /\ NoDup out /\ Forall (fun a => a ∈ accounts prefixes n /\ slen a = 32) out.
Proof.
  unfold generateAccounts. destruct (Z.ltb_spec k 0); [done|]. intros E.
  apply accountsLoop_Ok in E as (El & ? & ?); [|split; [done|constructor|constructor]].
  cbn in El. split_and!; [lia|done..].
Qed.

(** ** Termination *)

(** One draw after the other. *)
Definition drawn (prefixes : list string) (n : Z) (r r' : rng) : Prop := exists a, drawAccount prefixes n r = Ok (a, r').
(** A source that never stops to draw any of the accounts. *)
Definition fair (prefixes : list string) (n : Z) (r0 : rng) : Prop :=
  forall r a, rtc (drawn prefixes n) r0 r -> a ∈ accounts prefixes n ->
    exists r1 r2, rtc (drawn prefixes n) r r1 /\ drawAccount prefixes n r1 = Ok (a, r2).

Lemma fair_drawn prefixes n r r' : fair prefixes n r -> rtc (drawn prefixes n) r r' -> fair prefixes n r'.
Proof. intros F Hr r2 a Hr2. apply F. by etrans. Qed.

Lemma redraw_more fuel fuel' prefixes n generated result r x : (fuel <= fuel')%nat ->
  redraw fuel prefixes n generated result r = Ok x -> redraw fuel' prefixes n generated result r = Ok x.
Proof.
  revert fuel' result r. induction fuel as [|fuel IH]; intros [|fuel'] result r Hf; cbn [redraw];
    case_bool_decide; try done; try lia.
  intros E. go_inv. destruct x0 as [b r1]. rewrite E0. cbn [gbind]. apply IH; [lia|done].
Qed.

Lemma accountsLoop_more fuel fuel' prefixes n k generated results r x : (fuel <= fuel')%nat ->
  accountsLoop fuel prefixes n k generated results r = Ok x -> accountsLoop fuel' prefixes n k generated results r = Ok x.
Proof.
  intros Hf. revert generated results r. induction k as [|k IH]; intros generated results r; cbn [accountsLoop]; [done|].
  intros E. go_inv. destruct x0 as [b r1]. rewrite E0. cbn [gbind]. go_inv. destruct x0 as [a r2].
  rewrite (redraw_more _ _ _ _ _ _ _ _ Hf E1). cbn [gbind]. by apply IH.
Qed.

Lemma redraw_ends prefixes n generated result r a : fair prefixes n r -> a ∈ accounts prefixes n -> a ∉ generated ->
  exists fuel b r', redraw fuel prefixes n generated result r = Ok (b, r') /\ rtc (drawn prefixes n) r r'.
Proof.
  intros F Ha Hn. destruct (F r a (rtc_refl _ _) Ha) as (r1 & r2 & Hp & Ed). clear F. revert result.
  induction Hp as [r|r rm r1 (b & Eb) Hp IH]; intros result.
  - exists 1%nat. cbn [redraw]. case_bool_decide.
    + rewrite Ed. cbn [gbind]. rewrite bool_decide_false by done. exists a, r2. split; [done|].
      apply rtc_once. by exists a.
    + by exists result, r.
  - destruct (IH Ed b) as (fuel & c & r' & E & Hr). exists (S fuel). cbn [redraw]. case_bool_decide.
    + rewrite Eb. cbn [gbind]. exists c, r'. split; [done|]. eapply rtc_l; [|done]. by exists b.
    + by exists result, r.
Qed.

(** An account is missing as long as there are fewer than the set has. *)
Lemma missing (all : list string) (generated : gset string) : (size generated < size (list_to_set all : gset string))%nat ->
  exists a, a ∈ all /\ a ∉ generated.
Proof.
  intros Hs. destruct (decide (list_to_set all ∖ generated ≡ (∅ : gset string))) as [E|E].
  - assert ((list_to_set all : gset string) ⊆ generated) as Hsub%subseteq_size by set_solver. lia.
  - apply set_choose in E as [a Ha]. exists a. set_solver.
Qed.

Lemma accountsLoop_ends prefixes n k generated results r : fits prefixes n -> fair prefixes n r ->
  collected prefixes n generated results -> (length results + k <= size (list_to_set (accounts prefixes n) : gset string))%nat ->
  exists fuel out r', accountsLoop fuel prefixes n k generated results r = Ok (out, r') /\ rtc (drawn prefixes n) r r'.
Proof.
  intros Hfit. revert generated results r. induction k as [|k IH]; intros generated results r F C Hs; cbn [accountsLoop].
  { by exists 0%nat, results, r. }
  destruct (drawAccount_total prefixes n r Hfit) as (b & r1 & Eb). rewrite Eb. cbn [gbind].
  assert (fair prefixes n r1) as F1 by (eapply fair_drawn; [done|apply rtc_once; by exists b]).
  destruct C as [Hg Hd Hf].
  destruct (missing (accounts prefixes n) generated) as (a & Ha & Hna).
  { rewrite Hg, size_list_to_set by done. lia. }
  destruct (redraw_ends prefixes n generated b r1 a F1 Ha Hna) as (f1 & c & r2 & Ec & Hr2).
  destruct (redraw_Ok _ _ _ _ _ _ _ _ Ec (drawAccount_Ok _ _ _ _ _ Eb)) as (Hnc & Hc).
  destruct (IH ({[c]} ∪ generated) (results ++ [c]) r2) as (f2 & out & r3 & Eo & Hr3).
  - by eapply fair_drawn.
  - split.
    + rewrite Hg, list_to_set_app_L. cbn. set_solver.
    + apply NoDup_app. split_and!; [done| |apply NoDup_singleton]. subst generated. set_solver.
    + apply Forall_app. split; [done|]. by apply Forall_singleton.
  - rewrite length_app. cbn. lia.
  - exists (max f1 f2), out, r3. rewrite (redraw_more f1 (max f1 f2) _ _ _ _ _ _ ltac:(lia) Ec). cbn [gbind].
    rewrite (accountsLoop_more f2 (max f1 f2) _ _ _ _ _ _ _ ltac:(lia) Eo). split; [done|].
    eapply rtc_l; [by exists b|]. by etrans.
Qed.

Lemma redraw_no_panic fuel prefixes n generated result r : fits prefixes n -> redraw fuel prefixes n generated result r <> Panic.
Proof.
  intros Hfit. revert result r. induction fuel as [|fuel IH]; intros result r; cbn [redraw]; case_bool_decide; try done.
  destruct (drawAccount_total prefixes n r Hfit) as (b & r1 & ->). apply IH.
Qed.
Lemma accountsLoop_no_panic fuel prefixes n k generated results r : fits prefixes n ->
  accountsLoop fuel prefixes n k generated results r <> Panic.
Proof.
  intros Hfit. revert generated results r. induction k as [|k IH]; intros generated results r; cbn [accountsLoop]; [done|].
  destruct (drawAccount_total prefixes n r Hfit) as (b & r1 & ->). cbn [gbind].
  pose proof (redraw_no_panic fuel prefixes n generated b r1 Hfit). destruct (redraw _ _ _ _ _ _) as [[c r2]| |]; [apply IH|done..].
Qed.

(** The loop that draws accounts ends, whatever a source draws that never stops to
    draw any of them, when there are as many accounts as are wanted; when there
    are fewer it never ends. *)
Theorem generateAccounts_ends prefixes n k r (Hfit : fits prefixes n) (Hk : 0 <= k) (F : fair prefixes n r) :
  if k <=? Z.of_nat (size (list_to_set (accounts prefixes n) : gset string))
  then exists fuel out r', generateAccounts fuel prefixes n k r = Ok (out, r')
  else forall fuel, generateAccounts fuel prefixes n k r = OutOfFuel.
Proof.
  destruct (Z.leb_spec k (Z.of_nat (size (list_to_set (accounts prefixes n) : gset string)))) as [Hs|Hs].
  - destruct (accountsLoop_ends prefixes n (Z.to_nat k) ∅ [] r Hfit F) as (fuel & out & r' & E & _).
    + by split; [|constructor|constructor].
    + cbn. lia.
    + exists fuel, out, r'. unfold generateAccounts. by destruct (Z.ltb_spec k 0); [lia|].
  - intros fuel. destruct (generateAccounts fuel prefixes n k r) as [[out r']| |] eqn:E; [| |done].
    + apply generateAccounts_Ok in E as (El & Hd & Hf). exfalso.
      assert ((list_to_set out : gset string) ⊆ list_to_set (accounts prefixes n)) as Hsub%subseteq_size.
      { intros a. rewrite !elem_of_list_to_set. rewrite Forall_forall in Hf. intros Ha. by apply Hf. }
      rewrite size_list_to_set in Hsub by done. lia.
    + unfold generateAccounts in E. destruct (Z.ltb_spec k 0); [lia|]. by apply accountsLoop_no_panic in E.
Qed.
End drawn.

(** ** The generated transactions *)

Section made.
Context `{RandLaws, Net, EnvelopJSON, !Codec pbTransferTx}.

(** A transfer of one unit from every one of [k / 2] accounts to every one of
    the others, [k] accounts in all, no two of them equal. *)
Record made (prefixes : list string) (n k : Z) (tx : pbTransferTx) : Prop := {
  md_distinct : NoDup (From tx ++ To tx);
  md_from : zlen (From tx) = Z.quot k 2;
  md_size : zlen (From tx ++ To tx) = k;
  md_accounts : Forall (fun a => a ∈ accounts prefixes n /\ slen a = 32) (From tx ++ To tx);
  md_fromMoney : FromMoney tx = replicate (length (From tx)) 1;
  md_toMoney : ToMoney tx = replicate (length (To tx)) 1 }.

Lemma NewTransferTxMustLen_fields froms fromMoney tos toMoney mustLen now tx :
  NewTransferTxMustLen froms fromMoney tos toMoney mustLen now = Ok tx ->
  From tx = froms /\ To tx = tos /\ FromMoney tx = fromMoney /\ ToMoney tx = toMoney.
Proof.
  unfold NewTransferTxMustLen. intros E. go_inv. destruct (_ >? 0); go_inv; by split_and!.
Qed.

Lemma fill_Ok fuel im prefixes clock n i r txs : 0 <= Importor.transferSize im ->
  Importor.fill fuel im prefixes clock n i r = Ok txs ->
  length txs = n /\ Forall (made prefixes (Importor.accountNumPerShard im) (Importor.transferSize im)) txs.
Proof.
  intros Hk. revert i r txs. induction n as [|n IH]; intros i r txs; cbn [Importor.fill].
  { intros [= <-]. by split; [|constructor]. }
  intros E. go_inv. destruct x as [out r1]. go_inv. apply IH in E2 as [<- Hf].
  apply generateAccounts_Ok in E0 as (El & Hd & Ha).
  apply NewTransferTxMustLen_fields in E1 as (F1 & F2 & F3 & F4).
  set (h := Z.to_nat (Z.quot (Importor.transferSize im) 2)) in *.
  assert (Z.of_nat h = Z.quot (Importor.transferSize im) 2) as Eh.
  { unfold h. rewrite Z2Nat.id; [done|]. by apply Z.quot_pos. }
  assert (h <= length out)%nat as Hh.
  { assert (Z.quot (Importor.transferSize im) 2 <= Importor.transferSize im) by (apply Z.quot_le_upper_bound; lia). lia. }
  split; [done|]. constructor; [|done].
  split; rewrite ?F1, ?F2, ?F3, ?F4, ?take_drop; try done.
  - rewrite length_take. lia.
  - rewrite take_replicate, length_take. f_equal. lia.
  - rewrite drop_replicate, length_drop. f_equal. lia.
Qed.

(** It is a valid transfer when the number of accounts is even. *)
Lemma made_valid prefixes n k tx : made prefixes n k tx ->
  ValidateTransferTx tx = None <-> (2 <= k /\ Z.even k = true).
Proof.
  intros [_ Hf Hs _ Hfm Htm]. unfold ValidateTransferTx. rewrite Hfm, Htm, !length_replicate, !Z.eqb_refl. cbn [negb orb].
  assert (forall m, sum32 (replicate m 1) = Z.of_nat m mod 2 ^ 32) as Esum.
  { intros m. rewrite sum32_spec. f_equal. induction m as [|m IH]; cbn [replicate]; [done|]. rewrite zsum_cons, IH. lia. }
  rewrite !Esum. rewrite length_app in Hs.
  assert (0 <= k) as Hk by lia. rewrite Z.quot_div_nonneg in Hf by lia.
  pose proof (Z.div_mod k 2 ltac:(lia)) as Edm. rewrite Zmod_even in Edm.
  destruct (Z.even k).
  - assert (Z.of_nat (length (To tx)) = Z.of_nat (length (From tx))) as -> by lia.
    destruct (Z.eqb_spec (Z.of_nat (length (From tx))) 0); cbn [orb]; [split; [done|lia]|].
    rewrite Z.eqb_refl. cbn. split; [|done]. lia.
  - assert (Z.of_nat (length (To tx)) = Z.of_nat (length (From tx)) + 1) as -> by lia.
    destruct (_ || _); [split; [done|by intros []]|].
    destruct (Z.eqb_spec (Z.of_nat (length (From tx)) mod 2 ^ 32) ((Z.of_nat (length (From tx)) + 1) mod 2 ^ 32)) as [E|E].
    + exfalso. rewrite Zplus_mod in E. revert E. set (m := _ mod 2 ^ 32).
      pose proof (Z.mod_pos_bound (Z.of_nat (length (From tx))) (2 ^ 32) ltac:(lia)) as Hm. fold m in Hm.
      intros E. rewrite (Z.mod_small 1) in E by lia.
      destruct (Z.eq_dec m (2 ^ 32 - 1)) as [->|]; [vm_compute in E; lia|]. rewrite Z.mod_small in E by lia. lia.
    + split; [done|by intros []].
Qed.

(** ** Where the accounts are *)

(** No upper bound begins with its lower bound, so that every account with the
    lower bound as its prefix is in the range. *)
Definition roomy (tree : RangeTree.t) : Prop := Forall (fun r => String.prefix r.1 r.2 = false) (RangeTree.Range tree).

Lemma ascending_le low high rs lo hi : RangeTree.ascending low high rs -> (lo, hi) ∈ rs -> str_le lo hi.
Proof.
  revert low. induction rs as [|[a b] rs IH]; intros low; cbn; [by intros ? ?%not_elem_of_nil|].
  intros (_ & Hab & Hrs) [[= -> ->]|Hin]%elem_of_cons; [done|by eapply IH].
Qed.

Lemma account_in tree lo hi num : RangeTree.ok tree -> roomy tree -> (lo, hi) ∈ RangeTree.Range tree ->
  RangeTree.Search tree (account lo num) = true.
Proof.
  intros O Hr Hin. apply RangeTree.Search_holds; [done|]. apply RangeTree.Range_holds; [done|].
  unfold RangeTree.listed. apply Exists_exists. exists (lo, hi). split; [done|].
  unfold roomy in Hr. rewrite Forall_forall in Hr. specialize (Hr _ Hin). cbn in Hr.
  assert (str_le lo hi) as Hle.
  { unfold RangeTree.Range, RangeTree.ok in *. destruct (RangeTree.root tree) as [node|]; [|by apply not_elem_of_nil in Hin].
    destruct O as [W _]. destruct (RangeTree.Range_node node _ _ W) as [A _]. by eapply ascending_le. }
  unfold account. split; [apply str_le_append|by apply str_lt_append].
Qed.
End made.

(** ** At a node *)

Section node.
Context `{RandLaws, Net, EnvelopJSON, Hash, StdTime, DB, !Codec pbTransferTx, !Codec pbInsertTx, !Codec pbBankData}.

Lemma createKeyRangeTree_trees cfg si order tree forest : createKeyRangeTree cfg si order = Ok (tree, forest) ->
  (IsI cfg = true -> shardTree si (ChainID cfg) = Ok tree) /\
  (forall shard t, forest !! shard = Some t -> shard ∈ ChainID cfg :: order /\ shardTree si shard = Ok t).
Proof.
  unfold createKeyRangeTree. intros (t0 & E0 & E)%gbind_Ok. destruct (IsI cfg); [by injection E as <- <-|].
  rewrite E0 in E. cbn [gbind] in E. split; [done|]. revert E.
  set (P := fun x : RangeTree.t * gmap string RangeTree.t =>
    forall shard t, x.2 !! shard = Some t -> shard ∈ ChainID cfg :: order /\ shardTree si shard = Ok t).
  intros E. change (P (tree, forest)). revert E. apply go_foldl_invariant.
  - intros x shard x' Hin HP E. unfold addShard in E. go_inv. intros shard' t. cbn [snd].
    intros [[-> ->]|[_ Hl]]%lookup_insert_Some; [|by apply HP]. split; [by constructor|done].
  - intros shard t. cbn [snd]. intros [<- <-]%lookup_singleton_Some. split; [constructor|done].
Qed.

(** The importer of a node before it generates. *)
Record fresh (cfg : NodeConfig) (si : ShardInfo.t) (order : list string) (im : Importor.t) : Prop := {
  fr_isI : Importor.isI im = IsI cfg;
  fr_size : Importor.transferSize im = transferSize;
  fr_mine t : Importor.MyRangeTree im = Some t -> shardTree si (ChainID cfg) = Ok t;
  fr_related t : t ∈ Importor.AllRelatedRangeTree im -> exists shard, shard ∈ ChainID cfg :: order /\ shardTree si shard = Ok t;
  fr_pools p : Importor.poolOf im p = [];
  fr_mempool p m : Importor.mempoolOf im p = Some m -> m = Mempool.NewMempool (Importor.isCross p) }.

Lemma createImportor_fresh cfg si order forestOrder rates sender im :
  createImportor cfg si order forestOrder rates sender = Ok im -> fresh cfg si order im.
Proof.
  unfold createImportor, createMempool. intros ([tree rf] & E & Hi)%gbind_Ok.
  destruct (createKeyRangeTree_trees _ _ _ _ _ E) as [HI HF].
  destruct (_ =? 0); [done|]. destruct (IsI cfg) eqn:Ei; injection Hi as <-; split; cbn; try done.
  - intros t [= <-]. by apply HI.
  - by intros t ?%not_elem_of_nil.
  - by intros [].
  - by intros [] m [= <-].
  - intros t Ht. by apply HF.
  - intros t (shard & Hin & Hs)%list_elem_of_omap. exists shard. by apply HF.
  - by intros [].
  - by intros [] m [= <-].
Qed.

(** The ranges of the shards leave room for accounts. *)
Definition roomyShards (si : ShardInfo.t) (shards : list string) : Prop :=
  forall shard t, shard ∈ shards -> shardTree si shard = Ok t -> roomy t.

(** The shards an account of a pool may be of. *)
Definition homes (cfg : NodeConfig) (order : list string) (p : Importor.Pool) : list string :=
  match p with Importor.Inner => [ChainID cfg] | Importor.Cross => ChainID cfg :: order end.

Lemma accounts_owned si (shards prefixes : list string) n a :
  (forall prefix, prefix ∈ prefixes -> exists shard t hi, shard ∈ shards /\ shardTree si shard = Ok t /\
     (prefix, hi) ∈ RangeTree.Range t) ->
  roomyShards si shards -> a ∈ accounts prefixes n -> ownedBy si shards a = true.
Proof.
  intros Hp Hr (prefix & j & Hin & _ & ->)%elem_of_accounts. destruct (Hp _ Hin) as (shard & t & hi & Hs & Et & Hrange).
  unfold ownedBy. apply existsb_exists. exists shard. split; [by apply list_elem_of_In|]. rewrite Et.
  apply (account_in t prefix hi); [by eapply NewRangeTreeFromString_ok|by eapply Hr|done].
Qed.

(** A pool of transfers of [transferSize] accounts of the shards of the pool. *)
Definition loaded (si : ShardInfo.t) (shards : list string) (txs : list pbTransferTx) : Prop :=
  Forall (fun tx => (exists prefixes n, made prefixes n transferSize tx) /\
                    Forall (fun a => ownedBy si shards a = true) (From tx ++ To tx)) txs.

Lemma generate_loaded fuel im p prefixes clock n r im' si shards :
  Importor.generate fuel im p prefixes clock n r = Ok im' -> Importor.transferSize im = transferSize ->
  (forall prefix, prefix ∈ prefixes -> exists shard t hi, shard ∈ shards /\ shardTree si shard = Ok t /\
     (prefix, hi) ∈ RangeTree.Range t) -> roomyShards si shards ->
  exists txs, im' = Importor.setPool im p txs /\ zlen txs = n /\ loaded si shards txs.
Proof.
  unfold Importor.generate. destruct (Z.ltb_spec n 0), (Z.ltb_spec (Importor.transferSize im) 0); cbn [orb]; [done..|].
  intros E Es Hp Hr. go_inv. exists x. split; [done|]. apply fill_Ok in E0 as [El Hf]; [|done]. split; [lia|].
  eapply Forall_impl; [exact Hf|]. intros tx Hm. rewrite Es in Hm. split; [by eexists _, _|].
  eapply Forall_impl; [exact (md_accounts _ _ _ _ Hm)|]. intros a [Ha _]. by eapply accounts_owned.
Qed.

Lemma RandomGenerateTx_loaded cfg si order fuel im clock n r im' : fresh cfg si order im \/ (exists im0 txs, fresh cfg si order im0 /\ im = Importor.setPool im0 Importor.Cross txs) ->
  roomyShards si (ChainID cfg :: order) -> Importor.RandomGenerateTx fuel im clock n r = Ok im' ->
  exists txs, im' = Importor.setPool im Importor.Inner txs /\ zlen txs = n /\ loaded si [ChainID cfg] txs.
Proof.
  intros Hf Hr E. unfold Importor.RandomGenerateTx in E. go_inv.
  assert (Importor.MyRangeTree im = Some x) as Ex by (unfold deref in E0; destruct (Importor.MyRangeTree im); [congruence|done]).
  assert (shardTree si (ChainID cfg) = Ok x) as Et.
  { destruct Hf as [Hf|(im0 & txs & Hf & ->)]; by apply (fr_mine _ _ _ _ Hf). }
  eapply generate_loaded; [done| | |].
  - destruct Hf as [Hf|(im0 & txs & Hf & ->)]; apply (fr_size _ _ _ _ Hf).
  - intros prefix ([lo hi] & -> & Hin)%list_elem_of_fmap. exists (ChainID cfg), x, hi. by split_and!; [constructor|..].
  - intros shard t ->%list_elem_of_singleton. apply Hr. constructor.
Qed.

(** The pools of a node are loaded. *)
Lemma generateAll_loaded cfg si order fuel im clock crossN innerN cs is_ im' : fresh cfg si order im ->
  roomyShards si (ChainID cfg :: order) -> generateAll fuel cfg im clock crossN innerN cs is_ = Ok im' ->
  exists inner cross, im' = Importor.setPool (Importor.setPool im Importor.Cross cross) Importor.Inner inner /\
    zlen inner = innerN /\ loaded si [ChainID cfg] inner /\
    zlen cross = (if IsI cfg then 0 else crossN) /\ loaded si (ChainID cfg :: order) cross.
Proof.
  intros Hf Hr. unfold generateAll. destruct (IsI cfg) eqn:Ei.
  - intros (inner & -> & Hn & Hl)%(RandomGenerateTx_loaded cfg si order); [|by left|done].
    exists inner, []. split_and!; [|done..|constructor]. pose proof (fr_pools _ _ _ _ Hf Importor.Cross) as Hc.
    destruct im. cbn in *. by subst.
  - intros (im1 & E1 & E2)%gbind_Ok. unfold Importor.RandomGenerateCrossShardTx in E1. apply gbind_Ok in E1 as (prefixes & Ep & E1).
    apply generate_loaded with (si := si) (shards := ChainID cfg :: order) in E1 as (cross & -> & Hn & Hl).
    + apply (RandomGenerateTx_loaded cfg si order) in E2 as (inner & -> & Hn' & Hl'); [|right; by exists im, cross|done].
      by exists inner, cross.
    + apply (fr_size _ _ _ _ Hf).
    + intros prefix Hin. apply go_mapM_Ok in Ep. apply list_elem_of_lookup in Hin as [i Hi].
      destruct (Forall2_lookup_r _ _ _ _ _ Ep Hi) as (t & Ht & Et). go_inv. destruct x as [lo hi].
      apply list_elem_of_lookup_2 in Ht. destruct (fr_related _ _ _ _ Hf t Ht) as (shard & Hs & Es).
      exists shard, t, hi. split_and!; [done..|]. apply idx_Ok, zlook_Some in E as [_ E]. by eapply list_elem_of_lookup_2.
    + done.
Qed.
End node.

(** ** What the loops of [StartMempool] do *)

Section broadcast.
Context `{Rand, Net, EnvelopJSON, !Codec pbTransferTx}.
Context (ValidateTx : bytes -> bool -> go bool).
Import Importor.

(** The transactions that the turns of a schedule offer, in order. *)
Fixpoint plan (loops : list Pool) (inner cross : list pbTransferTx) (schedule : list (Pool * Outside)) :
    list (Pool * (pbTransferTx * Outside)) :=
  match schedule with
  | [] => []
  | (p, out) :: schedule =>
      if bool_decide (p ∈ loops) then
        match p, inner, cross with
        | Inner, tx :: inner, _ => (p, (tx, out)) :: plan loops inner cross schedule
        | Cross, _, tx :: cross => (p, (tx, out)) :: plan loops inner cross schedule
        | _, _, _ => plan loops inner cross schedule
        end
      else plan loops inner cross schedule
  end.

(** With its bytes, where it goes, and the transactions for one pool. *)
Definition encoded (x : Pool * (pbTransferTx * Outside)) : go (Pool * bytes * Outside) :=
  let! b := TransferBytes (setTime x.2.1 (now x.2.2)) in Ok (x.1, b, x.2.2).
Definition forPool {A} (p : Pool) (l : list (Pool * A)) : list A :=
  map snd (List.filter (fun x => bool_decide (x.1 = p)) l).
Definition offered (p : Pool) (bs : list (Pool * bytes * Outside)) : list bytes := forPool p (map fst bs).
Definition send (chain : string) (s : Sender.t) (x : Pool * bytes * Outside) : go Sender.t :=
  Sender.SendToShard s chain (peerOrder x.2) (channelOf x.1.1) x.1.2 TxTransfer.

Lemma turn_one im p out : turn ValidateTx im p [out] =
  match poolOf im p with
  | [] => Ok im
  | tx :: rest => let! im := offer ValidateTx p im (tx, out) in Ok (setPool im p rest)
  end.
Proof.
  unfold turn, batch. destruct (poolOf im p) as [|tx rest] eqn:E.
  - destruct im, p; cbn in *; by subst.
  - destruct (Z.ltb_spec (zlen (tx :: rest)) 1); [cbn in *; lia|]. change (Z.to_nat 1) with 1%nat.
    cbn [take drop combine go_foldl]. by destruct (offer ValidateTx p im (tx, out)).
Qed.

Lemma offer_Ok p im tx out im' : offer ValidateTx p im (tx, out) = Ok im' ->
  exists b m m' err, encoded (p, (tx, out)) = Ok (p, b, out) /\ mempoolOf im p = Some m /\
    Mempool.AddTx ValidateTx m b = Ok (m', err) /\
    match p2pConn im with
    | None => im' = setMempool im p (Some m')
    | Some s => exists s', send (myChain im) s (p, b, out) = Ok s' /\ im' = setConn (setMempool im p (Some m')) (Some s')
    end.
Proof.
  unfold offer, encoded. cbn [fst snd]. intros E. go_inv. destruct x1 as [m' err]. rewrite E0. cbn [gbind].
  exists x, x0, m', err. destruct (mempoolOf im p); [|done]. injection E1 as ->.
  assert (p2pConn (setMempool im p (Some m')) = p2pConn im) as Ec by by destruct im.
  rewrite Ec in E. split_and!; [done..|]. destruct (p2pConn im); go_inv; [|done]. eexists. split; [|done]. by destruct im.
Qed.

(** What a state is after it offered: the transactions of [pl], of the pools. *)
Record offers (im im' : Importor.t) (bs : list (Pool * bytes * Outside)) : Prop := {
  of_mempool p m : mempoolOf im p = Some m -> exists m', Mempool.run ValidateTx m (map Mempool.OpAdd (offered p bs)) = Ok m' /\
    mempoolOf im' p = Some m';
  of_sender s : p2pConn im = Some s -> exists s', go_foldl (send (myChain im)) s bs = Ok s' /\ p2pConn im' = Some s';
  of_noSender : p2pConn im = None -> p2pConn im' = None }.

Lemma offers_cons p im tx out im1 b bs im' : offer ValidateTx p im (tx, out) = Ok im1 ->
  encoded (p, (tx, out)) = Ok (p, b, out) -> forall rest, offers (setPool im1 p rest) im' bs -> offers im im' ((p, b, out) :: bs).
Proof.
  intros E Eb rest [Om Os On]. apply offer_Ok in E as (b' & m & m' & err & Eb' & Em & Ea & Ec).
  rewrite Eb in Eb'. injection Eb' as <-.
  assert (forall q mq, mempoolOf im q = Some mq -> exists mq1, mempoolOf (setPool im1 p rest) q = Some mq1 /\
    Mempool.run ValidateTx mq (map Mempool.OpAdd (offered q [(p, b, out)])) = Ok mq1) as Hm.
  { intros q mq Eq. assert (mempoolOf (setPool im1 p rest) q = mempoolOf (setMempool im p (Some m')) q) as ->.
    { destruct (p2pConn im); [destruct Ec as (s' & _ & ->)|subst im1]; by destruct q. }
    destruct (decide (p = q)) as [<-|Hne].
    - exists m'. split; [by destruct p|]. unfold offered, forPool. cbn. rewrite bool_decide_true by done. cbn.
      rewrite Em in Eq. injection Eq as <-. unfold Mempool.run. cbn. by rewrite Ea.
    - exists mq. split; [by destruct p, q|]. unfold offered, forPool. cbn. by rewrite bool_decide_false. }
  split.
  - intros q mq (mq1 & E1 & Er)%Hm. destruct (Om q mq1 E1) as (mq' & Er' & E'). exists mq'. split; [|done].
    assert (offered q ((p, b, out) :: bs) = offered q [(p, b, out)] ++ offered q bs) as ->.
    { unfold offered, forPool. cbn. by case_bool_decide. }
    unfold Mempool.run in *. by rewrite map_app, go_foldl_app, Er.
  - intros s Es. rewrite Es in Ec. destruct Ec as (s1 & E1 & ->). destruct (Os s1 eq_refl) as (s' & Er & E').
    exists s'. split; [|done]. cbn [go_foldl]. by rewrite E1.
  - intros Es. rewrite Es in Ec. subst im1. apply On. done.
Qed.

Lemma offer_keeps p im x im' q rest : offer ValidateTx p im x = Ok im' ->
  poolOf (setPool im' p rest) q = if bool_decide (p = q) then rest else poolOf im q.
Proof.
  destruct x as [tx out]. intros (b & m & m' & err & _ & _ & _ & Ec)%offer_Ok.
  destruct (p2pConn im); [destruct Ec as (s' & _ & ->)|subst im']; by destruct p, q.
Qed.

Lemma run_plan loops schedule im im' :
  go_foldl (fun im '(p, out) => if bool_decide (p ∈ loops) then turn ValidateTx im p [out] else Ok im) im schedule = Ok im' ->
  exists bs, go_mapM encoded (plan loops (txPool im) (cross_shard_txPool im) schedule) = Ok bs /\ offers im im' bs /\
    forall p, map fst (forPool p (plan loops (txPool im) (cross_shard_txPool im) schedule)) ++ poolOf im' p = poolOf im p.
Proof.
  revert im. induction schedule as [|[p out] schedule IH]; intros im; cbn [go_foldl plan].
  { intros [= <-]. exists []. split_and!; [done| |done]. split; [|by eauto..]. intros q m Em. by exists m. }
  case_bool_decide as Hp; [|by apply IH]. rewrite turn_one. intros (im1 & E1 & E)%gbind_Ok.
  destruct (poolOf im p) as [|tx rest] eqn:Epool.
  { injection E1 as <-. apply IH in E. destruct p; cbn in Epool; rewrite Epool in *; [done|].
    by destruct (txPool im). }
  apply gbind_Ok in E1 as (im2 & Eo & [= <-]). apply IH in E as (bs & Ebs & Hof & Hpools). clear IH.
  destruct (offer_Ok _ _ _ _ _ Eo) as (b & _ & _ & _ & Eb & _).
  assert (plan loops (txPool im) (cross_shard_txPool im) ((p, out) :: schedule) =
    (p, (tx, out)) :: plan loops (txPool (setPool im2 p rest)) (cross_shard_txPool (setPool im2 p rest)) schedule) as Epl.
  { pose proof (offer_keeps _ _ _ _ Inner rest Eo) as K1. pose proof (offer_keeps _ _ _ _ Cross rest Eo) as K2.
    cbn [poolOf] in K1, K2. rewrite K1, K2. cbn [plan]. rewrite bool_decide_true by done.
    destruct p; cbn in Epool |- *; rewrite Epool; [done|by destruct (txPool im)]. }
  cbn [plan] in Epl. rewrite bool_decide_true in Epl by done. rewrite Epl. clear Epl.
  exists ((p, b, out) :: bs). split_and!.
  - cbn [go_mapM]. by rewrite Eb, Ebs.
  - by eapply offers_cons.
  - intros q. specialize (Hpools q). rewrite (offer_keeps _ _ _ _ q rest Eo) in Hpools.
    unfold forPool in *. cbn [List.filter fst]. case_bool_decide as Hq; [subst q|done]. cbn [map fst snd app].
    by rewrite Hpools, Epool.
Qed.
End broadcast.

(** ** A node under load *)

Section load.
Context `{RandLaws, Net, EnvelopJSON, Hash, StdTime, DB, !Codec pbTransferTx, !Codec pbInsertTx, !Codec pbBankData}.

Lemma TransferBytes_keys tx b : TransferBytes tx = Ok b -> txKeys b = Some (From tx ++ To tx).
Proof.
  unfold TransferBytes, MustProtoBytes. intros (bz & E & Hb)%gbind_Ok. destruct (Marshal tx) as [bz'|] eqn:Em; [|done].
  injection E as ->. assert (Uint32ToBytes TxTransfer ++ bz = b) as <- by congruence. unfold txKeys. rewrite take_app_length', drop_app_length' by reflexivity.
  replace (BytesToUint32 (Uint32ToBytes TxTransfer)) with (Ok TxTransfer) by (symmetry; vm_compute; reflexivity).
  cbn [Z.eqb]. rewrite Z.eqb_refl. by rewrite (Unmarshal_Marshal _ _ Em).
Qed.

Lemma encoded_offered p pl bs : go_mapM encoded pl = Ok bs ->
  Forall2 (fun tx b => exists time, TransferBytes (Importor.setTime tx time) = Ok b) (map fst (forPool p pl)) (offered p bs).
Proof.
  revert bs. induction pl as [|[q [tx out]] pl IH]; intros bs; cbn [go_mapM]; [by intros [= <-]|].
  intros E. go_inv. unfold encoded in E0. go_inv. cbn [fst snd] in *. unfold forPool, offered, forPool in *.
  cbn [map List.filter fst]. case_bool_decide; [|by apply IH]. cbn [map fst snd]. constructor; [by eexists|by apply IH].
Qed.

Lemma poolAfter_adds (VT : bytes -> bool -> go bool) cross bs pool : Forall (fun b => VT b cross = Ok true) bs ->
  NoDup (pool ++ bs) -> Mempool.poolAfter VT cross pool (map Mempool.OpAdd bs) = Some (pool ++ bs).
Proof.
  revert pool. induction bs as [|b bs IH]; intros pool Hf Hd; cbn; [by rewrite app_nil_r|].
  apply Forall_cons in Hf as [Hb Hf]. rewrite Hb. rewrite bool_decide_false.
  - cbn. replace (pool ++ b :: bs) with ((pool ++ [b]) ++ bs) in * by by rewrite <- app_assoc. by apply IH.
  - apply NoDup_app in Hd as (_ & Hn & _). intros Hin. apply (Hn b Hin). constructor.
Qed.

Lemma ownedBy_mono si l k key : (forall shard, shard ∈ l -> shard ∈ k) -> ownedBy si l key = true -> ownedBy si k key = true.
Proof.
  unfold ownedBy. intros Hlk (shard & Hin & Hs)%existsb_exists. apply existsb_exists. exists shard. split; [|done].
  apply list_elem_of_In, Hlk. by apply list_elem_of_In.
Qed.

(** A loaded transaction, whenever it is encoded, is what a node accepts. *)
Lemma loaded_accepted cfg si order order2 db app p tx time b :
  ChainID cfg ∉ order -> (forall shard, shard ∈ order2 -> shard ∈ order) -> createABCI cfg si order db = Ok app ->
  (IsI cfg = true -> p = Importor.Inner) -> Forall (fun a => ownedBy si (homes cfg order2 p) a = true) (From tx ++ To tx) ->
  TransferBytes (Importor.setTime tx time) = Ok b -> Bank.ValidateTx app b (Importor.isCross p) = Ok true.
Proof.
  intros Hn Ho Happ Hi Hown Eb. rewrite (ValidateTx_owned cfg si order db app b _ Hn Happ). f_equal.
  rewrite (TransferBytes_keys _ _ Eb). cbn [From To Importor.setTime]. apply andb_true_iff. split.
  - destruct (IsI cfg); [by rewrite Hi|done].
  - apply forallb_forall. intros a Ha%list_elem_of_In. rewrite Forall_forall in Hown. specialize (Hown a Ha).
    destruct p; cbn [homes Importor.isCross] in Hown |- *; [done|]. eapply ownedBy_mono; [|exact Hown]. intros shard [->|?]%elem_of_cons; [by constructor|].
    constructor. by apply Ho.
Qed.

(** The loops of a node, each with its pool. *)
Lemma started p im : p ∈ Importor.StartMempool im ->
  is_Some (Importor.mempoolOf im p) /\ (Importor.isI im = true -> p = Importor.Inner).
Proof.
  unfold Importor.StartMempool. destruct (Importor.isI im), (decide (is_Some (Importor.mempool im))) as [Hm|Hm];
    rewrite ?(bool_decide_true _ Hm), ?(bool_decide_false _ Hm); cbn [andb]; try (by intros ?%not_elem_of_nil).
  - destruct (_ >? 0); [|by intros ?%not_elem_of_nil]. by intros ->%list_elem_of_singleton.
  - case_bool_decide as Hc; [|by intros ?%not_elem_of_nil].
    destruct (Importor.rate1 im >? 0), (Importor.rate2 im >? 0); cbn [app]; intros Hin; repeat (apply elem_of_cons in Hin as [->|Hin]);
      first [done|by apply not_elem_of_nil in Hin].
Qed.

(** C34: what a node makes for itself it accepts. When the ranges of its shards
    leave room for other accounts (a range of few numbers does not, [roomyShards])
    and the generation has ended, every transaction made is a valid transfer between
    six distinct accounts of the shards of its pool. When the loop that offers the
    transactions of a pool has then ended, with a mempool that received nothing else
    and had nothing committed in between, and which has room for all, the mempool hands exactly these
    transactions out, in the order in which they were made, unless two are encoded
    alike. *)
Theorem imported_reaped cfg si order order2 forestOrder rates sender db app im fuel clock crossN innerN cs is_ im1 schedule im2 p
  (Hn : ChainID cfg ∉ order) (Ho : forall shard, shard ∈ order2 -> shard ∈ order) (Happ : createABCI cfg si order db = Ok app)
  (Him : createImportor cfg si order2 forestOrder rates sender = Ok im) (Hroomy : roomyShards si (ChainID cfg :: order2))
  (Hgen : generateAll fuel cfg im clock crossN innerN cs is_ = Ok im1)
  (Hrun : Importor.run (Bank.ValidateTx app) im1 schedule = Ok im2) (Hp : p ∈ Importor.StartMempool im1)
  (Hend : Importor.poolOf im2 p = []) (Hlen : zlen (Importor.poolOf im1 p) <= CList.MaxLength) :
  zlen (Importor.poolOf im1 p) = (if Importor.isCross p then crossN else innerN) /\
  Forall (fun tx => ValidateTransferTx tx = None /\ NoDup (From tx ++ To tx) /\ zlen (From tx ++ To tx) = 6 /\
                    Forall (fun a => ownedBy si (homes cfg order2 p) a = true) (From tx ++ To tx)) (Importor.poolOf im1 p) /\
  exists bs m, Forall2 (fun tx b => exists time, TransferBytes (Importor.setTime tx time) = Ok b) (Importor.poolOf im1 p) bs /\
    Importor.mempoolOf im2 p = Some m /\
    (NoDup bs -> forall maxTxs, 0 <= maxTxs ->
       let out := take (Z.to_nat (Z.max 1 maxTxs)) bs in Mempool.ReapTx m maxTxs = Ok (out, zlen out, None)).
Proof.
  pose proof (createImportor_fresh _ _ _ _ _ _ _ Him) as Hf.
  destruct (generateAll_loaded _ _ _ _ _ _ _ _ _ _ _ Hf Hroomy Hgen) as (inner & cross & -> & Hin & Li & Hcr & Lc).
  set (im1 := Importor.setPool _ _ _) in *. destruct (started p im1 Hp) as [[m0 Em0] Hi].
  assert (Importor.isI im1 = IsI cfg) as Ei by apply (fr_isI _ _ _ _ Hf). rewrite Ei in Hi.
  assert (m0 = Mempool.NewMempool (Importor.isCross p)) as ->.
  { apply (fr_mempool _ _ _ _ Hf p). by destruct p. }
  assert (loaded si (homes cfg order2 p) (Importor.poolOf im1 p)) as Hl by by destruct p.
  split; [|split].
  - destruct p; cbn; [done|]. destruct (IsI cfg); [by specialize (Hi eq_refl)|done].
  - eapply Forall_impl; [exact Hl|]. intros tx [(prefixes & n & Hm) Hown]. split_and!; [|by apply Hm..|done].
    apply (made_valid _ _ _ _ Hm). by vm_compute.
  - destruct (run_plan _ _ _ _ _ Hrun) as (bs & Ebs & [Om _ _] & Hpools). specialize (Hpools p).
    rewrite Hend, app_nil_r in Hpools. pose proof (encoded_offered p _ _ Ebs) as Henc. rewrite Hpools in Henc.
    destruct (Om p _ Em0) as (m & Er & Em). exists (offered p bs), m. split_and!; [done..|].
    intros Hd maxTxs Hmax.
    assert (Forall (fun b => Bank.ValidateTx app b (Importor.isCross p) = Ok true) (offered p bs)) as Hval.
    { apply Forall_forall. intros b Hb. apply list_elem_of_lookup in Hb as [i Hb].
      destruct (Forall2_lookup_r _ _ _ _ _ Henc Hb) as (tx & Htx & time & Eb). unfold loaded in Hl. rewrite Forall_forall in Hl.
      destruct (Hl tx (list_elem_of_lookup_2 _ _ _ Htx)) as [_ Hown]. by eapply loaded_accepted. }
    destruct (Mempool.run_pools (Bank.ValidateTx app) (Importor.isCross p) (map Mempool.OpAdd (offered p bs)) (offered p bs)) as (m' & n & Er' & Hm).
    { by apply (poolAfter_adds _ _ _ []). }
    { rewrite length_map, <- (Forall2_length _ _ _ Henc). exact Hlen. }
    rewrite Er in Er'. injection Er' as <-. rewrite (Mempool.ReapTx_pools _ _ _ _ maxTxs Hm).
    by destruct (Z.ltb_spec maxTxs 0); [lia|].
Qed.
End load.

(** ** A C shard with two I shards under load *)

Module ImporterDemo.
Import DemoHash Demo StoreDemo BankTxDemo BankDemo NodeDemo NetworkDemo.
#[local] Instance net : Net := demoNet [] 0.

(** A source that counts. *)
#[export] Instance counter : Rand := {| rng := Z; draw r n := (r mod n, r + 1) |}.
#[export] Instance counter_laws : RandLaws.
Proof. split. intros r n Hn. cbn. by apply Z.mod_pos_bound. Qed.

Lemma counter_draws (r : Z) : drawAccount (H := counter) ["10"] 3 r = Ok (account "10" ((r + 1) mod 3 + 1), r + 1 + 1).
Proof.
  unfold drawAccount, Intn. cbn [draw counter rng]. change (zlen ["10"] <=? 0) with false. cbn [gbind].
  change (zlen ["10"]) with 1. rewrite Z.mod_1_r. change (idx ["10"] 0) with (Ok "10"). cbn [gbind].
  pose proof (Z.mod_pos_bound (r + 1) 3 ltac:(lia)) as Hr. set (m := (r + 1) mod 3) in *. clearbody m.
  assert (m = 0 \/ m = 1 \/ m = 2) as [->|[->| ->]] by lia; reflexivity.
Qed.

Lemma three_fit : fits ["10"] 3.
Proof.
  split; [done|lia|]. intros prefix j ->%list_elem_of_singleton Hj.
  assert (j = 0 \/ j = 1 \/ j = 2) as [->|[->| ->]] by lia; vm_compute; discriminate.
Qed.
Lemma counter_fair (r0 : Z) : fair (H := counter) ["10"] 3 r0.
Proof.
  intros r a _ (prefix & j & ->%list_elem_of_singleton & Hj & ->)%elem_of_accounts.
  set (k := Z.to_nat ((2 * (j - r - 1)) mod 3)).
  assert (forall k, rtc (drawn (H := counter) ["10"] 3) r (r + 2 * Z.of_nat k)) as Hp.
  { induction k0 as [|k0 IH]; [replace (r + 2 * Z.of_nat 0) with r by lia; apply rtc_refl|].
    eapply rtc_r; [exact IH|]. eexists. rewrite counter_draws. do 2 f_equal. lia. }
  exists (r + 2 * Z.of_nat k), (r + 2 * Z.of_nat k + 1 + 1). split; [apply Hp|]. rewrite counter_draws. do 4 f_equal.
  pose proof (Z.mod_pos_bound (2 * (j - r - 1)) 3 ltac:(lia)) as Hb. unfold k. rewrite Z2Nat.id by lia.
  pose proof (Z.div_mod (2 * (j - r - 1)) 3 ltac:(lia)) as Hd. set (q := (2 * (j - r - 1)) / 3) in *.
  symmetry. apply (Z.mod_unique_pos _ 3 (j - r - 1 - 2 * q)); lia.
Qed.

Lemma generateAccounts_ends_witness :
  (exists fuel out r', generateAccounts (H := counter) fuel ["10"] 3 3 7 = Ok (out, r')) /\
  (forall fuel, generateAccounts (H := counter) fuel ["10"] 3 4 7 = OutOfFuel).
Proof.
  split.
  - exact (generateAccounts_ends (H := counter) ["10"] 3 3 7 three_fit ltac:(lia) (counter_fair 7)).
  - exact (generateAccounts_ends (H := counter) ["10"] 3 4 7 three_fit ltac:(lia) (counter_fair 7)).
Defined.

Definition netShards : ShardInfo.t :=
  ShardInfo.mk {["C1" := [peer "a" "C1"; peer "b" "C1"]; "I1" := [peer "c" "I1"]; "I2" := [peer "d" "I2"]]}
    {["I1" := true; "I2" := true]} ∅ ∅ BLOCKTYPE_C {["C1" := "[10,11]"; "I1" := "[11,12]+[20,21]"; "I2" := "[31,32]"]}.
Definition node : Bank.Application := valueOf noApp (createABCI cfg netShards order (∅ : gmap bytes bytes)).
Lemma loadedNode_Ok : createABCI cfg netShards order (∅ : gmap bytes bytes) = Ok node.
Proof. unfold node. apply valueOf_Ok. vm_compute. reflexivity. Qed.

Definition toPeer : Sender.t := Sender.AddPeer (Sender.NewSender "a") (peer "b" "C1").
Definition order2 : list string := ["I1"; "I2"].
Definition noImportor : Importor.t := Importor.NewImportor None None 0 0 0 (0, 0, 0) false None [] None "".
Definition idle : Importor.t := valueOf noImportor (createImportor cfg netShards order2 ["I1"; "C1"; "I2"] (0, 6600, 26400) (Some toPeer)).
Lemma idle_Ok : createImportor cfg netShards order2 ["I1"; "C1"; "I2"] (0, 6600, 26400) (Some toPeer) = Ok idle.
Proof. unfold idle. apply valueOf_Ok. vm_compute. reflexivity. Qed.

Definition ticking (i : nat) : Time := mkTime (1700000000 + Z.of_nat i) 0.
Definition ready : Importor.t := valueOf noImportor (generateAll 10 cfg idle ticking 2 1 (5 : Z) (11 : Z)).
Lemma ready_Ok : generateAll 10 cfg idle ticking 2 1 (5 : Z) (11 : Z) = Ok ready.
Proof. unfold ready. apply valueOf_Ok. vm_compute. reflexivity. Qed.

Definition at_ (i : nat) : Importor.Outside := Importor.mkOutside (ticking (100 + i)) id.
Definition turns : list (Importor.Pool * Importor.Outside) :=
  [(Importor.Cross, at_ 0); (Importor.Inner, at_ 1); (Importor.Cross, at_ 2); (Importor.Inner, at_ 3)].
Definition done_ : Importor.t := valueOf noImportor (Importor.run (Bank.ValidateTx node) ready turns).
Lemma done_Ok : Importor.run (Bank.ValidateTx node) ready turns = Ok done_.
Proof. unfold done_. apply valueOf_Ok. vm_compute. reflexivity. Qed.

Lemma net_roomy : roomyShards netShards ("C1" :: order2).
Proof.
  intros shard t Hin. repeat (apply elem_of_cons in Hin as [->|Hin]); [..|by apply not_elem_of_nil in Hin];
    intros E; vm_compute in E; injection E as <-; unfold roomy; vm_compute; repeat constructor.
Qed.

(** The first account that is drawn for the cross-shard pool. *)
Example first_account : option_map (fun tx => hd "" (From tx)) (head (Importor.poolOf ready Importor.Cross)) =
  Some "31000000000000000000000000000007".
Proof. vm_compute. reflexivity. Qed.

Lemma imported_reaped_witness :
  zlen (Importor.poolOf ready Importor.Cross) = 2 /\
  Forall (fun tx => ValidateTransferTx tx = None /\ NoDup (From tx ++ To tx) /\ zlen (From tx ++ To tx) = 6 /\
                    Forall (fun a => ownedBy netShards ("C1" :: order2) a = true) (From tx ++ To tx))
    (Importor.poolOf ready Importor.Cross) /\
  exists bs m, Forall2 (fun tx b => exists time, TransferBytes (Importor.setTime tx time) = Ok b)
      (Importor.poolOf ready Importor.Cross) bs /\
    Importor.mempoolOf done_ Importor.Cross = Some m /\
    (NoDup bs -> forall maxTxs, 0 <= maxTxs ->
       let out := take (Z.to_nat (Z.max 1 maxTxs)) bs in Mempool.ReapTx m maxTxs = Ok (out, zlen out, None)).
Proof.
  refine (imported_reaped cfg netShards order order2 ["I1"; "C1"; "I2"] (0, 6600, 26400) (Some toPeer) (∅ : gmap bytes bytes) node
    idle 10 ticking 2 1 (5 : Z) (11 : Z) ready turns done_ Importor.Cross not_in_order _ loadedNode_Ok idle_Ok net_roomy ready_Ok done_Ok _ _ _).
  - intros shard Hin. repeat (apply elem_of_cons in Hin as [->|Hin]); [..|by apply not_elem_of_nil in Hin];
      apply (bool_decide_unpack _); vm_compute; exact I.
  - apply (bool_decide_unpack _). vm_compute. exact I.
  - vm_compute. reflexivity.
  - apply Z.leb_le. vm_compute. reflexivity.
Defined.
End ImporterDemo.
