(* ===== verification/EventLog.v ===== *)
(** * The event log of a node: [logger/blocklogger]

    A node writes every step of a height to two files: a readable one, and one
    with a line of JSON for each event, which [NewReader] reads back to find the
    heights with transactions and what was executed in them. The JSON encoder
    ([EventJSON]) and the disk ([Disk]) are interfaces; the buffered writer and
    reader of the standard library are modelled. *)

From S2P Require Import Prelude Convert Wire Codecs Network.
From stdpp Require Import pretty.
Local Open Scope Z_scope.

(** ** [template.go] *)

Module ConsensusEvent.
Record t := mk {
  Height : Z; Round : Z; RoundStep : string; IsRoundStart : bool; IsRoundEnd : bool; Message : string;
  Time : Wire.Time }.
(** The reading of the clock is an argument. *)
Definition NewConsensusEvent (height round : Z) (roundStep : string) (IsStart IsEnd : bool) (message : string) (now : Wire.Time) : t :=
  mk height round roundStep IsStart IsEnd message now.
End ConsensusEvent.

(** [json.Marshal] fails on times that JSON cannot hold; a time is printed by its
    method [String]. *)
Class EventJSON := {
  eventMarshal : ConsensusEvent.t -> bytes + goerr;
  eventUnmarshal : bytes -> ConsensusEvent.t + goerr;
  TimeString : Time -> string
}.
(** Strings of ASCII characters are kept, a newline is escaped, and an object ends
    with its brace. *)
Definition ascii (s : string) : Prop := Forall (fun b => bval b < 128) (of_str s).
Class EventJSONLaws `{EventJSON} := {
  event_roundtrip e bz : ascii (ConsensusEvent.RoundStep e) -> ascii (ConsensusEvent.Message e) ->
    eventMarshal e = inl bz -> eventUnmarshal bz = inl e;
  event_line e bz : eventMarshal e = inl bz -> Byte.x0a ∉ bz;
  event_object e bz : eventMarshal e = inl bz -> last bz = Some Byte.x7d
}.

(** ** Files and their buffers

    The [n]-th write to a file fails after some bytes, or writes all of them. A
    file is created, or opened at its end. *)
Class Disk := {
  EnsureDir : string -> option goerr;
  OpenFile : string -> bytes + goerr;
  fault : string -> nat -> option (nat * goerr);
  CloseFile : string -> option goerr;
  pathJoin : string -> string -> string
}.

Record File := mkFile { name : string; content : bytes; writes : nat }.
Definition fileWrite `{Disk} (f : File) (p : bytes) : File * nat * option goerr :=
  match fault (name f) (writes f) with
  | None => (mkFile (name f) (content f ++ p) (S (writes f)), length p, None)
  | Some (n, e) => (mkFile (name f) (content f ++ take n p) (S (writes f)), length (take n p), Some e)
  end.

(** [bufio.Writer]: an error stays. *)
Module Bufio.
Section bufio.
Context `{Disk}.
Record Writer := mk { buf : bytes; err : option goerr; file : File }.
Definition bufSize : nat := 4096.
Definition NewWriter (f : File) : Writer := mk [] None f.

Definition Flush (w : Writer) : Writer * option goerr :=
  match err w, buf w with
  | Some e, _ => (w, Some e)
  | None, [] => (w, None)
  | None, _ =>
      let '(f, n, e) := fileWrite (file w) (buf w) in
      match e with
      | Some e => (mk (drop n (buf w)) (Some e) f, Some e)
      | None => (mk [] None f, None)
      end
  end.

(** It makes room until the rest fits: what does not fit into an empty buffer is
    written at once. *)
Fixpoint room (fuel : nat) (w : Writer) (p : bytes) : go (Writer * bytes) :=
  if bool_decide (bufSize - length (buf w) < length p)%nat && bool_decide (err w = None) then
    match fuel with
    | O => OutOfFuel
    | S fuel =>
        match buf w with
        | [] => let '(f, n, e) := fileWrite (file w) p in room fuel (mk [] e f) (drop n p)
        | _ => let n := (bufSize - length (buf w))%nat in
               room fuel (fst (Flush (mk (buf w ++ take n p) None (file w)))) (drop n p)
        end
    end
  else Ok (w, p).
(** It is empty after one turn, and the rest fits after two. *)
Definition Write (w : Writer) (p : bytes) : go (Writer * option goerr) :=
  let! '(w, p) := room 2 w p in
  match err w with
  | Some e => Ok (w, Some e)
  | None => Ok (mk (buf w ++ p) None (file w), None)
  end.

(** [ReadLine] of a reader of 4096 bytes: the line and what follows it. A longer
    line comes in pieces, and no piece ends in a carriage return. *)
Definition newline : byte := Byte.x0a.
Definition cr : byte := Byte.x0d.
Fixpoint upToNewline (data : bytes) : bytes * bytes * bool :=
  match data with
  | [] => ([], [], false)
  | b :: data =>
      if bool_decide (b = newline) then ([], data, true)
      else let '(line, rest, found) := upToNewline data in (b :: line, rest, found)
  end.
Definition dropCR (line : bytes) : bytes := if bool_decide (last line = Some cr) then removelast line else line.
Definition ReadLine (data : bytes) : option (bytes * bytes) :=
  let '(line, rest, found) := upToNewline data in
  if bool_decide (bufSize <= length line)%nat then
    let piece := take bufSize data in
    let piece := dropCR piece in
    Some (piece, drop (length piece) data)
  else if found then Some (dropCR line, rest)
  else match data with [] => None | _ => Some (line, []) end.
End bufio.
End Bufio.

(** ** Decimal numbers *)

Fixpoint digits (acc : Z) (s : bytes) : option Z :=
  match s with
  | [] => Some acc
  | b :: s =>
      if (48 <=? bval b) && (bval b <=? 57) then digits (10 * acc + (bval b - 48)) s else None
  end.
(** [strconv.Atoi]: an optional sign and digits of a 64-bit integer. *)
Definition Atoi (s : bytes) : option Z :=
  let '(neg, s) := match s with
                   | Byte.x2d :: s => (true, s)
                   | Byte.x2b :: s => (false, s)
                   | _ => (false, s)
                   end in
  match s with
  | [] => None
  | _ => match digits 0 s with
         | Some z => let z := if neg then - z else z in
                     if (- 2 ^ 63 <=? z) && (z <? 2 ^ 63) then Some z else None
         | None => None
         end
  end.

(** [strings.Split] at a byte. *)
Fixpoint Split (sep : byte) (s : bytes) : list bytes :=
  match s with
  | [] => [[]]
  | b :: s =>
      if bool_decide (b = sep) then [] :: Split sep s
      else match Split sep s with [] => [[b]] | w :: l => (b :: w) :: l end
  end.

(** [time.Time.Sub], which stays in the range of a [Duration]. *)
Definition Duration : Type := Z.
Definition timeSub (t u : Time) : Duration :=
  let d := (sec t - sec u) * 1000000000 + (nsec t - nsec u) in
  if d <? - 2 ^ 63 then - 2 ^ 63 else if 2 ^ 63 - 1 <? d then 2 ^ 63 - 1 else d.
Definition Microsecond : Duration := 1000.

Module BlockLogger.
Import ConsensusEvent.
Definition BLOCK_FINISH_HEIGHT : string := "finish".
(** What the nodes log at the end of a height: inner transactions, cross-shard
    transactions that committed, and all of them. *)
Definition finishMessage (inner pass all : Z) : string :=
  "finish[" +:+ pretty inner +:+ "," +:+ pretty pass +:+ "," +:+ pretty all +:+ "]".

(** ** [writer.go] *)

Section writer.
Context `{EventJSON, Disk}.

(** The pieces of [ConsensusEventTemplate], which are written one by one. *)
Definition pieces (ce : t) : list string :=
  ["["; TimeString (Time ce); "](Height="; pretty (Height ce); ", Round="; pretty (Round ce); ") RoundStep=";
   RoundStep ce; "   Event=" +:+ String (Ascii.ascii_of_nat 34) ""; Message ce;
   String (Ascii.ascii_of_nat 34) (String (Ascii.ascii_of_nat 10) "")].

Fixpoint writeAll (w : Bufio.Writer) (l : list string) : go (Bufio.Writer * option goerr) :=
  match l with
  | [] => Ok (w, None)
  | s :: l =>
      let! '(w, err) := Bufio.Write w (of_str s) in
      match err with Some e => Ok (w, Some e) | None => writeAll w l end
  end.
Definition WriteEvent (ce : t) (w : Bufio.Writer) : go (Bufio.Writer * option goerr) := writeAll w (pieces ce).
Definition WriteJson (ce : t) (w : Bufio.Writer) : go (Bufio.Writer * option goerr) :=
  match eventMarshal ce with
  | inr e => Ok (w, Some e)
  | inl o => Bufio.Write w (o ++ [Bufio.newline])
  end.

Record Writer := mkWriter {
  dir : string; nodeName : string; chain_id : string;
  briefWriter : option Bufio.Writer; writer : option Bufio.Writer }.
Definition NewBlockWriter (dir nodeName chain_id : string) : Writer := mkWriter dir nodeName chain_id None None.
Definition brief_path (w : Writer) : string := pathJoin (dir w) (nodeName w +:+ "-blocklogger-brief.txt").
Definition path (w : Writer) : string := pathJoin (dir w) (nodeName w +:+ "-blocklogger.txt").

Definition OnStart (w : Writer) : Writer * option goerr :=
  match EnsureDir (dir w) with
  | Some e => (w, Some e)
  | None =>
      match OpenFile (brief_path w) with
      | inr e => (w, Some e)
      | inl bf =>
          let w := mkWriter (dir w) (nodeName w) (chain_id w)
                     (Some (Bufio.NewWriter (mkFile (brief_path w) bf 0))) (writer w) in
          match OpenFile (path w) with
          | inr e => (w, Some e)
          | inl b => (mkWriter (dir w) (nodeName w) (chain_id w) (briefWriter w)
                        (Some (Bufio.NewWriter (mkFile (path w) b 0))), None)
          end
      end
  end.
(** Closing a nil file is an error; both files are closed. *)
Definition closeFile (w : option Bufio.Writer) : option goerr :=
  match w with Some w => CloseFile (name (Bufio.file w)) | None => Some (Errorf "invalid argument") end.
Definition OnStop (w : Writer) : option goerr :=
  match closeFile (briefWriter w), closeFile (writer w) with
  | Some e, _ => Some e
  | None, e => e
  end.

Definition both (err1 err2 : option goerr) : option goerr :=
  match err1, err2 with
  | None, None => None
  | None, Some _ => Some (Errorf "nil | %v")
  | Some _, None => Some (Errorf "%v | nil")
  | Some _, Some _ => Some (Errorf "%v | %v")
  end.

(** A writer that was not started is nil. *)
Definition Write (w : Writer) (event : t) : go (Writer * option goerr) :=
  let! full := deref (writer w) in
  let! '(full, err) := if IsRoundStart event then Bufio.Write full [Bufio.newline; Bufio.newline] else Ok (full, None) in
  let keep full := mkWriter (dir w) (nodeName w) (chain_id w) (briefWriter w) (Some full) in
  match err with
  | Some e => Ok (keep full, Some e)
  | None =>
      let! '(full, err1) := WriteEvent event full in
      let! brief := deref (briefWriter w) in
      let! '(brief, err2) := WriteJson event brief in
      let keep brief full := mkWriter (dir w) (nodeName w) (chain_id w) (Some brief) (Some full) in
      match both err1 err2 with
      | Some e => Ok (keep brief full, Some e)
      | None =>
          let '(brief, err1) := Bufio.Flush brief in
          let '(full, err2) := Bufio.Flush full in
          Ok (keep brief full, both err1 err2)
      end
  end.
End writer.

(** ** [reader.go] *)

Section reader.
Context `{EventJSON}.

(** An event with both flags only ends its height. *)
Definition ended (e : t) : t :=
  if IsRoundEnd e && IsRoundStart e then mk (Height e) (Round e) (RoundStep e) false (IsRoundEnd e) (Message e) (Time e)
  else e.

(** Every line takes a byte, so the length of the file is enough. *)
Fixpoint readEvents (fuel : nat) (data : bytes) : go (list t) :=
  match Bufio.ReadLine data with
  | None => Ok []
  | Some (line, data) =>
      match fuel with
      | O => OutOfFuel
      | S fuel =>
          match eventUnmarshal line with
          | inr _ => Panic
          | inl e => let! l := readEvents fuel data in Ok (ended e :: l)
          end
      end
  end.
(** A file that cannot be opened panics. *)
Definition NewReader (data : option bytes) : go (list t) :=
  let! data := deref data in readEvents (length data) data.

(** The numbers of the last message of a height. *)
Definition isFinish (e : t) : bool := IsRoundEnd e && String.prefix BLOCK_FINISH_HEIGHT (Message e).
Definition finishData (e : t) : go (list bytes) :=
  let m := of_str (Message e) in
  let! s := slice m (zlen (of_str BLOCK_FINISH_HEIGHT) + 1) (zlen m - 1) in
  Ok (Split Byte.x2c s).
Definition number (uStr : list bytes) (i : Z) : go Z :=
  let! s := idx uStr i in deref (Atoi s).

(** What [CalculateTPS] adds up. The two rates it returns are the numbers of
    floating point that print [(commit + inner) / times] and [commit / count]. *)
Record Tally := mkTally { start : Wire.Time; end_ : Wire.Time; count : Z; commit : Z; inner : Z }.
Definition zeroTime : Wire.Time := mkTime (-62135596800) 0.
Definition tallyEvent (i j : Z) (r : Tally) (e : t) : go Tally :=
  let r := if IsRoundStart e && (Height e =? i) then mkTally (Time e) (end_ r) (count r) (commit r) (inner r) else r in
  let r := if IsRoundEnd e && (Height e =? j) then mkTally (start r) (Time e) (count r) (commit r) (inner r) else r in
  if isFinish e && (i <=? Height e) && (Height e <=? j) then
    let! uStr := finishData e in
    let! u0 := number uStr 0 in
    let! u1 := number uStr 1 in
    let! u2 := number uStr 2 in
    Ok (mkTally (start r) (end_ r) (i64 (count r + u2)) (i64 (commit r + u1)) (i64 (inner r + u0)))
  else Ok r.
(** No result for the first height alone, which is left out of every period. *)
Definition CalculateTPS (events : list t) (i j : Z) : go (option (Tally * Z)) :=
  if (i =? 1) && (j =? i) then Ok None
  else
    let i := if i =? 1 then 2 else i in
    let! r := go_foldl (tallyEvent i j) (mkTally zeroTime zeroTime 0 0 0) events in
    Ok (Some (r, Z.quot (timeSub (end_ r) (start r)) Microsecond)).

(** The heights where transactions begin and end. *)
Record Periods := mkPeriods { starts : list Z; ends : list Z; stateMachine : bool }.
Definition periodEvent (p : Periods) (e : t) : go Periods :=
  if isFinish e then
    let! uStr := finishData e in
    let! u0 := number uStr 0 in
    let! u2 := number uStr 2 in
    let total := i64 (u0 + u2) in
    if stateMachine p && (total =? 0) then Ok (mkPeriods (starts p) (ends p ++ [i64 (Height e - 1)]) false)
    else if negb (stateMachine p) && negb (total =? 0) then Ok (mkPeriods (starts p ++ [Height e]) (ends p) true)
    else Ok p
  else Ok p.
Definition NoneZeroPeriods (events : list t) : go (list Z * list Z) :=
  let! p := go_foldl periodEvent (mkPeriods [] [] false) events in
  if stateMachine p then
    let! e := idx events (zlen events - 1) in
    Ok (starts p, ends p ++ [i64 (Height e - 1)])
  else Ok (starts p, ends p).

(** [main/main.go]: the periods that are printed, each with its tally. *)
Definition report (data : option bytes) : go (list (Z * Z * option (Tally * Z))) :=
  let! events := NewReader data in
  let! '(is_, js) := NoneZeroPeriods events in
  go_mapM (fun '(i, j) => let! r := CalculateTPS events i j in Ok (i, j, r)) (zip is_ js).
End reader.
End BlockLogger.

(** ** The buffered writer

    What was written, in the file or still in the buffer. *)

Section buffered.
Context `{Disk}.
Import Bufio.

Definition flat (w : Writer) : bytes := content (file w) ++ buf w.
Record sound (w : Writer) : Prop := { so_err : err w = None; so_room : (length (buf w) <= bufSize)%nat }.

Lemma Flush_err w e : err w = Some e -> Flush w = (w, Some e).
Proof. unfold Flush. by intros ->. Qed.
Lemma Flush_empties w : err w = None -> (err (fst (Flush w)) <> None \/ buf (fst (Flush w)) = []).
Proof.
  intros He. unfold Flush. rewrite He. destruct (buf w) eqn:Eb; [by right|].
  destruct (fileWrite _ _) as [[f n] [e|]]; cbn; [by left|by right].
Qed.

Lemma room_done fuel w p : (length p <= bufSize - length (buf w))%nat \/ err w <> None -> room fuel w p = Ok (w, p).
Proof.
  intros Hd. assert (bool_decide (bufSize - length (buf w) < length p)%nat && bool_decide (err w = None) = false) as E.
  { apply not_true_iff_false. intros [E1%bool_decide_eq_true E2%bool_decide_eq_true]%andb_true_iff. destruct Hd; [lia|done]. }
  by destruct fuel; cbn [room]; rewrite E.
Qed.
Lemma drop_all {A} (p : list A) : drop (length p) p = [].
Proof. by apply drop_ge. Qed.

(** One turn. *)
Definition tooLong (w : Writer) (p : bytes) : Prop := (bufSize - length (buf w) < length p)%nat /\ err w = None.
Lemma room_turn fuel w p : tooLong w p -> room (S fuel) w p =
  match buf w with
  | [] => let '(f, n, e) := fileWrite (file w) p in room fuel (mk [] e f) (drop n p)
  | _ => let n := (bufSize - length (buf w))%nat in
         room fuel (fst (Flush (mk (buf w ++ take n p) None (file w)))) (drop n p)
  end.
Proof. intros [H1 H2]. cbn [room]. by rewrite !bool_decide_eq_true_2. Qed.
Lemma room_cases w p : tooLong w p \/
  (forall fuel, room fuel w p = Ok (w, p)) /\ (err w = None -> (length p <= bufSize - length (buf w))%nat).
Proof.
  destruct (decide (bufSize - length (buf w) < length p)%nat) as [Hl|Hl].
  - destruct (decide (err w = None)) as [He|He]; [by left|right]. split; [|done]. intros. by apply room_done; right.
  - right. split; [|lia]. intros. apply room_done. left. lia.
Qed.

(** Two turns are enough, whatever the disk does. *)
Lemma room_empty w p : buf w = [] -> exists r, room 1 w p = Ok r.
Proof.
  intros Eb. destruct (room_cases w p) as [Hl|[Hd _]]; [|eauto]. rewrite room_turn, Eb by done.
  unfold fileWrite. destruct (fault _ _) as [[n e]|]; eexists; apply room_done; [by right|left].
  rewrite drop_all. cbn. lia.
Qed.
Lemma room_ends w p : ends (room 2 w p).
Proof.
  destruct (room_cases w p) as [Hl|[Hd _]]; [|by rewrite Hd]. rewrite room_turn by done. destruct (buf w) as [|b bs] eqn:Eb.
  - unfold fileWrite. destruct (fault _ _) as [[n e]|].
    + by rewrite room_done by (by right).
    + destruct (room_empty (mk [] None (mkFile (name (file w)) (content (file w) ++ p) (S (writes (file w))))) (drop (length p) p) eq_refl) as [r ->].
      done.
  - cbv zeta. set (w1 := fst (Flush _)). set (p1 := drop _ _).
    destruct (Flush_empties (mk ((b :: bs) ++ take (bufSize - length (b :: bs)) p) None (file w)) eq_refl) as [He|He]; fold w1 in He.
    + by rewrite room_done by (by right).
    + by destruct (room_empty w1 p1 He) as [r ->].
Qed.

(** A disk without faults. *)
Context (Hdisk : forall f n, fault f n = None).

Lemma Flush_clean w : sound w -> exists w', Flush w = (w', None) /\ sound w' /\ buf w' = [] /\
  content (file w') = flat w /\ name (file w') = name (file w).
Proof.
  intros [He Hr]. unfold Flush, flat. rewrite He. destruct (buf w) as [|b bs] eqn:Eb.
  - exists w. split; [done|]. split; [split; [done|by rewrite Eb; cbn; lia]|]. by rewrite app_nil_r.
  - unfold fileWrite. rewrite Hdisk. eexists. split; [done|]. split; [split; [done|cbn; lia]|]. done.
Qed.

Lemma room_once w p : sound w -> buf w = [] -> exists w' p', room 1 w p = Ok (w', p') /\ sound w' /\
  flat w' ++ p' = flat w ++ p /\ (length (buf w') + length p' <= bufSize)%nat /\ name (file w') = name (file w).
Proof.
  intros [He Hr] Eb. destruct (room_cases w p) as [Hl|[Hd Hf]].
  - rewrite room_turn, Eb by done. unfold fileWrite. rewrite Hdisk, drop_all. eexists _, [].
    split; [apply room_done; left; cbn; lia|]. split; [split; [done|cbn; lia]|]. unfold flat. cbn. rewrite Eb, !app_nil_r.
    split; [done|]. split; [lia|done].
  - exists w, p. split; [done|]. split; [done|]. split; [done|]. split; [|done]. specialize (Hf He). rewrite Eb in *. cbn [length] in *. lia.
Qed.

Lemma room_clean w p : sound w -> exists w' p', room 2 w p = Ok (w', p') /\ sound w' /\
  flat w' ++ p' = flat w ++ p /\ (length (buf w') + length p' <= bufSize)%nat /\ name (file w') = name (file w).
Proof.
  intros S0. destruct (room_cases w p) as [Hl|[Hd Hf]].
  2: { exists w, p. split; [done|]. split; [done|]. split; [done|]. destruct S0 as [He Hr]. specialize (Hf He). split; [lia|done]. }
  rewrite room_turn by done. destruct (buf w) as [|b bs] eqn:Eb.
  { unfold fileWrite. rewrite Hdisk, drop_all. eexists _, []. split; [apply room_done; left; cbn; lia|].
    split; [split; [done|cbn; lia]|]. unfold flat. cbn. rewrite Eb, !app_nil_r. split; [done|]. split; [lia|done]. }
  cbv zeta. set (k := (bufSize - length (b :: bs))%nat).
  destruct (Flush_clean (mk ((b :: bs) ++ take k p) None (file w))) as (w1 & E1 & S1 & B1 & F1 & N1).
  { split; [done|]. cbn [buf]. rewrite length_app, length_take. destruct S0 as [_ S0]. rewrite Eb in S0. lia. }
  rewrite E1. cbn [fst]. destruct (room_once w1 (drop k p) S1 B1) as (w' & p' & E & S & F & L & N).
  exists w', p'. split; [exact E|]. split; [done|]. split; [|split; [done|by rewrite N, N1]].
  rewrite F. unfold flat at 1. rewrite B1, app_nil_r, F1. unfold flat. cbn [content file buf]. rewrite Eb.
  rewrite <- !app_assoc. by rewrite take_drop.
Qed.

Lemma Write_clean w p : sound w -> exists w', Write w p = Ok (w', None) /\ sound w' /\ flat w' = flat w ++ p /\
  name (file w') = name (file w).
Proof.
  intros Hs. destruct (room_clean w p Hs) as (w1 & p1 & E & [He Hr] & F & L & N). unfold Write. rewrite E. cbn [gbind].
  rewrite He. eexists. split; [done|]. split; [split; [done|cbn; rewrite length_app; lia]|]. split; [|done].
  unfold flat in *. cbn. by rewrite <- F, app_assoc.
Qed.
End buffered.

Module EventLogSpec.
Import ConsensusEvent BlockLogger.

(** ** What is written is read *)

Section files.
Context `{EventJSON, Disk, !EventJSONLaws} (Hdisk : forall f n, fault f n = None).

Lemma writeAll_clean w l : sound w -> exists w', writeAll w l = Ok (w', None) /\ sound w' /\ name (Bufio.file w') = name (Bufio.file w).
Proof.
  revert w. induction l as [|s l IH]; intros w Hs; cbn [writeAll]; [by exists w|].
  destruct (Write_clean Hdisk w (of_str s) Hs) as (w1 & -> & S1 & _ & N1). cbn [gbind].
  destruct (IH w1 S1) as (w2 & E2 & S2 & N2). exists w2. split; [done|]. split; [done|by rewrite N2].
Qed.

(** A started writer whose brief file has the contents [c], all of them written. *)
Definition holding (w : Writer) (c : bytes) : Prop := exists b f, briefWriter w = Some b /\ writer w = Some f /\
  sound b /\ sound f /\ Bufio.buf b = [] /\ content (Bufio.file b) = c.
Definition line (e : t) : bytes := match eventMarshal e with inl bz => bz ++ [Bufio.newline] | inr _ => [] end.
Definition brief (w : Writer) : option bytes := fmap (fun b => content (Bufio.file b)) (briefWriter w).

Lemma Write_holding w c e bz : holding w c -> eventMarshal e = inl bz ->
  exists w', Write w e = Ok (w', None) /\ holding w' (c ++ line e).
Proof.
  intros (b & f & Eb & Ef & Sb & Sf & Bb & Cb) Em. unfold Write, line. rewrite Eb, Ef, Em. cbn [deref gbind].
  assert (exists f1, (if IsRoundStart e then Bufio.Write f [Bufio.newline; Bufio.newline] else Ok (f, None)) = Ok (f1, None) /\ sound f1)
    as (f1 & -> & S1).
  { destruct (IsRoundStart e); [|by exists f]. destruct (Write_clean Hdisk f [Bufio.newline; Bufio.newline] Sf) as (f1 & E1 & S1 & _). eauto. }
  cbn [gbind]. unfold WriteEvent. destruct (writeAll_clean f1 (pieces e) S1) as (f2 & -> & S2 & _). cbn [gbind].
  unfold WriteJson. rewrite Em. destruct (Write_clean Hdisk b (bz ++ [Bufio.newline]) Sb) as (b1 & -> & Sb1 & Fb1 & _).
  cbn [gbind both]. destruct (Flush_clean Hdisk b1 Sb1) as (b2 & -> & Sb2 & Bb2 & Cb2 & _).
  destruct (Flush_clean Hdisk f2 S2) as (f3 & -> & S3 & _). eexists. split; [done|]. exists b2, f3. split_and!; try done.
  rewrite Cb2, Fb1. unfold flat. by rewrite Bb, app_nil_r, Cb.
Qed.

(** A writer that was started on a new file. *)
Lemma OnStart_holding d n c w : OnStart (NewBlockWriter d n c) = (w, None) ->
  OpenFile (brief_path (NewBlockWriter d n c)) = inl [] -> holding w [].
Proof.
  unfold OnStart. intros E Eo. destruct (EnsureDir _); [done|]. rewrite Eo in E. destruct (OpenFile (path _)) as [f|]; [|done].
  injection E as <-. eexists _, _. split; [done|]. split; [done|]. split_and!; try done; (split; [done|cbn; lia]).
Qed.

Definition writeEvents (w : Writer) (es : list t) : go Writer :=
  go_foldl (fun w e => let! '(w, _) := Write w e in Ok w) w es.
Lemma writeEvents_holding w c es : holding w c -> Forall (fun e => exists bz, eventMarshal e = inl bz) es ->
  exists w', writeEvents w es = Ok w' /\ holding w' (c ++ concat (map line es)).
Proof.
  intros Hw Hes. revert w c Hw. induction Hes as [|e es [bz Em] _ IH]; intros w c Hw.
  - exists w. cbn. by rewrite app_nil_r.
  - destruct (Write_holding w c e bz Hw Em) as (w1 & E1 & Hw1).
    destruct (IH w1 _ Hw1) as (w2 & E2 & Hw2). exists w2. unfold writeEvents in *. cbn [go_foldl map concat].
    rewrite E1. cbn [gbind]. by rewrite app_assoc.
Qed.

Lemma upToNewline_line l rest : Bufio.newline ∉ l -> Bufio.upToNewline (l ++ Bufio.newline :: rest) = (l, rest, true).
Proof.
  induction l as [|b l IH]; intros Hn; cbn [Bufio.upToNewline app]; [done|].
  rewrite bool_decide_eq_false_2 by (intros ->; apply Hn; constructor). rewrite IH; [done|]. intros Hin. apply Hn. by constructor.
Qed.
Lemma ReadLine_line l rest : Bufio.newline ∉ l -> last l <> Some Bufio.cr -> (length l < Bufio.bufSize)%nat ->
  Bufio.ReadLine (l ++ Bufio.newline :: rest) = Some (l, rest).
Proof.
  intros Hn Hc Hl. unfold Bufio.ReadLine. rewrite upToNewline_line by done. rewrite bool_decide_eq_false_2 by lia.
  unfold Bufio.dropCR. by rewrite bool_decide_eq_false_2.
Qed.

(** An event that comes back: in ASCII, on one line of the reader. *)
Definition readable (e : t) : Prop := ascii (RoundStep e) /\ ascii (Message e) /\
  exists bz, eventMarshal e = inl bz /\ (length bz < Bufio.bufSize)%nat.

Lemma readEvents_lines es : Forall readable es -> forall fuel, (length (concat (map line es)) <= fuel)%nat ->
  readEvents fuel (concat (map line es)) = Ok (map ended es).
Proof.
  induction 1 as [|e es (A1 & A2 & bz & Em & Hl) _ IH]; intros fuel Hf; cbn [map concat] in *; [by destruct fuel|].
  unfold line at 1. unfold line at 1 in Hf. rewrite Em in *. rewrite <- app_assoc in *. cbn [app] in *.
  assert (Bufio.ReadLine (bz ++ Bufio.newline :: concat (map line es)) = Some (bz, concat (map line es))) as Er.
  { apply ReadLine_line; [by eapply event_line|by rewrite (event_object e bz Em)|done]. }
  rewrite length_app in Hf. cbn [length] in Hf. destruct fuel as [|fuel]; [lia|]. cbn [readEvents]. rewrite Er.
  rewrite (event_roundtrip e bz A1 A2 Em). rewrite IH by lia. done.
Qed.

(** The reader gets back what a node logged. *)
Lemma log_read w es : holding w [] -> Forall readable es ->
  exists w', writeEvents w es = Ok w' /\ NewReader (brief w') = Ok (map ended es).
Proof.
  intros Hw Hes. destruct (writeEvents_holding w [] es Hw) as (w' & E & b & f & Eb & _ & _ & _ & _ & Cb).
  { eapply Forall_impl; [exact Hes|]. intros e (_ & _ & bz & Em & _). eauto. }
  exists w'. split; [done|]. unfold NewReader, brief. rewrite Eb. cbn [fmap option_fmap option_map deref gbind]. rewrite Cb.
  by apply readEvents_lines.
Qed.
End files.

(** ** The message of a finished height *)

Lemma of_str_append s u : of_str (s +:+ u) = of_str s ++ of_str u.
Proof.
  induction s as [|c s IH]; [done|]. change (String c s +:+ u) with (String c (s +:+ u)).
  change (Ascii.byte_of_ascii c :: of_str (s +:+ u) = Ascii.byte_of_ascii c :: of_str s ++ of_str u). by rewrite IH.
Qed.

Lemma bval_pretty x : (x < 10)%N -> bval (Ascii.byte_of_ascii (pretty_N_char x)) = 48 + Z.of_N x.
Proof.
  intros Hx. assert (x = 0 \/ x = 1 \/ x = 2 \/ x = 3 \/ x = 4 \/ x = 5 \/ x = 6 \/ x = 7 \/ x = 8 \/ x = 9)%N as Hc by lia.
  by destruct_or! Hc; subst x; vm_compute.
Qed.
Lemma digits_pretty n s : digits 0 (of_str (pretty_N_go n s)) = digits (Z.of_N n) (of_str s).
Proof.
  revert s. induction (N.lt_wf_0 n) as [n _ IH]; intros s. destruct (decide (0 < n)%N) as [Hn|Hn].
  - rewrite pretty_N_go_step by done. rewrite IH by (apply N.div_lt; lia).
    change (of_str (String (pretty_N_char (n `mod` 10)) s)) with (Ascii.byte_of_ascii (pretty_N_char (n `mod` 10)) :: of_str s).
    pose proof (N.mod_lt n 10 ltac:(done)) as Hm. pose proof (N.div_mod n 10 ltac:(done)) as Hd.
    set (m := (n `mod` 10)%N) in *. set (q := (n `div` 10)%N) in *. clearbody m q. cbn [digits]. rewrite bval_pretty by done.
    rewrite !(proj2 (Z.leb_le _ _)) by lia. cbn [andb]. f_equal. lia.
  - assert (n = 0%N) as -> by lia. by rewrite pretty_N_go_0.
Qed.
Lemma digits_range acc s v : digits acc s = Some v -> Forall (fun b => 48 <= bval b <= 57) s.
Proof.
  revert acc. induction s as [|b s IH]; intros acc; cbn [digits]; [constructor|].
  destruct (Z.leb_spec 48 (bval b)), (Z.leb_spec (bval b) 57); cbn [andb]; try done. constructor; [lia|by eapply IH].
Qed.
Lemma pretty_digits z : 0 <= z -> digits 0 (of_str (pretty z)) = Some z /\ of_str (pretty z) <> [].
Proof.
  intros Hz. destruct z as [|p|p]; [by vm_compute|..]; [|lia].
  change (pretty (Z.pos p)) with (pretty_N_go (N.pos p) ""). pose proof (digits_pretty (N.pos p) "") as E.
  split; [by rewrite E|]. intros En. by rewrite En in E.
Qed.
Lemma Atoi_pretty z : 0 <= z < 2 ^ 63 -> Atoi (of_str (pretty z)) = Some z.
Proof.
  intros Hz. destruct (pretty_digits z) as [E Hn]; [lia|]. pose proof (digits_range _ _ _ E) as Hr. unfold Atoi.
  destruct (of_str (pretty z)) as [|b s]; [done|]. apply Forall_cons in Hr as [Hb _].
  assert (match b with Byte.x2d => (true, s) | Byte.x2b => (false, s) | _ => (false, b :: s) end = (false, b :: s)) as ->.
  { destruct b; done || (exfalso; by vm_compute in Hb). }
  rewrite E. destruct (Z.leb_spec (- 2 ^ 63) z), (Z.ltb_spec z (2 ^ 63)); cbn [andb]; (done || lia).
Qed.

Lemma Split_one sep s : sep ∉ s -> Split sep s = [s].
Proof.
  induction s as [|b s IH]; intros Hs; cbn [Split]; [done|]. apply not_elem_of_cons in Hs as [Hb Hs].
  rewrite bool_decide_eq_false_2 by congruence. by rewrite IH.
Qed.
Lemma Split_sep sep s u : sep ∉ s -> Split sep (s ++ sep :: u) = s :: Split sep u.
Proof.
  induction s as [|b s IH]; intros Hs; cbn [Split app]; [by rewrite bool_decide_eq_true_2|].
  apply not_elem_of_cons in Hs as [Hb Hs]. rewrite bool_decide_eq_false_2 by congruence. by rewrite IH.
Qed.
Lemma pretty_noComma z : 0 <= z -> Byte.x2c ∉ of_str (pretty z).
Proof.
  intros Hz Hin. destruct (pretty_digits z Hz) as [E%digits_range _]. rewrite Forall_forall in E.
  specialize (E _ Hin). change (bval Byte.x2c) with 44 in E. lia.
Qed.

Lemma finishData_numbers e a b c : Message e = finishMessage a b c -> 0 <= a -> 0 <= b -> 0 <= c ->
  finishData e = Ok [of_str (pretty a); of_str (pretty b); of_str (pretty c)].
Proof.
  intros Em Ha Hb Hc. unfold finishData. rewrite Em. unfold finishMessage. rewrite !of_str_append.
  change (of_str ",") with [Byte.x2c]. change (of_str "]") with [Byte.x5d].
  set (body := of_str (pretty a) ++ Byte.x2c :: of_str (pretty b) ++ Byte.x2c :: of_str (pretty c)).
  assert (of_str "finish[" ++ of_str (pretty a) ++ [Byte.x2c] ++ of_str (pretty b) ++ [Byte.x2c] ++ of_str (pretty c) ++ [Byte.x5d] =
    of_str "finish[" ++ body ++ [Byte.x5d]) as -> by (unfold body; by rewrite <- !app_assoc; cbn; rewrite <- app_assoc).
  unfold slice. change (zlen (of_str BLOCK_FINISH_HEIGHT)) with 6. rewrite !length_app.
  change (length (of_str "finish[")) with 7%nat. cbn [length].
  rewrite !(proj2 (Z.leb_le _ _)) by lia. cbn [andb gbind].
  assert (take (Z.to_nat (Z.of_nat (7 + (length body + 1)) - 1 - (6 + 1))) (drop (Z.to_nat (6 + 1)) (of_str "finish[" ++ body ++ [Byte.x5d])) = body) as ->.
  { change (drop _ _) with (body ++ [Byte.x5d]). apply take_app_length'. lia. }
  f_equal. unfold body. rewrite Split_sep by (by apply pretty_noComma). rewrite Split_sep by (by apply pretty_noComma).
  by rewrite Split_one by (by apply pretty_noComma).
Qed.

(** ** The log of a node

    It enters a height, goes through its steps, and finishes it with the numbers
    of its transactions; the log ends inside a height. *)
Record HeightLog := mkHeight { entered : t; inside : list t; innerTxs : Z; passTxs : Z; allTxs : Z; finished : t }.
Definition within (h : Z) (e : t) : Prop := Height e = h /\ IsRoundStart e = false /\ IsRoundEnd e = false.
Record logged (h : Z) (x : HeightLog) : Prop := {
  lg_entered : Height (entered x) = h /\ IsRoundStart (entered x) = true /\ IsRoundEnd (entered x) = false;
  lg_inside : Forall (within h) (inside x);
  lg_finished : Height (finished x) = h /\ IsRoundStart (finished x) = false /\ IsRoundEnd (finished x) = true /\
    Message (finished x) = finishMessage (innerTxs x) (passTxs x) (allTxs x);
  lg_numbers : 0 <= innerTxs x /\ 0 <= passTxs x /\ 0 <= allTxs x /\ innerTxs x + passTxs x + allTxs x < 2 ^ 63
}.
Definition eventsOf (x : HeightLog) : list t := entered x :: inside x ++ [finished x].
Definition nodeLog (hs : list HeightLog) (e : t) (rest : list t) : list t := concat (map eventsOf hs) ++ e :: rest.
(** The heights of the log, from [n] on. *)
Inductive loggedFrom : Z -> list HeightLog -> Prop :=
| logged_nil n : loggedFrom n []
| logged_cons n x hs : logged n x -> loggedFrom (n + 1) hs -> loggedFrom n (x :: hs).
Definition busy (x : HeightLog) : Prop := innerTxs x + allTxs x <> 0.

Lemma within_other n e : within n e -> isFinish e = false.
Proof. intros (_ & _ & E). unfold isFinish. by rewrite E. Qed.
Lemma ended_none e : IsRoundEnd e = false \/ IsRoundStart e = false -> ended e = e.
Proof. intros [E|E]; unfold ended; rewrite E; [done|by rewrite andb_false_r]. Qed.
Lemma ended_inside n l : Forall (within n) l -> map ended l = l.
Proof. intros Hi. induction Hi as [|e l (_ & _ & E) _ IH]; [done|]. cbn [map]. by rewrite ended_none, IH by auto. Qed.
Lemma ended_log n x : logged n x -> map ended (eventsOf x) = eventsOf x.
Proof.
  intros [(_ & _ & E1) Hi (_ & E2 & _ & _) _]. unfold eventsOf. cbn [map]. rewrite map_app, (ended_inside n _ Hi). cbn [map].
  by rewrite !ended_none by auto.
Qed.
Lemma ended_nodeLog n hs e rest m : loggedFrom n hs -> IsRoundEnd e = false -> Forall (within m) rest ->
  map ended (nodeLog hs e rest) = nodeLog hs e rest.
Proof.
  intros L E Hi. unfold nodeLog. rewrite map_app. cbn [map]. rewrite (ended_inside m rest Hi), ended_none by auto. f_equal.
  clear E Hi. induction L as [|n x hs Lx _ IH]; [done|]. cbn [map concat]. by rewrite map_app, (ended_log n x Lx), IH.
Qed.

(** *** Periods *)

Lemma periods_skip p l n : Forall (within n) l -> go_foldl periodEvent p l = Ok p.
Proof.
  intros Hl. induction Hl as [|e l He _ IH]; cbn [go_foldl]; [done|]. unfold periodEvent at 1.
  by rewrite (within_other n e He).
Qed.
(** What one height does. *)
Definition periodHeight (p : Periods) (h : Z) (x : HeightLog) : Periods :=
  if stateMachine p && (innerTxs x + allTxs x =? 0) then mkPeriods (starts p) (BlockLogger.ends p ++ [h - 1]) false
  else if negb (stateMachine p) && negb (innerTxs x + allTxs x =? 0) then mkPeriods (starts p ++ [h]) (BlockLogger.ends p) true
  else p.

Lemma number_pretty a b c z i : zlook [a; b; c] i = Some (of_str (pretty z)) -> 0 <= z < 2 ^ 63 -> number [a; b; c] i = Ok z.
Proof. intros El Hz. unfold number, idx. rewrite El. cbn [deref gbind]. by rewrite Atoi_pretty. Qed.

Lemma isFinish_logged n x : logged n x -> isFinish (finished x) = true.
Proof. intros L. destruct (lg_finished _ _ L) as (_ & _ & Ee & Em). unfold isFinish. by rewrite Ee, Em. Qed.
Lemma finishData_logged n x : logged n x ->
  finishData (finished x) = Ok [of_str (pretty (innerTxs x)); of_str (pretty (passTxs x)); of_str (pretty (allTxs x))].
Proof. intros L. destruct (lg_finished _ _ L) as (_ & _ & _ & Em). destruct (lg_numbers _ _ L) as (? & ? & ? & _). by apply finishData_numbers. Qed.

Lemma periods_height p n x : logged n x -> - 2 ^ 63 < n < 2 ^ 63 -> go_foldl periodEvent p (eventsOf x) = Ok (periodHeight p n x).
Proof.
  intros L Hn. unfold eventsOf. cbn [go_foldl]. unfold periodEvent at 1.
  assert (isFinish (entered x) = false) as -> by (unfold isFinish; by rewrite (proj2 (proj2 (lg_entered _ _ L)))).
  cbn [gbind]. rewrite go_foldl_app, (periods_skip _ _ n) by apply L. cbn [gbind go_foldl]. unfold periodEvent.
  rewrite (isFinish_logged n x L), (finishData_logged n x L). cbn [gbind].
  destruct (lg_numbers _ _ L) as (H1 & H2 & H3 & H4). rewrite (number_pretty _ _ _ (innerTxs x) 0) by (done || lia).
  rewrite (number_pretty _ _ _ (allTxs x) 2) by (done || lia). cbn [gbind].
  rewrite (proj1 (lg_finished _ _ L)). rewrite !wrap_s_small by (unfold in_s; lia). unfold periodHeight.
  by destruct (stateMachine p && _); [|destruct (negb _ && _)].
Qed.

(** The periods found in the first heights: apart from each other, and together
    the busy heights. *)
Definition apart (ps : list (Z * Z)) : Prop := StronglySorted (fun p q => p.2 + 1 < q.1) ps.
Record exact (n : Z) (hs : list HeightLog) (ps : list (Z * Z)) : Prop := {
  ex_range a b : (a, b) ∈ ps -> n <= a <= b /\ b < n + zlen hs;
  ex_apart : apart ps;
  ex_busy i x : hs !! i = Some x -> busy x <-> exists a b, (a, b) ∈ ps /\ a <= n + Z.of_nat i <= b
}.
(** An open period is taken to end with the last height. *)
Definition found (n : Z) (hs : list HeightLog) (ps : list (Z * Z)) (p : Periods) : Prop :=
  exact n hs ps /\ starts p = ps.*1 /\
  if stateMachine p then exists qs a, ps = qs ++ [(a, n + zlen hs - 1)] /\ BlockLogger.ends p = qs.*2
  else BlockLogger.ends p = ps.*2 /\ forall a b, (a, b) ∈ ps -> b + 1 < n + zlen hs.

Definition covered (ps : list (Z * Z)) (h : Z) : Prop := exists a b, (a, b) ∈ ps /\ a <= h <= b.
Lemma covered_snoc ps a b h : covered (ps ++ [(a, b)]) h <-> covered ps h \/ a <= h <= b.
Proof.
  unfold covered. split.
  - intros (a' & b' & [Hin|[= -> ->]%list_elem_of_singleton]%elem_of_app & Hh); [left; eauto|by right].
  - intros [(a' & b' & Hin & Hh)|Hh]; [exists a', b'|exists a, b]; (split; [set_solver|done]).
Qed.
Lemma apart_snoc ps a b : apart (ps ++ [(a, b)]) <-> apart ps /\ forall a' b', (a', b') ∈ ps -> b' + 1 < a.
Proof.
  unfold apart. rewrite StronglySorted_app. split.
  - intros (Hx & Hs & _). split; [done|]. intros a' b' Hin. apply (Hx _ (a, b)) in Hin; [done|by constructor].
  - intros [Hs Hx]. split; [|split; [done|repeat constructor]]. intros [a' b'] q Hin ->%list_elem_of_singleton. by eapply Hx.
Qed.

Lemma exact_snoc n hs x ps ps' : exact n hs ps ->
  (forall a b, (a, b) ∈ ps' -> n <= a <= b /\ b < n + zlen hs + 1) -> apart ps' ->
  (forall h, h < n + zlen hs -> covered ps' h <-> covered ps h) ->
  (covered ps' (n + zlen hs) <-> busy x) -> exact n (hs ++ [x]) ps'.
Proof.
  intros [E1 E2 E3] Hr Ha Hold Hnew. split; [|done|].
  - intros a b Hin. specialize (Hr a b Hin). rewrite length_app. cbn [length]. lia.
  - intros i y [Hi|[Hi Hy]]%lookup_app_Some.
    + pose proof (lookup_lt_Some _ _ _ Hi). fold (covered ps' (n + Z.of_nat i)). rewrite Hold by lia. by apply E3.
    + destruct (i - length hs)%nat as [|k] eqn:Ek; [|done]. injection Hy as <-. assert (i = length hs) as -> by lia. by rewrite <- Hnew.
Qed.

Lemma found_height n hs ps p x : found n hs ps p -> exists ps', found n (hs ++ [x]) ps' (periodHeight p (n + zlen hs) x).
Proof.
  intros (He & Es & Hc). pose proof He as [E1 E2 E3]. set (h := n + zlen hs) in *.
  assert (n + zlen (hs ++ [x]) = h + 1) as El by (rewrite length_app; cbn [length]; lia).
  assert (~ covered ps h) as Hnc by (intros (a & b & Hin & Hh); apply E1 in Hin; lia).
  unfold periodHeight, found. rewrite El. destruct (stateMachine p) eqn:Em; cbn [andb negb].
  - destruct Hc as (qs & a & -> & Ee). assert (n <= a <= h - 1) as Hah by (destruct (E1 a (h - 1)); [set_solver|lia]).
    destruct (Z.eqb_spec (innerTxs x + allTxs x) 0) as [Et|Et].
    + exists (qs ++ [(a, h - 1)]). cbn [starts BlockLogger.ends stateMachine]. split; [|split; [done|split; [by rewrite fmap_app, Ee|]]].
      * apply (exact_snoc n hs x (qs ++ [(a, h - 1)])); [done| |done|done|].
        -- intros a' b' Hin. apply E1 in Hin. lia.
        -- unfold busy. split; [by intros ?|]. intros Hb. by destruct Hb.
      * intros a' b' Hin. apply E1 in Hin. lia.
    + rewrite Em. exists (qs ++ [(a, h)]). apply apart_snoc in E2 as [Ha1 Ha2]. split; [|split].
      * apply (exact_snoc n hs x (qs ++ [(a, h - 1)])); [done| | | |].
        -- intros a' b' [Hin|[= -> ->]%list_elem_of_singleton]%elem_of_app; [|lia]. destruct (E1 a' b'); [set_solver|lia].
        -- by apply apart_snoc.
        -- intros k Hk. rewrite !covered_snoc. split; (intros [?|?]; [by left|right; lia]).
        -- rewrite covered_snoc. unfold busy. split; [done|]. intros _. right. lia.
      * by rewrite Es, !fmap_app.
      * exists qs, a. split; [|done]. do 3 f_equal. lia.
  - destruct Hc as [Ee Hb]. destruct (Z.eqb_spec (innerTxs x + allTxs x) 0) as [Et|Et]; cbn [negb].
    + rewrite Em. exists ps. split; [|split; [done|split; [done|]]].
      * apply (exact_snoc n hs x ps); [done| |done|done|].
        -- intros a' b' Hin. apply E1 in Hin. lia.
        -- unfold busy. split; [by intros ?|]. intros Hb'. by destruct Hb'.
      * intros a' b' Hin. apply Hb in Hin. lia.
    + exists (ps ++ [(h, h)]). cbn [starts BlockLogger.ends stateMachine]. split; [|split; [by rewrite fmap_app, Es|]].
      * apply (exact_snoc n hs x ps); [done| | | |].
        -- intros a' b' [Hin|[= -> ->]%list_elem_of_singleton]%elem_of_app; [|lia]. apply E1 in Hin. lia.
        -- apply apart_snoc. split; [done|]. intros a' b' Hin. by apply (Hb a' b').
        -- intros k Hk. rewrite covered_snoc. split; [|by left]. intros [?|?]; [done|lia].
        -- rewrite covered_snoc. unfold busy. split; [done|]. intros _. right. lia.
      * exists ps, h. split; [|done]. do 3 f_equal. lia.
Qed.

Lemma found_heights n l : forall hs ps p, loggedFrom (n + zlen hs) l -> - 2 ^ 63 < n -> n + zlen (hs ++ l) < 2 ^ 63 ->
  found n hs ps p -> exists ps' p', go_foldl periodEvent p (concat (map eventsOf l)) = Ok p' /\ found n (hs ++ l) ps' p'.
Proof.
  induction l as [|x l IH]; intros hs ps p L Hn Hb Hf.
  - exists ps, p. by rewrite app_nil_r.
  - inversion L as [|? ? ? Lx Ll]; subst. rewrite length_app in Hb. cbn [length] in Hb.
    destruct (found_height n hs ps p x Hf) as (ps1 & F1).
    destruct (IH (hs ++ [x]) ps1 (periodHeight p (n + zlen hs) x)) as (ps' & p' & E & F); [..|done|].
    + rewrite length_app. cbn [length]. by replace (n + Z.of_nat (length hs + 1)) with (n + zlen hs + 1) by lia.
    + done.
    + rewrite <- app_assoc, length_app. cbn [length app]. lia.
    + exists ps', p'. cbn [map concat]. rewrite go_foldl_app, (periods_height _ (n + zlen hs)) by (done || lia).
      split; [exact E|]. by rewrite <- app_assoc in F.
Qed.

(** The last events are of the height that is not finished yet. *)
Record openHeight (h : Z) (e : t) (rest : list t) : Prop := {
  op_entered : Height e = h /\ IsRoundStart e = true /\ IsRoundEnd e = false;
  op_inside : Forall (within h) rest
}.
Lemma last_event {A} (l : list A) a rest : idx (l ++ a :: rest) (zlen (l ++ a :: rest) - 1) = Ok (List.last rest a).
Proof.
  revert l a. induction rest as [|b rest IH]; intros l a.
  - rewrite length_app. cbn [length List.last]. unfold idx, zlook. rewrite decide_False by lia.
    replace (Z.to_nat _) with (length l) by lia. by rewrite list_lookup_middle.
  - specialize (IH (l ++ [a]) b). rewrite <- app_assoc in IH. cbn [app] in IH. rewrite IH. f_equal.
    destruct rest as [|c rest]; [done|]. cbn [List.last]. clear IH. revert c. induction rest as [|c' rest IH]; intros c; [done|]. exact (IH c').
Qed.

(** The periods of a log. *)
Lemma periods_exact n hs e rest : loggedFrom n hs -> openHeight (n + zlen hs) e rest -> - 2 ^ 63 < n -> n + zlen hs < 2 ^ 63 ->
  exists ps, NoneZeroPeriods (nodeLog hs e rest) = Ok (ps.*1, ps.*2) /\ exact n hs ps.
Proof.
  intros L [(Eh & _ & Ee) Hi] Hn Hb. destruct (found_heights n hs [] [] (mkPeriods [] [] false)) as (ps & p & E & F).
  - cbn. by rewrite Z.add_0_r.
  - done.
  - done.
  - split; [split; [by intros a b ?%not_elem_of_nil|constructor|done]|]. split; [done|]. split; [done|by intros a b ?%not_elem_of_nil].
  - exists ps. destruct F as (He & Es & Hc). split; [|done]. unfold NoneZeroPeriods, nodeLog. rewrite go_foldl_app, E.
    cbn [gbind go_foldl]. unfold periodEvent at 1. assert (isFinish e = false) as -> by (unfold isFinish; by rewrite Ee).
    cbn [gbind]. rewrite (periods_skip p rest (n + zlen hs)) by done. cbn [gbind]. destruct (stateMachine p) eqn:Em.
    + destruct Hc as (qs & a & -> & Eq). rewrite last_event. cbn [gbind].
      assert (Height (List.last rest e) = n + zlen hs) as ->.
      { clear -Hi Eh. revert e Eh. induction Hi as [|b rest [Hb' _] _ IH]; intros e Eh; [done|]. cbn [List.last].
        destruct rest; [done|]. by apply (IH e). }
      rewrite wrap_s_small by (unfold in_s; lia). by rewrite Es, Eq, !fmap_app.
    + destruct Hc as [Eq _]. by rewrite Es, Eq.
Qed.

(** *** Rates *)

Definition heightAt (n : Z) (hs : list HeightLog) (h : Z) : option HeightLog := zlook hs (h - n).
(** The sum over the heights from [i] to [j]. *)
Fixpoint sumOver (f : HeightLog -> Z) (i j n : Z) (hs : list HeightLog) : Z :=
  match hs with
  | [] => 0
  | x :: hs => (if (i <=? n) && (n <=? j) then f x else 0) + sumOver f i j (n + 1) hs
  end.
Definition tallied (n : Z) (hs : list HeightLog) (i j : Z) : Tally :=
  mkTally (from_option (fun x => Time (entered x)) zeroTime (heightAt n hs i))
    (from_option (fun x => Time (finished x)) zeroTime (heightAt n hs j))
    (i64 (sumOver allTxs i j n hs)) (i64 (sumOver passTxs i j n hs)) (i64 (sumOver innerTxs i j n hs)).

Lemma tally_skip i j r l n : Forall (within n) l -> go_foldl (tallyEvent i j) r l = Ok r.
Proof.
  intros Hl. induction Hl as [|e l He _ IH]; cbn [go_foldl]; [done|]. unfold tallyEvent at 1.
  rewrite (within_other n e He). destruct He as (_ & -> & ->). exact IH.
Qed.
Definition tallyHeight (i j : Z) (r : Tally) (n : Z) (x : HeightLog) : Tally :=
  let on := (i <=? n) && (n <=? j) in
  mkTally (if n =? i then Time (entered x) else start r) (if n =? j then Time (finished x) else end_ r)
    (if on then i64 (count r + allTxs x) else count r) (if on then i64 (commit r + passTxs x) else commit r)
    (if on then i64 (inner r + innerTxs x) else inner r).
Lemma tally_height i j r n x : logged n x -> go_foldl (tallyEvent i j) r (eventsOf x) = Ok (tallyHeight i j r n x).
Proof.
  intros L. unfold eventsOf. cbn [go_foldl]. destruct (lg_entered _ _ L) as (H1 & H2 & H3).
  unfold tallyEvent at 1. assert (isFinish (entered x) = false) as -> by (unfold isFinish; by rewrite H3).
  rewrite H1, H2, H3. cbn [andb gbind]. rewrite go_foldl_app, (tally_skip _ _ _ _ n) by apply L. cbn [gbind go_foldl].
  unfold tallyEvent. destruct (lg_finished _ _ L) as (F1 & F2 & F3 & _).
  rewrite (isFinish_logged n x L), (finishData_logged n x L), F1, F2, F3. cbn [andb gbind].
  destruct (lg_numbers _ _ L) as (N1 & N2 & N3 & N4).
  rewrite (number_pretty _ _ _ (innerTxs x) 0), (number_pretty _ _ _ (passTxs x) 1), (number_pretty _ _ _ (allTxs x) 2) by (done || lia).
  unfold tallyHeight. destruct (n =? i), (n =? j), ((i <=? n) && (n <=? j)); by destruct r.
Qed.

Lemma i64_add x y : i64 (i64 x + y) = i64 (x + y).
Proof.
  apply wrap_s_eq_mod. unfold wrap_s. set (m := 2 ^ 64). set (h := 2 ^ (64 - 1)).
  replace ((x + h) mod m - h + y) with ((x + h) mod m + (y - h)) by lia. rewrite Z.add_mod_idemp_l by done. f_equal. lia.
Qed.

Lemma heightAt_cons n x hs h : heightAt n (x :: hs) h = if n =? h then Some x else heightAt (n + 1) hs h.
Proof.
  unfold heightAt, zlook. destruct (Z.eqb_spec n h) as [->|Hne].
  - rewrite decide_False by lia. by replace (Z.to_nat (h - h)) with O by lia.
  - destruct (decide (h - n < 0)); [by rewrite decide_True by lia|]. rewrite decide_False by lia.
    by replace (Z.to_nat (h - n)) with (S (Z.to_nat (h - (n + 1)))) by lia.
Qed.
Lemma heightAt_nil n h : heightAt n [] h = None.
Proof. unfold heightAt, zlook. by destruct (decide _). Qed.
Lemma heightAt_before n hs h : h < n -> heightAt n hs h = None.
Proof. intros Hh. unfold heightAt, zlook. by rewrite decide_True by lia. Qed.

Lemma tally_heights i j hs : forall n st en c m k, loggedFrom n hs ->
  go_foldl (tallyEvent i j) (mkTally st en (i64 c) (i64 m) (i64 k)) (concat (map eventsOf hs)) =
  Ok (mkTally (from_option (fun x => Time (entered x)) st (heightAt n hs i)) (from_option (fun x => Time (finished x)) en (heightAt n hs j))
    (i64 (c + sumOver allTxs i j n hs)) (i64 (m + sumOver passTxs i j n hs)) (i64 (k + sumOver innerTxs i j n hs))).
Proof.
  induction hs as [|x hs IH]; intros n st en c m k L; cbn [map concat go_foldl sumOver].
  - by rewrite !heightAt_nil, !Z.add_0_r.
  - inversion L as [|? ? ? Lx Ll]; subst. rewrite go_foldl_app, (tally_height i j _ n x Lx). cbn [gbind].
    unfold tallyHeight. cbn [start end_ count commit inner]. rewrite !heightAt_cons, !i64_add.
    assert (forall on : bool, forall y a, (if on then i64 (y + a) else i64 y) = i64 (y + (if on then a else 0))) as Eif
      by (intros [] y a; [done|by rewrite Z.add_0_r]).
    rewrite !Eif, (IH (n + 1)) by done. rewrite <- !Z.add_assoc. f_equal. f_equal.
    + destruct (Z.eqb_spec n i) as [->|]; [|done]. by rewrite heightAt_before by lia.
    + destruct (Z.eqb_spec n j) as [->|]; [|done]. by rewrite heightAt_before by lia.
Qed.

Lemma CalculateTPS_sums n hs e rest i j : loggedFrom n hs -> openHeight (n + zlen hs) e rest -> 2 <= i -> i < n + zlen hs ->
  CalculateTPS (nodeLog hs e rest) i j =
  Ok (Some (tallied n hs i j, Z.quot (timeSub (end_ (tallied n hs i j)) (start (tallied n hs i j))) Microsecond)).
Proof.
  intros L [(E1 & E2 & E3) Hi] Hi2 Hin. unfold CalculateTPS. destruct (Z.eqb_spec i 1); [lia|]. cbn [andb].
  change (mkTally zeroTime zeroTime 0 0 0) with (mkTally zeroTime zeroTime (i64 0) (i64 0) (i64 0)).
  unfold nodeLog. rewrite go_foldl_app, (tally_heights i j hs n) by done. cbn [gbind go_foldl].
  assert (forall r, tallyEvent i j r e = Ok r) as ->.
  { intros r. unfold tallyEvent. assert (isFinish e = false) as -> by (unfold isFinish; by rewrite E3).
    rewrite E1, E2, E3. cbn [andb]. destruct (Z.eqb_spec (n + zlen hs) i); [lia|done]. }
  cbn [gbind]. by rewrite (tally_skip _ _ _ _ (n + zlen hs)).
Qed.

(** What is printed for the periods of a log that starts with the first height:
    the first height counts for no rate. *)
Definition rates (hs : list HeightLog) (p : Z * Z) : Z * Z * option (Tally * Z) :=
  let r := tallied 1 hs (Z.max 2 p.1) p.2 in
  (p.1, p.2, if p.2 =? 1 then None else Some (r, Z.quot (timeSub (end_ r) (start r)) Microsecond)).

Lemma CalculateTPS_rates hs e rest a b : loggedFrom 1 hs -> openHeight (1 + zlen hs) e rest -> 1 <= a <= b -> b < 1 + zlen hs ->
  CalculateTPS (nodeLog hs e rest) a b = Ok ((rates hs (a, b)).2).
Proof.
  intros L Ho Hab Hb. unfold rates. cbn [fst snd]. destruct (Z.eqb_spec b 1) as [->|Hb1].
  - assert (a = 1) as -> by lia. done.
  - destruct (Z.eq_dec a 1) as [->|Ha].
    + change (Z.max 2 1) with 2. rewrite <- (CalculateTPS_sums 1 hs e rest 2 b L Ho) by lia. unfold CalculateTPS.
      destruct (Z.eqb_spec b 1); [done|]. done.
    + rewrite Z.max_r by lia. apply CalculateTPS_sums; [done..|lia|lia].
Qed.

Section report.
Context `{EventJSON, Disk, !EventJSONLaws}.

(** C36: a log that a node writes to a new file on a disk without faults, from the
    first height on and ending inside a height that is not finished, is read back
    event by event; the periods that are found are apart from each other and cover
    exactly the finished heights with transactions, and the rates of a period are
    computed from the numbers of its heights, the time its first height was entered
    and the time its last one was finished. *)
Theorem log_reported dir node chain w hs e rest (Hdisk : forall f n, fault f n = None)
  (Hstart : OnStart (NewBlockWriter dir node chain) = (w, None))
  (Hnew : OpenFile (brief_path (NewBlockWriter dir node chain)) = inl [])
  (Hlog : loggedFrom 1 hs) (Hopen : openHeight (1 + zlen hs) e rest) (Hread : Forall readable (nodeLog hs e rest))
  (Hsize : zlen hs < 2 ^ 62) :
  exists w' ps, writeEvents w (nodeLog hs e rest) = Ok w' /\ NewReader (brief w') = Ok (nodeLog hs e rest) /\
    exact 1 hs ps /\ report (brief w') = Ok (map (rates hs) ps).
Proof.
  pose proof (OnStart_holding _ _ _ _ Hstart Hnew) as Hw. destruct (log_read Hdisk w _ Hw Hread) as (w' & E & Er). destruct (periods_exact 1 hs e rest) as (ps & Ep & Hps); [done|done|lia|lia|].
  destruct (op_entered _ _ _ Hopen) as (_ & _ & Ee).
  rewrite (ended_nodeLog 1 _ _ _ (1 + zlen hs)) in Er by (done || apply Hopen).
  exists w', ps. split; [done|]. split; [done|]. split; [done|]. unfold report. rewrite Er. cbn [gbind].
  rewrite Ep. cbn [gbind]. rewrite zip_fst_snd. apply go_mapM_Ok. pose proof (ex_range _ _ _ Hps) as Hr. clear Ep Hps.
  induction ps as [|[a b] ps IH]; constructor.
  - destruct (Hr a b) as [Ha Hb]; [by constructor|]. by rewrite CalculateTPS_rates by (done || lia).
  - apply IH. intros a' b' Hin. apply Hr. by constructor.
Qed.
End report.
End EventLogSpec.

(** ** A log of five heights *)

Module EventLogDemo.
Import NetworkDemo ConsensusEvent BlockLogger EventLogSpec.

Definition serBool : Ser bool := serMap serZ (fun b : bool => if b then 1 else 0) (fun z => negb (z =? 0)) (fun b => match b with true => eq_refl | false => eq_refl end).
Definition serEvent : Ser t :=
  serMap (serPair serZ (serPair serZ (serPair serString (serPair serBool (serPair serBool (serPair serString serTime))))))
    (fun e => (Height e, (Round e, (RoundStep e, (IsRoundStart e, (IsRoundEnd e, (Message e, Time e)))))))
    (fun x => mk x.1 x.2.1 x.2.2.1 x.2.2.2.1 x.2.2.2.2.1 x.2.2.2.2.2.1 x.2.2.2.2.2.2)
    (fun e => match e with mk _ _ _ _ _ _ _ => eq_refl end).

(** An object has two letters for a byte of this encoding. *)
Lemma unletters_object l x : unletters (concat (map letters l) ++ [x]) = l.
Proof.
  induction l as [|b l IH]; [done|]. rewrite <- (unletters_letters (b :: l)) at 2.
  cbn [map concat letters app unletters]. by rewrite IH, unletters_letters.
Qed.
Definition object (e : t) : bytes := Byte.x7b :: concat (map letters (put serEvent e)) ++ [Byte.x7d].
Definition unobject (bz : bytes) : t + goerr :=
  match bz with
  | Byte.x7b :: l => match get serEvent (unletters l) with
                     | Some (e, []) => inl e
                     | _ => inr (Errorf "unexpected end of JSON input")
                     end
  | _ => inr (Errorf "invalid character")
  end.
Lemma unobject_object e : unobject (object e) = inl e.
Proof.
  unfold unobject, object. rewrite unletters_object. pose proof (get_put serEvent e []) as E. rewrite app_nil_r in E.
  by rewrite E.
Qed.
#[export] Instance demoEvents : EventJSON :=
  {| eventMarshal e := inl (object e); eventUnmarshal := unobject;
     TimeString t := pretty (sec t) +:+ "." +:+ pretty (nsec t) |}.
#[export] Instance demoEvents_laws : EventJSONLaws.
Proof.
  split.
  - intros e bz _ _ [= <-]. apply unobject_object.
  - intros e bz [= <-]. apply not_elem_of_cons. split; [done|].
    intros [Hin%list_elem_of_In%in_concat|Hin%list_elem_of_singleton]%elem_of_app; [|done].
    destruct Hin as (x & (b & <- & _)%in_map_iff & Hin). by apply (letters_line b), list_elem_of_In.
  - intros e bz [= <-]. exact (last_snoc Byte.x7d (Byte.x7b :: concat (map letters (put serEvent e)))).
Qed.
#[export] Instance demoDisk : Disk :=
  {| EnsureDir _ := None; OpenFile _ := inl []; fault _ _ := None; CloseFile _ := None; pathJoin a b := a +:+ "/" +:+ b |}.

Definition at_ (s : Z) : Wire.Time := mkTime (1700000000 + s) 0.
Definition stepsOf (h : Z) : list t := [mk h 0 "RoundStepPropose" false false "Finish Proposal" (at_ (10 * h + 1))].
Definition enters (h : Z) : t := mk h 0 "RoundStepNewHeight" true false "enter New Height" (at_ (10 * h)).
Definition finishes (h a b c : Z) : t := mk h 0 "RoundStepCrossShardCommit" false true (finishMessage a b c) (at_ (10 * h + 5)).
Definition aHeight (h a b c : Z) : HeightLog := mkHeight (enters h) (stepsOf h) a b c (finishes h a b c).
Definition heights : list HeightLog := [aHeight 1 0 0 0; aHeight 2 3 0 0; aHeight 3 2 1 2; aHeight 4 0 0 0; aHeight 5 0 4 5].
Definition log : list t := nodeLog heights (enters 6) (stepsOf 6).
Definition started : Writer := fst (OnStart (NewBlockWriter "dir" "node1" "b")).
Definition readBack (es : list t) : go (list (Z * Z * option (Tally * Z))) :=
  let! w := writeEvents started es in report (brief w).

Definition isReadable (e : t) : bool :=
  bool_decide (ascii (RoundStep e)) && bool_decide (ascii (Message e)) && bool_decide (length (object e) < Bufio.bufSize)%nat.
Lemma isReadable_all es : forallb isReadable es = true -> Forall readable es.
Proof.
  intros Hall. apply List.Forall_forall. intros e He. rewrite forallb_forall in Hall. specialize (Hall e He).
  apply andb_true_iff in Hall as [[H1%bool_decide_eq_true H2%bool_decide_eq_true]%andb_true_iff H3%bool_decide_eq_true].
  split; [done|]. split; [done|]. by exists (object e).
Qed.
Lemma log_reported_witness : exists w' ps, writeEvents started log = Ok w' /\ NewReader (brief w') = Ok log /\
  exact 1 heights ps /\ report (brief w') = Ok (map (rates heights) ps).
Proof.
  apply (log_reported "dir" "node1" "b" started heights (enters 6) (stepsOf 6)).
  - done.
  - reflexivity.
  - reflexivity.
  - repeat (constructor; [split; [done|by repeat constructor|done|vm_compute; split_and!; done]|]). constructor.
  - split; [done|by repeat constructor].
  - apply isReadable_all. vm_compute. reflexivity.
  - vm_compute. reflexivity.
Defined.

(** The two periods, with the numbers of the second and third height and of the
    fifth, in microseconds. *)
Example log_report : readBack log =
  Ok [(2, 3, Some (mkTally (at_ 20) (at_ 35) 2 1 5, 15000000)); (5, 5, Some (mkTally (at_ 50) (at_ 55) 5 4 0, 5000000))].
Proof. vm_compute. reflexivity. Qed.
(** A log that ends with a finished height loses it. *)
Example last_height_lost :
  NoneZeroPeriods (concat (map eventsOf heights)) = Ok ([2; 5], [3; 4]).
Proof. vm_compute. reflexivity. Qed.
(** A line that is longer than the buffer of the reader panics. *)
Definition longLine : t := mk 1 0 "RoundStepPropose" false false (String.concat "" (repeat "0123456789" 120)) (at_ 0).
Example long_line_panics : readBack [longLine] = Panic.
Proof. vm_compute. reflexivity. Qed.
(** Without [OnStart] there is nothing to write to. *)
Example not_started : Write (NewBlockWriter "dir" "node1" "b") (enters 1) = Panic.
Proof. reflexivity. Qed.
End EventLogDemo.
