(* ===== verification/Deploy.v ===== *)
(** * The files of a deployment: [GenerateConfigFiles] of [melete/main/config.go]
    and the shards of [melete/main/json-file.go]

    From the shards and the machines of a network it assigns every node an
    address, a key pair and an index among the signers of its shard, and writes
    them to the files that [InitNode] reads. The key pairs and the path of a node
    ([filepath.Join]) are arguments. *)

From S2P Require Import Prelude Types Signer ShardInfo.
From stdpp Require Import pretty.
Local Open Scope Z_scope.

Module Deploy.

(** [json-file.go] *)
Record ShardSpec := mkSpec { ChainID : string; PeerNum : Z; RelatedShards : list string; IsI : bool; KeyRange : string }.
Record ShardConfig := mkShardConfig { IPInUse : gmap string Z; Shards : list ShardSpec }.

Record Config := mkConfig {
  NodeName : string; DirRoot : string; cfgChainID : string; cfgIsI : bool;
  LocalIP : string; LocalPort : Z;
  Protocal : string; MinBlockInterval : string; MaxPartSize : Z; MaxBlockTxNum : Z;
  SignerIndex : Z; CShardNum : Z; IShardNum : Z; ABCIApp : string }.

(** ** Machines and ports *)

(** The addresses in order, and how many nodes the largest machine takes. *)
Definition IPs (c : ShardConfig) : list string := merge_sort str_le (map fst (map_to_list (IPInUse c))).
Definition maxCounter (c : ShardConfig) : Z := foldr Z.max (-1) (map snd (map_to_list (IPInUse c))).
Definition inUse (c : ShardConfig) (ip : string) : Z := default 0 (IPInUse c !! ip).
(** The machines in turn, each as often as it takes nodes. *)
Definition IPGun (c : ShardConfig) : list string :=
  concat (map (fun i => List.filter (fun ip => Z.of_nat i <? inUse c ip) (IPs c)) (seq 0 (Z.to_nat (maxCounter c)))).

Record Ports := mkPorts { IPGunPointer : Z; IPPortToUse : gmap string Z }.
Definition firstPorts (c : ShardConfig) : Ports := mkPorts 0 (fmap (fun _ => 26601) (IPInUse c)).
Definition GetIP (gun : list string) (st : Ports) : go (string * Z * Ports) :=
  let p := if IPGunPointer st =? zlen gun then 0 else IPGunPointer st in
  let! theip := idx gun p in
  let theport := default 0 (IPPortToUse st !! theip) in
  Ok (theip, theport, mkPorts (p + 1) (<[theip := theport + 1]> (IPPortToUse st))).

(** ** Nodes *)

(** What the four lists of the code hold for a node. *)
Record Slot := mkSlot { publicKey : string; privateKey : string; ip : string; port : Z }.

Section deploy.
(** The [n]-th key pair, the private key first, or an error. *)
Context (keyPair : nat -> string * string + goerr).
(** [filepath.Join] of the directory, the address and the name of a node. *)
Context (join : string -> string -> string -> string).

Fixpoint allocate (gun : list string) (n i : nat) (st : Ports) : go (list Slot) :=
  match n with
  | O => Ok []
  | S n =>
      match keyPair i with
      | inr _ => Panic
      | inl (priv, pub) =>
          let! '(theip, theport, st) := GetIP gun st in
          let! slots := allocate gun n (S i) st in
          Ok (mkSlot pub priv theip theport :: slots)
      end
  end.

Definition address (s : Slot) : string := ip s +:+ ":" +:+ pretty (port s).
Definition peerOf (chain : string) (s : Slot) : Peer.t := Peer.NewPeer (address s) {[chain := true]} (publicKey s) 1.
Definition appendPeer (l : gmap string (list Peer.t)) (chain : string) (p : Peer.t) : gmap string (list Peer.t) :=
  <[chain := default [] (l !! chain) ++ [p]]> l.

(** The peers of a shard are the next nodes, from [count] on. *)
Fixpoint shardPeers (slots : list Slot) (chain : string) (n : nat) (x : gmap string (list Peer.t) * Z) :
    go (gmap string (list Peer.t) * Z) :=
  match n with
  | O => Ok x
  | S n =>
      let! s := idx slots x.2 in
      shardPeers slots chain n (appendPeer x.1 chain (peerOf chain s), x.2 + 1)
  end.
Definition allPeers (slots : list Slot) (shards : list ShardSpec) (x : gmap string (list Peer.t) * Z) :
    go (gmap string (list Peer.t) * Z) :=
  go_foldl (fun x si => shardPeers slots (ChainID si) (Z.to_nat (PeerNum si)) x) x shards.

Definition PeerRelatedMap (shards : list ShardSpec) : gmap string (list string) :=
  fold_left (fun m si => <[ChainID si := RelatedShards si]> m) shards ∅.
Definition keyRangeMap (shards : list ShardSpec) : gmap string string :=
  fold_left (fun m si => <[ChainID si := KeyRange si]> m) shards ∅.

(** The shards related to a shard, and the ones related to those but itself. *)
Definition setTrue (m : gmap string bool) (shard : string) : gmap string bool := <[shard := true]> m.
Definition related (si : ShardSpec) : gmap string bool := fold_left setTrue (RelatedShards si) ∅.
Definition related2 (prm : gmap string (list string)) (si : ShardSpec) : gmap string bool :=
  delete (ChainID si) (fold_left (fun m shard => fold_left setTrue (default [] (prm !! shard)) m) (RelatedShards si) ∅).
Definition shardInfo (shards : list ShardSpec) (pl : gmap string (list Peer.t)) (si : ShardSpec) : ShardInfo.t :=
  let prm := PeerRelatedMap shards in
  ShardInfo.mk pl (related si) (related2 prm si) prm (if IsI si then BLOCKTYPE_I else BLOCKTYPE_C) (keyRangeMap shards).
Definition shardInfoList (shards : list ShardSpec) (pl : gmap string (list Peer.t)) : list ShardInfo.t :=
  concat (map (fun si => repeat (shardInfo shards pl si) (Z.to_nat (PeerNum si))) shards).

Definition iNum (shards : list ShardSpec) : Z := zlen (List.filter IsI shards).
Definition cNum (shards : list ShardSpec) : Z := zlen (List.filter (fun si => negb (IsI si)) shards).
Definition nodeConfig (store_dir : string) (shards : list ShardSpec) (si : ShardSpec) (i count : Z) (s : Slot) : Config :=
  let nodeName := "node" +:+ pretty (count + 1) in
  mkConfig nodeName (join store_dir (ip s) nodeName) (ChainID si) (IsI si) (ip s) (port s)
    "melete" "10ms" (1024 * 200) 4096 i (cNum shards) (iNum shards) "minibank".

(** The configurations of a shard, from its node [i] and from [count] on. *)
Fixpoint shardConfigs (store_dir : string) (shards : list ShardSpec) (slots : list Slot) (si : ShardSpec) (n : nat) (i : Z)
    (x : list Config * Z) : go (list Config * Z) :=
  match n with
  | O => Ok x
  | S n =>
      let! s := idx slots x.2 in
      shardConfigs store_dir shards slots si n (i + 1) (x.1 ++ [nodeConfig store_dir shards si i x.2 s], x.2 + 1)
  end.
Definition configList (store_dir : string) (shards : list ShardSpec) (slots : list Slot) : go (list Config * Z) :=
  go_foldl (fun x si => shardConfigs store_dir shards slots si (Z.to_nat (PeerNum si)) 0 x) ([], 0) shards.

(** The files of a node: its configuration, the shard information, its key. *)
Fixpoint files (cfgs : list Config) (i : Z) (keys : list string) (infos : list ShardInfo.t) :
    go (list (Config * ShardInfo.t * string)) :=
  match cfgs with
  | [] => Ok []
  | cfg :: cfgs =>
      let! key := idx keys i in
      let! si := idx infos i in
      let! rest := files cfgs (i + 1) keys infos in
      Ok ((cfg, si, key) :: rest)
  end.

Definition totalNodes (shards : list ShardSpec) : nat := Z.to_nat (zsum (map PeerNum shards)).

Definition GenerateConfigFiles (c : ShardConfig) (store_dir : string) : go (list (Config * ShardInfo.t * string)) :=
  let! slots := allocate (IPGun c) (totalNodes (Shards c)) 0 (firstPorts c) in
  let! '(pl, _) := allPeers slots (Shards c) (∅, 0) in
  let! '(cfgs, _) := configList store_dir (Shards c) slots in
  files cfgs 0 (map privateKey slots) (shardInfoList (Shards c) pl).

(** ** Ports *)

Lemma GetIP_Ok gun st : gun <> [] -> 0 <= IPGunPointer st <= zlen gun ->
  exists i p st', GetIP gun st = Ok (i, p, st') /\ 0 <= IPGunPointer st' <= zlen gun /\
    p = default 0 (IPPortToUse st !! i) /\ IPPortToUse st' = <[i := p + 1]> (IPPortToUse st).
Proof.
  intros Hne Hp. unfold GetIP. set (p := if _ =? _ then 0 else _).
  assert (0 < zlen gun) by (destruct gun; [done|cbn; lia]).
  assert (0 <= p < zlen gun) as Hr.
  { unfold p. destruct (Z.eqb_spec (IPGunPointer st) (zlen gun)); lia. }
  destruct (idx_total gun p Hr) as (i & -> & _). cbn [gbind]. eexists _, _, _. split; [reflexivity|]. cbn. split_and!; done || lia.
Qed.

(** The addresses are new, and the keys are a pair. *)
Record allotted (st : Ports) (slots : list Slot) : Prop := {
  al_distinct : NoDup (map (fun s => (ip s, port s)) slots);
  al_fresh : Forall (fun s => default 0 (IPPortToUse st !! ip s) <= port s) slots;
  al_keys : Forall (fun s => exists n, keyPair n = inl (privateKey s, publicKey s)) slots
}.

Lemma allocate_Ok gun (Hkeys : forall n, exists k, keyPair n = inl k) : gun <> [] ->
  forall n i st, 0 <= IPGunPointer st <= zlen gun ->
  exists slots, allocate gun n i st = Ok slots /\ length slots = n /\ allotted st slots.
Proof.
  intros Hne. induction n as [|n IH]; intros i st Hp; cbn [allocate].
  { exists []. split; [done|]. split; [done|]. split; constructor. }
  destruct (Hkeys i) as [[priv pub] Ek]. rewrite Ek.
  destruct (GetIP_Ok gun st Hne Hp) as (a & p & st' & -> & Hp' & Ep & Est). cbn [gbind].
  destruct (IH (S i) st' Hp') as (slots & -> & Hl & [Hd Hf Hk]). cbn [gbind].
  eexists. split; [reflexivity|]. split; [cbn; lia|]. rewrite Est in Hf. split; cbn [map].
  - constructor; [|done]. intros (s & [= Ea E] & Hs)%list_elem_of_fmap. rewrite Forall_forall in Hf. specialize (Hf s Hs).
    rewrite <- Ea, lookup_insert_eq in Hf. cbn in Hf. lia.
  - constructor; [cbn; lia|]. eapply Forall_impl; [exact Hf|]. cbn. intros s. destruct (decide (a = ip s)) as [<-|Ha].
    + rewrite lookup_insert_eq. cbn. lia.
    + by rewrite lookup_insert_ne.
  - constructor; [by exists i|done].
Qed.

Lemma foldr_max v l : v ∈ l -> v <= foldr Z.max (-1) l.
Proof. induction 1 as [v l|v x l _ IH]; cbn [foldr]; lia. Qed.
Lemma IPGun_nonempty c : (exists a, 0 < inUse c a) -> IPGun c <> [].
Proof.
  intros [a Ha]. unfold inUse in Ha. destruct (IPInUse c !! a) as [v|] eqn:Ea; [|cbn in Ha; lia]. cbn in Ha.
  assert (v <= maxCounter c) as Hmax.
  { unfold maxCounter. assert (v ∈ map snd (map_to_list (IPInUse c))) as Hin.
    { apply list_elem_of_fmap. exists (a, v). split; [done|]. by apply elem_of_map_to_list. }
    by apply foldr_max. }
  unfold IPGun. destruct (Z.to_nat (maxCounter c)) as [|k] eqn:Ek; [lia|]. cbn [seq map concat].
  assert (a ∈ List.filter (fun b => Z.of_nat 0 <? inUse c b) (IPs c)) as Hin.
  { apply list_elem_of_In, List.filter_In. split; [|unfold inUse; rewrite Ea; apply Z.ltb_lt; cbn; lia].
    apply list_elem_of_In. unfold IPs. rewrite merge_sort_Permutation. apply list_elem_of_fmap. exists (a, v).
    split; [done|]. by apply elem_of_map_to_list. }
  intros E. apply app_eq_nil in E as [E _]. rewrite E in Hin. by apply not_elem_of_nil in Hin.
Qed.

(** ** The nodes of a shard *)

Fixpoint chunks (shards : list ShardSpec) (slots : list Slot) : list (ShardSpec * list Slot) :=
  match shards with
  | [] => []
  | si :: shards =>
      let n := Z.to_nat (PeerNum si) in (si, take n slots) :: chunks shards (drop n slots)
  end.

Definition addChunk (pl : gmap string (list Peer.t)) (x : ShardSpec * list Slot) : gmap string (list Peer.t) :=
  fold_left (fun pl s => appendPeer pl (ChainID x.1) (peerOf (ChainID x.1) s)) x.2 pl.

Lemma shardPeers_run chain ch : forall pre rest pl,
  shardPeers (pre ++ ch ++ rest) chain (length ch) (pl, zlen pre) =
  Ok (fold_left (fun pl s => appendPeer pl chain (peerOf chain s)) ch pl, zlen (pre ++ ch)).
Proof.
  induction ch as [|s ch IH]; intros pre rest pl; cbn [length shardPeers fold_left]; [by rewrite app_nil_r|].
  assert (idx (pre ++ (s :: ch) ++ rest) (zlen pre) = Ok s) as Ei.
  { apply idx_Ok, zlook_Some. split; [lia|]. rewrite Nat2Z.id. by apply list_lookup_middle. }
  cbn [snd fst]. rewrite Ei. cbn [gbind].
  replace (pre ++ (s :: ch) ++ rest) with ((pre ++ [s]) ++ ch ++ rest) by (by rewrite <- app_assoc).
  replace (zlen pre + 1) with (zlen (pre ++ [s])) by (rewrite length_app; cbn; lia).
  rewrite IH. by rewrite <- app_assoc.
Qed.

Lemma total_cons si shards : 0 <= PeerNum si -> Forall (fun s => 0 <= PeerNum s) shards ->
  totalNodes (si :: shards) = (Z.to_nat (PeerNum si) + totalNodes shards)%nat.
Proof.
  intros H1 H2. unfold totalNodes. cbn [map]. rewrite zsum_cons, Z2Nat.inj_add; [done|done|].
  apply zsum_nonneg. by apply Forall_fmap.
Qed.

Lemma allPeers_run shards : Forall (fun s => 0 <= PeerNum s) shards -> forall pre slots pl, length slots = totalNodes shards ->
  exists n, allPeers (pre ++ slots) shards (pl, zlen pre) = Ok (fold_left addChunk (chunks shards slots) pl, n).
Proof.
  induction 1 as [|si shards Hsi Hall IH]; intros pre slots pl Hl; [by eexists|].
  rewrite total_cons in Hl by done. cbn [chunks fold_left]. unfold allPeers. cbn [go_foldl].
  set (n := Z.to_nat (PeerNum si)) in *.
  assert (pre ++ slots = pre ++ take n slots ++ drop n slots) as Es by (by rewrite take_drop). rewrite Es.
  pose proof (shardPeers_run (ChainID si) (take n slots) pre (drop n slots) pl) as E.
  rewrite length_take, Nat.min_l in E by lia. rewrite E. cbn [gbind]. rewrite app_assoc.
  apply (IH (pre ++ take n slots) (drop n slots)). rewrite length_drop. lia.
Qed.

Definition peersOfChunk (chain : string) (x : ShardSpec * list Slot) : list Peer.t :=
  if bool_decide (ChainID x.1 = chain) then map (peerOf chain) x.2 else [].

Lemma addChunk_lookup chain x pl :
  default [] (addChunk pl x !! chain) = default [] (pl !! chain) ++ peersOfChunk chain x.
Proof.
  destruct x as [si ch]. unfold addChunk, peersOfChunk. cbn [fst snd]. revert pl.
  induction ch as [|s ch IH]; intros pl; cbn [fold_left map].
  - case_bool_decide; by rewrite app_nil_r.
  - rewrite IH. unfold appendPeer. case_bool_decide as E.
    + subst chain. rewrite lookup_insert_eq. cbn. by rewrite <- app_assoc.
    + by rewrite lookup_insert_ne.
Qed.
Lemma addChunks_lookup chain chs pl :
  default [] (fold_left addChunk chs pl !! chain) = default [] (pl !! chain) ++ concat (map (peersOfChunk chain) chs).
Proof.
  revert pl. induction chs as [|x chs IH]; intros pl; cbn [fold_left map concat]; [by rewrite app_nil_r|].
  by rewrite IH, addChunk_lookup, <- app_assoc.
Qed.

(** A shard that is listed once has the peers of its nodes. *)
Lemma concat_peers chs si ch : NoDup (map (fun x => ChainID x.1) chs) -> (si, ch) ∈ chs ->
  concat (map (peersOfChunk (ChainID si)) chs) = map (peerOf (ChainID si)) ch.
Proof.
  assert (forall chs : list (ShardSpec * list Slot), ChainID si ∉ map (fun x => ChainID x.1) chs -> concat (map (peersOfChunk (ChainID si)) chs) = []) as Hno.
  { clear. induction chs as [|x chs IH]; cbn; [done|]. intros [Hx Hl]%not_elem_of_cons. rewrite IH by done.
    unfold peersOfChunk. by rewrite bool_decide_false by congruence. }
  induction chs as [|x chs IH]; cbn; [by intros _ ?%not_elem_of_nil|]. intros [Hx Hnd]%NoDup_cons [<-|Hin]%elem_of_cons.
  - unfold peersOfChunk at 1. cbn in *. rewrite bool_decide_true, (Hno chs) by done. apply app_nil_r.
  - rewrite (IH Hnd Hin). unfold peersOfChunk. rewrite bool_decide_false; [done|]. intros E. apply Hx. rewrite E.
    apply list_elem_of_fmap. by exists (si, ch).
Qed.

(** A node is its configuration, its shard and what was allocated for it. *)
Definition Node : Type := Config * ShardSpec * Slot.
Section nodes.
Context (store_dir : string) (shards : list ShardSpec).

Fixpoint chunkNodes (si : ShardSpec) (ch : list Slot) (i count : Z) : list Node :=
  match ch with
  | [] => []
  | s :: ch => (nodeConfig store_dir shards si i count s, si, s) :: chunkNodes si ch (i + 1) (count + 1)
  end.
Fixpoint nodesOf (chs : list (ShardSpec * list Slot)) (count : Z) : list Node :=
  match chs with
  | [] => []
  | (si, ch) :: chs => chunkNodes si ch 0 count ++ nodesOf chs (count + zlen ch)
  end.

Definition cfgOf (x : Node) : Config := x.1.1.

Lemma shardConfigs_run si ch : forall pre rest i cfgs,
  shardConfigs store_dir shards (pre ++ ch ++ rest) si (length ch) i (cfgs, zlen pre) =
  Ok (cfgs ++ map cfgOf (chunkNodes si ch i (zlen pre)), zlen (pre ++ ch)).
Proof.
  induction ch as [|s ch IH]; intros pre rest i cfgs; cbn [length shardConfigs chunkNodes map]; [by rewrite !app_nil_r|].
  assert (idx (pre ++ (s :: ch) ++ rest) (zlen pre) = Ok s) as Ei.
  { apply idx_Ok, zlook_Some. split; [lia|]. rewrite Nat2Z.id. by apply list_lookup_middle. }
  cbn [snd fst]. rewrite Ei. cbn [gbind].
  replace (pre ++ (s :: ch) ++ rest) with ((pre ++ [s]) ++ ch ++ rest) by (by rewrite <- app_assoc).
  replace (zlen pre + 1) with (zlen (pre ++ [s])) by (rewrite length_app; cbn; lia).
  rewrite IH. by rewrite <- !app_assoc.
Qed.

Lemma configList_run l : Forall (fun s => 0 <= PeerNum s) l -> forall pre slots cfgs, length slots = totalNodes l ->
  exists n, go_foldl (fun x si => shardConfigs store_dir shards (pre ++ slots) si (Z.to_nat (PeerNum si)) 0 x) (cfgs, zlen pre) l =
    Ok (cfgs ++ map cfgOf (nodesOf (chunks l slots) (zlen pre)), n).
Proof.
  induction 1 as [|si l Hsi Hall IH]; intros pre slots cfgs Hl; cbn [chunks nodesOf go_foldl]; [rewrite app_nil_r; by eexists|].
  rewrite total_cons in Hl by done. set (n := Z.to_nat (PeerNum si)) in *.
  assert (pre ++ slots = (pre ++ take n slots) ++ drop n slots) as Es by (by rewrite <- app_assoc, take_drop).
  pose proof (shardConfigs_run si (take n slots) pre (drop n slots) 0 cfgs) as E.
  rewrite length_take, Nat.min_l in E by lia. rewrite app_assoc, <- Es in E. rewrite E. cbn [gbind].
  rewrite map_app, app_assoc, Es. destruct (IH (pre ++ take n slots) (drop n slots) (cfgs ++ map cfgOf (chunkNodes si (take n slots) 0 (zlen pre)))) as [k Ek].
  { rewrite length_drop. lia. }
  exists k. rewrite Ek. do 2 f_equal. rewrite <- Nat2Z.inj_add, <- length_app. done.
Qed.

Lemma nodes_slots l : Forall (fun s => 0 <= PeerNum s) l -> forall slots count, length slots = totalNodes l ->
  map snd (nodesOf (chunks l slots) count) = slots.
Proof.
  assert (forall si ch i count, map snd (chunkNodes si ch i count) = ch) as Hch.
  { intros si ch. induction ch as [|s ch IH]; intros i count; cbn; [done|]. by rewrite IH. }
  induction 1 as [|si l Hsi Hall IH]; intros slots count Hl; cbn [chunks nodesOf map].
  - by destruct slots.
  - rewrite total_cons in Hl by done. rewrite map_app, Hch, IH by (rewrite length_drop; lia). apply take_drop.
Qed.

Lemma nodes_infos pl l : Forall (fun s => 0 <= PeerNum s) l -> forall slots count, length slots = totalNodes l ->
  concat (map (fun si => repeat (shardInfo shards pl si) (Z.to_nat (PeerNum si))) l) =
  map (fun x : Node => shardInfo shards pl x.1.2) (nodesOf (chunks l slots) count).
Proof.
  assert (forall si ch i count, map (fun x : Node => shardInfo shards pl x.1.2) (chunkNodes si ch i count) =
    repeat (shardInfo shards pl si) (length ch)) as Hch.
  { intros si ch. induction ch as [|s ch IH]; intros i count; cbn; [done|]. by rewrite IH. }
  induction 1 as [|si l Hsi Hall IH]; intros slots count Hl; cbn [chunks nodesOf map concat]; [done|].
  rewrite total_cons in Hl by done. rewrite map_app, Hch, length_take, Nat.min_l by lia. f_equal.
  apply IH. rewrite length_drop. lia.
Qed.

Lemma nodes_In chs count x : x ∈ nodesOf chs count ->
  exists ch i n, (x.1.2, ch) ∈ chs /\ zlook ch i = Some x.2 /\ x.1.1 = nodeConfig store_dir shards x.1.2 i n x.2.
Proof.
  assert (forall si ch i count, x ∈ chunkNodes si ch i count -> exists j n,
    x.1.2 = si /\ 0 <= j /\ ch !! Z.to_nat j = Some x.2 /\ x.1.1 = nodeConfig store_dir shards si (i + j) n x.2) as Hch.
  { intros si ch. induction ch as [|s ch IH]; intros i c; cbn; [by intros ?%not_elem_of_nil|].
    intros [->|Hx]%elem_of_cons.
    - exists 0, c. cbn. by rewrite Z.add_0_r.
    - destruct (IH _ _ Hx) as (j & n & E1 & Hj & E2 & E3). exists (j + 1), n. rewrite Z2Nat.inj_add by lia.
      change (Z.to_nat 1) with 1%nat. rewrite Nat.add_1_r. split_and!; [done|lia|done|].
      rewrite E3. f_equal. lia. }
  revert count. induction chs as [|[si ch] chs IH]; intros count; cbn [nodesOf]; [by intros ?%not_elem_of_nil|].
  intros [Hx|Hx]%elem_of_app.
  - destruct (Hch _ _ _ _ Hx) as (j & n & E1 & Hj & E2 & E3). exists ch, j, n. rewrite E1. split_and!; [constructor| |done].
    by apply zlook_Some.
  - destruct (IH _ Hx) as (ch' & i & n & E1 & E2 & E3). exists ch', i, n. split_and!; [by constructor|done|done].
Qed.
End nodes.

Lemma files_run {A} (f : A -> Config) (g : A -> string) (h : A -> ShardInfo.t) l : forall pre,
  files (map f l) (zlen pre) (map g (pre ++ l)) (map h (pre ++ l)) = Ok (map (fun x => (f x, h x, g x)) l).
Proof.
  induction l as [|x l IH]; intros pre; cbn [map files]; [done|].
  assert (forall B (k : A -> B), idx (map k (pre ++ x :: l)) (zlen pre) = Ok (k x)) as Hidx.
  { intros B k. apply idx_Ok, zlook_Some. split; [lia|]. rewrite Nat2Z.id, map_app. cbn.
    rewrite <- (length_map k pre). by apply list_lookup_middle. }
  rewrite !Hidx. cbn [gbind].
  replace (zlen pre + 1) with (zlen (pre ++ [x])) by (rewrite length_app; cbn; lia).
  replace (pre ++ x :: l) with ((pre ++ [x]) ++ l) by (by rewrite <- app_assoc). by rewrite IH.
Qed.

Lemma chunks_In l : forall slots si ch, (si, ch) ∈ chunks l slots -> si ∈ l.
Proof.
  induction l as [|s l IH]; intros slots si ch; cbn; [by intros ?%not_elem_of_nil|].
  intros [[= -> _]|Hx]%elem_of_cons; [by left|]. right. by eapply IH.
Qed.
Lemma chunks_len l : Forall (fun s => 0 <= PeerNum s) l -> forall slots, length slots = totalNodes l ->
  Forall (fun x => zlen x.2 = PeerNum x.1) (chunks l slots).
Proof.
  induction 1 as [|si l Hsi Hall IH]; intros slots Hl; cbn [chunks]; constructor; rewrite total_cons in Hl by done.
  - cbn. rewrite length_take. lia.
  - apply IH. rewrite length_drop. lia.
Qed.
Lemma chunks_ids l : forall slots, map (fun x => ChainID x.1) (chunks l slots) = map ChainID l.
Proof. induction l as [|s l IH]; intros slots; cbn; [done|]. by rewrite IH. Qed.

(** ** What a deployment is *)

(** A node has a place among the peers of its shard, under its own address and
    the public key of its own private key; every peer of the shard has one vote. *)
Record placed (c : ShardConfig) (cfg : Config) (info : ShardInfo.t) (key : string) (spec : ShardSpec) : Prop := {
  pd_spec : spec ∈ Shards c;
  pd_chain : cfgChainID cfg = ChainID spec;
  pd_kind : cfgIsI cfg = IsI spec /\ ShardInfo.IsIShard info = IsI spec;
  pd_size : zlen (default [] (ShardInfo.PeerList info !! ChainID spec)) = PeerNum spec;
  pd_peer : exists p n, zlook (default [] (ShardInfo.PeerList info !! ChainID spec)) (SignerIndex cfg) = Some p /\
    Peer.IP p = LocalIP cfg +:+ ":" +:+ pretty (LocalPort cfg) /\ keyPair n = inl (key, Peer.Pubkey p);
  pd_votes : Forall (fun p => Peer.Vote p = 1 /\ Peer.BelongTo p (ChainID spec) = true)
    (default [] (ShardInfo.PeerList info !! ChainID spec));
  pd_related s : ShardInfo.isRelated info s = true <-> s ∈ RelatedShards spec;
  pd_range : ShardInfo.KeyRangeMap info !! ChainID spec = Some (KeyRange spec)
}.

Lemma related_spec spec s : default false (related spec !! s) = true <-> s ∈ RelatedShards spec.
Proof.
  unfold related. assert (forall l (m : gmap string bool), default false (fold_left setTrue l m !! s) = true <->
    s ∈ l \/ default false (m !! s) = true) as H.
  { induction l as [|x l IH]; intros m; cbn [fold_left].
    - split; [by right|]. by intros [?%not_elem_of_nil|].
    - rewrite IH, elem_of_cons. unfold setTrue. destruct (decide (x = s)) as [->|Hne].
      + rewrite lookup_insert_eq. cbn. tauto.
      + rewrite lookup_insert_ne by done. split; [tauto|]. intros [[->|?]|?]; [done|tauto..]. }
  rewrite H, lookup_empty. cbn. split; [by intros [?|?]|by left].
Qed.

Lemma keyRange_spec shards spec : NoDup (map ChainID shards) -> spec ∈ shards ->
  keyRangeMap shards !! ChainID spec = Some (KeyRange spec).
Proof.
  unfold keyRangeMap. generalize (∅ : gmap string string). induction shards as [|si shards IH]; intros m; cbn [map fold_left].
  { by intros _ ?%not_elem_of_nil. }
  intros [Hn Hnd]%NoDup_cons [->|Hin]%elem_of_cons; [|by apply IH].
  assert (forall l (m : gmap string string), ChainID si ∉ map ChainID l ->
    fold_left (fun m si => <[ChainID si := KeyRange si]> m) l m !! ChainID si = m !! ChainID si) as Hk.
  { clear. induction l as [|x l IH]; intros m; cbn; [done|]. intros [Hx Hl]%not_elem_of_cons.
    rewrite IH by done. by apply lookup_insert_ne. }
  rewrite Hk by done. apply lookup_insert_eq.
Qed.

(** The files of all nodes: a place for each, and addresses that differ. *)
Lemma GenerateConfigFiles_run c dir : Forall (fun s => 0 <= PeerNum s) (Shards c) ->
  (exists a, 0 < inUse c a) -> (forall n, exists k, keyPair n = inl k) ->
  exists slots pl, allotted (firstPorts c) slots /\ length slots = totalNodes (Shards c) /\
    pl = fold_left addChunk (chunks (Shards c) slots) ∅ /\
    GenerateConfigFiles c dir = Ok (map (fun x : Node => (cfgOf x, shardInfo (Shards c) pl x.1.2, privateKey x.2))
      (nodesOf dir (Shards c) (chunks (Shards c) slots) 0)).
Proof.
  intros Hpn Hm Hk. pose proof (IPGun_nonempty c Hm) as Hg.
  destruct (allocate_Ok (IPGun c) Hk Hg (totalNodes (Shards c)) 0 (firstPorts c)) as (slots & E & Hl & Ha).
  { cbn. lia. }
  eexists slots, _. split; [done|]. split; [done|]. split; [done|]. unfold GenerateConfigFiles. rewrite E. cbn [gbind].
  destruct (allPeers_run (Shards c) Hpn [] slots ∅ Hl) as [n1 E1]. change (allPeers slots (Shards c) (∅, 0) = Ok (fold_left addChunk (chunks (Shards c) slots) ∅, n1)) in E1. rewrite E1. cbn [gbind].
  destruct (configList_run dir (Shards c) (Shards c) Hpn [] slots [] Hl) as [n2 E2]. change (Z.of_nat (@length Slot [])) with 0 in E2. cbn [app] in E2.
  unfold configList. rewrite E2. cbn [gbind]. unfold shardInfoList.
  rewrite (nodes_infos dir (Shards c) _ (Shards c) Hpn slots 0 Hl).
  rewrite <- (nodes_slots dir (Shards c) (Shards c) Hpn slots 0 Hl) at 2. rewrite map_map.
  apply (files_run cfgOf (fun x : Node => privateKey x.2) (fun x : Node => shardInfo (Shards c) _ x.1.2) _ []).
Qed.

(** C32: when there is a machine to use, keys can be made and no shard is listed
    twice, the generation succeeds: it makes the files of every node of every
    shard, no two nodes have the same address, all know the same peers, and every
    node finds itself among them. *)
Theorem GenerateConfigFiles_places c dir
  (Hids : NoDup (map ChainID (Shards c))) (Hpn : Forall (fun s => 0 <= PeerNum s) (Shards c))
  (Hmachine : exists a, 0 < inUse c a) (Hkeys : forall n, exists k, keyPair n = inl k) :
  exists nodes pl, GenerateConfigFiles c dir = Ok nodes /\
    length nodes = totalNodes (Shards c) /\
    NoDup (map (fun x => (LocalIP x.1.1, LocalPort x.1.1)) nodes) /\
    Forall (fun x => ShardInfo.PeerList x.1.2 = pl /\ exists spec, placed c x.1.1 x.1.2 x.2 spec) nodes.
Proof.
  destruct (GenerateConfigFiles_run c dir Hpn Hmachine Hkeys) as (slots & pl & [Hd _ Hk] & Hl & Epl & E).
  pose proof (nodes_slots dir (Shards c) (Shards c) Hpn slots 0 Hl) as Hslots.
  set (nodes := nodesOf dir (Shards c) (chunks (Shards c) slots) 0) in *.
  assert (forall x, x ∈ nodes -> exists ch i n, (x.1.2, ch) ∈ chunks (Shards c) slots /\ zlook ch i = Some x.2 /\
    x.1.1 = nodeConfig dir (Shards c) x.1.2 i n x.2) as Hn by apply nodes_In.
  eexists _, pl. split; [exact E|]. split_and!.
  - transitivity (length (map snd nodes)); [by rewrite !length_map|by rewrite Hslots].
  - rewrite map_map. rewrite <- Hslots, map_map in Hd. erewrite map_ext_in; [exact Hd|].
    intros x Hx%list_elem_of_In. destruct (Hn x Hx) as (ch & i & n & _ & _ & Ec). cbn. unfold cfgOf. by rewrite Ec.
  - apply Forall_fmap, Forall_forall. intros x Hx. cbn. split; [done|].
    destruct (Hn x Hx) as (ch & i & n & Hch & Hs & Ec). exists x.1.2. unfold cfgOf. rewrite Ec.
    pose proof (chunks_len (Shards c) Hpn slots Hl) as Hlen. rewrite Forall_forall in Hlen. rewrite Forall_forall in Hk.
    assert (default [] (pl !! ChainID x.1.2) = map (peerOf (ChainID x.1.2)) ch) as Hpl.
    { rewrite Epl, addChunks_lookup, lookup_empty. apply concat_peers; [by rewrite chunks_ids|done]. }
    assert (x.2 ∈ slots) as Hin by (rewrite <- Hslots; apply list_elem_of_fmap; by exists x).
    destruct (Hk x.2 Hin) as [k Ek].
    split; cbn [shardInfo ShardInfo.PeerList ShardInfo.KeyRangeMap nodeConfig cfgChainID cfgIsI SignerIndex LocalIP LocalPort];
      rewrite ?Hpl.
    + by eapply chunks_In.
    + done.
    + split; [done|]. unfold ShardInfo.IsIShard. cbn. by destruct (IsI x.1.2).
    + rewrite length_map. by apply (Hlen (x.1.2, ch)).
    + exists (peerOf (ChainID x.1.2) x.2), k. split_and!; [|done|done]. apply zlook_Some in Hs as [Hi Hs].
      apply zlook_Some. split; [done|]. by rewrite list_lookup_fmap, Hs.
    + apply Forall_fmap, Forall_forall. intros s _. cbn. split; [done|]. unfold Peer.BelongTo. cbn.
      by rewrite lookup_singleton_eq.
    + intros s. apply related_spec.
    + apply keyRange_spec; [done|]. by eapply chunks_In.
Qed.
End deploy.
End Deploy.

(** ** Three nodes on two machines *)

Module DeployDemo.
Import Deploy.
Definition keyPair (n : nat) : string * string + goerr := inl ("private" +:+ pretty n, "public" +:+ pretty n).
Definition join (dir ip name : string) : string := dir +:+ "/" +:+ ip +:+ "/" +:+ name.
Definition config : ShardConfig :=
  mkShardConfig {["10.0.0.2" := 2; "10.0.0.1" := 1]}
    [mkSpec "i1" 2 ["c1"] true "[a,b]"; mkSpec "c1" 2 ["i1"] false "[c,d]"].

Lemma GenerateConfigFiles_places_witness :
  exists nodes pl, GenerateConfigFiles keyPair join config "/data" = Ok nodes /\ length nodes = 4%nat /\
    NoDup (map (fun x => (LocalIP x.1.1, LocalPort x.1.1)) nodes) /\
    Forall (fun x => ShardInfo.PeerList x.1.2 = pl /\ exists spec, placed keyPair config x.1.1 x.1.2 x.2 spec) nodes.
Proof.
  apply (GenerateConfigFiles_places keyPair join config "/data").
  - apply (bool_decide_unpack _). vm_compute. exact I.
  - repeat constructor; apply Z.leb_le; reflexivity.
  - exists "10.0.0.1". apply Z.ltb_lt. vm_compute. reflexivity.
  - intros n. eexists. reflexivity.
Defined.

(** The machines take turns; one that has taken its share is left out, until all
    have. *)
Example addresses :
  (let! nodes := GenerateConfigFiles keyPair join config "/data" in
   Ok (map (fun x => (NodeName x.1.1, LocalIP x.1.1, LocalPort x.1.1, SignerIndex x.1.1)) nodes)) =
  Ok [("node1", "10.0.0.1", 26601, 0); ("node2", "10.0.0.2", 26601, 1);
      ("node3", "10.0.0.2", 26602, 0); ("node4", "10.0.0.1", 26602, 1)].
Proof. vm_compute. reflexivity. Qed.

(** Without a machine the generation panics. *)
Example no_machine :
  GenerateConfigFiles keyPair join (mkShardConfig {["10.0.0.1" := 0]} (Shards config)) "/data" = Panic.
Proof. vm_compute. reflexivity. Qed.
End DeployDemo.
