(* ===== verification/PyramidTypes.v ===== *)
(** * Blocks, parts and receipts of the comparison protocols: [pyramid/types]

    The records, the encodings and the transactions are those of [Types] and
    [PartSet] ([pyramid/types] repeats [melete/types]); this file holds what
    differs: the kinds of blocks, the roots of a header, the check of a part and
    the receipts. [rapid/types] is [pyramid/types]. *)

From S2P Require Import Prelude Convert Hash Merkle Wire Types PartSet.
Import Merkle.
Local Open Scope Z_scope.

(** ** [block.go] *)

Definition BLOCKTYPE_B : Z := 2.
Definition BLOCKTYPE_InnerShard : Z := 3.
Definition BLOCKTYPE_CrossShard : Z := 4.
Definition BLOCKTYPE_BCommitBlock : Z := 5.
Definition BLOCKTYPE_ICommitBlock : Z := 6.
Definition BLOCKTYPE_IAcceptBlock : Z := 7.

Module PyramidBlock.
Import Types.Block.
Section block.
Context `{Hash, StdTime}.

(** [Header.ReceiptRoot] is set, from the relation. *)
Definition setRoots (h : Types.Header.t) (body cross receipt : bytes) : Types.Header.t :=
  Header.mk (Header.BlockType h) (Header.HashPointer h) (Header.ChainID h) (Header.Height h) (Header.Time h)
    body cross (Header.StateRoot h) receipt (Header.RelationRoot h).

Definition fillHeader (b : t) : t :=
  let h := Header b in
  mk (setRoots h (fillRoot (Header.BodyRoot h) (Body.Hash_ (Body b)))
        (fillRoot (Header.CrossShardBodyRoot h) (CrossShardBody.Hash_ (CrossShardBody b)))
        (if negb (zlen (Header.RelationRoot h) =? HashSize) then Relation.Hash_ (Relation b)
         else Header.ReceiptRoot h))
     (Body b) (CrossShardBody b) (Relation b) (blockhash b).

Definition Hash_ (b : t) : t * bytes :=
  let b := fillHeader b in
  if negb (zlen (blockhash b) =? HashSize) then
    let h := default [] (Header.Hash_ (Header b)) in
    (mk (Header b) (Body b) (CrossShardBody b) (Relation b) h, h)
  else (b, blockhash b).

Lemma Hash_cached b : zlen (blockhash b) = HashSize -> Hash_ b = (fillHeader b, blockhash b).
Proof.
  intros E. unfold Hash_. change (blockhash (fillHeader b)) with (blockhash b). cbv zeta.
  by rewrite E, Z.eqb_refl.
Qed.

Lemma fillHeader_twice b : fillHeader (fillHeader b) = fillHeader b.
Proof.
  assert (forall root content, zlen content = HashSize ->
    fillRoot (fillRoot root content) content = fillRoot root content) as Hi.
  { intros root content Hc. unfold fillRoot at 1. by rewrite fillRoot_length. }
  destruct (roots_length b) as (E1 & E2 & E3).
  unfold fillHeader, setRoots. cbn. rewrite !Hi by done. by destruct (negb _).
Qed.

(** Hashing changes nothing but the header's roots and the cache. *)
Lemma Hash_block b :
  let b' := fst (Hash_ b) in
  Header b' = Header (fillHeader b) /\ Body b' = Body b /\ CrossShardBody b' = CrossShardBody b /\
  Relation b' = Relation b /\ blockhash b' = snd (Hash_ b).
Proof. unfold Hash_. cbv zeta. by destruct (negb _). Qed.

(** Hashing a second time returns the same hash and leaves the block alone. *)
Lemma Hash_repeats b : zlen (snd (Hash_ b)) = HashSize -> Hash_ (fst (Hash_ b)) = Hash_ b.
Proof.
  intros Hl. pose proof (Hash_block b) as (E1 & E2 & E3 & E4 & E5).
  rewrite Hash_cached by (by rewrite E5). rewrite E5, (surjective_pairing (Hash_ b)). cbn [fst snd]. f_equal.
  transitivity (mk (Header (fillHeader (fillHeader b))) (Body b) (CrossShardBody b) (Relation b) (snd (Hash_ b))).
  - unfold fillHeader at 1. rewrite E1, E2, E3, E4, E5. done.
  - rewrite fillHeader_twice. destruct (fst (Hash_ b)); cbn in *. congruence.
Qed.

(** The hash of the relation takes the place of the receipt root: the hash of a
    block without a relation root does not depend on the receipts it claims. *)
Theorem Hash_ignores_ReceiptRoot b root :
  zlen (Header.RelationRoot (Header b)) <> HashSize ->
  let h := Header b in
  snd (Hash_ (mk (setRoots h (Header.BodyRoot h) (Header.CrossShardBodyRoot h) root)
               (Body b) (CrossShardBody b) (Relation b) (blockhash b))) = snd (Hash_ b).
Proof.
  intros Hr%Z.eqb_neq. unfold Hash_, fillHeader. cbn. rewrite Hr. cbn. by destruct (negb _).
Qed.
End block.
End PyramidBlock.

(** ** [block-part.go] *)

Module PyramidPart.
Import Part.
Definition Verify `{Hash} (p : t) (root : bytes) (total : Z) (chainID : string) : go bool :=
  let! pr := deref (Proof p) in
  Ok ((total =? Total pr) && bool_decide (chainID = ChainID p) &&
      bool_decide (Merkle.Verify pr root (Bytes p) = None)).
End PyramidPart.

Module PyramidPartSet.
Import PartSet.
Section partset.
Context `{Hash, StdTime, !Codec pbBlock}.

Definition PartSetFromBlock (b : Block.t) (maxPartSize : Z) (round : Z) : go (Block.t * t) :=
  let! bz := Block.ProtoBytes b in
  let! bzList := SplitByteArray bz maxPartSize in
  let '(hs, proof) := ProofsFromByteSlices bzList in
  let chainid := Header.ChainID (Block.Header b) in
  let height := Header.Height (Block.Header b) in
  let parts := imap (fun i bz => Some (Part.mk chainid height round bz (proof !! i))) bzList in
  let header := PartSetHeader.mk height round (zlen parts) hs chainid in
  let '(b, h) := PyramidBlock.Hash_ b in
  Ok (b, mk header parts (zlen parts) h).

Definition merkleFailed : goerr := Errorf "The Merkle validation of Part failed".

Definition AddPart (ps : t) (p : Part.t) : go (t * option goerr) :=
  let! i := Part.Index p in
  let! dup :=
    if i <? PartSetHeader.Total (Header ps) then
      let! slot := idx (Parts ps) i in Ok (bool_decide (is_Some slot))
    else Ok false in
  if dup then Ok (ps, Some DuplicatedPartPassError)
  else if negb (PartSetHeader.Height (Header ps) =? Part.Height p) then
    Ok (ps, Some (Errorf "Part does not match PartSetHeader: Height"))
  else if negb (PartSetHeader.Round (Header ps) =? Part.Round p) then
    Ok (ps, Some (Errorf "Part does not match PartSetHeader: Round"))
  else
    let! verified := PyramidPart.Verify p (PartSetHeader.Root (Header ps)) (PartSetHeader.Total (Header ps))
                       (PartSetHeader.ChainID (Header ps)) in
    if negb verified then Ok (ps, Some merkleFailed)
    else
      let! i := Part.Index p in
      let! parts := upd (Parts ps) i (Some p) in
      Ok (mk (Header ps) parts (count ps + 1) (BlockHeaderHash ps), None).

Definition GenBlock (ps : t) : go (option Block.t * option goerr) :=
  if negb (IsComplete ps) then Ok (None, None)
  else if count ps <? 0 then Panic
  else
    let! blockBytes := gather 0 (Parts ps) (replicate (Z.to_nat (count ps)) []) in
    let bz := concat blockBytes in
    let! block := Block.NewBlockFromBytes bz in
    match block with
    | None => Ok (None, Some (Errorf "Block deserialization error"))
    | Some block =>
        if negb (bool_decide (Header.ChainID (Block.Header block) = PartSetHeader.ChainID (Header ps)))
        then Ok (None, Some (Errorf "Block.ChainID does not match"))
        else if negb (Header.Height (Block.Header block) =? PartSetHeader.Height (Header ps))
        then Ok (None, Some (Errorf "Block.Height does not match"))
        else match Block.ValidateBasic block with
             | Some err => Ok (Some block, Some err)
             | None =>
                 let '(block, h) := PyramidBlock.Hash_ block in
                 if negb (bool_decide (h = BlockHeaderHash ps))
                 then Ok (Some block, Some (Errorf "Block.HeaderHash does not match"))
                 else Ok (Some block, None)
             end
    end.

(** The two protocols collect parts alike, but for the text of one error. *)
Definition relabel (err : option goerr) : option goerr :=
  match err with
  | Some (Errorf "Merkle validation fails for Part") => Some merkleFailed
  | _ => err
  end.

Lemma AddPart_same ps p :
  AddPart ps p = (let! '(ps', err) := PartSet.AddPart ps p in Ok (ps', relabel err)).
Proof.
  unfold AddPart, PartSet.AddPart, Part.Index, PyramidPart.Verify, Part.Verify.
  destruct (Part.Proof p) as [pr|]; [|done]. cbn [deref gbind].
  destruct (if _ <? _ then _ else _) as [[]| |]; try done. cbn [gbind].
  destruct (negb (PartSetHeader.Height _ =? _)); [done|]. destruct (negb (PartSetHeader.Round _ =? _)); [done|].
  destruct (Merkle.Verify pr _ _) as [e|]; cbn [gbind].
  { rewrite (bool_decide_false (Some e = None)) by done. by rewrite andb_false_r. }
  rewrite (bool_decide_true (None = None)), andb_true_r by done. rewrite <- negb_andb. destruct (_ && _); cbn [negb gbind]; [|done].
  by destruct (upd _ _ _).
Qed.

(** On a well-formed set a part is stored exactly when it belongs to the set, as
    in [PartSet]; every other part is reported and changes nothing. *)
Lemma AddPart_wf ps p pr : wf ps -> zlen (PartSetHeader.Root (Header ps)) = HashSize ->
  Part.Proof p = Some pr -> 0 <= Index pr ->
  exists ps' err, AddPart ps p = Ok (ps', err) /\ wf ps' /\ (err = None <-> acceptable ps p) /\
    (err <> None -> ps' = ps).
Proof.
  intros W R E I. rewrite AddPart_same.
  destruct (AddPart_total ps p pr W R E I) as (ps' & err & -> & W' & A & _ & S). cbn [gbind].
  exists ps', (relabel err). split; [done|]. split; [done|].
  assert (relabel err = None <-> err = None) as Hr.
  { unfold relabel. destruct err as [[]|]; try done. split; [|done]. by repeat case_match. }
  rewrite Hr. split; [exact A|]. intros Hn. apply S. tauto.
Qed.
End partset.
End PyramidPartSet.

(** ** [abci-resp.go] *)

Record ABCIPreExecutionResponseB := mkRespB {
  rbCode : Z; rbCrossShardDatas : list bytes; rbBehaviorErrors : list goerr }.
Record PreExecutionResponseI := mkPreRespI { rpCode : Z; rpBehaviorErrors : list goerr }.
Definition respBIsOK (r : ABCIPreExecutionResponseB) : bool := rbCode r =? CodeTypeOK.
Definition respIIsOK (r : PreExecutionResponseI) : bool := rpCode r =? CodeTypeOK.
Record ExecutionResponse := mkExec { Receipts : list Receipt.t }.

Module PyramidReceipt.
Import Receipt.
(** The options are sent as a map. *)
Record pbReceipt := mkpb { pbCode : Z; pbLog : string; pbInfo : string; pbOptions : gmap string string }.
#[export] Instance pbReceipt_eq_dec : EqDecision pbReceipt.
Proof. solve_decision. Defined.
Definition ToProto (r : t) : pbReceipt := mkpb (Code r) (Log r) (Info r) (Options r).
Definition NewABCIReceiptFromProto (p : pbReceipt) : t := mk (i8 (pbCode p)) (pbLog p) (pbInfo p) (pbOptions p).
Definition ProtoBytes `{Codec pbReceipt} (r : t) : go bytes := MustProtoBytes (ToProto r).
Definition NewABCIReceiptFromBytes `{Codec pbReceipt} (bz : bytes) : option t :=
  NewABCIReceiptFromProto <$> Unmarshal bz.

(** A receipt is read back unchanged, its options included. *)
Lemma Receipt_restored `{Codec pbReceipt} r bz :
  in_s 8 (Code r) -> ProtoBytes r = Ok bz -> NewABCIReceiptFromBytes bz = Some r.
Proof.
  unfold ProtoBytes, MustProtoBytes, NewABCIReceiptFromBytes. intros Hc Hm.
  destruct (Marshal _) eqn:E; [|done]. injection Hm as ->. rewrite (Unmarshal_Marshal _ _ E). cbn.
  unfold NewABCIReceiptFromProto. cbn. rewrite wrap_s_small by (done || lia). by destruct r.
Qed.
End PyramidReceipt.
