(* ===== verification/PyramidBank.v ===== *)
(** * The bank of the comparison protocols: [pyramid/abci/minibank]

    Here a shard agrees on a cross-shard block by two-phase commit: an I shard
    locks the keys of a block it accepts, with the values the block will write
    ([AcceptCrossShard]), and writes or drops them when the B shard has decided
    ([AcceptCommitShard]). Inner transactions must not touch a locked key. The
    overlays and the encodings are those of [MemDB] and [BankTx]
    ([rapid/abci/minibank] is [pyramid/abci/minibank]). *)

From S2P Require Import Prelude BitVector Convert Hash Wire Types PyramidTypes RangeTree.
From S2P Require Import Store MemDB BankTx Bank.
Local Open Scope Z_scope.

Definition pyramidTexts : OverlayTexts :=
  {| outOfRangeText := "Out of shard range";
     notProvidedText key :=
       "During the transaction, key=" +:+ key +:+ "is read, but the cross-shard block is not provided" |}.
#[export] Existing Instance pyramidTexts.

(** ** One transaction *)

Module PyramidTx.
(** [definition/message.go] *)
Definition TxTransfer : Z := 12.

Definition ValidateTransferTx (tx : pbTransferTx) : option goerr :=
  if negb (zlen (From tx) =? zlen (FromMoney tx)) || negb (zlen (To tx) =? zlen (ToMoney tx)) then
    Some (Errorf "From/FromMoney and To/ToMoney have different lengths")
  else if (zlen (From tx) =? 0) || (zlen (To tx) =? 0) then Some (Errorf "From/To is empty")
  else if negb (sum32 (FromMoney tx) =? sum32 (ToMoney tx)) then
    Some (Errorf "The sum of FromMoney and ToMoney is not equal")
  else None.

Section tx.
Context {D : Type} `{MemDB D} (LockedKeys : gmap string Z).
Import Tx (res, ret, fail, tbind).

Definition locked (key : string) : bool := bool_decide (is_Some (LockedKeys !! key)).
Definition isLocked : goerr := Errorf "Locked primary key accessed".

(** A balance that cannot be read counts as the initial one, and is not checked
    against the amount. *)
Fixpoint debit (d : D) (from : list string) (money : list Z) : res (list Z) :=
  match from with
  | [] => ret d []
  | fromKey :: from =>
      if locked fromKey then fail d isLocked
      else
        let! '(d, (balance, err)) := mGet d fromKey in
        match money with
        | [] => Panic
        | m :: money =>
            match err with
            | Some _ => tbind (debit d from money) (fun d rest => ret d (wrap_u 32 (initBalance - m) :: rest))
            | None =>
                if balance <? m then fail d (Errorf "Balance is not Enough")
                else tbind (debit d from money) (fun d rest => ret d (wrap_u 32 (balance - m) :: rest))
            end
        end
  end.

Fixpoint credit (d : D) (to_ : list string) (money : list Z) : res (list Z) :=
  match to_ with
  | [] => ret d []
  | toKey :: to_ =>
      if locked toKey then fail d isLocked
      else
        let! '(d, (balance, err)) := mGet d toKey in
        match money with
        | [] => Panic
        | m :: money =>
            let base := match err with Some _ => initBalance | None => balance end in
            tbind (credit d to_ money) (fun d rest => ret d (wrap_u 32 (base + m) :: rest))
        end
  end.

Fixpoint store (d : D) (keys : list string) (balances : list Z) : res unit :=
  match keys with
  | [] => ret d tt
  | key :: keys =>
      if locked key then fail d isLocked
      else
        match balances with
        | [] => Panic
        | b :: balances =>
            let! '(d, err) := mSet d key b in
            match err with Some e => fail d e | None => store d keys balances end
        end
  end.

Definition doTransfer (tx : pbTransferTx) (d : D) : res unit :=
  match ValidateTransferTx tx with
  | Some e => fail d e
  | None =>
      tbind (debit d (From tx) (FromMoney tx)) (fun d fromBalance =>
      tbind (credit d (To tx) (ToMoney tx)) (fun d toBalance =>
      tbind (store d (From tx) fromBalance) (fun d _ => store d (To tx) toBalance)))
  end.

Context `{!Codec pbTransferTx} (unmarshalError : bytes -> string).

Definition execute (txBytes : bytes) (d : D) : res unit :=
  if (length txBytes <? 4)%nat then fail d (Errorf "Given tx length less than 4, invalid format")
  else
    let! txType := BytesToUint32 (take 4 txBytes) in
    if txType =? TxTransfer then
      match Unmarshal (drop 4 txBytes) with
      | Some tx => doTransfer tx d
      | None => fail d (Errorf (unmarshalError txBytes))
      end
    else fail d (Errorf "ABCI Tx does not define a type").
End tx.
End PyramidTx.

(** ** The application *)

Module PyramidBank.
Section bank.
Context `{Hash, StdTime, DB, !Codec pbTransferTx, !Codec pbBankData, !Codec pbBlock}.
Context (unmarshalError : bytes -> string).

(** [blockDB] is the store of the consensus. *)
Record Application := mkApp {
  blockDB : Database; db : Database;
  KeyRangeTree : gmap string RangeTree.t; AllShardRangeTree : option RangeTree.t;
  IsI : bool; MyChainID : string; appStatus : bytes;
  LockedKeys : gmap string Z }.

Definition NewApplication (db : Database) (chain_id : string) (isI : bool) (keyRangeTree : option RangeTree.t)
    (relatedIKeyRangeTree : gmap string RangeTree.t) (block_db : Database) : Application :=
  mkApp block_db db relatedIKeyRangeTree keyRangeTree isI chain_id (of_str "minibank") ∅.

Definition SetBlockStore (app : Application) (bs : Database) : Application :=
  mkApp bs (db app) (KeyRangeTree app) (AllShardRangeTree app) (IsI app) (MyChainID app) (appStatus app)
    (LockedKeys app).
Definition setDB (app : Application) (d : Database) : Application :=
  mkApp (blockDB app) d (KeyRangeTree app) (AllShardRangeTree app) (IsI app) (MyChainID app) (appStatus app)
    (LockedKeys app).
Definition setLocks (app : Application) (l : gmap string Z) : Application :=
  mkApp (blockDB app) (db app) (KeyRangeTree app) (AllShardRangeTree app) (IsI app) (MyChainID app)
    (appStatus app) l.

Definition Commit (app : Application) : bytes := appStatus app.

Definition execute {D} `{MemDB D} (app : Application) (tx : bytes) (d : D) : go (D * option goerr) :=
  let! '(d, r) := PyramidTx.execute (LockedKeys app) unmarshalError tx d in Ok (d, errOf r).

(** *** Keys and locks *)

Definition unmarshalTransferTx (tx : bytes) : go (pbTransferTx + goerr) :=
  if (length tx <? 4)%nat then Ok (inr (Errorf "Given tx length less than 4, invalid format"))
  else
    let! txType := BytesToUint32 (take 4 tx) in
    if negb (txType =? PyramidTx.TxTransfer) then Ok (inr (Errorf "Given tx is not a transfer transaction"))
    else
      let! ptx := NewTransferTxFromBytes tx in
      Ok (match ptx with Some ptx => inl ptx | None => inr (Errorf (unmarshalError tx)) end).

Definition txKeys (tx : pbTransferTx) : gset string := list_to_set (From tx) ∪ list_to_set (To tx).
(** The read set is left empty. *)
Definition appendRWSet (tx : pbTransferTx) (readSet writeSet : gset string) : gset string * gset string :=
  (readSet, writeSet ∪ txKeys tx).
Definition getRWSet (tx : pbTransferTx) : gset string * gset string := (txKeys tx, txKeys tx).

Definition requireLock (locks : gmap string Z) (key : string) : bool :=
  negb (bool_decide (is_Some (locks !! key))).
Definition setLock (locks : gmap string Z) (key : string) (value : Z) : gmap string Z * bool :=
  if bool_decide (is_Some (locks !! key)) then (locks, false) else (<[key := value]> locks, true).
(** The batch is written at the end: its operations are in reverse order. *)
Definition releaseLock (locks : gmap string Z) (key : string) (batch : list BatchOp) :
    gmap string Z * list BatchOp :=
  match locks !! key with
  | None => (locks, batch)
  | Some value => (delete key locks, BatchSet (of_str key) (Uint32ToBytes value) :: batch)
  end.
Definition undoLock (locks : gmap string Z) (key : string) : gmap string Z := delete key locks.

Definition CheckLock (app : Application) (tx : bytes) : go bool :=
  let! ptx := unmarshalTransferTx tx in
  match ptx with
  | inr _ => Ok true
  | inl ptx =>
      let '(rs, ws) := getRWSet ptx in
      Ok (forallb (requireLock (LockedKeys app)) (elements rs) &&
          forallb (requireLock (LockedKeys app)) (elements ws))
  end.

(** *** Validation *)

Definition ValidateTx (app : Application) (txBytes : bytes) (isCrossShard : bool) : go bool :=
  if (length txBytes <? 4)%nat then Ok false
  else if IsI app && isCrossShard then Ok false
  else
    let rangeTree := if IsI app || isCrossShard then AllShardRangeTree app
                     else KeyRangeTree app !! MyChainID app in
    let! txType := BytesToUint32 (take 4 txBytes) in
    if txType =? PyramidTx.TxTransfer then
      let! tx := unmarshalTransferTx txBytes in
      match tx with
      | inr _ => Ok false
      | inl tx =>
          let! from := Bank.allInRange rangeTree (From tx) in
          if from then Bank.allInRange rangeTree (To tx) else Ok false
      end
    else Ok false.

(** *** The block of a B shard *)

Fixpoint fillTxs (app : Application) (txs : Txs.t) (d : RangeDB.t) : go (list bytes) :=
  match txs with
  | [] => Ok []
  | tx :: txs =>
      let! '(d, err) := execute app tx d in
      let readSet := Bank.emptyOnError err (RangeDB.GetReadSet d) in
      let ok := bool_decide (err = None) in
      let d := RangeDB.CommitWrite d ok in
      let! data := CrossShardDataBytes readSet ok in
      let! datas := fillTxs app txs d in
      Ok (data :: datas)
  end.

Definition FillData (app : Application) (block : Block.t) : go Block.t :=
  if IsI app then Panic
  else
    let txs := Bank.crossTxs block in
    let! csd := fillTxs app txs (RangeDB.NewRangeDB (MemoryDB.NewMemoryDB (db app)) (AllShardRangeTree app)) in
    Ok (Block.mk (Block.Header block) (Block.Body block) (CrossShardBody.mk txs csd) (Block.Relation block)
          (Block.blockhash block)).

Definition PreExecutionB (app : Application) (block : Block.t) : ABCIPreExecutionResponseB :=
  mkRespB CodeTypeOK (Bank.crossDatas block) [].

(** *** The vote of an I shard *)

Fixpoint blockRWSet (txs : Txs.t) (rw : gset string * gset string) : go (option (gset string * gset string)) :=
  match txs with
  | [] => Ok (Some rw)
  | tx :: txs =>
      let! ptx := unmarshalTransferTx tx in
      match ptx with
      | inr _ => Ok None
      | inl ptx => blockRWSet txs (appendRWSet ptx rw.1 rw.2)
      end
  end.

(** The values sent with a block are checked for the inner transactions, of
    which a cross-shard block has none. *)
Fixpoint checkDatas (app : Application) (datas : list bytes) (i : Z) (txs : Txs.t) (m : MemoryDB.t) :
    go (option goerr) :=
  match txs with
  | [] => Ok None
  | tx :: txs =>
      let! data := idx datas i in
      let! csd := NewCrossShardDataFromBytes data in
      match csd with
      | None => Ok (Some (Errorf "Problem with cross-shard data!"))
      | Some (csdb, ok) =>
          let! '(m, freshFlag) := Bank.fresh (AllShardRangeTree app) m (map_to_list csdb) in
          if negb freshFlag then Ok (Some (Errorf "Cross-shard data is stale (%d)!"))
          else if (ok : bool) then
            let! '(d, err) := execute app tx (CrossShardDB.NewCrossShardDB m csdb) in
            let m := CrossShardDB.db (CrossShardDB.CommitWrite d (bool_decide (err = None))) in
            checkDatas app datas (i + 1) txs m
          else checkDatas app datas (i + 1) txs m
      end
  end.

Definition isType (block : Block.t) (ty : Z) : bool := Header.BlockType (Block.Header block) =? ty.

Definition PreExecutionI (app : Application) (block : Block.t) : go PreExecutionResponseI :=
  if negb (isType block BLOCKTYPE_CrossShard) then Panic
  else if negb (IsI app) then Panic
  else
    let! rw := blockRWSet (Bank.crossTxs block) (∅, ∅) in
    match rw with
    | None => Ok (mkPreRespI CodeTypeAbort [Errorf "There are non-serializable transactions"])
    | Some (readSet, writeSet) =>
        if negb (forallb (requireLock (LockedKeys app)) (elements readSet)) then
          Ok (mkPreRespI CodeTypeAbort [Errorf "Locked primary key accessed. Conflict!"])
        else if negb (forallb (requireLock (LockedKeys app)) (elements writeSet)) then
          Ok (mkPreRespI CodeTypeAbort [Errorf "Locked primary key accessed. Conflict!！"])
        else
          let! err := checkDatas app (Bank.crossDatas block) 0 (Bank.bodyTxs block)
                        (MemoryDB.NewMemoryDB (db app)) in
          Ok (match err with
              | Some e => mkPreRespI CodeTypeAbort [e]
              | None => mkPreRespI CodeTypeOK []
              end)
    end.

(** *** Execution

    The three counters that every operation returns with its receipts. *)
Definition Response : Type := ExecutionResponse * (Z * Z * Z).

Definition setBlockDB (app : Application) (d : Database) : Application := SetBlockStore app d.

(** The block is stored under its height and hash; errors are not looked at. *)
Definition storeBlock (app : Application) (block : Block.t) : go (Application * Block.t) :=
  let '(block, hs) := PyramidBlock.Hash_ block in
  let h := Block.Header block in
  let! '(d, _) := PrefixStore.SetBlockByHeight (blockDB app) (Header.Height h) (Header.ChainID h)
                    (mkStored hs (Block.ProtoBytes block)) in
  Ok (setBlockDB app d, block).

Fixpoint executeInner (app : Application) (txs : Txs.t) (d : RangeDB.t) : go (RangeDB.t * list Receipt.t) :=
  match txs with
  | [] => Ok (d, [])
  | tx :: txs =>
      let! '(d, err) := execute app tx d in
      let r := match err with
               | Some e => Bank.receipt CodeTypeAbort (errText e)
               | None => Bank.receipt CodeTypeOK ""
               end in
      let! '(d, rs) := executeInner app txs (RangeDB.CommitWrite d (bool_decide (err = None))) in
      Ok (d, r :: rs)
  end.

Definition ExecutionInnerShard (app : Application) (block : Block.t) : go (Application * Block.t * Response) :=
  if negb (isType block BLOCKTYPE_InnerShard) then Panic
  else
    let txs := Bank.bodyTxs block in
    let! '(r, rs) := executeInner app txs
                       (RangeDB.NewRangeDB (MemoryDB.NewMemoryDB (db app))
                          (KeyRangeTree app !! Header.ChainID (Block.Header block))) in
    let! '(r, err) := RangeDB.Write r in
    match err with
    | Some _ => Panic
    | None =>
        let! '(app, block) := storeBlock (setDB app (MemoryDB.db (RangeDB.db r))) block in
        Ok (app, block, (mkExec rs, (zlen txs, 0, 0)))
    end.

(** A transaction of a block that is accepted, on the data of the sender. *)
Definition lockTx (app : Application) (tx data : bytes) (m : MemoryDB.t) : go (MemoryDB.t * Receipt.t) :=
  let! csd := NewCrossShardDataFromBytes data in
  match csd with
  | None => Ok (m, Bank.receipt CodeTypeEncodingError (unmarshalError data))
  | Some (_, false) => Ok (m, Bank.receipt CodeTypeEncodingError "")
  | Some (csdb, true) =>
      let! '(d, err) := execute app tx (CrossShardDB.NewCrossShardDB m csdb) in
      let r := match err with
               | Some e => Bank.receipt CodeTypeUnknownError (errText e)
               | None => Bank.receipt CodeTypeOK ""
               end in
      Ok (CrossShardDB.db (CrossShardDB.CommitWrite d (bool_decide (err = None))), r)
  end.

Fixpoint lockTxs (app : Application) (datas : list bytes) (i : Z) (txs : Txs.t) (m : MemoryDB.t) :
    go (MemoryDB.t * list Receipt.t) :=
  match txs with
  | [] => Ok (m, [])
  | tx :: txs =>
      let! data := idx datas i in
      let! '(m, r) := lockTx app tx data m in
      let! '(m, rs) := lockTxs app datas (i + 1) txs m in
      Ok (m, r :: rs)
  end.

Fixpoint okRWSet (txs : Txs.t) (receipts : list Receipt.t) (rw : gset string * gset string) :
    go (gset string * gset string) :=
  match txs, receipts with
  | [], _ => Ok rw
  | _ :: _, [] => Panic
  | tx :: txs, r :: receipts =>
      if negb (Receipt.IsOK r) then okRWSet txs receipts rw
      else
        let! ptx := unmarshalTransferTx tx in
        match ptx with
        | inr _ => Panic
        | inl ptx => okRWSet txs receipts (appendRWSet ptx rw.1 rw.2)
        end
  end.

Fixpoint lockKeys (rt : option RangeTree.t) (keys : list string) (m : MemoryDB.t) (locks : gmap string Z) :
    go (gmap string Z) :=
  match keys with
  | [] => Ok locks
  | key :: keys =>
      let! found := RangeDB.search rt key in
      if found then
        let! '(m, (u, err)) := MemoryDB.Get m key in
        match err with
        | Some _ => Panic
        | None => lockKeys rt keys m (fst (setLock locks key u))
        end
      else lockKeys rt keys m locks
  end.

Definition AcceptCrossShard (app : Application) (block : Block.t) (chain_id : string) (ifcommit : bool) :
    go (Application * Block.t * Response) :=
  if negb (isType block BLOCKTYPE_CrossShard) then Panic
  else
    let! '(app, receipts) :=
      if ifcommit then
        let txs := Bank.crossTxs block in
        let! '(m, receipts) := lockTxs app (Bank.crossDatas block) 0 txs (MemoryDB.NewMemoryDB (db app)) in
        let! '(_, writeSet) := okRWSet txs receipts (∅, ∅) in
        let! locks := lockKeys (KeyRangeTree app !! chain_id) (elements writeSet) m (LockedKeys app) in
        Ok (setLocks app locks, receipts)
      else Ok (app, []) in
    let '(block, hs) := PyramidBlock.Hash_ block in
    let '(d, _) := PrefixStore.SetState (blockDB app) hs (of_str "ok") in
    let! '(app, block) := storeBlock (setBlockDB app d) block in
    Ok (app, block, (mkExec receipts, (1, 0, 0))).

(** The keys of the transactions that decode. *)
Fixpoint decidedKeys (txs : Txs.t) (rw : gset string * gset string) : go (gset string * gset string) :=
  match txs with
  | [] => Ok rw
  | tx :: txs =>
      let! ptx := unmarshalTransferTx tx in
      decidedKeys txs (match ptx with inr _ => rw | inl ptx => appendRWSet ptx rw.1 rw.2 end)
  end.

Fixpoint releaseKeys (rt : option RangeTree.t) (commit : bool) (keys : list string)
    (s : gmap string Z * list BatchOp) : go (gmap string Z * list BatchOp) :=
  match keys with
  | [] => Ok s
  | key :: keys =>
      let! found := RangeDB.search rt key in
      releaseKeys rt commit keys
        (if found then if commit then releaseLock s.1 key s.2 else (undoLock s.1 key, s.2) else s)
  end.

(** What is stored of an accepted block: its transactions. *)
Definition acceptedBlock (app : Application) (hs : bytes) : go (option Block.t) :=
  let! block := Block.NewBlockFromBytes (default [] (fst (PrefixStore.GetBlockByHash (blockDB app) hs))) in
  match block with
  | None => Ok None
  | Some block =>
      let '(icommit, err) := PrefixStore.GetState (blockDB app) hs in
      Ok (if bool_decide (is_Some err) || negb (bool_decide (default [] icommit = of_str "ok")) then None
          else Some block)
  end.

Fixpoint decideBlocks (app : Application) (rt : option RangeTree.t) (commits : list bool) (i : Z)
    (hashes : list bytes) (s : gmap string Z * list BatchOp) :
    go (gmap string Z * list BatchOp * list Receipt.t) :=
  match hashes with
  | [] => Ok (s, [])
  | hs :: hashes =>
      let! block := acceptedBlock app hs in
      let! '(s, r) :=
        match block with
        | None => Ok (s, Bank.receipt CodeTypeAbort "")
        | Some block =>
            let! '(_, writeSet) := decidedKeys (Bank.crossTxs block) (∅, ∅) in
            let! commit := idx commits i in
            let! s := releaseKeys rt commit (elements writeSet) s in
            Ok (s, Bank.receipt (if commit then CodeTypeOK else CodeTypeAbort) "")
        end in
      let! '(s, rs) := decideBlocks app rt commits (i + 1) hashes s in
      Ok (s, r :: rs)
  end.

Definition AcceptCommitShard (app : Application) (hashes : list bytes) (commits : list bool)
    (chain_id : string) : go (Application * Response) :=
  let! '(locks, batch, receipts) :=
    decideBlocks app (KeyRangeTree app !! chain_id) commits 0 hashes (LockedKeys app, []) in
  let '(d, err) := PrefixStore.WriteBatch (db app) (rev batch) in
  match err with
  | Some _ => Panic
  | None => Ok (setDB (setLocks app locks) d, (mkExec receipts, (1, 0, 0)))
  end.
End bank.
End PyramidBank.
