(* ===== verification/PyramidBankSpec.v ===== *)
(** * What the two-phase commit of the comparison protocols promises

    The state of the bank seen from outside is the balances and the locked
    keys. Accepting a block locks the keys it writes with the values it will
    write, the decision writes or drops them, and inner transactions leave them
    alone; so a committed block takes effect at once, whatever happened between
    its acceptance and the decision, as long as no other decision names one of
    its keys. *)

From S2P Require Import Prelude BitVector Convert Hash Wire Types PyramidTypes RangeTree.
From S2P Require Import Store MemDB Codecs BankTx Bank BankSpec PyramidBank.
Import PyramidBank.
Local Open Scope Z_scope.

(** ** The outcome of a transaction *)

Section outcome.
Context (lockedKeys : gmap string Z).
Notation locked := (PyramidTx.locked lockedKeys).

Fixpoint debits (bal : string -> option Z) (from : list string) (money : list Z) : option (list Z) :=
  match from, money with
  | [], _ => Some []
  | k :: from, m :: money =>
      if locked k then None
      else match bal k with
           | None => rest ← debits bal from money; Some (wrap_u 32 (initBalance - m) :: rest)
           | Some b => if b <? m then None else rest ← debits bal from money; Some (wrap_u 32 (b - m) :: rest)
           end
  | _ :: _, [] => None
  end.

Fixpoint credits (bal : string -> option Z) (to_ : list string) (money : list Z) : option (list Z) :=
  match to_, money with
  | [], _ => Some []
  | k :: to_, m :: money =>
      if locked k then None
      else rest ← credits bal to_ money; Some (wrap_u 32 (default initBalance (bal k) + m) :: rest)
  | _ :: _, [] => None
  end.

(** The assignments of a transfer; every key must be writable. *)
Definition transfer (bal : string -> option Z) (wr : string -> bool) (tx : pbTransferTx) :
    option (list (string * Z)) :=
  match PyramidTx.ValidateTransferTx tx with
  | Some _ => None
  | None =>
      from ← debits bal (From tx) (FromMoney tx);
      to_ ← credits bal (To tx) (ToMoney tx);
      if forallb wr (From tx ++ To tx) then Some (combine (From tx) from ++ combine (To tx) to_) else None
  end.

Lemma Validate_lengths tx : PyramidTx.ValidateTransferTx tx = None ->
  length (From tx) = length (FromMoney tx) /\ length (To tx) = length (ToMoney tx).
Proof.
  unfold PyramidTx.ValidateTransferTx.
  destruct (negb (_ =? zlen (FromMoney tx)) || negb (_ =? zlen (ToMoney tx))) eqn:E1; [done|]. intros _.
  apply orb_false_iff in E1 as [F1%negb_false_iff%Z.eqb_eq F2%negb_false_iff%Z.eqb_eq]. lia.
Qed.

(** The two read loops compute the same list and lock check. *)
Lemma debits_spec bal from money l : debits bal from money = Some l ->
  length from = length money -> length l = length from /\ Forall (in_u 32) l /\ Forall (fun k => locked k = false) from.
Proof.
  revert money l. induction from as [|k from IH]; intros [|m money] l; cbn; try done.
  { intros [= <-] _. by split_and!. }
  destruct (locked k) eqn:El; [done|]. intros E [= Hn].
  assert (exists b rest, debits bal from money = Some rest /\ l = wrap_u 32 (b - m) :: rest) as (b & rest & Er & ->).
  { destruct (bal k) as [b|]; [destruct (b <? m); [done|]|];
      (destruct (debits bal from money) as [rest|]; cbn in E; [injection E as <-; eauto|done]). }
  destruct (IH money rest Er Hn) as (L & R & A). cbn. split_and!; [lia| |by constructor].
  constructor; [by apply wrap_u_range|done].
Qed.
Lemma credits_spec bal to_ money l : credits bal to_ money = Some l ->
  length to_ = length money -> length l = length to_ /\ Forall (in_u 32) l /\ Forall (fun k => locked k = false) to_.
Proof.
  revert money l. induction to_ as [|k to_ IH]; intros [|m money] l; cbn; try done.
  { intros [= <-] _. by split_and!. }
  destruct (locked k) eqn:El; [done|]. destruct (credits bal to_ money) as [rest|] eqn:Er; cbn; [|done].
  intros [= <-] [= Hn]. destruct (IH money rest Er Hn) as (L & R & A). cbn. split_and!; [lia| |by constructor].
  constructor; [by apply wrap_u_range|done].
Qed.

Lemma debits_same f g from money : (forall k, k ∈ from -> f k = g k) -> debits f from money = debits g from money.
Proof.
  intros E. revert money. induction from as [|k from IH]; intros [|m money]; cbn; try done.
  rewrite E by constructor. rewrite (IH (fun k' Hk => E k' (list_elem_of_further _ _ _ Hk))). done.
Qed.
Lemma credits_same f g from money : (forall k, k ∈ from -> f k = g k) -> credits f from money = credits g from money.
Proof.
  intros E. revert money. induction from as [|k from IH]; intros [|m money]; cbn; try done.
  rewrite E by constructor. rewrite (IH (fun k' Hk => E k' (list_elem_of_further _ _ _ Hk))). done.
Qed.

(** ** Against the interface *)

Context {D : Type} `{MemDBLaws D}.

(** How a loop of reads ends: with the list, or an error. *)
Definition readsTo (d : D) (m : Tx.res (D := D) (list Z)) (r : option (list Z)) : Prop :=
  exists d' x, m = Ok (d', x) /\ same d d' /\
    match r with Some l => x = inl l | None => exists e, x = inr e end.

Lemma readsTo_step d key (body : D -> Z * option goerr -> Tx.res (list Z)) r : dok d ->
  (forall d1 v err, same d d1 -> match reads d key with Some b => v = b /\ err = None | None => is_Some err end ->
     readsTo d1 (body d1 (v, err)) r) ->
  readsTo d (let! '(d', x) := mGet d key in body d' x) r.
Proof.
  intros Hd Hb. destruct (Get_law d key Hd) as (d1 & [v err] & E & R & A & B & C & D1 & D2 & D3).
  assert (same d d1) as S by by split. rewrite E. cbn [gbind].
  destruct (Hb d1 v err S) as (d' & x & E' & S' & R').
  { destruct (reads d key); [by destruct R as [[= -> ->] _]|exact R]. }
  exists d', x. split; [exact E'|]. split; [by eapply same_trans|done].
Qed.

(** Consing a value to the rest of a loop. *)
Lemma readsTo_cons d (m : Tx.res (D := D) (list Z)) r b : readsTo d m r ->
  readsTo d (Tx.tbind m (fun d rest => Tx.ret d (b :: rest))) (rest ← r; Some (b :: rest)).
Proof.
  intros (d' & x & E & S & R). unfold Tx.tbind. rewrite E. cbn [gbind].
  destruct r as [l|]; cbn; [subst x|destruct R as [e ->]]; eexists _, _; (split; [done|]); eauto.
Qed.

Lemma readsTo_fail d e : dok d -> readsTo d (Tx.fail d e) None.
Proof. intros Hd. eexists _, _. split; [done|]. split; [by apply same_refl|]. eauto. Qed.

Lemma debit_reads d from money : dok d -> length from = length money ->
  readsTo d (PyramidTx.debit lockedKeys d from money) (debits (reads d) from money).
Proof.
  revert d money. induction from as [|key from IH]; intros d [|m money]; cbn [PyramidTx.debit debits length]; try done.
  - intros Hd _. eexists _, _. split; [done|]. split; [by apply same_refl|done].
  - intros Hd [= Hn]. destruct (locked key); [by apply readsTo_fail|].
    apply (readsTo_step d key (fun d x => let '(balance, err) := x in _) _ Hd). intros d1 v err S R.
    pose proof (IH d1 money (sm_ok _ _ S) Hn) as Hrec.
    rewrite (debits_same _ (reads d)) in Hrec by (intros; apply S).
    destruct (reads d key) as [b|]; [destruct R as [-> ->]|destruct R as [e ->]].
    + destruct (b <? m); [by apply readsTo_fail, S|by apply readsTo_cons].
    + by apply readsTo_cons.
Qed.

Lemma credit_reads d to_ money : dok d -> length to_ = length money ->
  readsTo d (PyramidTx.credit lockedKeys d to_ money) (credits (reads d) to_ money).
Proof.
  revert d money. induction to_ as [|key to_ IH]; intros d [|m money]; cbn [PyramidTx.credit credits length]; try done.
  - intros Hd _. eexists _, _. split; [done|]. split; [by apply same_refl|done].
  - intros Hd [= Hn]. destruct (locked key); [by apply readsTo_fail|].
    apply (readsTo_step d key (fun d x => let '(balance, err) := x in _) _ Hd). intros d1 v err S R.
    pose proof (IH d1 money (sm_ok _ _ S) Hn) as Hrec.
    rewrite (credits_same _ (reads d)) in Hrec by (intros; apply S).
    destruct (reads d key) as [b|]; [destruct R as [-> ->]|destruct R as [e ->]]; by apply readsTo_cons.
Qed.

Lemma store_writes d keys balances : dok d -> length keys = length balances ->
  Forall (fun k => locked k = false) keys -> Forall (in_u 32) balances ->
  exists d' x, PyramidTx.store lockedKeys d keys balances = Ok (d', x) /\ dok d' /\
    (forall k, base d' k = base d k) /\ (forall k, writable d' k = writable d k) /\
    if forallb (writable d) keys then x = inl tt /\ mGetWriteSet d' = assign (combine keys balances) (mGetWriteSet d)
    else exists e, x = inr e.
Proof.
  revert d balances. induction keys as [|key keys IH]; intros d [|b balances] Hd; cbn [length PyramidTx.store combine forallb]; try done.
  - intros _ _ _. eexists _, _. split; [done|]. by split_and!.
  - intros [= Hn] [Hl Hls]%Forall_cons [Hb Hbs]%Forall_cons. rewrite Hl.
    destruct (writable d key) eqn:Hw; cbn [andb].
    + destruct (Set_law d key b Hd Hb Hw) as (d1 & E & A1 & A2 & A3 & A4 & A5). rewrite E. cbn [gbind].
      destruct (IH d1 balances A1 Hn Hls Hbs) as (d' & x & E' & B1 & B2 & B3 & R). exists d', x. split; [exact E'|].
      split; [done|]. split; [intros k; by rewrite B2|]. split; [intros k; by rewrite B3|].
      rewrite (forallb_ext _ (writable d)) in R by (intros; apply A5).
      destruct (forallb _ _); [|done]. destruct R as [-> ->]. by rewrite A2.
    + destruct (Set_refused d key b Hd Hw) as (e & E). rewrite E. cbn [gbind].
      eexists _, _. split; [done|]. split_and!; [done..|eauto].
Qed.

(** How a transaction ends: nothing that was committed changes; on success the
    write set has the assignments. *)
Definition endsWith (d : D) (m : Tx.res (D := D) unit) (r : option (list (string * Z))) : Prop :=
  exists d' x, m = Ok (d', x) /\ wok d' /\ (forall k, base d' k = base d k) /\
    match r with
    | Some l => x = inl tt /\ mGetWriteSet d' = assign l (mGetWriteSet d)
    | None => exists e, x = inr e
    end.

Lemma endsWith_error d d' e : wok d' -> (forall k, base d' k = base d k) ->
  endsWith d (Tx.fail d' e) None.
Proof. intros W B. eexists _, _. split; [done|]. eauto. Qed.

Lemma doTransfer_ends tx d : dok d ->
  endsWith d (PyramidTx.doTransfer lockedKeys tx d) (transfer (reads d) (writable d) tx).
Proof.
  intros Hd. unfold PyramidTx.doTransfer, transfer.
  destruct (PyramidTx.ValidateTransferTx tx) as [e|] eqn:Ev; [by apply endsWith_error; [apply dok_wok|]|].
  destruct (Validate_lengths tx Ev) as [L1 L2].
  destruct (debit_reads d (From tx) (FromMoney tx) Hd L1) as (d1 & x1 & E1 & S1 & R1). rewrite E1.
  unfold Tx.tbind at 1. cbn [gbind]. destruct (debits (reads d) _ _) as [l1|] eqn:Ed; cbn [mbind option_bind].
  2:{ destruct R1 as [e ->]. apply endsWith_error; [apply dok_wok|]; apply S1. }
  subst x1. destruct (credit_reads d1 (To tx) (ToMoney tx) (sm_ok _ _ S1) L2) as (d2 & x2 & E2 & S2 & R2). rewrite E2.
  unfold Tx.tbind at 1. cbn [gbind]. rewrite (credits_same _ (reads d)) in R2 by (intros; apply S1).
  pose proof (same_trans _ _ _ S1 S2) as S.
  destruct (credits (reads d) _ _) as [l2|] eqn:Ec; cbn [mbind option_bind].
  2:{ destruct R2 as [e ->]. apply endsWith_error; [apply dok_wok|]; apply S. }
  subst x2. destruct (debits_spec _ _ _ _ Ed L1) as (N1 & F1 & K1), (credits_spec _ _ _ _ Ec L2) as (N2 & F2 & K2).
  destruct (store_writes d2 (From tx) l1 (sm_ok _ _ S)) as (d3 & x3 & E3 & O3 & B3 & W3 & R3); [lia|done..|].
  unfold Tx.tbind. rewrite E3. cbn [gbind]. rewrite forallb_app.
  rewrite (forallb_ext _ (writable d)) in R3 by (intros; apply S).
  destruct (forallb (writable d) (From tx)); cbn [andb].
  2:{ destruct R3 as [e ->]. apply endsWith_error; [by apply dok_wok|]. intros k. by rewrite B3, (sm_base _ _ S). }
  destruct R3 as [-> R3].
  destruct (store_writes d3 (To tx) l2 O3) as (d4 & x4 & E4 & O4 & B4 & W4 & R4); [lia|done..|].
  rewrite (forallb_ext _ (writable d)) in R4 by (intros; rewrite W3; apply S).
  exists d4, x4. split; [exact E4|]. split; [by apply dok_wok|].
  split; [intros k; by rewrite B4, B3, (sm_base _ _ S)|].
  destruct (forallb _ _); [|done]. destruct R4 as [-> ->]. by rewrite R3, (sm_write _ _ S), assign_app.
Qed.
End outcome.

(** What reading and writing keep, a transaction keeps. *)
Section keeps.
Context {D : Type} `{MemDB D} (lockedKeys : gmap string Z) (P : D -> Prop).
Context (Hget : forall d key d' r, P d -> mGet d key = Ok (d', r) -> P d').
Context (Hset : forall d key v d' r, P d -> mSet d key v = Ok (d', r) -> P d').

Lemma tbind_keeps {A B} (m : Tx.res (D := D) A) (f : D -> A -> Tx.res B) d' x :
  (forall d y, m = Ok (d, y) -> P d) -> (forall d a d' x, P d -> f d a = Ok (d', x) -> P d') ->
  Tx.tbind m f = Ok (d', x) -> P d'.
Proof.
  intros Hm Hf (  [d [a|e]] & Em & E)%gbind_Ok; [by eapply Hf; [eapply Hm|]|].
  injection E as <- _. by eapply Hm.
Qed.

Lemma debit_keeps d from money d' x : P d -> PyramidTx.debit lockedKeys d from money = Ok (d', x) -> P d'.
Proof.
  revert d money d' x. induction from as [|k from IH]; intros d money d' x Hd; cbn; [by intros [= <- _]|].
  destruct (PyramidTx.locked _ k); [by intros [= <- _]|]. intros ([d1 [b err]] & E1 & E)%gbind_Ok.
  pose proof (Hget _ _ _ _ Hd E1) as P1. destruct money as [|m money]; [done|].
  assert (forall b, Tx.tbind (PyramidTx.debit lockedKeys d1 from money) (fun d rest => Tx.ret d (b :: rest)) = Ok (d', x) -> P d') as Hr.
  { intros v. apply tbind_keeps; [by eauto|]. by intros ???? ? [= <- _]. }
  destruct err; [by eapply Hr|]. destruct (b <? m); [by injection E as <- _|by eapply Hr].
Qed.
Lemma credit_keeps d to_ money d' x : P d -> PyramidTx.credit lockedKeys d to_ money = Ok (d', x) -> P d'.
Proof.
  revert d money d' x. induction to_ as [|k to_ IH]; intros d money d' x Hd; cbn; [by intros [= <- _]|].
  destruct (PyramidTx.locked _ k); [by intros [= <- _]|]. intros ([d1 [b err]] & E1 & E)%gbind_Ok.
  pose proof (Hget _ _ _ _ Hd E1) as P1. destruct money as [|m money]; [done|].
  revert E. apply tbind_keeps; [by eauto|]. by intros ???? ? [= <- _].
Qed.
Lemma store_keeps d keys balances d' x : P d -> PyramidTx.store lockedKeys d keys balances = Ok (d', x) -> P d'.
Proof.
  revert d balances d' x. induction keys as [|k keys IH]; intros d balances d' x Hd; cbn; [by intros [= <- _]|].
  destruct (PyramidTx.locked _ k); [by intros [= <- _]|]. destruct balances as [|b balances]; [done|].
  intros ([d1 err] & E1 & E)%gbind_Ok. pose proof (Hset _ _ _ _ _ Hd E1).
  destruct err; [by injection E as <- _|by eapply IH].
Qed.

Lemma execute_keeps `{!Codec pbTransferTx} unmarshalError d tx d' x :
  P d -> PyramidTx.execute lockedKeys unmarshalError tx d = Ok (d', x) -> P d'.
Proof.
  intros Hd. unfold PyramidTx.execute, PyramidTx.doTransfer. destruct (length tx <? 4)%nat; [by intros [= <- _]|].
  destruct (BytesToUint32 _) as [ty| |]; [|done..]. cbn [gbind].
  destruct (ty =? _); [|by intros [= <- _]]. destruct (Unmarshal _) as [t|]; [|by intros [= <- _]].
  destruct (PyramidTx.ValidateTransferTx t); [by intros [= <- _]|].
  apply tbind_keeps; [intros ? ? E; exact (debit_keeps _ _ _ _ _ Hd E)|]. intros ???? P1.
  apply tbind_keeps; [intros ? ? E; exact (credit_keeps _ _ _ _ _ P1 E)|]. intros ???? P2.
  apply tbind_keeps; [intros ? ? E; exact (store_keeps _ _ _ _ _ P2 E)|]. intros ???? P3 E. by eapply store_keeps.
Qed.
End keeps.

(** ** Transactions as bytes *)

Section execute.
Context `{!Codec pbTransferTx} (unmarshalError : bytes -> string).

(** The transfer in the bytes of a transaction. *)
Definition decoded (tx : bytes) : option pbTransferTx :=
  if (length tx <? 4)%nat then None
  else match BytesToUint32 (take 4 tx) with
       | Ok ty => if ty =? PyramidTx.TxTransfer then Unmarshal (drop 4 tx) else None
       | _ => None
       end.

Lemma type_total tx : (4 <= length tx)%nat -> exists ty, BytesToUint32 (take 4 tx) = Ok ty.
Proof.
  intros Hn. unfold BytesToUint32, leUint. rewrite length_take.
  destruct (Nat.ltb_spec (4 `min` length tx) 4); [lia|eauto].
Qed.

Lemma unmarshal_decoded tx : exists r, unmarshalTransferTx unmarshalError tx = Ok r /\
  match decoded tx with Some t => r = inl t | None => exists e, r = inr e end.
Proof.
  unfold unmarshalTransferTx, decoded. destruct (Nat.ltb_spec (length tx) 4) as [|Hn]; [eauto|].
  destruct (type_total tx Hn) as [ty ->]. cbn [gbind]. destruct (ty =? _); cbn [negb]; [|eauto].
  unfold NewTransferTxFromBytes. destruct (Nat.ltb_spec (length tx) 4); [lia|]. cbn [gbind].
  destruct (Unmarshal _); eauto.
Qed.

Definition outcome (lockedKeys : gmap string Z) (bal : string -> option Z) (wr : string -> bool) (tx : bytes) :
    option (list (string * Z)) :=
  t ← decoded tx; transfer lockedKeys bal wr t.

Lemma execute_ends {D} `{MemDBLaws D} lockedKeys tx d : dok d ->
  endsWith d (PyramidTx.execute lockedKeys unmarshalError tx d) (outcome lockedKeys (reads d) (writable d) tx).
Proof.
  intros Hd. unfold PyramidTx.execute, outcome, decoded.
  destruct (Nat.ltb_spec (length tx) 4) as [|Hn]; [by apply endsWith_error; [apply dok_wok|]|].
  destruct (type_total tx Hn) as [ty ->]. cbn [gbind].
  destruct (ty =? _); [|by apply endsWith_error; [apply dok_wok|]].
  destruct (Unmarshal _) as [t|]; cbn; [by apply doTransfer_ends|by apply endsWith_error; [apply dok_wok|]].
Qed.

(** The keys that are assigned are the keys of the transfer; none is locked and
    all can be written. *)
Lemma outcome_keys lockedKeys bal wr tx l : outcome lockedKeys bal wr tx = Some l ->
  exists t, decoded tx = Some t /\ l.*1 = From t ++ To t /\
    Forall (fun k => lockedKeys !! k = None /\ wr k = true) l.*1 /\ Forall (fun e => in_u 32 e.2) l.
Proof.
  unfold outcome. destruct (decoded tx) as [t|]; cbn; [|done]. unfold transfer.
  destruct (PyramidTx.ValidateTransferTx t) eqn:Ev; [done|]. destruct (Validate_lengths t Ev) as [L1 L2].
  destruct (debits _ _ _ _) as [l1|] eqn:E1; cbn; [|done]. destruct (credits _ _ _ _) as [l2|] eqn:E2; cbn; [|done].
  destruct (forallb wr _) eqn:Ew; [|done]. intros [= <-]. exists t. split; [done|].
  destruct (debits_spec _ _ _ _ _ E1 L1) as (N1 & F1 & K1), (credits_spec _ _ _ _ _ E2 L2) as (N2 & F2 & K2).
  assert ((combine (From t) l1 ++ combine (To t) l2).*1 = From t ++ To t) as Ek.
  { rewrite fmap_app. f_equal; apply fst_zip; lia. }
  split; [exact Ek|]. rewrite Ek. split.
  - apply Forall_forall. intros k Hk. rewrite forallb_forall in Ew. split; [|by apply Ew, list_elem_of_In].
    assert (PyramidTx.locked lockedKeys k = false) as Hl.
    { rewrite Forall_forall in K1, K2. apply elem_of_app in Hk as [?|?]; auto. }
    unfold PyramidTx.locked in Hl. by apply bool_decide_eq_false, eq_None_not_Some in Hl.
  - apply Forall_app. split; apply Forall_forall; intros [k v] Hin%elem_of_zip_r;
      [rewrite Forall_forall in F1|rewrite Forall_forall in F2]; auto.
Qed.

Lemma outcome_ext lockedKeys f g wr wr' tx : (forall k, f k = g k) -> (forall k, wr k = wr' k) ->
  outcome lockedKeys f wr tx = outcome lockedKeys g wr' tx.
Proof.
  intros E Ew. unfold outcome. destruct (decoded tx) as [t|]; cbn; [|done]. unfold transfer.
  destruct (PyramidTx.ValidateTransferTx t); [done|].
  by rewrite (debits_same _ f g), (credits_same _ f g), (forallb_ext wr wr').
Qed.

(** The values after the assignments. *)
Definition update (b : string -> Z) (l : list (string * Z)) : string -> Z :=
  fun k => default (b k) (assign l ∅ !! k).

Lemma assign_lookup_None l (m : gmap string Z) k : k ∉ l.*1 -> assign l m !! k = m !! k.
Proof.
  revert m. induction l as [|[k' v] l IH]; intros m; cbn; [done|].
  intros [Hn Hl]%not_elem_of_cons. unfold assign in IH. rewrite IH by done. by apply lookup_insert_ne.
Qed.
Lemma update_other b l k : k ∉ l.*1 -> update b l k = b k.
Proof. intros Hn. unfold update. by rewrite assign_lookup_None, lookup_empty. Qed.

Definition applyTx (o : option (list (string * Z))) (b : string -> Z) : string -> Z :=
  match o with Some l => update b l | None => b end.

End execute.

(** ** Runs of transactions *)

Section app.
Context `{Hash, StdTime, DBLaws, !Codec pbTransferTx, !Codec pbBankData, !Codec pbBlock}.
Context (unmarshalError : bytes -> string).

(** A transaction that is executed and committed, or aborted. *)
Lemma executed {D} `{MemDBLaws D} app tx (d : D) : dok d -> mGetWriteSet d = ∅ ->
  exists d' err, execute unmarshalError app tx d = Ok (d', err) /\
    (err = None <-> is_Some (outcome (LockedKeys app) (reads d) (writable d) tx)) /\
    dok (mCommitWrite d' (bool_decide (err = None))) /\
    mGetWriteSet (mCommitWrite d' (bool_decide (err = None))) = ∅ /\
    forall k, base (mCommitWrite d' (bool_decide (err = None))) k =
      applyTx (outcome (LockedKeys app) (reads d) (writable d) tx) (base d) k.
Proof.
  intros Hd Hw. destruct (execute_ends unmarshalError (LockedKeys app) tx d Hd) as (d' & x & E & W & B & R).
  unfold execute. rewrite E. cbn [gbind]. exists d', (errOf x). split; [done|].
  destruct (Commit_law d' (bool_decide (errOf x = None)) W) as (C1 & C2 & C3).
  destruct (outcome _ _ _ _) as [l|].
  - destruct R as [-> R]. split; [by split|]. split; [done|]. split; [done|]. intros k. rewrite C3. cbn.
    unfold update. by rewrite R, Hw, B.
  - destruct R as [e ->]. split; [by split; [|intros []]|]. split; [done|]. split; [done|]. intros k.
    rewrite C3. cbn. apply B.
Qed.

(** *** Inner transactions *)

(** The values an inner block leaves, with the transactions that commit. *)
Fixpoint innerRun (locks : gmap string Z) (inr : string -> bool) (txs : Txs.t) (b : string -> Z) :
    (string -> Z) * list bool :=
  match txs with
  | [] => (b, [])
  | tx :: txs =>
      let o := outcome locks (fun k => if inr k then Some (b k) else None) inr tx in
      let '(b, oks) := innerRun locks inr txs (applyTx o b) in (b, bool_decide (is_Some o) :: oks)
  end.

Lemma applyTx_other locks bal wr tx b k : (is_Some (locks !! k) \/ wr k = false) ->
  applyTx (outcome locks bal wr tx) b k = b k.
Proof.
  intros Hk. destruct (outcome locks bal wr tx) as [l|] eqn:E; [|done]. cbn. apply update_other.
  destruct (outcome_keys locks bal wr tx l E) as (t & _ & _ & Hf & _). intros Hin.
  rewrite Forall_forall in Hf. destruct (Hf k Hin) as [F1 F2]. destruct Hk as [[v Hv]|Hk]; congruence.
Qed.

(** Locked keys and keys of other shards keep their values. *)
Lemma innerRun_other locks inr txs b k : (is_Some (locks !! k) \/ inr k = false) ->
  fst (innerRun locks inr txs b) k = b k.
Proof.
  intros Hk. revert b. induction txs as [|tx txs IH]; intros b; cbn; [done|].
  specialize (IH (applyTx (outcome locks (fun k => if inr k then Some (b k) else None) inr tx) b)).
  destruct (innerRun _ _ _ _) as [b' oks]. cbn in *. rewrite IH. by apply applyTx_other.
Qed.

Definition rangeInv (rt : RangeTree.t) (d0 : Database) (d : RangeDB.t) : Prop :=
  RangeDB.rangeTree d = Some rt /\ MemoryDB.db (RangeDB.db d) = d0.

Lemma MemoryDB_Get_db m key m' r : MemoryDB.Get m key = Ok (m', r) -> MemoryDB.db m' = MemoryDB.db m.
Proof.
  unfold MemoryDB.Get. destruct (MemoryDB.writeBuffer m !! key); [by intros [= <- _]|].
  destruct (MemoryDB.readBuffer m !! key); [by intros [= <- _]|].
  destruct (MemoryDB.memDB m !! key); [by intros [= <- _]|].
  destruct (PrefixStore.Get _ _) as [bz [err|]]; [by intros [= <- _]|].
  destruct (default [] bz); [by intros [= <- _]|]. intros (a & _ & [= <- _])%gbind_Ok. done.
Qed.

Lemma range_execute_keeps rt d0 app tx d d' err : rangeInv rt d0 d ->
  execute unmarshalError app tx d = Ok (d', err) -> rangeInv rt d0 d'.
Proof.
  intros Hi ([d1 x] & E & [= <- _])%gbind_Ok. revert E.
  apply (execute_keeps _ (rangeInv rt d0)); [| |done].
  - intros [m rt0] key d2 r [I1 I2]. cbn in *. subst rt0. unfold RangeDB.Get, RangeDB.search. cbn.
    destruct (RangeTree.Search rt key); [|by intros [= <- _]]. intros ([m2 r2] & Eg & [= <- _])%gbind_Ok.
    split; [done|]. cbn. by rewrite (MemoryDB_Get_db _ _ _ _ Eg).
  - intros [m rt0] key v d2 r [I1 I2]. cbn in *. subst rt0. unfold RangeDB.Set_, RangeDB.search. cbn.
    destruct (RangeTree.Search rt key); by intros [= <- _].
Qed.

Definition bit (r : Receipt.t) : bool := Receipt.IsOK r.

Lemma executeInner_spec app rt d0 txs d b : rangeInv rt d0 d -> dok d -> mGetWriteSet d = ∅ ->
  (forall k, base d k = b k) ->
  exists d' rs, executeInner unmarshalError app txs d = Ok (d', rs) /\ rangeInv rt d0 d' /\ dok d' /\
    (forall k, base d' k = fst (innerRun (LockedKeys app) (RangeTree.Search rt) txs b) k) /\
    map bit rs = snd (innerRun (LockedKeys app) (RangeTree.Search rt) txs b).
Proof.
  revert d b. induction txs as [|tx txs IH]; intros d b Hi Hd Hw Hb; cbn [executeInner innerRun].
  { exists d, []. by split_and!. }
  destruct (executed app tx d Hd Hw) as (d1 & err & E & Hr & C1 & C2 & C3). rewrite E. cbn [gbind].
  pose proof (range_execute_keeps rt d0 app tx d d1 err Hi E) as [I1 I2].
  assert (outcome (LockedKeys app) (reads d) (writable d) tx =
    outcome (LockedKeys app) (fun k => if RangeTree.Search rt k then Some (b k) else None) (RangeTree.Search rt) tx) as Eo.
  { apply outcome_ext; intros k; cbn; unfold searched; rewrite (proj1 Hi); [|done].
    destruct (RangeTree.Search rt k); [|done]. f_equal. rewrite <- Hb. cbn. unfold mvalue.
    change (MemoryDB.writeBuffer (RangeDB.db d)) with (mGetWriteSet d). by rewrite Hw, lookup_empty. }
  rewrite Eo in Hr, C3. set (o := outcome _ _ _ _) in *.
  destruct (IH (RangeDB.CommitWrite d1 (bool_decide (err = None))) (applyTx o b)) as (d' & rs & E' & I' & D' & B' & S');
    [by split|done|done| |].
  { intros k. etransitivity; [apply C3|]. unfold applyTx, update. by destruct o; rewrite ?Hb. }
  rewrite E'. cbn [gbind]. destruct (innerRun _ _ txs _) as [b' oks]. cbn [fst snd] in *.
  exists d'. eexists. split; [done|]. split; [done|]. split; [done|]. split; [done|]. cbn. f_equal; [|done].
  destruct err; cbn; symmetry; [apply bool_decide_eq_false|apply bool_decide_eq_true; by apply Hr].
  intros Ho. by apply Hr in Ho.
Qed.

Record sameConfig (app app' : Application) : Prop := {
  sc_ranges : KeyRangeTree app' = KeyRangeTree app;
  sc_all : AllShardRangeTree app' = AllShardRangeTree app;
  sc_isI : IsI app' = IsI app
}.

Lemma sameConfig_trans app1 app2 app3 : sameConfig app1 app2 -> sameConfig app2 app3 -> sameConfig app1 app3.
Proof. intros [] []. split; congruence. Qed.

Lemma storeBlock_spec app block bz : Block.ProtoBytes (fst (PyramidBlock.Hash_ block)) = Ok bz ->
  exists d, storeBlock app block = Ok (setBlockDB app d, fst (PyramidBlock.Hash_ block)) /\
    contents d = <[PrefixStore.toDataKey (snd (PyramidBlock.Hash_ block)) := bz]>
      (<[PrefixStore.toStateKey (PrefixStore.heightKey (Header.Height (Block.Header (fst (PyramidBlock.Hash_ block))))
            (Header.ChainID (Block.Header (fst (PyramidBlock.Hash_ block))))) :=
          snd (PyramidBlock.Hash_ block)]> (contents (blockDB app))).
Proof.
  intros Eb. unfold storeBlock. destruct (PyramidBlock.Hash_ block) as [b hs]. cbn [fst snd] in *.
  destruct (PrefixStore.SetBlockByHeight_contents (blockDB app) (Header.Height (Block.Header b))
    (Header.ChainID (Block.Header b)) (mkStored hs (Block.ProtoBytes b)) bz Eb) as (d & -> & Ec).
  exists d. by split.
Qed.

Lemma storeBlock_config app block app' block' : storeBlock app block = Ok (app', block') ->
  sameConfig app app' /\ db app' = db app /\ LockedKeys app' = LockedKeys app.
Proof.
  unfold storeBlock. destruct (PyramidBlock.Hash_ block) as [b hs].
  intros ([d err] & _ & [= <- _])%gbind_Ok. done.
Qed.

(** An inner block does to the balances what its transactions do, one after the
    other, on the keys of its shard that are not locked. *)
Lemma ExecutionInnerShard_run app block rt bz :
  isType block BLOCKTYPE_InnerShard = true -> KeyRangeTree app !! Header.ChainID (Block.Header block) = Some rt ->
  decodable (db app) -> Block.ProtoBytes (fst (PyramidBlock.Hash_ block)) = Ok bz ->
  let run := innerRun (LockedKeys app) (RangeTree.Search rt) (Bank.bodyTxs block) (balance (db app)) in
  exists app' rs, ExecutionInnerShard unmarshalError app block =
      Ok (app', fst (PyramidBlock.Hash_ block), (mkExec rs, (zlen (Bank.bodyTxs block), 0, 0))) /\
    sameConfig app app' /\ LockedKeys app' = LockedKeys app /\ decodable (db app') /\
    (forall k, balance (db app') k = fst run k) /\ map bit rs = snd run.
Proof.
  intros Ht Hrt Hd Hbz run. unfold ExecutionInnerShard. rewrite Ht, Hrt. cbn [negb].
  destruct (NewMemoryDB_idle _ Hd) as [[Im Iw] Ib].
  destruct (executeInner_spec app rt (db app) (Bank.bodyTxs block)
    (RangeDB.NewRangeDB (MemoryDB.NewMemoryDB (db app)) (Some rt)) (balance (db app)))
    as (d & rs & E & [I1 I2] & O & B & S); [done|by split|done|exact Ib|].
  rewrite E. cbn [gbind]. destruct (RangeDB_Write_spec d rt I1 (md_wok _ (proj1 O))) as (d' & -> & Hd' & Hb').
  cbn [gbind]. set (app1 := setDB app _).
  destruct (storeBlock_spec app1 block bz Hbz) as (bd & -> & _). cbn [gbind].
  eexists _, rs. split; [reflexivity|]. split; [done|]. split; [done|]. split; [done|]. split; [|exact S].
  intros k. change (balance (MemoryDB.db (RangeDB.db d')) k = fst run k). rewrite Hb'.
  destruct (RangeTree.Search rt k) eqn:Es; [exact (B k)|].
  unfold run. by rewrite innerRun_other, I2 by by right.
Qed.

(** *** Locking *)

(** The values of the committed transactions of a cross-shard block, each on the
    data sent with it. *)
Definition lockOutcome (locks : gmap string Z) (csd : option (gmap string Z * bool)) (tx : bytes) :
    option (list (string * Z)) :=
  match csd with
  | Some (csdb, true) => outcome locks (fun k => csdb !! k) (fun _ => true) tx
  | _ => None
  end.

Fixpoint lockRun (locks : gmap string Z) (datas : list bytes) (i : Z) (txs : Txs.t) (b : string -> Z) :
    go ((string -> Z) * list bool) :=
  match txs with
  | [] => Ok (b, [])
  | tx :: txs =>
      let! data := idx datas i in
      let! csd := NewCrossShardDataFromBytes data in
      let o := lockOutcome locks csd tx in
      let! '(b, oks) := lockRun locks datas (i + 1) txs (applyTx o b) in
      Ok (b, bool_decide (is_Some o) :: oks)
  end.

Lemma lockTx_spec app tx data m b csd : idle m -> (forall k, mbase m k = b k) ->
  NewCrossShardDataFromBytes data = Ok csd ->
  exists m1 r, lockTx unmarshalError app tx data m = Ok (m1, r) /\ idle m1 /\
    (forall k, mbase m1 k = applyTx (lockOutcome (LockedKeys app) csd tx) b k) /\
    bit r = bool_decide (is_Some (lockOutcome (LockedKeys app) csd tx)).
Proof.
  intros Hm Hb Ed. unfold lockTx. rewrite Ed. cbn [gbind].
  destruct csd as [[csdb []]|]; [|by eexists m, _..]. cbn [lockOutcome].
  assert (dok (CrossShardDB.NewCrossShardDB m csdb)) as Hd by apply Hm.
  destruct (executed app tx _ Hd (proj2 Hm)) as (d & err & E1 & Hr & C1 & C2 & C3). rewrite E1. cbn [gbind].
  assert (outcome (LockedKeys app) (reads (CrossShardDB.NewCrossShardDB m csdb))
    (writable (CrossShardDB.NewCrossShardDB m csdb)) tx =
    outcome (LockedKeys app) (fun k => csdb !! k) (fun _ => true) tx) as Eo.
  { apply outcome_ext; [|done]. intros k. cbn. unfold cvalue. cbn. by rewrite (proj2 Hm), lookup_empty. }
  rewrite Eo in Hr, C3.
  set (o := outcome _ _ _ _) in *. eexists _, _. split; [reflexivity|]. split; [by split|]. split.
  - intros k. etransitivity; [apply C3|]. cbn. unfold applyTx, update. by destruct o; rewrite ?Hb.
  - destruct err; cbn; symmetry; [apply bool_decide_eq_false|apply bool_decide_eq_true; by apply Hr].
    intros Ho. by apply Hr in Ho.
Qed.

Lemma lockTxs_spec app datas i txs m b b' oks : idle m -> (forall k, mbase m k = b k) ->
  lockRun (LockedKeys app) datas i txs b = Ok (b', oks) ->
  exists m' rs, lockTxs unmarshalError app datas i txs m = Ok (m', rs) /\ idle m' /\
    (forall k, mbase m' k = b' k) /\ map bit rs = oks.
Proof.
  revert i m b oks. induction txs as [|tx txs IH]; intros i m b oks Hm Hb; cbn [lockTxs lockRun].
  { intros [= <- <-]. by exists m, []. }
  destruct (idx datas i) as [data| |]; [|done..]. cbn [gbind].
  intros (csd & Ec & E)%gbind_Ok. apply gbind_Ok in E as ([b2 oks2] & E & [= -> <-]).
  destruct (lockTx_spec app tx data m b csd Hm Hb Ec) as (m1 & r & -> & I1 & B1 & R1). cbn [gbind].
  destruct (IH (i + 1) m1 _ oks2 I1 B1 E) as (m' & rs & -> & I' & B' & R').
  cbn [gbind]. exists m', (r :: rs). split; [done|]. split; [done|]. split; [done|]. cbn. by rewrite R1, R'.
Qed.

(** The keys of the transactions that are marked. *)
Definition keysOf (tx : bytes) : gset string := match decoded tx with Some t => txKeys t | None => ∅ end.
Fixpoint okKeys (txs : Txs.t) (oks : list bool) : gset string :=
  match txs, oks with
  | tx :: txs, ok :: oks => (if ok then keysOf tx else ∅) ∪ okKeys txs oks
  | _, _ => ∅
  end.
Fixpoint allKeys (txs : Txs.t) : gset string :=
  match txs with [] => ∅ | tx :: txs => keysOf tx ∪ allKeys txs end.

Lemma keysOf_outcome locks bal wr tx l k : outcome locks bal wr tx = Some l ->
  k ∈ keysOf tx <-> k ∈ l.*1.
Proof.
  intros (t & Et & El & _)%outcome_keys. unfold keysOf. rewrite Et, El. unfold txKeys. set_solver.
Qed.

Lemma okKeys_all txs oks : okKeys txs oks ⊆ allKeys txs.
Proof. revert oks. induction txs as [|tx txs IH]; intros [|[] oks]; cbn; set_solver. Qed.

Lemma bool_decide_None {A} : bool_decide (is_Some (@None A)) = false.
Proof. reflexivity. Qed.

(** The run: marked transactions decode, their keys are not locked, and no other
    key changes. *)
Lemma lockRun_spec locks datas i txs b b' oks : lockRun locks datas i txs b = Ok (b', oks) ->
  Forall2 (fun tx ok => ok = true -> is_Some (decoded tx)) txs oks /\
  (forall k, k ∈ okKeys txs oks -> locks !! k = None) /\ (forall k, k ∉ okKeys txs oks -> b' k = b k).
Proof.
  revert i b oks. induction txs as [|tx txs IH]; intros i b oks; cbn [lockRun].
  { intros [= <- <-]. split; [constructor|]. split; [|done]. cbn. set_solver. }
  intros (data & _ & E)%gbind_Ok. apply gbind_Ok in E as (csd & _ & E).
  apply gbind_Ok in E as ([b2 oks2] & E & [= -> <-]). destruct (IH _ _ _ E) as (A & B & C). cbn.
  assert (lockOutcome locks csd tx = None \/ exists bal wr, lockOutcome locks csd tx = outcome locks bal wr tx) as [Eo|(bal & wr & Eo)]
    by (destruct csd as [[? []]|]; cbn; eauto).
  { rewrite Eo in *. rewrite bool_decide_None, (left_id_L ∅ (∪)). by split_and!; [constructor|..]. }
  rewrite Eo in *. clear Eo. destruct (outcome locks bal wr tx) as [l|] eqn:Eo.
  - rewrite bool_decide_true by done. pose proof (fun k => keysOf_outcome _ _ _ _ _ k Eo) as Hk.
    destruct (outcome_keys _ _ _ _ _ Eo) as (t & Et & El & Hf & _). split_and!.
    + constructor; [by rewrite Et|done].
    + intros k [Hin%Hk|Hin]%elem_of_union; [|by apply B]. rewrite Forall_forall in Hf. by apply Hf.
    + intros k [N1 N2]%not_elem_of_union. rewrite C by done. apply update_other. by rewrite <- Hk.
  - rewrite bool_decide_None, (left_id_L ∅ (∪)). by split_and!; [constructor|..].
Qed.

Lemma okRWSet_spec txs rs rw : Forall2 (fun tx ok => ok = true -> is_Some (decoded tx)) txs (map bit rs) ->
  okRWSet unmarshalError txs rs rw = Ok (rw.1, rw.2 ∪ okKeys txs (map bit rs)).
Proof.
  revert rs rw. induction txs as [|tx txs IH]; intros [|r rs] rw Hf; try by inversion Hf.
  { cbn. by rewrite (right_id_L ∅ (∪)), <- surjective_pairing. }
  apply Forall2_cons in Hf as [Hs Hf]. cbn [okRWSet okKeys map]. change (bit r) with (Receipt.IsOK r) in *. destruct (Receipt.IsOK r) eqn:Er; cbn [negb].
  - destruct (unmarshal_decoded unmarshalError tx) as (x & -> & Hx). cbn [gbind]. unfold keysOf.
    destruct (decoded tx) as [t|] eqn:Et; [|by destruct (Hs eq_refl)].
    subst x. rewrite IH by done. unfold appendRWSet. cbn. by rewrite (assoc_L (∪)).
  - rewrite IH by done. by rewrite (left_id_L ∅ (∪)).
Qed.

Definition inRange (rt : RangeTree.t) (keys : gset string) (k : string) : bool :=
  bool_decide (k ∈ keys) && RangeTree.Search rt k.

Lemma lockKeys_spec rt keys m locks : idle m ->
  exists locks', lockKeys (Some rt) keys m locks = Ok locks' /\
    forall k, locks' !! k = match locks !! k with
      | Some v => Some v
      | None => if inRange rt (list_to_set keys) k then Some (mbase m k) else None
      end.
Proof.
  unfold inRange. revert m locks. induction keys as [|key keys IH]; intros m locks [Hm Hw].
  { exists locks. split; [done|]. intros k. cbn. by destruct (locks !! k). }
  cbn [lockKeys RangeDB.search deref gbind]. destruct (RangeTree.Search rt key) eqn:Es.
  - destruct (MemoryDB_Get_spec m key Hm) as (m' & -> & R1 & R2 & R3 & R4 & R5). cbn [gbind].
    destruct (IH m' (fst (setLock locks key (mvalue m key)))) as (locks' & -> & Hl); [by split; [|rewrite R2]|].
    exists locks'. split; [done|]. intros k. rewrite Hl, R4. unfold setLock, mvalue. rewrite Hw, lookup_empty. cbn.
    case_bool_decide as Hk; cbn [fst]; (destruct (decide (k = key)) as [->|Hne]; [|]).
    + by destruct Hk as [v ->].
    + destruct (locks !! k); [done|]. by rewrite (bool_decide_ext (k ∈ {[key]} ∪ list_to_set keys) (k ∈ list_to_set (C := gset string) keys)) by set_solver.
    + rewrite lookup_insert_eq, Es. apply eq_None_not_Some in Hk. rewrite Hk.
      by rewrite bool_decide_true by set_solver.
    + rewrite lookup_insert_ne by done. destruct (locks !! k); [done|].
      by rewrite (bool_decide_ext (k ∈ {[key]} ∪ list_to_set keys) (k ∈ list_to_set (C := gset string) keys)) by set_solver.
  - destruct (IH m locks) as (locks' & -> & Hl); [done|]. exists locks'. split; [done|]. intros k. rewrite Hl.
    destruct (locks !! k); [done|]. cbn. destruct (decide (k = key)) as [->|Hne]; [by rewrite Es, !andb_false_r|].
    by rewrite (bool_decide_ext (k ∈ {[key]} ∪ list_to_set keys) (k ∈ list_to_set (C := gset string) keys)) by set_solver.
Qed.

(** What is kept of the bank between operations. *)
Record wfApp (app : Application) : Prop := {
  wa_db : decodable (db app);
  wa_locks : typedMap (LockedKeys app)
}.

(** The block can be hashed and encoded. *)
Record storable (block : Block.t) (bz : bytes) : Prop := {
  st_bytes : Block.ProtoBytes (fst (PyramidBlock.Hash_ block)) = Ok bz;
  st_hash : zlen (snd (PyramidBlock.Hash_ block)) = HashSize
}.

Definition hashKey (block : Block.t) : bytes := snd (PyramidBlock.Hash_ block).
Definition heightOf (block : Block.t) : bytes :=
  PrefixStore.heightKey (Header.Height (Block.Header block)) (Header.ChainID (Block.Header block)).

Lemma heightOf_hashed block : heightOf (fst (PyramidBlock.Hash_ block)) = heightOf block.
Proof. unfold heightOf. destruct (PyramidBlock.Hash_block block) as (-> & _). done. Qed.

(** The state of the accepted block, then the block, are stored. *)
Lemma accepted_stored app block bz : storable block bz ->
  exists d, storeBlock (setBlockDB app (fst (PrefixStore.SetState (blockDB app) (hashKey block) (of_str "ok"))))
      (fst (PyramidBlock.Hash_ block)) = Ok (setBlockDB app d, fst (PyramidBlock.Hash_ block)) /\
    contents d = <[PrefixStore.toDataKey (hashKey block) := bz]>
      (<[PrefixStore.toStateKey (heightOf block) := hashKey block]>
        (<[PrefixStore.toStateKey (hashKey block) := of_str "ok"]> (contents (blockDB app)))).
Proof.
  intros [Eb Eh]. unfold PrefixStore.SetState.
  destruct (dbSet_spec (blockDB app) (PrefixStore.toStateKey (hashKey block)) (of_str "ok")) as (d1 & -> & E1); [done|].
  cbn [fst]. pose proof (PyramidBlock.Hash_repeats block Eh) as Hst.
  destruct (storeBlock_spec (setBlockDB app d1) (fst (PyramidBlock.Hash_ block)) bz) as (d & E & Ec); [by rewrite Hst|].
  exists d. rewrite Hst in E, Ec. split; [exact E|]. rewrite Ec. change (blockDB (setBlockDB app d1)) with d1.
  rewrite E1, <- heightOf_hashed. done.
Qed.

Lemma read_back d d0 block bz : contents d = <[PrefixStore.toDataKey (hashKey block) := bz]>
      (<[PrefixStore.toStateKey (heightOf block) := hashKey block]>
        (<[PrefixStore.toStateKey (hashKey block) := of_str "ok"]> d0)) ->
  storable block bz -> Header.typed (Block.Header (fst (PyramidBlock.Hash_ block))) ->
  hashKey block <> heightOf block ->
  forall app, blockDB app = d -> exists b, acceptedBlock app (hashKey block) = Ok (Some b) /\
    Bank.crossTxs b = Bank.crossTxs block.
Proof.
  intros Ec [Eb Eh] Ht Hne app <-. unfold acceptedBlock, PrefixStore.GetBlockByHash, PrefixStore.Get, PrefixStore.GetState.
  rewrite !dbGet_spec, Ec by done. cbn [fst]. rewrite lookup_insert_eq. change (default [] (Some bz)) with bz.
  rewrite (Block.FromBytes_ProtoBytes _ _ Ht Eb). cbn [gbind].
  rewrite lookup_insert_ne, lookup_insert_ne, lookup_insert_eq; [|by intros E%PrefixStore.toStateKey_inj|done].
  eexists. split; [reflexivity|]. unfold Bank.crossTxs. cbn.
  by destruct (PyramidBlock.Hash_block block) as (_ & _ & -> & _).
Qed.

(** Accepting a block locks the keys of its shard that committed transactions
    write, with their last values. *)
Lemma AcceptCrossShard_run app block chain rt bz b' oks :
  isType block BLOCKTYPE_CrossShard = true -> KeyRangeTree app !! chain = Some rt -> wfApp app -> storable block bz ->
  lockRun (LockedKeys app) (Bank.crossDatas block) 0 (Bank.crossTxs block) (balance (db app)) = Ok (b', oks) ->
  exists app' rs, AcceptCrossShard unmarshalError app block chain true =
      Ok (app', fst (PyramidBlock.Hash_ block), (mkExec rs, (1, 0, 0))) /\
    sameConfig app app' /\ db app' = db app /\ wfApp app' /\ map bit rs = oks /\
    (forall k, LockedKeys app' !! k =
       if inRange rt (okKeys (Bank.crossTxs block) oks) k then Some (b' k) else LockedKeys app !! k) /\
    contents (blockDB app') = <[PrefixStore.toDataKey (hashKey block) := bz]>
      (<[PrefixStore.toStateKey (heightOf block) := hashKey block]>
        (<[PrefixStore.toStateKey (hashKey block) := of_str "ok"]> (contents (blockDB app)))).
Proof.
  intros Ht Hrt [Hd Hl] Hs Hrun. unfold AcceptCrossShard. rewrite Ht, Hrt. cbn [negb].
  destruct (NewMemoryDB_idle _ Hd) as [Im Ib].
  destruct (lockTxs_spec _ _ _ _ _ _ _ _ Im Ib Hrun) as (m & rs & -> & Im' & Bm & <-). cbn [gbind].
  destruct (lockRun_spec _ _ _ _ _ _ _ Hrun) as (F & U & _). rewrite (okRWSet_spec _ _ _ F). cbn [gbind fst snd].
  destruct (lockKeys_spec rt (elements (∅ ∪ okKeys (Bank.crossTxs block) (map bit rs))) m (LockedKeys app) Im')
    as (locks & -> & El). cbn [gbind].
  destruct (accepted_stored (setLocks app locks) block bz Hs) as (d & E & Ec). unfold hashKey in E.
  destruct (PyramidBlock.Hash_ block) as [b hs]. cbn [fst snd] in *.
  destruct (PrefixStore.SetState _ _ _) as [d1 e1]. cbn [fst] in E. rewrite E. cbn [gbind].
  eexists _, rs. split; [reflexivity|]. split; [done|]. split; [done|].
  assert (forall k, locks !! k = if inRange rt (okKeys (Bank.crossTxs block) (map bit rs)) k then Some (b' k)
    else LockedKeys app !! k) as Hlk.
  { intros k. rewrite El, list_to_set_elements_L, (left_id_L ∅ (∪)). unfold inRange.
    destruct (LockedKeys app !! k) as [v|] eqn:Ek.
    - rewrite bool_decide_false; [done|]. intros Hin%U. congruence.
    - by rewrite Bm. }
  split; [|by split_and!]. split; [done|]. intros k v. change (locks !! k = Some v -> in_u 32 v). rewrite Hlk.
  destruct (inRange _ _ _); [|apply Hl]. intros [= <-]. rewrite <- Bm. apply mbase_range, Im'.
Qed.

(** A block that is not committed locks nothing. *)
Lemma AcceptCrossShard_refuses app block chain bz :
  isType block BLOCKTYPE_CrossShard = true -> storable block bz ->
  exists app', AcceptCrossShard unmarshalError app block chain false =
      Ok (app', fst (PyramidBlock.Hash_ block), (mkExec [], (1, 0, 0))) /\
    sameConfig app app' /\ db app' = db app /\ LockedKeys app' = LockedKeys app /\
    contents (blockDB app') = <[PrefixStore.toDataKey (hashKey block) := bz]>
      (<[PrefixStore.toStateKey (heightOf block) := hashKey block]>
        (<[PrefixStore.toStateKey (hashKey block) := of_str "ok"]> (contents (blockDB app)))).
Proof.
  intros Ht Hs. unfold AcceptCrossShard. rewrite Ht. cbn [negb gbind].
  destruct (accepted_stored app block bz Hs) as (d & E & Ec). unfold hashKey in E.
  destruct (PyramidBlock.Hash_ block) as [b hs]. cbn [fst snd] in *.
  destruct (PrefixStore.SetState _ _ _) as [d1 e1]. cbn [fst] in E. rewrite E. cbn [gbind].
  eexists. split; [reflexivity|]. by split_and!.
Qed.
End app.
