(* ===== verification/PyramidCommit.v ===== *)
(** * Two-phase commit on the bank of the comparison protocols

    The decision on accepted blocks ([AcceptCommitShard]), runs of the four
    operations of the application, and what they promise together: the values a
    block locks are written all at once when it is committed, and not at all
    when it is aborted, whatever other blocks do in between - as long as no
    other decision names one of its keys. The code does not establish that last
    condition; the end of the file shows the two ways in which it fails. *)

From S2P Require Import Prelude BitVector Convert Hash Wire Types PyramidTypes RangeTree.
From S2P Require Import Store MemDB Codecs BankTx Bank BankSpec PyramidBank PyramidBankSpec.
Import PyramidBank.
Local Open Scope Z_scope.

(** ** What a decision does *)

(** The balances and the locks. *)
Definition View : Type := (string -> Z) * gmap string Z.

Definition decide1 (rt : RangeTree.t) (commit : bool) (keys : gset string) (s : View) : View :=
  ((fun k => if commit && inRange rt keys k then default (s.1 k) (s.2 !! k) else s.1 k),
   filter (fun e => inRange rt keys e.1 = false) s.2).

Lemma decide1_locks rt commit keys s k :
  (decide1 rt commit keys s).2 !! k = if inRange rt keys k then None else s.2 !! k.
Proof.
  cbn. destruct (inRange rt keys k) eqn:E.
  - apply map_lookup_filter_None. right. intros v _. cbn. by rewrite E.
  - destruct (s.2 !! k) as [v|] eqn:Ek; [|by apply map_lookup_filter_None; left].
    by apply map_lookup_filter_Some.
Qed.

Section commit.
Context `{Hash, StdTime, DBLaws, !Codec pbTransferTx, !Codec pbBankData, !Codec pbBlock}.
Context (unmarshalError : bytes -> string).

Lemma decidedKeys_spec txs rw : decidedKeys unmarshalError txs rw = Ok (rw.1, rw.2 ∪ allKeys txs).
Proof.
  revert rw. induction txs as [|tx txs IH]; intros rw; cbn [decidedKeys allKeys].
  { by rewrite (right_id_L ∅ (∪)), <- surjective_pairing. }
  destruct (unmarshal_decoded unmarshalError tx) as (x & -> & Hx). cbn [gbind]. rewrite IH. unfold keysOf.
  destruct (decoded tx) as [t|]; [subst x; cbn|destruct Hx as [e ->]].
  - by rewrite (assoc_L (∪)).
  - by rewrite (left_id_L ∅ (∪)).
Qed.

(** The locks and the batch stand for the balances and the locks of a view. *)
Definition pending (bal0 : string -> Z) (s : gmap string Z * list BatchOp) (v : View) : Prop :=
  s.1 = v.2 /\ typedMap s.1 /\ exists entries : list (string * Z),
    s.2 = map MemoryDB.putOp entries /\ NoDup entries.*1 /\ Forall (fun e => in_u 32 e.2) entries /\
    (forall k, k ∈ entries.*1 -> s.1 !! k = None) /\
    forall k, v.1 k = default (bal0 k) ((list_to_map entries : gmap string Z) !! k).

Lemma pending_ext bal0 s v v' : pending bal0 s v -> (forall k, v'.1 k = v.1 k) -> v'.2 = v.2 -> pending bal0 s v'.
Proof.
  intros (E1 & T & entries & E2 & N & R & D & B) Eb El. split; [congruence|]. split; [done|].
  exists entries. split_and!; [done..|]. intros k. by rewrite Eb.
Qed.

Lemma pending_undo bal0 s v key : pending bal0 s v ->
  pending bal0 (undoLock s.1 key, s.2) (v.1, delete key v.2).
Proof.
  intros (E1 & T & entries & E2 & N & R & D & B). unfold undoLock. split; [cbn; by rewrite E1|].
  split; [by apply map_Forall_delete|]. exists entries. split_and!; [done..| |done].
  intros k Hk. cbn. destruct (decide (k = key)) as [->|Hne]; [apply lookup_delete_eq|].
  rewrite lookup_delete_ne by done. by apply D.
Qed.

Lemma pending_release bal0 s v key : pending bal0 s v ->
  pending bal0 (releaseLock s.1 key s.2)
    ((fun k => if bool_decide (k = key) then default (v.1 k) (v.2 !! k) else v.1 k), delete key v.2).
Proof.
  intros Hp. pose proof Hp as (E1 & T & entries & E2 & N & R & D & B). unfold releaseLock.
  destruct (s.1 !! key) as [value|] eqn:Ek.
  - split; [cbn; by rewrite E1|]. split; [by apply map_Forall_delete|].
    exists ((key, value) :: entries). cbn. rewrite E2. split; [done|].
    assert (key ∉ entries.*1) as Hn by (intros Hin%D; congruence). split; [by constructor|].
    split; [constructor; [by apply (T key)|done]|]. split.
    + intros k [->|Hk]%elem_of_cons; [apply lookup_delete_eq|].
      rewrite lookup_delete_ne by (intros ->; done). by apply D.
    + intros k. case_bool_decide as Hk.
      * subst k. by rewrite <- E1, Ek, lookup_insert_eq.
      * by rewrite lookup_insert_ne by done.
  - apply (pending_ext bal0 _ v); [by rewrite <- surjective_pairing| |].
    + intros k. cbn. case_bool_decide as Hk; [|done]. subst k. by rewrite <- E1, Ek.
    + cbn. apply delete_id. by rewrite <- E1.
Qed.

Lemma releaseKeys_spec rt commit keys bal0 s v : pending bal0 s v ->
  exists s', releaseKeys (Some rt) commit keys s = Ok s' /\
    pending bal0 s' (decide1 rt commit (list_to_set keys) v).
Proof.
  revert s v. induction keys as [|key keys IH]; intros s v Hp; cbn [releaseKeys].
  { exists s. split; [done|]. apply (pending_ext _ _ _ _ Hp).
    - intros k. cbn. by rewrite andb_false_r.
    - apply map_eq. intros k. rewrite decide1_locks. unfold inRange. by rewrite bool_decide_false by set_solver. }
  cbn [RangeDB.search deref gbind].
  assert (forall k, inRange rt (list_to_set (key :: keys)) k =
    (bool_decide (k = key) && RangeTree.Search rt key) || inRange rt (list_to_set keys) k) as Er.
  { intros k. unfold inRange. destruct (decide (k = key)) as [->|Hne].
    - rewrite !bool_decide_true by set_solver. cbn. by destruct (RangeTree.Search rt key), (bool_decide _).
    - rewrite (bool_decide_false (k = key)) by done. cbn. f_equal. apply bool_decide_ext. set_solver. }
  destruct (RangeTree.Search rt key) eqn:Es.
  - set (v1 := ((fun k => if commit && bool_decide (k = key) then default (v.1 k) (v.2 !! k) else v.1 k), delete key v.2)).
    assert (pending bal0 (if commit then releaseLock s.1 key s.2 else (undoLock s.1 key, s.2)) v1) as Hp1
      by (destruct commit; [by apply pending_release|by apply pending_undo]).
    destruct (IH _ v1 Hp1) as (s' & -> & Hs'). exists s'. split; [done|]. apply (pending_ext _ _ _ _ Hs').
    + intros k. unfold v1. cbn. rewrite Er, andb_true_r. destruct commit; cbn; [|done].
      case_bool_decide as Hk; cbn; [subst k; rewrite lookup_delete_eq; cbn; by destruct (inRange _ _ _)|].
      by rewrite lookup_delete_ne.
    + apply map_eq. intros k. rewrite !decide1_locks, Er, andb_true_r. unfold v1. cbn.
      case_bool_decide as Hk; cbn; [subst k; rewrite lookup_delete_eq; by destruct (inRange _ _ _)|].
      by rewrite lookup_delete_ne.
  - destruct (IH s v Hp) as (s' & -> & Hs'). exists s'. split; [done|].
    apply (pending_ext _ _ _ _ Hs').
    + intros k. cbn. rewrite Er, andb_false_r. done.
    + apply map_eq. intros k. by rewrite !decide1_locks, Er, andb_false_r.
Qed.

(** *** The blocks a decision names *)

Definition namedKeys (app : Application) (hs : bytes) : go (option (gset string)) :=
  let! block := acceptedBlock app hs in Ok (block ← block; Some (allKeys (Bank.crossTxs block))).

Fixpoint decideRun (app : Application) (rt : RangeTree.t) (commits : list bool) (i : Z) (hashes : list bytes)
    (v : View) : go View :=
  match hashes with
  | [] => Ok v
  | hs :: hashes =>
      let! keys := namedKeys app hs in
      match keys with
      | None => decideRun app rt commits (i + 1) hashes v
      | Some keys => let! commit := idx commits i in decideRun app rt commits (i + 1) hashes (decide1 rt commit keys v)
      end
  end.

Lemma decideBlocks_spec app rt commits i hashes bal0 s v v' : pending bal0 s v ->
  decideRun app rt commits i hashes v = Ok v' ->
  exists s' rs, decideBlocks unmarshalError app (Some rt) commits i hashes s = Ok (s', rs) /\
    pending bal0 s' v' /\ length rs = length hashes.
Proof.
  revert i s v. induction hashes as [|hs hashes IH]; intros i s v Hp; cbn [decideRun decideBlocks].
  { intros [= <-]. by exists s, []. }
  unfold namedKeys. intros (keys & (block & -> & [= <-])%gbind_Ok & E)%gbind_Ok. cbn [gbind].
  destruct block as [block|]; cbn [mbind option_bind] in E.
  - apply gbind_Ok in E as (commit & Ec & E). rewrite decidedKeys_spec. cbn [gbind snd]. rewrite Ec. cbn [gbind].
    destruct (releaseKeys_spec rt commit (elements (∅ ∪ allKeys (Bank.crossTxs block))) bal0 s v Hp) as (s1 & -> & Hp1).
    rewrite list_to_set_elements_L, (left_id_L ∅ (∪)) in Hp1. cbn [gbind].
    destruct (IH _ _ _ Hp1 E) as (s' & rs & -> & Hp' & L). cbn [gbind]. eexists s', _.
    split; [done|]. split; [done|]. cbn. by rewrite L.
  - cbn [gbind]. destruct (IH _ _ _ Hp E) as (s' & rs & -> & Hp' & L). cbn [gbind]. eexists s', _.
    split; [done|]. split; [done|]. cbn. by rewrite L.
Qed.

Lemma AcceptCommitShard_run app rt hashes commits chain v' : wfApp app -> KeyRangeTree app !! chain = Some rt ->
  decideRun app rt commits 0 hashes (balance (db app), LockedKeys app) = Ok v' ->
  exists app' rs, AcceptCommitShard unmarshalError app hashes commits chain = Ok (app', (mkExec rs, (1, 0, 0))) /\
    sameConfig app app' /\ blockDB app' = blockDB app /\ wfApp app' /\ length rs = length hashes /\
    LockedKeys app' = v'.2 /\ (forall k, balance (db app') k = v'.1 k).
Proof.
  intros [Hd Hl] Hrt Hrun. unfold AcceptCommitShard. rewrite Hrt.
  destruct (decideBlocks_spec app rt commits 0 hashes (balance (db app)) (LockedKeys app, [])
    (balance (db app), LockedKeys app) v') as ([locks batch] & rs & -> & Hp & L); [|done|].
  { split; [done|]. split; [done|]. exists []. split_and!; [done|constructor|constructor|by intros k ?%elem_of_nil|done]. }
  cbn [gbind]. destruct Hp as (E1 & T & entries & E2 & N & R & D & B). cbn [fst snd] in *. subst locks batch.
  assert (rev entries ≡ₚ entries) as Hrev by (symmetry; apply Permutation_rev).
  destruct (writeBatch_spec (MemoryDB.NewMemoryDB (db app)) (rev entries)) as (d & E & Hd' & Hb); [done| |by rewrite Hrev|].
  { by rewrite Hrev. }
  unfold MemoryDB.writeBatch in E. rewrite map_rev in E. cbn [MemoryDB.db MemoryDB.NewMemoryDB] in E.
  destruct (PrefixStore.WriteBatch _ _) as [d1 [err|]]; [done|]. injection E as ->.
  eexists _, rs. split; [reflexivity|]. split; [done|]. split; [done|]. split; [by split|]. split; [done|].
  split; [done|]. intros k. change (balance d k = v'.1 k). rewrite Hb, B. cbn. do 2 f_equal.
  apply list_to_map_proper; [|done]. by rewrite Hrev.
Qed.

(** *** What has returned *)

Lemma decideBlocks_Ok app rt commits i hashes s s' v : decideBlocks unmarshalError app rt commits i hashes s = Ok s' ->
  forall rt', exists v', decideRun app rt' commits i hashes v = Ok v'.
Proof.
  intros E rt'. revert i s s' v E. induction hashes as [|hs hashes IH]; intros i s s' v; cbn [decideRun decideBlocks]; [eauto|].
  intros (block & Eb & E)%gbind_Ok. apply gbind_Ok in E as ([s1 r] & E1 & E).
  apply gbind_Ok in E as ([s2 rs] & E & _). unfold namedKeys. rewrite Eb. cbn [gbind].
  destruct block as [block|]; cbn [mbind option_bind]; [|by eapply IH].
  apply gbind_Ok in E1 as ([a b] & _ & E1). apply gbind_Ok in E1 as (commit & -> & _). by eapply IH.
Qed.

Lemma lockTxs_Ok app locks datas i txs m b x : lockTxs unmarshalError app datas i txs m = Ok x ->
  exists r, lockRun locks datas i txs b = Ok r.
Proof.
  revert i m b x. induction txs as [|tx txs IH]; intros i m b x; cbn [lockTxs lockRun]; [eauto|].
  intros (data & -> & E)%gbind_Ok. apply gbind_Ok in E as ([m1 r] & (csd & Ec & _)%gbind_Ok & E).
  apply gbind_Ok in E as ([m2 rs] & E & _). cbn [gbind]. rewrite Ec. cbn [gbind].
  destruct (IH (i + 1) m1 (applyTx (lockOutcome locks csd tx) b) _ E) as ([b2 oks] & ->). by eexists.
Qed.

Lemma storeBlock_Ok app block x : storeBlock app block = Ok x ->
  exists bz, Block.ProtoBytes (fst (PyramidBlock.Hash_ block)) = Ok bz.
Proof.
  unfold storeBlock. destruct (PyramidBlock.Hash_ block) as [b hs]. cbn [fst].
  unfold PrefixStore.SetBlockByHeight, PrefixStore.SetBlockByHash, PrefixStore.SetState.
  destruct (dbSet_spec (blockDB app) (PrefixStore.toStateKey (PrefixStore.heightKey (Header.Height (Block.Header b))
    (Header.ChainID (Block.Header b)))) hs) as (d & E & _); [done|].
  cbn [storedHash]. rewrite E. intros ([d' err] & (bz & Eb & _)%gbind_Ok & _)%gbind_Ok. by exists bz.
Qed.
End commit.
