(* ===== verification/PyramidRuns.v ===== *)
(** * Runs of the bank of the comparison protocols

    The application is called one operation at a time: an inner block, the
    acceptance of a cross-shard block, a decision. What a run keeps, and the
    atomicity of a committed block over a run. *)

From S2P Require Import Prelude BitVector Convert Hash Wire Types PyramidTypes RangeTree.
From S2P Require Import Store MemDB Codecs BankTx Bank BankSpec PyramidBank PyramidBankSpec PyramidCommit.
Import PyramidBank.
Local Open Scope Z_scope.

Inductive Op :=
  | Inner (block : Block.t)
  | Accept (block : Block.t) (chain : string) (ifcommit : bool)
  | Decide (hashes : list bytes) (commits : list bool) (chain : string).

Definition chainOf (op : Op) : string :=
  match op with
  | Inner block => Header.ChainID (Block.Header block)
  | Accept _ chain _ | Decide _ _ chain => chain
  end.

Section runs.
Context `{Hash, StdTime, DBLaws, !Codec pbTransferTx, !Codec pbBankData, !Codec pbBlock}.
Context (unmarshalError : bytes -> string).

Definition perform (app : Application) (op : Op) : go Application :=
  match op with
  | Inner block => let! r := ExecutionInnerShard unmarshalError app block in Ok r.1.1
  | Accept block chain ifcommit => let! r := AcceptCrossShard unmarshalError app block chain ifcommit in Ok r.1.1
  | Decide hashes commits chain => let! r := AcceptCommitShard unmarshalError app hashes commits chain in Ok r.1
  end.

(** The node knows the key range of the chain. *)
Definition ranged (app : Application) (op : Op) : Prop := is_Some (KeyRangeTree app !! chainOf op).

(** *** The block store

    A stored block can be read until a block with its hash is stored, or one
    whose height reads as that hash. *)
Definition keepsBlock (h : bytes) (d d' : Database) : Prop :=
  contents d' !! PrefixStore.toDataKey h = contents d !! PrefixStore.toDataKey h /\
  contents d' !! PrefixStore.toStateKey h = contents d !! PrefixStore.toStateKey h.

Lemma keepsBlock_refl h d : keepsBlock h d d.
Proof. by split. Qed.
Lemma keepsBlock_trans h d1 d2 d3 : keepsBlock h d1 d2 -> keepsBlock h d2 d3 -> keepsBlock h d1 d3.
Proof. intros [] []. split; congruence. Qed.

Lemma acceptedBlock_kept h app app' : keepsBlock h (blockDB app) (blockDB app') ->
  acceptedBlock app' h = acceptedBlock app h.
Proof.
  intros [E1 E2]. unfold acceptedBlock, PrefixStore.GetBlockByHash, PrefixStore.Get, PrefixStore.GetState.
  rewrite !dbGet_spec by done. by rewrite E1, E2.
Qed.

Record apart (h : bytes) (block : Block.t) : Prop := {
  ap_length : zlen (hashKey block) = HashSize;
  ap_hash : hashKey block <> h;
  ap_height : heightOf block <> h
}.

Lemma storeBlock_keeps h app block app' block' : storeBlock app block = Ok (app', block') -> apart h block ->
  keepsBlock h (blockDB app) (blockDB app').
Proof.
  intros E [_ A1 A2]. destruct (storeBlock_Ok _ _ _ E) as (bz & Eb).
  destruct (storeBlock_spec app block bz Eb) as (d & E' & Ec). rewrite E in E'. injection E' as -> _.
  change (blockDB (setBlockDB app d)) with d. unfold hashKey in A1. rewrite <- heightOf_hashed in A2.
  split; rewrite Ec.
  - rewrite lookup_insert_ne by (by intros ?%PrefixStore.toDataKey_inj). by rewrite lookup_insert_ne.
  - rewrite lookup_insert_ne by done. by rewrite lookup_insert_ne by (by intros ?%PrefixStore.toStateKey_inj).
Qed.

Lemma accepted_keeps h app block app' block' : apart h block ->
  storeBlock (setBlockDB app (fst (PrefixStore.SetState (blockDB app) (hashKey block) (of_str "ok"))))
    (fst (PyramidBlock.Hash_ block)) = Ok (app', block') ->
  keepsBlock h (blockDB app) (blockDB app').
Proof.
  intros [L A1 A2] E.
  destruct (storeBlock_Ok _ _ _ E) as (bz & Eb). rewrite PyramidBlock.Hash_repeats in Eb by done.
  destruct (accepted_stored app block bz) as (d & E' & Ec); [by split|]. rewrite E in E'. injection E' as -> _.
  change (blockDB (setBlockDB app d)) with d. split; rewrite Ec.
  - rewrite lookup_insert_ne by (by intros ?%PrefixStore.toDataKey_inj). by rewrite !lookup_insert_ne.
  - rewrite lookup_insert_ne by done. by rewrite !lookup_insert_ne by (by intros ?%PrefixStore.toStateKey_inj).
Qed.

(** *** One operation *)

Lemma perform_Inner app block app' : wfApp app -> ranged app (Inner block) -> perform app (Inner block) = Ok app' ->
  sameConfig app app' /\ wfApp app' /\ LockedKeys app' = LockedKeys app /\
  (forall k, is_Some (LockedKeys app !! k) -> balance (db app') k = balance (db app) k) /\
  forall h, apart h block -> keepsBlock h (blockDB app) (blockDB app').
Proof.
  intros [Wd Wl] [rt Hrt] ([[a b] r] & E & [= <-])%gbind_Ok. cbn [fst].
  assert (isType block BLOCKTYPE_InnerShard = true) as Ht.
  { unfold ExecutionInnerShard in E. by destruct (isType block BLOCKTYPE_InnerShard). }
  assert (exists d bz, storeBlock (setDB app d) block = Ok (a, b) /\
    Block.ProtoBytes (fst (PyramidBlock.Hash_ block)) = Ok bz) as (d & bz & Es & Eb).
  { unfold ExecutionInnerShard in E. rewrite Ht in E. cbn [negb] in E.
    apply gbind_Ok in E as ([r1 rs] & _ & E). apply gbind_Ok in E as ([r2 [e|]] & _ & E); [done|].
    apply gbind_Ok in E as ([app2 b2] & Es & [= -> -> _]). destruct (storeBlock_Ok _ _ _ Es) as [bz Eb]. eauto. }
  destruct (ExecutionInnerShard_run unmarshalError app block rt bz Ht Hrt Wd Eb)
    as (app' & rs & E' & S & L & D & B & _).
  rewrite E in E'. injection E' as -> -> ->. split; [done|]. split; [split; [done|by rewrite L]|]. split; [done|].
  split; [intros k Hk; by rewrite B, innerRun_other by by left|]. intros h Ha.
  exact (storeBlock_keeps h _ _ _ _ Es Ha).
Qed.

Lemma perform_Accept app block chain ifcommit app' : wfApp app -> ranged app (Accept block chain ifcommit) ->
  perform app (Accept block chain ifcommit) = Ok app' ->
  sameConfig app app' /\ db app' = db app /\ wfApp app' /\
  (forall k v, LockedKeys app !! k = Some v -> LockedKeys app' !! k = Some v) /\
  forall h, apart h block -> keepsBlock h (blockDB app) (blockDB app').
Proof.
  intros W [rt Hrt] ([[a b] r] & E & [= <-])%gbind_Ok. cbn [fst].
  unfold AcceptCrossShard in E. destruct (isType block BLOCKTYPE_CrossShard) eqn:Ht; [|done]. cbn [negb] in E.
  apply gbind_Ok in E as ([app1 receipts] & E1 & E).
  assert (sameConfig app app1 /\ db app1 = db app /\ wfApp app1 /\ blockDB app1 = blockDB app /\
    forall k v, LockedKeys app !! k = Some v -> LockedKeys app1 !! k = Some v) as (S1 & D1 & W1 & B1 & L1).
  { destruct ifcommit; [|by injection E1 as <- <-].
    destruct W as [Wd Wl]. destruct (NewMemoryDB_idle _ Wd) as [Im Ib].
    apply gbind_Ok in E1 as ([m rs] & E2 & E1).
    destruct (lockTxs_Ok unmarshalError app (LockedKeys app) _ _ _ _ (balance (db app)) _ E2) as [[b' oks] Hrun].
    destruct (lockTxs_spec unmarshalError app _ _ _ _ _ _ _ Im Ib Hrun) as (m' & rs' & E2' & Im' & Bm & _).
    rewrite E2 in E2'. injection E2' as <- <-. apply gbind_Ok in E1 as ([rs1 ws] & _ & E1).
    change (chainOf (Accept block chain true)) with chain in Hrt. rewrite Hrt in E1.
    destruct (lockKeys_spec rt (elements ws) m (LockedKeys app) Im') as (locks & E3 & El).
    rewrite E3 in E1. injection E1 as <- <-. split_and!; try done.
    - split; [done|]. intros k v. change (locks !! k = Some v -> in_u 32 v). rewrite El.
      destruct (LockedKeys app !! k) as [v'|] eqn:Ek; [intros [= <-]; exact (Wl _ _ Ek)|].
      destruct (inRange _ _ _); [|done]. intros [= <-]. apply mbase_range, Im'.
    - intros k v Hk. change (locks !! k = Some v). by rewrite El, Hk. }
  destruct (PyramidBlock.Hash_ block) as [b0 hs] eqn:Eh.
  destruct (PrefixStore.SetState _ _ _) as [d1 e1] eqn:Ed. apply gbind_Ok in E as ([app2 b2] & E & [= <- <- <-]).
  pose proof (storeBlock_config _ _ _ _ E) as (S2 & D2 & L2).
  split; [split; [rewrite (sc_ranges _ _ S2)|rewrite (sc_all _ _ S2)|rewrite (sc_isI _ _ S2)]; apply S1|].
  split; [by rewrite D2|].
  split; [split; [rewrite D2; apply W1|rewrite L2; apply W1]|].
  split; [intros k v Hk; rewrite L2; by apply L1|]. intros h Ha. rewrite <- B1.
  eapply (accepted_keeps h app1 block _ _ Ha). unfold hashKey. rewrite Eh. cbn [fst snd]. rewrite Ed. exact E.
Qed.

Lemma perform_Decide app hashes commits chain app' : wfApp app -> ranged app (Decide hashes commits chain) ->
  perform app (Decide hashes commits chain) = Ok app' ->
  exists rt v, KeyRangeTree app !! chain = Some rt /\
    decideRun app rt commits 0 hashes (balance (db app), LockedKeys app) = Ok v /\
    sameConfig app app' /\ blockDB app' = blockDB app /\ wfApp app' /\
    LockedKeys app' = v.2 /\ forall k, balance (db app') k = v.1 k.
Proof.
  intros W [rt Hrt] ([a r] & E & [= <-])%gbind_Ok. cbn [fst].
  change (chainOf (Decide hashes commits chain)) with chain in Hrt.
  pose proof E as E'. unfold AcceptCommitShard in E'. apply gbind_Ok in E' as ([[l bt] rs] & Ed & _).
  destruct (decideBlocks_Ok unmarshalError _ _ _ _ _ _ _ (balance (db app), LockedKeys app) Ed rt) as [v Hv].
  exists rt, v. split; [done|]. split; [done|].
  destruct (AcceptCommitShard_run unmarshalError app rt hashes commits chain v W Hrt Hv)
    as (app' & rs' & E' & S & B & W' & _ & L & Bal).
  rewrite E in E'. injection E' as -> ->. by split_and!.
Qed.

(** *** Types *)

(** C23: whatever operations the application performs, the balances it stores can
    be decoded and the locked values are 32-bit: no later read panics. *)
Theorem run_typed app ops app' : wfApp app -> (forall op, op ∈ ops -> ranged app op) ->
  go_foldl perform app ops = Ok app' -> wfApp app' /\ sameConfig app app'.
Proof.
  revert app. induction ops as [|op ops IH]; intros app W Hr; cbn [go_foldl]; [by intros [= <-]|].
  intros (app1 & E1 & E)%gbind_Ok.
  assert (wfApp app1 /\ sameConfig app app1) as [W1 S1].
  { assert (ranged app op) as Hop by (apply Hr; constructor). destruct op as [block|block chain ifcommit|hashes commits chain].
    - by destruct (perform_Inner app block app1 W Hop E1) as (? & ? & _).
    - by destruct (perform_Accept app block chain ifcommit app1 W Hop E1) as (? & _ & ? & _).
    - by destruct (perform_Decide app hashes commits chain app1 W Hop E1) as (? & ? & _ & _ & ? & _ & ? & _). }
  destruct (IH app1 W1) as [W' S']; [|done|split; [done|by eapply sameConfig_trans]].
  intros op' Hin. unfold ranged. rewrite (sc_ranges _ _ S1). apply Hr. by constructor.
Qed.

(** *** Runs that leave a block alone *)

Section during.
Context (h : bytes) (K : string -> Prop).

Definition avoids (app : Application) (op : Op) : Prop :=
  ranged app op /\
  match op with
  | Inner block | Accept block _ _ => apart h block
  | Decide hashes _ _ => forall hs b k, hs ∈ hashes -> acceptedBlock app hs = Ok (Some b) -> K k ->
      k ∉ allKeys (Bank.crossTxs b)
  end.

Inductive during : Application -> list Op -> Application -> Prop :=
  | during_nil app : during app [] app
  | during_cons app op app1 ops app2 : avoids app op -> perform app op = Ok app1 -> during app1 ops app2 ->
      during app (op :: ops) app2.

Record kept (app app' : Application) : Prop := {
  kp_config : sameConfig app app';
  kp_wf : wfApp app';
  kp_locks : forall k, K k -> LockedKeys app' !! k = LockedKeys app !! k;
  kp_balance : forall k, K k -> balance (db app') k = balance (db app) k;
  kp_block : keepsBlock h (blockDB app) (blockDB app')
}.

Lemma decideRun_keeps app rt commits i hashes v v' k : K k ->
  (forall hs b, hs ∈ hashes -> acceptedBlock app hs = Ok (Some b) -> k ∉ allKeys (Bank.crossTxs b)) ->
  decideRun app rt commits i hashes v = Ok v' -> v'.1 k = v.1 k /\ v'.2 !! k = v.2 !! k.
Proof.
  intros Hk. revert i v. induction hashes as [|hs hashes IH]; intros i v Hn; cbn [decideRun]; [by intros [= <-]|].
  unfold namedKeys. intros (keys & (block & Eb & [= <-])%gbind_Ok & E)%gbind_Ok.
  assert (forall hs b, hs ∈ hashes -> acceptedBlock app hs = Ok (Some b) -> k ∉ allKeys (Bank.crossTxs b)) as Hn'
    by (intros ???; apply Hn; by constructor).
  destruct block as [block|]; cbn [mbind option_bind] in E; [|exact (IH _ _ Hn' E)].
  apply gbind_Ok in E as (commit & _ & E). destruct (IH _ _ Hn' E) as [-> ->].
  assert (inRange rt (allKeys (Bank.crossTxs block)) k = false) as Hr.
  { unfold inRange. by rewrite bool_decide_false by (apply (Hn hs); [constructor|done]). }
  rewrite decide1_locks, Hr. split; [|done]. cbn. by rewrite Hr, andb_false_r.
Qed.

Lemma perform_keeps app op app' : wfApp app -> (forall k, K k -> is_Some (LockedKeys app !! k)) ->
  avoids app op -> perform app op = Ok app' -> kept app app'.
Proof.
  intros W Hl [Hr Ha] E. destruct op as [block|block chain ifcommit|hashes commits chain].
  - destruct (perform_Inner app block app' W Hr E) as (S & W' & L & B & P).
    split; [done|done|by intros; rewrite L|by auto|by apply P].
  - destruct (perform_Accept app block chain ifcommit app' W Hr E) as (S & D & W' & L & P).
    split; [done|done| |by intros; rewrite D|by apply P].
    intros k Hk. destruct (Hl k Hk) as [v Hv]. by rewrite Hv, (L k v).
  - destruct (perform_Decide app hashes commits chain app' W Hr E) as (rt & v & _ & Hv & S & D & W' & L & B).
    assert (forall k, K k -> v.1 k = balance (db app) k /\ v.2 !! k = LockedKeys app !! k) as Hk
      by (intros k Hk; exact (decideRun_keeps _ _ _ _ _ _ _ k Hk (fun hs b Hin Eb => Ha hs b k Hin Eb Hk) Hv)).
    split; [done|done|intros k Hin; rewrite L; by apply Hk|intros k Hin; rewrite B; by apply Hk|].
    rewrite D. apply keepsBlock_refl.
Qed.

Lemma kept_trans app1 app2 app3 : kept app1 app2 -> kept app2 app3 -> kept app1 app3.
Proof.
  intros [] []. split; [by eapply sameConfig_trans|done| | |by eapply keepsBlock_trans].
  - intros k Hk. rewrite kp_locks1 by done. by apply kp_locks0.
  - intros k Hk. rewrite kp_balance1 by done. by apply kp_balance0.
Qed.

Lemma during_keeps app ops app' : wfApp app -> (forall k, K k -> is_Some (LockedKeys app !! k)) ->
  during app ops app' -> kept app app'.
Proof.
  intros W Hl Hd. induction Hd as [app|app op app1 ops app2 Ha E _ IH].
  { by split. }
  pose proof (perform_keeps app op app1 W Hl Ha E) as Hk. apply (kept_trans _ app1); [done|]. apply IH; [apply Hk|].
  intros k Hin. rewrite (kp_locks _ _ Hk) by done. by apply Hl.
Qed.
End during.

(** *** Atomicity *)

(** C5: a cross-shard block that was accepted takes effect at its decision: after
    any run of other blocks and other decisions that name none of its keys, the
    keys it wrote still have their old balances; then a commit writes all the
    values its transactions computed and an abort none of them, both unlock the
    keys, and nothing else changes. *)
Theorem committed_atomically app block chain rt bz b' oks app1 ops app2 commit :
  wfApp app -> KeyRangeTree app !! chain = Some rt -> storable block bz ->
  Header.typed (Block.Header (fst (PyramidBlock.Hash_ block))) -> hashKey block <> heightOf block ->
  lockRun (LockedKeys app) (Bank.crossDatas block) 0 (Bank.crossTxs block) (balance (db app)) = Ok (b', oks) ->
  perform app (Accept block chain true) = Ok app1 ->
  let K k := inRange rt (okKeys (Bank.crossTxs block) oks) k = true in
  during (hashKey block) K app1 ops app2 ->
  exists app3, perform app2 (Decide [hashKey block] [commit] chain) = Ok app3 /\
    (forall k, K k ->
      LockedKeys app1 !! k = Some (b' k) /\ balance (db app2) k = balance (db app) k /\
      LockedKeys app3 !! k = None /\ balance (db app3) k = if commit then b' k else balance (db app) k) /\
    (forall k, inRange rt (allKeys (Bank.crossTxs block)) k = false ->
      LockedKeys app3 !! k = LockedKeys app2 !! k /\ balance (db app3) k = balance (db app2) k).
Proof.
  intros W Hrt Hs Ht Hne Hrun E1 K Hd.
  assert (isType block BLOCKTYPE_CrossShard = true) as Hty.
  { apply gbind_Ok in E1 as (r & E1 & _). unfold AcceptCrossShard in E1.
    by destruct (isType block BLOCKTYPE_CrossShard). }
  destruct (AcceptCrossShard_run unmarshalError app block chain rt bz b' oks Hty Hrt W Hs Hrun)
    as (app1' & rs & E & S1 & D1 & W1 & _ & L1 & P1).
  unfold perform in E1. rewrite E in E1. injection E1 as <-. change (app1', _, _).1.1 with app1' in *.
  assert (forall k, K k -> LockedKeys app1' !! k = Some (b' k)) as Hl1.
  { intros k Hk. unfold K in Hk. by rewrite L1, Hk. }
  destruct (during_keeps _ K app1' ops app2 W1 (fun k Hk => mk_is_Some _ _ (Hl1 k Hk)) Hd) as [S2 W2 L2 B2 P2].
  destruct (read_back (blockDB app1') _ block bz P1 Hs Ht Hne app1' eq_refl) as (b & Eb & Ex).
  rewrite <- (acceptedBlock_kept _ _ _ P2) in Eb.
  assert (KeyRangeTree app2 !! chain = Some rt) as Hrt2 by (rewrite (sc_ranges _ _ S2), (sc_ranges _ _ S1); done).
  destruct (AcceptCommitShard_run unmarshalError app2 rt [hashKey block] [commit] chain
    (decide1 rt commit (allKeys (Bank.crossTxs block)) (balance (db app2), LockedKeys app2)) W2 Hrt2)
    as (app3 & rs3 & E3 & _ & _ & _ & _ & L3 & B3).
  { cbn [decideRun]. unfold namedKeys. rewrite Eb. cbn. by rewrite Ex. }
  exists app3. unfold perform. rewrite E3. split; [done|]. split.
  - intros k Hk. assert (inRange rt (allKeys (Bank.crossTxs block)) k = true) as Hall.
    { unfold K, inRange in *. apply andb_true_iff in Hk as [Hk%bool_decide_eq_true ->].
      rewrite bool_decide_true; [done|by eapply okKeys_all]. }
    split; [by apply Hl1|]. split; [rewrite B2 by done; by rewrite D1|].
    rewrite L3, B3, decide1_locks, Hall. split; [done|]. cbn. rewrite Hall, andb_true_r, L2, Hl1, B2, D1 by done.
    by destruct commit.
  - intros k Hk. rewrite L3, B3, decide1_locks, Hk. split; [done|]. cbn. by rewrite Hk, andb_false_r.
Qed.

(** *** Decisions and the locks of others *)

(** A decision takes every lock on a key the block names, whoever set it. *)
Lemma Decide_one app h b chain rt commit : wfApp app -> KeyRangeTree app !! chain = Some rt ->
  acceptedBlock app h = Ok (Some b) ->
  exists app', perform app (Decide [h] [commit] chain) = Ok app' /\ wfApp app' /\
    LockedKeys app' = (decide1 rt commit (allKeys (Bank.crossTxs b)) (balance (db app), LockedKeys app)).2 /\
    forall k, balance (db app') k =
      (decide1 rt commit (allKeys (Bank.crossTxs b)) (balance (db app), LockedKeys app)).1 k.
Proof.
  intros W Hrt Eb.
  destruct (AcceptCommitShard_run unmarshalError app rt [h] [commit] chain
    (decide1 rt commit (allKeys (Bank.crossTxs b)) (balance (db app), LockedKeys app)) W Hrt)
    as (app' & rs & E & _ & _ & W' & _ & L & B).
  { cbn [decideRun]. unfold namedKeys. by rewrite Eb. }
  exists app'. unfold perform. rewrite E. by split_and!.
Qed.

(** A shard that refuses a cross-shard block locks nothing for it, but the
    abort that follows unlocks all its keys, those that another pending block
    has locked included. *)
Theorem refused_abort_unlocks app block chain rt bz :
  wfApp app -> KeyRangeTree app !! chain = Some rt -> storable block bz ->
  isType block BLOCKTYPE_CrossShard = true ->
  Header.typed (Block.Header (fst (PyramidBlock.Hash_ block))) -> hashKey block <> heightOf block ->
  exists app1 app2, perform app (Accept block chain false) = Ok app1 /\
    LockedKeys app1 = LockedKeys app /\
    perform app1 (Decide [hashKey block] [false] chain) = Ok app2 /\
    (forall k, balance (db app2) k = balance (db app) k) /\
    forall k, LockedKeys app2 !! k =
      if inRange rt (allKeys (Bank.crossTxs block)) k then None else LockedKeys app !! k.
Proof.
  intros W Hrt Hs Hty Ht Hne.
  destruct (AcceptCrossShard_refuses unmarshalError app block chain bz Hty Hs) as (app1 & E1 & S1 & D1 & L1 & P1).
  destruct (read_back (blockDB app1) _ block bz P1 Hs Ht Hne app1 eq_refl) as (b & Eb & Ex).
  assert (wfApp app1) as W1 by (split; [rewrite D1|rewrite L1]; apply W).
  assert (KeyRangeTree app1 !! chain = Some rt) as Hrt1 by (by rewrite (sc_ranges _ _ S1)).
  destruct (Decide_one app1 _ b chain rt false W1 Hrt1 Eb) as (app2 & E2 & _ & L2 & B2).
  exists app1, app2. split; [unfold perform; by rewrite E1|]. split; [done|]. split; [done|]. split.
  - intros k. by rewrite B2, D1.
  - intros k. by rewrite L2, decide1_locks, Ex, L1.
Qed.

(** A decision acts on every key its block names, those of transactions that
    were not locked because they failed included: a lock that another block holds
    on such a key is released with it, and on a commit its value is written. *)
Theorem decision_takes_locks app h b chain rt commit k v :
  wfApp app -> KeyRangeTree app !! chain = Some rt -> acceptedBlock app h = Ok (Some b) ->
  inRange rt (allKeys (Bank.crossTxs b)) k = true -> LockedKeys app !! k = Some v ->
  exists app', perform app (Decide [h] [commit] chain) = Ok app' /\ LockedKeys app' !! k = None /\
    balance (db app') k = if commit then v else balance (db app) k.
Proof.
  intros W Hrt Eb Hk Hv. destruct (Decide_one app h b chain rt commit W Hrt Eb) as (app' & E & _ & L & B).
  exists app'. split; [done|]. rewrite L, decide1_locks, Hk. split; [done|]. rewrite B. cbn.
  rewrite Hk, Hv, andb_true_r. done.
Qed.

(** *** Inner blocks *)

(** C24: an inner block never panics and computes what its transactions do one
    after the other on the balances; the keys that are locked and the keys of
    other shards keep their balances, and no lock changes. *)
Theorem ExecutionInnerShard_isolates app block rt bz :
  isType block BLOCKTYPE_InnerShard = true -> KeyRangeTree app !! Header.ChainID (Block.Header block) = Some rt ->
  wfApp app -> Block.ProtoBytes (fst (PyramidBlock.Hash_ block)) = Ok bz ->
  let run := innerRun (LockedKeys app) (RangeTree.Search rt) (Bank.bodyTxs block) (balance (db app)) in
  exists app' rs, ExecutionInnerShard unmarshalError app block =
      Ok (app', fst (PyramidBlock.Hash_ block), (mkExec rs, (zlen (Bank.bodyTxs block), 0, 0))) /\
    map Receipt.IsOK rs = snd run /\ LockedKeys app' = LockedKeys app /\
    (forall k, balance (db app') k = fst run k) /\
    forall k, is_Some (LockedKeys app !! k) \/ RangeTree.Search rt k = false ->
      balance (db app') k = balance (db app) k.
Proof.
  intros Ht Hrt W Hbz run.
  destruct (ExecutionInnerShard_run unmarshalError app block rt bz Ht Hrt (wa_db _ W) Hbz)
    as (app' & rs & E & _ & L & _ & B & R).
  exists app', rs. split_and!; [done..|]. intros k Hk. rewrite B. by apply innerRun_other.
Qed.

(** *** The vote *)

Lemma blockRWSet_spec txs rw : exists r, blockRWSet unmarshalError txs rw = Ok r /\
  r = if bool_decide (Forall (fun tx => is_Some (decoded tx)) txs) then Some (rw.1, rw.2 ∪ allKeys txs) else None.
Proof.
  revert rw. induction txs as [|tx txs IH]; intros rw; cbn [blockRWSet allKeys].
  { eexists. split; [done|]. by rewrite bool_decide_true, (right_id_L ∅ (∪)), <- surjective_pairing by done. }
  destruct (unmarshal_decoded unmarshalError tx) as (x & -> & Hx). cbn [gbind]. unfold keysOf.
  destruct (decoded tx) as [t|] eqn:Et; [subst x|destruct Hx as [e ->]].
  - destruct (IH (appendRWSet t rw.1 rw.2)) as (r & -> & ->). eexists. split; [done|]. cbn.
    rewrite (assoc_L (∪)). erewrite bool_decide_ext; [done|]. rewrite Forall_cons, Et. naive_solver.
  - eexists. split; [done|]. rewrite bool_decide_false; [done|]. rewrite Forall_cons, Et. by intros [[? ?] _].
Qed.

(** C25: an I shard accepts a cross-shard block exactly when all its transactions
    decode and none of their keys is locked. The values the B shard sent are not
    looked at: a block built on stale balances is accepted all the same. *)
Theorem PreExecutionI_votes app block :
  isType block BLOCKTYPE_CrossShard = true -> IsI app = true -> Bank.bodyTxs block = [] ->
  exists r, PreExecutionI unmarshalError app block = Ok r /\
    (respIIsOK r = true <->
      Forall (fun tx => is_Some (decoded tx)) (Bank.crossTxs block) /\
      forall k, k ∈ allKeys (Bank.crossTxs block) -> LockedKeys app !! k = None) /\
    forall datas, PreExecutionI unmarshalError app (withDatas block datas) = Ok r.
Proof.
  intros Ht Hi Hb. unfold PreExecutionI. change (isType (withDatas block _) _) with (isType block BLOCKTYPE_CrossShard).
  change (Bank.crossTxs (withDatas block _)) with (Bank.crossTxs block).
  change (Bank.bodyTxs (withDatas block _)) with (Bank.bodyTxs block). rewrite Ht, Hi, Hb. cbn [negb].
  destruct (blockRWSet_spec (Bank.crossTxs block) (∅, ∅)) as (r & -> & ->). cbn [gbind fst snd].
  rewrite (left_id_L ∅ (∪)). case_bool_decide as Hf; [|by eexists; split; [done|]; split; [split; [done|by intros []]|]].
  rewrite elements_empty. cbn [forallb negb]. destruct (forallb _ _) eqn:Ek; cbn [negb checkDatas gbind].
  - eexists. split; [done|]. split; [|done]. split; [|done]. intros _. split; [done|]. intros k Hk.
    rewrite forallb_forall in Ek. unfold requireLock in Ek.
    assert (negb (bool_decide (is_Some (LockedKeys app !! k))) = true) as Hr by (by apply Ek, list_elem_of_In, elem_of_elements).
    by apply negb_true_iff, bool_decide_eq_false, eq_None_not_Some in Hr.
  - eexists. split; [done|]. split; [|done]. split; [done|]. intros [_ Hk]. exfalso.
    apply not_true_iff_false in Ek. apply Ek, forallb_forall. intros k Hin%list_elem_of_In%elem_of_elements.
    unfold requireLock. rewrite bool_decide_false; [done|]. by apply eq_None_not_Some, Hk.
Qed.
End runs.

(** ** Concrete runs *)

Module PyramidRunsDemo.
Import DemoHash Demo StoreDemo BankTxDemo DemoCodecs.

Definition noText (_ : bytes) : string := "proto: cannot parse".
Definition range : RangeTree.t :=
  {| RangeTree.start := "a"; RangeTree.end_ := "z"; RangeTree.root := Some (RangeTreeNode.Leaf "z") |}.
Definition shard : Application :=
  NewApplication (∅ : gmap bytes bytes) "I0" true (Some range) {["I0" := range]} (∅ : gmap bytes bytes).
Definition now : Time := mkTime 1700000000 0.
Definition pay (from to_ : string) (m : Z) : bytes :=
  Uint32ToBytes PyramidTx.TxTransfer ++ valueOf [] (MustProtoBytes (NewTransferTx [from] [m] [to_] [m] now)).
Definition read (l : list (string * Z)) (ok : bool) : bytes := valueOf [] (CrossShardDataBytes (list_to_map l) ok).
Definition blockOf (ty height : Z) (chain : string) (txs ctxs : Txs.t) (datas : list bytes) : Block.t :=
  Block.mk (Header.mk ty (of_str "previous") chain height now [] [] (of_str "state") [] []) (Body.mk txs)
    (CrossShardBody.mk ctxs datas) (Relation.mk [] [] []) [].

(** The second transaction of the first block overdraws: its keys are not locked. *)
Definition block1 : Block.t :=
  blockOf BLOCKTYPE_CrossShard 1 "B0" [] [pay "alice" "bob" 5; pay "carol" "dave" 2000000]
    [read [("alice", 1000000); ("bob", 1000000)] true; read [] false].
Definition block2 : Block.t :=
  blockOf BLOCKTYPE_CrossShard 2 "B0" [] [pay "carol" "erin" 7] [read [("carol", 1000000); ("erin", 1000000)] true].
(** The first transaction of the inner block meets a lock. *)
Definition inner : Block.t := blockOf BLOCKTYPE_InnerShard 1 "I0" [pay "alice" "frank" 1; pay "erin" "frank" 3] [] [].

Definition after (app : Application) (op : Op) : Application := valueOf app (perform noText app op).
Definition works (app : Application) (op : Op) : bool := isOk (perform noText app op).
Lemma after_Ok app op : works app op = true -> perform noText app op = Ok (after app op).
Proof. apply valueOf_Ok. Qed.

Lemma shard_wf : wfApp shard.
Proof. split; [apply BankDemo.empty_decodable|apply map_Forall_empty]. Qed.
Lemma storable_demo b : isOk (Block.ProtoBytes (fst (PyramidBlock.Hash_ b))) = true ->
  zlen (hashKey b) = HashSize -> storable b (valueOf [] (Block.ProtoBytes (fst (PyramidBlock.Hash_ b)))).
Proof. intros Hb Hl. split; [by apply valueOf_Ok|done]. Qed.
Lemma ne_demo (x y : bytes) : bool_decide (x = y) = false -> x <> y.
Proof. apply bool_decide_eq_false. Qed.

Definition bal0 : string -> Z := balance (db shard).
Definition lockRun1 := lockRun ∅ (Bank.crossDatas block1) 0 (Bank.crossTxs block1) bal0.
Definition locked1 : string -> Z := fst (valueOf (bal0, []) lockRun1).
Lemma lockRun1_Ok : lockRun1 = Ok (locked1, [true; false]).
Proof.
  assert (isOk lockRun1 = true) as E by (vm_compute; reflexivity). apply valueOf_Ok with (d := (bal0, [])) in E.
  rewrite E. unfold locked1. rewrite (surjective_pairing (valueOf _ _)) at 1. do 2 f_equal.
Qed.

Definition shard1 : Application := after shard (Accept block1 "I0" true).
Definition shard2 : Application := after shard1 (Inner inner).
Lemma block1_typed : Header.typed (Block.Header (fst (PyramidBlock.Hash_ block1))).
Proof. vm_compute. repeat split; congruence. Qed.
Lemma block1_stored : storable block1 (valueOf [] (Block.ProtoBytes (fst (PyramidBlock.Hash_ block1)))).
Proof. apply storable_demo; vm_compute; reflexivity. Qed.
Lemma block1_apart : hashKey block1 <> heightOf block1.
Proof. apply ne_demo. vm_compute. reflexivity. Qed.
Lemma inner_apart : apart (hashKey block1) inner.
Proof. split; [vm_compute; reflexivity|apply ne_demo; vm_compute; reflexivity..]. Qed.

Lemma inner_during K : during noText (hashKey block1) K shard1 [Inner inner] shard2.
Proof.
  apply (during_cons noText _ _ shard1 (Inner inner) shard2 [] shard2).
  - split; [exists range; vm_compute; reflexivity|exact inner_apart].
  - apply after_Ok. vm_compute. reflexivity.
  - constructor.
Qed.

Lemma committed_atomically_witness :
  exists shard3, perform noText shard2 (Decide [hashKey block1] [true] "I0") = Ok shard3 /\
    (forall k, inRange range (okKeys (Bank.crossTxs block1) [true; false]) k = true ->
      LockedKeys shard1 !! k = Some (locked1 k) /\ balance (db shard2) k = balance (db shard) k /\
      LockedKeys shard3 !! k = None /\ balance (db shard3) k = locked1 k) /\
    (forall k, inRange range (allKeys (Bank.crossTxs block1)) k = false ->
      LockedKeys shard3 !! k = LockedKeys shard2 !! k /\ balance (db shard3) k = balance (db shard2) k).
Proof.
  apply (committed_atomically noText shard block1 "I0" range _ locked1 [true; false] shard1 [Inner inner] shard2 true
           shard_wf (lookup_singleton_eq "I0" range) block1_stored block1_typed block1_apart lockRun1_Ok).
  - apply after_Ok. vm_compute. reflexivity.
  - apply inner_during.
Defined.

(** The values at the keys of the run. *)
Example run_values :
  let shard3 := after shard2 (Decide [hashKey block1] [true] "I0") in
  map (balance (db shard2)) ["alice"; "bob"; "carol"; "erin"; "frank"] = [1000000; 1000000; 1000000; 999997; 1000003] /\
  map (balance (db shard3)) ["alice"; "bob"; "carol"; "erin"; "frank"] = [999995; 1000005; 1000000; 999997; 1000003].
Proof. vm_compute. split; reflexivity. Qed.

Lemma run_typed_witness : wfApp shard2 /\ sameConfig shard shard2.
Proof.
  apply (run_typed noText shard [Accept block1 "I0" true; Inner inner] shard2 shard_wf).
  - intros op [->|[->|Hf]%elem_of_cons]%elem_of_cons; [| |by apply elem_of_nil in Hf];
      (exists range; vm_compute; reflexivity).
  - unfold shard2, shard1. cbn [go_foldl].
    rewrite (after_Ok shard (Accept block1 "I0" true)) by (vm_compute; reflexivity). cbn [gbind].
    rewrite (after_Ok _ (Inner inner)) by (vm_compute; reflexivity). reflexivity.
Defined.

Lemma shard1_wf : wfApp shard1.
Proof.
  refine (proj1 (proj2 (proj2 (perform_Accept noText shard block1 "I0" true shard1 shard_wf _ _)))).
  - exists range. reflexivity.
  - apply after_Ok. vm_compute. reflexivity.
Qed.

Lemma ExecutionInnerShard_isolates_witness :
  let run := innerRun (LockedKeys shard1) (RangeTree.Search range) (Bank.bodyTxs inner) (balance (db shard1)) in
  exists app' rs, ExecutionInnerShard noText shard1 inner =
      Ok (app', fst (PyramidBlock.Hash_ inner), (mkExec rs, (zlen (Bank.bodyTxs inner), 0, 0))) /\
    map Receipt.IsOK rs = snd run /\ LockedKeys app' = LockedKeys shard1 /\
    (forall k, balance (db app') k = fst run k) /\
    forall k, is_Some (LockedKeys shard1 !! k) \/ RangeTree.Search range k = false ->
      balance (db app') k = balance (db shard1) k.
Proof.
  apply (ExecutionInnerShard_isolates noText shard1 inner range (valueOf [] (Block.ProtoBytes (fst (PyramidBlock.Hash_ inner))))).
  - reflexivity.
  - vm_compute. reflexivity.
  - exact shard1_wf.
  - apply valueOf_Ok. vm_compute. reflexivity.
Defined.

(** A shard with the locks of [block1] refuses a block on the same keys. *)
Definition rival : Block.t := blockOf BLOCKTYPE_CrossShard 3 "B0" [] [pay "alice" "erin" 9] [].

Lemma refused_abort_unlocks_witness :
  exists app1 app2, perform noText shard1 (Accept rival "I0" false) = Ok app1 /\
    LockedKeys app1 = LockedKeys shard1 /\
    perform noText app1 (Decide [hashKey rival] [false] "I0") = Ok app2 /\
    (forall k, balance (db app2) k = balance (db shard1) k) /\
    forall k, LockedKeys app2 !! k =
      if inRange range (allKeys (Bank.crossTxs rival)) k then None else LockedKeys shard1 !! k.
Proof.
  apply (refused_abort_unlocks noText shard1 rival "I0" range (valueOf [] (Block.ProtoBytes (fst (PyramidBlock.Hash_ rival))))).
  - exact shard1_wf.
  - vm_compute. reflexivity.
  - apply storable_demo; vm_compute; reflexivity.
  - reflexivity.
  - vm_compute. repeat split; congruence.
  - apply ne_demo. vm_compute. reflexivity.
Defined.

(** After the first block, the second locks the keys of its failed transaction. *)
Definition both : Application := after shard1 (Accept block2 "I0" true).
Lemma both_wf : wfApp both.
Proof.
  refine (proj1 (proj2 (proj2 (perform_Accept noText shard1 block2 "I0" true both shard1_wf _ _)))).
  - exists range. vm_compute. reflexivity.
  - apply after_Ok. vm_compute. reflexivity.
Qed.
Definition accepted1 : Block.t := default block1 (valueOf None (acceptedBlock both (hashKey block1))).
Lemma accepted1_Ok : acceptedBlock both (hashKey block1) = Ok (Some accepted1).
Proof. vm_compute. reflexivity. Qed.

Lemma decision_takes_locks_witness :
  exists app', perform noText both (Decide [hashKey block1] [true] "I0") = Ok app' /\
    LockedKeys app' !! "carol" = None /\ balance (db app') "carol" = 999993.
Proof.
  apply (decision_takes_locks noText both (hashKey block1) accepted1 "I0" range true "carol" 999993 both_wf).
  - vm_compute. reflexivity.
  - exact accepted1_Ok.
  - vm_compute. reflexivity.
  - vm_compute. reflexivity.
Defined.

(** The two blocks together: the first is committed and the second aborted, yet
    the debit of the second stays and its credit is lost. *)
Example aborted_debit_stays :
  let decided := after (after both (Decide [hashKey block1] [true] "I0")) (Decide [hashKey block2] [false] "I0") in
  map (balance (db decided)) ["alice"; "bob"; "carol"; "erin"] = [999995; 1000005; 999993; 1000000] /\
  LockedKeys decided = ∅.
Proof. vm_compute. split; reflexivity. Qed.

Lemma PreExecutionI_votes_witness :
  exists r, PreExecutionI noText shard1 rival = Ok r /\
    (respIIsOK r = true <->
      Forall (fun tx => is_Some (decoded tx)) (Bank.crossTxs rival) /\
      forall k, k ∈ allKeys (Bank.crossTxs rival) -> LockedKeys shard1 !! k = None) /\
    forall datas, PreExecutionI noText shard1 (withDatas rival datas) = Ok r.
Proof. apply (PreExecutionI_votes noText shard1 rival); reflexivity. Defined.

(** The values of [block2] are read before [block1] is decided and locked after:
    accepted once [block3] has changed the balance, it writes the old one. *)
Definition block3 : Block.t :=
  blockOf BLOCKTYPE_CrossShard 4 "B0" [] [pay "carol" "frank" 1] [read [("carol", 1000000); ("frank", 1000000)] true].
Example stale_data_accepted :
  let decided3 := after (after shard (Accept block3 "I0" true)) (Decide [hashKey block3] [true] "I0") in
  let decided2 := after (after decided3 (Accept block2 "I0" true)) (Decide [hashKey block2] [true] "I0") in
  (exists r, PreExecutionI noText decided3 block2 = Ok r /\ respIIsOK r = true) /\
  map (balance (db decided3)) ["carol"; "frank"; "erin"] = [999999; 1000001; 1000000] /\
  map (balance (db decided2)) ["carol"; "frank"; "erin"] = [999993; 1000001; 1000007].
Proof. vm_compute. split_and!; [eexists; split; reflexivity|reflexivity..]. Qed.
End PyramidRunsDemo.
