(* ===== verification/PyramidVotes.v ===== *)
(** * Vote sets and messages of the comparison protocols:
    [pyramid/consensus/constypes]

    The proposal, the votes and the aggregated precommit are those of [Votes]
    ([pyramid/consensus/constypes/vote.go] repeats them, up to the texts of the
    errors). This file has the set that counts the votes of a shard
    ([vote_set.go]) and the messages between shards ([cross_shard.go]).
    [rapid/consensus/constypes] is [pyramid/consensus/constypes]. *)

From S2P Require Import Prelude BitVector Hash Wire Types PartSet Signer Votes.
Local Open Scope Z_scope.

(** ** [Vote] *)

Class Vote (A : Type) := {
  GetBlockHeaderHash : A -> bytes; GetIndex : A -> Z; IsOK : A -> bool; GetSignature : A -> string }.

#[export] Instance prevoteVote : Vote Prevote.t :=
  {| GetBlockHeaderHash := Prevote.BlockHeaderHash; GetIndex := Prevote.ValidatorIndex;
     IsOK := Prevote.IsOK; GetSignature := Prevote.Signature |}.
#[export] Instance precommitVote : Vote Precommit.t :=
  {| GetBlockHeaderHash := Precommit.BlockHeaderHash; GetIndex := Precommit.ValidatorIndex;
     IsOK := Precommit.IsOK; GetSignature := Precommit.Signature |}.

Definition SetCode (p : PrecommitAggregated.t) (ok : bool) : PrecommitAggregated.t :=
  PrecommitAggregated.mk (PrecommitAggregated.VoteType p) (if ok then CodeTypeOK else CodeTypeAbort)
    (PrecommitAggregated.ValidatorBitVector p) (PrecommitAggregated.Header p)
    (PrecommitAggregated.BlockHeaderHash p) (PrecommitAggregated.AggregatedSignatures p).

(** ** [VoteSet] *)

Module VoteSet.
Section voteset.
Context {A : Type} `{Vote A}.

(** The two counters of a hash: votes that are OK, and votes that are not. *)
Record t := mk {
  validatorNum : Z; totalVotes : Z; votes : list (option A); blockHeaderHashCnt : gmap bytes (Z * Z);
  bitVector : option BV.t; has_mj23 : bool; mj23_key : bytes; mj23_code : bool }.

Definition NewVoteSet (n totalVotes : Z) : t :=
  mk n totalVotes (replicate (Z.to_nat n) None) ∅ (BV.NewBitVector n) false [] false.

Definition count (ok : bool) (u : Z * Z) : Z := if ok then u.1 else u.2.
Definition addCount (ok : bool) (v : Z) (u : Z * Z) : Z * Z :=
  if ok then (i32 (u.1 + v), u.2) else (u.1, i32 (u.2 + v)).
Definition counts (vs : t) (key : bytes) : Z * Z := default (0, 0) (blockHeaderHashCnt vs !! key).

(** The majority is set once. *)
Definition checkMaj23 (vs : t) (key : bytes) (code : bool) : t :=
  if has_mj23 vs then vs
  else if count code (counts vs key) >? Z.quot (i32 (2 * totalVotes vs)) 3 then
    mk (validatorNum vs) (totalVotes vs) (votes vs) (blockHeaderHashCnt vs) (bitVector vs) true key code
  else vs.

Definition AddVote (vs : t) (vote : A) (valVote : Z) : go (t * option goerr) :=
  let key := GetBlockHeaderHash vote in
  let! seen := BV.GetIndex (bitVector vs) (GetIndex vote) in
  if seen then
    let! slot := idx (votes vs) (GetIndex vote) in
    let! rawVote := deref slot in
    if bool_decide (GetBlockHeaderHash vote = GetBlockHeaderHash rawVote) ||
       negb (eqb (IsOK vote) (IsOK rawVote))
    then Ok (vs, Some (Errorf "The voter casts at least two ambiguous votes"))
    else Ok (vs, None)
  else
    let! '(bits, _) := BV.SetIndex (bitVector vs) (GetIndex vote) true in
    let! votes' := upd (votes vs) (GetIndex vote) (Some vote) in
    let cnt := <[key := addCount (IsOK vote) valVote (counts vs key)]> (blockHeaderHashCnt vs) in
    Ok (checkMaj23 (mk (validatorNum vs) (totalVotes vs) votes' cnt bits (has_mj23 vs) (mj23_key vs)
                      (mj23_code vs)) key (IsOK vote), None).

Definition HasMaj23 (vs : t) : bool := has_mj23 vs.
Definition GetMaj23 (vs : t) : bytes * bool := (mj23_key vs, mj23_code vs).

(** The signatures of the majority, in the order of the validators. *)
Fixpoint collect (vs : t) (ids : list nat) (aggSigs : list string) (bv : option BV.t) :
    go (list string * option BV.t) :=
  match ids with
  | [] => Ok (aggSigs, bv)
  | i :: ids =>
      let! b := BV.GetIndex (bitVector vs) (Z.of_nat i) in
      if b then
        let! slot := idx (votes vs) (Z.of_nat i) in
        let! vote := deref slot in
        if eqb (IsOK vote) (mj23_code vs) && bool_decide (mj23_key vs = GetBlockHeaderHash vote) then
          let! '(bv, _) := BV.SetIndex bv (Z.of_nat i) true in
          collect vs ids (aggSigs ++ [GetSignature vote]) bv
        else collect vs ids aggSigs bv
      else collect vs ids aggSigs bv
  end.

Definition GetMaj23AggreSig `{BLS} (vs : t) : go (string * bytes) :=
  let! '(aggSigs, bv) := collect vs (seq 0 (Z.to_nat (validatorNum vs))) [] (BV.NewBitVector (validatorNum vs)) in
  let! aggSig := deref (AggregateSignatures aggSigs) in
  Ok (aggSig, BV.Byte bv).
End voteset.
Arguments t A : clear implicits.
End VoteSet.

(** ** [cross_shard.go]

    The messages as protobuf has them. *)
Record pbCrossShardBlock := mkpbCrossShardBlock {
  pbcsb_block : option pbBlock; pbcsb_sigs : option pbPrecommitAggregated }.
(** [MessageAccept] and [MessageCommit] have the same fields. *)
Record pbMessageAccept := mkpbMessageAccept {
  pbma_hash : bytes; pbma_sigs : option pbPrecommitAggregated }.
Record pbMessageCommit := mkpbMessageCommit {
  pbmc_hash : bytes; pbmc_sigs : option pbPrecommitAggregated }.
Record pbMessageAcceptSet := mkpbMessageAcceptSet {
  pbmas_accepts : list (option pbMessageAccept); pbmas_hash : bytes }.
Record pbMessageOK := mkpbMessageOK { pbmo_height : Z; pbmo_chain : string }.

Module CrossShardBlock.
Record t := mk { Block : Block.t; ColleciveSignatures : PrecommitAggregated.t }.
Definition ToProto (csb : t) : pbCrossShardBlock :=
  mkpbCrossShardBlock (Some (Block.ToProto (Block csb)))
    (Some (PrecommitAggregated.ToProto (ColleciveSignatures csb))).
Definition ProtoBytes `{Codec pbCrossShardBlock} (csb : t) : go bytes := MustProtoBytes (ToProto csb).
Definition NewCrossShardBlockFromProto (p : pbCrossShardBlock) : go t :=
  let! block := Block.NewBlockFromProto (pbcsb_block p) in
  let! sigs := PrecommitAggregated.NewPrecommitAggregatedFromProto (pbcsb_sigs p) in
  Ok (mk block sigs).
Definition NewCrossShardBlockFromBytes `{Codec pbCrossShardBlock} (bz : bytes) : go (option t) :=
  match Unmarshal bz with
  | None => Ok None
  | Some csb => let! csb := NewCrossShardBlockFromProto csb in Ok (Some csb)
  end.
End CrossShardBlock.

Module MessageAccept.
Record t := mk { B_BlockHash : bytes; CollectiveSignatures : PrecommitAggregated.t }.
Definition ToProto (ma : t) : pbMessageAccept :=
  mkpbMessageAccept (B_BlockHash ma) (Some (PrecommitAggregated.ToProto (CollectiveSignatures ma))).
Definition ProtoBytes `{Codec pbMessageAccept} (ma : t) : go bytes := MustProtoBytes (ToProto ma).
Definition NewMessageAcceptFromProto (p : option pbMessageAccept) : go t :=
  let! p := deref p in
  let! sigs := PrecommitAggregated.NewPrecommitAggregatedFromProto (pbma_sigs p) in
  Ok (mk (pbma_hash p) sigs).
Definition NewMessageAcceptFromBytes `{Codec pbMessageAccept} (bz : bytes) : go (option t) :=
  match Unmarshal bz with
  | None => Ok None
  | Some ma => let! ma := NewMessageAcceptFromProto (Some ma) in Ok (Some ma)
  end.
End MessageAccept.

Module MessageAcceptSet.
Record t := mk { Accepts : list MessageAccept.t; BlockHash : bytes }.
Definition ToProto (mas : t) : pbMessageAcceptSet :=
  mkpbMessageAcceptSet (map (fun accept => Some (MessageAccept.ToProto accept)) (Accepts mas)) (BlockHash mas).
Definition ProtoBytes `{Codec pbMessageAcceptSet} (mas : t) : go bytes := MustProtoBytes (ToProto mas).
Definition NewMessageAcceptSetFromProto (p : pbMessageAcceptSet) : go t :=
  let! accepts := go_mapM MessageAccept.NewMessageAcceptFromProto (pbmas_accepts p) in
  Ok (mk accepts (pbmas_hash p)).
Definition NewMessageAcceptSetFromBytes `{Codec pbMessageAcceptSet} (bz : bytes) : go (option t) :=
  match Unmarshal bz with
  | None => Ok None
  | Some mas => let! accepts := NewMessageAcceptSetFromProto mas in Ok (Some accepts)
  end.
End MessageAcceptSet.

Module MessageCommit.
Record t := mk { B_BlockHash : bytes; CollectiveSignatures : PrecommitAggregated.t }.
Definition ToProto (mc : t) : pbMessageCommit :=
  mkpbMessageCommit (B_BlockHash mc) (Some (PrecommitAggregated.ToProto (CollectiveSignatures mc))).
Definition ProtoBytes `{Codec pbMessageCommit} (mc : t) : go bytes := MustProtoBytes (ToProto mc).
Definition NewMessageCommitFromProto (p : pbMessageCommit) : go t :=
  let! sigs := PrecommitAggregated.NewPrecommitAggregatedFromProto (pbmc_sigs p) in
  Ok (mk (pbmc_hash p) sigs).
Definition NewMessageCommitFromBytes `{Codec pbMessageCommit} (bz : bytes) : go (option t) :=
  match Unmarshal bz with
  | None => Ok None
  | Some ma => let! ma := NewMessageCommitFromProto ma in Ok (Some ma)
  end.
End MessageCommit.

Module MessageOK.
Record t := mk { Height : Z; SrcChain : string }.
Definition ToProto (m : t) : pbMessageOK := mkpbMessageOK (Height m) (SrcChain m).
Definition ProtoBytes `{Codec pbMessageOK} (m : t) : go bytes := MustProtoBytes (ToProto m).
Definition NewMessageOKFromProto (p : pbMessageOK) : t := mk (pbmo_height p) (pbmo_chain p).
Definition NewMessageOKFromBytes `{Codec pbMessageOK} (bz : bytes) : option t :=
  NewMessageOKFromProto <$> Unmarshal bz.
End MessageOK.
