(* ===== verification/PyramidVotesSpec.v ===== *)
(** * What the vote sets of the comparison protocols count

    A set holds one vote per validator, its counters are the voting power behind
    each hash and verdict, and its majority is a quorum: two sets of one shard
    can only disagree if more than a third of the power voted twice, and the
    aggregate of a majority verifies. *)

From S2P Require Import Prelude BitVector Hash Wire Types PartSet Signer Votes PyramidVotes.
Local Open Scope Z_scope.

(** ** Filters *)

Lemma filter_same {B} (P Q : B -> bool) (l : list B) : (forall y, y ∈ l -> P y = Q y) ->
  filter (fun y => P y = true) l = filter (fun y => Q y = true) l.
Proof.
  induction l as [|y l IH]; intros HE; [done|]. rewrite !filter_cons, (HE y), IH; [done| |constructor].
  intros z Hz. apply HE. by constructor.
Qed.

Lemma filter_new {B} `{EqDecision B} (P Q : B -> bool) (x : B) (l : list B) : NoDup l -> x ∈ l -> P x = false -> Q x = true ->
  (forall y, y <> x -> Q y = P y) ->
  filter (fun y => Q y = true) l ≡ₚ x :: filter (fun y => P y = true) l.
Proof.
  intros Hnd Hin HP HQ HE. induction l as [|y l IH]; [by apply elem_of_nil in Hin|].
  apply NoDup_cons in Hnd as [Hy Hnd]. rewrite !filter_cons. destruct (decide (y = x)) as [->|Hne].
  - rewrite decide_True by done. rewrite (decide_False (P := P x = true)) by congruence.
    constructor. apply reflexive_eq, filter_same. intros z Hz. apply HE. by intros ->.
  - apply elem_of_cons in Hin as [->|Hin]; [done|]. rewrite HE by done.
    case_decide; rewrite (IH Hnd Hin); [apply perm_swap|done].
Qed.

Module VoteSetSpec.
Import VoteSet.
Section spec.
Context {A : Type} `{Vote A} (peers : list Peer.t).
Implicit Types vs : VoteSet.t A.

Definition slot vs (i : nat) : option A := mjoin (votes vs !! i).
Definition castFor (key : bytes) (code : bool) (v : A) : bool :=
  bool_decide (GetBlockHeaderHash v = key) && eqb (IsOK v) code.
Definition cast vs key code (i : nat) : bool :=
  match slot vs i with Some v => castFor key code v | None => false end.
Definition voters vs key code : list nat := filter (fun i => cast vs key code i = true) (seq 0 (length peers)).
Definition powerFor vs key code : Z := powerOf peers (map Z.of_nat (voters vs key code)).
Definition twoThirds vs key code : Prop := 2 * allVotes peers < 3 * powerFor vs key code.

Record wf vs : Prop := {
  vs_num : validatorNum vs = zlen peers;
  vs_total : totalVotes vs = allVotes peers;
  vs_len : length (votes vs) = length peers;
  vs_bits : exists bv, bitVector vs = Some bv /\ BV.wf bv /\ BV.Bits bv = zlen peers /\
    forall i, (i < length peers)%nat -> BV.bit bv (Z.of_nat i) = bool_decide (is_Some (slot vs i));
  vs_index : forall i v, slot vs i = Some v -> GetIndex v = Z.of_nat i;
  vs_counts : forall key code, count code (counts vs key) = powerFor vs key code;
  vs_maj : has_mj23 vs = true -> twoThirds vs (mj23_key vs) (mj23_code vs);
  vs_nomaj : has_mj23 vs = false -> forall key code, ~ twoThirds vs key code
}.

Context (Hn : votesNonneg peers) (Hb : allVotes peers < 2 ^ 30).

Lemma voters_range vs key code : Forall (fun i => 0 <= i < zlen peers) (map Z.of_nat (voters vs key code)).
Proof. apply Forall_fmap, Forall_forall. intros i [_ Hi%elem_of_seq]%list_elem_of_filter. simpl. lia. Qed.
Lemma voters_NoDup vs key code : NoDup (map Z.of_nat (voters vs key code)).
Proof. apply (NoDup_fmap_2 Z.of_nat), NoDup_filter, NoDup_seq. Qed.

Lemma powerFor_range vs key code : 0 <= powerFor vs key code <= allVotes peers.
Proof.
  split; [|by apply powerOf_le; [|apply voters_NoDup|apply voters_range]].
  apply zsum_nonneg, Forall_fmap, Forall_forall. intros i _. by apply power_nonneg.
Qed.

Lemma NewVoteSet_wf : wf (NewVoteSet (zlen peers) (allVotes peers)).
Proof.
  assert (forall i, slot (NewVoteSet (zlen peers) (allVotes peers)) i = None) as Hs.
  { intros i. unfold slot. cbn. destruct (replicate _ _ !! i) as [o|] eqn:E; [|done].
    by apply lookup_replicate in E as [-> _]. }
  assert (forall key code, voters (NewVoteSet (zlen peers) (allVotes peers)) key code = []) as Hv.
  { intros key code. unfold voters. rewrite (filter_same _ (fun _ => false)).
    - induction (seq 0 (length peers)) as [|i l IH]; [done|]. by rewrite filter_cons, decide_False by done.
    - intros i _. unfold cast. by rewrite Hs. }
  split; try done.
  - cbn. rewrite length_replicate. lia.
  - destruct (BV.NewBitVector (zlen peers)) as [bv|] eqn:E.
    2:{ unfold BV.NewBitVector in E. destruct (Z.ltb_spec (zlen peers) 0); [lia|done]. }
    exists bv. split; [exact E|]. split; [by eapply BV.NewBitVector_wf|].
    unfold BV.NewBitVector in E. destruct (_ <? 0); [done|]. injection E as <-. split; [done|].
    intros i _. rewrite Hs. unfold BV.bit. cbn. destruct (replicate _ _ !! _) as [o|] eqn:E; [|done].
    apply lookup_replicate in E as [-> _]. change (bval Byte.x00) with 0. apply Z.bits_0.
  - intros i v. by rewrite Hs.
  - intros key code. unfold powerFor. rewrite Hv. unfold counts. cbn. rewrite lookup_empty. by destruct code.
  - intros _ key code. unfold twoThirds, powerFor. rewrite Hv. change (powerOf _ _) with 0.
    assert (0 <= allVotes peers) by (by apply zsum_nonneg, Forall_fmap). lia.
Qed.

(** Two different verdicts cannot both have two thirds of one set. *)
Lemma voters_disjoint vs key code key' code' i :
  i ∈ voters vs key code -> i ∈ voters vs key' code' -> key = key' /\ code = code'.
Proof.
  intros [H1 _]%list_elem_of_filter [H2 _]%list_elem_of_filter. unfold cast, castFor in *.
  destruct (slot vs i) as [v|]; [|done].
  apply andb_true_iff in H1 as [E1%bool_decide_eq_true F1%eqb_prop], H2 as [E2%bool_decide_eq_true F2%eqb_prop].
  split; congruence.
Qed.

Lemma seen_spec vs i : wf vs -> 0 <= i < zlen peers ->
  BV.GetIndex (bitVector vs) i = Ok (bool_decide (is_Some (slot vs (Z.to_nat i)))).
Proof.
  intros W Hi. destruct (vs_bits vs W) as (bv & -> & Hwf & HB & Hbit). rewrite BV.GetIndex_spec by (done || lia).
  rewrite HB. destruct (Z.ltb_spec i (zlen peers)); [|lia]. f_equal.
  rewrite <- (Z2Nat.id i) at 1 by lia. apply Hbit. lia.
Qed.

Lemma slot_idx vs i v : wf vs -> 0 <= i < zlen peers -> slot vs (Z.to_nat i) = Some v -> idx (votes vs) i = Ok (Some v).
Proof.
  intros W Hi Hs. apply idx_Ok, zlook_Some. split; [lia|]. unfold slot in Hs.
  destruct (votes vs !! Z.to_nat i) as [o|]; [|done]. by cbn in Hs; subst o.
Qed.

(** A second vote of a validator changes nothing; the error is for the vote that
    repeats the hash, or changes the verdict. *)
Lemma AddVote_seen vs vote raw w : wf vs -> 0 <= GetIndex vote < zlen peers ->
  slot vs (Z.to_nat (GetIndex vote)) = Some raw ->
  AddVote vs vote w = Ok (vs,
    if bool_decide (GetBlockHeaderHash vote = GetBlockHeaderHash raw) || negb (eqb (IsOK vote) (IsOK raw))
    then Some (Errorf "The voter casts at least two ambiguous votes") else None).
Proof.
  intros W Hi Hs. unfold AddVote. rewrite seen_spec, Hs by done. cbn [gbind].
  rewrite (slot_idx vs _ _ W Hi Hs). cbn [gbind deref]. by destruct (_ || _).
Qed.

Lemma checkMaj23_fields vs key code :
  let vs' := checkMaj23 vs key code in
  votes vs' = votes vs /\ blockHeaderHashCnt vs' = blockHeaderHashCnt vs /\ bitVector vs' = bitVector vs /\
  validatorNum vs' = validatorNum vs /\ totalVotes vs' = totalVotes vs.
Proof. unfold checkMaj23. destruct (has_mj23 vs); [done|]. by destruct (_ >? _). Qed.

(** *** A new vote *)

Definition putVote vs (vote : A) (w : Z) (bits : option BV.t) : VoteSet.t A :=
  VoteSet.mk (validatorNum vs) (totalVotes vs) (<[Z.to_nat (GetIndex vote) := Some vote]> (votes vs))
    (<[GetBlockHeaderHash vote := addCount (IsOK vote) w (counts vs (GetBlockHeaderHash vote))]> (blockHeaderHashCnt vs))
    bits (has_mj23 vs) (mj23_key vs) (mj23_code vs).

Lemma AddVote_new vs vote w : wf vs -> 0 <= GetIndex vote < zlen peers ->
  slot vs (Z.to_nat (GetIndex vote)) = None ->
  exists bv, AddVote vs vote w =
      Ok (checkMaj23 (putVote vs vote w (Some bv)) (GetBlockHeaderHash vote) (IsOK vote), None) /\
    BV.wf bv /\ BV.Bits bv = zlen peers /\
    forall i, (i < length peers)%nat -> BV.bit bv (Z.of_nat i) =
      if (i =? Z.to_nat (GetIndex vote))%nat then true else bool_decide (is_Some (slot vs i)).
Proof.
  intros W Hi Hs. unfold AddVote. rewrite seen_spec, Hs by done. cbn [gbind].
  destruct (vs_bits vs W) as (bv & Eb & Hwf & HB & Hbit). rewrite Eb.
  destruct (BV.SetIndex_spec bv (GetIndex vote) true Hwf) as (bv' & -> & Hwf' & HB' & Hb'); [lia|]. cbn [gbind].
  assert (upd (votes vs) (GetIndex vote) (Some vote) = Ok (<[Z.to_nat (GetIndex vote) := Some vote]> (votes vs))) as ->.
  { unfold upd. destruct (proj2 (zlook_is_Some (votes vs) (GetIndex vote))) as [x ->]; [rewrite (vs_len vs W); lia|done]. }
  cbn [gbind]. exists bv'. split; [done|]. split; [done|]. split; [congruence|].
  intros i Hlt. rewrite Hb' by lia. destruct (Nat.eqb_spec i (Z.to_nat (GetIndex vote))) as [->|Hne].
  - rewrite Z2Nat.id by lia. by rewrite Z.eqb_refl.
  - destruct (Z.eqb_spec (Z.of_nat i) (GetIndex vote)); [lia|]. by apply Hbit.
Qed.

Lemma slot_put vs vote w bits i : wf vs -> 0 <= GetIndex vote < zlen peers ->
  slot (putVote vs vote w bits) i = if (i =? Z.to_nat (GetIndex vote))%nat then Some vote else slot vs i.
Proof.
  intros W Hi. unfold slot. cbn. destruct (Nat.eqb_spec i (Z.to_nat (GetIndex vote))) as [->|Hne].
  - by rewrite list_lookup_insert_eq by (rewrite (vs_len vs W); lia).
  - by rewrite list_lookup_insert_ne by done.
Qed.

Lemma powerFor_put vs vote w bits key code : wf vs -> 0 <= GetIndex vote < zlen peers ->
  slot vs (Z.to_nat (GetIndex vote)) = None -> w = power peers (GetIndex vote) ->
  powerFor (putVote vs vote w bits) key code =
  powerFor vs key code + if castFor key code vote then w else 0.
Proof.
  intros W Hi Hs ->. unfold powerFor, powerOf.
  assert (forall i, cast (putVote vs vote (power peers (GetIndex vote)) bits) key code i =
    if (i =? Z.to_nat (GetIndex vote))%nat then castFor key code vote else cast vs key code i) as Hc.
  { intros i. unfold cast. rewrite slot_put by done. by destruct (_ =? _)%nat. }
  destruct (castFor key code vote) eqn:Ec.
  - unfold voters. rewrite (filter_new (cast vs key code) _ (Z.to_nat (GetIndex vote))).
    + cbn [map]. rewrite zsum_cons, Z2Nat.id by lia. lia.
    + apply NoDup_seq.
    + apply elem_of_seq. lia.
    + unfold cast. by rewrite Hs.
    + by rewrite Hc, Nat.eqb_refl.
    + intros i Hne. rewrite Hc. by destruct (Nat.eqb_spec i (Z.to_nat (GetIndex vote))).
  - rewrite Z.add_0_r. do 3 f_equal. apply filter_same. intros i _. rewrite Hc.
    destruct (Nat.eqb_spec i (Z.to_nat (GetIndex vote))) as [->|]; [|done]. unfold cast. by rewrite Hs.
Qed.

Lemma counts_at vs vote w bits key : counts (putVote vs vote w bits) key =
  if bool_decide (GetBlockHeaderHash vote = key) then addCount (IsOK vote) w (counts vs key) else counts vs key.
Proof.
  unfold counts at 1. cbn [blockHeaderHashCnt putVote]. case_bool_decide as Hk.
  - subst key. by rewrite lookup_insert_eq.
  - by rewrite lookup_insert_ne.
Qed.

Lemma counts_put vs vote w bits key code : wf vs -> 0 <= GetIndex vote < zlen peers ->
  slot vs (Z.to_nat (GetIndex vote)) = None -> w = power peers (GetIndex vote) ->
  count code (counts (putVote vs vote w bits) key) = powerFor (putVote vs vote w bits) key code.
Proof.
  intros W Hi Hs Ew. pose proof (powerFor_put vs vote w bits key code W Hi Hs Ew) as Ep.
  pose proof (powerFor_range (putVote vs vote w bits) key code) as Hr.
  rewrite Ep in Hr |- *. rewrite <- (vs_counts vs W) in Hr |- *. rewrite counts_at. unfold castFor in *.
  case_bool_decide as Hk; cbn [andb] in *; [|lia].
  unfold count, addCount in *. destruct code, (IsOK vote); cbn [eqb fst snd] in *;
    rewrite ?wrap_s_small by (unfold in_s; lia); lia.
Qed.

(** The majority is noticed when the new vote completes it. *)
Lemma AddVote_fresh vs vote : wf vs -> 0 <= GetIndex vote < zlen peers ->
  slot vs (Z.to_nat (GetIndex vote)) = None ->
  exists vs', AddVote vs vote (power peers (GetIndex vote)) = Ok (vs', None) /\ wf vs' /\
    (forall i, slot vs' i = if (i =? Z.to_nat (GetIndex vote))%nat then Some vote else slot vs i) /\
    (has_mj23 vs = true -> has_mj23 vs' = true /\ mj23_key vs' = mj23_key vs /\ mj23_code vs' = mj23_code vs).
Proof.
  intros W Hi Hs. set (w := power peers (GetIndex vote)).
  destruct (AddVote_new vs vote w W Hi Hs) as (bv & -> & Hwf & HB & Hbit).
  set (vs1 := putVote vs vote w (Some bv)).
  destruct (checkMaj23_fields vs1 (GetBlockHeaderHash vote) (IsOK vote)) as (F1 & F2 & F3 & F4 & F5).
  set (vs' := checkMaj23 vs1 _ _) in *. exists vs'. split; [done|].
  assert (forall i, slot vs' i = slot vs1 i) as Hs' by (intros i; unfold slot; by rewrite F1).
  assert (forall key code, powerFor vs' key code = powerFor vs1 key code) as Hp'.
  { intros key code. unfold powerFor, voters. do 2 f_equal. apply filter_same. intros i _. unfold cast. by rewrite Hs'. }
  assert (forall key code, count code (counts vs1 key) = powerFor vs1 key code) as Hc
    by (intros; by apply counts_put).
  assert (forall key code, powerFor vs key code <= powerFor vs1 key code) as Hmono.
  { intros key code. unfold vs1. rewrite powerFor_put by done.
    pose proof (power_nonneg peers (GetIndex vote) Hn). unfold w. destruct (castFor _ _ _); lia. }
  assert (0 <= allVotes peers) as H0 by (by apply zsum_nonneg, Forall_fmap).
  split; [|split].
  - split; rewrite ?F1, ?F3, ?F4, ?F5; try apply W.
    + cbn. rewrite length_insert. apply W.
    + exists bv. split; [done|]. split; [done|]. split; [done|]. intros i Hlt. rewrite Hbit, Hs' by done.
      unfold vs1. rewrite slot_put by done. by destruct (_ =? _)%nat.
    + intros i v. rewrite Hs'. unfold vs1. rewrite slot_put by done.
      destruct (Nat.eqb_spec i (Z.to_nat (GetIndex vote))) as [->|]; [|apply W]. intros [= <-]. lia.
    + intros key code. unfold counts. rewrite F2, Hp'. apply Hc.
    + unfold twoThirds. rewrite Hp'. unfold vs', checkMaj23. destruct (has_mj23 vs1) eqn:Em.
      { intros _. pose proof (vs_maj vs W Em) as Hm. unfold twoThirds in Hm.
        specialize (Hmono (mj23_key vs) (mj23_code vs)). change (mj23_key vs1) with (mj23_key vs).
        change (mj23_code vs1) with (mj23_code vs). lia. }
      destruct (_ >? _) eqn:Eg; [|by rewrite Em]. intros _.
      rewrite Hc in Eg. cbn [totalVotes] in Eg. change (totalVotes vs1) with (totalVotes vs) in Eg.
      rewrite (vs_total vs W), Z.mul_comm in Eg. apply two_thirds in Eg; [|lia]. exact Eg.
    + unfold vs' at 1, checkMaj23. destruct (has_mj23 vs1) eqn:Em; [by rewrite Em|].
      destruct (_ >? _) eqn:Eg; [done|]. intros _ key code. unfold twoThirds. rewrite Hp'.
      unfold vs1. rewrite powerFor_put by done. destruct (castFor key code vote) eqn:Ev.
      * unfold castFor in Ev. apply andb_true_iff in Ev as [E1%bool_decide_eq_true E2%eqb_prop].
        rewrite Hc in Eg. change (totalVotes vs1) with (totalVotes vs) in Eg.
        rewrite (vs_total vs W), Z.mul_comm in Eg. intros Ht. apply not_true_iff_false in Eg. apply Eg, two_thirds; [lia|].
        subst key code. unfold vs1. rewrite powerFor_put by done. unfold castFor.
        by rewrite bool_decide_true, eqb_reflx by done.
      * rewrite Z.add_0_r. by apply (vs_nomaj vs W).
  - intros i. rewrite Hs'. by apply slot_put.
  - intros Em. unfold vs', checkMaj23. change (has_mj23 vs1) with (has_mj23 vs). by rewrite Em.
Qed.

(** C26: counting a vote of a validator of the shard never panics and keeps the
    counters exact: each is the voting power of the validators whose first vote
    has its hash and verdict, so none overflows or exceeds the total; the majority
    is set exactly when one of them passes two thirds. *)
Theorem AddVote_counts vs vote : wf vs -> 0 <= GetIndex vote < zlen peers ->
  exists vs' err, AddVote vs vote (power peers (GetIndex vote)) = Ok (vs', err) /\ wf vs' /\
    (forall i, slot vs' i = match slot vs i with
       | Some v => Some v
       | None => if (i =? Z.to_nat (GetIndex vote))%nat then Some vote else None
       end) /\
    (forall key code, count code (counts vs' key) = powerFor vs' key code /\
       0 <= count code (counts vs' key) <= allVotes peers) /\
    (HasMaj23 vs' = true <-> exists key code, twoThirds vs' key code).
Proof.
  intros W Hi.
  assert (forall vs', wf vs' -> (forall key code, count code (counts vs' key) = powerFor vs' key code /\
       0 <= count code (counts vs' key) <= allVotes peers) /\
    (HasMaj23 vs' = true <-> exists key code, twoThirds vs' key code)) as Hwf.
  { intros vs' W'. split.
    - intros key code. rewrite (vs_counts vs' W'). split; [done|apply powerFor_range].
    - unfold HasMaj23. destruct (has_mj23 vs') eqn:Em; split; intros HT; [|done..|].
      + eexists _, _. by apply (vs_maj vs' W').
      + destruct HT as (key & code & Ht). by apply (vs_nomaj vs' W' Em) in Ht. }
  destruct (slot vs (Z.to_nat (GetIndex vote))) as [raw|] eqn:Hs.
  - eexists vs, _. split; [by apply (AddVote_seen vs vote raw)|]. split; [done|]. split; [|by apply Hwf].
    intros i. destruct (slot vs i) eqn:E; [done|]. destruct (Nat.eqb_spec i (Z.to_nat (GetIndex vote))); [congruence|done].
  - destruct (AddVote_fresh vs vote W Hi Hs) as (vs' & E & W' & Hs' & _). eexists vs', _. split; [exact E|].
    split; [done|]. split; [|by apply Hwf]. intros i. rewrite Hs'.
    destruct (Nat.eqb_spec i (Z.to_nat (GetIndex vote))) as [->|]; [by rewrite Hs|by destruct (slot vs i)].
Qed.

(** Two vote sets of one shard that both have a majority agree on the block
    and on the verdict, unless validators with more than a third of the power
    cast different votes in the two sets. *)
Lemma majorities_overlap vs1 vs2 : wf vs1 -> wf vs2 -> HasMaj23 vs1 = true -> HasMaj23 vs2 = true ->
  GetMaj23 vs1 = GetMaj23 vs2 \/
  exists both, NoDup both /\ allVotes peers < 3 * powerOf peers (map Z.of_nat both) /\
    forall i, i ∈ both -> exists v1 v2, slot vs1 i = Some v1 /\ slot vs2 i = Some v2 /\
      (GetBlockHeaderHash v1, IsOK v1) <> (GetBlockHeaderHash v2, IsOK v2).
Proof.
  intros W1 W2 M1 M2. unfold GetMaj23.
  destruct (decide ((mj23_key vs1, mj23_code vs1) = (mj23_key vs2, mj23_code vs2))) as [|Hne]; [by left|right].
  destruct (quorum_overlap peers _ _ Hn (voters_NoDup vs1 (mj23_key vs1) (mj23_code vs1))
    (voters_NoDup vs2 (mj23_key vs2) (mj23_code vs2)) (voters_range _ _ _) (voters_range _ _ _)
    (vs_maj vs1 W1 M1) (vs_maj vs2 W2 M2)) as (both & Hnd & Hp & Hin).
  assert (exists both', both = map Z.of_nat both') as [both' ->].
  { exists (map Z.to_nat both). rewrite map_map. symmetry.
    rewrite <- (map_id both) at 2. apply map_ext_in. intros i Hi%list_elem_of_In.
    apply Hin in Hi as [(j & -> & _)%list_elem_of_fmap _]. lia. }
  exists both'. split; [by apply NoDup_fmap_1 in Hnd|]. split; [done|]. intros i Hi.
  assert (Z.of_nat i ∈ map Z.of_nat both') as Hi' by (apply list_elem_of_fmap; eauto).
  apply Hin in Hi' as [(j & Ej & H1)%list_elem_of_fmap (k & Ek & H2)%list_elem_of_fmap].
  apply Nat2Z.inj in Ej as <-, Ek as <-. apply list_elem_of_filter in H1 as [H1 _], H2 as [H2 _].
  unfold cast, castFor in *. destruct (slot vs1 i) as [v1|], (slot vs2 i) as [v2|]; try done.
  apply andb_true_iff in H1 as [E1%bool_decide_eq_true F1%eqb_prop], H2 as [E2%bool_decide_eq_true F2%eqb_prop].
  exists v1, v2. split; [done|]. split; [done|]. rewrite E1, E2, F1, F2. done.
Qed.

(** *** The aggregate of the majority *)

Lemma collect_spec vs ids aggSigs bv : wf vs -> BV.wf bv -> BV.Bits bv = zlen peers ->
  Forall (fun i => (i < length peers)%nat) ids ->
  let won := cast vs (mj23_key vs) (mj23_code vs) in
  exists bv', collect vs ids aggSigs (Some bv) =
      Ok (aggSigs ++ omap (fun i => GetSignature <$> slot vs i) (filter (fun i => won i = true) ids), Some bv') /\
    BV.wf bv' /\ BV.Bits bv' = zlen peers /\
    forall j, BV.bit bv' (Z.of_nat j) = BV.bit bv (Z.of_nat j) || (bool_decide (j ∈ ids) && won j).
Proof.
  intros W Hwf HB Hids won. revert aggSigs bv Hwf HB. induction Hids as [|i ids Hi _ IH]; intros aggSigs bv Hwf HB.
  { exists bv. cbn. rewrite app_nil_r. split_and!; try done. intros j. rewrite bool_decide_false by by intros ?%elem_of_nil.
    by rewrite orb_false_r. }
  cbn [collect]. rewrite seen_spec, Nat2Z.id by (done || lia). cbn [gbind].
  assert (forall j, won i = false -> bool_decide (j ∈ i :: ids) && won j = bool_decide (j ∈ ids) && won j) as Hw.
  { intros j Hf. destruct (decide (j = i)) as [->|Hne]; [by rewrite Hf, !andb_false_r|].
    f_equal. apply bool_decide_ext. set_solver. }
  rewrite filter_cons. destruct (slot vs i) as [v|] eqn:Es.
  - rewrite bool_decide_true by done. rewrite (slot_idx vs (Z.of_nat i) v) by (rewrite ?Nat2Z.id; done || lia).
    cbn [gbind deref].
    assert (won i = eqb (IsOK v) (mj23_code vs) && bool_decide (mj23_key vs = GetBlockHeaderHash v)) as Ew.
    { unfold won, cast, castFor. rewrite Es, andb_comm. f_equal. apply bool_decide_ext. split; congruence. }
    rewrite <- Ew. destruct (won i) eqn:Ei.
    + destruct (BV.SetIndex_spec bv (Z.of_nat i) true Hwf) as (bv1 & -> & Hwf1 & HB1 & Hb1); [lia|]. cbn [gbind].
      destruct (IH (aggSigs ++ [GetSignature v]) bv1 Hwf1) as (bv' & -> & Hwf' & HB' & Hb'); [congruence|].
      exists bv'. split; [|split; [done|split; [done|]]].
      * rewrite decide_True by done. cbn [omap list_omap]. rewrite Es. cbn. by rewrite <- app_assoc.
      * intros j. rewrite Hb', Hb1 by lia. destruct (Z.eqb_spec (Z.of_nat j) (Z.of_nat i)) as [Ej|Ej].
        -- apply Nat2Z.inj in Ej as ->. rewrite Ei, (bool_decide_true (i ∈ i :: ids)) by constructor.
           by rewrite orb_true_r.
        -- do 2 f_equal. apply bool_decide_ext. set_solver by lia.
    + destruct (IH aggSigs bv Hwf HB) as (bv' & -> & Hwf' & HB' & Hb'). exists bv'.
      rewrite decide_False by done. split_and!; try done. intros j. by rewrite Hb', Hw.
  - rewrite bool_decide_false by by intros [].
    assert (won i = false) as Ei by (unfold won, cast; by rewrite Es).
    destruct (IH aggSigs bv Hwf HB) as (bv' & -> & Hwf' & HB' & Hb'). exists bv'.
    rewrite decide_False by congruence. split_and!; try done. intros j. by rewrite Hb', Hw.
Qed.

Lemma setBits_voters vs bv key code : BV.Bits bv = zlen peers ->
  (forall i, (i < length peers)%nat -> BV.bit bv (Z.of_nat i) = cast vs key code i) ->
  setBits bv = voters vs key code.
Proof.
  intros HB Hbit. unfold setBits, voters. rewrite HB, Nat2Z.id. apply filter_same.
  intros i Hi%elem_of_seq. apply Hbit. lia.
Qed.

(** The aggregate of a majority is never an error, carries more than two thirds of
    the power, and verifies for the message that its voters signed if their keys
    do not cancel. *)
Lemma AggreSig_spec `{BLSLaws} vs (vals : Verifier) msg : wf vs -> HasMaj23 vs = true -> length vals = length peers ->
  (forall i v, slot vs i = Some v -> castFor (mj23_key vs) (mj23_code vs) v = true ->
     Verify vals (GetSignature v) msg (Z.of_nat i) = Ok true) ->
  exists sig bv, GetMaj23AggreSig vs = Ok (sig, BV.Byte (Some bv)) /\
    BV.wf bv /\ BV.Bits bv = zlen peers /\ 2 * allVotes peers < 3 * votesOf bv peers /\
    exists valid, VerifyAggregateSignature vals sig msg (BV.Byte (Some bv)) = Ok valid /\
      (valid = true <-> aggregateKey vals bv <> pkZero).
Proof.
  intros W Hm Hl Hsig. unfold GetMaj23AggreSig. rewrite (vs_num vs W).
  assert (exists bv0, BV.NewBitVector (zlen peers) = Some bv0 /\ BV.wf bv0 /\ BV.Bits bv0 = zlen peers /\
    forall i, BV.bit bv0 i = false) as (bv0 & E0 & Hwf0 & HB0 & Hb0).
  { unfold BV.NewBitVector. destruct (Z.ltb_spec (zlen peers) 0); [lia|]. eexists. split; [done|].
    split; [by eapply BV.NewBitVector_wf; unfold BV.NewBitVector; rewrite (proj2 (Z.ltb_ge _ _))|].
    split; [done|]. intros i. unfold BV.bit. cbn. destruct (replicate _ _ !! _) as [o|] eqn:E; [|done].
    apply lookup_replicate in E as [-> _]. change (bval Byte.x00) with 0. apply Z.bits_0. }
  rewrite E0. destruct (collect_spec vs (seq 0 (Z.to_nat (zlen peers))) [] bv0 W Hwf0 HB0) as (bv & E & Hwf & HB & Hbit).
  { apply Forall_forall. intros i Hi%elem_of_seq. lia. }
  rewrite E. cbn [gbind app]. rewrite Nat2Z.id in *.
  assert (forall i, (i < length peers)%nat -> BV.bit bv (Z.of_nat i) = cast vs (mj23_key vs) (mj23_code vs) i) as Hcast.
  { intros i Hi. rewrite Hbit, Hb0. cbn [orb]. by rewrite bool_decide_true by (apply elem_of_seq; lia). }
  pose proof (setBits_voters vs bv _ _ HB Hcast) as Eset.
  set (won := voters vs (mj23_key vs) (mj23_code vs)) in *.
  set (signed := omap (fun i => (fun v => (i, GetSignature v)) <$> slot vs i) won).
  assert (Forall (fun i => exists v, slot vs i = Some v /\ castFor (mj23_key vs) (mj23_code vs) v = true) won) as Hwon.
  { apply Forall_forall. intros i [Hc _]%list_elem_of_filter. unfold cast in Hc. destruct (slot vs i); [eauto|done]. }
  assert (signed.*1 = won /\ signed.*2 = omap (fun i => GetSignature <$> slot vs i) won /\
    Forall (fun e => Verify vals e.2 msg (Z.of_nat e.1) = Ok true) signed) as (S1 & S2 & S3).
  { unfold signed. clearbody won. clear -Hwon Hsig. induction Hwon as [|i l (v & Es & Hc) _ (I1 & I2 & I3)]; [done|].
    cbn [omap list_omap]. rewrite Es. cbn. split_and!; [by f_equal|by f_equal|]. constructor; [by apply Hsig|done]. }
  destruct (aggregate_verifies vals bv signed msg Hwf) as (sig & valid & Ea & Ev & Hvalid).
  { rewrite HB. lia. }
  { by rewrite S1, Eset. }
  { exact S3. }
  rewrite S2 in Ea. change (filter _ (seq 0 (length peers))) with won. rewrite Ea. cbn [deref gbind].
  exists sig, bv. split_and!; try done; [|by exists valid]. rewrite votesOf_setBits, Eset by done. by apply (vs_maj vs W).
Qed.
End spec.
End VoteSetSpec.

(** ** A concrete set *)

Module VoteSetDemo.
Import VoteSet VoteSetSpec.
Definition peers : list Peer.t := map (fun k => Peer.mk "" ∅ k 1) ["x"; "xx"; "xxx"; "xxxx"]%string.
Definition ballot (i : Z) (hash : bytes) (ok : bool) : Prevote.t :=
  Prevote.SetOK (Prevote.NewPrevote 3 0 hash i) ok.
Definition addAll (l : list Prevote.t) (vs : VoteSet.t Prevote.t) : VoteSet.t Prevote.t :=
  fold_left (fun vs v => fst (valueOf (vs, None) (AddVote vs v 1))) l vs.
Definition empty : VoteSet.t Prevote.t := NewVoteSet 4 4.
Definition three (hash : bytes) : VoteSet.t Prevote.t :=
  addAll (map (fun i => ballot i hash true) [0; 2; 3]) empty.

Lemma peers_votes : votesNonneg peers.
Proof. repeat constructor; cbn; lia. Qed.
Lemma peers_bound : allVotes peers < 2 ^ 30.
Proof. reflexivity. Qed.
Lemma addAll_wf l vs : wf peers vs -> Forall (fun v => 0 <= Prevote.ValidatorIndex v < 4) l -> wf peers (addAll l vs).
Proof.
  intros W Hl. revert vs W. induction Hl as [|v l Hv _ IH]; intros vs W; [done|]. cbn [addAll fold_left]. apply IH.
  assert (power peers (GetIndex v) = 1) as Ep.
  { cbn. assert (Prevote.ValidatorIndex v = 0 \/ Prevote.ValidatorIndex v = 1 \/ Prevote.ValidatorIndex v = 2 \/
      Prevote.ValidatorIndex v = 3) as [->|[->|[->| ->]]] by lia; reflexivity. }
  destruct (slot vs (Z.to_nat (GetIndex v))) as [raw|] eqn:Es.
  - rewrite (AddVote_seen peers vs v raw 1 W Hv Es). exact W.
  - destruct (AddVote_fresh peers peers_votes peers_bound vs v W Hv Es) as (vs' & E & W' & _).
    rewrite Ep in E. rewrite E. exact W'.
Qed.
Lemma three_wf hash : wf peers (three hash).
Proof. apply addAll_wf; [exact (NewVoteSet_wf peers peers_votes)|]. repeat constructor; cbn; lia. Qed.

Lemma AddVote_counts_witness :
  let vote := ballot 1 [Byte.x02] false in
  exists vs' err, AddVote (three [Byte.x01]) vote 1 = Ok (vs', err) /\ wf peers vs' /\
    (forall i, slot vs' i = match slot (three [Byte.x01]) i with
       | Some v => Some v
       | None => if (i =? 1)%nat then Some vote else None
       end) /\
    (forall key code, count code (counts vs' key) = powerFor peers vs' key code /\
       0 <= count code (counts vs' key) <= 4) /\
    (HasMaj23 vs' = true <-> exists key code, twoThirds peers vs' key code).
Proof.
  exact (AddVote_counts peers peers_votes peers_bound (three [Byte.x01]) (ballot 1 [Byte.x02] false)
           (three_wf _) ltac:(by split)).
Defined.
End VoteSetDemo.
