(* ===== verification/PyramidHeight.v ===== *)
(** * The data of one height in the comparison protocols:
    [pyramid/consensus/height_datas.go], [pyramid/consensus/round-step.go] and
    [pyramid/shardinfo/shardinfo.go]

    [HeightDataPackage] collects the proposal and the votes of the own shard; a
    vote says whether the validator agrees, and the majority is for a block and a
    verdict. [rapid/consensus] and [rapid/shardinfo] repeat these files. *)

From S2P Require Import Prelude BitVector Hash Wire Types PyramidTypes PartSet Signer Votes PyramidVotes.
Local Open Scope Z_scope.

(** ** [round-step.go] *)

Definition RoundStepNone : Z := 0.
Definition RoundStepNewHeight : Z := 1.
Definition RoundStepNewRound : Z := 2.
Definition RoundStepPropose : Z := 3.
Definition RoundStepPrevote : Z := 4.
Definition RoundStepPrecommit : Z := 5.
Definition RoundStepCommit : Z := 6.

Definition RoundStepString (s : Z) : string :=
  if s =? RoundStepNewHeight then "New-Height"
  else if s =? RoundStepNewRound then "NewRound"
  else if s =? RoundStepPropose then "Propose"
  else if s =? RoundStepPrevote then "Prevote"
  else if s =? RoundStepPrecommit then "Precommit"
  else if s =? RoundStepCommit then "Commit"
  else "Unknown".

(** ** [shardinfo.go] *)

Module PyramidShardInfo.
Record t := mk {
  PeerList : gmap string (list Peer.t);
  RelatedShards : gmap string bool;
  PeerRelatedMap : gmap string (list string);
  ShardIdentity : Z;
  KeyRangeMap : gmap string string }.

(** The message: the wrappers of repeated values are the lists themselves. *)
Record pbShardInfo := mkpb {
  pb_peerList : gmap string (list Peer.pbPeer); pb_relatedShards : gmap string bool;
  pb_peer_related_map : gmap string (list string); pb_shard_identity : Z }.

Definition setIdentity (s : t) (id : Z) : t :=
  mk (PeerList s) (RelatedShards s) (PeerRelatedMap s) id (KeyRangeMap s).
Definition SetIShard (s : t) : t := setIdentity s BLOCKTYPE_I.
Definition SetBShard (s : t) : t := setIdentity s BLOCKTYPE_B.
Definition IsIShard (s : t) : bool := ShardIdentity s =? BLOCKTYPE_I.
Definition IsBShard (s : t) : bool := ShardIdentity s =? BLOCKTYPE_B.

Definition ToProto (s : t) : pbShardInfo :=
  mkpb (fmap (map Peer.ToProto) (PeerList s)) (RelatedShards s) (PeerRelatedMap s) (ShardIdentity s).
Definition ProtoBytes `{Codec pbShardInfo} (s : t) : go bytes := MustProtoBytes (ToProto s).
(** The key ranges are not part of the message. *)
Definition NewShardInfoFromProto (p : pbShardInfo) : t :=
  mk (fmap (map Peer.NewPeerFromProto) (pb_peerList p)) (pb_relatedShards p) (pb_peer_related_map p)
    (i8 (pb_shard_identity p)) ∅.
Definition NewShardInfoFromBytes `{Codec pbShardInfo} (bz : bytes) : option t :=
  NewShardInfoFromProto <$> Unmarshal bz.

(** [RelatedShards[x]] of a missing key is false. *)
Definition isRelated (s : t) (x : string) : bool := default false (RelatedShards s !! x).
Definition related (s : t) : list string := map fst (map_to_list (RelatedShards s)).
End PyramidShardInfo.

(** ** [height_datas.go] *)

Module PyramidHeight.
Section height.
Context `{Hash, StdTime, BLS, !Codec pbBlock, !Codec pbProposal, !Codec pbVote}.

(** The sender is left out: nothing is sent from here. *)
Record t := mk {
  Height : Z; Round : Z; MyChainID : string; PassStep : Z;
  ShardInfo : PyramidShardInfo.t; ShardVotes : gmap string Z; AllValidatorSet : gmap string Verifier;
  Proposal : option Proposal.t; Prevotes : VoteSet.t Prevote.t; Precommits : VoteSet.t Precommit.t;
  PartSet : option PartSet.t; Block : option Block.t; randomHeaderBuffer : list Part.t }.

Definition setPassStep (h : t) (s : Z) : t :=
  mk (Height h) (Round h) (MyChainID h) s (ShardInfo h) (ShardVotes h) (AllValidatorSet h) (Proposal h)
    (Prevotes h) (Precommits h) (PartSet h) (Block h) (randomHeaderBuffer h).
(** The proposal, its parts and its block. *)
Definition setProposed (h : t) (p : option Proposal.t) (ps : option PartSet.t) (b : option Block.t) : t :=
  mk (Height h) (Round h) (MyChainID h) (PassStep h) (ShardInfo h) (ShardVotes h) (AllValidatorSet h) p
    (Prevotes h) (Precommits h) ps b (randomHeaderBuffer h).
Definition setPrevotes (h : t) (v : VoteSet.t Prevote.t) : t :=
  mk (Height h) (Round h) (MyChainID h) (PassStep h) (ShardInfo h) (ShardVotes h) (AllValidatorSet h) (Proposal h)
    v (Precommits h) (PartSet h) (Block h) (randomHeaderBuffer h).
Definition setPrecommits (h : t) (v : VoteSet.t Precommit.t) : t :=
  mk (Height h) (Round h) (MyChainID h) (PassStep h) (ShardInfo h) (ShardVotes h) (AllValidatorSet h) (Proposal h)
    (Prevotes h) v (PartSet h) (Block h) (randomHeaderBuffer h).
Definition setBuffer (h : t) (l : list Part.t) : t :=
  mk (Height h) (Round h) (MyChainID h) (PassStep h) (ShardInfo h) (ShardVotes h) (AllValidatorSet h) (Proposal h)
    (Prevotes h) (Precommits h) (PartSet h) (Block h) l.
Definition setPartSet (h : t) (ps : PartSet.t) : t := setProposed h (Proposal h) (Some ps) (Block h).
Definition setBlock (h : t) (b : Block.t) : t := setProposed h (Proposal h) (PartSet h) (Some b).

Definition IsIShard (h : t) : bool := PyramidShardInfo.IsIShard (ShardInfo h).
Definition IsBShard (h : t) : bool := PyramidShardInfo.IsBShard (ShardInfo h).
Definition peersOf (h : t) (chain_id : string) : list Peer.t :=
  default [] (PyramidShardInfo.PeerList (ShardInfo h) !! chain_id).
(** The validators of the own shard; a nil verifier is dereferenced. *)
Definition myVerifier (h : t) : go Verifier := deref (AllValidatorSet h !! MyChainID h).

(** *** Construction and reset *)

Definition peersVerifier (peers : list Peer.t) : Verifier := NewVerifier (map Peer.Pubkey peers).
Definition peersVotes (peers : list Peer.t) : Z :=
  fold_left (fun totalVotes peer => totalVotes + Peer.Vote peer) peers 0.

Definition SetShardInfo (h : t) (s : PyramidShardInfo.t) : t :=
  mk (Height h) (Round h) (MyChainID h) (PassStep h) s
    (peersVotes <$> PyramidShardInfo.PeerList s) (peersVerifier <$> PyramidShardInfo.PeerList s) (Proposal h)
    (Prevotes h) (Precommits h) (PartSet h) (Block h) (randomHeaderBuffer h).

Definition newVotes {A} (h : t) : go (VoteSet.t A) :=
  let! val := myVerifier h in
  Ok (VoteSet.NewVoteSet (VerifierSize val) (i32 (default 0 (ShardVotes h !! MyChainID h)))).

Definition clearProposal (h : t) : t := setProposed h None None None.
Definition clearPrevote (h : t) : go t := let! v := newVotes h in Ok (setPrevotes h v).
Definition clearPrecommit (h : t) : go t := let! v := newVotes h in Ok (setPrecommits h v).
Definition clearAll (h : t) : go t :=
  let h := clearProposal h in
  let! h := clearPrevote h in
  clearPrecommit h.

Definition noVotes {A} : VoteSet.t A := VoteSet.NewVoteSet 0 0.
Definition NewHeightData (mychainid : string) (height : Z) (si : PyramidShardInfo.t) : go t :=
  let h := mk height 0 mychainid RoundStepNewHeight si ∅ ∅ None noVotes noVotes None None [] in
  let! h := clearAll (SetShardInfo h si) in
  Ok (setBuffer h []).

(** The buffer of early parts is kept. *)
Definition NextHeight (h : t) : go t :=
  clearAll (mk (i64 (Height h + 1)) 0 (MyChainID h) RoundStepNewHeight (ShardInfo h) (ShardVotes h)
    (AllValidatorSet h) (Proposal h) (Prevotes h) (Precommits h) (PartSet h) (Block h) (randomHeaderBuffer h)).

(** *** The steps that are finished *)

Definition FinishProposal (h : t) : go (t * bool) :=
  if PassStep h >=? RoundStepPropose then Ok (h, true)
  else match Proposal h, Block h with
       | None, _ | _, None => Ok (h, false)
       | Some _, Some _ =>
           let! ps := deref (PartSet h) in
           if negb (PartSet.IsComplete ps) then Ok (h, false) else Ok (setPassStep h RoundStepPropose, true)
       end.

Definition FinishPrevote (h : t) : go (t * bool) :=
  if PassStep h >=? RoundStepPrevote then Ok (h, true)
  else
    let! '(h, b) := FinishProposal h in
    if negb b then Ok (h, false)
    else if negb (VoteSet.HasMaj23 (Prevotes h)) then Ok (h, false)
    else Ok (setPassStep h RoundStepPrevote, true).

Definition FinishPrecommit (h : t) : go (t * bool) :=
  if PassStep h >=? RoundStepPrecommit then Ok (h, true)
  else
    let! '(h, b) := FinishPrevote h in
    if negb b then Ok (h, false)
    else if negb (VoteSet.HasMaj23 (Precommits h)) then Ok (h, false)
    else Ok (setPassStep h RoundStepPrecommit, true).

(** *** Messages *)

Definition AddPart (h : t) (p : Part.t) : go (t * option goerr) :=
  if negb (Height h =? Part.Height p) || negb (Round h =? Part.Round p) then Ok (h, Some DoNothing)
  else if negb (bool_decide (Part.ChainID p = MyChainID h)) then
    Ok (h, Some (Errorf "Received parts from other shards"))
  else
    match PartSet h with
    | None => Ok (setBuffer h (randomHeaderBuffer h ++ [p]), Some DoNothing)
    | Some ps =>
        let! '(ps, err) := PyramidPartSet.AddPart ps p in
        let h := setPartSet h ps in
        match err with
        | Some DuplicatedPartPassError => Ok (h, Some DoNothing)
        | Some err => Ok (h, Some err)
        | None =>
            if PartSet.IsComplete ps then
              let! '(block, err) := PyramidPartSet.GenBlock ps in
              match err with
              | Some err => Ok (h, Some err)
              | None => Ok (setProposed h (Proposal h) (PartSet h) block, None)
              end
            else Ok (h, None)
        end
    end.

(** The buffered parts are added, their errors dropped. *)
Definition AddProposal (h : t) (p : Proposal.t) (index : Z) : go (t * option goerr) :=
  match Proposal h with
  | Some _ => Ok (h, Some DoNothing)
  | None =>
      let ph := Proposal.Header p in
      if negb (Height h =? PartSetHeader.Height ph) || negb (Round h =? PartSetHeader.Round ph)
      then Ok (h, Some DoNothing)
      else if negb (Proposal.ProposerIndex p =? index) then
        Ok (h, Some (Errorf "Proposer error: Should have been %d, received %d"))
      else if negb (bool_decide (PartSetHeader.ChainID ph = MyChainID h)) then
        Ok (h, Some (Errorf "Proposal validation failed"))
      else
        let! val := myVerifier h in
        let! msg := Proposal.SignBytes p in
        let! valid := Verify val (Proposal.Signature p) msg index in
        if negb valid then Ok (h, Some (Errorf "Proposal signature verification failed"))
        else
          let! ps := PartSet.NewPartSet (Some ph) (Proposal.BlockHeaderHash p) in
          let h := setProposed h (Some p) (Some ps) (Block h) in
          let! h := go_foldl (fun h part => let! '(h, _) := AddPart h part in Ok h) h (randomHeaderBuffer h) in
          Ok (h, None)
  end.

(** [AddPrevote] and [AddPrecommit]: [vheight] and [vround] are the fields of the
    vote, [signBytes] what it signs. *)
Definition addVote {A} `{Vote A} (h : t) (vs : VoteSet.t A) (p : A) (vheight vround : Z) (signBytes : go bytes) :
    go (VoteSet.t A * option goerr) :=
  if negb (Height h =? vheight) || negb (Round h =? vround) then Ok (vs, Some DoNothing)
  else
    let! val := myVerifier h in
    let index := GetIndex p in
    if (index <? 0) || (index >=? VerifierSize val) then
      Ok (vs, Some (Errorf "Proposer error: Should have been at [0,%d], received %d"))
    else
      let! msg := signBytes in
      let! valid := Verify val (GetSignature p) msg index in
      if negb valid then Ok (vs, Some (Errorf "signature verification failed"))
      else
        let! peer := idx (peersOf h (MyChainID h)) index in
        VoteSet.AddVote vs p (Peer.Vote peer).

Definition AddPrevote (h : t) (p : Prevote.t) : go (t * option goerr) :=
  let! '(vs, err) := addVote h (Prevotes h) p (Prevote.Height p) (Prevote.Round p) (Prevote.SignBytes p) in
  Ok (setPrevotes h vs, err).
Definition AddPrecommit (h : t) (p : Precommit.t) : go (t * option goerr) :=
  let! '(vs, err) := addVote h (Precommits h) p (Precommit.Height p) (Precommit.Round p) (Precommit.SignBytes p) in
  Ok (setPrecommits h vs, err).

Definition GenerateAggregatePrecommitSignature (h : t) : go PrecommitAggregated.t :=
  let '(hash, ok) := VoteSet.GetMaj23 (Precommits h) in
  let! '(sig, bv) := VoteSet.GetMaj23AggreSig (Precommits h) in
  let! p := deref (Proposal h) in
  let! pa := PrecommitAggregated.NewPrecommitAggregated bv (Proposal.Header p) hash sig in
  Ok (SetCode pa ok).
End height.
End PyramidHeight.
