(* ===== verification/PyramidHeightSpec.v ===== *)
(** * What a height of the comparison protocols promises

    Whatever messages a node receives at a height, its vote sets hold verified
    votes of that height only; so the majorities of two nodes agree, and the
    aggregate of a majority verifies for the shards that get it. *)

From S2P Require Import Prelude BitVector Hash Wire Types PyramidTypes PartSet Signer Votes.
From S2P Require Import PyramidVotes PyramidVotesSpec PyramidHeight.
Local Open Scope Z_scope.
Import PyramidHeight VoteSetSpec.

Section heightspec.
Context `{Hash, StdTime, BLS, !Codec pbBlock, !Codec pbProposal, !Codec pbVote}.
Context (my : string) (si : PyramidShardInfo.t) (peers : list Peer.t).

(** The own shard has validators, whose votes can be added up twice. *)
Record validShard : Prop := {
  v_peers : PyramidShardInfo.PeerList si !! my = Some peers;
  v_nonneg : votesNonneg peers;
  v_bound : allVotes peers < 2 ^ 30
}.
Context (Hv : validShard).

(** What the handlers do to the package of a height, and the assignments of the
    consensus state: an own proposal, and a block that was hashed. A precommit has
    the type of a precommit, which [Receive] checks ([ValidateBasic]). *)
Inductive reachable : t -> Prop :=
  | r_new height h : NewHeightData my height si = Ok h -> reachable h
  | r_next h h' : reachable h -> NextHeight h = Ok h' -> reachable h'
  | r_part h p h' err : reachable h -> AddPart h p = Ok (h', err) -> reachable h'
  | r_proposal h p index h' err : reachable h -> AddProposal h p index = Ok (h', err) -> reachable h'
  | r_prevote h p h' err : reachable h -> AddPrevote h p = Ok (h', err) -> reachable h'
  | r_precommit h p h' err : reachable h -> Precommit.VoteType p = VoteTypePrecommit ->
      AddPrecommit h p = Ok (h', err) -> reachable h'
  | r_finishProposal h h' b : reachable h -> FinishProposal h = Ok (h', b) -> reachable h'
  | r_finishPrevote h h' b : reachable h -> FinishPrevote h = Ok (h', b) -> reachable h'
  | r_finishPrecommit h h' b : reachable h -> FinishPrecommit h = Ok (h', b) -> reachable h'
  | r_own h p ps b : reachable h -> PartSetHeader.Height (Proposal.Header p) = Height h ->
      PartSetHeader.Round (Proposal.Header p) = Round h -> reachable (setProposed h (Some p) (Some ps) (Some b))
  | r_block h b : reachable h -> reachable (setBlock h b).

(** A vote that was checked. *)
Record checked {A} `{Vote A} (vheight vround : A -> Z) (signBytes : A -> go bytes) (h : t) (i : nat) (v : A) : Prop := {
  ck_height : vheight v = Height h;
  ck_round : vround v = Round h;
  ck_signed : exists msg, signBytes v = Ok msg /\
    Verify (peersVerifier peers) (GetSignature v) msg (Z.of_nat i) = Ok true
}.
Definition checkedPrevote := checked Prevote.Height Prevote.Round Prevote.SignBytes.
Definition checkedPrecommit := checked Precommit.Height Precommit.Round Precommit.SignBytes.

(** A step is only entered with what it needs. *)
Definition stepsOk (h : t) : Prop :=
  (RoundStepPropose <= PassStep h -> is_Some (Proposal h)) /\
  (RoundStepPrevote <= PassStep h -> VoteSet.HasMaj23 (Prevotes h) = true) /\
  (RoundStepPrecommit <= PassStep h -> VoteSet.HasMaj23 (Precommits h) = true).

Record inv (h : t) : Prop := {
  i_info : ShardInfo h = si;
  i_my : MyChainID h = my;
  i_val : AllValidatorSet h !! my = Some (peersVerifier peers);
  i_votes : default 0 (ShardVotes h !! my) = allVotes peers;
  i_prevotes : wf peers (Prevotes h);
  i_precommits : wf peers (Precommits h);
  i_checkedPrevotes i v : slot (Prevotes h) i = Some v -> checkedPrevote h i v;
  i_checked i v : slot (Precommits h) i = Some v -> checkedPrecommit h i v;
  i_typed i v : slot (Precommits h) i = Some v -> Precommit.VoteType v = VoteTypePrecommit;
  i_proposal p : Proposal h = Some p ->
    PartSetHeader.Height (Proposal.Header p) = Height h /\ PartSetHeader.Round (Proposal.Header p) = Round h;
  i_steps : stepsOk h
}.

Lemma peersVotes_sum : peersVotes peers = allVotes peers.
Proof.
  unfold peersVotes, allVotes. assert (forall l acc, fold_left
    (fun totalVotes peer => totalVotes + Peer.Vote peer) l acc = acc + zsum (map Peer.Vote l)) as ->; [|lia].
  intros l. induction l as [|p l IH]; intros acc; cbn [fold_left map]; [cbn; lia|]. rewrite IH, zsum_cons. lia.
Qed.

Lemma verifier_length : zlen (peersVerifier peers) = zlen peers.
Proof. unfold peersVerifier, NewVerifier. by rewrite !length_map. Qed.

Lemma peersOf_mine h : inv h -> peersOf h (MyChainID h) = peers.
Proof. intros I. unfold peersOf. by rewrite (i_info h I), (i_my h I), (v_peers Hv). Qed.
Lemma myVerifier_mine h : inv h -> myVerifier h = Ok (peersVerifier peers).
Proof. intros I. unfold myVerifier. by rewrite (i_my h I), (i_val h I). Qed.

(** *** Starting a height *)

Record config (h : t) : Prop := {
  cf_info : ShardInfo h = si; cf_my : MyChainID h = my;
  cf_val : AllValidatorSet h !! my = Some (peersVerifier peers);
  cf_votes : default 0 (ShardVotes h !! my) = allVotes peers
}.

Lemma new_slot A (i : nat) : slot (VoteSet.NewVoteSet (A := A) (zlen peers) (allVotes peers)) i = None.
Proof.
  unfold slot. cbn. destruct (replicate _ _ !! i) as [o|] eqn:E; [|done]. by apply lookup_replicate in E as [-> _].
Qed.

Lemma newVotes_spec A h : config h ->
  newVotes (A := A) h = Ok (VoteSet.NewVoteSet (zlen peers) (allVotes peers)).
Proof.
  intros C. unfold newVotes, myVerifier. rewrite (cf_my h C), (cf_val h C), (cf_votes h C). cbn [deref gbind].
  unfold VerifierSize. rewrite verifier_length.
  assert (0 <= allVotes peers) by (apply zsum_nonneg, Forall_fmap, Hv). pose proof (v_bound Hv).
  by rewrite wrap_s_small by (unfold in_s; lia).
Qed.

Lemma clearAll_inv h h' : config h -> PassStep h = RoundStepNewHeight -> clearAll h = Ok h' -> inv h'.
Proof.
  intros C Ep. unfold clearAll, clearPrevote, clearPrecommit.
  rewrite newVotes_spec by (destruct C; by split). cbn [gbind].
  rewrite newVotes_spec by (destruct C; by split). cbn [gbind]. intros [= <-].
  split; cbn; [apply C..| | | | | |done|].
  1,2: by apply NewVoteSet_wf, Hv.
  1-3: intros i v; by rewrite new_slot.
  split_and!; cbn; rewrite Ep; unfold RoundStepPropose, RoundStepPrevote, RoundStepPrecommit, RoundStepNewHeight; lia.
Qed.

Lemma inv_config h : inv h -> config h.
Proof. intros I. split; apply I. Qed.

(** *** The frame of the handlers that do not touch the votes *)

Definition sameVotes (h h' : t) : Prop :=
  ShardInfo h' = ShardInfo h /\ MyChainID h' = MyChainID h /\ AllValidatorSet h' = AllValidatorSet h /\
  ShardVotes h' = ShardVotes h /\ Height h' = Height h /\ Round h' = Round h /\
  Prevotes h' = Prevotes h /\ Precommits h' = Precommits h.

Lemma sameVotes_refl h : sameVotes h h.
Proof. by split_and!. Qed.
Lemma sameVotes_trans h1 h2 h3 : sameVotes h1 h2 -> sameVotes h2 h3 -> sameVotes h1 h3.
Proof. unfold sameVotes. intros. destruct_and!. split_and!; congruence. Qed.

Lemma sameVotes_inv h h' : inv h -> sameVotes h h' ->
  (forall p, Proposal h' = Some p ->
    PartSetHeader.Height (Proposal.Header p) = Height h /\ PartSetHeader.Round (Proposal.Header p) = Round h) ->
  stepsOk h' -> inv h'.
Proof.
  intros I (E1 & E2 & E3 & E4 & E5 & E6 & E7 & E8) Hp Hs'.
  split; rewrite ?E1, ?E2, ?E3, ?E4, ?E7, ?E8; try apply I; try exact Hs'.
  - intros i v Hs. destruct (i_checkedPrevotes h I i v Hs). split; [by rewrite E5|by rewrite E6|done].
  - intros i v Hs. destruct (i_checked h I i v Hs). split; [by rewrite E5|by rewrite E6|done].
  - intros p Ep. rewrite E5, E6. by apply Hp.
Qed.

Lemma AddPart_votes h p h' err : AddPart h p = Ok (h', err) ->
  sameVotes h h' /\ Proposal h' = Proposal h /\ PassStep h' = PassStep h.
Proof.
  unfold AddPart. destruct (_ || _); [by intros [= <- _]|]. destruct (negb _); [by intros [= <- _]|].
  destruct (PartSet h) as [ps|]; [|by intros [= <- _]]. intros ([ps' e] & _ & E)%gbind_Ok.
  destruct e as [[]|]; try by injection E as <- _.
  destruct (PartSet.IsComplete ps'); [|by injection E as <- _].
  apply gbind_Ok in E as ([b [e|]] & _ & E); by injection E as <- _.
Qed.

Lemma addBuffered_same h l h' : go_foldl (fun h part => let! '(h, _) := AddPart h part in Ok h) h l = Ok h' ->
  sameVotes h h' /\ Proposal h' = Proposal h /\ PassStep h' = PassStep h.
Proof.
  revert h. induction l as [|p l IH]; intros h; cbn [go_foldl]; [intros [= <-]; by split; [apply sameVotes_refl|]|].
  intros (h1 & ([h2 err] & E1 & [= <-])%gbind_Ok & E)%gbind_Ok. apply AddPart_votes in E1 as (S1 & P1 & Q1).
  destruct (IH _ E) as (S2 & P2 & Q2). split; [by eapply sameVotes_trans|split; congruence].
Qed.

Lemma AddProposal_same h p index h' err : AddProposal h p index = Ok (h', err) ->
  sameVotes h h' /\ PassStep h' = PassStep h /\ (Proposal h' = Proposal h \/ Proposal h' = Some p /\
    PartSetHeader.Height (Proposal.Header p) = Height h /\ PartSetHeader.Round (Proposal.Header p) = Round h).
Proof.
  assert (sameVotes h h /\ PassStep h = PassStep h /\ (Proposal h = Proposal h \/ Proposal h = Some p /\
    PartSetHeader.Height (Proposal.Header p) = Height h /\ PartSetHeader.Round (Proposal.Header p) = Round h)) as Hid
    by (split_and!; [apply sameVotes_refl..|done|by left]).
  unfold AddProposal. destruct (Proposal h) eqn:Ep; [intros [= <- _]; by rewrite Ep|].
  destruct (negb (Height h =? _) || _) eqn:Eh; [intros [= <- _]; by rewrite Ep|].
  apply orb_false_iff in Eh as [E1%negb_false_iff%Z.eqb_eq E2%negb_false_iff%Z.eqb_eq].
  destruct (negb _); [intros [= <- _]; by rewrite Ep|]. destruct (negb _); [intros [= <- _]; by rewrite Ep|].
  intros (val & _ & E)%gbind_Ok. apply gbind_Ok in E as (msg & _ & E). apply gbind_Ok in E as (valid & _ & E).
  destruct (negb valid); [injection E as <- _; by rewrite Ep|].
  apply gbind_Ok in E as (ps & _ & E). apply gbind_Ok in E as (h1 & E & [= <- _]).
  apply addBuffered_same in E as (S & P & Q). split; [exact S|]. split; [exact Q|]. right. by split; [rewrite P|].
Qed.

Lemma FinishProposal_same h h' b : FinishProposal h = Ok (h', b) -> stepsOk h ->
  sameVotes h h' /\ Proposal h' = Proposal h /\ stepsOk h' /\ (b = true -> RoundStepPropose <= PassStep h').
Proof.
  unfold FinishProposal. destruct (PassStep h >=? _) eqn:Es; rewrite Z.geb_leb in Es.
  { intros [= <- <-]. apply Z.leb_le in Es. done. }
  apply Z.leb_gt in Es. destruct (Proposal h) as [p|] eqn:Ep, (Block h); try by intros [= <- <-].
  intros (ps & _ & E)%gbind_Ok. destruct (negb _); injection E as <- <-; [done|]. intros _.
  split; [done|]. split; [done|]. split; [|done]. split; [intros _; by eexists|].
  split; cbn; unfold RoundStepPropose, RoundStepPrevote, RoundStepPrecommit; lia.
Qed.

Lemma FinishPrevote_same h h' b : FinishPrevote h = Ok (h', b) -> stepsOk h ->
  sameVotes h h' /\ Proposal h' = Proposal h /\ stepsOk h' /\ (b = true -> RoundStepPrevote <= PassStep h').
Proof.
  unfold FinishPrevote. destruct (PassStep h >=? _) eqn:Es; rewrite Z.geb_leb in Es.
  { intros [= <- <-]. apply Z.leb_le in Es. done. }
  intros ([h1 b1] & E1 & E)%gbind_Ok Hs. apply FinishProposal_same in E1 as (S & P & Q & R); [|done].
  destruct b1; [|by injection E as <- <-]. cbn [negb] in E.
  destruct (VoteSet.HasMaj23 (Prevotes h1)) eqn:Em; injection E as <- <-; [|done].
  split; [done|]. split; [done|]. split; [|done]. split; [intros _; by apply Q, R|].
  split; [done|]. cbn. unfold RoundStepPrevote, RoundStepPrecommit. lia.
Qed.

Lemma FinishPrecommit_same h h' b : FinishPrecommit h = Ok (h', b) -> stepsOk h ->
  sameVotes h h' /\ Proposal h' = Proposal h /\ stepsOk h' /\ (b = true -> RoundStepPrecommit <= PassStep h').
Proof.
  unfold FinishPrecommit. destruct (PassStep h >=? _) eqn:Es; rewrite Z.geb_leb in Es.
  { intros [= <- <-]. apply Z.leb_le in Es. done. }
  intros ([h1 b1] & E1 & E)%gbind_Ok Hs. apply FinishPrevote_same in E1 as (S & P & Q & R); [|done].
  destruct b1; [|by injection E as <- <-]. cbn [negb] in E.
  destruct (VoteSet.HasMaj23 (Precommits h1)) eqn:Em; injection E as <- <-; [|done].
  specialize (R eq_refl). destruct Q as (Q1 & Q2 & _).
  assert (RoundStepPropose <= PassStep h1) by (unfold RoundStepPropose, RoundStepPrevote in *; lia).
  split; [done|]. split; [done|]. split; [|done]. split; [intros _; by apply Q1|]. split; [intros _; by apply Q2|done].
Qed.

(** *** Votes *)

Lemma addVote_spec {A} `{Vote A} (vheight vround : A -> Z) (signBytes : A -> go bytes) (P : A -> Prop)
    h (vs : VoteSet.t A) p vs' err :
  inv h -> wf peers vs -> (forall i v, slot vs i = Some v -> checked vheight vround signBytes h i v /\ P v) -> P p ->
  addVote h vs p (vheight p) (vround p) (signBytes p) = Ok (vs', err) ->
  wf peers vs' /\ (forall i v, slot vs' i = Some v -> checked vheight vround signBytes h i v /\ P v) /\
  (VoteSet.HasMaj23 vs = true -> VoteSet.HasMaj23 vs' = true).
Proof.
  intros I W Hc HP. unfold addVote. destruct (negb (Height h =? _) || _) eqn:Eh; [by intros [= <- _]|].
  apply orb_false_iff in Eh as [E1%negb_false_iff%Z.eqb_eq E2%negb_false_iff%Z.eqb_eq].
  rewrite (myVerifier_mine h I), (peersOf_mine h I). cbn [gbind]. unfold VerifierSize. rewrite verifier_length.
  destruct ((GetIndex p <? 0) || _) eqn:Ei; [by intros [= <- _]|].
  apply orb_false_iff in Ei as [I1%Z.ltb_ge I2]. rewrite Z.geb_leb in I2. apply Z.leb_gt in I2.
  intros (msg & Em & E)%gbind_Ok. apply gbind_Ok in E as (valid & Ev & E).
  destruct valid; [|by injection E as <- _]. cbn [negb] in E. apply gbind_Ok in E as (peer & Ep & E).
  apply idx_Ok in Ep. assert (Peer.Vote peer = power peers (GetIndex p)) as Epow by (unfold power; by rewrite Ep).
  rewrite Epow in E. destruct (slot vs (Z.to_nat (GetIndex p))) as [raw|] eqn:Es.
  - rewrite (AddVote_seen peers vs p raw _ W ltac:(lia) Es) in E. by injection E as <- _.
  - destruct (AddVote_fresh peers (v_nonneg Hv) (v_bound Hv) vs p W ltac:(lia) Es) as (vs1 & E' & W' & Hs & Hm).
    rewrite E in E'. injection E' as <- _. split; [done|]. split; [|intros M; by apply Hm]. intros i v. rewrite Hs.
    destruct (Nat.eqb_spec i (Z.to_nat (GetIndex p))) as [->|]; [|by apply Hc]. intros [= <-]. split; [|done].
    split; [done|done|]. exists msg. by rewrite Z2Nat.id by lia.
Qed.

Lemma AddPrevote_inv h p h' err : inv h -> AddPrevote h p = Ok (h', err) -> inv h'.
Proof.
  intros I ([vs e] & E & [= <- _])%gbind_Ok.
  destruct (addVote_spec Prevote.Height Prevote.Round Prevote.SignBytes (fun _ => True) h _ p vs e I (i_prevotes h I))
    as (W & Hc & Hm); [intros i v Hs; split; [by apply I|done]|done|exact E|].
  split; cbn; [apply I..|done|apply I| | |apply I|apply I|].
  - intros i v Hs. by destruct (proj1 (Hc i v Hs)).
  - intros i v Hs. by destruct (i_checked h I i v Hs).
  - destruct (i_steps h I) as (S1 & S2 & S3). split_and!; [done|intros Hs; by apply Hm, S2|done].
Qed.

Lemma AddPrecommit_inv h p h' err : inv h -> Precommit.VoteType p = VoteTypePrecommit ->
  AddPrecommit h p = Ok (h', err) -> inv h'.
Proof.
  intros I HP ([vs e] & E & [= <- _])%gbind_Ok.
  destruct (addVote_spec Precommit.Height Precommit.Round Precommit.SignBytes
    (fun v => Precommit.VoteType v = VoteTypePrecommit) h _ p vs e I (i_precommits h I))
    as (W & Hc & Hm); [intros i v Hs; split; by eapply I|done|exact E|].
  split; cbn; [apply I..|done| | | |apply I|].
  - intros i v Hs. by destruct (i_checkedPrevotes h I i v Hs).
  - intros i v Hs. by destruct (proj1 (Hc i v Hs)).
  - intros i v Hs. by apply (Hc i v Hs).
  - destruct (i_steps h I) as (S1 & S2 & S3). split_and!; [done|done|intros Hs; by apply Hm, S3].
Qed.

Lemma steps_keep h h' : stepsOk h -> sameVotes h h' -> PassStep h' = PassStep h ->
  (is_Some (Proposal h) -> is_Some (Proposal h')) -> stepsOk h'.
Proof.
  intros (S1 & S2 & S3) (_ & _ & _ & _ & _ & _ & E7 & E8) EP Hp. unfold stepsOk. rewrite EP, E7, E8. naive_solver.
Qed.

Lemma finish_inv h h' (Q : Prop) : inv h ->
  sameVotes h h' /\ Proposal h' = Proposal h /\ stepsOk h' /\ Q -> inv h'.
Proof. intros I (S & P & St & _). apply (sameVotes_inv h); [done|done| |done]. rewrite P. apply I. Qed.

Lemma reachable_inv h : reachable h -> inv h.
Proof.
  induction 1 as [height h E|h h' _ I E|h p h' err _ I E|h p index h' err _ I E|h p h' err _ I E|h p h' err _ I HT E
    |h h' b _ I E|h h' b _ I E|h h' b _ I E|h p ps b _ I E1 E2|h b _ I].
  - unfold NewHeightData in E. apply gbind_Ok in E as (h1 & E & [= <-]). apply clearAll_inv in E as I; [|split|done].
    + eapply sameVotes_inv; [exact I|by split_and!|apply I|apply I].
    + done.
    + done.
    + cbn. by rewrite lookup_fmap, (v_peers Hv).
    + cbn. rewrite lookup_fmap, (v_peers Hv). cbn. apply peersVotes_sum.
  - apply clearAll_inv in E; [done| |done]. destruct (inv_config h I). by split.
  - apply AddPart_votes in E as (S & P & Q). apply (sameVotes_inv h); [done..| |].
    + rewrite P. apply I.
    + apply (steps_keep h); [apply I|done..|]. by rewrite P.
  - apply AddProposal_same in E as (S & Q & P). apply (sameVotes_inv h); [done..| |].
    + destruct P as [P|[P Hp]]; rewrite P; [apply I|by intros ? [= <-]].
    + apply (steps_keep h); [apply I|done..|]. by destruct P as [->|[-> _]].
  - by eapply AddPrevote_inv.
  - by eapply AddPrecommit_inv.
  - eapply (finish_inv h); [done..|]. by eapply FinishProposal_same, I.
  - eapply (finish_inv h); [done..|]. by eapply FinishPrevote_same, I.
  - eapply (finish_inv h); [done..|]. by eapply FinishPrecommit_same, I.
  - apply (sameVotes_inv h); [done|by split_and!|by intros ? [= <-]|].
    apply (steps_keep h); [apply I|by split_and!|done|done].
  - apply (sameVotes_inv h); [done|by split_and!|apply I|]. apply (steps_keep h); [apply I|by split_and!|done|done].
Qed.

(** ** Agreement within a shard *)

(** C7: two nodes of a shard that have a majority of precommits at a height have
    it for the same block and the same verdict, unless validators with more than a
    third of the voting power each signed two different precommits of that
    height. *)
Theorem verdict_agreement h1 h2 : reachable h1 -> reachable h2 -> Height h1 = Height h2 ->
  VoteSet.HasMaj23 (Precommits h1) = true -> VoteSet.HasMaj23 (Precommits h2) = true ->
  VoteSet.GetMaj23 (Precommits h1) = VoteSet.GetMaj23 (Precommits h2) \/
  exists both, NoDup both /\ allVotes peers < 3 * powerOf peers (map Z.of_nat both) /\
    forall i, i ∈ both -> exists v1 v2, checkedPrecommit h1 i v1 /\ checkedPrecommit h2 i v2 /\
      Precommit.Height v1 = Precommit.Height v2 /\
      (Precommit.BlockHeaderHash v1, Precommit.IsOK v1) <> (Precommit.BlockHeaderHash v2, Precommit.IsOK v2).
Proof.
  intros I1%reachable_inv I2%reachable_inv EH M1 M2.
  destruct (majorities_overlap peers (v_nonneg Hv) _ _ (i_precommits h1 I1) (i_precommits h2 I2) M1 M2)
    as [E|(both & Hnd & Hp & Hb)]; [by left|right].
  exists both. split; [done|]. split; [done|]. intros i Hi. destruct (Hb i Hi) as (v1 & v2 & S1 & S2 & Hne).
  pose proof (i_checked h1 I1 i v1 S1) as C1. pose proof (i_checked h2 I2 i v2 S2) as C2.
  exists v1, v2. split; [done|]. split; [done|]. split; [|done]. rewrite (ck_height _ _ _ _ _ _ C1), EH.
  by rewrite (ck_height _ _ _ _ _ _ C2).
Qed.

(** ** The certificate for the other shards *)

(** What the counted refusals say; an approval can only say [CodeTypeOK]. *)
Definition plainRefusals (h : t) : Prop := forall i v, slot (Precommits h) i = Some v ->
  Precommit.IsOK v = false -> Precommit.Code v = CodeTypeAbort.

Lemma precommit_message h p i v : inv h -> plainRefusals h -> Proposal h = Some p -> slot (Precommits h) i = Some v ->
  castFor (VoteSet.mj23_key (Precommits h)) (VoteSet.mj23_code (Precommits h)) v = true ->
  Precommit.SignBytes v = Precommit.SignBytes (PrecommitAggregated.Precommit_
    (SetCode (PrecommitAggregated.mk VoteTypePrecommitAggregated CodeTypeOK None (Proposal.Header p)
       (VoteSet.mj23_key (Precommits h)) "") (VoteSet.mj23_code (Precommits h)))).
Proof.
  intros I Hp Ep Hs Hc. unfold castFor in Hc. apply andb_true_iff in Hc as [E1%bool_decide_eq_true E2%eqb_prop].
  destruct (i_proposal h I p Ep) as [E3 E4]. pose proof (i_checked h I i v Hs) as C.
  pose proof (i_typed h I i v Hs) as E5. pose proof (ck_height _ _ _ _ _ _ C) as E6.
  pose proof (ck_round _ _ _ _ _ _ C) as E7.
  assert (Precommit.Code v = if VoteSet.mj23_code (Precommits h) then CodeTypeOK else CodeTypeAbort) as E8.
  { change (IsOK v) with (Precommit.IsOK v) in E2. rewrite <- E2. destruct (Precommit.IsOK v) eqn:Eok.
    - by apply Z.eqb_eq in Eok.
    - by eapply Hp. }
  change (GetBlockHeaderHash v) with (Precommit.BlockHeaderHash v) in E1.
  unfold Precommit.SignBytes, PrecommitAggregated.Precommit_, SetCode. cbn. by rewrite E5, E6, E7, E8, E1, E3, E4.
Qed.

(** C8: when the precommit step of a node is finished, the aggregate it sends to
    other shards is made without an error, says the verdict and the hash of the
    majority and carries more than two thirds of the voting power. Provided every
    refusal that is counted has the code of a refusal, it verifies with the keys
    every other shard has of this one exactly when the keys of its signers do not
    add up to the identity. *)
Theorem certificate_verifies `{!BLSLaws} h h' : reachable h -> plainRefusals h -> FinishPrecommit h = Ok (h', true) ->
  let '(hash, ok) := VoteSet.GetMaj23 (Precommits h') in
  exists agg bv p, Proposal h' = Some p /\ GenerateAggregatePrecommitSignature h' = Ok agg /\
    PrecommitAggregated.BlockHeaderHash agg = hash /\ PrecommitAggregated.IsOK agg = ok /\
    PrecommitAggregated.Header agg = Proposal.Header p /\
    PrecommitAggregated.ValidatorBitVector agg = Some bv /\ 2 * allVotes peers < 3 * votesOf bv peers /\
    exists valid, PrecommitAggregated.VerifySignatures agg (AllValidatorSet h' !! my)
      (BV.Byte (PrecommitAggregated.ValidatorBitVector agg)) = Ok valid /\
      (valid = true <-> aggregateKey (peersVerifier peers) bv <> pkZero).
Proof.
  intros Hr Hpl E. destruct (FinishPrecommit_same h h' true E (i_steps h (reachable_inv h Hr))) as (S & _ & St & Hge).
  assert (plainRefusals h') as Hpl' by (destruct S as (_ & _ & _ & _ & _ & _ & _ & E8); unfold plainRefusals; by rewrite E8).
  pose proof (reachable_inv h' (r_finishPrecommit _ _ _ Hr E)) as I. clear S E Hpl Hr.
  destruct St as (S1 & _ & S3). specialize (Hge eq_refl). pose proof (S3 Hge) as Hm.
  destruct S1 as [p Ep]; [unfold RoundStepPropose, RoundStepPrecommit in *; lia|].
  pose proof (precommit_message h' p) as Hmsg. unfold VoteSet.GetMaj23.
  set (key := VoteSet.mj23_key (Precommits h')) in *. set (code := VoteSet.mj23_code (Precommits h')) in *.
  set (pc := PrecommitAggregated.Precommit_ _) in Hmsg.
  assert (exists i v msg, slot (Precommits h') i = Some v /\ castFor key code v = true /\ Precommit.SignBytes v = Ok msg)
    as (i & v & msg & Hs & Hc & Emsg).
  { pose proof (vs_maj peers _ (i_precommits h' I) Hm) as Ht. unfold twoThirds, powerFor in Ht. fold key code in Ht.
    destruct (voters peers (Precommits h') key code) as [|i l] eqn:El.
    - change (powerOf _ _) with 0 in Ht.
      assert (0 <= allVotes peers) by (apply zsum_nonneg, Forall_fmap, Hv). lia.
    - assert (i ∈ voters peers (Precommits h') key code) as [Hi _]%list_elem_of_filter by (rewrite El; constructor).
      unfold cast in Hi. destruct (slot _ i) as [v|] eqn:Es; [|done].
      destruct (ck_signed _ _ _ _ _ _ (i_checked h' I i v Es)) as (msg & Em & _). by exists i, v, msg. }
  destruct (AggreSig_spec peers (v_nonneg Hv) (v_bound Hv) (Precommits h') (peersVerifier peers) msg)
    as (sig & bv & Es & Hwf & HB & Hp & valid & Hver & Hvalid).
  - apply I.
  - done.
  - pose proof verifier_length. lia.
  - intros j w Hj Hcw. destruct (ck_signed _ _ _ _ _ _ (i_checked h' I j w Hj)) as (msg' & Em & Ev).
    rewrite (Hmsg j w I Hpl' Ep Hj Hcw), <- (Hmsg i v I Hpl' Ep Hs Hc), Emsg in Em. by injection Em as <-.
  - unfold GenerateAggregatePrecommitSignature, VoteSet.GetMaj23. fold key code. rewrite Es, Ep. cbn [gbind deref].
    unfold PrecommitAggregated.NewPrecommitAggregated. rewrite BV.decode_Byte by done. cbn [gbind].
    eexists _, bv, p. split; [done|]. split; [done|]. split; [done|]. split; [by destruct code|].
    split; [done|]. split; [done|]. split; [done|]. exists valid. split; [|exact Hvalid].
    unfold PrecommitAggregated.VerifySignatures. rewrite (i_val h' I). rewrite (Hmsg i v I Hpl' Ep Hs Hc) in Emsg. unfold pc, PrecommitAggregated.Precommit_ in Emsg.
    unfold PrecommitAggregated.Precommit_. cbn in Emsg |- *. rewrite Emsg. cbn [gbind]. exact Hver.
Qed.
End heightspec.

(** ** A concrete height *)

Module PyramidHeightDemo.
Import DemoHash Demo SignerDemo VotesDemo PartSetDemo.
Local Open Scope string_scope.

Definition my : string := "shard-1".
Definition si : PyramidShardInfo.t := PyramidShardInfo.mk {[my := peers]} {["upper" := true]} ∅ BLOCKTYPE_I ∅.
#[local] Existing Instance Demo.blockCodec.
Definition sent : PartSet.t := snd (valueOf (Demo.block, PartSetDemo.sent) (PyramidPartSet.PartSetFromBlock Demo.block 12 0)).
Definition partOf (i : nat) : Part.t := default (Part.mk "" 0 0 [] None) (mjoin (PartSet.Parts sent !! i)).
Definition hash : bytes := PartSet.BlockHeaderHash sent.

Definition unsigned : Proposal.t := Proposal.NewProposal (PartSet.Header sent) 0 hash.
Definition proposalTable : list (pbProposal * bytes) := [(Proposal.ToProto unsigned, of_str "proposal")].
Lemma proposalTexts : NoDup proposalTable.*2.
Proof. apply (bool_decide_unpack _). vm_compute. exact I. Qed.
Definition proposalCodec : Codec pbProposal := tableCodec proposalTable proposalTexts.
Definition voteMsg (vt code : Z) : pbVote := mkpbVote vt (-1) 7 0 code hash "".
(** The last vote has a code that is neither. *)
Definition voteTable : list (pbVote * bytes) :=
  [(voteMsg VoteTypePrevote CodeTypeOK, of_str "prevote"); (voteMsg VoteTypePrecommit CodeTypeOK, of_str "precommit");
   (voteMsg VoteTypePrecommit CodeTypeAbort, of_str "abort"); (voteMsg VoteTypePrecommit 7, of_str "odd")].
Lemma voteTexts : NoDup voteTable.*2.
Proof. apply (bool_decide_unpack _). vm_compute. exact I. Qed.
Definition voteCodec : Codec pbVote := tableCodec voteTable voteTexts.
#[local] Existing Instance proposalCodec.
#[local] Existing Instance voteCodec.

Definition sign (i : nat) (s : string) : string := Sign_ (S i : Signer) (of_str s).
Definition proposal : Proposal.t := Proposal.setSignature unsigned (sign 0 "proposal").
Definition prevote (i : nat) : Prevote.t :=
  Prevote.setSignature (Prevote.NewPrevote 7 0 hash (Z.of_nat i)) (sign i "prevote").
Definition precommit (code : Z) (text : string) (i : nat) : Precommit.t :=
  Precommit.mk VoteTypePrecommit code 7 0 hash (sign i text) (Z.of_nat i).
Definition approvals : list Precommit.t := map (precommit CodeTypeOK "precommit") [0; 1; 2]%nat.
Definition refusals : list Precommit.t := map (precommit CodeTypeAbort "abort") [0; 1; 2]%nat.
Definition oddRefusals : list Precommit.t := map (precommit CodeTypeAbort "abort") [0; 1]%nat ++ [precommit 7 "odd" 2].

Lemma demo_valid : validShard my si peers.
Proof. split; [reflexivity|by repeat constructor|reflexivity]. Qed.

Definition after (f : PyramidHeight.t -> go (PyramidHeight.t * option goerr)) (h : PyramidHeight.t) : PyramidHeight.t :=
  match f h with Ok (h', _) => h' | _ => h end.
Definition start : PyramidHeight.t :=
  valueOf (PyramidHeight.mk 0 0 "" 0 si ∅ ∅ None noVotes noVotes None None []) (NewHeightData my 7 si).
(** A part arrives before the proposal. *)
Definition collected : PyramidHeight.t :=
  fold_left (fun h f => after f h)
    ([(fun h => AddPart h (partOf 2)); (fun h => AddPrevote h (prevote 1)); (fun h => AddProposal h proposal 0);
      (fun h => AddPart h (partOf 0)); (fun h => AddPart h (partOf 1));
      (fun h => AddPrevote h (prevote 0)); (fun h => AddPrevote h (prevote 2))]) start.
Definition voted (votes : list Precommit.t) : PyramidHeight.t :=
  fold_left (fun h v => after (fun h => AddPrecommit h v) h) votes collected.
Definition finished (h : PyramidHeight.t) : PyramidHeight.t := fst (valueOf (h, false) (FinishPrecommit h)).

Example approved : VoteSet.GetMaj23 (Precommits (voted approvals)) = (hash, true).
Proof. vm_compute. reflexivity. Qed.
Example refused : VoteSet.GetMaj23 (Precommits (voted refusals)) = (hash, false).
Proof. vm_compute. reflexivity. Qed.
(** A refusal with another code is counted, and spoils the aggregate. *)
Example odd_refusal_spoils :
  VoteSet.GetMaj23 (Precommits (voted oddRefusals)) = (hash, false) /\
  (let! agg := GenerateAggregatePrecommitSignature (finished (voted oddRefusals)) in
   PrecommitAggregated.VerifySignatures agg (Some (peersVerifier peers))
     (BV.Byte (PrecommitAggregated.ValidatorBitVector agg))) = Ok false.
Proof. vm_compute. split; reflexivity. Qed.

Lemma after_keeps f h : (forall h' err, f h = Ok (h', err) -> reachable my si h') -> reachable my si h ->
  reachable my si (after f h).
Proof. intros Hf Hr. unfold after. destruct (f h) as [[h' err]| |]; [by eapply Hf|done..]. Qed.
Lemma after_part p h : reachable my si h -> reachable my si (after (fun h => AddPart h p) h).
Proof. intros Hr. apply after_keeps; [|done]. intros h' err E. exact (r_part _ _ _ _ _ _ Hr E). Qed.
Lemma after_proposal p index h : reachable my si h -> reachable my si (after (fun h => AddProposal h p index) h).
Proof. intros Hr. apply after_keeps; [|done]. intros h' err E. exact (r_proposal _ _ _ _ _ _ _ Hr E). Qed.
Lemma after_prevote p h : reachable my si h -> reachable my si (after (fun h => AddPrevote h p) h).
Proof. intros Hr. apply after_keeps; [|done]. intros h' err E. exact (r_prevote _ _ _ _ _ _ Hr E). Qed.
Lemma after_precommit p h : Precommit.VoteType p = VoteTypePrecommit -> reachable my si h ->
  reachable my si (after (fun h => AddPrecommit h p) h).
Proof. intros HT Hr. apply after_keeps; [|done]. intros h' err E. exact (r_precommit _ _ _ _ _ _ Hr HT E). Qed.

Lemma messages_reachable : reachable my si collected.
Proof.
  unfold collected. cbn [fold_left].
  apply after_prevote, after_prevote, after_part, after_part, after_proposal, after_prevote, after_part.
  apply (r_new my si 7). vm_compute. reflexivity.
Qed.

Lemma votes_reachable votes : Forall (fun v => Precommit.VoteType v = VoteTypePrecommit) votes ->
  reachable my si (voted votes).
Proof.
  unfold voted. pose proof messages_reachable as Hc. revert Hc. generalize collected as h. intros h Hr Hv. revert h Hr.
  induction Hv as [|v votes HT _ IH]; intros h Hr; [done|]. cbn [fold_left]. by apply IH, after_precommit.
Qed.
Lemma refusals_reachable : reachable my si (voted refusals).
Proof. apply votes_reachable. by repeat constructor. Qed.
Lemma approvals_reachable : reachable my si (voted approvals).
Proof. apply votes_reachable. by repeat constructor. Qed.
Lemma refusals_plain : plainRefusals (voted refusals).
Proof.
  intros i v. unfold slot.
  assert (VoteSet.votes (Precommits (voted refusals)) = map Some refusals) as -> by (vm_compute; reflexivity).
  intros E. destruct (map Some refusals !! i) as [o|] eqn:El; [|done]. cbn in E. subst o.
  do 3 (destruct i as [|i]; [by injection El as <-|]). done.
Qed.

(** A certificate of a refusal. *)
Lemma certificate_verifies_witness :
  exists agg bv p, Proposal (finished (voted refusals)) = Some p /\
    GenerateAggregatePrecommitSignature (finished (voted refusals)) = Ok agg /\
    PrecommitAggregated.BlockHeaderHash agg = hash /\ PrecommitAggregated.IsOK agg = false /\
    PrecommitAggregated.Header agg = Proposal.Header p /\
    PrecommitAggregated.ValidatorBitVector agg = Some bv /\ 2 * allVotes peers < 3 * votesOf bv peers /\
    PrecommitAggregated.VerifySignatures agg (AllValidatorSet (finished (voted refusals)) !! my)
      (BV.Byte (PrecommitAggregated.ValidatorBitVector agg)) = Ok true.
Proof.
  assert (FinishPrecommit (voted refusals) = Ok (finished (voted refusals), true)) as E by (vm_compute; reflexivity).
  pose proof (certificate_verifies my si peers demo_valid (voted refusals) (finished (voted refusals))
    refusals_reachable refusals_plain E) as T.
  assert (VoteSet.GetMaj23 (Precommits (finished (voted refusals))) = (hash, false)) as M by (vm_compute; reflexivity).
  rewrite M in T. destruct T as (agg & bv & p & E1 & E2 & E3 & E4 & E5 & E6 & Hq & valid & Ev & Hvalid).
  exists agg, bv, p. split; [exact E1|]. split; [exact E2|]. split; [exact E3|]. split; [exact E4|]. split; [exact E5|].
  split; [exact E6|]. split; [exact Hq|]. rewrite Ev. f_equal. apply Hvalid. vm_compute in E2. injection E2 as <-.
  injection E6 as <-. vm_compute. discriminate.
Defined.

(** The validators that sign an approval and a refusal. *)
Lemma verdict_agreement_witness :
  VoteSet.GetMaj23 (Precommits (voted approvals)) = VoteSet.GetMaj23 (Precommits (voted refusals)) \/
  exists both, NoDup both /\ allVotes peers < 3 * powerOf peers (map Z.of_nat both) /\
    forall i, i ∈ both -> exists v1 v2, checkedPrecommit peers (voted approvals) i v1 /\
      checkedPrecommit peers (voted refusals) i v2 /\ Precommit.Height v1 = Precommit.Height v2 /\
      (Precommit.BlockHeaderHash v1, Precommit.IsOK v1) <> (Precommit.BlockHeaderHash v2, Precommit.IsOK v2).
Proof.
  refine (verdict_agreement my si peers demo_valid (voted approvals) (voted refusals)
    approvals_reachable refusals_reachable _ _ _); vm_compute; reflexivity.
Defined.
End PyramidHeightDemo.
