(* ===== verification/PyramidConsensus.v ===== *)
(** * The consensus state machine of the comparison protocols:
    [pyramid/consensus/main.go] over [pyramid/definition]

    The shards run a two-phase commit. A B shard decides on a cross-shard block
    and sends it to its I shards ([CrossShard]); each of them decides on its vote
    ([IAcceptBlock]) and answers with the certificate ([MessageAccept]); with all
    the answers the B shard decides the outcome ([BCommitBlock]) and sends it
    ([MessageCommit]), which the I shards apply ([ICommitBlock]). I shards send
    every block to their B shards, which follow their state and let them go on
    with [MessageOK]. [rapid/consensus/main.go] only differs in its log. *)

From S2P Require Import Prelude BitVector Convert Hash Merkle Wire Types PyramidTypes.
From S2P Require Import PartSet Signer Votes Store HeightData Consensus Bank PyramidVotes PyramidHeight.
Local Open Scope Z_scope.

(** ** [pyramid/definition] *)

Module PyramidDefinition.
(** [message.go] *)
Definition Part : Z := 1.
Definition TendermintProposal : Z := 4.
Definition TendermintPrevote : Z := 5.
Definition TendermintPrecommit : Z := 6.
Definition MessageAccept : Z := 8.
Definition MessageCommit : Z := 9.
Definition MessageOK : Z := 10.
Definition CrossShardBlock : Z := 11.

(** The receipts of an execution and its three counters. *)
Definition Response : Type := ExecutionResponse * (Z * Z * Z).

(** [module.go]: a method may panic, [None]. The application works on the block
    store of the consensus, which it is given and returns; a block that it hashes
    changes. *)
Class ABCIConn `{DB} := {
  App : Type;
  CheckLock : App -> Txs.Tx -> option bool;
  PreExecutionB : App -> Block.t -> option ABCIPreExecutionResponseB;
  PreExecutionI : App -> Block.t -> option PreExecutionResponseI;
  ExecutionInnerShard : App -> Database -> Block.t -> option (App * Database * Block.t * Response);
  AcceptCrossShard : App -> Database -> Block.t -> string -> bool -> option (App * Database * Block.t * Response);
  AcceptCommitShard : App -> Database -> list bytes -> list bool -> string -> option (App * Response);
  AppCommit : App -> bytes;
  FillData : App -> Block.t -> option Block.t
}.

(** A mempool asks the application for locked keys. The statuses of an update are
    nil or bytes. *)
Class MempoolConn `{ABCIConn} := {
  Pool : Type;
  ReapTx : Pool -> App -> Z -> option (Txs.t * Z * option goerr);
  Update : Pool -> Txs.t -> option bytes -> option (Pool * option goerr)
}.

(** What is not determined by the state: the n-th reading of the clock, the order
    of the n-th loop over a map, and the n-th random number. *)
Class Env := {
  Now : nat -> Time;
  shuffle : forall A, nat -> list A -> list A;
  Intn : nat -> Z -> Z;
  shuffle_perm A n (l : list A) : shuffle A n l ≡ₚ l;
  Intn_range n b : 0 < b -> 0 <= Intn n b < b
}.
End PyramidDefinition.

Module PyramidConsensus.
Import PyramidDefinition.

(** A message of the consensus channel. *)
Inductive Msg :=
| MPart (m : Part.t)
| MProposal (m : Proposal.t)
| MPrevote (m : Prevote.t)
| MPrecommit (m : Precommit.t)
| MCrossShardBlock (m : CrossShardBlock.t)
| MMessageAccept (m : MessageAccept.t)
| MMessageCommit (m : MessageCommit.t)
| MMessageOK (m : MessageOK.t).

Section consensus.
Context `{Hash, StdTime, BLS, DB, !ABCIConn, !MempoolConn, Env}.
Context `{!Codec pbBlock, !Codec pbProposal, !Codec pbVote, !Codec pbPart, !Codec PyramidReceipt.pbReceipt,
          !Codec pbCrossShardBlock, !Codec pbMessageAccept, !Codec pbMessageAcceptSet, !Codec pbMessageCommit,
          !Codec pbMessageOK}.

(** ** State

    The fields that never change are in [Config]; the fields of the two-phase
    commit are in [CrossState], those of an I shard first. *)
Record Config := mkConfig {
  signer : Signer; signerIndex : Z; MinBlockInterval : Z; MaxPartSize : Z; maxBlockTxNum : Z }.

Record ChainState := mkChain {
  LastBlockTime : Time; LastBlockHash : bytes; LastReceiptRoot : bytes; LastStateRoot : bytes; BlockHash : bytes }.

Record CrossState := mkCross {
  crossShardBlockPool : gmap bytes CrossShardBlock.t; commitPool : gmap bytes MessageCommit.t;
  committed : gmap bytes bool; bcount : Z; bseen : option (gmap string bool);
  pendingCrossShardBlockHash : bytes; pendingBlockSize : Z; maCount : Z;
  maPool : option (gmap string MessageAccept.t); shardHeight : gmap string Z }.

Record World := mkWorld {
  abci : App; mempool : Pool; cross_shard_mempool : Pool; store : Database;
  outbox : list Sent; ticks : nat }.

Record t := mk {
  Height : Z; Round : Z; Step : Z; heightDatas : PyramidHeight.t;
  relayMessageChannel : gmap Z (gmap Z (list Msg));
  chain : ChainState; cross : CrossState; world : World }.

Definition setStep (s : t) (st : Z) : t :=
  mk (Height s) (Round s) st (heightDatas s) (relayMessageChannel s) (chain s) (cross s) (world s).
Definition setData (s : t) (h : PyramidHeight.t) : t :=
  mk (Height s) (Round s) (Step s) h (relayMessageChannel s) (chain s) (cross s) (world s).
Definition setRelay (s : t) (r : gmap Z (gmap Z (list Msg))) : t :=
  mk (Height s) (Round s) (Step s) (heightDatas s) r (chain s) (cross s) (world s).
Definition setChain (s : t) (c : ChainState) : t :=
  mk (Height s) (Round s) (Step s) (heightDatas s) (relayMessageChannel s) c (cross s) (world s).
Definition setCross (s : t) (c : CrossState) : t :=
  mk (Height s) (Round s) (Step s) (heightDatas s) (relayMessageChannel s) (chain s) c (world s).
Definition setWorld (s : t) (w : World) : t :=
  mk (Height s) (Round s) (Step s) (heightDatas s) (relayMessageChannel s) (chain s) (cross s) w.

Definition setMempool (s : t) (p : Pool) : t :=
  let w := world s in
  setWorld s (mkWorld (abci w) p (cross_shard_mempool w) (store w) (outbox w) (ticks w)).
Definition setCrossMempool (s : t) (p : Pool) : t :=
  let w := world s in
  setWorld s (mkWorld (abci w) (mempool w) p (store w) (outbox w) (ticks w)).
(** The application and the store that it shares with the consensus. *)
Definition setApp (s : t) (a : App) (d : Database) : t :=
  let w := world s in
  setWorld s (mkWorld a (mempool w) (cross_shard_mempool w) d (outbox w) (ticks w)).
Definition setStore (s : t) (d : Database) : t := setApp s (abci (world s)) d.
Definition send (s : t) (l : list Sent) : t :=
  let w := world s in
  setWorld s (mkWorld (abci w) (mempool w) (cross_shard_mempool w) (store w) (outbox w ++ l) (ticks w)).
Definition tick (s : t) : t :=
  let w := world s in
  setWorld s (mkWorld (abci w) (mempool w) (cross_shard_mempool w) (store w) (outbox w) (S (ticks w))).

Definition setBlockHash (s : t) (hs : bytes) : t :=
  let c := chain s in
  setChain s (mkChain (LastBlockTime c) (LastBlockHash c) (LastReceiptRoot c) (LastStateRoot c) hs).

(** The fields of an I shard. *)
Definition setPools (c : CrossState) (blocks : gmap bytes CrossShardBlock.t) (commits : gmap bytes MessageCommit.t)
    (done : gmap bytes bool) : CrossState :=
  mkCross blocks commits done (bcount c) (bseen c) (pendingCrossShardBlockHash c) (pendingBlockSize c)
    (maCount c) (maPool c) (shardHeight c).
Definition setCount (c : CrossState) (n : Z) (seen : option (gmap string bool)) : CrossState :=
  mkCross (crossShardBlockPool c) (commitPool c) (committed c) n seen (pendingCrossShardBlockHash c)
    (pendingBlockSize c) (maCount c) (maPool c) (shardHeight c).
(** The fields of a B shard. *)
Definition setPending (c : CrossState) (hs : bytes) (size n : Z) (pool : option (gmap string MessageAccept.t)) :
    CrossState :=
  mkCross (crossShardBlockPool c) (commitPool c) (committed c) (bcount c) (bseen c) hs size n pool (shardHeight c).
Definition setShardHeight (c : CrossState) (hs : gmap string Z) : CrossState :=
  mkCross (crossShardBlockPool c) (commitPool c) (committed c) (bcount c) (bseen c)
    (pendingCrossShardBlockHash c) (pendingBlockSize c) (maCount c) (maPool c) hs.

Definition IsIShard (s : t) : bool := PyramidHeight.IsIShard (heightDatas s).
Definition IsBShard (s : t) : bool := PyramidHeight.IsBShard (heightDatas s).
Definition myID (s : t) : string := PyramidHeight.MyChainID (heightDatas s).
Definition shardInfo (s : t) : PyramidShardInfo.t := PyramidHeight.ShardInfo (heightDatas s).
Definition related (s : t) : list string := PyramidShardInfo.related (shardInfo s).
Definition isRelated (s : t) (shard : string) : bool := PyramidShardInfo.isRelated (shardInfo s) shard.

Variable cfg : Config.

Definition NewConsensusState (chain_id : string) (si : PyramidShardInfo.t)
    (a : App) (mp cmp : Pool) (d : Database) : go t :=
  let! h := PyramidHeight.NewHeightData chain_id 0 si in
  Ok (mk 0 0 RoundStepNewHeight h ∅ (mkChain (Now 0) [] [] [] [])
        (mkCross ∅ ∅ ∅ 0 None [] 0 (-1) None ∅) (mkWorld a mp cmp d [] 1)).

(** ** Proposer *)

Definition calculateProposer (s : t) : go Z :=
  let! val := deref (PyramidHeight.AllValidatorSet (heightDatas s) !! myID s) in
  Consensus.goRem (i64 (Height s + Round s)) (VerifierSize val).
Definition isProposer (s : t) : go bool :=
  let! p := calculateProposer s in Ok (p =? signerIndex cfg).

(** ** Sending

    The loops over the related shards send the same message to every shard; their
    order is not kept. *)
Definition SendTo (s : t) (shardID : string) (bz : bytes) (mtype : Z) : t :=
  send s [mkSent shardID ChannelIDConsensusState bz mtype].
Definition SendInternal (s : t) (bz : bytes) (mtype : Z) : t := SendTo s (myID s) bz mtype.
Definition SendToRelatedShards (s : t) (bz : bytes) (mtype : Z) : t :=
  send s (map (fun shard => mkSent shard ChannelIDConsensusState bz mtype) (related s)).

Definition SendToRelatedShardsExcept (s : t) (bz : bytes) (mtype : Z) (exception : string) : t :=
  send s (map (fun shard => mkSent shard ChannelIDConsensusState bz mtype)
            (filter (fun shard => shard <> exception) (related s))).

(** ** Early messages and steps *)

(** The first message of a later height is kept, and handled too. *)
Definition addRelayMessageIfOverTime (s : t) (height round : Z) (msg : Msg) : t * bool :=
  if (Height s <? height) || ((Height s =? height) && (Round s <? round)) then
    match relayMessageChannel s !! height with
    | Some u =>
        (setRelay s (<[height := <[round := default [] (u !! round) ++ [msg]]> u]> (relayMessageChannel s)),
         true)
    | None => (setRelay s (<[height := {[round := [msg]]}]> (relayMessageChannel s)), false)
    end
  else (s, false).

Definition Next (s : t) : t :=
  if Step s =? RoundStepCommit then
    mk (i64 (Height s + 1)) 0 RoundStepNewHeight (heightDatas s)
      (delete (Height s) (relayMessageChannel s)) (chain s) (cross s) (world s)
  else setStep s (i8 (Step s + 1)).

(** [Hash] on the block of the height, which is hashed in place. *)
Definition hashBlock (s : t) : go (t * bytes) :=
  let! b := deref (PyramidHeight.Block (heightDatas s)) in
  let '(b, hs) := PyramidBlock.Hash_ b in
  Ok (setData s (PyramidHeight.setBlock (heightDatas s) b), hs).

(** The aggregated precommit of a message, checked for the chain of its header. *)
Definition verifySignatures (s : t) (sigs : PrecommitAggregated.t) : go bool :=
  PrecommitAggregated.VerifySignatures sigs
    (PyramidHeight.AllValidatorSet (heightDatas s) !! PartSetHeader.ChainID (PrecommitAggregated.Header sigs))
    (BV.Byte (PrecommitAggregated.ValidatorBitVector sigs)).
Definition chainOf (sigs : PrecommitAggregated.t) : string := PartSetHeader.ChainID (PrecommitAggregated.Header sigs).
(** [RelatedShards] has the chain, and the signatures verify. *)
Definition fromRelated (s : t) (sigs : PrecommitAggregated.t) : go bool :=
  if negb (isRelated s (chainOf sigs)) then Ok false else verifySignatures s sigs.

(** ** The vote on a block

    The result says whether the block is well formed (the code panics on one that
    is not) and what the vote says. *)

Definition theTx (b : Block.t) : option Txs.Tx :=
  match Body.BodyTxs (Block.Body b) with [tx] => Some tx | _ => None end.
Definition blockType (b : Block.t) : Z := Header.BlockType (Block.Header b).

Fixpoint checkAccepts (s : t) (accepts : list MessageAccept.t) (pvote : bool) : go (bool * bool) :=
  match accepts with
  | [] => Ok (true, pvote)
  | ma :: accepts =>
      let! valid := fromRelated s (MessageAccept.CollectiveSignatures ma) in
      if negb valid then Ok (false, pvote)
      else checkAccepts s accepts (pvote && PrecommitAggregated.IsOK (MessageAccept.CollectiveSignatures ma))
  end.

Definition checkBCommit (s : t) (b : Block.t) : go (bool * bool) :=
  match theTx b with
  | None => Ok (false, true)
  | Some tx =>
      let! ba := MessageAcceptSet.NewMessageAcceptSetFromBytes tx in
      match ba with
      | None => Ok (false, true)
      | Some ba =>
          if negb (bool_decide (pendingCrossShardBlockHash (cross s) = MessageAcceptSet.BlockHash ba)) then Ok (false, true)
          else if negb (zlen (MessageAcceptSet.Accepts ba) =? zlen (related s)) then Ok (false, true)
          else checkAccepts s (MessageAcceptSet.Accepts ba) true
      end
  end.

Definition checkB (s : t) (b : Block.t) : go (bool * bool) :=
  if blockType b =? BLOCKTYPE_InnerShard then Ok (true, true)
  else if blockType b =? BLOCKTYPE_CrossShard then
    let! resp := deref (PreExecutionB (abci (world s)) b) in Ok (respBIsOK resp, true)
  else if blockType b =? BLOCKTYPE_BCommitBlock then checkBCommit s b
  else Ok (false, true).

Definition checkIAccept (s : t) (b : Block.t) : go (bool * bool) :=
  match theTx b with
  | None => Ok (false, true)
  | Some tx =>
      let! block := CrossShardBlock.NewCrossShardBlockFromBytes tx in
      match block with
      | None => Ok (false, true)
      | Some block =>
          let! valid := fromRelated s (CrossShardBlock.ColleciveSignatures block) in
          if negb valid then Ok (false, true)
          else
            let! resp := deref (PreExecutionI (abci (world s)) (CrossShardBlock.Block block)) in
            Ok (true, respIIsOK resp)
      end
  end.

Fixpoint checkICommit (s : t) (txs : Txs.t) : go bool :=
  match txs with
  | [] => Ok true
  | tx :: txs =>
      let! mc := MessageCommit.NewMessageCommitFromBytes tx in
      match mc with
      | None => Ok false
      | Some mc =>
          let! valid := fromRelated s (MessageCommit.CollectiveSignatures mc) in
          if negb valid then Ok false else checkICommit s txs
      end
  end.

Definition checkI (s : t) (b : Block.t) : go (bool * bool) :=
  if blockType b =? BLOCKTYPE_InnerShard then Ok (true, true)
  else if blockType b =? BLOCKTYPE_IAcceptBlock then checkIAccept s b
  else if blockType b =? BLOCKTYPE_ICommitBlock then
    let! flag := checkICommit s (Body.BodyTxs (Block.Body b)) in Ok (flag, true)
  else Ok (false, true).

Definition doPropose (s : t) : go t :=
  let! '(s, hs) := hashBlock s in
  let s := setBlockHash s hs in
  let! proposalBlock := deref (PyramidHeight.Block (heightDatas s)) in
  let! '(flag, pvote) := if IsBShard s then checkB s proposalBlock else checkI s proposalBlock in
  if negb flag then Panic
  else
    let vote := Prevote.SetOK (Prevote.NewPrevote (Height s) (Round s) hs (signerIndex cfg)) pvote in
    let! sig := SignType (signer cfg) (Prevote.SignBytes vote) in
    let vote := Prevote.setSignature vote sig in
    let! '(h, _) := PyramidHeight.AddPrevote (heightDatas s) vote in
    let s := setData s h in
    let! bz := Prevote.ProtoBytes vote in
    Ok (Next (SendInternal s bz TendermintPrevote)).

Definition doPrevote (s : t) : go t :=
  let '(bz, ok) := VoteSet.GetMaj23 (PyramidHeight.Prevotes (heightDatas s)) in
  let vote := Precommit.SetOK (Precommit.NewPrecommit (Height s) (Round s) bz (signerIndex cfg)) ok in
  let! sig := SignType (signer cfg) (Precommit.SignBytes vote) in
  let vote := Precommit.setSignature vote sig in
  let! '(h, _) := PyramidHeight.AddPrecommit (heightDatas s) vote in
  let s := setData s h in
  let! bz := Precommit.ProtoBytes vote in
  Ok (Next (SendInternal s bz TendermintPrecommit)).

(** ** What a decided block does

    [processIBlock] and [processBBlock] take the block of the height when the own
    shard has decided it ([isConsensusRound]), and return it as it was hashed. *)

Definition updateMempool (s : t) (txs : Txs.t) : go t :=
  let! '(p, _) := deref (Update (mempool (world s)) txs None) in Ok (setMempool s p).

(** [resp.Receipts] and the counters. *)
Definition noReceipts (counts : Z * Z * Z) : Response := (mkExec [Bank.receipt CodeTypeOK ""], counts).

Definition updateIState (s : t) (block : Block.t) (cross_shard_block_hash : bytes) : go t :=
  let c := cross s in
  if blockType block =? BLOCKTYPE_InnerShard then updateMempool s (Body.BodyTxs (Block.Body block))
  else if blockType block =? BLOCKTYPE_IAcceptBlock then
    Ok (setCross s (setPools c (delete cross_shard_block_hash (crossShardBlockPool c)) (commitPool c) (committed c)))
  else if blockType block =? BLOCKTYPE_ICommitBlock then
    Ok (setCross s (setPools c (crossShardBlockPool c) (delete cross_shard_block_hash (commitPool c))
                      (<[cross_shard_block_hash := true]> (committed c))))
  else Ok s.

Definition innerShard (s : t) (block : Block.t) : go (t * Block.t * Response) :=
  let! '(a, d, block, resp) := deref (ExecutionInnerShard (abci (world s)) (store (world s)) block) in
  Ok (setApp s a d, block, resp).

Definition acceptBlock (s : t) (block : Block.t) (chain_id : string) (agg : option PrecommitAggregated.t) (isok : bool) :
    go (t * Response) :=
  let! tx := idx (Body.BodyTxs (Block.Body block)) 0 in
  let! blocks := CrossShardBlock.NewCrossShardBlockFromBytes tx in
  match blocks with
  | None => Panic
  | Some blocks =>
      let ok := match agg with Some agg => PrecommitAggregated.IsOK agg | None => isok end in
      let! '(a, d, b, resp) :=
        deref (AcceptCrossShard (abci (world s)) (store (world s)) (CrossShardBlock.Block blocks) chain_id ok) in
      let s := setApp s a d in
      let '(b, hs) := PyramidBlock.Hash_ b in
      let! p := isProposer s in
      match agg with
      | None => Ok (s, resp)
      | Some agg =>
          let! s := if p then
                      let! bz := MessageAccept.ProtoBytes (MessageAccept.mk hs agg) in
                      Ok (SendTo s (Header.ChainID (Block.Header b)) bz PyramidDefinition.MessageAccept)
                    else Ok s in
          let! s := updateIState s block hs in
          Ok (s, resp)
      end
  end.

Fixpoint readCommits (txs : Txs.t) : go (list bytes * list bool) :=
  match txs with
  | [] => Ok ([], [])
  | tx :: txs =>
      let! mc := MessageCommit.NewMessageCommitFromBytes tx in
      match mc with
      | None => Panic
      | Some mc =>
          let! '(hashes, commits) := readCommits txs in
          Ok (MessageCommit.B_BlockHash mc :: hashes,
              PrecommitAggregated.IsOK (MessageCommit.CollectiveSignatures mc) :: commits)
      end
  end.

Definition commitBlocks (s : t) (block : Block.t) (chain_id : string) (isConsensusRound : bool) : go (t * Response) :=
  let! '(hashes, commits) := readCommits (Body.BodyTxs (Block.Body block)) in
  let! '(a, resp) := deref (AcceptCommitShard (abci (world s)) (store (world s)) hashes commits chain_id) in
  let s := setApp s a (store (world s)) in
  let! s := if isConsensusRound then go_foldl (fun s hs => updateIState s block hs) s hashes else Ok s in
  Ok (s, resp).

(** [aggSig] is there in a consensus round; then the block goes to the B shards. *)
Definition processIBlock (s : t) (block : Block.t) (chain_id : string) (isConsensusRound isok : bool) :
    go (t * Block.t * Response) :=
  let! '(s, agg) :=
    if isConsensusRound then
      let! agg := PyramidHeight.GenerateAggregatePrecommitSignature (heightDatas s) in
      let! p := isProposer s in
      let! s := if p then
                  let! bz := CrossShardBlock.ProtoBytes (CrossShardBlock.mk block agg) in
                  Ok (SendToRelatedShards s bz PyramidDefinition.CrossShardBlock)
                else Ok s in
      Ok (s, Some agg)
    else Ok (s, None) in
  if blockType block =? BLOCKTYPE_InnerShard then
    let! '(s, block, resp) := innerShard s block in
    if isConsensusRound then
      let '(block, hs) := PyramidBlock.Hash_ block in
      let! s := updateIState s block hs in Ok (s, block, resp)
    else Ok (s, block, resp)
  else if blockType block =? BLOCKTYPE_IAcceptBlock then
    let! '(s, resp) := acceptBlock s block chain_id agg isok in Ok (s, block, resp)
  else if blockType block =? BLOCKTYPE_ICommitBlock then
    let! '(s, resp) := commitBlocks s block chain_id isConsensusRound in Ok (s, block, resp)
  else Panic.

Definition updateBState (s : t) (block : Block.t) (cross_shard_block_hash : bytes) (ifcommit : bool) : go t :=
  let c := cross s in
  if blockType block =? BLOCKTYPE_InnerShard then updateMempool s (Body.BodyTxs (Block.Body block))
  else if blockType block =? BLOCKTYPE_CrossShard then
    Ok (setCross s (setPending c cross_shard_block_hash (zlen (CrossShardBody.CrossShardTxs (Block.CrossShardBody block)))
                      (zlen (related s)) (Some ∅)))
  else if blockType block =? BLOCKTYPE_BCommitBlock then
    let! s := if ifcommit then
                let '(bz, err) := PrefixStore.GetBlockByHash (store (world s)) cross_shard_block_hash in
                match err with
                | Some _ => Panic
                | None =>
                    let! ublock := Block.NewBlockFromBytes (default [] bz) in
                    let! ublock := deref ublock in
                    let! '(p, _) := deref (Update (cross_shard_mempool (world s))
                                             (CrossShardBody.CrossShardTxs (Block.CrossShardBody ublock)) None) in
                    Ok (setCrossMempool s p)
                end
              else Ok s in
    Ok (setCross s (setPending c [] (pendingBlockSize c) (-1) None))
  else Ok s.

(** The proposer sends a message to the related shards. *)
Definition announce (s : t) (m : go bytes) (mtype : Z) : go t :=
  let! p := isProposer s in
  if p then let! bz := m in Ok (SendToRelatedShards s bz mtype) else Ok s.

Definition processBBlock (s : t) (block : Block.t) : go (t * Block.t * Response) :=
  if blockType block =? BLOCKTYPE_InnerShard then
    let! '(s, block, resp) := innerShard s block in
    let '(block, hs) := PyramidBlock.Hash_ block in
    let! s := updateBState s block hs false in
    Ok (s, block, resp)
  else if blockType block =? BLOCKTYPE_CrossShard then
    let! aggSig := PyramidHeight.GenerateAggregatePrecommitSignature (heightDatas s) in
    let! s := announce s (CrossShardBlock.ProtoBytes (CrossShardBlock.mk block aggSig)) PyramidDefinition.CrossShardBlock in
    let '(block, hs) := PyramidBlock.Hash_ block in
    let! s := updateBState s block hs false in
    Ok (s, block, noReceipts (1, 0, 0))
  else if blockType block =? BLOCKTYPE_BCommitBlock then
    let! aggSig := PyramidHeight.GenerateAggregatePrecommitSignature (heightDatas s) in
    let hs := pendingCrossShardBlockHash (cross s) in
    let! s := announce s (MessageCommit.ProtoBytes (MessageCommit.mk hs aggSig)) PyramidDefinition.MessageCommit in
    let! s := updateBState s block hs true in
    let c := cross s in
    let size := pendingBlockSize c in
    Ok (setCross s (setPending c (pendingCrossShardBlockHash c) 0 (maCount c) (maPool c)), block,
        noReceipts (1, if PrecommitAggregated.IsOK aggSig then size else 0, size))
  else Panic.

Definition receiptRoot (receipts : list Receipt.t) : go bytes :=
  let! bzz := go_mapM PyramidReceipt.ProtoBytes receipts in
  Ok (fst (Merkle.ProofsFromByteSlices bzz)).

Definition doPrecommit (s : t) : go t :=
  let! block := deref (PyramidHeight.Block (heightDatas s)) in
  let! '(s, block, resp) :=
    if IsIShard s then processIBlock s block (myID s) true false else processBBlock s block in
  let! respRoot := receiptRoot (Receipts (fst resp)) in
  let '(block, hs) := PyramidBlock.Hash_ block in
  let s := setData s (PyramidHeight.setBlock (heightDatas s) block) in
  let s := setChain s (mkChain (Header.Time (Block.Header block)) hs respRoot (AppCommit (abci (world s)))
                         (BlockHash (chain s))) in
  let! '(d, _) := PrefixStore.SetBlockByHeight (store (world s)) (Header.Height (Block.Header block))
                    (Header.ChainID (Block.Header block)) (mkStored hs (Block.ProtoBytes block)) in
  Ok (Next (setStore s d)).

(** ** A new height *)

Definition createHeader (s : t) (ty : Z) (time : Time) : Header.t :=
  Header.mk ty (LastBlockHash (chain s)) (myID s) (Height s) time [] [] (LastStateRoot (chain s))
    (LastReceiptRoot (chain s)) [].

(** A block without its header. *)
Definition bareBlock (ty : Z) (txs cross : Txs.t) : Block.t :=
  Block.mk (Header.mk ty [] "" 0 (mkTime 0 0) [] [] [] [] []) (Body.mk txs) (CrossShardBody.mk cross [])
    (Relation.mk [] [] []) [].

(** The error of a mempool is dropped. *)
Definition reap (s : t) (p : Pool) : go (Txs.t * Z) :=
  let! '(txs, n, _) := deref (ReapTx p (abci (world s)) (maxBlockTxNum cfg)) in Ok (txs, n).

Definition createInner (s : t) : go Block.t :=
  let! '(txs, _) := reap s (mempool (world s)) in Ok (bareBlock BLOCKTYPE_InnerShard txs []).

(** A received block that is chosen at random, else the decisions that were
    received, else inner transactions. *)
Definition createIBlockTxs (s : t) : go Block.t :=
  let blocks := crossShardBlockPool (cross s) in
  let commits := commitPool (cross s) in
  let n := ticks (world s) in
  if 0 <? Z.of_nat (size blocks) then
    let! key := idx (shuffle _ n (map fst (map_to_list blocks))) (Intn n (Z.of_nat (size blocks))) in
    let! csb := deref (blocks !! key) in
    let! bz := CrossShardBlock.ProtoBytes csb in
    Ok (bareBlock BLOCKTYPE_IAcceptBlock [bz] [])
  else if 0 <? Z.of_nat (size commits) then
    let! txs := go_mapM MessageCommit.ProtoBytes (shuffle _ n (map snd (map_to_list commits))) in
    Ok (bareBlock BLOCKTYPE_ICommitBlock txs [])
  else createInner s.

(** A cross-shard block when none is pending, the decision when all answers are
    there, else inner transactions. A nil pool has no entries. *)
Definition createDecision (s : t) : go Block.t :=
  if maCount (cross s) =? 0 then
    let mas := shuffle _ (ticks (world s)) (map snd (map_to_list (default ∅ (maPool (cross s))))) in
    let! bz := MessageAcceptSet.ProtoBytes (MessageAcceptSet.mk mas (pendingCrossShardBlockHash (cross s))) in
    Ok (bareBlock BLOCKTYPE_BCommitBlock [bz] [])
  else createInner s.
Definition createBBlockTxs (s : t) : go Block.t :=
  if maCount (cross s) =? -1 then
    let! '(txs, n) := reap s (cross_shard_mempool (world s)) in
    if 0 <? n then deref (FillData (abci (world s)) (bareBlock BLOCKTYPE_CrossShard [] txs))
    else createDecision s
  else createDecision s.

(** Not before the minimal interval after the last block. *)
Definition blockTime (s : t) : Time :=
  let interval_dst := timeAdd (LastBlockTime (chain s)) (MinBlockInterval cfg) in
  let now := Now (ticks (world s)) in
  if timeBefore now interval_dst then interval_dst else now.

Definition sendParts (s : t) (parts : list (option Part.t)) : go t :=
  go_foldl (fun s part =>
      let! part := deref part in
      let! bz := Part.ProtoBytes part in
      Ok (SendInternal s bz PyramidDefinition.Part)) s parts.

Definition createBlockAndBroadcast (s : t) : go t :=
  let! block := if IsBShard s then createBBlockTxs s else createIBlockTxs s in
  let block := Block.mk (createHeader s (blockType block) (blockTime s)) (Block.Body block)
    (Block.CrossShardBody block) (Block.Relation block) (Block.blockhash block) in
  let s := tick s in
  let! '(block, part_set) := PyramidPartSet.PartSetFromBlock block (MaxPartSize cfg) (Round s) in
  let proposal := Proposal.NewProposal (PartSet.Header part_set) (signerIndex cfg)
    (PartSet.BlockHeaderHash part_set) in
  let! sig := SignType (signer cfg) (Proposal.SignBytes proposal) in
  let proposal := Proposal.setSignature proposal sig in
  let s := setData s (PyramidHeight.setProposed (heightDatas s) (Some proposal) (Some part_set) (Some block)) in
  let! bz := Proposal.ProtoBytes proposal in
  sendParts (SendInternal s bz TendermintProposal) (PartSet.Parts part_set).

(** [doMessage] handles the messages that came too early. *)
Definition enterNewRound (doMessage : t -> Msg -> go (t * option goerr)) (s : t) : go t :=
  let s := setStep s RoundStepPropose in
  let! b := isProposer s in
  let! s := if b then createBlockAndBroadcast s else Ok s in
  match relayMessageChannel s !! Height s with
  | None => Ok s
  | Some relay_height =>
      match relay_height !! Round s with
      | None => Ok s
      | Some relayRound =>
          go_foldl (fun s msg => let! '(s, _) := doMessage s msg in Ok s) s relayRound
      end
  end.

Definition enterNewHeight (doMessage : t -> Msg -> go (t * option goerr)) (s : t) : go t :=
  let s := setStep s RoundStepCommit in
  let s := if IsIShard s then setCross s (setCount (cross s) (zlen (related s)) (Some ∅)) else s in
  let s := Next s in
  let! h := PyramidHeight.NextHeight (heightDatas s) in
  enterNewRound doMessage (setData s h).

Definition doCommit (doMessage : t -> Msg -> go (t * option goerr)) (s : t) : go t :=
  let messageOK := MessageOK.mk (Height s) (myID s) in
  let! p := isProposer s in
  let! s := if p && IsBShard s then
              let! bz := MessageOK.ProtoBytes messageOK in
              Ok (SendToRelatedShards s bz PyramidDefinition.MessageOK)
            else Ok s in
  enterNewHeight doMessage s.

(** ** Messages *)

(** The B shard follows the chain of an I shard, block after block; every block is
    handled with the verdict of the last message. *)
Fixpoint syncBlocks (fuel : nat) (s : t) (chain_id : string) (isok : bool) (i0 : Z) : go t :=
  match fuel with
  | O => OutOfFuel
  | S fuel =>
      match PrefixStore.GetBlockByHeight (store (world s)) i0 chain_id with
      | (Some blockBz, None) =>
          let! iblock := Block.NewBlockFromBytes blockBz in
          let! iblock := deref iblock in
          let! '(s, _, _) := processIBlock s iblock chain_id false isok in
          let s := setCross s (setShardHeight (cross s) (<[chain_id := i0]> (shardHeight (cross s)))) in
          syncBlocks fuel s chain_id isok (i64 (i0 + 1))
      | _ => Ok s
      end
  end.

(** What a handler did: an early return, or a state transition may be possible. *)
Definition Handled : Type := t * option (option goerr).
Definition ignored (s : t) : go Handled := Ok (s, Some None).
Definition refused (s : t) (text : string) : go Handled := Ok (s, Some (Some (Errorf text))).
Definition taken (s : t) : go Handled := Ok (s, None).

(** A message that is given to the package of the height. *)
Definition addToHeight (s : t) (height round : Z) (m : Msg)
    (add : PyramidHeight.t -> go (PyramidHeight.t * option goerr)) : go Handled :=
  let '(s, relayed) := addRelayMessageIfOverTime s height round m in
  if relayed then ignored s
  else
    let! '(h, err) := add (heightDatas s) in
    let s := setData s h in
    match err with
    | Some DoNothing => ignored s
    | Some err => Ok (s, Some (Some err))
    | None => taken s
    end.

Definition addCrossShardBlock (fuel : nat) (s : t) (m : CrossShardBlock.t) : go Handled :=
  let sigs := CrossShardBlock.ColleciveSignatures m in
  let chain_id := chainOf sigs in
  if negb (isRelated s chain_id) then refused s "A broadcast from a non-adjacent shard has been received"
  else
    let '(block, hs) := PyramidBlock.Hash_ (CrossShardBlock.Block m) in
    if fst (PrefixStore.Has (store (world s)) hs) then ignored s
    else
      let! valid := verifySignatures s sigs in
      if negb valid then refused s "CrossShardBlock signature verification failed"
      else if IsIShard s then
        let c := cross s in
        taken (setCross s (setPools c (<[hs := CrossShardBlock.mk block sigs]> (crossShardBlockPool c)) (commitPool c)
                            (committed c)))
      else
        let! '(d, _) := PrefixStore.SetBlockByHeight (store (world s))
                          (PartSetHeader.Height (PrecommitAggregated.Header sigs)) chain_id
                          (mkStored hs (Block.ProtoBytes block)) in
        let s := setStore s d in
        let i0 := i64 (default 0 (shardHeight (cross s) !! chain_id) + 1) in
        let! s := syncBlocks fuel s chain_id (PrecommitAggregated.IsOK sigs) i0 in
        taken s.

(** Writing to the nil pool of a shard that waits for no answers panics. *)
Definition addMessageAccept (s : t) (m : MessageAccept.t) : go Handled :=
  let sigs := MessageAccept.CollectiveSignatures m in
  let c := cross s in
  if IsIShard s then refused s "The I shard received an Accept message"
  else if negb (bool_decide (MessageAccept.B_BlockHash m = pendingCrossShardBlockHash c)) then ignored s
  else
    let! valid := verifySignatures s sigs in
    if negb valid then refused s "MessageAccept signature verification failed"
    else
      match default ∅ (maPool c) !! chainOf sigs with
      | Some _ => ignored s
      | None =>
          let! pool := deref (maPool c) in
          taken (setCross s (setPending c (pendingCrossShardBlockHash c) (pendingBlockSize c) (i64 (maCount c - 1))
                              (Some (<[chainOf sigs := m]> pool))))
      end.

Definition addMessageCommit (s : t) (m : MessageCommit.t) : go Handled :=
  let c := cross s in
  let hs := MessageCommit.B_BlockHash m in
  if IsBShard s then refused s "Shard B received a Commit message"
  else if default false (committed c !! hs) then ignored s
  else
    let! valid := verifySignatures s (MessageCommit.CollectiveSignatures m) in
    if negb valid then refused s "MessageCommit signature verification failed"
    else taken (setCross s (setPools c (crossShardBlockPool c) (<[hs := m]> (commitPool c)) (committed c))).

(** Writing to the nil map of a B shard panics. *)
Definition addMessageOK (s : t) (m : MessageOK.t) : go Handled :=
  let '(s, relayed) := addRelayMessageIfOverTime s (MessageOK.Height m) 0 (MMessageOK m) in
  let c := cross s in
  if relayed then ignored s
  else if MessageOK.Height m <? Height s then ignored s
  else if default false (default ∅ (bseen c) !! MessageOK.SrcChain m) then ignored s
  else
    let! seen := deref (bseen c) in
    taken (setCross s (setCount c (i64 (bcount c - 1)) (Some (<[MessageOK.SrcChain m := true]> seen)))).

Definition addMessage (fuel : nat) (s : t) (m : Msg) : go Handled :=
  match m with
  | MPart p => addToHeight s (Part.Height p) (Part.Round p) m (fun h => PyramidHeight.AddPart h p)
  | MProposal p =>
      let ph := Proposal.Header p in
      addToHeight s (PartSetHeader.Height ph) (PartSetHeader.Round ph) m
        (fun h => let! index := calculateProposer s in PyramidHeight.AddProposal h p index)
  | MPrevote p => addToHeight s (Prevote.Height p) (Prevote.Round p) m (fun h => PyramidHeight.AddPrevote h p)
  | MPrecommit p => addToHeight s (Precommit.Height p) (Precommit.Round p) m (fun h => PyramidHeight.AddPrecommit h p)
  | MCrossShardBlock m => addCrossShardBlock fuel s m
  | MMessageAccept m => addMessageAccept s m
  | MMessageCommit m => addMessageCommit s m
  | MMessageOK m => addMessageOK s m
  end.

(** ** State transitions

    It waits, goes on with the next step, or enters the next height. *)
Definition finish (f : PyramidHeight.t -> go (PyramidHeight.t * bool)) (s : t) : go (t * bool) :=
  let! '(h, b) := f (heightDatas s) in Ok (setData s h, b).
Definition stepIf (r : go (t * bool)) (act : t -> go t) : go (t * Consensus.outcome) :=
  let! '(s, b) := r in
  if b then let! s := act s in Ok (s, Consensus.Stepped) else Ok (s, Consensus.Waiting).

(** All related shards are as far as this one. *)
Definition followed (s : t) : bool :=
  forallb (fun cid => negb (default 0 (shardHeight (cross s) !! cid) <? Height s)) (related s).

Definition transition (s : t) : go (t * Consensus.outcome) :=
  if Step s =? RoundStepPropose then stepIf (finish PyramidHeight.FinishProposal s) doPropose
  else if Step s =? RoundStepPrevote then stepIf (finish PyramidHeight.FinishPrevote s) doPrevote
  else if Step s =? RoundStepPrecommit then stepIf (finish PyramidHeight.FinishPrecommit s) doPrecommit
  else if Step s =? RoundStepCommit then
    Ok (s, if (if IsIShard s then bcount (cross s) =? 0 else followed s) then Consensus.Finished else Consensus.Waiting)
  else Ok (s, Consensus.Waiting).

(** The two functions call each other; the fuel bounds the depth of the calls, and
    the blocks of an I shard that are followed at once. *)
Fixpoint doMessage (fuel : nat) (s : t) (m : Msg) {struct fuel} : go (t * option goerr) :=
  match fuel with
  | O => OutOfFuel
  | S fuel =>
      let! '(s, r) := addMessage fuel s m in
      match r with
      | Some err => Ok (s, err)
      | None => let! s := handleStateTransition fuel s in Ok (s, None)
      end
  end
with handleStateTransition (fuel : nat) (s : t) {struct fuel} : go t :=
  match fuel with
  | O => OutOfFuel
  | S fuel =>
      let! '(s, o) := transition s in
      match o with
      | Consensus.Waiting => Ok s
      | Consensus.Stepped => handleStateTransition fuel s
      | Consensus.Finished => let! s := doCommit (doMessage fuel) s in handleStateTransition fuel s
      end
  end.

Definition Start (fuel : nat) (s : t) : go t :=
  if Height s =? 0 then enterNewHeight (doMessage fuel) s else handleStateTransition fuel s.

(** ** Receiving *)

Definition receiveWith {A} (fuel : nat) (s : t) (m : go (option A)) (name : string)
    (validate : A -> go (option goerr)) (msg : A -> Msg) : go (t * option goerr) :=
  let! m := m in
  match m with
  | None => Ok (s, Some (Errorf name))
  | Some m =>
      let! err := validate m in
      match err with
      | Some err => Ok (s, Some err)
      | None => doMessage fuel s (msg m)
      end
  end.

(** A block without errors, then its signatures. *)
Definition validateCrossShardBlock (m : CrossShardBlock.t) : go (option goerr) :=
  match Block.ValidateBasic (CrossShardBlock.Block m) with
  | Some err => Ok (Some err)
  | None => Ok (PrecommitAggregated.ValidateBasic (CrossShardBlock.ColleciveSignatures m))
  end.

Definition Receive (fuel : nat) (s : t) (channel_id : Z) (bz : bytes) (mtype : Z) : go (t * option goerr) :=
  if mtype =? PyramidDefinition.Part then
    receiveWith fuel s (Part.NewPartFromBytes bz) "Part Unmarshal Error" Part.ValidateBasic MPart
  else if mtype =? TendermintProposal then
    receiveWith fuel s (Proposal.NewProposalFromBytes bz) "Proposal Unmarshal Error"
      (fun m => Ok (Proposal.ValidateBasic m)) MProposal
  else if mtype =? TendermintPrevote then
    receiveWith fuel s (Ok (Prevote.NewPrevoteFromBytes bz)) "Prevote Unmarshal Error"
      (fun m => Ok (Prevote.ValidateBasic m)) MPrevote
  else if mtype =? TendermintPrecommit then
    receiveWith fuel s (Ok (Precommit.NewPrecommitFromBytes bz)) "Precommit Unmarshal Error"
      (fun m => Ok (Precommit.ValidateBasic m)) MPrecommit
  else if mtype =? PyramidDefinition.CrossShardBlock then
    receiveWith fuel s (CrossShardBlock.NewCrossShardBlockFromBytes bz) "CSB Unmarshal Error: "
      validateCrossShardBlock MCrossShardBlock
  else if mtype =? PyramidDefinition.MessageAccept then
    receiveWith fuel s (MessageAccept.NewMessageAcceptFromBytes bz) "MA Unmarshal Error: "
      (fun m => Ok (PrecommitAggregated.ValidateBasic (MessageAccept.CollectiveSignatures m))) MMessageAccept
  else if mtype =? PyramidDefinition.MessageCommit then
    receiveWith fuel s (MessageCommit.NewMessageCommitFromBytes bz) "MC Unmarshal Error: "
      (fun m => Ok (PrecommitAggregated.ValidateBasic (MessageCommit.CollectiveSignatures m))) MMessageCommit
  else if mtype =? PyramidDefinition.MessageOK then
    receiveWith fuel s (Ok (MessageOK.NewMessageOKFromBytes bz)) "MO Unmarshal Error: "
      (fun _ => Ok None) MMessageOK
  else Ok (s, Some (Errorf "Tendermint. ConsensusState: without recognition of the message type")).
End consensus.
End PyramidConsensus.
