(* ===== verification/PyramidSafety.v ===== *)
(** * Safety of the consensus of the comparison protocols

    What every run of [PyramidConsensus] keeps: the package of the height is one
    of the reachable packages of [PyramidHeightSpec], and the node votes at most
    once for every height. *)

From S2P Require Import Prelude BitVector Convert Hash Merkle Wire Types PyramidTypes.
From S2P Require Import PartSet Signer Votes Store HeightData Consensus ConsensusSafety.
From S2P Require Import PyramidVotes PyramidVotesSpec PyramidHeight PyramidHeightSpec PyramidConsensus.
Local Open Scope Z_scope.

Module PyramidSafety.
Import PyramidDefinition PyramidConsensus.

(** ** What a computation yields *)

Definition yields {A} (m : go A) (Q : A -> Prop) : Prop := forall a, m = Ok a -> Q a.

Lemma yields_bind {A B} (m : go A) (f : A -> go B) P Q :
  yields m P -> (forall a, P a -> yields (f a) Q) -> yields (gbind m f) Q.
Proof. intros Hm Hf b (a & E & E')%gbind_Ok. exact (Hf a (Hm a E) b E'). Qed.
Lemma yields_any {A B} (m : go A) (f : A -> go B) Q : (forall a, yields (f a) Q) -> yields (gbind m f) Q.
Proof. intros Hf. by apply (yields_bind m f (fun _ => True)). Qed.
Lemma yields_Ok {A} (a : A) (Q : A -> Prop) : Q a -> yields (Ok a) Q.
Proof. by intros Ha b [= <-]. Qed.
Lemma yields_Panic {A} (Q : A -> Prop) : yields Panic Q.
Proof. done. Qed.
Lemma yields_OutOfFuel {A} (Q : A -> Prop) : yields OutOfFuel Q.
Proof. done. Qed.
Lemma yields_impl {A} (m : go A) (P Q : A -> Prop) : yields m P -> (forall a, P a -> Q a) -> yields m Q.
Proof. intros Hm Hi a E. apply Hi, Hm, E. Qed.

Section safety.
Context `{Hash, StdTime, BLS, DB, !ABCIConn, !MempoolConn, Env}.
Context `{!Codec pbBlock, !Codec pbProposal, !Codec pbVote, !Codec pbPart, !Codec PyramidReceipt.pbReceipt,
          !Codec pbCrossShardBlock, !Codec pbMessageAccept, !Codec pbMessageAcceptSet, !Codec pbMessageCommit,
          !Codec pbMessageOK}.
Context (cfg : Config) (my : string) (si : PyramidShardInfo.t) (peers : list Peer.t).
Context (Hv : validShard my si peers).

Definition out (s : t) : list Sent := outbox (world s).
Definition sentVotes (ty : Z) (s : t) : list pbVote := voteSends ty (out s).

(** The package belongs to the height, and was reached by its handlers. *)
Record dataOK (s : t) : Prop := {
  d_reach : reachable my si (heightDatas s);
  d_height : PyramidHeight.Height (heightDatas s) = Height s;
  d_round : Round s = 0;
  d_hround : PyramidHeight.Round (heightDatas s) = 0
}.

(** ** Steps that send no vote *)

Record frame (s s' : t) : Prop := {
  f_height : Height s' = Height s;
  f_round : Round s' = Round s;
  f_step : Step s' = Step s;
  f_relay : relayMessageChannel s' = relayMessageChannel s;
  f_count : bcount (cross s') = bcount (cross s);
  f_data : dataOK s -> dataOK s';
  f_out : exists l, out s' = out s ++ l /\ noVote l
}.

#[local] Instance frame_preorder : PreOrder frame.
Proof.
  split.
  - intros s. split; try done. exists []. by rewrite app_nil_r.
  - intros s1 s2 s3 [E1 E2 E3 E4 E0 E5 (l & E6 & N1 & N2)] [F1 F2 F3 F4 F0 F5 (k & F6 & M1 & M2)].
    split; try congruence; [auto|]. exists (l ++ k). rewrite F6, E6, app_assoc. split; [done|].
    unfold noVote. rewrite !voteSends_app. by rewrite N1, N2.
Qed.

Lemma chain_frames s c : frame s (setChain s c).
Proof. split; try done; [by intros []|]. exists []. by rewrite app_nil_r. Qed.
Lemma frame_cross s c : bcount c = bcount (cross s) -> frame s (setCross s c).
Proof. intros E. split; try done; [by intros []|]. exists []. by rewrite app_nil_r. Qed.
Lemma world_frames s w : outbox w = out s -> frame s (setWorld s w).
Proof. intros E. split; try done; [by intros []|]. exists []. by rewrite app_nil_r. Qed.
Lemma send_frames s l : noVote l -> frame s (send s l).
Proof. intros Hn. split; try done; [by intros []|]. by exists l. Qed.
Lemma data_frames s h : (dataOK s -> dataOK (setData s h)) -> frame s (setData s h).
Proof. intros Hd. split; try done. exists []. by rewrite app_nil_r. Qed.

Lemma noVote_sent mtype bz shards : mtype <> TendermintPrevote -> mtype <> TendermintPrecommit ->
  noVote (map (fun shard => mkSent shard ChannelIDConsensusState bz mtype) shards).
Proof. intros H1' H2'. by apply noVote_same. Qed.

Lemma to_frames s shard bz mtype : mtype <> TendermintPrevote -> mtype <> TendermintPrecommit ->
  frame s (SendTo s shard bz mtype).
Proof. intros H1' H2'. by apply send_frames, (noVote_sent mtype bz [shard]). Qed.
Lemma related_frames s bz mtype : mtype <> TendermintPrevote -> mtype <> TendermintPrecommit ->
  frame s (SendToRelatedShards s bz mtype).
Proof. intros H1' H2'. by apply send_frames, noVote_sent. Qed.
Lemma frame_app s a d : frame s (setApp s a d).
Proof. by apply world_frames. Qed.
Lemma frame_mempool s p : frame s (setMempool s p).
Proof. by apply world_frames. Qed.
Lemma frame_crossMempool s p : frame s (setCrossMempool s p).
Proof. by apply world_frames. Qed.

(** Setting the hashed block of the package. *)
Lemma frame_block s b : frame s (setData s (PyramidHeight.setBlock (heightDatas s) b)).
Proof. apply data_frames. intros [D1 D2 D3 D4]. split; [by apply r_block|done..]. Qed.

Lemma frame_then {A} (p : A -> t) s s1 (m : go A) :
  frame s s1 -> yields m (fun r => frame s1 (p r)) -> yields m (fun r => frame s (p r)).
Proof. intros Hf Hm. eapply yields_impl; [exact Hm|]. cbn. intros r Hr. by transitivity s1. Qed.

(** ** The block that was decided *)

Create HintDb frames.
#[local] Hint Resolve chain_frames frame_app frame_mempool frame_crossMempool frame_block : frames.
#[local] Hint Extern 1 (frame _ (setCross _ _)) => apply frame_cross; done : frames.
#[local] Hint Extern 1 (frame _ (SendTo _ _ _ _)) => apply to_frames; done : frames.
#[local] Hint Extern 1 (frame _ (setCross _ _)) => apply frame_cross; done : frames.
#[local] Hint Extern 1 (frame _ (SendToRelatedShards _ _ _)) => apply related_frames; done : frames.
#[local] Hint Extern 5 (frame _ _) => reflexivity : frames.

(** Goes through a computation; a state that a called function returns has its
    frame in the context. *)
Ltac through :=
  repeat lazymatch goal with
  | |- yields Panic _ => apply yields_Panic
  | |- yields OutOfFuel _ => apply yields_OutOfFuel
  | |- yields (Ok _) _ => apply yields_Ok; cbn [fst snd]; auto with frames
  | |- yields (match ?x with _ => _ end) _ => destruct x
  | |- yields (gbind (match ?x with _ => _ end) _) _ => destruct x; cbn [gbind]
  | |- yields (gbind (gbind _ _) _) _ => rewrite gbind_assoc
  | |- yields (gbind (Ok _) _) _ => cbn [gbind]
  | |- yields (gbind _ _) _ => apply yields_any; intros ?
  end.

Lemma hashBlock_frames s : yields (hashBlock s) (fun r => frame s r.1).
Proof. unfold hashBlock. through. Qed.
Lemma updateMempool_frames s txs : yields (updateMempool s txs) (frame s).
Proof. unfold updateMempool. through. Qed.
Lemma updateIState_frames s b hs : yields (updateIState s b hs) (frame s).
Proof. unfold updateIState. repeat case_match; [apply updateMempool_frames|through..]. Qed.
Lemma innerShard_frames s b : yields (innerShard s b) (fun r => frame s r.1.1).
Proof. unfold innerShard. through. Qed.

Lemma acceptBlock_frames s b c agg isok : yields (acceptBlock cfg s b c agg isok) (fun r => frame s r.1).
Proof.
  unfold acceptBlock. apply yields_any; intros tx. apply yields_any; intros [bs|]; [|done].
  apply yields_any; intros [[[a d] b1] resp]. apply (frame_then fst s (setApp s a d)); [auto with frames|].
  generalize (setApp s a d) as s1. intros s1. destruct (PyramidBlock.Hash_ b1) as [b2 hs].
  apply yields_any; intros p. destruct agg as [agg|]; [|through].
  eapply (yields_bind _ _ (frame s1)); [destruct p; through|]. intros s2 F2. apply (frame_then fst s1 s2 _ F2).
  eapply yields_bind; [apply updateIState_frames|]. intros s3 F3. by apply yields_Ok.
Qed.

Lemma foldl_frames {A} (f : t -> A -> go t) l s : (forall s a, yields (f s a) (frame s)) -> yields (go_foldl f s l) (frame s).
Proof.
  intros Hf s'. apply (go_foldl_invariant f (frame s)); [|reflexivity].
  intros s1 a s2 _ F E. etransitivity; [exact F|by eapply Hf].
Qed.

Lemma commitBlocks_frames s b c r : yields (commitBlocks s b c r) (fun r => frame s r.1).
Proof.
  unfold commitBlocks. apply yields_any; intros [hashes commits]. apply yields_any; intros [a resp].
  apply (frame_then fst s (setApp s a (store (world s)))); [auto with frames|]. generalize (setApp s a (store (world s))) as s1. intros s1.
  eapply (yields_bind _ _ (frame s1)).
  - destruct r; [|through]. apply foldl_frames. intros s2 hs. apply updateIState_frames.
  - intros s2 F2. by apply yields_Ok.
Qed.

Lemma processIBlock_frames s b c r isok : yields (processIBlock cfg s b c r isok) (fun r => frame s r.1.1).
Proof.
  unfold processIBlock. eapply (yields_bind _ _ (fun r => frame s r.1)).
  { destruct r; [|through]. apply yields_any; intros agg. apply yields_any; intros p.
    eapply (yields_bind _ _ (frame s)); [destruct p; through|]. intros s1 F1. by apply yields_Ok. }
  intros [s1 agg] F1. cbn [fst] in F1. apply (frame_then (fun r => r.1.1) s s1 _ F1).
  destruct (blockType b =? BLOCKTYPE_InnerShard); [|destruct (blockType b =? BLOCKTYPE_IAcceptBlock);
    [|destruct (blockType b =? BLOCKTYPE_ICommitBlock); [|done]]].
  - eapply yields_bind; [apply innerShard_frames|]. intros [[s2 b2] resp] F2. cbn [fst] in F2.
    apply (frame_then (fun r => r.1.1) s1 s2 _ F2). destruct r; [|through].
    destruct (PyramidBlock.Hash_ b2) as [b3 hs].
    eapply yields_bind; [apply updateIState_frames|]. intros s3 F3. by apply yields_Ok.
  - eapply yields_bind; [apply acceptBlock_frames|]. intros [s2 resp] F2. by apply yields_Ok.
  - eapply yields_bind; [apply commitBlocks_frames|]. intros [s2 resp] F2. by apply yields_Ok.
Qed.

Lemma updateBState_frames s b hs c : yields (updateBState s b hs c) (frame s).
Proof.
  unfold updateBState. destruct (_ =? _); [apply updateMempool_frames|]. destruct (_ =? _); [through|].
  destruct (_ =? _); [|through]. eapply (yields_bind _ _ (frame s)).
  - destruct c; through.
  - intros s1 F1. apply yields_Ok. etransitivity; [exact F1|]. apply frame_cross. cbn. by rewrite (f_count _ _ F1).
Qed.

Lemma announce_frames s m ty : ty <> TendermintPrevote -> ty <> TendermintPrecommit -> yields (announce cfg s m ty) (frame s).
Proof. intros H1' H2'. unfold announce. apply yields_any; intros []; [|through]. apply yields_any; intros bz. by apply yields_Ok, related_frames. Qed.

Lemma processBBlock_frames s b : yields (processBBlock cfg s b) (fun r => frame s r.1.1).
Proof.
  unfold processBBlock. destruct (_ =? _); [|destruct (_ =? _); [|destruct (_ =? _); [|done]]].
  - eapply yields_bind; [apply innerShard_frames|]. intros [[s2 b2] resp] F2. cbn [fst] in F2.
    apply (frame_then (fun r => r.1.1) s s2 _ F2). destruct (PyramidBlock.Hash_ b2) as [b3 hs].
    eapply yields_bind; [apply updateBState_frames|]. intros s3 F3. by apply yields_Ok.
  - apply yields_any; intros agg. eapply yields_bind; [by apply announce_frames|]. intros s2 F2.
    apply (frame_then (fun r => r.1.1) s s2 _ F2). destruct (PyramidBlock.Hash_ b) as [b3 hs].
    eapply yields_bind; [apply updateBState_frames|]. intros s3 F3. by apply yields_Ok.
  - apply yields_any; intros agg. eapply yields_bind; [by apply announce_frames|]. intros s2 F2.
    apply (frame_then (fun r => r.1.1) s s2 _ F2).
    eapply yields_bind; [apply updateBState_frames|]. intros s3 F3. apply yields_Ok. cbn [fst].
    etransitivity; [exact F3|by apply frame_cross].
Qed.

Lemma doPrecommit_frames s : yields (doPrecommit cfg s) (fun s' => exists s1, frame s s1 /\ s' = Next s1).
Proof.
  unfold doPrecommit. apply yields_any; intros b. eapply (yields_bind _ _ (fun r => frame s r.1.1)).
  { destruct (IsIShard s); [apply processIBlock_frames|apply processBBlock_frames]. }
  intros [[s1 b1] resp] F1. cbn [fst] in F1. apply yields_any; intros root.
  destruct (PyramidBlock.Hash_ b1) as [b2 hs]. apply yields_any; intros [d e]. apply yields_Ok.
  eexists. split; [|reflexivity]. etransitivity; [exact F1|]. etransitivity; [apply frame_block|].
  etransitivity; [apply chain_frames|]. apply frame_app.
Qed.

(** ** Votes and proposals *)

Lemma doPropose_votes s : yields (doPropose cfg s) (fun s' => exists s1 v bz,
  frame s s1 /\ s' = Next (SendInternal s1 bz TendermintPrevote) /\ Prevote.ProtoBytes v = Ok bz /\
  Prevote.Height v = Height s).
Proof.
  unfold doPropose. eapply yields_bind; [apply hashBlock_frames|]. intros [s1 hs] F1. cbn [fst] in F1.
  set (s2 := setBlockHash s1 hs). assert (frame s s2) as F2 by (etransitivity; [exact F1|apply chain_frames]).
  apply yields_any; intros b. apply yields_any; intros [flag pvote]. destruct (negb flag); [done|].
  apply yields_any; intros sig. intros s' E. apply gbind_Ok in E as ([h err] & E1 & E).
  apply gbind_Ok in E as (bz & Eb & [= <-]). exists (setData s2 h). eexists _, bz.
  split; [|split; [done|split; [exact Eb|]]].
  - etransitivity; [exact F2|]. apply data_frames. intros [D1 D2 D3 D4].
    pose proof E1 as Ekeep. unfold PyramidHeight.AddPrevote in Ekeep. apply gbind_Ok in Ekeep as ([vs e] & _ & [= <- _]).
    split; [by eapply r_prevote|done..].
  - cbn. apply (f_height _ _ F1).
Qed.

Lemma doPrevote_votes s : yields (doPrevote cfg s) (fun s' => exists s1 v bz,
  frame s s1 /\ s' = Next (SendInternal s1 bz TendermintPrecommit) /\ Precommit.ProtoBytes v = Ok bz /\
  Precommit.Height v = Height s /\
  (Precommit.BlockHeaderHash v, Precommit.IsOK v) = VoteSet.GetMaj23 (PyramidHeight.Prevotes (heightDatas s))).
Proof.
  unfold doPrevote. destruct (VoteSet.GetMaj23 _) as [hs ok].
  apply yields_any; intros sig. intros s' E. apply gbind_Ok in E as ([h err] & E1 & E).
  apply gbind_Ok in E as (bz & Eb & [= <-]). exists (setData s h). eexists _, bz.
  split; [|split; [done|split; [exact Eb|split; [done|by destruct ok]]]].
  apply data_frames. intros [D1 D2 D3 D4].
  pose proof E1 as Ekeep. unfold PyramidHeight.AddPrecommit in Ekeep. apply gbind_Ok in Ekeep as ([vs e] & _ & [= <- _]).
  split; [|done..]. by eapply r_precommit; [exact D1| |exact E1].
Qed.

Lemma PartSetFromBlock_made b m r : yields (PyramidPartSet.PartSetFromBlock b m r) (fun x =>
  PartSetHeader.Height (PartSet.Header x.2) = Header.Height (Block.Header b) /\
  PartSetHeader.Round (PartSet.Header x.2) = r).
Proof.
  unfold PyramidPartSet.PartSetFromBlock. apply yields_any; intros bz. apply yields_any; intros l.
  destruct (Merkle.ProofsFromByteSlices l) as [hs proof]. destruct (PyramidBlock.Hash_ b) as [b1 h].
  by apply yields_Ok.
Qed.

Lemma sendParts_frames s parts : yields (sendParts s parts) (frame s).
Proof.
  apply foldl_frames. intros s1 p. apply yields_any; intros p1. apply yields_any; intros bz.
  by apply yields_Ok, to_frames.
Qed.

Lemma createBlockAndBroadcast_frames s : yields (createBlockAndBroadcast cfg s) (frame s).
Proof.
  unfold createBlockAndBroadcast. apply yields_any; intros b0. set (b := Block.mk _ _ _ _ _).
  assert (frame s (tick s)) as Ft by (by apply world_frames).
  eapply yields_bind; [apply PartSetFromBlock_made|]. intros [b1 ps] [P1 P2]. cbn [snd] in P1, P2.
  apply yields_any; intros sig. set (p := Proposal.setSignature _ sig). apply yields_any; intros bz.
  apply (frame_then id s (tick s) _ Ft).
  assert (frame (tick s) (setData (tick s) (PyramidHeight.setProposed (heightDatas (tick s)) (Some p) (Some ps) (Some b1)))) as Fp.
  { apply data_frames. intros [D1 D2 D3 D4]. split; [|done..]. apply r_own; [exact D1|..].
    - cbn [p Proposal.setSignature Proposal.NewProposal Proposal.Header]. rewrite P1. by rewrite D2.
    - cbn [p Proposal.setSignature Proposal.NewProposal Proposal.Header]. rewrite P2. by rewrite D4. }
  eapply yields_impl; [apply sendParts_frames|]. intros s' F. cbn [id]. etransitivity; [exact Fp|].
  etransitivity; [|exact F]. by apply to_frames.
Qed.

(** ** The messages sent only grow *)

Definition grows (s s' : t) : Prop := out s `prefix_of` out s'.
#[local] Instance grows_preorder : PreOrder grows.
Proof.
  split; [intros s; exists []; by rewrite app_nil_r|].
  intros s1 s2 s3 [l E] [k F]. exists (l ++ k). by rewrite F, E, app_assoc.
Qed.
Lemma grown s s' : frame s s' -> grows s s'.
Proof. intros Hf. destruct (f_out _ _ Hf) as (l & E & _). by exists l. Qed.
Lemma grown_length s s' : grows s s' -> zlen (out s) <= zlen (out s').
Proof. intros Hg. apply prefix_length in Hg. lia. Qed.
Lemma Next_grows s : out (Next s) = out s.
Proof. unfold Next. by destruct (_ =? _). Qed.

(** ** Messages

    The precommits that are kept for later heights have their type. *)
Definition typedMsg (m : Msg) : Prop :=
  match m with MPrecommit v => Precommit.VoteType v = VoteTypePrecommit | _ => True end.
Definition typedRelay (r : gmap Z (gmap Z (list Msg))) : Prop :=
  forall h u n l, r !! h = Some u -> u !! n = Some l -> Forall typedMsg l.

Lemma relay_typed s height round m : typedMsg m -> typedRelay (relayMessageChannel s) ->
  exists r b, addRelayMessageIfOverTime s height round m = (setRelay s r, b) /\ typedRelay r.
Proof.
  intros Hm Ht. unfold addRelayMessageIfOverTime. destruct (_ || _).
  - destruct (relayMessageChannel s !! height) as [u|] eqn:Eu; eexists _, _; (split; [done|]).
    + intros h u' n l Hh Hl. destruct (decide (h = height)) as [->|Hne].
      * rewrite lookup_insert_eq in Hh. injection Hh as <-. destruct (decide (n = round)) as [->|Hne].
        -- rewrite lookup_insert_eq in Hl. injection Hl as <-. apply Forall_app. split; [|by constructor].
           destruct (u !! round) as [l|] eqn:El; [by eapply Ht|constructor].
        -- rewrite lookup_insert_ne in Hl by done. by eapply Ht.
      * rewrite lookup_insert_ne in Hh by done. by eapply Ht.
    + intros h u' n l Hh Hl. destruct (decide (h = height)) as [->|Hne].
      * rewrite lookup_insert_eq in Hh. injection Hh as <-. apply lookup_singleton_Some in Hl as [_ <-]. by constructor.
      * rewrite lookup_insert_ne in Hh by done. by eapply Ht.
  - exists (relayMessageChannel s), false. split; [by destruct s|done].
Qed.

(** What a message does before the transitions: it may be kept, and counted. *)
Definition kept (s s' : t) : Prop := exists r c,
  (typedRelay (relayMessageChannel s) -> typedRelay r) /\
  (bcount c = bcount (cross s) \/ bcount c = i64 (bcount (cross s) - 1)) /\
  frame (setCross (setRelay s r) c) s'.
Lemma kept_relay s s' r : (typedRelay (relayMessageChannel s) -> typedRelay r) -> frame (setRelay s r) s' -> kept s s'.
Proof. intros Ht F. exists r, (cross s). split; [done|]. split; [by left|]. by destruct s. Qed.
Lemma kept_frame s s' : frame s s' -> kept s s'.
Proof. intros F. apply (kept_relay s s' (relayMessageChannel s)); [done|]. by destruct s. Qed.

Lemma relay_kept s height round m s1 b : typedMsg m -> addRelayMessageIfOverTime s height round m = (s1, b) ->
  exists r, s1 = setRelay s r /\ (typedRelay (relayMessageChannel s) -> typedRelay r).
Proof.
  intros Hm E. unfold addRelayMessageIfOverTime in E.
  assert (exists r, s1 = setRelay s r) as [r ->].
  { destruct (_ || _); [destruct (_ !! _)|]; injection E as <- _; eauto. exists (relayMessageChannel s). by destruct s. }
  exists r. split; [done|]. intros Ht. destruct (relay_typed s height round m Hm Ht) as (r' & b' & E' & Ht').
  unfold addRelayMessageIfOverTime in E'. rewrite E in E'. by injection E' as -> _.
Qed.

Lemma addToHeight_kept s height round m add : typedMsg m ->
  (forall r, yields (add (heightDatas s)) (fun x => dataOK (setRelay s r) -> dataOK (setData (setRelay s r) x.1))) ->
  yields (addToHeight s height round m add) (fun x => kept s x.1).
Proof.
  intros Hm Ha. unfold addToHeight. destruct (addRelayMessageIfOverTime _ _ _ _) as [s1 relayed] eqn:Er.
  destruct (relay_kept _ _ _ _ _ _ Hm Er) as (r & -> & Ht).
  destruct relayed; [apply yields_Ok; by apply (kept_relay _ _ r)|].
  eapply yields_bind; [exact (Ha r)|]. intros [h err] Hd. cbn [fst] in Hd.
  assert (kept s (setData (setRelay s r) h)) as Hk by (by apply (kept_relay _ _ r); [|apply data_frames]).
  by destruct err as [[]|]; apply yields_Ok.
Qed.

Lemma syncBlocks_frames fuel s c isok i : yields (syncBlocks cfg fuel s c isok i) (frame s).
Proof.
  revert s i. induction fuel as [|fuel IH]; intros s i; cbn [syncBlocks]; [done|].
  destruct (PrefixStore.GetBlockByHeight _ _ _) as [[bz|] [e|]]; try by apply yields_Ok.
  apply yields_any; intros [b|]; [|done]. cbn [deref gbind].
  eapply yields_bind; [apply processIBlock_frames|]. intros [[s1 b1] resp] F1. cbn [fst] in F1.
  eapply yields_impl; [apply IH|]. intros s' F. cbn beta in F. etransitivity; [exact F1|]. etransitivity; [|exact F].
  by apply frame_cross.
Qed.

Lemma addMessage_kept fuel s m : typedMsg m -> yields (addMessage cfg fuel s m) (fun x => kept s x.1).
Proof.
  intros Hm. destruct m as [p|p|p|p|p|p|p|p]; cbn [addMessage].
  - apply addToHeight_kept; [done|]. intros r [h err] E [D1 D2 D3 D4]. cbn [fst].
    pose proof (AddPart_votes _ _ _ _ E) as ((_ & _ & _ & _ & E5 & E6 & _) & _).
    split; [by eapply r_part|cbn in *; congruence..].
  - apply addToHeight_kept; [done|]. intros r [h err] E [D1 D2 D3 D4]. cbn [fst].
    apply gbind_Ok in E as (index & _ & E).
    pose proof (AddProposal_same _ _ _ _ _ E) as ((_ & _ & _ & _ & E5 & E6 & _) & _).
    split; [by eapply r_proposal|cbn in *; congruence..].
  - apply addToHeight_kept; [done|]. intros r [h err] E [D1 D2 D3 D4]. cbn [fst].
    pose proof E as Ek. unfold PyramidHeight.AddPrevote in Ek. apply gbind_Ok in Ek as ([vs e] & _ & [= <- _]).
    split; [by eapply r_prevote|done..].
  - apply addToHeight_kept; [done|]. intros r [h err] E [D1 D2 D3 D4]. cbn [fst].
    pose proof E as Ek. unfold PyramidHeight.AddPrecommit in Ek. apply gbind_Ok in Ek as ([vs e] & _ & [= <- _]).
    split; [by eapply r_precommit|done..].
  - unfold addCrossShardBlock. destruct (negb _); [by apply yields_Ok, kept_frame|].
    destruct (PyramidBlock.Hash_ _) as [b hs]. destruct (fst _); [by apply yields_Ok, kept_frame|].
    apply yields_any; intros []; [|by apply yields_Ok, kept_frame]. cbn [negb]. destruct (IsIShard s).
    + by apply yields_Ok, kept_frame, frame_cross.
    + apply yields_any; intros [d e]. eapply yields_bind; [apply syncBlocks_frames|]. intros s1 F1.
      apply yields_Ok, kept_frame. etransitivity; [|exact F1]. apply frame_app.
  - unfold addMessageAccept. destruct (IsIShard s); [by apply yields_Ok, kept_frame|].
    destruct (negb _); [by apply yields_Ok, kept_frame|].
    apply yields_any; intros []; [|by apply yields_Ok, kept_frame]. cbn [negb].
    destruct (_ !! _); [by apply yields_Ok, kept_frame|]. apply yields_any; intros pool.
    by apply yields_Ok, kept_frame, frame_cross.
  - unfold addMessageCommit. destruct (IsBShard s); [by apply yields_Ok, kept_frame|].
    destruct (default _ _); [by apply yields_Ok, kept_frame|].
    apply yields_any; intros []; [|by apply yields_Ok, kept_frame]. cbn [negb].
    by apply yields_Ok, kept_frame, frame_cross.
  - unfold addMessageOK. destruct (addRelayMessageIfOverTime _ _ _ _) as [s1 relayed] eqn:Er.
    destruct (relay_kept _ _ _ _ _ _ Hm Er) as (r & -> & Ht).
    assert (forall s', frame (setRelay s r) s' -> kept s s') as Hk by (intros s' F; by apply (kept_relay _ _ r)).
    destruct relayed; [by apply yields_Ok, Hk|]. destruct (_ <? _); [by apply yields_Ok, Hk|].
    destruct (default _ _); [by apply yields_Ok, Hk|]. apply yields_any; intros seen.
    apply yields_Ok. cbn [fst]. exists r. eexists. split; [done|]. split; [|reflexivity]. right. reflexivity.
Qed.

(** ** One vote for every height *)

(** A vote of an earlier height, or of the current one, when the step after [st]
    is reached. *)
Definition votedFor (s : t) (st : Z) (v : pbVote) : Prop :=
  pbv_height v < Height s \/ (pbv_height v = Height s /\ st < Step s).
Record voted (ty st : Z) (s : t) : Prop := {
  v_each : Forall (votedFor s st) (sentVotes ty s);
  v_once : NoDup (pbv_height <$> sentVotes ty s)
}.

(** A precommit has two thirds of the prevotes behind it, in a package that the
    node went through. *)
Definition justified (v : pbVote) : Prop := exists h, reachable my si h /\
  PyramidHeight.Height h = pbv_height v /\
  VoteSetSpec.twoThirds peers (PyramidHeight.Prevotes h) (pbv_hash v) (pbv_code v =? CodeTypeOK).

Record inv (s : t) : Prop := {
  i_data : dataOK s;
  i_step : RoundStepPropose <= Step s <= RoundStepCommit;
  i_relay : typedRelay (relayMessageChannel s);
  i_prevote : voted TendermintPrevote RoundStepPropose s;
  i_precommit : voted TendermintPrecommit RoundStepPrevote s;
  i_justified : Forall justified (sentVotes TendermintPrecommit s);
  i_bound : 0 <= Height s <= zlen (out s) + (if Step s <=? RoundStepPropose then 1 else 0)
}.

Lemma sentVotes_frame ty s s' : ty = TendermintPrevote \/ ty = TendermintPrecommit ->
  frame s s' -> sentVotes ty s' = sentVotes ty s.
Proof.
  intros Hty Hf. destruct (f_out _ _ Hf) as (l & E & N1 & N2). unfold sentVotes. rewrite E, voteSends_app.
  assert (voteSends ty l = []) as -> by (by destruct Hty as [->| ->]; [exact N1|exact N2]). apply app_nil_r.
Qed.

Lemma voted_frame ty st s s' : ty = TendermintPrevote \/ ty = TendermintPrecommit ->
  frame s s' -> voted ty st s -> voted ty st s'.
Proof.
  intros Hty Hf [V1 V2]. split; rewrite (sentVotes_frame ty s s' Hty Hf); [|done].
  eapply Forall_impl; [exact V1|]. intros v. unfold votedFor. by rewrite (f_height _ _ Hf), (f_step _ _ Hf).
Qed.

Lemma voted_later ty st s n : Step s <= n -> voted ty st s -> voted ty st (setStep s n).
Proof.
  intros Hn [V1 V2]. split; [|done]. eapply Forall_impl; [exact V1|]. intros v [?|[? ?]]; [by left|right].
  split; [done|]. cbn. lia.
Qed.

Lemma send_votes s ty bz (v : pbVote) : Marshal v = Some bz ->
  sentVotes ty (SendInternal s bz ty) = sentVotes ty s ++ [v] /\
  forall ty', ty' <> ty -> sentVotes ty' (SendInternal s bz ty) = sentVotes ty' s.
Proof.
  intros Hm. unfold sentVotes. change (out (SendInternal s bz ty)) with (out s ++ [mkSent (myID s) ChannelIDConsensusState bz ty]).
  split.
  - rewrite voteSends_app. f_equal. unfold voteSends. cbn -[Z.eqb]. rewrite Z.eqb_refl.
    by rewrite (Unmarshal_Marshal _ _ Hm).
  - intros ty' Hne. rewrite voteSends_app.
    pose proof (voteSends_other ty' ty bz [myID s] (not_eq_sym Hne)) as Eo. cbn [map] in Eo.
    rewrite Eo. apply app_nil_r.
Qed.

Lemma voted_before ty s : voted ty (Step s) s -> Forall (fun v => pbv_height v < Height s) (sentVotes ty s).
Proof. intros [V1 _]. eapply Forall_impl; [exact V1|]. intros v [?|[_ ?]]; lia. Qed.

(** The vote of the step itself. *)
Lemma voted_now ty s bz (v : pbVote) : Marshal v = Some bz -> pbv_height v = Height s -> voted ty (Step s) s ->
  voted ty (Step s) (setStep (SendInternal s bz ty) (Step s + 1)).
Proof.
  intros Hm Hh V. destruct (send_votes s ty bz v Hm) as [E _].
  assert (forall n, sentVotes ty (setStep (SendInternal s bz ty) n) = sentVotes ty (SendInternal s bz ty)) as En by done.
  pose proof (voted_before ty s V) as B. destruct V as [V1 V2]. split; rewrite En, E.
  - apply Forall_app. split; [eapply Forall_impl; [exact B|]; intros w Hw; by left|].
    apply Forall_singleton. right. split; [exact Hh|]. cbn. lia.
  - rewrite fmap_app. apply NoDup_app. split; [done|]. split; [|apply NoDup_singleton].
    intros h (w & -> & Hw)%list_elem_of_fmap Hx%list_elem_of_singleton. rewrite Forall_forall in B.
    specialize (B _ Hw). lia.
Qed.

Lemma voted_other ty ty' st s bz (v : pbVote) n : Marshal v = Some bz -> ty <> ty' -> Step s <= n -> voted ty st s ->
  voted ty st (setStep (SendInternal s bz ty') n).
Proof.
  intros Hm Hne Hn [V1 V2]. destruct (send_votes s ty' bz v Hm) as [_ E].
  assert (sentVotes ty (setStep (SendInternal s bz ty') n) = sentVotes ty s) as En by by apply E.
  split; rewrite En; [|done]. eapply Forall_impl; [exact V1|]. intros w [?|[? ?]]; [by left|right]. split; [done|]. cbn. lia.
Qed.

Lemma Next_small s : RoundStepPropose <= Step s < RoundStepCommit -> Next s = setStep s (Step s + 1).
Proof.
  unfold Next, RoundStepPropose, RoundStepCommit. intros Hs.
  destruct (Z.eqb_spec (Step s) 6); [lia|]. rewrite wrap_s_small by (unfold in_s; lia). done.
Qed.

Lemma frame_inv s s' : frame s s' -> inv s -> inv s'.
Proof.
  intros F [I1 I2 I3 I4 I5 I6 I7].
  split; rewrite ?(f_step _ _ F), ?(f_relay _ _ F), ?(f_height _ _ F), ?(sentVotes_frame _ _ _ (or_intror eq_refl) F);
    try done; [by apply (f_data _ _ F)|by eapply voted_frame; [left|..]|by eapply voted_frame; [right|..]|].
  pose proof (grown_length _ _ (grown _ _ F)). lia.
Qed.

Lemma kept_inv s s' : kept s s' -> inv s -> inv s'.
Proof.
  intros (r & c & Ht & _ & F) [I1 I2 I3 I4 I5 I6 I7]. apply (frame_inv _ _ F). split; try done.
  - by destruct I1.
  - by apply Ht.
  - by destruct I4.
  - by destruct I5.
Qed.
Lemma kept_grows s s' : kept s s' -> grows s s'.
Proof. intros (r & c & _ & _ & F). by apply grown in F. Qed.

Ltac steps := unfold RoundStepPropose, RoundStepPrevote, RoundStepPrecommit, RoundStepCommit in *.

Lemma dataOK_vote s bz ty n : dataOK s -> dataOK (setStep (SendInternal s bz ty) n).
Proof. by intros []. Qed.

(** *** The transitions *)

Lemma Marshal_Prevote v bz : Prevote.ProtoBytes v = Ok bz -> Marshal (Prevote.ToProto v) = Some bz.
Proof. unfold Prevote.ProtoBytes, MustProtoBytes. by destruct (Marshal _); intros [= ->]. Qed.
Lemma Marshal_Precommit v bz : Precommit.ProtoBytes v = Ok bz -> Marshal (Precommit.ToProto v) = Some bz.
Proof. unfold Precommit.ProtoBytes, MustProtoBytes. by destruct (Marshal _); intros [= ->]. Qed.

Lemma inv_propose s s' : inv s -> Step s = RoundStepPropose -> doPropose cfg s = Ok s' -> inv s'.
Proof.
  intros I Es E. destruct (doPropose_votes s s' E) as (s1 & v & bz & F & -> & Eb%Marshal_Prevote & Eh).
  pose proof (frame_inv _ _ F I) as [I1 I2 I3 I4 I5 I6 I7].
  assert (Step s1 = RoundStepPropose) as E1 by (by rewrite (f_step _ _ F)).
  rewrite Next_small by (cbn; steps; lia). cbn [Step SendInternal SendTo send setWorld]. split.
  - by apply dataOK_vote.
  - cbn. steps. lia.
  - exact I3.
  - rewrite <- E1. eapply voted_now; [exact Eb|cbn; by rewrite Eh, (f_height _ _ F)|by rewrite E1].
  - eapply voted_other; [exact Eb|done|lia|done].
  - destruct (send_votes s1 TendermintPrevote bz _ Eb) as [_ E2]. rewrite <- (E2 TendermintPrecommit) in I6 by done. exact I6.
  - change (out _) with (out s1 ++ [mkSent (myID s1) ChannelIDConsensusState bz TendermintPrevote]).
    rewrite length_app. cbn [Height Step setStep SendInternal SendTo send setWorld length].
    destruct (_ <=? _); destruct (_ <=? _); lia.
Qed.

Lemma inv_prevote s s' : inv s -> Step s = RoundStepPrevote -> VoteSet.HasMaj23 (PyramidHeight.Prevotes (heightDatas s)) = true ->
  doPrevote cfg s = Ok s' -> inv s'.
Proof.
  intros I Es Em E. destruct (doPrevote_votes s s' E) as (s1 & v & bz & F & -> & Eb%Marshal_Precommit & Eh & Ev).
  assert (justified (Precommit.ToProto v)) as Hj.
  { destruct (i_data _ I) as [D1 D2 _ _]. exists (heightDatas s). split; [done|]. split; [cbn; congruence|].
    pose proof (VoteSetSpec.vs_maj peers _ (i_prevotes my si peers _ (reachable_inv my si peers Hv _ D1)) Em) as Ht.
    unfold VoteSet.GetMaj23 in Ev. injection Ev as E1 E2. rewrite <- E1, <- E2 in Ht. exact Ht. }
  pose proof (frame_inv _ _ F I) as [I1 I2 I3 I4 I5 I6 I7].
  assert (Step s1 = RoundStepPrevote) as E1 by (by rewrite (f_step _ _ F)).
  rewrite Next_small by (cbn; steps; lia). cbn [Step SendInternal SendTo send setWorld]. split.
  - by apply dataOK_vote.
  - cbn. steps. lia.
  - exact I3.
  - eapply voted_other; [exact Eb|done|lia|done].
  - rewrite <- E1. eapply voted_now; [exact Eb|cbn; by rewrite Eh, (f_height _ _ F)|by rewrite E1].
  - destruct (send_votes s1 TendermintPrecommit bz _ Eb) as [E2 _].
      change (sentVotes TendermintPrecommit (setStep _ _)) with (sentVotes TendermintPrecommit (SendInternal s1 bz TendermintPrecommit)).
    rewrite E2. apply Forall_app. split; [done|by apply Forall_singleton].
  - change (out _) with (out s1 ++ [mkSent (myID s1) ChannelIDConsensusState bz TendermintPrecommit]).
    rewrite length_app. cbn [Height Step setStep SendInternal SendTo send setWorld length].
    destruct (_ <=? _); destruct (_ <=? _); lia.
Qed.

Lemma inv_next s s1 : inv s -> Step s = RoundStepPrecommit -> frame s s1 -> inv (Next s1).
Proof.
  intros I Es F. pose proof (frame_inv _ _ F I) as [I1 I2 I3 I4 I5 I6 I7].
  assert (Step s1 = RoundStepPrecommit) as E1 by (by rewrite (f_step _ _ F)).
  rewrite Next_small by (steps; lia). split; try done.
  - by destruct I1.
  - cbn. steps. lia.
  - apply voted_later; [lia|done].
  - apply voted_later; [lia|done].
  - cbn [Height Step setStep]. change (out _) with (out s1).
    destruct (Z.leb_spec (Step s1) RoundStepPropose), (Z.leb_spec (Step s1 + 1) RoundStepPropose); steps; lia.
Qed.

(** The checks of the steps. *)
Lemma finish_frames f s : (forall h h' b, reachable my si h -> f h = Ok (h', b) -> reachable my si h' /\ sameVotes h h') ->
  yields (finish f s) (fun x => frame s x.1).
Proof.
  intros Hf [s' b] E. unfold finish in E. apply gbind_Ok in E as ([h b'] & E & [= <- <-]). cbn [fst].
  apply data_frames. intros [D1 D2 D3 D4]. destruct (Hf _ _ _ D1 E) as [Hr (_ & _ & _ & _ & E5 & E6 & _)].
  split; [done|cbn; congruence..].
Qed.

Lemma steps_reachable h : reachable my si h -> stepsOk h.
Proof. intros Hr. apply (i_steps my si peers), (reachable_inv my si peers Hv _ Hr). Qed.

(** One round of the state machine. *)
Inductive stepped (s : t) : t -> Consensus.outcome -> Prop :=
| SteppedStay s' : frame s s' -> stepped s s' Consensus.Waiting
| SteppedEnd : Step s = RoundStepCommit -> (IsIShard s = true -> bcount (cross s) = 0) ->
    stepped s s Consensus.Finished
| SteppedPropose s1 s' : Step s = RoundStepPropose -> frame s s1 -> doPropose cfg s1 = Ok s' ->
    stepped s s' Consensus.Stepped
| SteppedPrevote s1 s' : Step s = RoundStepPrevote -> frame s s1 ->
    (dataOK s -> VoteSet.HasMaj23 (PyramidHeight.Prevotes (heightDatas s1)) = true) -> doPrevote cfg s1 = Ok s' ->
    stepped s s' Consensus.Stepped
| SteppedNext s1 : Step s = RoundStepPrecommit -> frame s s1 -> stepped s (Next s1) Consensus.Stepped.

Lemma transition_frames s s' o : transition cfg s = Ok (s', o) -> stepped s s' o.
Proof.
  intros E. unfold transition in E.
  destruct (Z.eqb_spec (Step s) RoundStepPropose) as [Es|_].
  { apply gbind_Ok in E as ([s1 b] & Ef & E).
    apply (finish_frames _ _) in Ef; [|intros h h' b' Hr Ef'; split; [by eapply r_finishProposal|]; by destruct (FinishProposal_same _ _ _ Ef' (steps_reachable _ Hr))].
    destruct b; [|injection E as <- <-; by apply SteppedStay].
    apply gbind_Ok in E as (s2 & E & [= <- <-]). by eapply SteppedPropose. }
  destruct (Z.eqb_spec (Step s) RoundStepPrevote) as [Es|_].
  { apply gbind_Ok in E as ([s1 b] & Ef & E).
    assert (b = true -> dataOK s -> VoteSet.HasMaj23 (PyramidHeight.Prevotes (heightDatas s1)) = true) as Em.
    { intros -> D. unfold finish in Ef. apply gbind_Ok in Ef as ([h b'] & Ef & [= <- ->]).
      destruct (FinishPrevote_same _ _ _ Ef (steps_reachable _ (d_reach _ D))) as (_ & _ & (_ & S2 & _) & Hge).
      by apply S2, Hge. }
    apply (finish_frames _ _) in Ef; [|intros h h' b' Hr Ef'; split; [by eapply r_finishPrevote|]; by destruct (FinishPrevote_same _ _ _ Ef' (steps_reachable _ Hr))].
    destruct b; [|injection E as <- <-; by apply SteppedStay].
    apply gbind_Ok in E as (s2 & E & [= <- <-]). eapply SteppedPrevote; [done|exact Ef|by apply Em|done]. }
  destruct (Z.eqb_spec (Step s) RoundStepPrecommit) as [Es|_].
  { apply gbind_Ok in E as ([s1 b] & Ef & E).
    apply (finish_frames _ _) in Ef; [|intros h h' b' Hr Ef'; split; [by eapply r_finishPrecommit|]; by destruct (FinishPrecommit_same _ _ _ Ef' (steps_reachable _ Hr))].
    destruct b; [|injection E as <- <-; by apply SteppedStay].
    apply gbind_Ok in E as (s2 & E & [= <- <-]). destruct (doPrecommit_frames s1 s2 E) as (s3 & F3 & ->).
    apply SteppedNext; [done|by etransitivity]. }
  destruct (Z.eqb_spec (Step s) RoundStepCommit) as [Es|_]; [|injection E as <- <-; by apply SteppedStay].
  destruct (if IsIShard s then _ else _) eqn:Ec; injection E as <- <-; [|by apply SteppedStay].
  apply SteppedEnd; [done|]. intros Ei. rewrite Ei in Ec. by apply Z.eqb_eq in Ec.
Qed.

(** The messages sent and the messages kept, whatever state it starts from. *)
Definition passes (s s' : t) : Prop :=
  grows s s' /\ (typedRelay (relayMessageChannel s) -> typedRelay (relayMessageChannel s')).
#[local] Instance passes_preorder : PreOrder passes.
Proof.
  split; [by intros s|]. intros s1 s2 s3 [G1 T1] [G2 T2]. split; [by etransitivity|auto].
Qed.

Lemma passes_frame s s' : frame s s' -> passes s s'.
Proof. intros F. split; [by apply grown|by rewrite (f_relay _ _ F)]. Qed.
Lemma passes_kept s s' : kept s s' -> passes s s'.
Proof. intros (r & c & Ht & _ & F). split; [apply (grown _ _ F)|]. rewrite (f_relay _ _ F). exact Ht. Qed.

Lemma typed_delete r h : typedRelay r -> typedRelay (delete h r).
Proof. intros Ht h' u n l [_ Hh]%lookup_delete_Some. by eapply Ht. Qed.
Lemma passes_Next s : passes s (Next s).
Proof.
  split; [unfold grows; by rewrite Next_grows|]. unfold Next. destruct (_ =? _); [apply typed_delete|done].
Qed.
Lemma passes_vote s s1 bz ty : frame s s1 -> passes s (Next (SendInternal s1 bz ty)).
Proof.
  intros F. etransitivity; [by apply passes_frame|]. transitivity (SendInternal s1 bz ty); [|apply passes_Next].
  split; [by eexists|done].
Qed.

Lemma stepped_passes s s' o : stepped s s' o -> passes s s'.
Proof.
  destruct 1 as [s' F|_ _|s1 s' _ F E|s1 s' _ F _ E|s1 _ F].
  - by apply passes_frame.
  - reflexivity.
  - destruct (doPropose_votes s1 s' E) as (s2 & v & bz & F2 & -> & _). apply passes_vote. by etransitivity.
  - destruct (doPrevote_votes s1 s' E) as (s2 & v & bz & F2 & -> & _). apply passes_vote. by etransitivity.
  - etransitivity; [by apply passes_frame|apply passes_Next].
Qed.

Lemma stepped_inv s s' o : stepped s s' o -> inv s -> inv s'.
Proof.
  destruct 1 as [s' F|_ _|s1 s' Es F E|s1 s' Es F Em E|s1 Es F]; intros I.
  - by eapply frame_inv.
  - done.
  - eapply (inv_propose s1); [by eapply frame_inv|by rewrite (f_step _ _ F)|done].
  - eapply (inv_prevote s1); [by eapply frame_inv|by rewrite (f_step _ _ F)|apply Em, I|done].
  - by eapply inv_next.
Qed.

(** ** A new height *)

(** The number of messages a node has sent, far below the range of a height. *)
Definition sentBound (s : t) : Prop := zlen (out s) < 2 ^ 63 - 1.
Lemma bound_grows s s' : grows s s' -> sentBound s' -> sentBound s.
Proof. intros Hg%grown_length. unfold sentBound. lia. Qed.

(** What is kept when a message is handled. *)
Definition preserves (s s' : t) : Prop := passes s s' /\ (inv s -> sentBound s' -> inv s').
Lemma preserves_trans s1 s2 s3 : preserves s1 s2 -> preserves s2 s3 -> preserves s1 s3.
Proof.
  intros [P1 I1] [P2 I2]. split; [by etransitivity|]. intros I Hb. apply I2; [|done]. apply I1; [done|].
  by eapply bound_grows; [exact (proj1 P2)|].
Qed.
Lemma preserves_refl s : preserves s s.
Proof. by split. Qed.

Definition handles (doMsg : t -> Msg -> go (t * option goerr)) : Prop :=
  forall s m s' e, typedMsg m -> typedRelay (relayMessageChannel s) -> doMsg s m = Ok (s', e) -> preserves s s'.

Lemma replay_handles doMsg msgs s s' : handles doMsg -> Forall typedMsg msgs -> typedRelay (relayMessageChannel s) ->
  go_foldl (fun s msg => let! '(s, _) := doMsg s msg in Ok s) s msgs = Ok s' -> preserves s s'.
Proof.
  intros Hh Ht. revert s. induction Ht as [|m msgs Hm _ IH]; intros s Hr; cbn [go_foldl].
  - intros [= <-]. apply preserves_refl.
  - intros (s1 & E1 & E)%gbind_Ok. apply gbind_Ok in E1 as ([s2 e] & E1 & [= ->]).
    pose proof (Hh _ _ _ _ Hm Hr E1) as P1. eapply preserves_trans; [exact P1|]. apply IH; [|done].
    exact (proj2 (proj1 P1) Hr).
Qed.

Lemma enterNewRound_handles doMsg s s' : handles doMsg -> typedRelay (relayMessageChannel s) ->
  enterNewRound cfg doMsg s = Ok s' -> preserves (setStep s RoundStepPropose) s'.
Proof.
  intros Hh Ht. unfold enterNewRound. set (s0 := setStep s RoundStepPropose).
  intros (b & _ & E)%gbind_Ok. apply gbind_Ok in E as (s1 & E1 & E).
  assert (frame s0 s1) as F1.
  { destruct b; [by apply createBlockAndBroadcast_frames in E1|by injection E1 as <-]. }
  apply (preserves_trans _ s1).
  { split; [by apply passes_frame|]. intros I _. by eapply frame_inv. }
  assert (typedRelay (relayMessageChannel s1)) as Ht1 by (by rewrite (f_relay _ _ F1)).
  destruct (relayMessageChannel s1 !! Height s1) as [u|] eqn:Eu; [|injection E as <-; apply preserves_refl].
  destruct (u !! Round s1) as [msgs|] eqn:El; [|injection E as <-; apply preserves_refl].
  eapply replay_handles; [done| |done|exact E]. by eapply Ht1.
Qed.

Lemma voted_new ty st s s' : voted ty st s -> Height s' = Height s + 1 -> out s' = out s -> voted ty st s'.
Proof.
  intros [V1 V2] Eh Eo. split; unfold sentVotes in *; rewrite Eo; [|done]. eapply Forall_impl; [exact V1|].
  cbn. intros v Hv'. left. unfold votedFor in Hv'. lia.
Qed.

(** What is needed of the last state of a height. *)
Record ended (s : t) : Prop := {
  e_data : dataOK s;
  e_relay : typedRelay (relayMessageChannel s);
  e_prevote : voted TendermintPrevote RoundStepPropose s;
  e_precommit : voted TendermintPrecommit RoundStepPrevote s;
  e_justified : Forall justified (sentVotes TendermintPrecommit s);
  e_bound : 0 <= Height s <= zlen (out s)
}.

Lemma inv_ended s : inv s -> Step s = RoundStepCommit -> ended s.
Proof.
  intros [I1 I2 I3 I4 I5 I6 I7] Es. split; try done. destruct (Z.leb_spec (Step s) RoundStepPropose); steps; lia.
Qed.
Lemma ended_frame s s' : frame s s' -> ended s -> ended s'.
Proof.
  intros F [I1 I3 I4 I5 I6 I7].
  split; rewrite ?(f_relay _ _ F), ?(f_height _ _ F), ?(sentVotes_frame _ _ _ (or_intror eq_refl) F);
    try done; [by apply (f_data _ _ F)|by eapply voted_frame; [left|..]|by eapply voted_frame; [right|..]|].
  pose proof (grown_length _ _ (grown _ _ F)). lia.
Qed.

Lemma enterNewHeight_handles doMsg s s' : handles doMsg -> enterNewHeight cfg doMsg s = Ok s' ->
  typedRelay (relayMessageChannel s) -> passes s s' /\ (ended s -> sentBound s' -> inv s').
Proof.
  intros Hh. unfold enterNewHeight. set (s0 := setStep s RoundStepCommit).
  set (s1 := if IsIShard s0 then _ else s0).
  assert (Step s1 = RoundStepCommit /\ Height s1 = Height s /\ out s1 = out s /\ heightDatas s1 = heightDatas s /\
    relayMessageChannel s1 = relayMessageChannel s) as (E1 & E2 & E3 & E4 & E5)
    by (unfold s1; by destruct (IsIShard s0)). clearbody s1.
  assert (Next s1 = mk (i64 (Height s + 1)) 0 RoundStepNewHeight (heightDatas s) (delete (Height s) (relayMessageChannel s))
    (chain s1) (cross s1) (world s1)) as -> by (unfold Next; by rewrite E1, E2, E4, E5).
  cbn [heightDatas]. intros (h & Eh & E)%gbind_Ok Ht.
  set (s2 := setData _ h) in E.
  destruct (enterNewRound_handles doMsg s2 s' Hh (typed_delete _ _ Ht) E) as [G I].
  assert (out s2 = out s) as Eo by exact E3.
  assert (passes s s') as G'.
  { destruct G as [G1 G2]. split; [unfold grows in *; by rewrite <- Eo|]. intros _. by apply G2, typed_delete. }
  split; [exact G'|]. intros [D1 D2 D3 D4 D5 D6] Hb. apply I; [|done].
  pose proof (bound_grows _ _ (proj1 G') Hb) as Hb'. unfold sentBound in Hb'.
  assert (i64 (Height s + 1) = Height s + 1) as E64 by (apply wrap_s_small; unfold in_s; lia).
  assert (PyramidHeight.Height h = i64 (PyramidHeight.Height (heightDatas s) + 1) /\ PyramidHeight.Round h = 0) as [K1 K2].
  { unfold PyramidHeight.NextHeight, PyramidHeight.clearAll, PyramidHeight.clearPrevote, PyramidHeight.clearPrecommit in Eh.
    apply gbind_Ok in Eh as (h1 & Eh1 & Eh). apply gbind_Ok in Eh1 as (v1 & _ & [= <-]).
    by apply gbind_Ok in Eh as (v2 & _ & [= <-]). }
  destruct D1 as [R1 R2 R3 R4].
  assert (Height (setStep s2 RoundStepPropose) = Height s + 1) as Hs by (cbn; exact E64).
  split; try done.
  - split; [by eapply r_next|cbn; by rewrite K1, R2|done|done].
  - by apply typed_delete.
  - by eapply voted_new.
  - by eapply voted_new.
  - unfold sentVotes. change (out (setStep s2 RoundStepPropose)) with (out s2). by rewrite Eo.
  - rewrite Hs. change (out (setStep s2 RoundStepPropose)) with (out s2). rewrite Eo. cbn [Step setStep].
    destruct (Z.leb_spec RoundStepPropose RoundStepPropose); lia.
Qed.

Lemma doCommit_handles doMsg s s' : handles doMsg -> doCommit cfg doMsg s = Ok s' -> typedRelay (relayMessageChannel s) ->
  passes s s' /\ (ended s -> sentBound s' -> inv s').
Proof.
  intros Hh E Ht. unfold doCommit in E. apply gbind_Ok in E as (p & _ & E). apply gbind_Ok in E as (s1 & E1 & E).
  assert (frame s s1) as F.
  { destruct (_ && _); [|by injection E1 as <-]. apply gbind_Ok in E1 as (bz & _ & [= <-]). by apply related_frames. }
  destruct (enterNewHeight_handles doMsg s1 s' Hh E) as [G I]; [by rewrite (f_relay _ _ F)|].
  split; [etransitivity; [by apply passes_frame|done]|]. intros He. apply I. by eapply ended_frame.
Qed.

(** ** Runs *)

Lemma handles_all fuel : handles (doMessage cfg fuel) /\
  forall s s', typedRelay (relayMessageChannel s) -> handleStateTransition cfg fuel s = Ok s' -> preserves s s'.
Proof.
  induction fuel as [|fuel [IHm IHt]]; [done|]. split.
  - intros s m s' e Hm Ht E. cbn [doMessage] in E. apply gbind_Ok in E as ([s1 r] & E1 & E).
    apply addMessage_kept in E1 as K1; [|done]. cbn [fst] in K1.
    assert (preserves s s1) as P1 by (split; [by apply passes_kept|intros I _; by eapply kept_inv]).
    destruct r as [err|]; [by injection E as <- _|]. apply gbind_Ok in E as (s2 & E2 & [= <- _]).
    eapply preserves_trans; [exact P1|]. apply IHt; [exact (proj2 (proj1 P1) Ht)|done].
  - intros s s' Ht E. cbn [handleStateTransition] in E. apply gbind_Ok in E as ([s1 o] & E1 & E).
    apply transition_frames in E1. pose proof (stepped_passes _ _ _ E1) as G1.
    assert (preserves s s1) as P1 by (split; [done|intros I _; by eapply stepped_inv]).
    destruct o.
    + by injection E as <-.
    + eapply preserves_trans; [exact P1|]. apply IHt; [exact (proj2 G1 Ht)|done].
    + apply gbind_Ok in E as (s2 & E2 & E).
      destruct (doCommit_handles _ _ _ IHm E2 (proj2 G1 Ht)) as [G2 I2].
      apply (preserves_trans _ s2).
      * split; [by etransitivity|]. intros I Hb. apply I2; [|done]. apply inv_ended; [by eapply stepped_inv|].
        by inversion E1; subst.
      * apply IHt; [|done]. exact (proj2 G2 (proj2 G1 Ht)).
Qed.

Lemma Precommit_typed v : Precommit.ValidateBasic v = None -> typedMsg (MPrecommit v).
Proof.
  unfold Precommit.ValidateBasic. cbn. by destruct (Z.eqb_spec (Precommit.VoteType v) VoteTypePrecommit).
Qed.

Lemma Receive_preserves fuel s ch bz mtype s' err : typedRelay (relayMessageChannel s) ->
  Receive cfg fuel s ch bz mtype = Ok (s', err) -> preserves s s'.
Proof.
  intros Ht.
  assert (forall A (m : go (option A)) name validate msg,
    (forall a, validate a = Ok None -> typedMsg (msg a)) ->
    receiveWith cfg fuel s m name validate msg = Ok (s', err) -> preserves s s') as Hr.
  { intros A m name validate msg Hm E. unfold receiveWith in E. apply gbind_Ok in E as (o & _ & E).
    destruct o as [a|]; [|injection E as <- _; apply preserves_refl].
    apply gbind_Ok in E as (e & Ee & E). destruct e; [injection E as <- _; apply preserves_refl|].
    exact (proj1 (handles_all fuel) _ _ _ _ (Hm _ Ee) Ht E). }
  unfold Receive. intros E.
  repeat match type of E with
  | (if ?b then _ else _) = _ => destruct b
  | receiveWith _ _ _ _ _ _ _ = _ => apply Hr in E; [exact E|]; try done
  | Ok _ = _ => injection E as <- _; apply preserves_refl
  end.
  intros v [= Ev]. by apply Precommit_typed.
Qed.

(** What a node goes through: it is made, started, and receives messages, each
    of which it handles with enough fuel. *)
Inductive run : t -> Prop :=
| RunStart a mp cmp d s0 fuel s :
    NewConsensusState my si a mp cmp d = Ok s0 -> Start cfg fuel s0 = Ok s -> run s
| RunReceive s fuel ch bz mtype s' err :
    run s -> Receive cfg fuel s ch bz mtype = Ok (s', err) -> run s'.

Lemma NewConsensusState_ended a mp cmp d s0 : NewConsensusState my si a mp cmp d = Ok s0 ->
  Height s0 = 0 /\ ended s0.
Proof.
  unfold NewConsensusState. intros (h & Eh & [= <-])%gbind_Ok. split; [done|].
  assert (PyramidHeight.Height h = 0 /\ PyramidHeight.Round h = 0) as [K1 K2].
  { unfold PyramidHeight.NewHeightData, PyramidHeight.clearAll, PyramidHeight.clearPrevote, PyramidHeight.clearPrecommit in Eh.
    apply gbind_Ok in Eh as (h1 & Eh1 & [= <-]). apply gbind_Ok in Eh1 as (h2 & Eh2 & Eh1).
    apply gbind_Ok in Eh2 as (v1 & _ & [= <-]). by apply gbind_Ok in Eh1 as (v2 & _ & [= <-]). }
  split; [split; [by eapply r_new|done..]| |split; constructor|split; constructor|constructor|done].
  intros h' u n l Hl. cbn in Hl. by rewrite lookup_empty in Hl.
Qed.

Lemma run_holds s : run s -> typedRelay (relayMessageChannel s) /\ (sentBound s -> inv s).
Proof.
  induction 1 as [a mp cmp d s0 fuel s E0 E|s fuel ch bz mtype s' err _ [IHt IHi] E].
  - destruct (NewConsensusState_ended _ _ _ _ _ E0) as (Ez & Hd).
    unfold Start in E. rewrite Ez in E. change (0 =? 0) with true in E. cbv iota in E.
    destruct (enterNewHeight_handles _ _ _ (proj1 (handles_all fuel)) E (e_relay _ Hd)) as [P I].
    split; [exact (proj2 P (e_relay _ Hd))|]. intros Hb. by apply I.
  - pose proof (Receive_preserves _ _ _ _ _ _ _ IHt E) as [P I]. split; [exact (proj2 P IHt)|].
    intros Hb. apply I; [|done]. apply IHi. by eapply bound_grows; [exact (proj1 P)|].
Qed.

(** C15: the package that a node of the comparison protocols works on is always
    one of the reachable packages of its height, whatever it receives: agreement
    and certificates hold for running nodes. *)
Theorem package_reachable s : run s -> sentBound s ->
  reachable my si (heightDatas s) /\ PyramidHeight.Height (heightDatas s) = Height s /\
  Round s = 0 /\ RoundStepPropose <= Step s <= RoundStepCommit.
Proof. intros [_ I]%run_holds Hb. destruct (I Hb) as [[D1 D2 D3 D4] Is _ _ _ _ _]. done. Qed.

(** C6: a node votes at most once for every height, and every precommit it sends
    names a hash and a verdict that more than two thirds of the power prevoted for
    at that height, in a package the node went through. *)
Theorem votes_once_justified s : run s -> sentBound s ->
  NoDup (pbv_height <$> sentVotes TendermintPrevote s) /\
  NoDup (pbv_height <$> sentVotes TendermintPrecommit s) /\
  forall v, v ∈ sentVotes TendermintPrecommit s -> exists h, reachable my si h /\
    PyramidHeight.Height h = pbv_height v /\
    VoteSetSpec.twoThirds peers (PyramidHeight.Prevotes h) (pbv_hash v) (pbv_code v =? CodeTypeOK).
Proof.
  intros [_ I]%run_holds Hb. destruct (I Hb) as [_ _ _ [_ V1] [_ V2] J _]. split; [done|]. split; [done|].
  intros v Hin. rewrite Forall_forall in J. exact (J v Hin).
Qed.
End safety.
End PyramidSafety.
