(* ===== verification/PyramidCodecs.v ===== *)
(** * A concrete encoding of the messages of the comparison protocols

    In the style of [Codecs]; a map is written as the list of its entries. *)

From S2P Require Import Prelude Wire Types PyramidTypes Votes Codecs PyramidVotes.
Local Open Scope Z_scope.

Definition serOptions : Ser (gmap string string) :=
  serMap (serList (serPair serString serString)) map_to_list list_to_map
    (fun m => list_to_map_to_list m).

Definition serPyramidReceipt : Ser PyramidReceipt.pbReceipt :=
  serMap (serPair (serPair serZ serString) (serPair serString serOptions))
    (fun m => ((PyramidReceipt.pbCode m, PyramidReceipt.pbLog m), (PyramidReceipt.pbInfo m, PyramidReceipt.pbOptions m)))
    (fun x => PyramidReceipt.mkpb x.1.1 x.1.2 x.2.1 x.2.2)
    (fun m => match m with PyramidReceipt.mkpb _ _ _ _ => eq_refl end).

Definition serCSB : Ser pbCrossShardBlock :=
  serMap (serPair (serOption serBlock) (serOption serPrecommitAggregated))
    (fun m => (pbcsb_block m, pbcsb_sigs m)) (fun x => mkpbCrossShardBlock x.1 x.2)
    (fun m => match m with mkpbCrossShardBlock _ _ => eq_refl end).
Definition serAccept : Ser pbMessageAccept :=
  serMap (serPair serBytes (serOption serPrecommitAggregated))
    (fun m => (pbma_hash m, pbma_sigs m)) (fun x => mkpbMessageAccept x.1 x.2)
    (fun m => match m with mkpbMessageAccept _ _ => eq_refl end).
Definition serCommit : Ser pbMessageCommit :=
  serMap (serPair serBytes (serOption serPrecommitAggregated))
    (fun m => (pbmc_hash m, pbmc_sigs m)) (fun x => mkpbMessageCommit x.1 x.2)
    (fun m => match m with mkpbMessageCommit _ _ => eq_refl end).
Definition serAcceptSet : Ser pbMessageAcceptSet :=
  serMap (serPair (serList (serOption serAccept)) serBytes)
    (fun m => (pbmas_accepts m, pbmas_hash m)) (fun x => mkpbMessageAcceptSet x.1 x.2)
    (fun m => match m with mkpbMessageAcceptSet _ _ => eq_refl end).
Definition serOK : Ser pbMessageOK :=
  serMap (serPair serZ serString) (fun m => (pbmo_height m, pbmo_chain m)) (fun x => mkpbMessageOK x.1 x.2)
    (fun m => match m with mkpbMessageOK _ _ => eq_refl end).

Module PyramidDemoCodecs.
Export DemoCodecs.
#[export] Instance pyramidReceiptSer : Codec PyramidReceipt.pbReceipt := SerCodec serPyramidReceipt.
#[export] Instance crossShardBlockSer : Codec pbCrossShardBlock := SerCodec serCSB.
#[export] Instance messageAcceptSer : Codec pbMessageAccept := SerCodec serAccept.
#[export] Instance messageAcceptSetSer : Codec pbMessageAcceptSet := SerCodec serAcceptSet.
#[export] Instance messageCommitSer : Codec pbMessageCommit := SerCodec serCommit.
#[export] Instance messageOKSer : Codec pbMessageOK := SerCodec serOK.
End PyramidDemoCodecs.
