(* ===== verification/PyramidDecisions.v ===== *)
(** * Decisions and waiting in the comparison protocols

    What a vote of a B shard for a decision is based on, and what happens to an I
    shard that counts one [MessageOK] too many. *)

From S2P Require Import Prelude BitVector Convert Hash Merkle Wire Types PyramidTypes.
From S2P Require Import PartSet Signer Votes Store HeightData Codecs Consensus ConsensusSafety.
From S2P Require Import PyramidVotes PyramidVotesSpec PyramidHeight PyramidHeightSpec PyramidConsensus PyramidSafety PyramidCodecs.
Local Open Scope Z_scope.

Module PyramidDecisions.
Import PyramidDefinition PyramidConsensus PyramidSafety.

Section decisions.
Context `{Hash, StdTime, BLS, DB, !ABCIConn, !MempoolConn, Env}.
Context `{!Codec pbBlock, !Codec pbProposal, !Codec pbVote, !Codec pbPart, !Codec PyramidReceipt.pbReceipt,
          !Codec pbCrossShardBlock, !Codec pbMessageAccept, !Codec pbMessageAcceptSet, !Codec pbMessageCommit,
          !Codec pbMessageOK}.
Context (cfg : Config).

(** ** The vote for a decision *)

Definition certified (s : t) (sigs : PrecommitAggregated.t) : Prop :=
  isRelated s (chainOf sigs) = true /\ verifySignatures s sigs = Ok true.
Definition accepted (ma : MessageAccept.t) : bool := PrecommitAggregated.IsOK (MessageAccept.CollectiveSignatures ma).

Lemma fromRelated_certified s sigs : fromRelated s sigs = Ok true <-> certified s sigs.
Proof. unfold fromRelated, certified. destruct (isRelated _ _); cbn [negb]; naive_solver. Qed.

Lemma checkAccepts_spec s l pvote v : checkAccepts s l pvote = Ok (true, v) ->
  Forall (fun ma => certified s (MessageAccept.CollectiveSignatures ma)) l /\ v = pvote && forallb accepted l.
Proof.
  revert pvote. induction l as [|ma l IH]; intros pvote; cbn [checkAccepts forallb].
  - intros [= <-]. by rewrite andb_true_r.
  - intros (valid & Ev & E)%gbind_Ok. destruct valid; [|done]. apply IH in E as [Hl ->].
    split; [constructor; [by apply fromRelated_certified|done]|]. by rewrite andb_assoc.
Qed.

Lemma Hash_type b : blockType (fst (PyramidBlock.Hash_ b)) = blockType b.
Proof. unfold blockType. destruct (PyramidBlock.Hash_block b) as (-> & _). done. Qed.
Lemma Hash_tx b : theTx (fst (PyramidBlock.Hash_ b)) = theTx b.
Proof. unfold theTx. by destruct (PyramidBlock.Hash_block b) as (_ & -> & _). Qed.

(** C11: a validator of a B shard prevotes for a decision block only if it holds
    one set of acceptances, whose hash is that of the pending block, with as many
    acceptances as there are related shards, each with a certificate that verifies
    under the keys of a related shard; the prevote says that the block commits
    exactly when all of them agree. Only the hash of the set is compared with the
    pending block: the block that each acceptance names and the one that its
    certificate is for are not, and an acceptance may come twice
    ([PyramidConsensusDemo.one_answer_twice]). *)
Theorem decision_backed s s' b : IsBShard s = true -> PyramidHeight.Block (heightDatas s) = Some b ->
  blockType b = BLOCKTYPE_BCommitBlock -> doPropose cfg s = Ok s' ->
  exists tx ba v bz, theTx b = Some tx /\ MessageAcceptSet.NewMessageAcceptSetFromBytes tx = Ok (Some ba) /\
    MessageAcceptSet.BlockHash ba = pendingCrossShardBlockHash (cross s) /\
    zlen (MessageAcceptSet.Accepts ba) = zlen (related s) /\
    Forall (fun ma => certified s (MessageAccept.CollectiveSignatures ma)) (MessageAcceptSet.Accepts ba) /\
    out s' = out s ++ [mkSent (myID s) ChannelIDConsensusState bz TendermintPrevote] /\
    Prevote.ProtoBytes v = Ok bz /\ Prevote.BlockHeaderHash v = snd (PyramidBlock.Hash_ b) /\
    Prevote.IsOK v = forallb accepted (MessageAcceptSet.Accepts ba).
Proof.
  intros HB Eb Et E. unfold doPropose, hashBlock in E. rewrite Eb in E. cbn [deref gbind] in E.
  pose proof (Hash_type b) as Et'. pose proof (Hash_tx b) as Ex.
  destruct (PyramidBlock.Hash_ b) as [b1 hs]. cbn [fst snd] in *. cbn [gbind] in E.
  set (s1 := setBlockHash _ hs) in E. change (PyramidHeight.Block (heightDatas s1)) with (Some b1) in E. cbn [deref gbind] in E.
  change (IsBShard s1) with (IsBShard s) in E. rewrite HB in E.
  apply gbind_Ok in E as ([flag pvote] & Ec & E). destruct flag; [|done]. cbn [negb] in E.
  unfold checkB in Ec. rewrite Et', Et in Ec.
  change (checkBCommit s1 b1 = Ok (true, pvote)) in Ec. unfold checkBCommit in Ec. rewrite Ex in Ec.
  destruct (theTx b) as [tx|]; [|done]. apply gbind_Ok in Ec as ([ba|] & Eba & Ec); [|done].
  case_bool_decide as Ep; [|done]. cbn [negb] in Ec. change (related s1) with (related s) in Ec.
  destruct (Z.eqb_spec (zlen (MessageAcceptSet.Accepts ba)) (zlen (related s))) as [El|]; [|done]. cbn [negb] in Ec.
  apply checkAccepts_spec in Ec as [Hc ->]. cbn [andb] in E.
  apply gbind_Ok in E as (sig & _ & E). apply gbind_Ok in E as ([h err] & Eh & E).
  apply gbind_Ok in Eh as ([vs err'] & _ & [= <- _]).
  apply gbind_Ok in E as (bz & Ebz & [= <-]). exists tx, ba. eexists _, bz.
  split; [done|]. split; [done|]. split; [symmetry; exact Ep|]. split; [done|]. split; [exact Hc|].
  split; [|split; [exact Ebz|split; [done|]]].
  - rewrite Next_grows. reflexivity.
  - by destruct (forallb _ _).
Qed.

(** ** A negative count *)

Context (my : string) (si : PyramidShardInfo.t) (peers : list Peer.t) (Hv : validShard my si peers).
Context (HI : PyramidShardInfo.IsIShard si = true).

#[local] Existing Instance frame_preorder.

(** The package is reachable, and the count is negative with room for [n] more. *)
Record stalled (h n : Z) (s : t) : Prop := {
  st_data : dataOK my si s;
  st_relay : typedRelay (relayMessageChannel s);
  st_height : Height s = h;
  st_count : - 2 ^ 63 + n <= bcount (cross s) < 0
}.

Lemma stalled_frame h n s s' : frame my si s s' -> stalled h n s -> stalled h n s'.
Proof.
  intros F [S1 S2 S3 S4].
  split; rewrite ?(f_relay _ _ _ _ F), ?(f_height _ _ _ _ F), ?(f_count _ _ _ _ F); try done.
  by apply (f_data _ _ _ _ F).
Qed.
Lemma stalled_step h n s st : stalled h n s -> stalled h n (setStep s st).
Proof. intros [[] S2 S3 S4]. by split. Qed.
Lemma stalled_vote h n s s1 bz ty : frame my si s s1 -> RoundStepPropose <= Step s < RoundStepCommit ->
  stalled h n s -> stalled h n (Next (SendInternal s1 bz ty)).
Proof.
  intros F Hs S. rewrite Next_small by (cbn; by rewrite (f_step _ _ _ _ F)). apply stalled_step.
  destruct (stalled_frame _ _ _ _ F S) as [[] S2 S3 S4]. by split.
Qed.

Lemma stalled_identity h n s : stalled h n s -> IsIShard s = true.
Proof.
  intros S. unfold IsIShard, PyramidHeight.IsIShard.
  pose proof (reachable_inv my si peers Hv _ (d_reach _ _ _ (st_data _ _ _ S))) as I. by rewrite (PyramidHeightSpec.i_info _ _ _ _ I).
Qed.

Lemma stalled_transition h n s s' o : stalled h n s -> transition cfg s = Ok (s', o) ->
  o <> Consensus.Finished /\ stalled h n s'.
Proof.
  intros S E. apply (transition_frames cfg my si peers Hv) in E.
  destruct E as [s' F|_ Hc|s1 s' Es F E|s1 s' Es F Em E|s1 Es F].
  - split; [done|by eapply stalled_frame].
  - destruct (st_count _ _ _ S). rewrite (Hc (stalled_identity _ _ _ S)) in *. lia.
  - split; [done|]. destruct (doPropose_votes cfg my si s1 s' E) as (s2 & v & bz & F2 & -> & _).
    apply (stalled_vote h n s); [by etransitivity|by rewrite Es|done].
  - split; [done|]. destruct (doPrevote_votes cfg my si s1 s' E) as (s2 & v & bz & F2 & -> & _).
    apply (stalled_vote h n s); [by etransitivity|by rewrite Es|done].
  - split; [done|]. rewrite Next_small by (rewrite (f_step _ _ _ _ F), Es; done). apply stalled_step.
    by eapply stalled_frame.
Qed.

Lemma stalled_handle fuel h n s s' : stalled h n s -> handleStateTransition cfg fuel s = Ok s' -> stalled h n s'.
Proof.
  revert s. induction fuel as [|fuel IH]; intros s S; [done|]. cbn [handleStateTransition].
  intros ([s1 o] & E1 & E)%gbind_Ok. destruct (stalled_transition _ _ _ _ _ S E1) as [Ho S1].
  destruct o; [by injection E as <-|by eapply IH|done].
Qed.

Lemma stalled_message fuel h n s m s' e : 0 <= n -> typedMsg m -> stalled h (n + 1) s ->
  doMessage cfg fuel s m = Ok (s', e) -> stalled h n s'.
Proof.
  intros Hn Hm S. destruct fuel as [|fuel]; [done|]. cbn [doMessage]. intros ([s1 r] & E1 & E)%gbind_Ok.
  assert (stalled h n s1) as S1.
  { apply (addMessage_kept cfg my si) in E1; [|done]. destruct E1 as (rl & c & Ht & Hc & F). cbn [fst] in F.
    apply (stalled_frame _ _ _ _ F). destruct S as [[D1 D2 D3 D4] S2 S3 S4]. split; [done|by apply Ht|done|].
    cbn. destruct Hc as [->| ->]; [lia|]. rewrite wrap_s_small by (unfold in_s; lia). lia. }
  destruct r as [err|]; [by injection E as <- _|]. apply gbind_Ok in E as (s2 & E & [= <- _]).
  by eapply stalled_handle.
Qed.

(** A message that a node receives: fuel, bytes and type. *)
Fixpoint receives (s : t) (l : list (nat * bytes * Z)) : go t :=
  match l with
  | [] => Ok s
  | (fuel, bz, ty) :: l =>
      let! '(s, _) := Receive cfg fuel s ChannelIDConsensusState bz ty in receives s l
  end.

Lemma stalled_receive fuel h n s bz ty s' e : 0 <= n -> stalled h (n + 1) s ->
  Receive cfg fuel s ChannelIDConsensusState bz ty = Ok (s', e) -> stalled h n s'.
Proof.
  intros Hn S. assert (stalled h n s) as Sn by (destruct S as [S1 S2 S3 S4]; split; [done..|lia]).
  assert (forall A (m : go (option A)) name validate msg,
    (forall a, validate a = Ok None -> typedMsg (msg a)) ->
    receiveWith cfg fuel s m name validate msg = Ok (s', e) -> stalled h n s') as Hr.
  { intros A m name validate msg Hm E. unfold receiveWith in E. apply gbind_Ok in E as (o & _ & E).
    destruct o as [a|]; [|by injection E as <- _].
    apply gbind_Ok in E as (e' & Ee & E). destruct e'; [by injection E as <- _|].
    by eapply stalled_message; [..|exact E]; [|apply Hm|]. }
  unfold Receive. intros E.
  repeat match type of E with
  | (if ?b then _ else _) = _ => destruct b
  | receiveWith _ _ _ _ _ _ _ = _ => apply Hr in E; [exact E|]; try done
  | Ok _ = _ => by injection E as <- _
  end.
  intros v [= Ev]. by apply Precommit_typed.
Qed.

(** An I shard whose count of [MessageOK] is negative never ends its height,
    whatever messages it receives. *)
Theorem negative_count_stalls s l s' : run cfg my si s -> sentBound s ->
  - 2 ^ 62 <= bcount (cross s) < 0 -> zlen l <= 2 ^ 62 -> receives s l = Ok s' -> Height s' = Height s.
Proof.
  intros Hr Hb Hc Hl E.
  assert (stalled (Height s) (zlen l) s) as S.
  { destruct (run_holds cfg my si peers Hv s Hr) as [Ht I]. split; [by apply I|done|done|lia]. }
  clear Hr Hb Hc Hl. apply (st_height (Height s) 0). revert S. generalize (Height s) as h. intros h.
  revert s E. induction l as [|[[fuel bz] ty] l IH]; intros s E S; cbn [receives] in E.
  - by injection E as <-.
  - apply gbind_Ok in E as ([s1 e] & E1 & E). eapply IH; [exact E|]. eapply stalled_receive; [lia| |exact E1].
    replace (zlen l + 1) with (zlen ((fuel, bz, ty) :: l)); [exact S|]. cbn [length]. lia.
Qed.
End decisions.
End PyramidDecisions.

(** ** A shard of three validators *)

Module PyramidConsensusDemo.
Import DemoHash Demo StoreDemo PyramidDemoCodecs ConsensusDemo PyramidDefinition PyramidConsensus PyramidSafety PyramidDecisions.

(** An application that does nothing, an empty mempool, and a fixed clock. *)
#[export] Instance idlePyramid : PyramidDefinition.ABCIConn :=
  {| App := unit;
     CheckLock _ _ := Some true;
     PreExecutionB _ _ := Some (mkRespB CodeTypeOK [] []);
     PreExecutionI _ _ := Some (mkPreRespI CodeTypeOK []);
     ExecutionInnerShard a d b := Some (a, d, b, (mkExec [], (0, 0, 0)));
     AcceptCrossShard a d b _ _ := Some (a, d, b, (mkExec [], (1, 0, 0)));
     AcceptCommitShard a _ _ _ _ := Some (a, (mkExec [], (1, 0, 0)));
     AppCommit _ := [];
     FillData _ b := Some b |}.
#[export] Instance idlePool : PyramidDefinition.MempoolConn :=
  {| Pool := unit; ReapTx _ _ _ := Some ([], 0, None); Update p _ _ := Some (p, None) |}.
#[export] Program Instance demoEnv : PyramidDefinition.Env :=
  {| Now := fun _ => mkTime 1700000000 0; shuffle := fun A _ l => l; Intn := fun _ _ => 0 |}.
Next Obligation. done. Qed.
Next Obligation. intros. lia. Qed.

(** Their only state, and an empty store. *)
Definition app : @App _ idlePyramid := ().
Definition pool : @Pool _ _ idlePool := ().
Definition noBlocks : Database := (∅ : gmap bytes bytes).

(** An I shard without related shards, and a B shard that it answers to. *)
Definition siI : PyramidShardInfo.t := PyramidShardInfo.mk {[my := peers]} ∅ ∅ BLOCKTYPE_I ∅.
Definition siB : PyramidShardInfo.t :=
  PyramidShardInfo.mk {["b" := peers; "i" := peers]} {["i" := true]} ∅ BLOCKTYPE_B ∅.
Lemma siI_valid : validShard my siI peers.
Proof. split; [reflexivity|by repeat constructor|reflexivity]. Qed.

Definition config (i : nat) : Config := mkConfig (S i) (Z.of_nat i) 1000 4096 100.
Definition noHeight (si : PyramidShardInfo.t) : PyramidHeight.t :=
  PyramidHeight.mk 0 0 my 0 si ∅ ∅ None PyramidHeight.noVotes PyramidHeight.noVotes None None [].
Definition blank (h : PyramidHeight.t) : t :=
  mk 0 0 0 h ∅ (mkChain (mkTime 0 0) [] [] [] []) (mkCross ∅ ∅ ∅ 0 None [] 0 (-1) None ∅)
    (mkWorld app pool pool noBlocks [] 0).
Definition orBlank (m : go t) : t := valueOf (blank (noHeight siI)) m.

Definition made : t := orBlank (NewConsensusState my siI app pool pool noBlocks).
Definition started : t := orBlank (Start (config 1) 20 made).
Definition hash : bytes := match PyramidHeight.PartSet (heightDatas started) with Some ps => PartSet.BlockHeaderHash ps | None => [] end.
(** The toy scheme signs with the key itself. *)
Definition vote (i : nat) : bytes :=
  valueOf [] (Prevote.ProtoBytes (Prevote.setSignature (Prevote.NewPrevote 1 0 hash (Z.of_nat i)) (SignerDemo.unary (S i)))).
Definition got (s : t) (bz : bytes) (ty : Z) : t :=
  orBlank (let! '(s, _) := Receive (config 1) 20 s ChannelIDConsensusState bz ty in Ok s).
(** The proposer hears the votes of the others, and votes itself. *)
Definition voting : t := got (got started (vote 0) TendermintPrevote) (vote 2) TendermintPrevote.
(** A [MessageOK] that nobody signed, of a shard that does not exist. *)
Definition forged : bytes := valueOf [] (MessageOK.ProtoBytes (MessageOK.mk 1 "nobody")).
Definition miscounted : t := got started forged PyramidDefinition.MessageOK.

Example voting_voted : Step voting = RoundStepPrecommit /\
  length (sentVotes TendermintPrevote voting) = 1%nat /\ length (sentVotes TendermintPrecommit voting) = 1%nat.
Proof. vm_compute. split_and!; reflexivity. Qed.
Example forged_counts : bcount (cross started) = 0 /\ bcount (cross miscounted) = -1.
Proof. vm_compute. split; reflexivity. Qed.

Lemma got_run s bz ty : run (config 1) my siI s ->
  match Receive (config 1) 20 s ChannelIDConsensusState bz ty with Ok _ => true | _ => false end = true ->
  run (config 1) my siI (got s bz ty).
Proof.
  intros Hr Ho. unfold got, orBlank. destruct (Receive _ _ _ _ _ _) as [[s' e]| |] eqn:E; [|done..].
  by eapply RunReceive.
Qed.
Lemma started_run : run (config 1) my siI started.
Proof.
  apply (RunStart (config 1) my siI app pool pool noBlocks made 20).
  - apply (valueOf_Ok (blank (noHeight siI))). vm_compute. reflexivity.
  - apply (valueOf_Ok (blank (noHeight siI))). vm_compute. reflexivity.
Qed.
Lemma voting_run : run (config 1) my siI voting.
Proof. apply got_run; [apply got_run; [exact started_run|]|]; vm_compute; reflexivity. Qed.
Lemma miscounted_run : run (config 1) my siI miscounted.
Proof. apply got_run; [exact started_run|]. vm_compute. reflexivity. Qed.
Lemma voting_bound : sentBound voting.
Proof. vm_compute. reflexivity. Qed.
Lemma miscounted_bound : sentBound miscounted.
Proof. vm_compute. reflexivity. Qed.

Lemma package_reachable_witness :
  reachable my siI (heightDatas voting) /\ PyramidHeight.Height (heightDatas voting) = Height voting /\
  Round voting = 0 /\ RoundStepPropose <= Step voting <= RoundStepCommit.
Proof. exact (package_reachable (config 1) my siI peers siI_valid voting voting_run voting_bound). Defined.

Lemma votes_once_justified_witness :
  NoDup (pbv_height <$> sentVotes TendermintPrevote voting) /\
  NoDup (pbv_height <$> sentVotes TendermintPrecommit voting) /\
  forall v, v ∈ sentVotes TendermintPrecommit voting -> exists h, reachable my siI h /\
    PyramidHeight.Height h = pbv_height v /\
    VoteSetSpec.twoThirds peers (PyramidHeight.Prevotes h) (pbv_hash v) (pbv_code v =? CodeTypeOK).
Proof. exact (votes_once_justified (config 1) my siI peers siI_valid voting voting_run voting_bound). Defined.

(** The votes of the others arrive, and the node waits for ever. *)
Definition rest : list (nat * bytes * Z) :=
  [(20%nat, vote 0, TendermintPrevote); (20%nat, vote 2, TendermintPrevote)].
Lemma negative_count_stalls_witness : Height (orBlank (receives (config 1) miscounted rest)) = Height miscounted.
Proof.
  apply (negative_count_stalls (config 1) my siI peers siI_valid eq_refl miscounted rest);
    [exact miscounted_run|exact miscounted_bound|vm_compute; split; [discriminate|reflexivity]|vm_compute; discriminate|].
  apply (valueOf_Ok (blank (noHeight siI))). vm_compute. reflexivity.
Defined.

(** A validator of the B shard sees the decision on its pending block: the one I
    shard has accepted it. *)
Definition pending : bytes := replicate 32 Byte.x07.
Definition answer (code : Z) : MessageAccept.t :=
  MessageAccept.mk pending (PrecommitAggregated.mk VoteTypePrecommitAggregated code (Some (BV.mk 3 [Byte.x07]))
    (PartSetHeader.mk 1 0 1 pending "i") pending (SignerDemo.unary 6)).
Definition answers (code : Z) : MessageAcceptSet.t := MessageAcceptSet.mk [answer code] pending.
Definition decision (code : Z) : Block.t :=
  bareBlock BLOCKTYPE_BCommitBlock [valueOf [] (MessageAcceptSet.ProtoBytes (answers code))] [].
Definition deciding (code : Z) : t :=
  mk 1 0 RoundStepPropose
    (PyramidHeight.setBlock (valueOf (noHeight siB) (PyramidHeight.NewHeightData "b" 1 siB)) (decision code)) ∅
    (mkChain (mkTime 0 0) [] [] [] []) (mkCross ∅ ∅ ∅ 0 None pending 0 0 (Some {["i" := answer code]}) ∅)
    (mkWorld app pool pool noBlocks [] 0).

(** The vote follows the answer. *)
Definition verdict (s : t) : list Z := map pbv_code (sentVotes TendermintPrevote s).
Example verdicts : verdict (orBlank (doPropose (config 0) (deciding CodeTypeOK))) = [CodeTypeOK] /\
  verdict (orBlank (doPropose (config 0) (deciding CodeTypeAbort))) = [CodeTypeAbort].
Proof. vm_compute. split; reflexivity. Qed.

(** An answer needs the signature of one validator only, under any hash. *)
Definition weakAnswer : MessageAccept.t :=
  MessageAccept.mk pending (PrecommitAggregated.mk VoteTypePrecommitAggregated CodeTypeOK (Some (BV.mk 3 [Byte.x01]))
    (PartSetHeader.mk 1 0 1 pending "i") (replicate 32 Byte.x09) (SignerDemo.unary 1)).
Example weak_answer_counts :
  (let! '(s, _) := addMessageAccept (setCross (deciding CodeTypeOK)
                     (mkCross ∅ ∅ ∅ 0 None pending 0 1 (Some ∅) ∅)) weakAnswer in Ok (maCount (cross s))) = Ok 0 /\
  fromRelated (deciding CodeTypeOK) (MessageAccept.CollectiveSignatures weakAnswer) = Ok true.
Proof. vm_compute. split; reflexivity. Qed.

(** With two related shards, one answer twice is enough. *)
Definition siB2 : PyramidShardInfo.t :=
  PyramidShardInfo.mk {["b" := peers; "i" := peers; "j" := peers]} {["i" := true; "j" := true]} ∅ BLOCKTYPE_B ∅.
Definition twice : Block.t :=
  bareBlock BLOCKTYPE_BCommitBlock
    [valueOf [] (MessageAcceptSet.ProtoBytes (MessageAcceptSet.mk [answer CodeTypeOK; answer CodeTypeOK] pending))] [].
Definition decidingTwice : t :=
  setData (deciding CodeTypeOK)
    (PyramidHeight.setBlock (valueOf (noHeight siB2) (PyramidHeight.NewHeightData "b" 1 siB2)) twice).
Example one_answer_twice : verdict (orBlank (doPropose (config 0) decidingTwice)) = [CodeTypeOK].
Proof. vm_compute. reflexivity. Qed.

Lemma decision_backed_witness :
  let s := deciding CodeTypeAbort in
  exists tx ba v bz, theTx (decision CodeTypeAbort) = Some tx /\
    MessageAcceptSet.NewMessageAcceptSetFromBytes tx = Ok (Some ba) /\
    MessageAcceptSet.BlockHash ba = pending /\
    zlen (MessageAcceptSet.Accepts ba) = zlen (related s) /\
    Forall (fun ma => certified s (MessageAccept.CollectiveSignatures ma)) (MessageAcceptSet.Accepts ba) /\
    out (orBlank (doPropose (config 0) s)) = out s ++ [mkSent (myID s) ChannelIDConsensusState bz TendermintPrevote] /\
    Prevote.ProtoBytes v = Ok bz /\ Prevote.BlockHeaderHash v = snd (PyramidBlock.Hash_ (decision CodeTypeAbort)) /\
    Prevote.IsOK v = forallb accepted (MessageAcceptSet.Accepts ba).
Proof.
  apply (decision_backed (config 0) (deciding CodeTypeAbort) (orBlank (doPropose (config 0) (deciding CodeTypeAbort)))
    (decision CodeTypeAbort) eq_refl eq_refl eq_refl).
  apply (valueOf_Ok (blank (noHeight siI))). vm_compute. reflexivity.
Defined.
End PyramidConsensusDemo.
