(* ===== verification/PyramidPools.v ===== *)
(** * The certificates a node of the comparison protocols collects

    Every block, decision and answer that [PyramidConsensus] keeps until a proposer
    takes it was certified by the shard it names, and the count of answers that a B
    shard waits for agrees with the answers it holds. So the decision that a node
    proposes holds one answer of as many different shards as are related, and the
    validators of the shard vote for it as the answers say. *)

From S2P Require Import Prelude BitVector Convert Hash Merkle Wire Types PyramidTypes.
From S2P Require Import PartSet Signer Votes Store HeightData Codecs Consensus ConsensusSafety.
From S2P Require Import PyramidVotes PyramidVotesSpec PyramidHeight PyramidHeightSpec PyramidConsensus PyramidSafety.
From S2P Require Import PyramidCodecs PyramidDecisions.
Local Open Scope Z_scope.

Module PyramidPools.
Import PyramidDefinition PyramidConsensus PyramidSafety PyramidDecisions.

#[local] Instance forallb_Permutation {A} (f : A -> bool) : Proper ((≡ₚ) ==> eq) (forallb f).
Proof.
  induction 1 as [|x l l' _ IH|x y l|l1 l2 l3 _ IH1 _ IH2]; cbn; [done|by rewrite IH| |by rewrite IH1].
  by destruct (f x), (f y).
Qed.

(** Hashing a hashed block changes nothing. *)
Lemma Hash_again `{Hash, StdTime} b : PyramidBlock.Hash_ (fst (PyramidBlock.Hash_ b)) = PyramidBlock.Hash_ b.
Proof.
  destruct (decide (zlen (snd (PyramidBlock.Hash_ b)) = HashSize)) as [|Hne]; [by apply PyramidBlock.Hash_repeats|].
  revert Hne. unfold PyramidBlock.Hash_. change (Block.blockhash (PyramidBlock.fillHeader b)) with (Block.blockhash b).
  cbv zeta. destruct (Z.eqb_spec (zlen (Block.blockhash b)) HashSize); cbn [negb fst snd]; [done|]. intros Hne.
  set (h := default [] _) in *. set (b1 := Block.mk _ _ _ _ h).
  assert (PyramidBlock.fillHeader b1 = b1) as ->.
  { transitivity (Block.mk (Block.Header (PyramidBlock.fillHeader (PyramidBlock.fillHeader b))) (Block.Body b)
      (Block.CrossShardBody b) (Block.Relation b) h); [done|]. by rewrite PyramidBlock.fillHeader_twice. }
  change (Block.blockhash b1) with h. apply Z.eqb_neq in Hne. rewrite Hne. cbn [negb].
  change (Block.Header b1) with (Block.Header (PyramidBlock.fillHeader b)). done.
Qed.

Section pools.
Context `{Hash, StdTime, BLS, DB, !ABCIConn, !MempoolConn, Env}.
Context `{!Codec pbBlock, !Codec pbProposal, !Codec pbVote, !Codec pbPart, !Codec PyramidReceipt.pbReceipt,
          !Codec pbCrossShardBlock, !Codec pbMessageAccept, !Codec pbMessageAcceptSet, !Codec pbMessageCommit,
          !Codec pbMessageOK}.
Context (cfg : Config) (my : string) (si : PyramidShardInfo.t).
(** The shards that are known and the related ones are no more than fit an [int]. *)
Context (Hpeers : Z.of_nat (size (PyramidShardInfo.PeerList si)) < 2 ^ 63)
        (Hrelated : zlen (PyramidShardInfo.related si) < 2 ^ 63).

(** ** The invariant *)

Definition keys : gmap string Verifier := PyramidHeight.peersVerifier <$> PyramidShardInfo.PeerList si.
Definition verified (sigs : PrecommitAggregated.t) : Prop :=
  PrecommitAggregated.VerifySignatures sigs (keys !! chainOf sigs) (BV.Byte (PrecommitAggregated.ValidatorBitVector sigs))
    = Ok true.

Definition goodBlock (hs : bytes) (m : CrossShardBlock.t) : Prop :=
  snd (PyramidBlock.Hash_ (CrossShardBlock.Block m)) = hs /\
  PyramidShardInfo.isRelated si (chainOf (CrossShardBlock.ColleciveSignatures m)) = true /\
  verified (CrossShardBlock.ColleciveSignatures m).
Definition goodCommit (hs : bytes) (m : MessageCommit.t) : Prop :=
  MessageCommit.B_BlockHash m = hs /\ verified (MessageCommit.CollectiveSignatures m).
Definition goodAnswer (pending : bytes) (chain : string) (m : MessageAccept.t) : Prop :=
  chainOf (MessageAccept.CollectiveSignatures m) = chain /\ MessageAccept.B_BlockHash m = pending /\
  verified (MessageAccept.CollectiveSignatures m).

(** The count and the answers; nothing is counted while no block is pending. *)
Definition counted (pending : bytes) (n : Z) (pool : option (gmap string MessageAccept.t)) : Prop :=
  match pool with
  | None => pending = [] /\ n = -1
  | Some pool => n = zlen (PyramidShardInfo.related si) - Z.of_nat (size pool) /\ map_Forall (goodAnswer pending) pool
  end.

Record pools (c : CrossState) : Prop := {
  p_blocks : map_Forall goodBlock (crossShardBlockPool c);
  p_commits : map_Forall goodCommit (commitPool c);
  p_answers : counted (pendingCrossShardBlockHash c) (maCount c) (maPool c)
}.
Record holds (s : t) : Prop := {
  h_info : PyramidHeight.ShardInfo (heightDatas s) = si;
  h_keys : PyramidHeight.AllValidatorSet (heightDatas s) = keys;
  h_pools : pools (cross s)
}.

Lemma verifySignatures_keys s sigs : holds s -> verifySignatures s sigs = Ok true <-> verified sigs.
Proof. intros [_ E _]. unfold verifySignatures. by rewrite E. Qed.
Lemma verified_known sigs : verified sigs -> chainOf sigs ∈ dom (PyramidShardInfo.PeerList si).
Proof.
  unfold verified, keys. rewrite lookup_fmap. intros Hv. apply elem_of_dom.
  by destruct (PyramidShardInfo.PeerList si !! chainOf sigs).
Qed.

(** An answer of every shard at most. *)
Lemma answers_known pending (pool : gmap string MessageAccept.t) :
  map_Forall (goodAnswer pending) pool -> (size pool <= size (PyramidShardInfo.PeerList si))%nat.
Proof.
  intros Hg. rewrite <- !size_dom. apply subseteq_size. intros chain [m Hm]%elem_of_dom.
  destruct (Hg _ _ Hm) as (<- & _ & Hv). by apply verified_known.
Qed.

(** ** Steps that keep it *)

Lemma yields_eq {A B} (m : go A) (f : A -> go B) Q : (forall a, m = Ok a -> yields (f a) Q) -> yields (gbind m f) Q.
Proof. intros Hf b (a & E & Eb)%gbind_Ok. by eapply Hf. Qed.

Definition moves (s s' : t) : Prop := holds s -> holds s'.
#[local] Instance moves_preorder : PreOrder moves.
Proof. split; [intros s Hs; exact Hs|]. intros s1 s2 s3 M1 M2 Hs. by apply M2, M1. Qed.

Lemma moves_same s s' : heightDatas s' = heightDatas s -> cross s' = cross s -> moves s s'.
Proof. intros E1 E2 [I1 I2 I3]. split; by rewrite ?E1, ?E2. Qed.
Lemma moves_cross s c : (pools (cross s) -> pools c) -> moves s (setCross s c).
Proof. intros Hc [I1 I2 I3]. split; [done..|by apply Hc]. Qed.
(** Nothing changes what a package knows of the shards. *)
Definition sameInfo (h h' : PyramidHeight.t) : Prop :=
  PyramidHeight.ShardInfo h' = PyramidHeight.ShardInfo h /\
  PyramidHeight.AllValidatorSet h' = PyramidHeight.AllValidatorSet h.
Lemma moves_data s h : sameInfo (heightDatas s) h -> moves s (setData s h).
Proof. intros [E1 E2] [I1 I2 I3]. split; [by rewrite <- I1|by rewrite <- I2|done]. Qed.
Lemma moves_then {A} (p : A -> t) s s1 (m : go A) :
  moves s s1 -> yields m (fun r => moves s1 (p r)) -> yields m (fun r => moves s (p r)).
Proof. intros Hf Hm. eapply yields_impl; [exact Hm|]. cbn. intros r Hr. by transitivity s1. Qed.

Lemma moves_Next s : moves s (Next s).
Proof. apply moves_same; unfold Next; by destruct (_ =? _). Qed.

#[local] Hint Extern 1 (moves _ (setChain _ _)) => by apply moves_same : core.
#[local] Hint Extern 1 (moves _ (setApp _ _ _)) => by apply moves_same : core.
#[local] Hint Extern 1 (moves _ (SendTo _ _ _ _)) => by apply moves_same : core.
#[local] Hint Extern 1 (moves _ (SendInternal _ _ _)) => by apply moves_same : core.
#[local] Hint Extern 1 (moves _ (SendToRelatedShards _ _ _)) => by apply moves_same : core.
#[local] Hint Extern 1 (moves _ (setMempool _ _)) => by apply moves_same : core.
#[local] Hint Extern 1 (moves _ (setCrossMempool _ _)) => by apply moves_same : core.
#[local] Hint Extern 1 (moves _ (setData _ (PyramidHeight.setBlock _ _))) => by apply moves_data : core.
#[local] Hint Extern 1 (sameInfo _ _) => first [split; reflexivity|eassumption] : core.
#[local] Hint Extern 5 (moves _ _) => reflexivity : core.

Ltac go_through :=
  repeat lazymatch goal with
  | |- yields Panic _ => apply yields_Panic
  | |- yields OutOfFuel _ => apply yields_OutOfFuel
  | |- yields (Ok _) _ => apply yields_Ok; cbn [fst snd]; auto
  | |- yields (match ?x with _ => _ end) _ => destruct x
  | |- yields (gbind (match ?x with _ => _ end) _) _ => destruct x; cbn [gbind]
  | |- yields (gbind (gbind _ _) _) _ => rewrite gbind_assoc
  | |- yields (gbind (Ok _) _) _ => cbn [gbind]
  | |- yields (gbind _ _) _ => apply yields_any; intros ?
  end.

Lemma foldl_moves {A} (f : t -> A -> go t) l s : (forall s a, yields (f s a) (moves s)) -> yields (go_foldl f s l) (moves s).
Proof.
  intros Hf s'. apply (go_foldl_invariant f (moves s)); [|reflexivity].
  intros s1 a s2 _ F E. etransitivity; [exact F|by eapply Hf].
Qed.

(** *** The block that was decided *)

Lemma updateMempool_moves s txs : yields (updateMempool s txs) (moves s).
Proof. unfold updateMempool. go_through. Qed.
Lemma updateIState_moves s b hs : yields (updateIState s b hs) (moves s).
Proof.
  unfold updateIState. destruct (_ =? _); [apply updateMempool_moves|].
  destruct (_ =? _); [|destruct (_ =? _); [|by apply yields_Ok]]; apply yields_Ok, moves_cross;
    intros [P1 P2 P3]; split; try done; by apply map_Forall_delete.
Qed.
Lemma innerShard_moves s b : yields (innerShard s b) (fun r => moves s r.1.1).
Proof. unfold innerShard. go_through. Qed.

Lemma acceptBlock_moves s b c agg isok : yields (acceptBlock cfg s b c agg isok) (fun r => moves s r.1).
Proof.
  unfold acceptBlock. apply yields_any; intros tx. apply yields_any; intros [bs|]; [|done].
  apply yields_any; intros [[[a d] b1] resp]. apply (moves_then fst s (setApp s a d)); [auto|].
  generalize (setApp s a d) as s1. intros s1. destruct (PyramidBlock.Hash_ b1) as [b2 hs].
  apply yields_any; intros p. destruct agg as [agg|]; [|go_through].
  eapply (yields_bind _ _ (moves s1)); [destruct p; go_through|]. intros s2 F2. apply (moves_then fst s1 s2 _ F2).
  eapply yields_bind; [apply updateIState_moves|]. intros s3 F3. by apply yields_Ok.
Qed.
Lemma commitBlocks_moves s b c r : yields (commitBlocks s b c r) (fun r => moves s r.1).
Proof.
  unfold commitBlocks. apply yields_any; intros [hashes commits]. apply yields_any; intros [a resp].
  apply (moves_then fst s (setApp s a (store (world s)))); [auto|]. generalize (setApp s a (store (world s))) as s1. intros s1.
  eapply (yields_bind _ _ (moves s1)).
  - destruct r; [|go_through]. apply foldl_moves. intros s2 hs. apply updateIState_moves.
  - intros s2 F2. by apply yields_Ok.
Qed.
Lemma processIBlock_moves s b c r isok : yields (processIBlock cfg s b c r isok) (fun r => moves s r.1.1).
Proof.
  unfold processIBlock. eapply (yields_bind _ _ (fun r => moves s r.1)).
  { destruct r; [|go_through]. apply yields_any; intros agg. apply yields_any; intros p.
    eapply (yields_bind _ _ (moves s)); [destruct p; go_through|]. intros s1 F1. by apply yields_Ok. }
  intros [s1 agg] F1. cbn [fst] in F1. apply (moves_then (fun r => r.1.1) s s1 _ F1).
  destruct (blockType b =? BLOCKTYPE_InnerShard); [|destruct (blockType b =? BLOCKTYPE_IAcceptBlock);
    [|destruct (blockType b =? BLOCKTYPE_ICommitBlock); [|done]]].
  - eapply yields_bind; [apply innerShard_moves|]. intros [[s2 b2] resp] F2. cbn [fst] in F2.
    apply (moves_then (fun r => r.1.1) s1 s2 _ F2). destruct r; [|go_through].
    destruct (PyramidBlock.Hash_ b2) as [b3 hs].
    eapply yields_bind; [apply updateIState_moves|]. intros s3 F3. by apply yields_Ok.
  - eapply yields_bind; [apply acceptBlock_moves|]. intros [s2 resp] F2. by apply yields_Ok.
  - eapply yields_bind; [apply commitBlocks_moves|]. intros [s2 resp] F2. by apply yields_Ok.
Qed.

(** A new pending block starts an empty pool; a decision ends it. *)
Lemma related_info s : holds s -> related s = PyramidShardInfo.related si.
Proof. intros Hs. unfold related, shardInfo. by rewrite (h_info s Hs). Qed.
Lemma updateBState_moves s b hs c : yields (updateBState s b hs c) (moves s).
Proof.
  unfold updateBState. destruct (_ =? _); [apply updateMempool_moves|]. destruct (_ =? _).
  - apply yields_Ok. intros Hs. rewrite (related_info s Hs). revert Hs. apply moves_cross. intros [P1 P2 P3].
    split; [done..|]. cbn. rewrite map_size_empty. split; [lia|apply map_Forall_empty].
  - destruct (_ =? _); [|by apply yields_Ok]. eapply (yields_bind _ _ (fun s1 => moves s s1 /\ cross s1 = cross s)).
    { destruct c; [|by apply yields_Ok]. destruct (PrefixStore.GetBlockByHash _ _) as [bz [e|]]; [done|].
      apply yields_any; intros ob. apply yields_any; intros ub. apply yields_any; intros [p e].
      apply yields_Ok. split; [auto|done]. }
    intros s1 [F1 E1]. apply yields_Ok. etransitivity; [exact F1|]. apply moves_cross. rewrite E1.
    by intros [P1 P2 P3].
Qed.

Lemma announce_moves s m ty : yields (announce cfg s m ty) (fun s' => moves s s' /\ cross s' = cross s).
Proof.
  unfold announce. apply yields_any; intros []; [|by apply yields_Ok]. apply yields_any; intros bz.
  apply yields_Ok. split; [auto|done].
Qed.
Lemma processBBlock_moves s b : yields (processBBlock cfg s b) (fun r => moves s r.1.1).
Proof.
  unfold processBBlock. destruct (_ =? _); [|destruct (_ =? _); [|destruct (_ =? _); [|done]]].
  - eapply yields_bind; [apply innerShard_moves|]. intros [[s2 b2] resp] F2. cbn [fst] in F2.
    apply (moves_then (fun r => r.1.1) s s2 _ F2). destruct (PyramidBlock.Hash_ b2) as [b3 hs].
    eapply yields_bind; [apply updateBState_moves|]. intros s3 F3. by apply yields_Ok.
  - apply yields_any; intros agg. eapply yields_bind; [by apply announce_moves|]. intros s2 [F2 _].
    apply (moves_then (fun r => r.1.1) s s2 _ F2). destruct (PyramidBlock.Hash_ b) as [b3 hs].
    eapply yields_bind; [apply updateBState_moves|]. intros s3 F3. by apply yields_Ok.
  - apply yields_any; intros agg. eapply yields_bind; [by apply announce_moves|]. intros s2 [F2 _].
    apply (moves_then (fun r => r.1.1) s s2 _ F2).
    eapply yields_bind; [apply updateBState_moves|]. intros s3 F3. apply yields_Ok. cbn [fst].
    etransitivity; [exact F3|]. apply moves_cross. by intros [P1 P2 P3].
Qed.

(** *** The steps of a height *)

Lemma addVote_moves {A} s (m : go (A * option goerr)) (set : A -> PyramidHeight.t) :
  (forall v, sameInfo (heightDatas s) (set v)) ->
  yields (let! '(v, e) := m in Ok (set v, e)) (fun x => moves s (setData s x.1)).
Proof. intros Hset. apply yields_any; intros [v e]. apply yields_Ok, moves_data, Hset. Qed.

Lemma doPropose_moves s : yields (doPropose cfg s) (moves s).
Proof.
  unfold doPropose. eapply (yields_bind _ _ (fun r => moves s r.1)); [unfold hashBlock; go_through|].
  intros [s1 hs] F1. cbn [fst] in F1. apply (moves_then id s s1 _ F1).
  set (s2 := setBlockHash s1 hs). assert (moves s1 s2) as F2 by (by apply moves_same). clearbody s2.
  apply (moves_then id s1 s2 _ F2). unfold id.
  apply yields_any; intros b. apply yields_any; intros [flag pvote]. destruct (negb flag); [done|].
  apply yields_any; intros sig. eapply (yields_bind _ _ (fun x => moves s2 (setData s2 x.1))).
  { by apply addVote_moves. }
  intros [h e] F3. apply yields_any; intros bz. apply yields_Ok. etransitivity; [exact F3|].
  etransitivity; [|apply moves_Next]. by apply moves_same.
Qed.
Lemma doPrevote_moves s : yields (doPrevote cfg s) (moves s).
Proof.
  unfold doPrevote. destruct (VoteSet.GetMaj23 _) as [hs ok]. apply yields_any; intros sig.
  eapply (yields_bind _ _ (fun x => moves s (setData s x.1))); [by apply addVote_moves|].
  intros [h e] F3. apply yields_any; intros bz. apply yields_Ok. etransitivity; [exact F3|].
  etransitivity; [|apply moves_Next]. by apply moves_same.
Qed.
Lemma doPrecommit_moves s : yields (doPrecommit cfg s) (moves s).
Proof.
  unfold doPrecommit. apply yields_any; intros b. eapply (yields_bind _ _ (fun r => moves s r.1.1)).
  { destruct (IsIShard s); [apply processIBlock_moves|apply processBBlock_moves]. }
  intros [[s1 b1] resp] F1. cbn [fst] in F1. apply yields_any; intros root.
  destruct (PyramidBlock.Hash_ b1) as [b2 hs]. apply yields_any; intros [d e]. apply yields_Ok.
  etransitivity; [exact F1|]. etransitivity; [|apply moves_Next].
  transitivity (setData s1 (PyramidHeight.setBlock (heightDatas s1) b2)); [auto|by apply moves_same].
Qed.

Lemma finish_moves f s : (forall h, yields (f h) (fun x => sameInfo h x.1)) ->
  yields (finish f s) (fun x => moves s x.1).
Proof.
  intros Hf. unfold finish. eapply yields_bind; [apply Hf|]. intros [h b] E1. by apply yields_Ok, moves_data.
Qed.
Lemma FinishProposal_info h : yields (PyramidHeight.FinishProposal h) (fun x => sameInfo h x.1).
Proof. unfold PyramidHeight.FinishProposal. go_through. Qed.
Lemma FinishPrevote_info h : yields (PyramidHeight.FinishPrevote h) (fun x => sameInfo h x.1).
Proof.
  unfold PyramidHeight.FinishPrevote. destruct (_ >=? _); [by apply yields_Ok|].
  eapply yields_bind; [apply FinishProposal_info|]. intros [h1 b] E. go_through.
Qed.
Lemma FinishPrecommit_info h : yields (PyramidHeight.FinishPrecommit h) (fun x => sameInfo h x.1).
Proof.
  unfold PyramidHeight.FinishPrecommit. destruct (_ >=? _); [by apply yields_Ok|].
  eapply yields_bind; [apply FinishPrevote_info|]. intros [h1 b] E. go_through.
Qed.

Lemma stepIf_moves s r act : yields r (fun x => moves s x.1) -> (forall s, yields (act s) (moves s)) ->
  yields (stepIf r act) (fun x => moves s x.1).
Proof.
  intros Hr Ha. unfold stepIf. eapply yields_bind; [exact Hr|]. intros [s1 b] F. cbn [fst] in F.
  apply (moves_then fst s s1 _ F). destruct b; [|by apply yields_Ok].
  eapply yields_bind; [apply Ha|]. intros s2 F2. by apply yields_Ok.
Qed.
Lemma transition_moves s : yields (transition cfg s) (fun x => moves s x.1).
Proof.
  unfold transition. destruct (_ =? _); [apply stepIf_moves; [apply finish_moves, FinishProposal_info|apply doPropose_moves]|].
  destruct (_ =? _); [apply stepIf_moves; [apply finish_moves, FinishPrevote_info|apply doPrevote_moves]|].
  destruct (_ =? _); [apply stepIf_moves; [apply finish_moves, FinishPrecommit_info|apply doPrecommit_moves]|].
  destruct (_ =? _); by apply yields_Ok.
Qed.

Lemma createBlockAndBroadcast_moves s : yields (createBlockAndBroadcast cfg s) (moves s).
Proof.
  unfold createBlockAndBroadcast. apply yields_any; intros b0. apply yields_any; intros [b1 ps].
  apply yields_any; intros sig. apply yields_any; intros bz. set (s1 := SendInternal _ bz _).
  assert (moves s s1) as F1.
  { transitivity (tick s); [by apply moves_same|]. transitivity (setData (tick s) (heightDatas s1)); [by apply moves_data|].
    by apply moves_same. }
  apply (moves_then id s s1 _ F1). unfold id. clear F1. clearbody s1. apply foldl_moves. intros s2 p. go_through.
Qed.

(** ** Messages *)

Lemma relay_moves s h r m : moves s (fst (addRelayMessageIfOverTime s h r m)).
Proof. unfold addRelayMessageIfOverTime. repeat case_match; by apply moves_same. Qed.

Lemma addToHeight_moves s height round m add :
  yields (add (heightDatas s)) (fun x => sameInfo (heightDatas s) x.1) ->
  yields (addToHeight s height round m add) (fun x => moves s x.1).
Proof.
  intros Ha. unfold addToHeight. pose proof (relay_moves s height round m) as Fr.
  assert (heightDatas (fst (addRelayMessageIfOverTime s height round m)) = heightDatas s) as Eh
    by (unfold addRelayMessageIfOverTime; by repeat case_match).
  destruct (addRelayMessageIfOverTime _ _ _ _) as [s1 relayed]. cbn [fst] in Fr, Eh.
  destruct relayed; [by apply yields_Ok|]. rewrite Eh. eapply yields_bind; [exact Ha|]. intros [h e] E1.
  cbn [fst] in E1. assert (moves s (setData s1 h)) as F.
  { etransitivity; [exact Fr|]. apply moves_data. by rewrite Eh. }
  by destruct e as [[]|]; apply yields_Ok.
Qed.

Lemma syncBlocks_moves fuel s c isok i : yields (syncBlocks cfg fuel s c isok i) (moves s).
Proof.
  revert s i. induction fuel as [|fuel IH]; intros s i; cbn [syncBlocks]; [done|].
  destruct (PrefixStore.GetBlockByHeight _ _ _) as [[bz|] [e|]]; try by apply yields_Ok.
  apply yields_any; intros [b|]; [|done]. cbn [deref gbind].
  eapply yields_bind; [apply processIBlock_moves|]. intros [[s1 b1] resp] F1. cbn [fst] in F1.
  eapply yields_impl; [apply IH|]. intros s' F. cbn beta in F. etransitivity; [exact F1|]. etransitivity; [|exact F].
  apply moves_cross. by intros [P1 P2 P3].
Qed.

Lemma addCrossShardBlock_moves fuel s m : yields (addCrossShardBlock cfg fuel s m) (fun x => moves s x.1).
Proof.
  unfold addCrossShardBlock. destruct (isRelated s _) eqn:Er; [|by apply yields_Ok]. cbn [negb].
  pose proof (Hash_again (CrossShardBlock.Block m)) as Ea.
  destruct (PyramidBlock.Hash_ (CrossShardBlock.Block m)) as [b hs]. cbn [fst] in Ea.
  destruct (fst _); [by apply yields_Ok|].
  apply yields_eq; intros valid Ev.
  destruct valid; [|by apply yields_Ok]. cbn [negb]. destruct (IsIShard s).
  - apply yields_Ok. intros Hs. rewrite (verifySignatures_keys s _ Hs) in Ev.
    unfold isRelated, shardInfo in Er. rewrite (h_info s Hs) in Er. revert Hs. apply moves_cross. intros [P1 P2 P3].
    split; [|done..]. apply map_Forall_insert_2; [|done]. split; [cbn [CrossShardBlock.Block]; by rewrite Ea|done].
  - apply yields_any; intros [d e]. eapply yields_bind; [apply syncBlocks_moves|]. intros s1 F1.
    apply yields_Ok. etransitivity; [|exact F1]. by apply moves_same.
Qed.

Lemma addMessageAccept_moves s m : yields (addMessageAccept s m) (fun x => moves s x.1).
Proof.
  unfold addMessageAccept. destruct (IsIShard s); [by apply yields_Ok|].
  case_bool_decide as Eb; [|by apply yields_Ok]. cbn [negb].
  apply yields_eq; intros valid Ev.
  destruct valid; [|by apply yields_Ok]. cbn [negb].
  destruct (default ∅ (maPool (cross s)) !! _) eqn:El; [by apply yields_Ok|].
  destruct (maPool (cross s)) as [pool|] eqn:Ep; [|done]. cbn [deref gbind].
  apply yields_Ok. intros Hs. rewrite (verifySignatures_keys s _ Hs) in Ev. revert Hs. apply moves_cross.
  intros [P1 P2 P3]. split; [done..|]. rewrite Ep in P3. destruct P3 as [En Hg]. cbn [default] in El. cbn.
  assert (map_Forall (goodAnswer (pendingCrossShardBlockHash (cross s))) (<[chainOf (MessageAccept.CollectiveSignatures m):=m]> pool)) as Hg'
    by (by apply map_Forall_insert_2).
  split; [|exact Hg']. pose proof (answers_known _ _ Hg') as Hle. rewrite map_size_insert_None in * by done.
  rewrite En, wrap_s_small by (unfold in_s; lia). lia.
Qed.

Lemma addMessageCommit_moves s m : yields (addMessageCommit s m) (fun x => moves s x.1).
Proof.
  unfold addMessageCommit. destruct (IsBShard s); [by apply yields_Ok|]. destruct (default _ _); [by apply yields_Ok|].
  apply yields_eq; intros valid Ev.
  destruct valid; [|by apply yields_Ok]. cbn [negb]. apply yields_Ok. intros Hs.
  rewrite (verifySignatures_keys s _ Hs) in Ev. revert Hs. apply moves_cross. intros [P1 P2 P3].
  split; [done| |done]. by apply map_Forall_insert_2.
Qed.

Lemma addMessageOK_moves s m : yields (addMessageOK s m) (fun x => moves s x.1).
Proof.
  unfold addMessageOK. pose proof (relay_moves s (MessageOK.Height m) 0 (MMessageOK m)) as Fr.
  destruct (addRelayMessageIfOverTime _ _ _ _) as [s1 relayed]. cbn [fst] in Fr.
  destruct relayed; [by apply yields_Ok|]. destruct (_ <? _); [by apply yields_Ok|].
  destruct (default _ _); [by apply yields_Ok|]. apply yields_any; intros seen. apply yields_Ok.
  etransitivity; [exact Fr|]. apply moves_cross. by intros [P1 P2 P3].
Qed.

Lemma addMessage_moves fuel s m : yields (addMessage cfg fuel s m) (fun x => moves s x.1).
Proof.
  destruct m as [p|p|p|p|p|p|p|p]; cbn [addMessage].
  - apply addToHeight_moves. intros [h e] E. by apply AddPart_votes in E as ((E1 & _ & E2 & _) & _).
  - apply addToHeight_moves. apply yields_any; intros index [h e] E. by apply AddProposal_same in E as ((E1 & _ & E2 & _) & _).
  - apply addToHeight_moves. unfold PyramidHeight.AddPrevote. apply yields_any; intros [vs e]. by apply yields_Ok.
  - apply addToHeight_moves. unfold PyramidHeight.AddPrecommit. apply yields_any; intros [vs e]. by apply yields_Ok.
  - apply addCrossShardBlock_moves.
  - apply addMessageAccept_moves.
  - apply addMessageCommit_moves.
  - apply addMessageOK_moves.
Qed.

(** ** Runs *)

Lemma NextHeight_info h : yields (PyramidHeight.NextHeight h) (sameInfo h).
Proof.
  unfold PyramidHeight.NextHeight, PyramidHeight.clearAll, PyramidHeight.clearPrevote, PyramidHeight.clearPrecommit. go_through.
Qed.

Definition doesMove (doMsg : t -> Msg -> go (t * option goerr)) : Prop :=
  forall s m, yields (doMsg s m) (fun x => moves s x.1).

Lemma enterNewHeight_moves doMsg s : doesMove doMsg -> yields (enterNewHeight cfg doMsg s) (moves s).
Proof.
  intros Hd. unfold enterNewHeight. set (s0 := setStep s RoundStepCommit). set (s1 := if IsIShard s0 then _ else s0).
  assert (moves s s1) as F1.
  { transitivity s0; [by apply moves_same|]. unfold s1. destruct (IsIShard s0); [|done].
    apply moves_cross. by intros [P1 P2 P3]. }
  clearbody s1. pose proof (moves_Next s1) as F2.
  eapply yields_bind; [apply NextHeight_info|]. intros h E1. set (s2 := setData (Next s1) h).
  assert (moves s s2) as F by (etransitivity; [exact F1|]; etransitivity; [exact F2|]; by apply moves_data).
  clearbody s2. apply (moves_then id s s2 _ F). unfold id, enterNewRound.
  apply yields_any; intros b. eapply (yields_bind _ _ (moves s2)).
  { destruct b; [|by apply yields_Ok, moves_same]. apply (moves_then id s2 (setStep s2 RoundStepPropose)); [by apply moves_same|].
    apply createBlockAndBroadcast_moves. }
  intros s3 F3. destruct (relayMessageChannel s3 !! _) as [u|]; [|by apply yields_Ok].
  destruct (u !! _) as [l|]; [|by apply yields_Ok]. apply (moves_then id s2 s3 _ F3). apply foldl_moves.
  intros s4 m. eapply yields_bind; [apply Hd|]. intros [s5 e] F5. by apply yields_Ok.
Qed.
Lemma doCommit_moves doMsg s : doesMove doMsg -> yields (doCommit cfg doMsg s) (moves s).
Proof.
  intros Hd. unfold doCommit. apply yields_any; intros p. eapply (yields_bind _ _ (moves s)); [destruct (_ && _); go_through|].
  intros s1 F1. apply (moves_then id s s1 _ F1). by apply enterNewHeight_moves.
Qed.

Lemma moves_all fuel : doesMove (doMessage cfg fuel) /\ forall s, yields (handleStateTransition cfg fuel s) (moves s).
Proof.
  induction fuel as [|fuel [IHm IHt]]; [done|]. split.
  - intros s m. cbn [doMessage]. eapply yields_bind; [apply addMessage_moves|]. intros [s1 r] F1. cbn [fst] in F1.
    apply (moves_then fst s s1 _ F1). destruct r as [e|]; [by apply yields_Ok|].
    eapply yields_bind; [apply IHt|]. intros s2 F2. by apply yields_Ok.
  - intros s. cbn [handleStateTransition]. eapply yields_bind; [apply transition_moves|]. intros [s1 o] F1. cbn [fst] in F1.
    apply (moves_then id s s1 _ F1). unfold id. destruct o; [by apply yields_Ok|apply IHt|].
    eapply yields_bind; [by apply doCommit_moves|]. intros s2 F2. apply (moves_then id s1 s2 _ F2). apply IHt.
Qed.

Lemma Receive_moves fuel s ch bz mtype : yields (Receive cfg fuel s ch bz mtype) (fun x => moves s x.1).
Proof.
  assert (forall A (m : go (option A)) name validate msg,
    yields (receiveWith cfg fuel s m name validate msg) (fun x => moves s x.1)) as Hr.
  { intros A m name validate msg. unfold receiveWith. apply yields_any; intros [a|]; [|by apply yields_Ok].
    apply yields_any; intros [e|]; [by apply yields_Ok|]. apply (proj1 (moves_all fuel)). }
  unfold Receive. repeat (destruct (_ =? _); [apply Hr|]). by apply yields_Ok.
Qed.

Lemma run_keeps_pools s : run cfg my si s -> holds s.
Proof.
  induction 1 as [a mp cmp d s0 fuel s E0 E|s fuel ch bz mtype s' err _ IH E].
  - assert (holds s0) as Hs0.
    { unfold NewConsensusState in E0. apply gbind_Ok in E0 as (h & Eh & [= <-]).
      unfold PyramidHeight.NewHeightData, PyramidHeight.clearAll, PyramidHeight.clearPrevote, PyramidHeight.clearPrecommit in Eh.
      apply gbind_Ok in Eh as (h1 & Eh1 & [= <-]). apply gbind_Ok in Eh1 as (h2 & Eh2 & Eh1).
      apply gbind_Ok in Eh2 as (v1 & _ & [= <-]). apply gbind_Ok in Eh1 as (v2 & _ & [= <-]).
      split; [done..|]. split; cbn; [apply map_Forall_empty..|done]. }
    unfold Start in E. destruct (_ =? _); [by eapply (enterNewHeight_moves _ _ (proj1 (moves_all fuel)))|].
    by eapply (proj2 (moves_all fuel)).
  - exact (Receive_moves _ _ _ _ _ _ E IH).
Qed.

(** C12: whatever a node receives, the blocks, decisions and answers it keeps are
    filed under their own hash and were certified by the shard they name, blocks
    by a related one; and while a B shard waits for answers, the count of those
    that are missing is the number of related shards less the answers it holds. *)
Theorem pools_certified s : run cfg my si s ->
  map_Forall goodBlock (crossShardBlockPool (cross s)) /\ map_Forall goodCommit (commitPool (cross s)) /\
  counted (pendingCrossShardBlockHash (cross s)) (maCount (cross s)) (maPool (cross s)).
Proof. intros [_ _ []]%run_keeps_pools. done. Qed.

(** ** The decision *)

Definition chainsOf (mas : list MessageAccept.t) : list string := chainOf ∘ MessageAccept.CollectiveSignatures <$> mas.

Lemma pool_chains pending (pool : gmap string MessageAccept.t) : map_Forall (goodAnswer pending) pool ->
  chainsOf (map snd (map_to_list pool)) = map fst (map_to_list pool).
Proof.
  intros Hg. unfold chainsOf. change (map snd (map_to_list pool)) with (snd <$> map_to_list pool).
  rewrite <- list_fmap_compose. apply list_fmap_ext. intros i [chain m] Hi. cbn.
  apply list_elem_of_lookup_2, elem_of_map_to_list in Hi. by destruct (Hg _ _ Hi).
Qed.

Lemma createDecision_pool s b : holds s -> createDecision cfg s = Ok b -> blockType b = BLOCKTYPE_BCommitBlock ->
  exists pool mas tx, maPool (cross s) = Some pool /\ mas ≡ₚ map snd (map_to_list pool) /\ theTx b = Some tx /\
    MessageAcceptSet.ProtoBytes (MessageAcceptSet.mk mas (pendingCrossShardBlockHash (cross s))) = Ok tx /\
    zlen mas = zlen (PyramidShardInfo.related si) /\ map_Forall (goodAnswer (pendingCrossShardBlockHash (cross s))) pool.
Proof.
  intros Hs E Hb. pose proof (p_answers _ (h_pools _ Hs)) as Hc. unfold createDecision in E.
  destruct (Z.eqb_spec (maCount (cross s)) 0) as [E0|].
  - destruct (maPool (cross s)) as [pool|]; cbn [counted] in Hc; [|lia]. destruct Hc as [En Hg].
    apply gbind_Ok in E as (tx & Etx & [= <-]). exists pool. eexists _, tx. split; [done|].
    split; [apply shuffle_perm|]. split; [done|]. split; [exact Etx|]. split; [|exact Hg].
    rewrite (shuffle_perm _ _ _). cbn [default]. rewrite length_map, length_map_to_list. lia.
  - unfold createInner, reap in E. apply gbind_Ok in E as ([txs n'] & _ & [= <-]). by cbv in Hb.
Qed.

(** C14: the decision that a node proposes carries exactly the answers it holds:
    one for each of as many different shards as are related, each for the pending
    block and certified by its shard. *)
Theorem decision_complete s b : run cfg my si s -> createDecision cfg s = Ok b -> blockType b = BLOCKTYPE_BCommitBlock ->
  exists mas tx, theTx b = Some tx /\
    MessageAcceptSet.ProtoBytes (MessageAcceptSet.mk mas (pendingCrossShardBlockHash (cross s))) = Ok tx /\
    zlen mas = zlen (PyramidShardInfo.related si) /\ NoDup (chainsOf mas) /\
    Forall (fun ma => MessageAccept.B_BlockHash ma = pendingCrossShardBlockHash (cross s) /\
      verified (MessageAccept.CollectiveSignatures ma)) mas.
Proof.
  intros Hs%run_keeps_pools E Hb. destruct (createDecision_pool s b Hs E Hb) as (pool & mas & tx & Ep & Hm & Ht & Etx & El & Hg).
  exists mas, tx. split; [done|]. split; [done|]. split; [done|]. split.
  - unfold chainsOf. rewrite Hm. change (NoDup (chainsOf (map snd (map_to_list pool)))).
    rewrite (pool_chains _ _ Hg). apply NoDup_fst_map_to_list.
  - rewrite Hm. apply Forall_forall. intros ma ([chain m] & -> & Hi)%list_elem_of_fmap.
    apply elem_of_map_to_list in Hi. by destruct (Hg _ _ Hi) as (_ & ? & ?).
Qed.

(** *** The votes for it *)

(** What the types of the code give: an [int8] code, an [int32] round, and a bit
    vector that was decoded. *)
Definition typed (sigs : PrecommitAggregated.t) : Prop :=
  in_s 8 (PrecommitAggregated.Code sigs) /\ in_s 32 (PartSetHeader.Round (PrecommitAggregated.Header sigs)) /\
  exists bv, PrecommitAggregated.ValidatorBitVector sigs = Some bv /\ BV.wf bv.

Lemma sigs_decode sigs : typed sigs ->
  PrecommitAggregated.NewPrecommitAggregatedFromProto (Some (PrecommitAggregated.ToProto sigs)) = Ok sigs.
Proof.
  intros (Hc & Hr & bv & Ebv & Hw). unfold PrecommitAggregated.NewPrecommitAggregatedFromProto. cbn [deref gbind].
  cbn [PrecommitAggregated.ToProto pba_bits pba_header pba_code pba_type pba_hash pba_sig]. rewrite Ebv.
  rewrite BV.decode_Byte by done. cbn. rewrite !wrap_s_small by done. rewrite <- Ebv.
  destruct sigs as [? ? ? [] ? ?]. done.
Qed.
Lemma answers_decode mas pending tx : Forall (fun ma => typed (MessageAccept.CollectiveSignatures ma)) mas ->
  MessageAcceptSet.ProtoBytes (MessageAcceptSet.mk mas pending) = Ok tx ->
  MessageAcceptSet.NewMessageAcceptSetFromBytes tx = Ok (Some (MessageAcceptSet.mk mas pending)).
Proof.
  intros Ht. unfold MessageAcceptSet.ProtoBytes, MustProtoBytes. destruct (Marshal _) as [bz|] eqn:Em; [|done]. intros [= ->].
  unfold MessageAcceptSet.NewMessageAcceptSetFromBytes. rewrite (Unmarshal_Marshal _ _ Em).
  unfold MessageAcceptSet.NewMessageAcceptSetFromProto. cbn [pbmas_accepts MessageAcceptSet.ToProto MessageAcceptSet.Accepts].
  rewrite (proj2 (go_mapM_Ok _ _ mas)); [done|].
  clear Em. induction Ht as [|ma l Hma _ IH]; cbn [map]; constructor; [|exact IH].
  unfold MessageAccept.NewMessageAcceptFromProto. cbn [deref gbind pbma_sigs MessageAccept.ToProto].
  rewrite sigs_decode by done. by destruct ma.
Qed.

Lemma checkAccepts_verified s mas pvote : holds s -> Forall (fun ma => verified (MessageAccept.CollectiveSignatures ma)) mas ->
  exists v, checkAccepts s mas pvote =
    Ok (forallb (fun ma => PyramidShardInfo.isRelated si (chainOf (MessageAccept.CollectiveSignatures ma))) mas, v) /\
    (Forall (fun ma => PyramidShardInfo.isRelated si (chainOf (MessageAccept.CollectiveSignatures ma)) = true) mas ->
     v = pvote && forallb accepted mas).
Proof.
  intros Hs Hv. revert pvote. induction Hv as [|ma l Hma _ IH]; intros pvote; cbn [checkAccepts forallb].
  - exists pvote. by rewrite andb_true_r.
  - unfold fromRelated, isRelated, shardInfo. rewrite (h_info s Hs).
    destruct (PyramidShardInfo.isRelated si _) eqn:Er; cbn [negb gbind andb].
    + rewrite (proj2 (verifySignatures_keys s _ Hs) Hma). cbn [gbind negb].
      destruct (IH (pvote && accepted ma)) as (v & Ev & Hv). exists v. split; [exact Ev|].
      intros Hf. rewrite andb_assoc. apply Hv. by inversion Hf.
    + exists pvote. split; [done|]. intros Hf. inversion Hf. congruence.
Qed.
End pools.

(** Two nodes of a B shard: the first proposes the decision, the second votes. *)
Section two.
Context `{Hash, StdTime, BLS, DB, !ABCIConn, !MempoolConn, Env}.
Context `{!Codec pbBlock, !Codec pbProposal, !Codec pbVote, !Codec pbPart, !Codec PyramidReceipt.pbReceipt,
          !Codec pbCrossShardBlock, !Codec pbMessageAccept, !Codec pbMessageAcceptSet, !Codec pbMessageCommit,
          !Codec pbMessageOK}.
Context (cfg cfg' : Config) (my : string) (si : PyramidShardInfo.t).
Context (Hpeers : Z.of_nat (size (PyramidShardInfo.PeerList si)) < 2 ^ 63)
        (Hrelated : zlen (PyramidShardInfo.related si) < 2 ^ 63).

(** Every answer has the form that its types give, and [P] of its shard. *)
Definition everyAnswer (s : t) (P : string -> bool) : Prop :=
  map_Forall (fun chain ma => typed (MessageAccept.CollectiveSignatures ma) /\ P chain = true) (default ∅ (maPool (cross s))).

Lemma checkBCommit_decision s s' b b' : run cfg my si s -> holds si s' ->
  createDecision cfg s = Ok b -> blockType b = BLOCKTYPE_BCommitBlock -> theTx b' = theTx b ->
  pendingCrossShardBlockHash (cross s') = pendingCrossShardBlockHash (cross s) ->
  everyAnswer s (fun _ => true) -> exists pool v, maPool (cross s) = Some pool /\
    checkBCommit s' b' = Ok (forallb (PyramidShardInfo.isRelated si) (map fst (map_to_list pool)), v) /\
    (Forall (fun chain => PyramidShardInfo.isRelated si chain = true) (map fst (map_to_list pool)) ->
     v = forallb accepted (map snd (map_to_list pool))).
Proof.
  intros Hs%run_keeps_pools Hs' E Hb Et Ep Ha; [|done..].
  destruct (createDecision_pool cfg si s b Hs E Hb) as (pool & mas & tx & Epool & Hm & Htx & Etx & El & Hg).
  unfold everyAnswer in Ha. rewrite Epool in Ha. cbn in Ha.
  assert (Forall (fun ma => typed (MessageAccept.CollectiveSignatures ma) /\ verified si (MessageAccept.CollectiveSignatures ma)) mas) as Hf.
  { rewrite Hm. apply Forall_forall. intros ma ([chain m] & -> & Hi)%list_elem_of_fmap. apply elem_of_map_to_list in Hi.
    by destruct (Hg _ _ Hi) as (_ & _ & ?), (Ha _ _ Hi). }
  apply Forall_and in Hf as [Hty Hve]. pose proof (answers_decode _ _ _ Hty Etx) as Ed.
  destruct (checkAccepts_verified si s' mas true Hs' Hve) as (v & Ec & Hv).
  exists pool, v. split; [done|]. rewrite <- (pool_chains _ _ _ Hg). split.
  - unfold checkBCommit. rewrite Et, Htx, Ed. cbn [gbind MessageAcceptSet.BlockHash MessageAcceptSet.Accepts].
    rewrite Ep, bool_decide_eq_true_2 by done. cbn [negb]. rewrite (related_info si s' Hs'), El, Z.eqb_refl. cbn [negb].
    rewrite Ec. f_equal. f_equal. unfold chainsOf. rewrite <- Hm.
    clear. induction mas as [|ma l IH]; cbn; [done|by rewrite IH].
  - intros Hr. rewrite Hv.
    + cbn [andb]. by rewrite Hm.
    + rewrite Hm. unfold chainsOf in Hr. by apply Forall_fmap in Hr.
Qed.

(** C13: when all answers that the proposer holds came from related shards, every
    validator that waits for the same block finds the decision well formed, and
    votes to commit exactly when all of them accepted. *)
Theorem decision_passes s s' b b' : run cfg my si s -> run cfg' my si s' ->
  createDecision cfg s = Ok b -> blockType b = BLOCKTYPE_BCommitBlock -> theTx b' = theTx b ->
  pendingCrossShardBlockHash (cross s') = pendingCrossShardBlockHash (cross s) ->
  everyAnswer s (PyramidShardInfo.isRelated si) -> exists pool, maPool (cross s) = Some pool /\
    checkBCommit s' b' = Ok (true, forallb accepted (map snd (map_to_list pool))).
Proof.
  intros Hs Hs'%run_keeps_pools E Hb Et Ep Ha; [|done..]. destruct (checkBCommit_decision s s' b b') as (pool & v & Epool & Ec & Hv); try done.
  { intros chain ma Hl. by destruct (Ha chain ma Hl). }
  exists pool. split; [done|]. unfold everyAnswer in Ha. rewrite Epool in Ha. cbn in Ha.
  assert (Forall (fun chain => PyramidShardInfo.isRelated si chain = true) (map fst (map_to_list pool))) as Hf.
  { apply Forall_forall. intros chain ([c m] & -> & Hi)%list_elem_of_fmap. apply elem_of_map_to_list in Hi.
    by destruct (Ha _ _ Hi). }
  rewrite Ec, (Hv Hf). do 2 f_equal. apply forallb_forall. intros chain Hc%list_elem_of_In.
  rewrite Forall_forall in Hf. by apply Hf.
Qed.

(** One answer from a shard that is not related is counted as an answer; then
    every validator that is to vote on the decision panics. *)
Theorem unrelated_answer_stops s s' b b' pool chain : run cfg my si s -> run cfg' my si s' ->
  createDecision cfg s = Ok b -> blockType b = BLOCKTYPE_BCommitBlock ->
  pendingCrossShardBlockHash (cross s') = pendingCrossShardBlockHash (cross s) ->
  everyAnswer s (fun _ => true) ->
  maPool (cross s) = Some pool -> chain ∈ dom pool -> PyramidShardInfo.isRelated si chain = false ->
  IsBShard s' = true -> theTx b' = theTx b -> blockType b' = BLOCKTYPE_BCommitBlock ->
  doPropose cfg' (setData s' (PyramidHeight.setBlock (heightDatas s') b')) = Panic.
Proof.
  intros Hs Hs'%run_keeps_pools E Hb Ep Ha Epool [ma Hc]%elem_of_dom Hn HB Et Ety; [|done..].
  unfold doPropose, hashBlock. cbn [PyramidHeight.Block PyramidHeight.setBlock PyramidHeight.setProposed heightDatas setData deref gbind].
  pose proof (Hash_type b') as Ety'. pose proof (Hash_tx b') as Ex.
  destruct (PyramidBlock.Hash_ b') as [b1 hs]. cbn [fst snd] in *. cbn [gbind].
  set (s1 := setBlockHash _ hs). change (PyramidHeight.Block (heightDatas s1)) with (Some b1). cbn [deref gbind].
  change (IsBShard s1) with (IsBShard s'). rewrite HB. unfold checkB. rewrite Ety', Ety.
  assert (holds si s1) as Hs1 by (by destruct Hs').
  destruct (checkBCommit_decision s s1 b b1) as (pool' & v & Epool' & Ec & _); try done; [by rewrite Ex|].
  assert (pool' = pool) as -> by congruence. cbn -[checkBCommit s1]. rewrite Ec.
  replace (forallb _ _) with false; [done|]. symmetry. apply not_true_iff_false. intros Hf. rewrite forallb_forall in Hf.
  specialize (Hf chain). rewrite Hf in Hn; [done|]. apply in_map_iff. exists (chain, ma). split; [done|].
  by apply list_elem_of_In, elem_of_map_to_list.
Qed.
End two.
End PyramidPools.

(** ** A B shard that asks one shard, and knows another *)

Module PyramidPoolsDemo.
Import DemoHash Demo StoreDemo PyramidDemoCodecs ConsensusDemo PyramidDefinition PyramidConsensus PyramidSafety PyramidDecisions.
Import PyramidConsensusDemo PyramidPools.

(** A mempool that has a transaction, or none. *)
#[export] Instance onePool : PyramidDefinition.MempoolConn :=
  {| Pool := bool;
     ReapTx p _ _ := Some (if p then ([[Byte.x01]], 1, None) else ([], 0, None));
     Update p _ _ := Some (p, None) |}.
Definition empty : @Pool _ _ onePool := false.
Definition full : @Pool _ _ onePool := true.

Definition siK : PyramidShardInfo.t :=
  PyramidShardInfo.mk {["b" := peers; "i" := peers; "j" := peers]} {["i" := true]} ∅ BLOCKTYPE_B ∅.
Lemma siK_small : Z.of_nat (size (PyramidShardInfo.PeerList siK)) < 2 ^ 63 /\ zlen (PyramidShardInfo.related siK) < 2 ^ 63.
Proof. vm_compute. split; reflexivity. Qed.

Definition blankB : t :=
  mk 0 0 0 (noHeight siK) ∅ (mkChain (mkTime 0 0) [] [] [] []) (mkCross ∅ ∅ ∅ 0 None [] 0 (-1) None ∅)
    (mkWorld app empty full noBlocks [] 0).
Definition hear (i : nat) (s : t) (bz : bytes) (ty : Z) : t :=
  valueOf blankB (let! '(s, _) := Receive (config i) 20 s ChannelIDConsensusState bz ty in Ok s).

(** The second validator proposes a cross-shard block; the third hears it, and the
    votes of the others, and the shard agrees. *)
Definition madeB : t := valueOf blankB (NewConsensusState "b" siK app empty full noBlocks).
Definition proposer : t := valueOf blankB (Start (config 1) 20 madeB).
Definition listener : t := valueOf blankB (Start (config 2) 20 madeB).
Definition blockHash : bytes := match PyramidHeight.PartSet (heightDatas proposer) with Some ps => PartSet.BlockHeaderHash ps | None => [] end.
Definition prevoteOf (i : nat) : bytes :=
  valueOf [] (Prevote.ProtoBytes (Prevote.setSignature (Prevote.NewPrevote 1 0 blockHash (Z.of_nat i)) (SignerDemo.unary (S i)))).
Definition precommitOf (i : nat) : bytes :=
  valueOf [] (Precommit.ProtoBytes (Precommit.setSignature (Precommit.NewPrecommit 1 0 blockHash (Z.of_nat i)) (SignerDemo.unary (S i)))).
Definition votesB : list (bytes * Z) :=
  map (fun m => (content m, messageType m)) (out proposer) ++
  [(prevoteOf 0, TendermintPrevote); (prevoteOf 1, TendermintPrevote);
   (precommitOf 0, TendermintPrecommit); (precommitOf 1, TendermintPrecommit)].
Definition hearAll (s : t) (l : list (bytes * Z)) : t := foldl (fun s m => hear 2 s m.1 m.2) s l.
Definition waiting : t := hearAll listener votesB.

(** An answer for the pending block, in the name of a shard. *)
Definition answerOf (chain : string) (code : Z) : MessageAccept.t :=
  MessageAccept.mk (pendingCrossShardBlockHash (cross waiting))
    (PrecommitAggregated.mk VoteTypePrecommitAggregated code (Some (BV.mk 3 [Byte.x07]))
      (PartSetHeader.mk 1 0 1 pending chain) pending (SignerDemo.unary 6)).
Definition answered (chain : string) (code : Z) : t :=
  hear 2 waiting (valueOf [] (MessageAccept.ProtoBytes (answerOf chain code))) PyramidDefinition.MessageAccept.
(** The first block of the I shard ends the height, and the node proposes. *)
Definition iblock : bytes :=
  valueOf [] (CrossShardBlock.ProtoBytes (CrossShardBlock.mk (bareBlock BLOCKTYPE_InnerShard [] [])
    (PrecommitAggregated.mk VoteTypePrecommitAggregated CodeTypeOK (Some (BV.mk 3 [Byte.x07]))
      (PartSetHeader.mk 1 0 1 pending "i") pending (SignerDemo.unary 6)))).
Definition proposing (chain : string) : t := hear 2 (answered chain CodeTypeOK) iblock PyramidDefinition.CrossShardBlock.
Definition noBlock : Block.t := bareBlock 0 [] [].
Definition decisionOf (s : t) : Block.t := valueOf noBlock (createDecision (config 2) s).
Definition proposed (s : t) : Block.t := default noBlock (PyramidHeight.Block (heightDatas s)).

Example decision_goes_on : maCount (cross waiting) = 1 /\ maCount (cross (answered "i" CodeTypeOK)) = 0 /\
  Height (proposing "i") = 2 /\ Step (proposing "i") = RoundStepPrevote /\
  blockType (proposed (proposing "i")) = BLOCKTYPE_BCommitBlock.
Proof. vm_compute. split_and!; reflexivity. Qed.
(** The answer of a shard that was not asked counts too, and the validator that
    proposes the decision panics on it. *)
Example wrong_shard_counts : maCount (cross (answered "j" CodeTypeOK)) = 0 /\
  match Receive (config 2) 20 (answered "j" CodeTypeOK) ChannelIDConsensusState iblock PyramidDefinition.CrossShardBlock with
  | Panic => true
  | _ => false
  end = true.
Proof. vm_compute. split; reflexivity. Qed.

(** *** The states are states of a run *)

Definition heard (s : t) (bz : bytes) (ty : Z) : bool := isOk (Receive (config 2) 20 s ChannelIDConsensusState bz ty).
Fixpoint heardAll (s : t) (l : list (bytes * Z)) : bool :=
  match l with [] => true | m :: l => heard s m.1 m.2 && heardAll (hear 2 s m.1 m.2) l end.

Lemma hear_run s bz ty : run (config 2) "b" siK s -> heard s bz ty = true -> run (config 2) "b" siK (hear 2 s bz ty).
Proof.
  intros Hr Ho. unfold hear, heard in *. destruct (Receive _ _ _ _ _ _) as [[s' e]| |] eqn:E; [|done..].
  by eapply RunReceive.
Qed.
Lemma hearAll_run s l : run (config 2) "b" siK s -> heardAll s l = true -> run (config 2) "b" siK (hearAll s l).
Proof.
  revert s. induction l as [|m l IH]; intros s Hr; cbn [heardAll]; [done|]. intros [H1 H2]%andb_true_iff.
  apply IH; [by apply hear_run|done].
Qed.
Lemma waiting_run : run (config 2) "b" siK waiting.
Proof.
  apply hearAll_run; [|by vm_compute]. apply (RunStart (config 2) "b" siK app empty full noBlocks madeB 20).
  - apply (valueOf_Ok blankB). by vm_compute.
  - apply (valueOf_Ok blankB). by vm_compute.
Qed.
Lemma answered_run chain : heard waiting (valueOf [] (MessageAccept.ProtoBytes (answerOf chain CodeTypeOK))) PyramidDefinition.MessageAccept = true ->
  run (config 2) "b" siK (answered chain CodeTypeOK).
Proof. apply hear_run, waiting_run. Qed.
Lemma proposing_run : run (config 2) "b" siK (proposing "i").
Proof.
  apply (hear_run (answered "i" CodeTypeOK) iblock PyramidDefinition.CrossShardBlock).
  - apply answered_run. vm_compute. reflexivity.
  - vm_compute. reflexivity.
Qed.

Lemma answered_decision chain : isOk (createDecision (config 2) (answered chain CodeTypeOK)) = true ->
  createDecision (config 2) (answered chain CodeTypeOK) = Ok (decisionOf (answered chain CodeTypeOK)).
Proof. apply valueOf_Ok. Qed.

Definition answersOf (chain : string) : gmap string MessageAccept.t := {[chain := answerOf chain CodeTypeOK]}.
Lemma answer_typed chain : typed (MessageAccept.CollectiveSignatures (answerOf chain CodeTypeOK)).
Proof. split; [by vm_compute|]. split; [by vm_compute|]. eexists. split; [done|]. by vm_compute. Qed.
Lemma answered_typed chain P : maPool (cross (answered chain CodeTypeOK)) = Some (answersOf chain) -> P chain = true ->
  everyAnswer (answered chain CodeTypeOK) P.
Proof.
  intros E HP. unfold everyAnswer. rewrite E. apply map_Forall_singleton. split; [apply answer_typed|done].
Qed.

(** *** Witnesses *)

Lemma pools_certified_witness :
  let c := cross (answered "i" CodeTypeOK) in
  map_Forall (goodBlock siK) (crossShardBlockPool c) /\ map_Forall (goodCommit siK) (commitPool c) /\
  counted siK (pendingCrossShardBlockHash c) (maCount c) (maPool c).
Proof.
  apply (pools_certified (config 2) "b" siK (proj1 siK_small) (proj2 siK_small) (answered "i" CodeTypeOK)).
  apply answered_run. by vm_compute.
Defined.

Lemma decision_complete_witness :
  let s := answered "i" CodeTypeOK in
  exists mas tx, theTx (decisionOf s) = Some tx /\
    MessageAcceptSet.ProtoBytes (MessageAcceptSet.mk mas (pendingCrossShardBlockHash (cross s))) = Ok tx /\
    zlen mas = zlen (PyramidShardInfo.related siK) /\ NoDup (chainsOf mas) /\
    Forall (fun ma => MessageAccept.B_BlockHash ma = pendingCrossShardBlockHash (cross s) /\
      verified siK (MessageAccept.CollectiveSignatures ma)) mas.
Proof.
  apply (decision_complete (config 2) "b" siK (proj1 siK_small) (proj2 siK_small) (answered "i" CodeTypeOK)).
  - apply answered_run. by vm_compute.
  - apply answered_decision. by vm_compute.
  - by vm_compute.
Defined.

(** The node that collected the answer votes on its own proposal. *)
Lemma decision_passes_witness : exists pool, maPool (cross (answered "i" CodeTypeOK)) = Some pool /\
  checkBCommit (proposing "i") (proposed (proposing "i")) = Ok (true, forallb accepted (map snd (map_to_list pool))).
Proof.
  apply (decision_passes (config 2) (config 2) "b" siK (proj1 siK_small) (proj2 siK_small)
    (answered "i" CodeTypeOK) (proposing "i") (decisionOf (answered "i" CodeTypeOK)) (proposed (proposing "i"))).
  - apply answered_run. by vm_compute.
  - exact proposing_run.
  - apply answered_decision. by vm_compute.
  - by vm_compute.
  - by vm_compute.
  - by vm_compute.
  - apply answered_typed; by vm_compute.
Defined.

Lemma unrelated_answer_stops_witness :
  let s := answered "j" CodeTypeOK in
  doPropose (config 2) (setData s (PyramidHeight.setBlock (heightDatas s) (decisionOf s))) = Panic.
Proof.
  apply (unrelated_answer_stops (config 2) (config 2) "b" siK (proj1 siK_small) (proj2 siK_small)
    (answered "j" CodeTypeOK) (answered "j" CodeTypeOK) (decisionOf (answered "j" CodeTypeOK))
    (decisionOf (answered "j" CodeTypeOK)) (answersOf "j") "j").
  - apply answered_run. by vm_compute.
  - apply answered_run. by vm_compute.
  - apply answered_decision. by vm_compute.
  - by vm_compute.
  - done.
  - apply answered_typed; by vm_compute.
  - by vm_compute.
  - apply elem_of_dom. eexists. apply lookup_singleton_eq.
  - by vm_compute.
  - by vm_compute.
  - done.
  - by vm_compute.
Defined.
End PyramidPoolsDemo.
