(* ===== verification/PyramidTermination.v ===== *)
(** * The consensus of the comparison protocols answers every message

    As in [Termination]: handling a message may finish a height, replay the
    messages kept for the next one, and so on; this ends, because a height is only
    left with the vote of another validator and only finitely many messages are
    kept. The blocks of an I shard that a B shard catches up with end where one is
    missing in its store. *)

From S2P Require Import Prelude BitVector Convert Hash Merkle Wire Types PyramidTypes.
From S2P Require Import PartSet Signer Votes Store HeightData Consensus ConsensusSafety Bank.
From S2P Require Import PyramidVotes PyramidVotesSpec PyramidHeight.
From S2P Require Import PyramidHeightSpec PyramidConsensus PyramidSafety Codecs.
From S2P Require Import PyramidCodecs PyramidDecisions PyramidPools Relay Termination.
Local Open Scope Z_scope.

Module PyramidTermination.
Import PyramidDefinition PyramidConsensus PyramidSafety.

Section ending.
Context `{Hash, StdTime, BLS, DB, !ABCIConn, !MempoolConn, Env}.
Context `{!Codec pbBlock, !Codec pbProposal, !Codec pbVote, !Codec pbPart, !Codec PyramidReceipt.pbReceipt,
          !Codec pbCrossShardBlock, !Codec pbMessageAccept, !Codec pbMessageAcceptSet, !Codec pbMessageCommit,
          !Codec pbMessageOK}.
Context (cfg : Config).
Hypothesis HMaxPartSize : 0 < MaxPartSize cfg.

(** ** Every handler and every action ends *)

#[local] Hint Resolve fillElems_ends gather_ends addKeys_ends : ends.
Lemma collect_returns `{Vote A} (vs : VoteSet.t A) ids sigs bv : ends (VoteSet.collect vs ids sigs bv).
Proof. revert sigs bv. induction ids; intros; cbn [VoteSet.collect]; ends. Qed.
Lemma split_returns data : ends (SplitByteArray data (MaxPartSize cfg)).
Proof.
  destruct (splitLoop_spec (length data) data (MaxPartSize cfg) 0 HMaxPartSize) as (cs & E & _); [lia..|].
  unfold SplitByteArray. by rewrite E.
Qed.
Lemma prevote_signing p : ends (Prevote.SignBytes p).
Proof. ends. Qed.
Lemma precommit_signing p : ends (Precommit.SignBytes p).
Proof. ends. Qed.
#[local] Hint Resolve collect_returns split_returns prevote_signing precommit_signing : ends.
Lemma addVote_returns `{Vote A} h (vs : VoteSet.t A) p vh vr sb : ends sb -> ends (PyramidHeight.addVote h vs p vh vr sb).
Proof. ends. Qed.
Lemma AddPart_returns h p : ends (PyramidHeight.AddPart h p).
Proof. ends. Qed.
#[local] Hint Resolve addVote_returns AddPart_returns : ends.
Lemma checkAccepts_returns s l b : ends (checkAccepts s l b).
Proof. revert b. induction l; intros; cbn [checkAccepts]; ends. Qed.
Lemma checkICommit_returns s l : ends (checkICommit s l).
Proof. induction l; intros; cbn [checkICommit]; ends. Qed.
Lemma readCommits_returns l : ends (readCommits l).
Proof. induction l; intros; cbn [readCommits]; ends. Qed.
Lemma updateIState_returns s b hs : ends (updateIState s b hs).
Proof. ends. Qed.
#[local] Hint Resolve checkAccepts_returns checkICommit_returns readCommits_returns updateIState_returns : ends.
Lemma processIBlock_returns s b c r ok : ends (processIBlock cfg s b c r ok).
Proof. ends. Qed.
Lemma processBBlock_returns s b : ends (processBBlock cfg s b).
Proof. ends. Qed.
#[local] Hint Resolve processIBlock_returns processBBlock_returns : ends.

Lemma transition_returns s : ends (transition cfg s).
Proof. ends. Qed.
Lemma createBlockAndBroadcast_returns s : ends (createBlockAndBroadcast cfg s).
Proof. ends. Qed.
Lemma isProposer_returns s : ends (isProposer cfg s).
Proof. ends. Qed.
Lemma NextHeight_returns h : ends (PyramidHeight.NextHeight h).
Proof. ends. Qed.
#[local] Hint Resolve transition_returns createBlockAndBroadcast_returns isProposer_returns NextHeight_returns : ends.

(** ** A package with no vote but the own one *)

Context (my : string) (si : PyramidShardInfo.t) (peers : list Peer.t).
Context (Hv : validShard my si peers).
(** The own vote is no quorum. *)
Hypothesis Hown : 3 * power peers (signerIndex cfg) <= 2 * allVotes peers.

Record alone (h : PyramidHeight.t) : Prop := {
  al_pass : PyramidHeight.PassStep h < RoundStepPrevote;
  al_slots i v : VoteSetSpec.slot (PyramidHeight.Prevotes h) i = Some v -> Z.of_nat i = signerIndex cfg
}.

(** An operation that adds no prevote and passes no step. *)
Definition silent (h h' : PyramidHeight.t) : Prop :=
  PyramidHeight.Prevotes h' = PyramidHeight.Prevotes h /\ PyramidHeight.PassStep h' = PyramidHeight.PassStep h.
Lemma silent_alone h h' : silent h h' -> alone h -> alone h'.
Proof. intros [E1 E2] [L1 L2]. split; [lia|by rewrite E1]. Qed.

Lemma AddVote_slots `{Vote A} (vs vs' : VoteSet.t A) p w err i v : VoteSet.AddVote vs p w = Ok (vs', err) ->
  VoteSetSpec.slot vs' i = Some v -> VoteSetSpec.slot vs i = Some v \/ Z.of_nat i = GetIndex p.
Proof.
  unfold VoteSet.AddVote. intros (seen & _ & E)%gbind_Ok. destruct seen.
  { apply gbind_Ok in E as (sl & _ & E). apply gbind_Ok in E as (raw & _ & E).
    destruct (_ || _); injection E as <- _; auto. }
  apply gbind_Ok in E as ([bits ?] & _ & E). apply gbind_Ok in E as (votes' & [Hi ->]%upd_Ok & [= <- _]).
  set (vs1 := VoteSet.mk _ _ _ _ _ _ _ _). assert (VoteSet.votes (VoteSet.checkMaj23 vs1 (GetBlockHeaderHash p) (IsOK p)) = VoteSet.votes vs1) as E1.
  { unfold VoteSet.checkMaj23. destruct (VoteSet.has_mj23 vs1); [done|]. by destruct (_ >? _). }
  unfold VoteSetSpec.slot. rewrite E1. cbn [vs1 VoteSet.votes].
  destruct (decide (i = Z.to_nat (GetIndex p))) as [->|Hne]; [right; lia|]. rewrite list_lookup_insert_ne by done. auto.
Qed.

Lemma addVote_slots_from `{Vote A} h (vs vs' : VoteSet.t A) p vh vr sb err i v :
  PyramidHeight.addVote h vs p vh vr sb = Ok (vs', err) -> VoteSetSpec.slot vs' i = Some v ->
  VoteSetSpec.slot vs i = Some v \/ (PyramidHeight.Height h = vh /\ Z.of_nat i = GetIndex p).
Proof.
  unfold PyramidHeight.addVote. destruct (Z.eqb_spec (PyramidHeight.Height h) vh) as [Eh|]; [|intros [= <- _]; auto].
  destruct (_ || _); [intros [= <- _]; auto|]. intros (val & _ & E)%gbind_Ok.
  destruct (_ || _); [injection E as <- _; auto|]. apply gbind_Ok in E as (msg & _ & E). apply gbind_Ok in E as (ok & _ & E).
  destruct ok; [|injection E as <- _; auto]. apply gbind_Ok in E as (peer & _ & E). intros Hs.
  destruct (AddVote_slots _ _ _ _ _ _ _ E Hs); auto.
Qed.

Lemma AddPrevote_alone h p h' err : PyramidHeight.AddPrevote h p = Ok (h', err) ->
  (PyramidHeight.Height h = Prevote.Height p -> Prevote.ValidatorIndex p = signerIndex cfg) -> alone h -> alone h'.
Proof.
  intros E Hp [L1 L2]. unfold PyramidHeight.AddPrevote in E. apply gbind_Ok in E as ([vs e] & E & [= <- _]).
  split; [exact L1|]. intros i v Hs. destruct (addVote_slots_from _ _ _ _ _ _ _ _ _ _ E Hs) as [Hs'|[Eh Ei]]; [by eapply L2|].
  rewrite Ei. by apply Hp.
Qed.

Lemma NextHeight_alone h h' : PyramidHeight.NextHeight h = Ok h' -> alone h'.
Proof.
  unfold PyramidHeight.NextHeight, PyramidHeight.clearAll, PyramidHeight.clearPrevote, PyramidHeight.clearPrecommit, PyramidHeight.newVotes.
  intros E. go_inv. split; [done|]. intros i v. unfold VoteSetSpec.slot. cbn.
  destruct (replicate _ _ !! i) as [o|] eqn:Eo; [|done]. by apply lookup_replicate in Eo as [-> _].
Qed.

(** One vote that is no quorum is no majority. *)
Lemma alone_majority h : reachable my si h -> alone h -> VoteSet.HasMaj23 (PyramidHeight.Prevotes h) = false.
Proof.
  intros Hr [_ L]. pose proof (i_prevotes _ _ _ _ (reachable_inv my si peers Hv h Hr)) as W.
  unfold VoteSet.HasMaj23. destruct (VoteSet.has_mj23 _) eqn:Em; [|done]. exfalso.
  pose proof (VoteSetSpec.vs_maj _ _ W Em) as Hm. unfold VoteSetSpec.twoThirds, VoteSetSpec.powerFor in Hm.
  set (l := VoteSetSpec.voters _ _ _ _) in Hm.
  assert (forall i, i ∈ map Z.of_nat l -> i = signerIndex cfg) as Hall.
  { intros i (j & -> & [Hc _]%list_elem_of_filter)%list_elem_of_fmap. unfold VoteSetSpec.cast in Hc.
    destruct (VoteSetSpec.slot _ j) as [v|] eqn:Es; [|done]. by eapply L. }
  pose proof (VoteSetSpec.voters_NoDup peers (PyramidHeight.Prevotes h) (VoteSet.mj23_key (PyramidHeight.Prevotes h)) (VoteSet.mj23_code (PyramidHeight.Prevotes h))) as Hnd.
  fold l in Hnd. destruct (map Z.of_nat l) as [|i [|j k]].
  - unfold powerOf in Hm. cbn in Hm. pose proof (v_nonneg _ _ _ Hv) as Hn.
    assert (0 <= allVotes peers) by (by apply zsum_nonneg, Forall_fmap). lia.
  - rewrite (Hall i) in Hm by constructor. unfold powerOf in Hm. cbn in Hm. lia.
  - apply NoDup_cons in Hnd as [Hni _]. apply Hni. rewrite (Hall i), (Hall j) by set_solver. constructor.
Qed.

Lemma FinishProposal_alone h h' b : PyramidHeight.FinishProposal h = Ok (h', b) -> alone h -> alone h'.
Proof.
  unfold PyramidHeight.FinishProposal. destruct (_ >=? _); [by intros [= <- _]|].
  destruct (PyramidHeight.Proposal h), (PyramidHeight.Block h); try by intros [= <- _].
  intros (ps & _ & E)%gbind_Ok. destruct (negb _); injection E as <- _; [done|]. intros [L1 L2]. by split.
Qed.

Lemma FinishPrevote_alone h h' b : reachable my si h -> PyramidHeight.FinishPrevote h = Ok (h', b) -> alone h -> b = false /\ alone h'.
Proof.
  intros Hr E Hl. pose proof (al_pass h Hl) as Hp. unfold PyramidHeight.FinishPrevote in E.
  destruct (Z.geb_spec (PyramidHeight.PassStep h) RoundStepPrevote); [lia|].
  apply gbind_Ok in E as ([h1 b1] & E1 & E). pose proof (FinishProposal_alone _ _ _ E1 Hl) as Hl1.
  destruct b1; [|by injection E as <- <-]. cbn [negb] in E.
  rewrite (alone_majority h1) in E; [|by eapply r_finishProposal|done]. by injection E as <- <-.
Qed.

(** ** A node that hears nobody waits *)

#[local] Instance frames_preorder : PreOrder (frame my si).
Proof. apply frame_preorder. Qed.

(** Nothing but the package, the pools of the node and what was sent changes. *)
Definition stays (s s' : t) : Prop :=
  Height s' = Height s /\ relayMessageChannel s' = relayMessageChannel s.
#[local] Instance stays_preorder : PreOrder stays.
Proof. split; [by intros s|]. unfold stays. intros s1 s2 s3 [-> ->] [-> ->]. done. Qed.
Lemma stays_frame s s' : frame my si s s' -> stays s s'.
Proof. intros []. done. Qed.

Definition idleAt (s : t) : Prop := alone (heightDatas s) /\ RoundStepPropose <= Step s <= RoundStepPrevote.

Lemma dataOK_moved s s' : heightDatas s' = heightDatas s -> Height s' = Height s -> Round s' = Round s ->
  dataOK my si s -> dataOK my si s'.
Proof. intros E1 E2 E3 [D1 D2 D3 D4]. split; rewrite ?E1, ?E2, ?E3; done. Qed.

(** A vote is sent and the step is over. *)
Lemma voted_next s s1 bz ty : frame my si s s1 -> RoundStepPropose <= Step s < RoundStepCommit ->
  let s' := Next (SendInternal s1 bz ty) in
  stays s s' /\ Step s' = Step s + 1 /\ heightDatas s' = heightDatas s1 /\ (dataOK my si s -> dataOK my si s').
Proof.
  intros F Hs s'. assert (s' = setStep (SendInternal s1 bz ty) (Step s + 1)) as ->.
  { unfold s'. rewrite Next_small; cbn; by rewrite (f_step _ _ _ _ F). }
  split; [split; apply F|]. split; [done|]. split; [done|]. intros D.
  apply (dataOK_moved s1); [done..|]. by apply (f_data _ _ _ _ F).
Qed.

Lemma hashBlock_silent s s' hs : hashBlock s = Ok (s', hs) -> silent (heightDatas s) (heightDatas s').
Proof.
  unfold hashBlock. intros (b & _ & E)%gbind_Ok. destruct (PyramidBlock.Hash_ b). by injection E as <- _.
Qed.

Lemma doPropose_alone s s' : doPropose cfg s = Ok s' -> alone (heightDatas s) -> alone (heightDatas s').
Proof.
  unfold doPropose. intros ([s1 hs] & E1 & E)%gbind_Ok Hl. apply hashBlock_silent in E1.
  apply gbind_Ok in E as (b & _ & E). apply gbind_Ok in E as ([flag pvote] & _ & E). destruct (negb flag); [done|].
  apply gbind_Ok in E as (sig & _ & E). apply gbind_Ok in E as ([h err] & E2 & E). apply gbind_Ok in E as (bz & _ & [= <-]).
  assert (alone h) as Hh.
  { eapply AddPrevote_alone; [exact E2|by destruct pvote|]. by eapply silent_alone. }
  unfold Next. by destruct (_ =? _).
Qed.

Lemma transition_idle s : dataOK my si s -> idleAt s ->
  settles (transition cfg s) (fun r => stays s r.1 /\ dataOK my si r.1 /\ idleAt r.1 /\
    (r.2 = Consensus.Waiting \/ Step s = RoundStepPropose /\ r.2 = Consensus.Stepped /\ Step r.1 = RoundStepPrevote)).
Proof.
  intros Hd [Hl Hs]. split; [apply transition_returns|]. intros [s' o] E. cbn [fst snd].
  unfold transition in E. destruct (Z.eqb_spec (Step s) RoundStepPropose) as [Es|Es].
  - apply gbind_Ok in E as ([s1 b] & Ef & E). pose proof Ef as Efr.
    apply (finish_frames my si) in Efr; [|intros h h' b' Hr Ef'; split; [by eapply r_finishProposal|]; by destruct (FinishProposal_same _ _ _ Ef' (steps_reachable my si peers Hv _ Hr))].
    cbn [fst] in Efr. unfold finish in Ef. apply gbind_Ok in Ef as ([h b'] & Ef & [= <- <-]).
    pose proof (FinishProposal_alone _ _ _ Ef Hl) as Hl1.
    destruct b'; [|injection E as <- <-; split; [by apply stays_frame|]; split; [by apply (f_data _ _ _ _ Efr)|]; split; [done|by left]].
    apply gbind_Ok in E as (s2 & E2 & [= <- <-]). pose proof (doPropose_alone _ _ E2 Hl1) as Hl2.
    destruct (doPropose_votes cfg my si _ _ E2) as (s3 & v & bz & F & -> & _).
    destruct (voted_next s s3 bz TendermintPrevote) as (N1 & N2 & N3 & N4); [by etransitivity|by rewrite Es|].
    split; [done|]. split; [by apply N4|]. split; [|right; by rewrite N2, Es]. split; [done|]. by rewrite N2, Es.
  - assert (Step s = RoundStepPrevote) as Es' by (unfold RoundStepPropose, RoundStepPrevote in *; lia).
    rewrite Es', Z.eqb_refl in E. apply gbind_Ok in E as ([s1 b] & Ef & E). pose proof Ef as Efr.
    apply (finish_frames my si) in Efr; [|intros h h' b' Hr Ef'; split; [by eapply r_finishPrevote|]; by destruct (FinishPrevote_same _ _ _ Ef' (steps_reachable my si peers Hv _ Hr))].
    cbn [fst] in Efr. unfold finish in Ef. apply gbind_Ok in Ef as ([h b'] & Ef & [= <- <-]).
    destruct (FinishPrevote_alone _ _ _ (d_reach _ _ _ Hd) Ef Hl) as [-> Hl1]. injection E as <- <-.
    split; [by apply stays_frame|]. split; [by apply (f_data _ _ _ _ Efr)|]. split; [done|by left].
Qed.

Lemma handle_idle fuel s : (2 <= fuel)%nat -> dataOK my si s -> idleAt s ->
  settles (handleStateTransition cfg fuel s) (fun s' => stays s s' /\ dataOK my si s' /\ idleAt s').
Proof.
  intros Hf Hd Hq. destruct fuel as [|fuel]; [lia|]. cbn [handleStateTransition].
  eapply settles_bind; [by apply transition_idle|]. intros [s1 o]. cbn [fst snd].
  intros (S1 & D1 & Q1 & [->|(_ & -> & E1)]); [by apply settles_Ok|].
  destruct fuel as [|fuel]; [lia|]. cbn [handleStateTransition].
  eapply settles_bind; [by apply transition_idle|]. intros [s2 o]. cbn [fst snd].
  intros (S2 & D2 & Q2 & [->|(E2 & _)]); [|rewrite E1 in E2; done].
  apply settles_Ok. split; [by etransitivity|done].
Qed.

(** ** Following the chain of an I shard *)

Definition missing (d : Database) (c : string) (i : Z) : Prop :=
  forall bz, PrefixStore.GetBlockByHeight d i c <> (Some bz, None).
Definition storedBlock (d : Database) (c : string) (i : Z) (b : Block.t) : Prop :=
  exists bz, PrefixStore.GetBlockByHeight d i c = (Some bz, None) /\ Block.NewBlockFromBytes bz = Ok (Some b).

(** The store stays without a block of the chain for a height, whatever the
    application writes when it executes the earlier blocks of the chain. *)
Record chainEnds (c : string) (j : Z) (P : Database -> Prop) : Prop := {
  ce_missing d : P d -> missing d c j;
  ce_inner a d i b a' d' b' r : P d -> storedBlock d c i b -> i < j ->
    ExecutionInnerShard a d b = Some (a', d', b', r) -> P d';
  ce_accept a d i b tx cb ok a' d' b' r : P d -> storedBlock d c i b -> i < j ->
    idx (Body.BodyTxs (Block.Body b)) 0 = Ok tx -> CrossShardBlock.NewCrossShardBlockFromBytes tx = Ok (Some cb) ->
    AcceptCrossShard a d (CrossShardBlock.Block cb) c ok = Some (a', d', b', r) -> P d'
}.

Lemma processIBlock_store s b c ok i j P : chainEnds c j P -> P (store (world s)) ->
  storedBlock (store (world s)) c i b -> i < j ->
  yields (processIBlock cfg s b c false ok) (fun r => P (store (world r.1.1))).
Proof.
  intros L Hs Hb Hi. unfold processIBlock. cbn [gbind].
  destruct (_ =? _); [|destruct (_ =? _); [|destruct (_ =? _); [|done]]].
  - unfold innerShard. destruct (ExecutionInnerShard _ _ _) as [[[[a d] b'] r]|] eqn:E; [|done]. cbn [deref gbind].
    apply yields_Ok. by eapply (ce_inner _ _ _ L).
  - unfold acceptBlock. intros [[s' b'] r] E. apply gbind_Ok in E as ([s1 r1] & E & [= <- <- <-]). cbn [fst].
    apply gbind_Ok in E as (tx & Et & E). apply gbind_Ok in E as ([cb|] & Ec & E); [|done].
    destruct (AcceptCrossShard _ _ _ _ _) as [[[[a d] b1] r2]|] eqn:Ea; [|done]. cbn [deref gbind] in E.
    destruct (PyramidBlock.Hash_ b1) as [b2 hs]. apply gbind_Ok in E as (p & _ & [= <- <-]).
    by eapply (ce_accept _ _ _ L).
  - unfold commitBlocks. intros [[s' b'] r] E. apply gbind_Ok in E as ([s1 r1] & E & [= <- <- <-]). cbn [fst].
    apply gbind_Ok in E as ([hs cs] & _ & E). apply gbind_Ok in E as ([a r2] & _ & E). by injection E as <- _.
Qed.

Lemma syncBlocks_ends c ok j P n : forall fuel s, chainEnds c j P -> P (store (world s)) -> j < 2 ^ 63 ->
  - 2 ^ 63 <= j - Z.of_nat n -> (n < fuel)%nat -> ends (syncBlocks cfg fuel s c ok (j - Z.of_nat n)).
Proof.
  induction n as [|n IH]; intros fuel s L Hs Hj Hi Hf; (destruct fuel as [|fuel]; [lia|]); cbn [syncBlocks].
  - rewrite Z.sub_0_r. pose proof (ce_missing _ _ _ L _ Hs) as Hm. unfold missing in Hm.
    destruct (PrefixStore.GetBlockByHeight _ _ _) as [[bz|] [e|]]; try done. by destruct (Hm bz).
  - destruct (PrefixStore.GetBlockByHeight _ _ _) as [[bz|] [e|]] eqn:Eb; [done| |done..].
    apply ends_bind; [ends|]. intros [b|] En; [|done]. apply ends_bind; [ends|]. intros b' [= <-].
    apply ends_bind; [apply processIBlock_returns|]. intros [[s1 b1] r] E.
    apply (processIBlock_store s b c ok (j - Z.of_nat (S n)) j P L Hs) in E; [|by exists bz|lia]. cbn [fst] in E.
    rewrite wrap_s_small by (unfold in_s; lia). replace (j - Z.of_nat (S n) + 1) with (j - Z.of_nat n) by lia.
    apply IH; [done|exact E|lia..].
Qed.

(** The blocks that a cross-shard block lets its B shard catch up with end before
    [n] more. *)
Definition catchesUp (s : t) (m : CrossShardBlock.t) (n : nat) : Prop :=
  let c := chainOf (CrossShardBlock.ColleciveSignatures m) in
  let '(block, hs) := PyramidBlock.Hash_ (CrossShardBlock.Block m) in
  let i0 := i64 (default 0 (shardHeight (cross s) !! c) + 1) in
  exists P, chainEnds c (i0 + Z.of_nat n) P /\ i0 + Z.of_nat n < 2 ^ 63 /\
    forall d e, PrefixStore.SetBlockByHeight (store (world s))
      (PartSetHeader.Height (PrecommitAggregated.Header (CrossShardBlock.ColleciveSignatures m))) c
      (mkStored hs (Block.ProtoBytes block)) = Ok (d, e) -> P d.

Lemma addCrossShardBlock_ends s m n fuel : catchesUp s m n -> (n < fuel)%nat -> ends (addCrossShardBlock cfg fuel s m).
Proof.
  intros Hc Hf. unfold addCrossShardBlock, catchesUp in *. destruct (negb _); [done|].
  destruct (PyramidBlock.Hash_ _) as [block hs]. destruct Hc as (P & L & Hn & Hd). destruct (fst _); [done|].
  apply ends_bind; [ends|]. intros valid _. destruct (negb valid); [done|]. destruct (IsIShard s); [done|].
  apply ends_bind; [ends|]. intros [d e] E. apply ends_bind; [|by intros].
  set (i0 := i64 _) in *. assert (- 2 ^ 63 <= i0) as Hi by exact (proj1 (wrap_s_range 64 _ eq_refl)).
  replace i0 with (i0 + Z.of_nat n - Z.of_nat n) by lia.
  apply (syncBlocks_ends _ _ _ P); [done| |lia..]. cbn. by eapply Hd.
Qed.

(** ** Messages *)

Definition msgHeight (m : Msg) : Z :=
  match m with
  | MPart p => Part.Height p
  | MProposal p => PartSetHeader.Height (Proposal.Header p)
  | MPrevote p => Prevote.Height p
  | MPrecommit p => Precommit.Height p
  | MMessageOK p => MessageOK.Height p
  | MCrossShardBlock _ | MMessageAccept _ | MMessageCommit _ => 0
  end.
Definition msgRound (m : Msg) : Z :=
  match m with
  | MPart p => Part.Round p
  | MProposal p => PartSetHeader.Round (Proposal.Header p)
  | MPrevote p => Prevote.Round p
  | MPrecommit p => Precommit.Round p
  | _ => 0
  end.
(** The messages that are kept when they are early. *)
Definition early (m : Msg) : bool :=
  match m with MCrossShardBlock _ | MMessageAccept _ | MMessageCommit _ => false | _ => true end.

Definition hears (m : Msg) (s s' : t) : Prop :=
  relayMessageChannel s' = relayMessageChannel s \/
  early m = true /\ relayMessageChannel s' = Relay.keep msgHeight msgRound (relayMessageChannel s) m.
Lemma hears_heard m s s' : hears m s s' -> Relay.heard msgHeight msgRound (relayMessageChannel s) m (relayMessageChannel s').
Proof. intros [E|[_ E]]; [by left|by right]. Qed.

Lemma hears_relay m s r b : early m = true -> addRelayMessageIfOverTime s (msgHeight m) (msgRound m) m = (r, b) ->
  hears m s r.
Proof.
  unfold addRelayMessageIfOverTime, hears, Relay.keep. intros He E.
  destruct (_ || _); [|by injection E as <- _; left].
  destruct (_ !! _); injection E as <- _; by right.
Qed.
Lemma relay_now s m : msgHeight m <= Height s -> msgRound m = 0 -> Round s = 0 ->
  addRelayMessageIfOverTime s (msgHeight m) (msgRound m) m = (s, false).
Proof.
  intros Hh -> Hr. unfold addRelayMessageIfOverTime. rewrite Hr.
  destruct (Z.ltb_spec (Height s) (msgHeight m)); [lia|]. by rewrite andb_false_r.
Qed.

Lemma addToHeight_hears s m add : early m = true -> yields (addToHeight s (msgHeight m) (msgRound m) m add) (fun x => hears m s x.1).
Proof.
  intros He. unfold addToHeight. destruct (addRelayMessageIfOverTime _ _ _ _) as [r b] eqn:Er. apply hears_relay in Er; [|done].
  destruct b; [by apply yields_Ok|]. apply yields_any; intros [h err]. by destruct err as [[]|]; apply yields_Ok.
Qed.

Lemma hears_frame m s s' : frame my si s s' -> hears m s s'.
Proof. intros F. left. apply (f_relay _ _ _ _ F). Qed.

Lemma addMessage_hears fuel s m : yields (addMessage cfg fuel s m) (fun x => hears m s x.1).
Proof.
  destruct m as [p|p|p|p|p|p|p|p]; cbn [addMessage].
  - exact (addToHeight_hears s (MPart p) _ eq_refl).
  - exact (addToHeight_hears s (MProposal p) _ eq_refl).
  - exact (addToHeight_hears s (MPrevote p) _ eq_refl).
  - exact (addToHeight_hears s (MPrecommit p) _ eq_refl).
  - unfold addCrossShardBlock. destruct (negb _); [by apply yields_Ok; left|].
    destruct (PyramidBlock.Hash_ _) as [b hs]. destruct (fst _); [by apply yields_Ok; left|].
    apply yields_any; intros []; [|by apply yields_Ok; left]. cbn [negb]. destruct (IsIShard s); [by apply yields_Ok; left|].
    apply yields_any; intros [d e]. eapply yields_bind; [apply (syncBlocks_frames cfg my si)|]. intros s1 F1.
    apply yields_Ok. left. exact (f_relay _ _ _ _ F1).
  - unfold addMessageAccept. destruct (IsIShard s); [by apply yields_Ok; left|].
    destruct (negb _); [by apply yields_Ok; left|]. apply yields_any; intros []; [|by apply yields_Ok; left]. cbn [negb].
    destruct (_ !! _); [by apply yields_Ok; left|]. apply yields_any; intros pool. by apply yields_Ok; left.
  - unfold addMessageCommit. destruct (IsBShard s); [by apply yields_Ok; left|]. destruct (default _ _); [by apply yields_Ok; left|].
    apply yields_any; intros []; by apply yields_Ok; left.
  - unfold addMessageOK. destruct (addRelayMessageIfOverTime _ _ _ _) as [r b] eqn:Er.
    apply (hears_relay (MMessageOK p)) in Er; [|done]. destruct b; [by apply yields_Ok|].
    destruct (_ <? _); [by apply yields_Ok|]. destruct (default _ _); [by apply yields_Ok|].
    apply yields_any; intros seen. by apply yields_Ok.
Qed.

(** A kept message that is due is given to the package, or counted. *)
Lemma addMessage_now fuel s m : early m = true -> msgHeight m <= Height s -> msgRound m = 0 -> dataOK my si s ->
  yields (addMessage cfg fuel s m) (fun x => relayMessageChannel x.1 = relayMessageChannel s /\
    (msgHeight m <> Height s -> alone (heightDatas s) -> alone (heightDatas x.1))).
Proof.
  intros He Hh Hr D. pose proof (relay_now s m Hh Hr (d_round _ _ _ D)) as Er.
  assert (forall add,
    (forall h err, add (heightDatas s) = Ok (h, err) -> msgHeight m <> Height s -> alone (heightDatas s) -> alone h) ->
    yields (addToHeight s (msgHeight m) (msgRound m) m add) (fun x => relayMessageChannel x.1 = relayMessageChannel s /\
      (msgHeight m <> Height s -> alone (heightDatas s) -> alone (heightDatas x.1)))) as Hadd.
  { intros add Ha. unfold addToHeight. rewrite Er. intros [s' r] ([h err] & E & Es)%gbind_Ok. specialize (Ha _ _ E).
    by destruct err as [[| |e]|]; injection Es as <- _. }
  destruct m as [p|p|p|p|p|p|p|p]; try done; cbn [addMessage].
  - apply Hadd. intros h err E _. apply AddPart_votes in E as ((_ & _ & _ & _ & _ & _ & E & _) & _ & E'). by apply silent_alone.
  - apply Hadd. intros h err (i & _ & E)%gbind_Ok _. apply AddProposal_same in E as ((_ & _ & _ & _ & _ & _ & E & _) & E' & _).
    by apply silent_alone.
  - apply Hadd. intros h err E Hne. apply (AddPrevote_alone _ _ _ _ E). rewrite (d_height _ _ _ D). by intros Eh.
  - apply Hadd. intros h err (x & _ & E)%gbind_Ok _. destruct x. injection E as <- _. by apply silent_alone.
  - unfold addMessageOK. cbn in Er. rewrite Er. destruct (_ <? _); [by apply yields_Ok|].
    destruct (default _ _); [by apply yields_Ok|]. apply yields_any; intros seen. by apply yields_Ok.
Qed.

(** Only catching up with an I shard needs fuel. *)
Lemma addMessage_returns fuel s m : early m = true -> ends (addMessage cfg fuel s m).
Proof. destruct m; try done; intros _; ends. Qed.
Lemma addMessage_catches fuel s m n : (forall b, m = MCrossShardBlock b -> catchesUp s b n) -> (n < fuel)%nat ->
  ends (addMessage cfg fuel s m).
Proof.
  intros Hc Hf. destruct m as [| | | |b| | |]; try (by apply addMessage_returns); cbn [addMessage]; [|ends..].
  by eapply addCrossShardBlock_ends; [apply Hc|].
Qed.

(** ** The messages kept for later heights *)

Abbreviation keyed := (Relay.keyed msgHeight msgRound).
Definition above (s : t) : nat := Relay.above (Height s) (relayMessageChannel s).
Definition later (s s' : t) : Prop := Relay.later (Height s) (relayMessageChannel s) (Height s') (relayMessageChannel s').
#[local] Instance later_preorder : PreOrder later.
Proof.
  split; [intros s; split; [lia|done]|]. intros s1 s2 s3 [A1 A2] [B1 B2]. split; [lia|by etransitivity].
Qed.
Lemma stays_later s s' : stays s s' -> later s s'.
Proof. intros [E1 E2]. split; [lia|by rewrite E2]. Qed.
Lemma stays_above s s' : stays s s' -> above s' = above s.
Proof. intros [E1 E2]. unfold above. by rewrite E1, E2. Qed.

Definition kind (m : Msg) : Prop := typedMsg m /\ early m = true.

(** The state of a node whose messages are all for heights up to [K]: no
    validator can be heard above. *)
Record good (K : Z) (s : t) : Prop := {
  g_data : dataOK my si s;
  g_step : RoundStepPropose <= Step s <= RoundStepCommit;
  g_kind : Relay.holds kind (relayMessageChannel s);
  g_keyed : keyed (relayMessageChannel s);
  g_upTo : Relay.upTo K (relayMessageChannel s);
  g_height : - 2 ^ 63 <= Height s <= K + 1;
  g_top : Height s = K + 1 -> idleAt s
}.

Context (K : Z) (HK : K < 2 ^ 63 - 1).

Lemma good_idle s s' : good K s -> stays s s' -> dataOK my si s' -> idleAt s' -> good K s'.
Proof.
  intros [G1 G2 G3 G4 G5 G6 G7] [E1 E2] D Q. split; rewrite ?E1, ?E2; try done.
  destruct Q. unfold RoundStepPropose, RoundStepPrevote, RoundStepCommit in *. lia.
Qed.
Lemma good_lower s s' : good K s -> stays s s' -> dataOK my si s' -> Height s <= K ->
  RoundStepPropose <= Step s' <= RoundStepCommit -> good K s'.
Proof. intros [G1 G2 G3 G4 G5 G6 G7] [E1 E2] D HH Hs. split; rewrite ?E1, ?E2; try done. lia. Qed.

Lemma transition_good s s' o : good K s -> Height s <= K -> stepped cfg my si s s' o ->
  stays s s' /\ good K s' /\
  match o with
  | Consensus.Waiting => True
  | Consensus.Stepped => Step s' = Step s + 1
  | Consensus.Finished => Step s = RoundStepCommit
  end.
Proof.
  intros Hg HH Hs. pose proof (g_data _ _ Hg) as Hd. pose proof (g_step _ _ Hg) as Hst.
  assert (forall s1 bz ty, frame my si s s1 -> RoundStepPropose <= Step s < RoundStepCommit ->
    let s' := Next (SendInternal s1 bz ty) in stays s s' /\ good K s' /\ Step s' = Step s + 1) as Hnext.
  { intros s1 bz ty F Hlt s2. destruct (voted_next s s1 bz ty F Hlt) as (N1 & N2 & _ & N4). split; [done|]. split; [|done].
    apply (good_lower s); [done|done|by apply N4|done|]. fold s2 in N2. rewrite N2. lia. }
  destruct Hs as [s' F|Es _|s1 s' Es F E|s1 s' Es F _ E|s1 Es F].
  - split; [by apply stays_frame|]. split; [|done].
    apply (good_lower s); [done|by apply stays_frame|by apply (f_data _ _ _ _ F)|done|]. by rewrite (f_step _ _ _ _ F).
  - done.
  - destruct (doPropose_votes cfg my si s1 s' E) as (s2 & v & bz & F2 & -> & _). apply Hnext; [by etransitivity|by rewrite Es].
  - destruct (doPrevote_votes cfg my si s1 s' E) as (s2 & v & bz & F2 & -> & _). apply Hnext; [by etransitivity|by rewrite Es].
  - rewrite Next_small by (rewrite (f_step _ _ _ _ F), Es; done). rewrite (f_step _ _ _ _ F).
    assert (stays s (setStep s1 (Step s + 1))) as HS by (split; apply F). split; [done|]. split; [|done].
    apply (good_lower s); [done|done| |done|cbn; rewrite Es; done].
    apply (dataOK_moved s1); [done..|]. by apply (f_data _ _ _ _ F).
Qed.

(** A kept message that is due. *)
Lemma kept_good fuel s m : good K s -> kind m -> msgHeight m <= K -> msgHeight m <= Height s -> msgRound m = 0 ->
  settles (addMessage cfg fuel s m) (fun r => stays s r.1 /\ good K r.1).
Proof.
  intros Hg [Ht He] HmK Hm Hr. split; [by apply addMessage_returns|]. intros [s' r] E. cbn [fst].
  pose proof (g_data _ _ Hg) as Hd. destruct (addMessage_now _ _ _ He Hm Hr Hd _ E) as [Er Ha]. cbn [fst] in Er, Ha.
  destruct (addMessage_kept cfg my si _ _ _ Ht _ E) as (rl & c & _ & _ & F). cbn [fst] in F.
  assert (stays s s') as HS by (split; [apply (f_height _ _ _ _ F)|done]).
  assert (dataOK my si s') as Hd' by (apply (f_data _ _ _ _ F); by apply (dataOK_moved s)).
  assert (Step s' = Step s) as Es by apply (f_step _ _ _ _ F). split; [done|].
  destruct (decide (Height s = K + 1)) as [Et|Et].
  - destruct (g_top _ _ Hg Et) as [Hl Hs]. apply (good_idle s); [done..|]. split; [apply Ha; [lia|done]|by rewrite Es].
  - apply (good_lower s); [done..| |rewrite Es; apply Hg]. pose proof (g_height _ _ Hg). lia.
Qed.

(** ** The next height *)

Lemma sendParts_package s parts s' : sendParts s parts = Ok s' -> heightDatas s' = heightDatas s.
Proof.
  apply (go_foldl_invariant _ (fun x => heightDatas x = heightDatas s)); [|done].
  intros s1 part s2 _ E1 E. apply gbind_Ok in E as (p & _ & E). by apply gbind_Ok in E as (bz & _ & [= <-]).
Qed.
Lemma createBlockAndBroadcast_silent s : yields (createBlockAndBroadcast cfg s) (fun s' =>
  silent (heightDatas s) (heightDatas s')).
Proof.
  unfold createBlockAndBroadcast. apply yields_any; intros b0. apply yields_any; intros [b1 ps].
  apply yields_any; intros sig. apply yields_any; intros bz. intros s' E%sendParts_package. by rewrite E.
Qed.

(** The state in which a new height is entered. *)
Definition newHeight (s : t) (h : PyramidHeight.t) : t :=
  let c := if IsIShard s then setCount (cross s) (zlen (related s)) (Some ∅) else cross s in
  mk (i64 (Height s + 1)) 0 RoundStepPropose h (delete (Height s) (relayMessageChannel s)) (chain s) c (world s).

Lemma enterNewHeight_new doMsg s : enterNewHeight cfg doMsg s =
  (let! h := PyramidHeight.NextHeight (heightDatas s) in
   let s := newHeight s h in
   let! b := isProposer cfg s in
   let! s := if b then createBlockAndBroadcast cfg s else Ok s in
   match relayMessageChannel s !! Height s with
   | None => Ok s
   | Some u => match u !! Round s with
               | None => Ok s
               | Some l => go_foldl (fun s msg => let! '(s, _) := doMsg s msg in Ok s) s l
               end
   end).
Proof.
  unfold enterNewHeight, enterNewRound, newHeight.
  change (IsIShard (setStep s RoundStepCommit)) with (IsIShard s). destruct (IsIShard s); reflexivity.
Qed.

Lemma entered_good s h : good K s -> Height s <= K -> PyramidHeight.NextHeight (heightDatas s) = Ok h ->
  good K (newHeight s h) /\ later s (newHeight s h) /\ Height (newHeight s h) = Height s + 1 /\ idleAt (newHeight s h).
Proof.
  intros [[D1 D2 D3 D4] _ Hp Hk Hu HH _] HHK E.
  assert (i64 (Height s + 1) = Height s + 1) as E64 by (apply wrap_s_small; unfold in_s; lia).
  assert (idleAt (newHeight s h)) as Hq by (split; [by eapply NextHeight_alone|done]).
  assert (PyramidHeight.Height h = i64 (PyramidHeight.Height (heightDatas s) + 1) /\ PyramidHeight.Round h = 0) as [K1 K2].
  { unfold PyramidHeight.NextHeight, PyramidHeight.clearAll, PyramidHeight.clearPrevote, PyramidHeight.clearPrecommit in E.
    apply gbind_Ok in E as (h1 & Eh1 & E). apply gbind_Ok in Eh1 as (v1 & _ & [= <-]).
    by apply gbind_Ok in E as (v2 & _ & [= <-]). }
  assert (delete (Height s) (relayMessageChannel s) ⊆ relayMessageChannel s) as Hsub by apply delete_subseteq.
  split; [|split; [split; [cbn; lia|done]|split; [done|done]]].
  split; cbn [newHeight relayMessageChannel Height Step].
  - split; cbn; [by eapply r_next|by rewrite K1, D2|done|done].
  - done.
  - by eapply Relay.holds_smaller.
  - by eapply Relay.keyed_smaller.
  - by eapply Relay.upTo_smaller.
  - lia.
  - done.
Qed.

Lemma good_frame s s' : good K s -> frame my si s s' -> Height s <= K \/ idleAt s' -> good K s'.
Proof.
  intros Hg F [HH|Hq].
  - apply (good_lower s); [done|by apply stays_frame|by apply (f_data _ _ _ _ F), Hg|done|].
    rewrite (f_step _ _ _ _ F). apply Hg.
  - apply (good_idle s); [done|by apply stays_frame|by apply (f_data _ _ _ _ F), Hg|done].
Qed.

(** What is needed of the handler of the messages that are due. *)
Definition answering (doMsg : t -> Msg -> go (t * option goerr)) (n : nat) : Prop :=
  forall s m, good K s -> kind m -> msgHeight m <= K -> msgHeight m <= Height s -> msgRound m = 0 -> (above s < n)%nat ->
    settles (doMsg s m) (fun r => good K r.1 /\ later s r.1).

Lemma height_settles doMsg s : good K s -> Height s <= K -> answering doMsg (above s) ->
  settles (enterNewHeight cfg doMsg s) (fun s' => good K s' /\ later s s' /\ (idleAt s' \/ (above s' < above s)%nat)).
Proof.
  intros Hg HH Hdo. rewrite enterNewHeight_new.
  eapply settles_bind; [split; [apply NextHeight_returns|intros h E; exact E]|]. intros h E.
  change (PyramidHeight.NextHeight (heightDatas s) = Ok h) in E.
  destruct (entered_good s h Hg HH E) as (G1 & Hlt & Hn & Hq). cbv zeta. set (s1 := newHeight s h) in *. clearbody s1.
  eapply settles_bind; [split; [apply isProposer_returns|intros b _; exact I]|]. intros b _.
  apply settles_bind with (P := fun s2 => good K s2 /\ stays s1 s2 /\ idleAt s2).
  { destruct b; [|by apply settles_Ok]. split; [apply createBlockAndBroadcast_returns|]. intros s2 E2.
    pose proof (createBlockAndBroadcast_silent _ _ E2) as M. apply (createBlockAndBroadcast_frames cfg my si) in E2 as F.
    assert (idleAt s2) as Q2 by (destruct Hq as [Hl Hs]; split; [exact (silent_alone _ _ M Hl)|by rewrite (f_step _ _ _ _ F)]).
    split; [by apply (good_frame s1); [..|right]|]. split; [by apply stays_frame|done]. }
  intros s2 (G2 & S2 & Q2).
  assert (later s s2) as L2 by (etransitivity; [exact Hlt|by apply stays_later]).
  destruct (relayMessageChannel s2 !! Height s2) as [u|] eqn:Eu; [|by apply settles_Ok; auto].
  destruct (u !! Round s2) as [msgs|] eqn:Em; [|by apply settles_Ok; auto].
  assert (above s2 < above s)%nat as Ha.
  { unfold above. apply (Relay.above_less _ _ _ _ (Height s2) L2); [|destruct S2; lia].
    destruct L2 as [_ L2]. exists u. by eapply lookup_weaken. }
  eapply settles_weaken; [apply settles_foldl with (P := fun s3 => good K s3 /\ later s2 s3); [by split|]|].
  - intros s3 m Hin [G3 L3]. destruct (g_keyed _ _ G2 _ _ _ _ _ Eu Em Hin) as [Ehm Erm].
    pose proof (g_kind _ _ G2 _ _ _ _ Eu Em) as Hk. rewrite Forall_forall in Hk.
    eapply settles_bind; [apply Hdo; [done|by apply Hk| | | |]|].
    + rewrite Ehm. apply (g_upTo _ _ G2). eauto.
    + rewrite Ehm. apply L3.
    + rewrite Erm. apply (g_data _ _ G2).
    + pose proof (Relay.above_mono _ _ _ _ L3). unfold above in *. lia.
    + intros [s4 e] [G4 L4]. apply settles_Ok. split; [done|by etransitivity].
  - intros s3 [G3 L3]. split; [done|]. split; [by etransitivity|]. right.
    pose proof (Relay.above_mono _ _ _ _ L3). unfold above in *. lia.
Qed.

Lemma doCommit_settles doMsg s : good K s -> Height s <= K -> answering doMsg (above s) ->
  settles (doCommit cfg doMsg s) (fun s' => good K s' /\ later s s' /\ (idleAt s' \/ (above s' < above s)%nat)).
Proof.
  intros Hg HH Hdo. unfold doCommit. eapply settles_bind; [split; [apply isProposer_returns|intros b _; exact I]|]. intros p _.
  apply settles_bind with (P := fun s1 => frame my si s s1).
  { destruct (_ && _); [|by apply settles_Ok]. split; [ends|]. by intros s1 (bz & _ & [= <-])%gbind_Ok; apply related_frames. }
  intros s1 F. pose proof (stays_frame _ _ F) as S1. pose proof (stays_above _ _ S1) as Ea.
  eapply settles_weaken; [apply height_settles; [by apply (good_frame s); [..|left]|by rewrite (f_height _ _ _ _ F)|by rewrite Ea]|].
  intros s2 (G2 & L2 & Hc). split; [done|]. split; [|by rewrite <- Ea].
  etransitivity; [by apply stays_later|done].
Qed.

(** ** Enough fuel *)

(** The handler with the fuel that [n] heights need. *)
Lemma doMessage_answers fuel n : (forall s, good K s -> (above s < n)%nat ->
    settles (handleStateTransition cfg fuel s) (fun s' => good K s' /\ later s s')) ->
  answering (doMessage cfg (S fuel)) n.
Proof.
  intros IH s m Hg Hk HmK Hm Hr Ha. cbn [doMessage]. eapply settles_bind; [by apply kept_good|].
  intros [s1 r] [S1 G1]. cbn [fst] in *. destruct r as [err|]; [apply settles_Ok; split; [done|by apply stays_later]|].
  eapply settles_bind; [apply IH; [done|by rewrite (stays_above _ _ S1)]|]. intros s2 [G2 L2]. apply settles_Ok.
  split; [done|]. etransitivity; [by apply stays_later|done].
Qed.

Lemma transitions_settle n : forall fuel s, good K s -> (above s <= n)%nat -> (6 * n + 8 <= fuel)%nat ->
  settles (handleStateTransition cfg fuel s) (fun s' => good K s' /\ later s s').
Proof.
  induction n as [n IH] using lt_wf_ind.
  assert (forall d fuel s, Step s = RoundStepCommit - Z.of_nat d -> good K s -> (above s <= n)%nat ->
    (6 * n + d + 4 <= fuel)%nat ->
    settles (handleStateTransition cfg fuel s) (fun s' => good K s' /\ later s s')) as Hsteps.
  { assert (forall fuel s, (2 <= fuel)%nat -> good K s -> idleAt s ->
      settles (handleStateTransition cfg fuel s) (fun s' => good K s' /\ later s s')) as Hidle.
    { intros fuel s Hf Hg Hq. eapply settles_weaken; [apply handle_idle; [done|apply Hg|done]|].
      intros s' (S' & D' & Q'). split; [by apply (good_idle s)|by apply stays_later]. }
    induction d as [|d IHd]; intros fuel s Es Hg Ha Hf.
    all: assert (Height s = K + 1 \/ Height s <= K) as [Ht|Ht] by (pose proof (g_height _ _ Hg); lia);
      [apply Hidle; [lia|done|by apply Hg]|].
    all: destruct fuel as [|fuel]; [lia|]; cbn [handleStateTransition];
      eapply settles_bind; [split; [apply transition_returns|intros r E; exact E]|]; intros [s1 o] E;
      destruct (transition_good s s1 o Hg Ht (transition_frames cfg my si peers Hv _ _ _ E)) as (S1 & G1 & Ho);
      pose proof (stays_above _ _ S1) as Ea; pose proof (stays_later _ _ S1) as L1;
      destruct o; [by apply settles_Ok| |].
    1: { destruct (g_step _ _ G1). lia. }
    2: { eapply settles_weaken; [apply IHd; [lia|done|lia|lia]|]. intros s2 [G2 L2]. split; [done|by etransitivity]. }
    all: assert (answering (doMessage cfg fuel) (above s1)) as Hdo
      by (destruct fuel as [|fuel]; [lia|]; apply doMessage_answers; intros s2 G2 A2; apply (IH (above s2)); [lia|done|lia|lia]).
    all: eapply settles_bind; [apply doCommit_settles; [done|by rewrite (proj1 S1)|done]|].
    all: intros s2 (G2 & L2 & [Q2|A2]).
    all: try (eapply settles_weaken; [apply Hidle; [lia|done|done]|]; intros s3 [G3 L3]; split; [done|]; by do 2 (etransitivity; [eassumption|])).
    all: eapply settles_weaken; [apply (IH (above s2)); [lia|done|lia|lia]|]; intros s3 [G3 L3]; split; [done|]; by do 2 (etransitivity; [eassumption|]). }
  intros fuel s Hg Ha Hf. pose proof (g_step _ _ Hg).
  apply (Hsteps (Z.to_nat (RoundStepCommit - Step s))); [|done|done|];
    unfold RoundStepPropose, RoundStepCommit in *; lia.
Qed.

(** ** Running nodes *)

Definition inOrder (s : t) : Prop :=
  keyed (relayMessageChannel s) /\ Relay.holds (fun m => early m = true) (relayMessageChannel s).
Definition orders (s s' : t) : Prop := inOrder s -> inOrder s'.

Lemma orders_less s s' : relayMessageChannel s' ⊆ relayMessageChannel s -> orders s s'.
Proof. intros Hs [Hk He]. split; [by eapply Relay.keyed_smaller|by eapply Relay.holds_smaller]. Qed.
Lemma orders_frame s s' : frame my si s s' -> orders s s'.
Proof. intros F. apply orders_less. by rewrite (f_relay _ _ _ _ F). Qed.
Lemma orders_hears m s s' : hears m s s' -> orders s s'.
Proof.
  intros Hh [Hk He]. split; [by eapply Relay.heard_keyed; [apply (hears_heard m)|]|].
  destruct Hh as [E|[Hm E]]; unfold inOrder in *; rewrite E; [done|by apply Relay.keep_holds].
Qed.

Lemma Next_less s : relayMessageChannel (Next s) ⊆ relayMessageChannel s.
Proof. unfold Next. destruct (_ =? _); [apply delete_subseteq|done]. Qed.
Lemma orders_Next s s1 bz ty : frame my si s s1 -> orders s (Next (SendInternal s1 bz ty)).
Proof. intros F. apply orders_less. etransitivity; [apply Next_less|]. cbn. by rewrite (f_relay _ _ _ _ F). Qed.

Lemma stepped_orders s s' o : stepped cfg my si s s' o -> orders s s'.
Proof.
  destruct 1 as [s' F|_ _|s1 s' _ F E|s1 s' _ F _ E|s1 _ F].
  - by apply orders_frame.
  - by intros ?.
  - destruct (doPropose_votes cfg my si s1 s' E) as (s2 & v & bz & F2 & -> & _). apply orders_Next. by etransitivity.
  - destruct (doPrevote_votes cfg my si s1 s' E) as (s2 & v & bz & F2 & -> & _). apply orders_Next. by etransitivity.
  - apply orders_less. etransitivity; [apply Next_less|]. by rewrite (f_relay _ _ _ _ F).
Qed.

Lemma enterNewHeight_orders doMsg s s' : (forall s m s' e, doMsg s m = Ok (s', e) -> orders s s') ->
  enterNewHeight cfg doMsg s = Ok s' -> orders s s'.
Proof.
  intros Hdo. rewrite enterNewHeight_new. intros E Ho. apply gbind_Ok in E as (h & _ & E). cbv zeta in E.
  assert (inOrder (newHeight s h)) as Ho1 by (revert Ho; apply orders_less, delete_subseteq).
  set (s1 := newHeight s h) in *. clearbody s1. apply gbind_Ok in E as (b & _ & E). apply gbind_Ok in E as (s2 & E2 & E).
  assert (inOrder s2) as Ho2.
  { destruct b; [|by injection E2 as <-]. by apply (createBlockAndBroadcast_frames cfg my si), orders_frame in E2; apply E2. }
  destruct (_ !! _) as [u|]; [|by injection E as <-]. destruct (_ !! _) as [l|]; [|by injection E as <-].
  revert E. apply (go_foldl_invariant _ inOrder); [|done].
  intros s3 m s4 _ Ho3 E. apply gbind_Ok in E as ([s5 e] & E & [= <-]). by eapply Hdo.
Qed.

Lemma doCommit_orders doMsg s s' : (forall s m s' e, doMsg s m = Ok (s', e) -> orders s s') ->
  doCommit cfg doMsg s = Ok s' -> orders s s'.
Proof.
  intros Hdo (p & _ & E)%gbind_Ok Ho. apply gbind_Ok in E as (s1 & E1 & E).
  eapply enterNewHeight_orders; [exact Hdo|exact E|]. revert Ho. apply orders_frame.
  destruct (_ && _); [|by injection E1 as <-]. apply gbind_Ok in E1 as (bz & _ & [= <-]). by apply related_frames.
Qed.

Lemma messages_order fuel : (forall s m s' e, doMessage cfg fuel s m = Ok (s', e) -> orders s s') /\
  forall s s', handleStateTransition cfg fuel s = Ok s' -> orders s s'.
Proof.
  induction fuel as [|fuel [IHm IHt]]; [done|]. split.
  - intros s m s' e E Ho. cbn [doMessage] in E. apply gbind_Ok in E as ([s1 r] & E1 & E).
    apply addMessage_hears in E1. pose proof (orders_hears _ _ _ E1 Ho) as Ho1. cbn [fst] in Ho1.
    destruct r as [err|]; [by injection E as <- _|]. apply gbind_Ok in E as (s2 & E2 & [= <- _]). by eapply IHt.
  - intros s s' E Ho. cbn [handleStateTransition] in E. apply gbind_Ok in E as ([s1 o] & E1 & E).
    apply (transition_frames cfg my si peers Hv), stepped_orders in E1. apply E1 in Ho.
    destruct o; [by injection E as <-|by eapply IHt|]. apply gbind_Ok in E as (s2 & E2 & E).
    eapply IHt; [exact E|]. by eapply doCommit_orders.
Qed.

Lemma run_inOrder s : run cfg my si s -> inOrder s.
Proof.
  induction 1 as [a mp cmp d s0 fuel s E0 E|s fuel ch bz mtype s' err _ IH E].
  - assert (inOrder s0 /\ Height s0 = 0) as [Ho Hz].
    { apply gbind_Ok in E0 as (h & _ & [= <-]). split; [|done].
      by split; intros h' u rd l; cbn; rewrite lookup_empty. }
    unfold Start in E. rewrite Hz in E. change (0 =? 0) with true in E. cbv iota in E.
    eapply enterNewHeight_orders; [apply messages_order|exact E|exact Ho].
  - assert (forall A (m : go (option A)) name validate msg,
      receiveWith cfg fuel s m name validate msg = Ok (s', err) -> inOrder s') as Hr.
    { intros A m name validate msg Em. unfold receiveWith in Em. apply gbind_Ok in Em as (o & _ & Em).
      destruct o as [x|]; [|by injection Em as <- _]. apply gbind_Ok in Em as (e & _ & Em).
      destruct e; [by injection Em as <- _|]. exact (proj1 (messages_order fuel) _ _ _ _ Em IH). }
    unfold Receive in E.
    repeat match type of E with
    | (if ?b then _ else _) = _ => destruct b
    | receiveWith _ _ _ _ _ _ _ = _ => exact (Hr _ _ _ _ _ E)
    | Ok _ = _ => by injection E as <- _
    end.
Qed.
End ending.

Section answers.
Context `{Hash, StdTime, BLS, DB, !ABCIConn, !MempoolConn, Env}.
Context `{!Codec pbBlock, !Codec pbProposal, !Codec pbVote, !Codec pbPart, !Codec PyramidReceipt.pbReceipt,
          !Codec pbCrossShardBlock, !Codec pbMessageAccept, !Codec pbMessageAcceptSet, !Codec pbMessageCommit,
          !Codec pbMessageOK}.

(** C10: a running node of the comparison protocols whose own vote is no quorum
    handles every message: the recursion between [doMessage] and
    [handleStateTransition] ends, within a depth that is linear in the number of
    heights messages are kept for. For a block of an I shard the chain that the B
    shard catches up with has to end in the store, [n] heights further on. *)
Theorem doMessage_answered cfg my si peers s m n fuel
  (Hpart : 0 < MaxPartSize cfg) (Hvalid : validShard my si peers)
  (Hown : 3 * power peers (signerIndex cfg) <= 2 * allVotes peers)
  (Hrun : run cfg my si s) (Hsent : sentBound s) (Htyped : typedMsg m)
  (Hs : Height s < 2 ^ 63 - 1) (Hm : msgHeight m < 2 ^ 63 - 1)
  (Hkept : forall h, is_Some (relayMessageChannel s !! h) -> h < 2 ^ 63 - 1)
  (Hchain : forall b, m = MCrossShardBlock b -> catchesUp s b n)
  (Hfuel : (6 * size (relayMessageChannel s) + n + 15 <= fuel)%nat) :
  doMessage cfg fuel s m <> OutOfFuel.
Proof.
  destruct (run_holds cfg my si peers Hvalid s Hrun) as [Ht I]. destruct (I Hsent) as [Hd Hst _ _ _ _ Hb].
  destruct (run_inOrder cfg my si peers Hvalid s Hrun) as [Hk He].
  destruct fuel as [|fuel]; [lia|]. cbn [doMessage].
  apply (ends_bind (addMessage cfg fuel s m)); [apply (addMessage_catches cfg _ _ _ n); [done|lia]|]. intros [s1 r] E.
  destruct r as [err|]; [done|]. apply addMessage_hears with (my := my) (si := si) in E as Hh. cbn [fst] in Hh.
  apply (addMessage_kept cfg my si _ _ _ Htyped) in E as (rl & c & _ & _ & F). cbn [fst] in F.
  assert (Height s1 = Height s /\ Step s1 = Step s) as [Eh Es] by (split; apply F).
  assert (good cfg my si (2 ^ 63 - 2) s1) as Hg.
  { split; rewrite ?Eh, ?Es; [|done| | | |lia|lia].
    - apply (f_data _ _ _ _ F). by apply (dataOK_moved my si s).
    - assert (Relay.holds kind (relayMessageChannel s)) as Hkind.
      { intros h u rd l Hu Hl. pose proof (Ht _ _ _ _ Hu Hl). pose proof (He _ _ _ _ Hu Hl).
        by apply Forall_and. }
      destruct Hh as [->|[Hm' ->]]; [done|by apply Relay.keep_holds].
    - by eapply Relay.heard_keyed; [apply hears_heard|].
    - eapply Relay.heard_upTo; [by apply hears_heard| |lia]. intros h Hh'. specialize (Hkept h Hh'). lia. }
  apply (ends_bind (handleStateTransition cfg fuel s1)); [|done].
  eapply (transitions_settle cfg Hpart my si peers Hvalid Hown (2 ^ 63 - 2) ltac:(lia) (above s1)); [exact Hg|done|].
  pose proof (Relay.heard_above _ _ (Height s1) _ _ _ (hears_heard _ _ _ Hh)) as Ha. unfold above. lia.
Qed.
End answers.
End PyramidTermination.

(** ** A B shard of three validators that follows an I shard *)

Module PyramidTerminationDemo.
Import DemoHash Demo StoreDemo PyramidDemoCodecs ConsensusDemo PyramidDefinition PyramidConsensus PyramidSafety.
Import PyramidDecisions PyramidConsensusDemo PyramidPoolsDemo PyramidTermination.

(** The first block of the I shard; there is no second one. *)
Definition firstBlock : CrossShardBlock.t :=
  CrossShardBlock.mk (bareBlock BLOCKTYPE_InnerShard [] [])
    (PrecommitAggregated.mk VoteTypePrecommitAggregated CodeTypeOK (Some (BV.mk 3 [Byte.x07]))
      (PartSetHeader.mk 1 0 1 pending "i") pending (SignerDemo.unary 6)).
Definition waitsForBlock : t := answered "i" CodeTypeOK.

Definition noSecond (m : go (Database * option goerr)) : bool :=
  match m with
  | Ok (d, _) => match PrefixStore.GetBlockByHeight d 2 "i" with (Some _, None) => false | _ => true end
  | _ => true
  end.
Lemma waitsForBlock_catchesUp : catchesUp waitsForBlock firstBlock 1.
Proof.
  exists (fun d => missing d "i" 2). split; [split|split].
  - done.
  - intros a d i b a' d' b' r Hm _ _ [= _ <- _ _]. exact Hm.
  - intros a d i b tx cb ok a' d' b' r Hm _ _ _ _ [= _ <- _ _]. exact Hm.
  - vm_compute. reflexivity.
  - intros d e E bz Eg. match type of E with ?m = _ => assert (noSecond m = true) as Hn by (vm_compute; reflexivity) end.
    rewrite E in Hn. cbn [noSecond] in Hn. by rewrite Eg in Hn.
Qed.

Lemma doMessage_answered_witness : doMessage (config 2) 40 waitsForBlock (MCrossShardBlock firstBlock) <> OutOfFuel.
Proof.
  apply (doMessage_answered (config 2) "b" siK peers waitsForBlock (MCrossShardBlock firstBlock) 1 40).
  - vm_compute. reflexivity.
  - split; [reflexivity|by repeat constructor|reflexivity].
  - apply (bool_decide_unpack _). vm_compute. exact I.
  - apply answered_run. vm_compute. reflexivity.
  - vm_compute. reflexivity.
  - exact I.
  - vm_compute. reflexivity.
  - vm_compute. reflexivity.
  - intros h. assert (relayMessageChannel waitsForBlock = ∅) as -> by (vm_compute; reflexivity).
    rewrite lookup_empty. intros [? [=]].
  - intros b [= <-]. exact waitsForBlock_catchesUp.
  - apply Nat.leb_le. vm_compute. reflexivity.
Defined.

(** A validator that is alone in its shard, which has no related shards, finishes
    one height after the other within one call. *)
Definition siAlone : PyramidShardInfo.t := PyramidShardInfo.mk {[my := take 1 peers]} ∅ ∅ BLOCKTYPE_I ∅.
Definition ownVote : Prevote.t := Prevote.setSignature (Prevote.NewPrevote 1 0 pending 0) (SignerDemo.unary 1).
Example alone_goes_on :
  match (let! s := NewConsensusState my siAlone app empty full noBlocks in
         let! s := Start (config 0) 5 s in
         let! '(s, _) := doMessage (config 0) 30 s (MPrevote ownVote) in Ok (Height s)) with
  | OutOfFuel => true
  | _ => false
  end = true.
Proof. vm_compute. reflexivity. Qed.
End PyramidTerminationDemo.
