(* ===== verification/PyramidMempool.v ===== *)
(** * The mempool of the comparison protocols: [pyramid/mempool/mempool.go]

    The pool is the one of [Mempool], with the same [NewMempool] and
    [RemoveTx]. A transaction whose keys are locked waits: [ReapTx] passes over
    it. An update without statuses removes the whole block. *)

From S2P Require Import Prelude BitVector Hash Types CList Mempool.
Local Open Scope Z_scope.

Module PyramidMempool.
Import Mempool(t, mk, txs, txsMap, isCrossShardMempool, NewMempool, RemoveTx, pools, without, committed).

Definition notValid : goerr := Errorf "Transaction does not pass ValidateTx".

Section mempool.
Context (ValidateTx : bytes -> bool -> go bool).

Definition AddTx (m : t) (tx : bytes) : go (t * option goerr) :=
  let! valid := ValidateTx tx (isCrossShardMempool m) in
  if negb valid then Ok (m, Some notValid)
  else
    let! '(l, e) := CList.PushBack (txs m) tx in
    Ok (mk l (<[tx := e]> (txsMap m)) (isCrossShardMempool m), None).
Definition Receive (m : t) (chID : Z) (message : bytes) (messageType : Z) : go (t * option goerr) := AddTx m message.
End mempool.

(** The loop checks the number after it added a transaction. *)
Fixpoint reapLoop (CheckLock : bytes -> go bool) (fuel : nat) (l : CList.t) (e : option nat) (maxTxs : Z)
    (out : Txs.t) : go Txs.t :=
  match e, fuel with
  | None, _ => Ok out
  | Some _, O => OutOfFuel
  | Some e, S fuel =>
      let! c := CList.elem l e in
      let! free := CheckLock (CList.Value c) in
      if negb free then let! n := CList.Next l e in reapLoop CheckLock fuel l n maxTxs out
      else
        let out := out ++ [CList.Value c] in
        if zlen out >=? maxTxs then Ok out
        else let! n := CList.Next l e in reapLoop CheckLock fuel l n maxTxs out
  end.
Definition ReapTx (CheckLock : bytes -> go bool) (m : t) (maxTxs : Z) : go (Txs.t * Z * option goerr) :=
  if maxTxs <? 0 then Panic
  else
    let! out := reapLoop CheckLock (length (CList.heap (txs m))) (txs m) (CList.Front (txs m)) maxTxs [] in
    Ok (out, zlen out, None).

(** The statuses are nil or bytes. *)
Definition Update (m : t) (l : Txs.t) (commitStatus : option bytes) : go (t * option goerr) :=
  match l with
  | [] => Ok (m, None)
  | _ =>
      match isCrossShardMempool m, commitStatus with
      | true, Some commitStatus =>
          let! bv := BV.NewBitArrayFromByte commitStatus in
          let! m := Mempool.updateCross m bv 0 l in Ok (m, None)
      | _, _ => let! m := Mempool.updateInner m l in Ok (m, None)
      end
  end.

(** ** The pool as a sequence of transactions *)

Section pool.
Context (ValidateTx : bytes -> bool -> go bool).

Inductive op := OpAdd (tx : bytes) | OpUpdate (l : Txs.t) (commitStatus : option bytes).
Definition run1 (m : t) (o : op) : go t :=
  match o with
  | OpAdd tx => let! '(m, _) := AddTx ValidateTx m tx in Ok m
  | OpUpdate l st => let! '(m, _) := Update m l st in Ok m
  end.
Definition run (m : t) (ops : list op) : go t := go_foldl run1 m ops.

(** What a pool holds after an operation: a transaction that is already in the
    pool is not added again, and a status a block carries can be decoded. *)
Definition pool1 (cross : bool) (pool : Txs.t) (o : op) : option Txs.t :=
  match o with
  | OpAdd tx => Mempool.pool1 ValidateTx cross pool (Mempool.OpAdd tx)
  | OpUpdate l (Some st) => Mempool.pool1 ValidateTx cross pool (Mempool.OpUpdate l st)
  | OpUpdate l None => Some (without l pool)
  end.
Fixpoint poolAfter (cross : bool) (pool : Txs.t) (ops : list op) : option Txs.t :=
  match ops with [] => Some pool | o :: ops => pool ← pool1 cross pool o; poolAfter cross pool ops end.

(** But for the text of an error, an operation is one of [Mempool]. *)
Lemma run1_add m tx : run1 m (OpAdd tx) = Mempool.run1 ValidateTx m (Mempool.OpAdd tx).
Proof.
  cbn. unfold AddTx, Mempool.AddTx. destruct (ValidateTx _ _) as [[]| |]; cbn; [|done..].
  by destruct (CList.PushBack _ _) as [[]| |].
Qed.
Lemma run1_update m l st : run1 m (OpUpdate l (Some st)) = Mempool.run1 ValidateTx m (Mempool.OpUpdate l st).
Proof. cbn. unfold Update, Mempool.Update. destruct l; [done|]. by destruct (isCrossShardMempool m). Qed.

Lemma step_pools m cross pool n o pool' : pools m cross pool n -> n < CList.MaxLength -> pool1 cross pool o = Some pool' ->
  exists m', run1 m o = Ok m' /\ pools m' cross pool' (n + 1).
Proof.
  intros Hp Hn E. destruct o as [tx|l [st|]].
  - rewrite run1_add. by eapply Mempool.run1_pools.
  - rewrite run1_update. by eapply Mempool.run1_pools.
  - injection E as <-. assert (forall m pool, pools m cross pool n -> pools m cross pool (n + 1)) as Hw.
    { intros m1 pool1 (s & H1 & H2 & H3 & H4). exists s. split_and!; try done; [lia|apply H4..]. }
    destruct l as [|tx l]; cbn [run1 Update].
    { exists m. split; [done|]. rewrite Mempool.without_nil. by apply Hw. }
    destruct (Mempool.updateInner_pools ValidateTx (tx :: l) m cross pool n Hp Hn) as (m' & E & Hp').
    exists m'. split; [|by apply Hw]. by destruct (isCrossShardMempool m); rewrite E.
Qed.

Lemma all_pools cross ops pool : poolAfter cross [] ops = Some pool -> zlen ops <= CList.MaxLength ->
  exists m n, run (NewMempool cross) ops = Ok m /\ pools m cross pool n.
Proof.
  assert (forall m q n, pools m cross q n -> poolAfter cross q ops = Some pool -> n + zlen ops <= CList.MaxLength ->
    exists m' n', run m ops = Ok m' /\ pools m' cross pool n') as Hgen.
  { induction ops as [|o ops IH]; intros m q n Hp; cbn [poolAfter run go_foldl length].
    - intros [= <-] _. by exists m, n.
    - destruct (pool1 cross q o) as [q'|] eqn:E1; [|done]. cbn. intros E Hn.
      destruct (step_pools m cross q n o q' Hp ltac:(lia) E1) as (m1 & E2 & Hp1). unfold run. cbn [go_foldl].
      rewrite E2. cbn [gbind]. apply (IH m1 q' (n + 1) Hp1 E). lia. }
  intros E Hn. apply (Hgen (NewMempool cross) [] 0); [|done|lia].
  exists ([], 0%nat). split; [apply Mempool.NewMempool_holds|]. by split_and!.
Qed.

(** What is in a pool passed the validation. *)
Lemma poolAfter_valid cross ops : forall pool0 pool, Forall (fun tx => ValidateTx tx cross = Ok true) pool0 ->
  poolAfter cross pool0 ops = Some pool -> Forall (fun tx => ValidateTx tx cross = Ok true) pool.
Proof.
  induction ops as [|o ops IH]; intros pool0 pool Hall; cbn; [by intros [= <-]|].
  destruct (pool1 _ _ _) as [pool1|] eqn:E1; [|done]. apply IH. clear IH.
  assert (forall gone, Forall (fun tx => ValidateTx tx cross = Ok true) (without gone pool0)) as Hw.
  { intros gone. apply Forall_forall. intros tx [Hin _]%list_elem_of_In%List.filter_In.
    rewrite Forall_forall in Hall. by apply Hall, list_elem_of_In. }
  destruct o as [tx|l [st|]]; cbn in E1.
  - destruct (ValidateTx tx cross) as [[]| |] eqn:Ev; [|by injection E1 as <-|done..].
    destruct (bool_decide _); [done|]. injection E1 as <-. apply Forall_app. by split; [|apply Forall_singleton].
  - destruct l; [by injection E1 as <-|]. destruct cross; [|injection E1 as <-; apply Hw].
    destruct (BV.NewBitArrayFromByte st); [|done..]. injection E1 as <-. apply Hw.
  - injection E1 as <-. apply Hw.
Qed.

(** ** Reaping *)

Context (CheckLock : bytes -> go bool) (free : bytes -> bool).

Lemma reapLoop_free l s maxTxs : CList.stands l s -> Forall (fun tx => CheckLock tx = Ok (free tx)) s.1.*2 ->
  forall fuel i out, (length s.1 - i <= fuel)%nat ->
  reapLoop CheckLock fuel l (fst <$> s.1 !! i) maxTxs out =
  Ok (out ++ take (Z.to_nat (Z.max 1 (maxTxs - zlen out))) (List.filter free (drop i s.1.*2))).
Proof.
  intros St Hfree. induction fuel as [|fuel IH]; intros i out Hf; cbn [reapLoop].
  - rewrite (lookup_ge_None_2 s.1 i) by lia. cbn. rewrite drop_ge by (rewrite length_fmap; lia). cbn [List.filter].
    by rewrite take_nil, app_nil_r.
  - destruct (s.1 !! i) as [[e tx]|] eqn:Ei; cbn [fmap option_fmap option_map fst].
    2:{ apply lookup_ge_None in Ei. rewrite drop_ge by (rewrite length_fmap; lia). cbn [List.filter].
        by rewrite take_nil, app_nil_r. }
    assert (s.1.*1 !! i = Some e) as H1 by by rewrite list_lookup_fmap, Ei.
    assert (s.1.*2 !! i = Some tx) as H2 by by rewrite list_lookup_fmap, Ei.
    pose proof (CList.sd_values _ _ St e tx ltac:(by eapply list_elem_of_lookup_2)) as Hv.
    destruct (CList.rp_in _ _ (CList.sd_repr _ _ St) i e H1) as (c & Hc & _ & Hn & _).
    unfold CList.valueAt in Hv. rewrite Hc in Hv. injection Hv as Hv.
    assert (CList.Next l e = Ok (fst <$> s.1 !! S i)) as Hnext.
    { unfold CList.Next, CList.elem. rewrite Hc. cbn [deref gbind]. rewrite Hn. unfold CList.after.
      by rewrite list_lookup_fmap. }
    rewrite Hnext. unfold CList.elem. rewrite Hc. cbn [deref gbind]. rewrite Hv.
    rewrite (proj1 (Forall_lookup _ _) Hfree i tx H2), (drop_S _ _ _ H2). cbn [gbind List.filter].
    destruct (free tx); cbn [negb]; [|apply IH; lia].
    rewrite (length_app out). cbn [length]. destruct (Z.geb_spec (Z.of_nat (length out + 1)) maxTxs).
    + replace (Z.to_nat (Z.max 1 (maxTxs - zlen out))) with 1%nat by lia. done.
    + rewrite (IH (S i)), length_app, <- app_assoc by lia. cbn [length app].
      replace (Z.to_nat (Z.max 1 (maxTxs - zlen out)))
        with (S (Z.to_nat (Z.max 1 (maxTxs - Z.of_nat (length out + 1))))) by lia.
      done.
Qed.

Lemma reap_pools m cross pool n maxTxs : pools m cross pool n ->
  Forall (fun tx => CheckLock tx = Ok (free tx)) pool ->
  ReapTx CheckLock m maxTxs =
    if maxTxs <? 0 then Panic
    else let out := take (Z.to_nat (Z.max 1 maxTxs)) (List.filter free pool) in Ok (out, zlen out, None).
Proof.
  intros (s & [St _] & <- & _) Hfree. unfold ReapTx. destruct (maxTxs <? 0); [done|].
  assert (CList.Front (txs m) = fst <$> s.1 !! 0%nat) as ->.
  { unfold CList.Front. by rewrite (CList.rp_head _ _ (CList.sd_repr _ _ St)), list_lookup_fmap. }
  rewrite (reapLoop_free _ s maxTxs St Hfree _ 0).
  2:{ pose proof (CList.stands_bound _ _ St). rewrite (CList.sd_next _ _ St). lia. }
  cbn. by rewrite Z.sub_0_r.
Qed.
End pool.
End PyramidMempool.
