(* ===== verification/PyramidNode.v ===== *)
(** * A node of the comparison protocols: [pyramid/main/start.go]

    The application and the mempools a node is made of, and the interfaces of
    [PyramidConsensus] they implement. Unlike in [Node], the forest of an I shard
    holds its own ranges, and a mempool asks the application for locks. *)

From S2P Require Import Prelude BitVector Convert Hash Wire Types PyramidTypes ShardInfo Store RangeTree MemDB.
From S2P Require Import Codecs BankTx Bank CList Mempool Consensus ConsensusSafety Node BankSpec.
From S2P Require Import PyramidBank PyramidBankSpec PyramidRuns PyramidHeight PyramidConsensus PyramidMempool.
Local Open Scope Z_scope.

Module PyramidNode.
Import PyramidBank(Application, SetBlockStore, blockDB, NewApplication, LockedKeys, KeyRangeTree, AllShardRangeTree,
  MyChainID, requireLock, unmarshalTransferTx, getRWSet, txKeys).
Import PyramidDefinition.

Section node.
Context `{Hash, StdTime, DB, !Codec pbTransferTx, !Codec pbBankData, !Codec pbBlock}.
Context (unmarshalError : bytes -> string).

(** ** Interfaces

    The store of the consensus is the block store of the application
    ([SetBlockStore]): an operation works on the store it is given. *)
Definition onStore {A} (d : Database) (app : Application) (op : Application -> go (Application * A)) :
    option (Application * Database * A) :=
  '(app, a) ← toOption (op (SetBlockStore app d)); Some (app, blockDB app, a).

#[export] Instance pyramidBankConn : ABCIConn :=
  {| App := Application;
     CheckLock app tx := toOption (PyramidBank.CheckLock unmarshalError app tx);
     PreExecutionB app block := Some (PyramidBank.PreExecutionB app block);
     PreExecutionI app block := toOption (PyramidBank.PreExecutionI unmarshalError app block);
     ExecutionInnerShard app d block :=
       '(app, d, (block, resp)) ← onStore d app (fun app =>
         let! '(app, block, resp) := PyramidBank.ExecutionInnerShard unmarshalError app block in
         Ok (app, (block, resp)));
       Some (app, d, block, resp);
     AcceptCrossShard app d block chain_id ifcommit :=
       '(app, d, (block, resp)) ← onStore d app (fun app =>
         let! '(app, block, resp) := PyramidBank.AcceptCrossShard unmarshalError app block chain_id ifcommit in
         Ok (app, (block, resp)));
       Some (app, d, block, resp);
     AcceptCommitShard app d hashes commits chain_id :=
       '(app, _, resp) ← onStore d app (fun app =>
         PyramidBank.AcceptCommitShard unmarshalError app hashes commits chain_id);
       Some (app, resp);
     AppCommit := PyramidBank.Commit;
     FillData app block := toOption (PyramidBank.FillData unmarshalError app block) |}.

(** The cross-shard pool of an I shard is nil. *)
#[export] Instance pyramidMempoolConn : MempoolConn :=
  {| Pool := option Mempool.t;
     ReapTx pool app maxTxs :=
       m ← pool; toOption (PyramidMempool.ReapTx (PyramidBank.CheckLock unmarshalError app) m maxTxs);
     Update pool txs status :=
       m ← pool; '(m, err) ← toOption (PyramidMempool.Update m txs status); Some (Some m, err) |}.

(** ** Key ranges *)

Definition shardTree (si : PyramidShardInfo.t) (shard : string) : go RangeTree.t :=
  RangeTree.NewRangeTreeFromString (default "" (PyramidShardInfo.KeyRangeMap si !! shard)).

Definition addShard (si : PyramidShardInfo.t) (x : RangeTree.t * gmap string RangeTree.t) (shard : string) :
    go (RangeTree.t * gmap string RangeTree.t) :=
  let! t := shardTree si shard in
  let! keyRangeTree := RangeTree.Add x.1 t in
  Ok (keyRangeTree, <[shard := t]> x.2).

(** [order] is the order in which the loop visits the related shards. *)
Definition createKeyRangeTree (cfg : NodeConfig) (si : PyramidShardInfo.t) (order : list string) :
    go (RangeTree.t * gmap string RangeTree.t) :=
  let! keyRangeTree := shardTree si (ChainID cfg) in
  let! own := shardTree si (ChainID cfg) in
  if IsI cfg then Ok (keyRangeTree, {[ChainID cfg := own]})
  else go_foldl (addShard si) (keyRangeTree, {[ChainID cfg := own]}) order.

(** The consensus sets its own store before it uses the application; the caller
    passes nil for [block_store]. *)
Definition createABCI (cfg : NodeConfig) (si : PyramidShardInfo.t) (order : list string) (db block_store : Database) :
    go Application :=
  let! '(keyRangeTree, relatedKeyRangeForest) := createKeyRangeTree cfg si order in
  if bool_decide (ABCIApp cfg = "minibank")
  then Ok (NewApplication db (ChainID cfg) (IsI cfg) (Some keyRangeTree) relatedKeyRangeForest block_store)
  else Panic.

(** The mempool and the cross-shard mempool. *)
Definition createMempool (cfg : NodeConfig) : Mempool.t * option Mempool.t :=
  (Mempool.NewMempool false, if IsI cfg then None else Some (Mempool.NewMempool true)).

(** ** What a node accepts *)

(** A key of the ranges of one of the shards. *)
Definition ownsKey (si : PyramidShardInfo.t) (shards : list string) (key : string) : bool :=
  existsb (fun shard => match shardTree si shard with Ok t => RangeTree.Search t key | _ => false end) shards.

(** The keys of a transfer that can be decoded: there are no other transactions. *)
Definition transferKeys (tx : bytes) : option (list string) :=
  match BytesToUint32 (take 4 tx) with
  | Ok ty => if ty =? PyramidTx.TxTransfer then t ← (Unmarshal (drop 4 tx) : option pbTransferTx); Some (From t ++ To t)
             else None
  | _ => None
  end.
(** None of the keys is locked. *)
Definition unlocked (app : Application) (tx : bytes) : bool :=
  match transferKeys tx with Some keys => forallb (requireLock (LockedKeys app)) keys | None => true end.

(** The ranges of [PyramidShardInfo] as [Node] reads them. *)
Definition ranges (si : PyramidShardInfo.t) : ShardInfo.t :=
  ShardInfo.mk ∅ ∅ ∅ ∅ 0 (PyramidShardInfo.KeyRangeMap si).

Lemma createTrees_search cfg si order tree forest : createKeyRangeTree cfg si order = Ok (tree, forest) ->
  ChainID cfg ∉ order ->
  (forall key, RangeTree.Search tree key = ownsKey si (if IsI cfg then [ChainID cfg] else ChainID cfg :: order) key) /\
  exists own, forest !! ChainID cfg = Some own /\ forall key, RangeTree.Search own key = ownsKey si [ChainID cfg] key.
Proof.
  unfold createKeyRangeTree. intros E Hn. apply gbind_Ok in E as (t & Et & E). rewrite Et in E. cbn [gbind] in E.
  destruct (IsI cfg) eqn:Ei.
  - injection E as <- <-.
    assert (forall key, RangeTree.Search t key = ownsKey si [ChainID cfg] key) as Hs.
    { intros key. cbn. by rewrite Et, orb_false_r. }
    split; [exact Hs|]. exists t. by rewrite lookup_singleton_eq.
  - assert (Node.createKeyRangeTree cfg (ranges si) order = Ok (tree, forest)) as Ec.
    { unfold Node.createKeyRangeTree, Node.shardTree. cbn [ShardInfo.KeyRangeMap ranges]. fold (shardTree si (ChainID cfg)).
      rewrite Et. cbn [gbind]. by rewrite Ei. }
    destruct (Node.createKeyRangeTree_searches cfg (ranges si) order tree forest Ec) as [Hs Ho].
    rewrite Ei in Hs. split; [exact Hs|]. exact (Ho Ei Hn).
Qed.

Lemma unmarshalTransferTx_keys tx :
  exists r, unmarshalTransferTx unmarshalError tx = Ok r /\
    match r with
    | inl t => transferKeys tx = Some (From t ++ To t) /\ BytesToUint32 (take 4 tx) = Ok PyramidTx.TxTransfer
    | inr _ => transferKeys tx = None
    end.
Proof.
  unfold unmarshalTransferTx, transferKeys, NewTransferTxFromBytes, BytesToUint32, leUint. rewrite length_take.
  destruct (Nat.ltb_spec (length tx) 4) as [Hl|Hl].
  { eexists. split; [done|]. destruct (Nat.ltb_spec (4 `min` length tx) 4); [done|lia]. }
  destruct (Nat.ltb_spec (4 `min` length tx) 4); [lia|]. cbn [gbind].
  case Z.eqb_spec; cbn [negb]; intros Et; [rewrite Et|eexists; by split].
  cbn [gbind]. destruct (Unmarshal (drop 4 tx)) as [t|]; eexists; by split.
Qed.

Lemma CheckLock_unlocked app tx : PyramidBank.CheckLock unmarshalError app tx = Ok (unlocked app tx).
Proof.
  destruct (unmarshalTransferTx_keys tx) as (r & E & Hk). unfold PyramidBank.CheckLock, unlocked. rewrite E. cbn [gbind].
  destruct r as [t|]; [destruct Hk as [-> _]|by rewrite Hk]. cbn [getRWSet]. f_equal. rewrite andb_diag.
  apply eq_true_iff_eq. rewrite !forallb_forall. setoid_rewrite <- list_elem_of_In. unfold txKeys. set_solver.
Qed.

Lemma ValidateTx_ranges app tx cross tree :
  (if PyramidBank.IsI app || cross then AllShardRangeTree app else KeyRangeTree app !! MyChainID app) = Some tree ->
  PyramidBank.ValidateTx unmarshalError app tx cross =
    Ok (negb (PyramidBank.IsI app && cross) &&
        match transferKeys tx with Some keys => forallb (RangeTree.Search tree) keys | None => false end).
Proof.
  intros Ht. destruct (unmarshalTransferTx_keys tx) as (r & E & Hk). unfold PyramidBank.ValidateTx. rewrite Ht.
  destruct (Nat.ltb_spec (length tx) 4) as [Hl|Hl].
  { unfold unmarshalTransferTx in E. destruct (Nat.ltb_spec (length tx) 4); [|lia]. injection E as <-.
    by rewrite Hk, andb_false_r. }
  destruct (_ && cross); [done|]. cbn [negb andb].
  destruct r as [t|e]; [destruct Hk as [-> ->]; cbn [gbind]|rewrite Hk].
  - rewrite Z.eqb_refl, E. cbn [gbind]. rewrite !allInRange_forallb, forallb_app. cbn.
    by destruct (forallb _ (From t)).
  - unfold BytesToUint32, leUint. rewrite length_take.
    destruct (Nat.ltb_spec (4 `min` length tx) 4); [lia|]. cbn [gbind]. rewrite E. by destruct (_ =? _).
Qed.

Lemma ValidateTx_owns cfg si order d bs app tx cross
  (Hn : ChainID cfg ∉ order) (Happ : createABCI cfg si order d bs = Ok app) :
  PyramidBank.ValidateTx unmarshalError app tx cross =
    Ok (negb (IsI cfg && cross) &&
        match transferKeys tx with
        | Some keys => forallb (ownsKey si (if cross then ChainID cfg :: order else [ChainID cfg])) keys
        | None => false
        end).
Proof.
  unfold createABCI in Happ. apply gbind_Ok in Happ as ([tree forest] & E & Happ).
  destruct (bool_decide _); [|done]. injection Happ as <-.
  destruct (createTrees_search _ _ _ _ _ E Hn) as [Hs (own & Ho & Hs2)].
  assert (forall t f keys, (forall key, RangeTree.Search t key = f key) -> forallb (RangeTree.Search t) keys = forallb f keys) as Hext.
  { intros t f keys Hf. induction keys; cbn; [done|]. by rewrite Hf, IHkeys. }
  destruct (IsI cfg || cross) eqn:Ec.
  - rewrite (ValidateTx_ranges _ tx cross tree) by (cbn; by rewrite Ec). cbn [PyramidBank.IsI NewApplication].
    destruct (IsI cfg && cross) eqn:Eb; [done|]. destruct (transferKeys tx); [|done].
    rewrite (Hext _ _ _ Hs). destruct (IsI cfg); [|by destruct cross]. destruct cross; done.
  - rewrite (ValidateTx_ranges _ tx cross own) by (cbn; by rewrite Ec). cbn [PyramidBank.IsI NewApplication].
    destruct (transferKeys tx); [|done]. rewrite (Hext _ _ _ Hs2). destruct cross; [|done].
    by rewrite orb_true_r in Ec.
Qed.

(** The runs of [PyramidRuns] ask for a range of the chain of every operation:
    an application has those of its own shard and, on a B shard, of the related
    shards. *)
Lemma createABCI_ranged cfg si order d bs app op : createABCI cfg si order d bs = Ok app ->
  ranged app op <-> chainOf op = ChainID cfg \/ (IsI cfg = false /\ chainOf op ∈ order).
Proof.
  unfold createABCI, ranged. intros ([tree forest] & E & Happ)%gbind_Ok.
  destruct (bool_decide _); [|done]. injection Happ as <-. cbn [KeyRangeTree NewApplication].
  generalize (chainOf op). intros chain. unfold createKeyRangeTree in E.
  apply gbind_Ok in E as (t & Et & E). rewrite Et in E. cbn [gbind] in E.
  assert (forall order x x', go_foldl (addShard si) x order = Ok x' ->
    is_Some (x'.2 !! chain) <-> is_Some (x.2 !! chain) \/ chain ∈ order) as Hgen.
  { clear. induction order as [|shard order IH]; intros x x'; cbn [go_foldl].
    - intros [= <-]. set_solver.
    - intros (x1 & E1 & E)%gbind_Ok. unfold addShard in E1. apply gbind_Ok in E1 as (t & _ & E1).
      apply gbind_Ok in E1 as (tree & _ & [= <-]). rewrite (IH _ _ E), elem_of_cons. cbn [snd].
      rewrite lookup_insert_is_Some'. naive_solver. }
  assert (forall x : RangeTree.t, is_Some (({[ChainID cfg := x]} : gmap string RangeTree.t) !! chain) <-> chain = ChainID cfg) as Hone.
  { intros x. rewrite lookup_singleton_is_Some. naive_solver. }
  destruct (IsI cfg).
  - injection E as <- <-. rewrite Hone. naive_solver.
  - rewrite (Hgen _ _ _ E : is_Some (forest !! chain) <-> _). cbn [snd]. rewrite Hone. naive_solver.
Qed.

(** C30: whatever transactions are offered to a mempool of a node and whatever
    blocks are decided, and whatever keys are locked when it reaps, it returns
    the first transactions of its pool without a locked key, in the order they
    came; each is a transfer between keys of the shard, or for the cross-shard
    pool of the shard and its related shards. *)
Theorem reaped_unlocked cfg si order d bs app cross ops pool
  (Hn : ChainID cfg ∉ order) (Happ : createABCI cfg si order d bs = Ok app)
  (Hpool : PyramidMempool.poolAfter (PyramidBank.ValidateTx unmarshalError app) cross [] ops = Some pool)
  (Hops : zlen ops <= CList.MaxLength) :
  exists m, PyramidMempool.run (PyramidBank.ValidateTx unmarshalError app) (Mempool.NewMempool cross) ops = Ok m /\
    forall app' maxTxs, 0 <= maxTxs ->
      let out := take (Z.to_nat (Z.max 1 maxTxs)) (List.filter (unlocked app') pool) in
      PyramidMempool.ReapTx (PyramidBank.CheckLock unmarshalError app') m maxTxs = Ok (out, zlen out, None) /\
      Forall (fun tx => exists keys, transferKeys tx = Some keys /\
        Forall (fun key => LockedKeys app' !! key = None /\
          ownsKey si (if cross then ChainID cfg :: order else [ChainID cfg]) key = true) keys) out.
Proof.
  set (validate := PyramidBank.ValidateTx unmarshalError app) in *.
  destruct (PyramidMempool.all_pools validate cross ops pool Hpool Hops) as (m & k & E & Hm).
  exists m. split; [done|]. intros app' maxTxs Hmax out. split.
  { rewrite (PyramidMempool.reap_pools (PyramidBank.CheckLock unmarshalError app') (unlocked app') m cross pool k maxTxs Hm).
    - destruct (Z.ltb_spec maxTxs 0); [lia|done].
    - apply Forall_forall. intros tx _. apply CheckLock_unlocked. }
  apply Forall_take, Forall_forall. intros tx [Hin Hu]%list_elem_of_In%List.filter_In.
  pose proof (PyramidMempool.poolAfter_valid validate cross ops [] pool (Forall_nil_2 _) Hpool) as Hv.
  rewrite Forall_forall in Hv. specialize (Hv tx (proj2 (list_elem_of_In _ _) Hin)). unfold validate in Hv.
  rewrite (ValidateTx_owns cfg si order d bs app tx cross Hn Happ) in Hv. injection Hv as Hv.
  apply andb_true_iff in Hv as [_ Hv]. unfold unlocked in Hu. destruct (transferKeys tx) as [keys|]; [|done].
  exists keys. split; [done|]. apply Forall_forall. intros key Hin'%list_elem_of_In.
  rewrite forallb_forall in Hv, Hu. split; [|by apply Hv]. specialize (Hu key Hin'). unfold requireLock in Hu.
  apply negb_true_iff, bool_decide_eq_false in Hu. by apply eq_None_not_Some.
Qed.
End node.
End PyramidNode.

(** ** A B shard with two I shards *)

Module PyramidNodeDemo.
Import DemoHash Demo StoreDemo BankTxDemo DemoCodecs PyramidRunsDemo.
Import PyramidNode.
Definition cfg : NodeConfig := mkNodeConfig "B0" false "minibank".
Definition shards : PyramidShardInfo.t :=
  PyramidShardInfo.mk ∅ {["I0" := true; "I1" := true]} ∅ BLOCKTYPE_B
    {["B0" := "[a,b]"; "I0" := "[c,d]+[m,n]"; "I1" := "[e,f]"]}.
Definition order : list string := ["I1"; "I0"].
Definition noBlocks : Database := (∅ : gmap bytes bytes).
Definition app : PyramidBank.Application := valueOf shard (createABCI cfg shards order noBlocks noBlocks).
Lemma node_Ok : createABCI cfg shards order noBlocks noBlocks = Ok app.
Proof. unfold app. apply valueOf_Ok. vm_compute. reflexivity. Qed.
Lemma not_related : ChainID cfg ∉ order.
Proof. apply (bool_decide_unpack _). vm_compute. exact I. Qed.

(** The key of zoe is of none of the shards; a decision without statuses removes
    its block. *)
Definition ops : list PyramidMempool.op :=
  [PyramidMempool.OpAdd (pay "alice" "mike" 5); PyramidMempool.OpAdd (pay "alice" "zoe" 5);
   PyramidMempool.OpAdd (pay "eve" "cecil" 1); PyramidMempool.OpAdd (pay "ada" "eve" 2);
   PyramidMempool.OpUpdate [pay "ada" "eve" 2] None; PyramidMempool.OpAdd (pay "ada" "alice" 3)].
Definition pool : Txs.t := [pay "alice" "mike" 5; pay "eve" "cecil" 1; pay "ada" "alice" 3].
Lemma node_pool : PyramidMempool.poolAfter (PyramidBank.ValidateTx noText app) true [] ops = Some pool.
Proof. vm_compute. reflexivity. Qed.
(** A cross-shard transaction locked the key of eve. *)
Definition busy : PyramidBank.Application := PyramidBank.setLocks app {["eve" := 3]}.

Lemma reaped_unlocked_witness :
  exists m, PyramidMempool.run (PyramidBank.ValidateTx noText app) (Mempool.NewMempool true) ops = Ok m /\
    PyramidMempool.ReapTx (PyramidBank.CheckLock noText busy) m 5 =
      Ok ([pay "alice" "mike" 5; pay "ada" "alice" 3], 2, None) /\
    PyramidMempool.ReapTx (PyramidBank.CheckLock noText app) m 2 =
      Ok ([pay "alice" "mike" 5; pay "eve" "cecil" 1], 2, None).
Proof.
  destruct (reaped_unlocked noText cfg shards order noBlocks noBlocks app true ops pool not_related node_Ok node_pool
    ltac:(apply Z.leb_le; vm_compute; reflexivity)) as (m & E & R).
  exists m. split; [exact E|]. split.
  - refine (eq_trans (proj1 (R busy 5 _)) _); [apply Z.leb_le; reflexivity|vm_compute; reflexivity].
  - refine (eq_trans (proj1 (R app 2 _)) _); [apply Z.leb_le; reflexivity|vm_compute; reflexivity].
Defined.
End PyramidNodeDemo.
