(* ===== verification/Latency.v ===== *)
(** * The latency tools: [abci/minibank/main/main.go] of the three protocols

    For the periods with transactions that the event log of a stopped node has,
    the blocks of its store are gone through: a transfer was confirmed when the
    next block was made. The tools print the averages of the sums below. *)

From S2P Require Import Prelude BitVector Convert Hash Merkle Wire Types BankTx PartSet Signer Votes Store.
From S2P Require Import PyramidTypes PyramidVotes Codecs PyramidCodecs Consensus EventLog.
From stdpp Require Import pretty.
Local Open Scope Z_scope.

Module Latency.

Section tool.
Context `{DB, !Codec pbBlock, !Codec pbTransferTx, !Codec pbMessageAcceptSet}.

(** The number of transfers of both kinds, and the sum of their latencies. *)
Record Sums := mkSums { innerCount : Z; crossCount : Z; innerLatency : Z; crossLatency : Z }.
Definition noSums : Sums := mkSums 0 0 0 0.
Definition addInner (s : Sums) (d : Duration) : Sums :=
  mkSums (i64 (innerCount s + 1)) (crossCount s) (i64 (innerLatency s + d)) (crossLatency s).
Definition addCross (s : Sums) (d : Duration) : Sums :=
  mkSums (innerCount s) (i64 (crossCount s + 1)) (innerLatency s) (i64 (crossLatency s + d)).

Definition sinceSent (commitTime : Time) (tx : pbTransferTx) : Duration :=
  timeSub commitTime (ThirdPartyUnmarshalTime (TTime tx)).
(** What is no transfer is skipped. *)
Definition countTx (add : Sums -> pbTransferTx -> Sums) (s : Sums) (txBytes : bytes) : go Sums :=
  let! tx := NewTransferTxFromBytes txBytes in
  match tx with None => Ok s | Some tx => Ok (add s tx) end.
Definition countInner (commitTime : Time) (b : Block.t) (s : Sums) : go Sums :=
  go_foldl (countTx (fun s tx => addInner s (sinceSent commitTime tx))) s (Body.BodyTxs (Block.Body b)).

(** [melete]: the next block tells which cross-shard transactions committed. *)
Fixpoint countCommitted (commitTime : Time) (bv : option BV.t) (i : Z) (txs : list bytes) (s : Sums) : go Sums :=
  match txs with
  | [] => Ok s
  | txBytes :: txs =>
      let! bit := BV.GetIndex bv i in
      let! s := if bit then countTx (fun s tx => addCross s (sinceSent commitTime tx)) s txBytes else Ok s in
      countCommitted commitTime bv (i + 1) txs s
  end.
Definition measureMelete (d : Database) (s : Sums) (block blockNext : Block.t) : go Sums :=
  let commitTime := Header.Time (Block.Header blockNext) in
  let! s := countInner commitTime block s in
  let! bv := BV.NewBitArrayFromByte (Relation.MyCommitStatus (Block.Relation blockNext)) in
  countCommitted commitTime bv 0 (CrossShardBody.CrossShardTxs (Block.CrossShardBody block)) s.

(** [pyramid] and [rapid]: a decision block commits the block that it names when
    all answers accept it. The two phases took four blocks, not three. *)
Definition measurePyramid (d : Database) (s : Sums) (block blockNext : Block.t) : go Sums :=
  let commitTime := Header.Time (Block.Header blockNext) in
  let ty := Header.BlockType (Block.Header block) in
  if ty =? BLOCKTYPE_InnerShard then countInner commitTime block s
  else if ty =? BLOCKTYPE_BCommitBlock then
    let! tx := idx (Body.BodyTxs (Block.Body block)) 0 in
    let! cmt := MessageAcceptSet.NewMessageAcceptSetFromBytes tx in
    let! cmt := deref cmt in
    if forallb (fun ma => PrecommitAggregated.IsOK (MessageAccept.CollectiveSignatures ma)) (MessageAcceptSet.Accepts cmt) then
      match PrefixStore.GetBlockByHash d (MessageAcceptSet.BlockHash cmt) with
      | (_, Some _) => Panic
      | (ublockBz, None) =>
          let! ublock := Block.NewBlockFromBytes (default [] ublockBz) in
          let! ublock := deref ublock in
          go_foldl (countTx (fun s tx => addCross s (Z.quot (i64 (sinceSent commitTime tx * 4)) 3))) s
            (CrossShardBody.CrossShardTxs (Block.CrossShardBody ublock))
      end
    else Ok s
  else Ok s.

(** A height whose block or next block is missing is left out. *)
Definition measureHeight (measure : Database -> Sums -> Block.t -> Block.t -> go Sums) (d : Database) (chain_id : string)
    (s : Sums) (j : Z) : go Sums :=
  match PrefixStore.GetBlockByHeight d j chain_id with
  | (_, Some _) => Ok s
  | (bz, None) =>
      let! block := Block.NewBlockFromBytes (default [] bz) in
      match block with
      | None => Ok s
      | Some block =>
          match PrefixStore.GetBlockByHeight d (j + 1) chain_id with
          | (Some bz, None) =>
              let! blockNext := Block.NewBlockFromBytes bz in
              match blockNext with
              | None => Ok s
              | Some blockNext => measure d s block blockNext
              end
          | _ => Ok s
          end
      end
  end.
Definition heightsOf (p : Z * Z) : list Z := seqZ p.1 (p.2 - p.1 + 1).
Definition latencies measure (d : Database) (chain_id : string) (periods : list (Z * Z)) : go Sums :=
  go_foldl (measureHeight measure d chain_id) noSums (periods ≫= heightsOf).

(** The program: the log is read, and the store gone through. *)
Definition main `{EventJSON} measure (log : option bytes) (d : Database) (chain_id : string) : go Sums :=
  let! events := BlockLogger.NewReader log in
  let! '(blockRangeA, blockRangeB) := BlockLogger.NoneZeroPeriods events in
  latencies measure d chain_id (zip blockRangeA blockRangeB).

(** ** Every height with transactions is counted once *)

Import EventLogSpec.

Lemma visited_nodup ps : apart ps -> NoDup (ps ≫= heightsOf).
Proof.
  induction 1 as [|[a b] ps _ IH Hf]; cbn; [constructor|]. apply NoDup_app. split; [apply NoDup_seqZ|]. split; [|done].
  intros h Hh%elem_of_seqZ. cbn in Hh. intros ([c e] & Hh'%elem_of_seqZ & Hin)%list_elem_of_bind.
  rewrite Forall_forall in Hf. specialize (Hf _ Hin). cbn in *. lia.
Qed.

Definition busyHeights (n : Z) (hs : list HeightLog) : list Z :=
  map fst (List.filter (fun x => negb (innerTxs x.2 + allTxs x.2 =? 0)) (imap (fun i x => (n + Z.of_nat i, x)) hs)).
Lemma elem_of_busy n hs h : h ∈ busyHeights n hs <-> exists i x, hs !! i = Some x /\ busy x /\ h = n + Z.of_nat i.
Proof.
  unfold busyHeights. rewrite list_elem_of_In, in_map_iff. setoid_rewrite filter_In. setoid_rewrite <- list_elem_of_In. split.
  - intros ([h' x] & <- & [(i & y & [= -> ->] & Hi)%elem_of_lookup_imap Hb]). exists i, y. split; [done|]. split; [|done].
    unfold busy. cbn in Hb. by destruct (Z.eqb_spec (innerTxs y + allTxs y) 0).
  - intros (i & x & Hi & Hb & ->). exists (n + Z.of_nat i, x). split; [done|]. split; [apply elem_of_lookup_imap; eauto|].
    cbn. by destruct (Z.eqb_spec (innerTxs x + allTxs x) 0).
Qed.
Lemma busy_nodup n hs : NoDup (busyHeights n hs).
Proof.
  unfold busyHeights. revert n. induction hs as [|x hs IH]; intros n; [constructor|].
  assert (imap (fun i y => (n + Z.of_nat i, y)) (x :: hs) = (n, x) :: imap (fun i y => (n + 1 + Z.of_nat i, y)) hs) as ->.
  { cbn. f_equal; [f_equal; lia|]. apply imap_ext. intros i y _. cbn. f_equal. lia. }
  cbn [List.filter]. destruct (negb _); cbn [map fst]; [|apply IH]. apply NoDup_cons. split; [|apply IH].
  rewrite list_elem_of_In, in_map_iff. setoid_rewrite filter_In. setoid_rewrite <- list_elem_of_In.
  intros ([h y] & E & [(i & z & [= -> ->] & _)%elem_of_lookup_imap _]). cbn in E. lia.
Qed.

(** The heights that are gone through are the busy ones. *)
Lemma visited_busy n hs ps : exact n hs ps -> (ps ≫= heightsOf) ≡ₚ busyHeights n hs.
Proof.
  intros [Hr Ha Hb]. apply NoDup_Permutation; [by apply visited_nodup|apply busy_nodup|]. intros h. rewrite elem_of_busy. split.
  - intros ([a b] & Hh%elem_of_seqZ & Hin)%list_elem_of_bind. cbn in Hh. destruct (Hr a b Hin) as [H1' H2'].
    destruct (lookup_lt_is_Some_2 hs (Z.to_nat (h - n))) as [x Hx]; [lia|]. exists (Z.to_nat (h - n)), x.
    split; [done|]. split; [|lia]. apply (Hb _ x Hx). exists a, b. split; [done|lia].
  - intros (i & x & Hi & (a & b & Hin & Hab)%(Hb i x Hi) & ->). apply list_elem_of_bind. exists (a, b).
    split; [apply elem_of_seqZ; cbn; lia|done].
Qed.

(** *** What a height adds *)

Definition transfer (txBytes : bytes) : Prop := exists tx, NewTransferTxFromBytes txBytes = Ok (Some tx).
(** The sums count [a] more transfers of the own shard and [c] more of others. *)
Definition adds (s s' : Sums) (a c : Z) : Prop :=
  innerCount s' = i64 (innerCount s + a) /\ crossCount s' = i64 (crossCount s + c).
Record counting (s : Sums) : Prop := { ct_inner : in_s 64 (innerCount s); ct_cross : in_s 64 (crossCount s) }.

Lemma adds_none s : counting s -> adds s s 0 0.
Proof. intros [C1 C2]. unfold adds. by rewrite !Z.add_0_r, !wrap_s_small. Qed.
Lemma adds_then s1 s2 s3 a c a' c' : adds s1 s2 a c -> adds s2 s3 a' c' -> adds s1 s3 (a + a') (c + c').
Proof. intros [E1 E2] [F1 F2]. unfold adds. by rewrite F1, F2, E1, E2, !i64_add, !Z.add_assoc. Qed.
Lemma adds_counting s s' a c : adds s s' a c -> counting s'.
Proof. intros [E1 E2]. split; rewrite ?E1, ?E2; by apply wrap_s_range. Qed.

Lemma countTx_adds add s txBytes a c : transfer txBytes -> (forall tx, adds s (add s tx) a c) ->
  exists s', countTx add s txBytes = Ok s' /\ adds s s' a c.
Proof. intros [tx E] Ha. unfold countTx. rewrite E. cbn [gbind]. eauto. Qed.

Lemma countAll_adds add txs a c : Forall transfer txs -> (forall s tx, counting s -> adds s (add s tx) a c) ->
  forall s, counting s -> exists s', go_foldl (countTx add) s txs = Ok s' /\ adds s s' (a * zlen txs) (c * zlen txs).
Proof.
  intros Ht Ha. induction Ht as [|tx txs Ht _ IH]; intros s Hs; cbn [go_foldl].
  - exists s. rewrite !Z.mul_0_r. split; [done|by apply adds_none].
  - destruct (countTx_adds add s tx a c Ht) as (s1 & -> & A1); [by intros; apply Ha|]. cbn [gbind].
    destruct (IH s1 (adds_counting _ _ _ _ A1)) as (s2 & -> & A2). exists s2. split; [done|].
    replace (a * zlen (tx :: txs)) with (a + a * zlen txs) by (cbn [length]; lia).
    replace (c * zlen (tx :: txs)) with (c + c * zlen txs) by (cbn [length]; lia). by eapply adds_then.
Qed.

Lemma inner_adds s d : counting s -> adds s (addInner s d) 1 0.
Proof. intros [C1 C2]. unfold adds, addInner. cbn. by rewrite Z.add_0_r, (wrap_s_small 64 (crossCount s)). Qed.
Lemma cross_adds s d : counting s -> adds s (addCross s d) 0 1.
Proof. intros [C1 C2]. unfold adds, addCross. cbn. by rewrite Z.add_0_r, (wrap_s_small 64 (innerCount s)). Qed.

(** The loop that counts the committed transactions agrees with the count of the
    bits: from the [i]-th transaction on. *)
Definition countBit (bv : option BV.t) (count : Z) (i : nat) : go Z :=
  let! b := BV.GetIndex bv (Z.of_nat i) in Ok (if b then count + 1 else count).
Lemma countCommitted_bits commitTime bv : forall txs i c n, Forall transfer txs ->
  go_foldl (countBit bv) c (seq i (length txs)) = Ok n -> forall s, counting s ->
  exists s', countCommitted commitTime bv (Z.of_nat i) txs s = Ok s' /\ adds s s' 0 (n - c) /\ c <= n <= c + zlen txs.
Proof.
  induction txs as [|tx txs IH]; intros i c n Ht E s Hs; cbn [length seq go_foldl countCommitted] in *.
  - injection E as <-. exists s. split; [done|]. rewrite Z.sub_diag. split; [by apply adds_none|lia].
  - apply Forall_cons in Ht as [Ht Hts]. apply gbind_Ok in E as (c1 & E1 & E). unfold countBit in E1.
    apply gbind_Ok in E1 as (on & -> & [= <-]). cbn [gbind].
    assert (exists s1, (if on then countTx (fun s tx => addCross s (sinceSent commitTime tx)) s tx else Ok s) = Ok s1 /\
      adds s s1 0 (if on then 1 else 0)) as (s1 & -> & A1).
    { destruct on; [|exists s; split; [done|by apply adds_none]]. apply countTx_adds; [done|]. intros. by apply cross_adds. }
    cbn [gbind]. destruct (IH (S i) _ n Hts E s1 (adds_counting _ _ _ _ A1)) as (s2 & E2 & A2 & B).
    exists s2. split; [by replace (Z.of_nat i + 1) with (Z.of_nat (S i)) by lia|]. split; [|destruct on; lia].
    replace (n - c) with ((if on then 1 else 0) + (n - (if on then c + 1 else c))) by (destruct on; lia).
    replace 0 with (0 + 0) at 1 by done. by eapply adds_then.
Qed.
Lemma countCommitted_none commitTime s : forall txs i, 0 <= i -> countCommitted commitTime (BV.NewBitVector 0) i txs s = Ok s.
Proof.
  induction txs as [|tx txs IH]; intros i Hi; cbn [countCommitted]; [done|].
  replace (BV.GetIndex (BV.NewBitVector 0) i) with (Ok false); [cbn [gbind]; apply IH; lia|].
  cbn. destruct (i >=? 0) eqn:E; [done|lia].
Qed.

(** *** The heights that a node finished

    A finished height is in the store, under the chain of the node; its numbers are
    logged. A shard with cross-shard transactions has a commit status with a bit for
    each of them, the others have none. *)
Record Done := mkDone { log : HeightLog; block : Block.t; commitStatus : bytes }.
Definition stored (d : Database) (chain_id : string) (h : Z) (b : Block.t) : Prop :=
  exists bz, PrefixStore.GetBlockByHeight d h chain_id = (Some bz, None) /\ Block.NewBlockFromBytes bz = Ok (Some b).
Definition numbers (x : HeightLog) : Z * Z * Z := (innerTxs x, passTxs x, allTxs x).
Inductive finish (r : Done) : Prop :=
| finish_C bv : BV.NewBitArrayFromByte (commitStatus r) = Ok bv ->
    BV.Size bv = zlen (CrossShardBody.CrossShardTxs (Block.CrossShardBody (block r))) ->
    Consensus.finishC (block r) (commitStatus r) = Ok (numbers (log r)) -> finish r
| finish_I : commitStatus r = [] -> Consensus.finishI (block r) = numbers (log r) -> finish r.
Definition transfers (b : Block.t) : Prop :=
  Forall transfer (Body.BodyTxs (Block.Body b)) /\ Forall transfer (CrossShardBody.CrossShardTxs (Block.CrossShardBody b)).

(** The heights from [n] on: every block has the commit status of the one before
    it, and the block of the height that is not finished is not stored. *)
Inductive kept (d : Database) (chain_id : string) : Z -> list Done -> Prop :=
| kept_open n : PrefixStore.GetBlockByHeight d n chain_id = (None, None) -> kept d chain_id n []
| kept_done n r rs : stored d chain_id n (block r) -> finish r -> transfers (block r) ->
    (forall r', head rs = Some r' -> Relation.MyCommitStatus (Block.Relation (block r')) = commitStatus r) ->
    kept d chain_id (n + 1) rs -> kept d chain_id n (r :: rs).

(** A height with the one after it. *)
Record followed (d : Database) (chain_id : string) (h : Z) (r r' : Done) : Prop := {
  fl_stored : stored d chain_id h (block r) /\ stored d chain_id (h + 1) (block r');
  fl_finish : finish r;
  fl_transfers : transfers (block r);
  fl_status : Relation.MyCommitStatus (Block.Relation (block r')) = commitStatus r
}.
Lemma kept_followed d chain_id n rs r : kept d chain_id n (rs ++ [r]) ->
  (forall i x, rs !! i = Some x -> exists x', followed d chain_id (n + Z.of_nat i) x x') /\
  stored d chain_id (n + zlen rs) (block r) /\ PrefixStore.GetBlockByHeight d (n + zlen rs + 1) chain_id = (None, None).
Proof.
  revert n. induction rs as [|a rs IH]; intros n K; inversion K as [|? ? ? St Fi Tr Hs K']; subst.
  - cbn. rewrite Z.add_0_r. split; [done|]. split; [done|]. by inversion K'.
  - destruct (IH _ K') as (F & Sr & N). split.
    + intros [|i] x Hi; [|destruct (F i x Hi) as (x' & Fx); exists x'; by replace (n + Z.of_nat (S i)) with (n + 1 + Z.of_nat i) by lia].
      injection Hi as <-. rewrite Z.add_0_r. destruct (rs ++ [r]) as [|x' l] eqn:E; [by destruct rs|].
      exists x'. split; [|done|done|by apply Hs]. split; [done|]. by inversion K'.
    + cbn [length]. by replace (n + Z.of_nat (S (length rs))) with (n + 1 + zlen rs) by lia.
Qed.

Lemma finish_inner r : finish r -> innerTxs (log r) = zlen (Body.BodyTxs (Block.Body (block r))).
Proof.
  intros [bv _ _ E|_ E]; [|by injection E as -> _ _]. apply gbind_Ok in E as (bv' & _ & E).
  apply gbind_Ok in E as (n & _ & E). by injection E as -> _ _.
Qed.

Lemma committed_adds commitTime r s : finish r -> Forall transfer (CrossShardBody.CrossShardTxs (Block.CrossShardBody (block r))) ->
  counting s -> exists bv s', BV.NewBitArrayFromByte (commitStatus r) = Ok bv /\
    countCommitted commitTime bv 0 (CrossShardBody.CrossShardTxs (Block.CrossShardBody (block r))) s = Ok s' /\
    adds s s' 0 (passTxs (log r)) /\ 0 <= passTxs (log r) /\ (allTxs (log r) = 0 -> passTxs (log r) = 0).
Proof.
  intros [bv E Hz F|E F] Ht Hs.
  - unfold Consensus.finishC in F. rewrite E in F. cbn [gbind] in F. apply gbind_Ok in F as (n & En & [= _ En' Ea]). subst n.
    unfold BV.CountNoneZero in En. rewrite Hz, Nat2Z.id in En.
    destruct (countCommitted_bits commitTime bv _ 0 0 _ Ht En s Hs) as (s' & E' & A & B). exists bv, s'.
    rewrite Z.sub_0_r in A. split_and!; [done..|lia|lia].
  - injection F as _ <- <-. rewrite E. exists (BV.NewBitVector 0), s. split; [done|].
    split; [by apply countCommitted_none|]. split; [by apply adds_none|lia].
Qed.

Lemma measureHeight_adds d chain_id h r r' s : followed d chain_id h r r' -> counting s ->
  exists s', measureHeight measureMelete d chain_id s h = Ok s' /\ adds s s' (innerTxs (log r)) (passTxs (log r)).
Proof.
  intros [[(bz & E1 & E2) (bz' & E3 & E4)] Fi [Ti Tc] Es] Hs.
  unfold measureHeight, measureMelete. rewrite E1. change (default [] (Some bz)) with bz. rewrite E2. cbn [gbind]. rewrite E3, E4. cbn [gbind].
  unfold countInner. destruct (countAll_adds (fun s tx => addInner s (sinceSent (Header.Time (Block.Header (block r'))) tx)) _ 1 0 Ti)
    with (s := s) as (s1 & -> & A1); [by intros; apply inner_adds|done|]. cbn [gbind]. rewrite Es.
  destruct (committed_adds (Header.Time (Block.Header (block r'))) r s1 Fi Tc) as (bv & s2 & -> & E & A2 & _); [by eapply adds_counting|].
  cbn [gbind]. rewrite E.
  exists s2. split; [done|]. rewrite Z.mul_1_l, Z.mul_0_l, <- (finish_inner r Fi) in A1.
  pose proof (adds_then _ _ _ _ _ _ _ A1 A2) as A. by rewrite Z.add_0_r, Z.add_0_l in A.
Qed.
(** Nothing confirms the last finished height. *)
Lemma measureHeight_last d chain_id h b s : stored d chain_id h b ->
  PrefixStore.GetBlockByHeight d (h + 1) chain_id = (None, None) -> measureHeight measureMelete d chain_id s h = Ok s.
Proof. intros (bz & E1 & E2) E. unfold measureHeight. rewrite E1. change (default [] (Some bz)) with bz. rewrite E2. cbn [gbind]. by rewrite E. Qed.

Definition at_height (f : HeightLog -> Z) (n : Z) (hs : list HeightLog) (h : Z) : Z := from_option f 0 (heightAt n hs h).
Lemma at_height_in f n hs i : at_height f n hs (n + Z.of_nat i) = from_option f 0 (hs !! i).
Proof. unfold at_height, heightAt, zlook. rewrite decide_False by lia. by replace (Z.to_nat (n + Z.of_nat i - n)) with i by lia. Qed.

Lemma heights_add d chain_id f g : forall hts,
  (forall h, h ∈ hts -> forall s, counting s -> exists s', measureHeight measureMelete d chain_id s h = Ok s' /\ adds s s' (f h) (g h)) ->
  forall s, counting s -> exists s', go_foldl (measureHeight measureMelete d chain_id) s hts = Ok s' /\
    adds s s' (zsum (map f hts)) (zsum (map g hts)).
Proof.
  induction hts as [|h hts IH]; intros Hr s Hs; cbn [go_foldl map].
  - exists s. split; [done|by apply adds_none].
  - destruct (Hr h) with (s := s) as (s1 & -> & A1); [by constructor|done|].
    cbn [gbind]. destruct (IH (fun k Hk => Hr k (proj2 (elem_of_cons hts k h) (or_intror Hk))) s1) as (s2 & -> & A2); [by eapply adds_counting|].
    exists s2. split; [done|]. rewrite !zsum_cons. by eapply adds_then.
Qed.

(** The heights without transactions add nothing, and neither does the last. *)
Lemma busy_sum (f : HeightLog -> Z) n hs : (forall x, x ∈ hs -> ~ busy x -> f x = 0) ->
  zsum (map (at_height f n hs) (busyHeights n hs)) = zsum (map f hs).
Proof.
  intros Hz. unfold busyHeights. rewrite map_map.
  rewrite (map_ext_in _ (fun p : Z * HeightLog => f p.2)).
  - clear -Hz. revert n. induction hs as [|x hs IH]; intros n; [done|].
    assert (imap (fun i y => (n + Z.of_nat i, y)) (x :: hs) = (n, x) :: imap (fun i y => (n + 1 + Z.of_nat i, y)) hs) as ->.
    { cbn. f_equal; [f_equal; lia|]. apply imap_ext. intros i y _. cbn. f_equal. lia. }
    specialize (IH (fun y Hy => Hz y (proj2 (elem_of_cons hs y x) (or_intror Hy))) (n + 1)). cbn [List.filter snd].
    destruct (Z.eqb_spec (innerTxs x + allTxs x) 0) as [E|E]; cbn [negb map]; rewrite !zsum_cons; [|by rewrite <- IH].
    rewrite IH, (Hz x); [done|by constructor|]. unfold busy. by intros [].
  - intros [h x] [Hin _]%filter_In. apply list_elem_of_In, elem_of_lookup_imap in Hin as (i & y & [= -> ->] & Hi).
    cbn [fst snd]. by rewrite at_height_in, Hi.
Qed.

Lemma busy_snoc f n hs x : zsum (map (at_height f n hs) (busyHeights n (hs ++ [x]))) = zsum (map (at_height f n hs) (busyHeights n hs)).
Proof.
  unfold busyHeights. rewrite imap_app, List.filter_app, !map_app, zsum_app.
  cbn [imap List.filter snd]. destruct (negb _); cbn [map fst]; [|by rewrite Z.add_0_r].
  rewrite zsum_cons, at_height_in, lookup_ge_None_2 by lia. cbn. lia.
Qed.

Lemma latencies_sum d chain_id n rs ps : exact n (map log rs) ps -> kept d chain_id n rs -> Forall (fun r => 0 <= innerTxs (log r) /\ 0 <= allTxs (log r)) rs ->
  exists s, latencies measureMelete d chain_id ps = Ok s /\
    innerCount s = i64 (zsum (map innerTxs (removelast (map log rs)))) /\
    crossCount s = i64 (zsum (map passTxs (removelast (map log rs)))).
Proof.
  intros He K Hn. pose proof (visited_busy n _ ps He) as Hp. unfold latencies.
  destruct rs as [|r rs _] using rev_ind.
  { cbn in Hp. apply Permutation_nil_r in Hp. rewrite Hp. by exists noSums. }
  destruct (kept_followed _ _ _ _ _ K) as (F & Sr & N). apply Forall_app in Hn as [Hn _].
  rewrite map_app in *. cbn [map] in *. rewrite removelast_last. set (hs := map log rs) in *.
  destruct (heights_add d chain_id (at_height innerTxs n hs) (at_height passTxs n hs) (ps ≫= heightsOf)) with (s := noSums) as (s & -> & A1 & A2).
  - intros h Hh s Hs. rewrite Hp in Hh. apply elem_of_busy in Hh as (i & x & Hi & _ & ->). rewrite !at_height_in.
    apply lookup_app_Some in Hi as [Hi|[Hge Hi]].
    + rewrite Hi. apply list_lookup_fmap_Some in Hi as (y & -> & Hi). destruct (F i y Hi) as (y' & Fy). by eapply measureHeight_adds.
    + apply list_lookup_singleton_Some in Hi as [Hi _]. unfold hs in Hge, Hi. rewrite length_map in Hge, Hi. assert (i = length rs) as -> by lia.
      exists s. rewrite (measureHeight_last _ _ _ _ _ Sr N). split; [done|].
      rewrite lookup_ge_None_2 by (unfold hs; by rewrite length_map). by apply adds_none.
  - split; vm_compute; (split; [discriminate|reflexivity]).
  - exists s. split; [done|]. rewrite A1, A2. cbn [innerCount crossCount noSums]. rewrite !Z.add_0_l, !Hp, !busy_snoc.
    assert (forall x, x ∈ hs -> ~ busy x -> innerTxs x = 0 /\ passTxs x = 0) as Hz.
    { intros x (y & -> & Hy)%list_elem_of_fmap Hb. unfold busy in Hb. pose proof Hy as [i Hi]%list_elem_of_lookup.
      destruct (F i y Hi) as (y' & [_ Fi [_ Tc] _]). destruct (committed_adds (Header.Time (Block.Header (block y))) y noSums Fi Tc) as (_ & _ & _ & _ & _ & _ & Hz);
        [split; vm_compute; (split; [discriminate|reflexivity])|].
      rewrite Forall_forall in Hn. specialize (Hn y Hy). split; [lia|]. apply Hz. lia. }
    by rewrite !busy_sum by (intros x Hx Hb; by apply Hz).
Qed.
End tool.

Section log.
Context `{DB, !Codec pbBlock, !Codec pbTransferTx, !Codec pbMessageAcceptSet, EventJSON, Disk, !EventJSONLaws}.
Import BlockLogger EventLogSpec.

(** The numbers of a log are not negative. *)
Lemma logged_numbers n rs : loggedFrom n (map log rs) -> Forall (fun r => 0 <= innerTxs (log r) /\ 0 <= allTxs (log r)) rs.
Proof.
  revert n. induction rs as [|r rs IH]; intros n L; [constructor|]. inversion L as [|? ? ? [_ _ _ Ln] L']; subst.
  constructor; [lia|by eapply IH].
Qed.

(** C37: The latency tool counts what the node logged, the last height apart. A
    melete node that stopped inside a height has stored the blocks of the heights
    that it finished ([kept]), each with the commit status of the one before, and
    not the block of the height it was in, so that nothing confirms the last
    finished height; the numbers it logged, to a new file on a disk without faults,
    are those that [doCSC_C] or [doCSC_I] computes from these blocks. When the
    transactions are transfers and a commit status has a bit for every cross-shard
    transaction, the transfers that the tool finds in the heights of its periods are
    as many as the logged numbers of inner and of committed transactions of all
    finished heights but the last, none twice and none left out. *)
Theorem latency_counts_log dir node chain w rs e rest d (Hdisk : forall f n, fault f n = None)
  (Hstart : OnStart (NewBlockWriter dir node chain) = (w, None))
  (Hnew : OpenFile (brief_path (NewBlockWriter dir node chain)) = inl [])
  (Hlog : loggedFrom 1 (map log rs)) (Hopen : openHeight (1 + zlen rs) e rest)
  (Hread : Forall readable (nodeLog (map log rs) e rest)) (Hsize : zlen rs < 2 ^ 62)
  (Hstore : kept d chain 1 rs) :
  exists w' s, writeEvents w (nodeLog (map log rs) e rest) = Ok w' /\ main measureMelete (brief w') d chain = Ok s /\
    innerCount s = i64 (zsum (map innerTxs (removelast (map log rs)))) /\
    crossCount s = i64 (zsum (map passTxs (removelast (map log rs)))).
Proof.
  assert (zlen (map log rs) = zlen rs) as El by (by rewrite length_map). rewrite <- El in Hopen, Hsize.
  destruct (log_read Hdisk w _ (OnStart_holding _ _ _ _ Hstart Hnew) Hread) as (w' & E & Er).
  destruct (periods_exact 1 _ e rest Hlog Hopen) as (ps & Ep & Hps); [lia|lia|].
  destruct (latencies_sum d chain 1 rs ps Hps Hstore) as (s & Es & E1 & E2); [by eapply logged_numbers|].
  exists w', s. split; [done|]. split; [|done].
  destruct (op_entered _ _ _ Hopen) as (_ & _ & Ee). unfold main.
  rewrite Er, (ended_nodeLog 1 _ _ _ (1 + zlen (map log rs))) by (done || apply Hopen). cbn [gbind]. rewrite Ep. cbn [gbind].
  by rewrite zip_fst_snd.
Qed.
End log.
End Latency.

(** ** A store of two blocks with transfers *)

Module LatencyDemo.
Import StoreDemo DemoCodecs PyramidDemoCodecs BankTxDemo ConsensusEvent BlockLogger EventLogSpec EventLogDemo Latency.

Definition payment (s : Z) : bytes := valueOf [] (TransferBytes (NewTransferTx ["a"] [1] ["b"] [1] (at_ s))).
Definition blockAt (h : Z) (ty : Z) (status : bytes) (txs cross : list bytes) : Block.t :=
  Block.mk (Header.mk ty [] "b" h (at_ (10 * h)) [] [] [] [] []) (Body.mk txs) (CrossShardBody.mk cross []) (Relation.mk [] [] status) [].
Definition saved (d : gmap bytes bytes) (b : Block.t) : gmap bytes bytes :=
  match PrefixStore.SetBlockByHeight d (Header.Height (Block.Header b)) "b" (mkStored (of_str (pretty (Header.Height (Block.Header b)))) (Block.ProtoBytes b)) with
  | Ok (d, _) => d
  | _ => d
  end.
(** The second of two cross-shard transactions of the second block was refused. *)
Definition status : bytes := BV.Byte (Some (BV.mk 2 [Byte.x01])).
Definition meleteBlocks : list Block.t :=
  [blockAt 1 0 [] [] []; blockAt 2 0 [] [payment 5; payment 7] [payment 3; payment 4]; blockAt 3 0 status [payment 21] []].
Definition blockStore : Database := foldl saved ∅ meleteBlocks.
Definition threeHeights : list Done := zip_with (fun x p => mkDone x p.1 p.2)
  [aHeight 1 0 0 0; aHeight 2 2 1 2; aHeight 3 1 0 0] (zip meleteBlocks [[]; status; []]).

Definition isTransfer (txBytes : bytes) : bool := match NewTransferTxFromBytes txBytes with Ok (Some _) => true | _ => false end.
Lemma isTransfer_all txs : forallb isTransfer txs = true -> Forall transfer txs.
Proof.
  intros Ht. apply List.Forall_forall. intros tx Hin. rewrite forallb_forall in Ht. specialize (Ht tx Hin).
  unfold isTransfer in Ht. unfold transfer. destruct (NewTransferTxFromBytes tx) as [[t|]| |]; [eauto|done..].
Qed.

Definition blockBytes (b : Block.t) : bytes := valueOf [] (Block.ProtoBytes b).
Lemma isTransfer_both b : forallb isTransfer (Body.BodyTxs (Block.Body b)) &&
  forallb isTransfer (CrossShardBody.CrossShardTxs (Block.CrossShardBody b)) = true -> transfers b.
Proof. intros [H1 H2]%andb_prop. split; by apply isTransfer_all. Qed.
Lemma stored_at h b : PrefixStore.GetBlockByHeight blockStore h "b" = (Some (blockBytes b), None) ->
  Block.NewBlockFromBytes (blockBytes b) = Ok (Some b) -> stored blockStore "b" h b.
Proof. by exists (blockBytes b). Qed.
Lemma three_kept : kept blockStore "b" 1 threeHeights.
Proof.
  constructor; [apply stored_at; vm_compute; reflexivity|apply finish_C with (bv := Some (BV.mk 0 [])); vm_compute; reflexivity|
    apply isTransfer_both; vm_compute; reflexivity|by intros r [= <-]|].
  constructor; [apply stored_at; vm_compute; reflexivity|apply finish_C with (bv := Some (BV.mk 2 [Byte.x01])); vm_compute; reflexivity|
    apply isTransfer_both; vm_compute; reflexivity|by intros r [= <-]|].
  constructor; [apply stored_at; vm_compute; reflexivity|apply finish_C with (bv := Some (BV.mk 0 [])); vm_compute; reflexivity|
    apply isTransfer_both; vm_compute; reflexivity|done|].
  constructor. vm_compute. reflexivity.
Qed.

(** The transfer of the third height is not measured. *)
Lemma latency_counts_log_witness : exists w' s, writeEvents started (nodeLog (map log threeHeights) (enters 4) (stepsOf 4)) = Ok w' /\
  main measureMelete (brief w') blockStore "b" = Ok s /\ innerCount s = 2 /\ crossCount s = 1.
Proof.
  destruct (latency_counts_log "dir" "node1" "b" started threeHeights (enters 4) (stepsOf 4) blockStore) as (w' & s & E1 & E2 & E3 & E4).
  - done.
  - reflexivity.
  - reflexivity.
  - repeat (constructor; [split; [done|by repeat constructor|done|vm_compute; split_and!; done]|]). constructor.
  - split; [done|by repeat constructor].
  - apply isReadable_all. vm_compute. reflexivity.
  - vm_compute. reflexivity.
  - exact three_kept.
  - exists w', s. split; [exact E1|]. split; [exact E2|]. rewrite E3, E4. split; vm_compute; reflexivity.
Defined.

(** 25 and 23 seconds for the two transfers, and 27 for the one that committed. *)
Example melete_latencies : latencies measureMelete blockStore "b" [(1, 3)] = Ok (mkSums 2 1 48000000000 27000000000).
Proof. vm_compute. reflexivity. Qed.

(** In a B shard the fourth block decides on the block that was stored under its
    hash. *)
Definition deciding (code : Z) : bytes :=
  valueOf [] (MessageAcceptSet.ProtoBytes (MessageAcceptSet.mk
    [MessageAccept.mk (of_str "2") (PrecommitAggregated.mk VoteTypePrecommitAggregated code (Some (BV.mk 3 [Byte.x07]))
      (PartSetHeader.mk 1 0 1 [] "i") [] "")] (of_str "2"))).
Definition pyramidStore (code : Z) : Database := foldl saved ∅
  [blockAt 1 BLOCKTYPE_InnerShard [] [payment 2] []; blockAt 2 BLOCKTYPE_CrossShard [] [] [payment 3];
   blockAt 3 BLOCKTYPE_BCommitBlock [] [deciding code] []; blockAt 4 BLOCKTYPE_InnerShard [] [] []].
Example pyramid_latencies :
  latencies measurePyramid (pyramidStore CodeTypeOK) "b" [(1, 3)] = Ok (mkSums 1 1 18000000000 49333333333) /\
  latencies measurePyramid (pyramidStore CodeTypeAbort) "b" [(1, 3)] = Ok (mkSums 1 0 18000000000 0).
Proof. vm_compute. split; reflexivity. Qed.
End LatencyDemo.
